(* ===== verification/_CoqProject ===== *)
-Q . S2P
Prelude.v
JsString.v
JsMap.v
JsValue.v
Json.v
StatusRules.v
RatioSync.v
Message.v
Reasoning.v
Streaming.v
Conversation.v
Payload.v
Attachments.v
Storage.v
AuthSession.v
Flow.v
FlowGraph.v
FlowView.v
AdvancedCustom.v
PendingOperation.v
ExactUsd.v
Keys.v
Channels.v
ChannelForm.v
ChannelReload.v
ChannelSave.v
ParamOverride.v
OverrideEditor.v
QuotaHistory.v
Overview.v
Regex.v
BillingExpr.v
TierExpr.v
TierView.v
BillingEditor.v
TierEditor.v
ModelPricing.v
UpstreamUpdates.v
ChannelList.v
HttpClient.v
SecureVerification.v
RequestScope.v
OAuthCallback.v
AccountBinding.v
StreamController.v
ChatHandler.v
