(* ===== verification/Prelude.v ===== *)
(** * A verification of the MyAPI web client

    MyAPI is a gateway for AI providers: a Go server and a browser client written in
    TypeScript (src/web/src). This library models the logic of the client that is not
    rendering: the playground, in which a user chats with a model through the gateway,
    the login session every request depends on, and the logic behind the administration
    pages: prices, channels, keys and the dashboard. Each file models the source files it
    names; definitions keep the names of the source, and a definition without a counterpart of that name is a part of one (a loop,
    a callback, the code after an [await]).

    ** How the parts interact

    The conversation hook (Conversation) turns the user's actions into a list of messages
    and asks the chat handler to send it. The chat handler (ChatHandler) checks the
    selected key and the attachments (Payload, Attachments), builds the payload (Payload)
    and starts either a plain request or a stream. The stream request controller
    (StreamController) owns the event source of a stream, parses what it sends and calls
    back. The handler batches the chunks and queues updates of the last message, which
    append to it and separate reasoning from visible text (Message, Reasoning,
    Streaming). The conversation is stored for each account and cleaned when it is loaded
    (Storage). The headers of every request come from the session (AuthSession), which
    refreshes itself. The HTTP client (HttpClient) shares equal requests, and when a request
    is refused it asks the session for a refresh and sends the request again. Requests that
    need a proof that the user is present go through a dialog (SecureVerification). On the
    account page requests belong to the login they were made for (RequestScope); an identity
    provider is bound to the account (AccountBinding) through a pop-up, in which the provider
    returns to a page that is also the one for signing in (OAuthCallback).

    The administration pages edit values the server stores. The prices of models are a table
    (ModelPricing) of ratios, fixed prices or expressions. An expression is a text that the
    editor (TierEditor) writes and reads (TierExpr for its tiers, BillingExpr for the factors that
    depend on the request) and the pricing page reads again (TierView); prices of other gateways are
    taken over by choice (RatioSync). A channel is loaded into a form, checked and saved from it
    (ChannelForm, ChannelReload, ChannelSave), with an editor for the rewriting of requests
    (ParamOverride, OverrideEditor) and checks of its custom routes (AdvancedCustom), its
    mappings, routes and limits (Channels) and its status codes (StatusRules); its quota is
    followed over time (QuotaHistory), models its provider added or removed are applied from a
    dialog (UpstreamUpdates), and the list sums channels up by tag (ChannelList). A key has a scope, a
    form and pending credential operations (Keys, PendingOperation) and exact amounts
    (ExactUsd). The dashboard draws the traffic as a graph (Flow, FlowGraph, FlowView) and as
    an overview (Overview).

    ** Files

    - [Prelude], [JsString], [JsMap], [JsValue]: shared lemmas and tactics; the language's
      strings (lists of UTF-16 code units), insertion-ordered maps and sets, numbers and
      [unknown] values. [Json]: [JSON.parse] and [JSON.stringify] as an interface with laws,
      and a concrete instance.
    - [Message] (message-utils.ts, message-timing-utils.ts, message-update-utils.ts): the
      message record with its optional properties, creation, validity, timing.
    - [Reasoning] (message-reasoning-utils.ts): [parseThinkTags]. It terminates and
      computes what the grammar of tagged text says, for every content.
    - [Streaming] (message-streaming-utils.ts): chunks, completion, settling on load. A
      stream of cumulative chunks or of deltas leaves the right text, and completing the
      message shows its visible part and reasoning; loading settles the last pending
      message. Three theorems are about chunks and conversations that are handled wrongly.
    - [Conversation] (conversation-message-utils.ts, the view-state files of a message,
      use-playground-conversation.ts): what send, regenerate, edit and delete do to the
      list; the ownership of a failed draft.
    - [Payload] (payload-builder.ts, the parameter files, api.ts, playground-option-utils.ts,
      playground-key-handoff.ts): the payload, the keys and their paging, the hand-over of
      a key.
    - [Attachments] (chat-attachments.ts): limits and byte signatures, as equivalences.
    - [Storage] (storage.ts, storage-schema.ts): round trip up to the reductions of loading,
      bounds of what is loaded, isolation of accounts, and the loss of oversized conversations.
    - [AuthSession] (auth-session.ts, auth-store.ts, auth-session-sync.ts): the refresh
      runner stops; sign-in and sign-out supersede refreshes; one refresh at a time, which
      its deadline settles; the effects of each response (a run settles in the step that has
      its effects).
    - [HttpClient] (http-client.ts, server-error-message.ts): equal requests are shared while
      they are under way; a refused call waits for the one refresh of the session and is sent
      again at most once; which answers change the session.
    - [SecureVerification] (use-secure-verification.ts with its requests and its dialog,
      secure-verification.ts): a proof is used for its scope only; every verification ends;
      the offered method can be used; dismissing the dialog does not stop a verification.
    - [RequestScope] (use-security-request-scope.ts): which results of the account page are still
      current. [OAuthCallback] (routes/oauth/$provider.tsx, oauth-callback-mode.ts,
      oauth-bind-window.ts, auth-redirect.ts): the page an identity provider returns to; a stamp
      identifies a binding, its page closes, navigations stay local. [AccountBinding]
      (account-bindings-tab.tsx): a binding is completed for the login and the pop-up that began
      it; superseded bindings are inert; both windows together bind an account.
    - [StreamController] (use-stream-request.ts, stream-utils.ts, request-error-utils.ts):
      order of callbacks, no callback after cancellation, no leaked source, delivery.
    - [ChatHandler] (use-chat-handler.ts): a streamed answer whose chunks do not repeat reaches
      its message whole in every interleaving; each request is settled once; superseded requests are inert.
    - [StatusRules] (http-status-code-rules.ts): parsing of status code rules: meaning,
      canonical form, round trip.
    - [RatioSync] (upstream-ratio-sync-helpers.ts): selections keep fixed prices and
      ratios apart and agree with the list of effective selections; removals are exact.
    - [Regex]: regular expressions with the backtracking matcher of the language, sound and
      complete for what the patterns mean.
    - [BillingExpr] (billing-expr.ts, from the request rules on): the rules the editor
      writes are read back, and split from the price they are combined with; conditions
      written with two conjuncts are not.
    - [TierExpr] (tier-expr.ts and the variables of billing-expr.ts): tiered prices; the
      editor reads back what it wrote. [TierView] (parseTiersFromExpr, dynamic-price.ts,
      model-helpers.ts): the page's own parser agrees; entries and group ratios.
      [BillingEditor]: their composition with the request rules, from saving to loading.
    - [TierEditor] (tiered-pricing-editor.tsx): the editor as a component. Its effects come to
      rest; a written price opens and changes modes without loss; edits keep the tiers well
      formed. Two theorems are about rules that are erased when a price is opened, or doubled when
    it is switched to the expression.
    - [ModelPricing] (model-pricing-snapshots.ts, model-pricing-core.ts, model-pricing-sheet.tsx,
      model-ratio-visual-editor.tsx, pricing-format.ts, json-parser.ts): the table of prices,
      the editor of a model and saving. What is saved is read back and other models are kept;
      ratios follow the prices that are typed; saving without a change changes nothing. One
      theorem is about a chosen mode that is ignored.
    - [Flow], [FlowGraph], [FlowView] (features/dashboard/lib/flow.ts, flow-selection.ts): the
      definitions; nodes and links as sums over paths, conservation, totals; masking,
      highlighting, limits and filters.
    - [Overview] (overview-flow.ts, request-facts.ts, window-state.ts): keys with the requests
      of a sample, folding, hours, saved windows.
    - [AdvancedCustom] (advanced-custom.ts): validation of custom routes is exact; edits of
      management and forwarding routes are independent.
    - [Channels] (model-mapping-validation.ts, status-code-risk-guard.ts,
      channel-field-update.ts, model-routes.ts, input-token-limits.ts, channel-routing.ts):
      the checks of the channel editor; delayed edits refine a one-place buffer.
    - [ChannelForm], [ChannelReload] (channel-form.ts): the schema, both payloads and loading.
      A form the schema accepts is saved without an error and with the declared types; the
      saved settings are what a table says; a key is sent only when it was typed; a saved
      channel that is loaded is saved the same; bounds of the transport.
    - [ChannelSave] (use-channel-mutate-form.ts, channel-actions.ts, channel-form-errors.ts,
      copy-channel-dialog.tsx, admin-permissions.ts): sensitive fields are withheld without
      the permission; a retry of a creation or of a copy repeats its key, and nothing else
      does; every save ends once.
    - [ParamOverride], [OverrideEditor] (param-override-editor-dialog.tsx): rules for rewriting
      requests. What was saved opens as it was, for plain values; the editor stays well formed whatever is
      done; dragging moves one rule. Two theorems are about values and rules that are lost.
    - [UpstreamUpdates] (use-channel-upstream-updates.ts, upstream-update-utils.ts,
      upstream-update-dialog.tsx): one request of each kind at a time, which ends; what is
      applied and ignored. Three theorems are about selections and dialogs that get lost or
      are carried over to another channel.
    - [ChannelList] (channel-utils.ts): the rows of tags are exact; repeated keys are removed.
      Two theorems are about a priority that is lost and keys that are not masked.
    - [QuotaHistory] (quota-history.ts): the drawn trend is faithful to the observations.
    - [Keys] (model-scope.ts, key-condition.ts, access-profile.ts, api-key-form.ts): scopes,
      conditions, profiles, the form of a key and its round trip.
    - [PendingOperation] (the two pending-operation files, operation-id.ts): a pending
      operation is protected. [ExactUsd] (exact-usd.ts, token-budget-schema.ts): comparisons
      and conversions of decimal texts are exact.

    ** Conventions

    A string is a list of UTF-16 code units. A number that is only ever a whole number
    (times, sizes, indices, counters) is a [Z] or a [nat]; elsewhere it is a [jsnum]: NaN,
    an infinity or the rational of a finite double; operations that round are parameters. An
    optional property is an [option]. Code that throws returns a [result]. Instants
    ([Date.now()]) and fresh identifiers ([nanoid()]) are arguments in the order the code
    reads them. Stateful code passes its state; asynchronous code is a state machine: the
    code up to an [await] is one step, the rest is another, taken when the awaited thing
    happens, and theorems quantify over all sequences of events. React's deferred
    updaters are queued data. Loops that are not structural take fuel, and the theorems
    show that it suffices: the length of the text for the think-tag loop, 8 rounds for the
    refresh runner, one round per page for the keys, the length of the text for outer
    parentheses.

    Further fuel: the length of the text for repeated patterns and for the loops over matches
    and pieces of a text.

    Parameters stand for code outside the repository and for arithmetic on doubles:
    [JSON] and the schema library (the classes [Json.Json.Json] and
    [Storage.Storage.Codec], with concrete instances), axios ([HttpClient.Http.Axios]), random
    keys ([ChannelSave.OperationKey.Crypto], which do not repeat within the calls of a page),
    passkeys ([SecureVerification.Verification.Browser]), URLs and storage of the browser (the
    classes [OAuthCallback.OAuthCallback.Urls], [AdvancedCustom.Browser] and
    [PendingOperation.WebStorage]), arithmetic of prices ([ModelPricing.ModelPricing.Doubles]) and of quotas
    ([Keys.KeyForm.Doubles], whose laws in [Keys.KeyForm.Rounding] bound the error), collation, local time, reading and printing of numbers,
    sums of doubles, the translation function [t], the server's answers. What a theorem needs
    of them is a hypothesis or a law of the class, and a witness instantiates it.

    ** What is not modelled

    Rendering, styles, routes, menus, charts and translations; the HTTP library
    itself; number and date formatting of the platform; FileReader, BroadcastChannel
    and the other browser services themselves; the local price estimator, which evaluates
    the expression as a program. The other actions on channels, the pages of connections
    (features/connections), of the wallet and of the remaining settings are mostly display and
    single requests followed by a notification, and are left out. Of the pages and dialogs
    that are modelled the texts of templates, the search, the summaries and the labels are
    left out. The
    Go server is a program of its own. *)
From stdpp Require Export base tactics list gmap strings sorting.
From Stdlib Require Export ZArith Lia.

(** ** Scopes and hint databases *)

Declare Scope js_scope.
Delimit Scope js_scope with js.

Create HintDb js discriminated.

(** ** Results of code that may throw

    A TypeScript function that may [throw new Error(msg)] is a function to
    [result]; the message is kept because callers show it. *)

Inductive result (E A : Type) : Type :=
| Ok (a : A)
| Throw (e : E).
Arguments Ok {E A} a.
Arguments Throw {E A} e.

Definition result_bind {E A B : Type} (r : result E A) (k : A → result E B) : result E B :=
  match r with
  | Ok a => k a
  | Throw e => Throw e
  end.

Notation "'try!' x := c 'in' k" := (result_bind c (λ x, k))
  (at level 10, x name, c at level 100, k at level 200) : js_scope.

Lemma result_bind_Ok_inv {E A B} (r : result E A) (k : A → result E B) (b : B) :
  result_bind r k = Ok b ↔ ∃ a, r = Ok a ∧ k a = Ok b.
Proof. destruct r; simpl; naive_solver. Qed.

(** ** Tactics *)

(** Split every boolean conjunction in the context into propositions. *)
Ltac split_bools :=
  repeat match goal with
  | H : (_ && _) = true |- _ => apply andb_true_iff in H; destruct H
  | H : (_ || _) = false |- _ => apply orb_false_iff in H; destruct H
  | H : negb _ = true |- _ => apply negb_true_iff in H
  | H : negb _ = false |- _ => apply negb_false_iff in H
  end.

(** Case analysis on the scrutinees that block the goal, with equations. *)
Ltac case_goal :=
  repeat (match goal with
  | |- context [match ?x with _ => _ end] => destruct x eqn:?
  end; simplify_eq/=).

(** ** Array.prototype.sort

    JavaScript's sort is stable; with a comparator that is a total preorder its
    result is the stable insertion sort. [le x y] is [cmp(x, y) <= 0]. *)
Section sort.
Context {A : Type} (le : A → A → bool).

Fixpoint sort_insert (x : A) (l : list A) : list A :=
  match l with
  | [] => [x]
  | y :: l' => if le x y then x :: y :: l' else y :: sort_insert x l'
  end.

Definition js_sort (l : list A) : list A := foldr sort_insert [] l.

Lemma sort_insert_perm x l : sort_insert x l ≡ₚ x :: l.
Proof.
  induction l as [|y l IH]; simpl; [done|].
  destruct (le x y); [done|]. rewrite IH. apply Permutation_swap.
Qed.

Lemma js_sort_perm l : js_sort l ≡ₚ l.
Proof.
  induction l as [|x l IH]; simpl; [done|].
  by rewrite sort_insert_perm, IH.
Qed.

Lemma js_sort_elem_of x l : x ∈ js_sort l ↔ x ∈ l.
Proof. by rewrite js_sort_perm. Qed.

Lemma js_sort_length l : length (js_sort l) = length l.
Proof. apply Permutation_length, js_sort_perm. Qed.

Context (le_total : ∀ x y, le x y = false → le y x = true).

Lemma sort_insert_Sorted x l :
  Sorted (λ a b, le a b = true) l → Sorted (λ a b, le a b = true) (sort_insert x l).
Proof.
  induction 1 as [|y l Hs IH Hhd]; simpl; [by repeat constructor|].
  destruct (le x y) eqn:E; [by repeat constructor|].
  constructor; [done|].
  destruct l as [|z l]; simpl; [by auto|].
  destruct (le x z); constructor; auto. by inversion Hhd.
Qed.

Lemma js_sort_Sorted l : Sorted (λ a b, le a b = true) (js_sort l).
Proof. induction l; simpl; auto using sort_insert_Sorted. Qed.

(** Sorting a sorted array changes nothing. *)
Lemma js_sort_id l : Sorted (λ a b, le a b = true) l → js_sort l = l.
Proof.
  induction 1 as [|x l Hs IH Hhd]; simpl; [done|].
  rewrite IH. destruct Hhd as [|y l Hxy]; simpl; [done|]. by rewrite Hxy.
Qed.
End sort.

(** Sorting commutes with a function the comparator does not see. *)
Lemma js_sort_map {A B} (f : A → B) (le : A → A → bool) (le' : B → B → bool) (l : list A) :
  (∀ a b, le' (f a) (f b) = le a b) → f <$> js_sort le l = js_sort le' (f <$> l).
Proof.
  intros Hle. induction l as [|x l IH]; [done|].
  change (f <$> sort_insert le x (js_sort le l) = sort_insert le' (f x) (js_sort le' (f <$> l))).
  rewrite <- IH. generalize (js_sort le l).
  intros r. induction r as [|y r IHr]; [done|].
  rewrite fmap_cons. cbn [sort_insert]. rewrite Hle. destruct (le x y); [done|]. by rewrite fmap_cons, IHr.
Qed.

(** ** Lists *)

Lemma last_removelast {A} (l : list A) x :
  last l = Some x → removelast l ++ [x] = l.
Proof.
  intros H. apply last_Some in H as [l' ->]. by rewrite removelast_last.
Qed.

Lemma forallb_Forall {A} (f : A → bool) (l : list A) :
  forallb f l = true ↔ Forall (λ x, f x = true) l.
Proof.
  induction l as [|x l IH]; simpl; [by split|].
  by rewrite andb_true_iff, Forall_cons, IH.
Qed.

Lemma existsb_Exists {A} (f : A → bool) (l : list A) :
  existsb f l = true ↔ Exists (λ x, f x = true) l.
Proof.
  induction l as [|x l IH]; simpl; [by rewrite Exists_nil|].
  by rewrite orb_true_iff, Exists_cons, IH.
Qed.

Section sorted_snoc.
Context {A : Type} (R : A → A → Prop).

Lemma Sorted_snoc l x y : Sorted R (l ++ [x]) → R x y → Sorted R ((l ++ [x]) ++ [y]).
Proof.
  induction l as [|z l IH]; simpl; intros Hs Hxy; [by repeat constructor|].
  inversion Hs as [|?? Hs' Hhd]; subst. constructor; [by apply IH|].
  destruct l; simpl in *; inversion Hhd; subst; by constructor.
Qed.

Lemma Sorted_snoc_replace l x x' :
  (∀ z, R z x → R z x') → Sorted R (l ++ [x]) → Sorted R (l ++ [x']).
Proof.
  intros Hr. induction l as [|z l IH]; simpl; intros Hs; [by repeat constructor|].
  inversion Hs as [|?? Hs' Hhd]; subst. constructor; [by apply IH|].
  destruct l; simpl in *; inversion Hhd; subst; constructor; auto.
Qed.
End sorted_snoc.

Lemma filter_all {A} (P : A → Prop) `{∀ x, Decision (P x)} (l : list A) :
  Forall P l → filter P l = l.
Proof.
  induction 1 as [|x l Hx Hl IH]; [done|]. rewrite filter_cons_True by done. by rewrite IH.
Qed.

Lemma map_fix {A} (f : A → A) (l : list A) : Forall (λ x, f x = x) l → map f l = l.
Proof. induction 1; simpl; congruence. Qed.

(** A list is cut in one way only at the last occurrence of an element. *)
Lemma last_cut_inj {A} (x : A) (l l' a b : list A) :
  x ∉ a → x ∉ b → l ++ x :: a = l' ++ x :: b → l = l' ∧ a = b.
Proof.
  intros Ha Hb. revert l'. induction l as [|y l IH]; intros [|z l'] H; simplify_eq/=.
  - done.
  - set_solver.
  - set_solver.
  - naive_solver.
Qed.

(** ** Sums *)

Definition sumZ {A} (f : A → Z) (l : list A) : Z := foldr (λ x s, f x + s)%Z 0%Z l.

Lemma sumZ_cons {A} (f : A → Z) x l : sumZ f (x :: l) = (f x + sumZ f l)%Z.
Proof. done. Qed.

Lemma sumZ_app {A} (f : A → Z) l k : sumZ f (l ++ k) = (sumZ f l + sumZ f k)%Z.
Proof. induction l as [|x l IH]; simpl; [done|]. rewrite IH. lia. Qed.

#[export] Instance sumZ_perm {A} (f : A → Z) : Proper ((≡ₚ) ==> (=)) (sumZ f).
Proof. induction 1; simpl; lia. Qed.

Lemma sumZ_ext {A} (f g : A → Z) l : (∀ x, x ∈ l → f x = g x) → sumZ f l = sumZ g l.
Proof.
  induction l as [|x l IH]; intros H; simpl; [done|].
  rewrite (H x), IH by set_solver. done.
Qed.

Lemma sumZ_map {A B} (f : B → Z) (g : A → B) l : sumZ f (map g l) = sumZ (λ x, f (g x)) l.
Proof. induction l as [|x l IH]; simpl; [done|]. by rewrite IH. Qed.

Lemma sumZ_nonneg {A} (f : A → Z) l : (∀ x, x ∈ l → 0 ≤ f x)%Z → (0 ≤ sumZ f l)%Z.
Proof.
  induction l as [|x l IH]; intros H; simpl; [done|].
  specialize (H x ltac:(left)) as Hx. specialize (IH ltac:(intros; apply H; by right)). lia.
Qed.

(** A left fold that adds is the sum. *)
Lemma foldl_sumZ {A} (f : A → Z) l a : foldl (λ s x, s + f x)%Z a l = (a + sumZ f l)%Z.
Proof. revert a. induction l as [|x l IH]; intros a; simpl; [lia|]. rewrite IH. lia. Qed.

(** Summing by groups: over distinct keys that cover the list, the sums of the groups add up
    to the sum of the list. *)
Lemma sumZ_groups {A K} `{EqDecision K} (key : A → K) (f : A → Z) ks l :
  NoDup ks → (∀ x, x ∈ l → key x ∈ ks) →
  sumZ (λ k, sumZ f (filter (λ x, key x = k) l)) ks = sumZ f l.
Proof.
  intros Hnd. induction l as [|x l IH]; intros Hin; simpl.
  - clear -ks. induction ks; simpl; lia.
  - rewrite <- IH by set_solver. specialize (Hin x ltac:(left)). clear -Hnd Hin.
    induction Hnd as [|k ks Hk Hnd IH]; [by apply not_elem_of_nil in Hin|].
    rewrite !sumZ_cons, filter_cons. apply elem_of_cons in Hin as [<-|Hin].
    + rewrite decide_True by done. rewrite sumZ_cons.
      rewrite (sumZ_ext _ (λ k, sumZ f (filter (λ x, key x = k) l)) ks); [lia|].
      intros k' Hk'. rewrite filter_cons, decide_False by congruence. done.
    + rewrite decide_False by congruence. rewrite IH by done. lia.
Qed.

Lemma foldl_flat {A B C} (f : C → B → C) (g : A → list B) l c :
  foldl (λ c x, foldl f c (g x)) c l = foldl f c (mjoin (g <$> l)).
Proof. revert c. induction l as [|x l IH]; intros c; simpl; [done|]. by rewrite foldl_app, IH. Qed.

Lemma sumZ_join {A B} (f : B → Z) (g : A → list B) l :
  sumZ f (mjoin (g <$> l)) = sumZ (λ x, sumZ f (g x)) l.
Proof.
  induction l as [|x l IH]; [done|].
  change (mjoin (g <$> x :: l)) with (g x ++ mjoin (g <$> l)). by rewrite sumZ_app, IH.
Qed.

Lemma sumZ_filter {A} (P : A → Prop) `{∀ x, Decision (P x)} (f : A → Z) l :
  sumZ f (filter P l) = sumZ (λ x, if decide (P x) then f x else 0%Z) l.
Proof.
  induction l as [|x l IH]; [done|]. rewrite filter_cons. simpl.
  case_decide; simpl; rewrite IH; lia.
Qed.

(** A sum with at most one contribution. *)
Lemma sumZ_single {A K} `{EqDecision K} (key : A → K) k c l :
  NoDup (key <$> l) →
  sumZ (λ x, if decide (key x = k) then c else 0%Z) l = if decide (k ∈ key <$> l) then c else 0%Z.
Proof.
  induction l as [|x l IH]; [done|]. cbn [fmap list_fmap]. rewrite NoDup_cons.
  intros [Hx Hnd]. rewrite sumZ_cons, IH by done.
  destruct (decide (key x = k)) as [<-|Hn].
  - rewrite decide_False by done. rewrite decide_True by left. lia.
  - destruct (decide (k ∈ key <$> l)).
    + rewrite decide_True by (by right). lia.
    + rewrite decide_False by (rewrite not_elem_of_cons; auto). lia.
Qed.

(** The boolean filter of the Standard Library, as stdpp's. *)
Lemma filter_bool {A} (f : A → bool) l : List.filter f l = filter (λ x, f x = true) l.
Proof.
  induction l as [|x l IH]; [done|]. rewrite filter_cons. simpl.
  destruct (f x); [rewrite decide_True by done|rewrite decide_False by done]; by rewrite IH.
Qed.

Lemma elem_of_filter_bool {A} (f : A → bool) l x : x ∈ List.filter f l ↔ f x = true ∧ x ∈ l.
Proof. by rewrite filter_bool, list_elem_of_filter. Qed.

Lemma filter_ext_in {A} (P Q : A → Prop) `{∀ x, Decision (P x), ∀ x, Decision (Q x)} (l : list A) :
  (∀ x, x ∈ l → P x ↔ Q x) → filter P l = filter Q l.
Proof.
  induction l as [|x l IH]; intros Hpq; [done|]. rewrite !filter_cons, IH by set_solver.
  specialize (Hpq x ltac:(left)). by repeat case_decide; try tauto.
Qed.

Lemma sumZ_zero {A} (l : list A) : sumZ (λ _, 0%Z) l = 0%Z.
Proof. induction l; simpl; lia. Qed.

Lemma sumZ_add {A} (f g : A → Z) l : sumZ (λ x, f x + g x)%Z l = (sumZ f l + sumZ g l)%Z.
Proof. induction l; simpl; lia. Qed.

Lemma sumZ_swap {A B} (f : A → B → Z) l k :
  sumZ (λ x, sumZ (f x) k) l = sumZ (λ y, sumZ (λ x, f x y) l) k.
Proof.
  induction l as [|x l IH]; simpl; [by rewrite sumZ_zero|]. rewrite IH, <- sumZ_add. done.
Qed.

(** The sum over a part of a list without duplicates. *)
Lemma sumZ_subset {A} `{EqDecision A} (f : A → Z) (l k : list A) :
  NoDup l → NoDup k → (∀ x, x ∈ k → x ∈ l) →
  sumZ (λ x, if decide (x ∈ k) then f x else 0%Z) l = sumZ f k.
Proof.
  intros Hl Hk Hsub. rewrite <- sumZ_filter.
  assert (filter (λ x, x ∈ k) l ≡ₚ k) as ->; [|done].
  apply NoDup_Permutation; [by apply NoDup_filter|done|].
  intros x. rewrite list_elem_of_filter. naive_solver.
Qed.
