(* ===== verification/JsString.v ===== *)
(** * JavaScript strings

    A JavaScript string is a finite sequence of UTF-16 code units: here a
    [list N], so that the stdpp list library applies to it. Literals are written
    [js "..."] (ASCII). The file models the string methods the console's code
    uses: [trim], [split], [join], [indexOf], [includes], [startsWith],
    [endsWith], [slice], decimal printing and [parseInt(s, 10)] on digits. *)
From S2P Require Import Prelude.
From Stdlib Require Import Ascii.
Local Open Scope N_scope.

Abbreviation jsstr := (list N).

Definition ch (c : ascii) : N := N_of_ascii c.

Fixpoint js (s : string) : jsstr :=
  match s with
  | EmptyString => []
  | String c s' => N_of_ascii c :: js s'
  end.
Global Arguments js : simpl never.

(** [Boolean(s)] and [!s] on a string: only the empty string is falsy. *)
Definition truthy (s : jsstr) : bool := match s with [] => false | _ => true end.

Lemma truthy_spec s : truthy s = true ↔ s ≠ [].
Proof. by destruct s. Qed.

(** [a || b] on strings. *)
Lemma truthy_false s : truthy s = false ↔ s = [].
Proof. by destruct s. Qed.

Definition str_or (a b : jsstr) : jsstr := if truthy a then a else b.

(** [a === b] on strings. *)
Definition streq (a b : jsstr) : bool := bool_decide (a = b).

Lemma streq_spec a b : streq a b = true ↔ a = b.
Proof. apply bool_decide_eq_true. Qed.

Lemma streq_refl a : streq a a = true.
Proof. by apply streq_spec. Qed.

(** ** White space: the WhiteSpace and LineTerminator productions, also [\s]. *)
Definition is_ws (c : N) : bool :=
  ((9 <=? c) && (c <=? 13)) || (c =? 32) || (c =? 160) || (c =? 0x1680) ||
  ((0x2000 <=? c) && (c <=? 0x200A)) || (c =? 0x2028) || (c =? 0x2029) ||
  (c =? 0x202F) || (c =? 0x205F) || (c =? 0x3000) || (c =? 0xFEFF).

(** [toLowerCase] on the ASCII letters. *)
Definition ascii_lower (u : N) : N := if ((65 <=? u) && (u <=? 90))%N then (u + 32)%N else u.

Fixpoint trim_start (s : jsstr) : jsstr :=
  match s with
  | [] => []
  | c :: s' => if is_ws c then trim_start s' else s
  end.

Fixpoint trim_end (s : jsstr) : jsstr :=
  match s with
  | [] => []
  | c :: s' =>
      match trim_end s' with
      | [] => if is_ws c then [] else [c]
      | r => c :: r
      end
  end.

Definition trim (s : jsstr) : jsstr := trim_end (trim_start s).

Lemma trim_end_no_ws s : Forall (λ c, is_ws c = false) s → trim_end s = s.
Proof.
  induction 1 as [|c s Hc Hs IH]; simpl; [done|].
  rewrite IH. destruct s; [by rewrite Hc|done].
Qed.

Lemma trim_no_ws s : Forall (λ c, is_ws c = false) s → trim s = s.
Proof.
  intros H. unfold trim. replace (trim_start s) with s; [by apply trim_end_no_ws|].
  destruct H as [|c s Hc Hs]; simpl; [done|]. by rewrite Hc.
Qed.

(** [trim] fixes a string whose first and last code units are not white space. *)
Lemma trim_end_snoc s c : is_ws c = false → trim_end (s ++ [c]) = s ++ [c].
Proof.
  intros Hc. induction s as [|d s IH]; simpl; [by rewrite Hc|].
  rewrite IH. by destruct s.
Qed.

Lemma trim_bounded a s c :
  is_ws a = false → is_ws c = false → trim (a :: s ++ [c]) = a :: s ++ [c].
Proof.
  intros Ha Hc. unfold trim. simpl. rewrite Ha.
  change (trim_end ((a :: s) ++ [c]) = (a :: s) ++ [c]). by apply trim_end_snoc.
Qed.

Lemma trim_nil : trim [] = [].
Proof. done. Qed.

Lemma trim_start_head s : match trim_start s with c :: _ => is_ws c = false | [] => True end.
Proof. induction s as [|c s IH]; simpl; [done|]. by destruct (is_ws c) eqn:E. Qed.

Lemma trim_end_fix s : trim_end (trim_end s) = trim_end s.
Proof.
  induction s as [|c s IH]; simpl; [done|].
  destruct (trim_end s) as [|d r] eqn:E.
  - destruct (is_ws c) eqn:Hc; simpl; [done|]. by rewrite Hc.
  - change (match trim_end (d :: r) with
            | [] => if is_ws c then [] else [c]
            | r' => c :: r' end = c :: d :: r).
    by rewrite IH.
Qed.

Lemma trim_start_fix s :
  match s with c :: _ => is_ws c = false | [] => True end → trim_start s = s.
Proof. destruct s as [|c s]; simpl; [done|]. by intros ->. Qed.

Lemma trim_end_head c s : is_ws c = false → ∃ r, trim_end (c :: s) = c :: r.
Proof. intros Hc. simpl. destruct (trim_end s); [rewrite Hc|]; eauto. Qed.

Lemma trim_idemp s : trim (trim s) = trim s.
Proof.
  unfold trim. rewrite (trim_start_fix (trim_end (trim_start s))), trim_end_fix; [done|].
  pose proof (trim_start_head s) as H. destruct (trim_start s) as [|c r]; [done|].
  destruct (trim_end_head c r H) as [r' ->]. done.
Qed.

(** ** split and join *)

(** [s.split(c)] for a one-unit separator. *)
Fixpoint split_on (c : N) (s : jsstr) : list jsstr :=
  match s with
  | [] => [[]]
  | d :: s' =>
      if d =? c then [] :: split_on c s'
      else match split_on c s' with
           | [] => [[d]]
           | p :: ps => (d :: p) :: ps
           end
  end.

Fixpoint join (sep : jsstr) (ps : list jsstr) : jsstr :=
  match ps with
  | [] => []
  | [p] => p
  | p :: ps' => p ++ sep ++ join sep ps'
  end.

Lemma split_on_free c p : c ∉ p → split_on c p = [p].
Proof.
  induction p as [|d p IH]; simpl; intros H; [done|].
  apply not_elem_of_cons in H as [Hd H]. destruct (N.eqb_spec d c); [congruence|].
  by rewrite (IH H).
Qed.

Lemma split_on_app c p s : c ∉ p → split_on c (p ++ c :: s) = p :: split_on c s.
Proof.
  induction p as [|d p IH]; simpl; intros H; [by rewrite N.eqb_refl|].
  apply not_elem_of_cons in H as [Hd H]. destruct (N.eqb_spec d c); [congruence|].
  by rewrite (IH H).
Qed.

Lemma split_on_join c ps :
  ps ≠ [] → Forall (λ p, c ∉ p) ps → split_on c (join [c] ps) = ps.
Proof.
  intros Hne H. induction H as [|p ps Hp Hps IH]; [done|].
  destruct ps as [|q ps]; simpl; [by apply split_on_free|].
  rewrite split_on_app by done. f_equal. by apply IH.
Qed.

(** ** Searching *)

Lemma split_free c s : Forall (λ p, c ∉ p) (split_on c s).
Proof.
  induction s as [|x s IH]; simpl; [repeat constructor; set_solver|].
  destruct (N.eqb_spec x c) as [->|Hx]; [constructor; [set_solver|done]|].
  destruct (split_on c s) as [|p ps]; [repeat constructor; set_solver|].
  inversion_clear IH. constructor; [set_solver|done].
Qed.

Lemma trim_start_sub c s : c ∈ trim_start s → c ∈ s.
Proof. induction s as [|x s IH]; simpl; [done|]. destruct (is_ws x); [right; by apply IH|done]. Qed.

Lemma trim_end_sub c s : c ∈ trim_end s → c ∈ s.
Proof.
  induction s as [|x s IH]; simpl; [done|]. destruct (trim_end s) as [|y r] eqn:E.
  - destruct (is_ws x); [by intros ?%elem_of_nil|]. intros ->%list_elem_of_singleton. by left.
  - intros [->|Hc]%elem_of_cons; [by left|right]. by apply IH.
Qed.

Lemma trim_start_length s : (length (trim_start s) ≤ length s)%nat.
Proof. induction s as [|x s IH]; simpl; [done|]. case_match; simpl; lia. Qed.

Lemma trim_end_length s : (length (trim_end s) ≤ length s)%nat.
Proof.
  induction s as [|x s IH]; simpl; [done|]. destruct (trim_end s) as [|y r]; simpl in *; [|lia].
  case_match; simpl; lia.
Qed.

Lemma trim_length s : (length (trim s) ≤ length s)%nat.
Proof. unfold trim. pose proof (trim_end_length (trim_start s)). pose proof (trim_start_length s). lia. Qed.

Lemma join_length sep ps : (length (join sep ps) ≤ length (concat ps) + length sep * length ps)%nat.
Proof.
  induction ps as [|p ps IH]; simpl; [lia|]. destruct ps as [|q ps].
  - simpl in *. rewrite app_nil_r. lia.
  - rewrite !length_app in *. simpl in *. lia.
Qed.

Lemma trim_sub c s : c ∈ trim s → c ∈ s.
Proof. intros ?%trim_end_sub%trim_start_sub. done. Qed.

(** The items of a comma-separated text: [s.split(',').map(trim).filter(Boolean)] *)
Definition comma_list (s : jsstr) : list jsstr := List.filter truthy (map trim (split_on 44 s)).

Definition list_item (m : jsstr) : Prop := trim m = m ∧ m ≠ [] ∧ 44 ∉ m.

Lemma comma_list_items s : Forall list_item (comma_list s).
Proof.
  apply Forall_forall. intros m Hm. apply list_elem_of_In, List.filter_In in Hm as [Hm Ht].
  apply in_map_iff in Hm as (p & <- & Hp). apply list_elem_of_In in Hp.
  pose proof (split_free 44 s) as Hf. rewrite Forall_forall in Hf. specialize (Hf p Hp).
  split_and!; [apply trim_idemp|by apply truthy_spec|]. intros Hc. by apply Hf, trim_sub.
Qed.

(** They survive being written and read again. *)
Lemma comma_list_join l : Forall list_item l → comma_list (join (js ",") l) = l.
Proof.
  intros Hl. destruct (decide (l = [])) as [->|Hn]; [done|]. unfold comma_list. change (js ",") with [44].
  rewrite split_on_join; [|done|eapply Forall_impl; [exact Hl|by intros ? (_ & _ & ?)] ].
  clear Hn. induction Hl as [|x l (Ht & Hx & _) _ IH]; [done|]. simpl. rewrite Ht.
  apply truthy_spec in Hx. by rewrite Hx, IH.
Qed.

(** [s.startsWith(p)] *)
Fixpoint starts_with (p s : jsstr) : bool :=
  match p, s with
  | [], _ => true
  | c :: p', d :: s' => (c =? d) && starts_with p' s'
  | _, [] => false
  end.

(** [s.indexOf(p)], [None] for [-1]. *)
Fixpoint index_of (p s : jsstr) : option nat :=
  if starts_with p s then Some 0%nat
  else match s with
       | [] => None
       | _ :: s' => S <$> index_of p s'
       end.

Definition includes (p s : jsstr) : bool :=
  match index_of p s with Some _ => true | None => false end.

Definition includes_unit (c : N) (s : jsstr) : bool := bool_decide (c ∈ s).

Definition ends_with (p s : jsstr) : bool := starts_with (rev p) (rev s).

(** [s.slice(a, b)] with [0 <= a]. *)
Definition slice (s : jsstr) (a b : nat) : jsstr := take (b - a) (drop a s).

Lemma starts_with_spec p s : starts_with p s = true ↔ ∃ r, s = p ++ r.
Proof.
  revert s. induction p as [|c p IH]; intros [|d s]; simpl.
  - split; eauto.
  - split; eauto.
  - split; [done|]. intros [r [=]].
  - rewrite andb_true_iff, N.eqb_eq, IH. naive_solver.
Qed.

Lemma starts_with_drop p s : starts_with p s = true → s = p ++ drop (length p) s.
Proof. intros [r ->]%starts_with_spec. by rewrite drop_app_length. Qed.

Lemma index_of_Some p s n :
  index_of p s = Some n → s = take n s ++ p ++ drop (n + length p) s.
Proof.
  revert n. induction s as [|d s IH]; intros n.
  - simpl. destruct p; simpl; [|done]. intros [= <-]. done.
  - simpl. destruct (starts_with p (d :: s)) eqn:E.
    + intros [= <-]. simpl. by apply starts_with_drop.
    + intros (m & Hm & ->)%fmap_Some. simpl. f_equal. by apply IH.
Qed.

Lemma index_of_None p s : index_of p s = None → ∀ a b, s ≠ a ++ p ++ b.
Proof.
  induction s as [|d s IH]; simpl.
  - destruct p; simpl; [done|]. intros _ a b. destruct a; done.
  - destruct (starts_with p (d :: s)) eqn:E; [done|].
    intros Hn%fmap_None a b. destruct a as [|a0 a]; simpl.
    + intros Heq. assert (starts_with p (d :: s) = true); [|congruence].
      apply starts_with_spec. eauto.
    + intros [= -> Heq]. by eapply IH.
Qed.

Lemma includes_spec p s : includes p s = true ↔ ∃ a b, s = a ++ p ++ b.
Proof.
  unfold includes. destruct (index_of p s) as [n|] eqn:E.
  - split; [|done]. intros _. eauto using index_of_Some.
  - split; [done|]. intros (a & b & H). by destruct (index_of_None _ _ E a b).
Qed.

(** [s.indexOf(p, from)] *)
Definition index_from (p s : jsstr) (from : nat) : option nat :=
  Nat.add from <$> index_of p (drop from s).

Lemma includes_tail p c s : includes p (c :: s) = false → includes p s = false.
Proof.
  intros H. destruct (includes p s) eqn:E; [|done].
  apply includes_spec in E as (a & b & ->).
  assert (includes p (c :: a ++ p ++ b) = true); [|congruence].
  apply includes_spec. by exists (c :: a), b.
Qed.

(** The first occurrence of a pattern whose first unit does not recur in it: an
    occurrence cannot overlap the text before it. *)
Lemma index_of_first c p v s :
  c ∉ p → includes (c :: p) v = false →
  index_of (c :: p) (v ++ (c :: p) ++ s) = Some (length v).
Proof.
  intros Hc. induction v as [|d v IH]; intros Hv.
  - assert (starts_with (c :: p) ((c :: p) ++ s) = true) as H
      by (apply starts_with_spec; eauto).
    simpl app at 1. simpl in *. by rewrite H.
  - pose proof (includes_tail _ _ _ Hv) as Hv'. specialize (IH Hv').
    assert (starts_with (c :: p) ((d :: v) ++ (c :: p) ++ s) = false) as H.
    { destruct (starts_with _ _) eqn:E; [|done]. exfalso.
      apply starts_with_spec in E as [r Hr].
      apply app_eq_inv in Hr as [(k & Hk & Hr)|(k & Hk & Hr)].
      - assert (includes (c :: p) (d :: v) = true); [|congruence].
        apply includes_spec. exists [], k. by rewrite Hk.
      - destruct k as [|e k].
        + assert (includes (c :: p) (d :: v) = true); [|congruence].
          apply includes_spec. exists [], []. rewrite app_nil_r in Hk.
          by rewrite Hk, app_nil_r.
        + injection Hr as <- _. apply Hc. injection Hk as _ ->. set_solver. }
    change ((d :: v) ++ (c :: p) ++ s) with (d :: v ++ (c :: p) ++ s) in *.
    cbn [index_of]. rewrite H, IH. done.
Qed.

(** ** Decimal integers *)

Definition is_digit (c : N) : bool := (48 <=? c) && (c <=? 57).

(** [/^\d+$/.test(s)] *)
Definition is_digits (s : jsstr) : bool := truthy s && forallb is_digit s.

(** [Number.parseInt(s, 10)] on a string of digits. *)
Definition parse_digits (s : jsstr) : N := foldl (λ a c, 10 * a + (c - 48)) 0 s.

Fixpoint show_go (fuel : nat) (n : N) : jsstr :=
  match fuel with
  | O => []
  | S f => if n <? 10 then [48 + n] else show_go f (n / 10) ++ [48 + n mod 10]
  end.

(** [String(n)] for a non-negative integer; the bit length bounds the number of
    decimal digits. *)
Definition show_N (n : N) : jsstr := show_go (S (N.size_nat n)) n.

Definition show_Z (z : Z) : jsstr :=
  if (z <? 0)%Z then ch "-" :: show_N (Z.to_N (- z)) else show_N (Z.to_N z).

Lemma parse_digits_snoc s c : parse_digits (s ++ [c]) = 10 * parse_digits s + (c - 48).
Proof. unfold parse_digits. by rewrite foldl_app. Qed.

Lemma show_go_parse f n : n < 2 ^ N.of_nat f → parse_digits (show_go (S f) n) = n.
Proof.
  revert n. induction f as [|f IH]; intros n Hn.
  - simpl in *. replace n with 0 by lia. done.
  - change (show_go (S (S f)) n) with
      (if n <? 10 then [48 + n] else show_go (S f) (n / 10) ++ [48 + n mod 10]).
    destruct (N.ltb_spec n 10) as [Hlt|Hge].
    + unfold parse_digits. simpl. lia.
    + rewrite parse_digits_snoc, IH.
      * pose proof (N.div_mod' n 10) as Hd.
        generalize dependent (n mod 10). intros m Hd. lia.
      * rewrite Nat2N.inj_succ, N.pow_succ_r' in Hn.
        apply N.Div0.div_lt_upper_bound. lia.
Qed.

Lemma size_nat_bound n : n < 2 ^ N.of_nat (N.size_nat n).
Proof.
  replace (N.of_nat (N.size_nat n)) with (N.size n); [apply N.size_gt|].
  destruct n as [|p]; [done|]. simpl. induction p as [p IH|p IH|]; simpl; lia.
Qed.

Lemma parse_show_N n : parse_digits (show_N n) = n.
Proof. apply show_go_parse, size_nat_bound. Qed.

Lemma show_go_digits f n : Forall (λ c, is_digit c = true) (show_go f n).
Proof.
  revert n. induction f as [|f IH]; intros n; simpl; [constructor|].
  destruct (N.ltb_spec n 10).
  - repeat constructor. unfold is_digit. apply andb_true_iff. rewrite !N.leb_le. lia.
  - apply Forall_app; split; [apply IH|]. repeat constructor.
    unfold is_digit. apply andb_true_iff. rewrite !N.leb_le.
    assert (n mod 10 < 10) as Hm by (by apply N.mod_lt).
    generalize dependent (n mod 10). intros m Hm. lia.
Qed.

Lemma show_N_digits n : Forall (λ c, is_digit c = true) (show_N n).
Proof. apply show_go_digits. Qed.

Lemma show_N_nonempty n : show_N n ≠ [].
Proof.
  unfold show_N. simpl. destruct (n <? 10); [done|].
  by intros [_ [=]]%app_nil.
Qed.

Lemma is_digits_show_N n : is_digits (show_N n) = true.
Proof.
  unfold is_digits. apply andb_true_iff; split; [apply truthy_spec, show_N_nonempty|].
  apply forallb_Forall, show_N_digits.
Qed.

Lemma digit_not_ws c : is_digit c = true → is_ws c = false.
Proof.
  unfold is_digit. intros [H1%N.leb_le H2%N.leb_le]%andb_true_iff. unfold is_ws.
  repeat (apply orb_false_iff; split); try apply andb_false_iff;
    rewrite ?N.leb_gt, ?N.eqb_neq; lia.
Qed.

Lemma show_Z_digit z c : (0 ≤ z)%Z → c ∈ show_Z z → is_digit c = true.
Proof.
  intros Hz Hin. unfold show_Z in Hin. destruct (Z.ltb_spec z 0); [lia|].
  pose proof (show_N_digits (Z.to_N z)) as Hd. rewrite Forall_forall in Hd. by apply Hd.
Qed.

Lemma show_Z_inj a b : (0 < a)%Z → (0 < b)%Z → show_Z a = show_Z b → a = b.
Proof.
  intros Ha Hb. unfold show_Z. destruct (Z.ltb_spec a 0), (Z.ltb_spec b 0); try lia.
  intros Heq. apply (f_equal parse_digits) in Heq. rewrite !parse_show_N in Heq. lia.
Qed.

#[export] Hint Resolve digit_not_ws streq_refl show_N_nonempty trim_idemp : js.
