(* ===== verification/JsMap.v ===== *)
(** * JavaScript Map and Set

    A [Map] iterates in insertion order: it is an association list without
    duplicate keys, where [set] on an existing key keeps its position. A [Set] is
    the list of its elements in insertion order. The operations are generic in a
    key type with decidable equality. *)
From S2P Require Import Prelude.

Section jsmap.
Context {K V : Type} `{EqDecision K}.

Abbreviation jsmap := (list (K * V)).

Fixpoint jm_get (k : K) (m : jsmap) : option V :=
  match m with
  | [] => None
  | (k', v) :: m' => if decide (k' = k) then Some v else jm_get k m'
  end.

Fixpoint jm_set (k : K) (v : V) (m : jsmap) : jsmap :=
  match m with
  | [] => [(k, v)]
  | (k', v') :: m' => if decide (k' = k) then (k', v) :: m' else (k', v') :: jm_set k v m'
  end.

Definition jm_keys (m : jsmap) : list K := map fst m.
Definition jm_values (m : jsmap) : list V := map snd m.

(** Well-formedness: no key occurs twice. *)
Definition jm_wf (m : jsmap) : Prop := NoDup (jm_keys m).

Lemma jm_get_set k k' v m :
  jm_get k' (jm_set k v m) = if decide (k = k') then Some v else jm_get k' m.
Proof.
  induction m as [|[k0 v0] m IH]; simpl; [done|].
  destruct (decide (k0 = k)) as [->|]; simpl.
  - by destruct (decide (k = k')).
  - rewrite IH. destruct (decide (k0 = k')), (decide (k = k')); congruence.
Qed.

Lemma jm_get_set_eq k v m : jm_get k (jm_set k v m) = Some v.
Proof. rewrite jm_get_set. by case_decide. Qed.

Lemma jm_get_set_ne k k' v m : k ≠ k' → jm_get k' (jm_set k v m) = jm_get k' m.
Proof. intros ?. rewrite jm_get_set. by case_decide. Qed.

Lemma jm_get_Some_elem k v m : jm_get k m = Some v → (k, v) ∈ m.
Proof.
  induction m as [|[k0 v0] m IH]; simpl; [done|].
  case_decide as Hk; [intros [= ->]; subst; left|intros ?; right; auto].
Qed.

Lemma jm_get_None k m : jm_get k m = None ↔ k ∉ jm_keys m.
Proof.
  induction m as [|[k0 v0] m IH]; simpl; [split; [intros _ []%not_elem_of_nil|done]|].
  rewrite not_elem_of_cons. case_decide; naive_solver.
Qed.

Lemma jm_elem_get k v m : jm_wf m → (k, v) ∈ m → jm_get k m = Some v.
Proof.
  unfold jm_wf, jm_keys. induction m as [|[k0 v0] m IH]; simpl.
  - intros _ []%not_elem_of_nil.
  - rewrite NoDup_cons. intros [Hni Hnd] [[= -> ->]|Hin]%elem_of_cons.
    + by case_decide.
    + case_decide as Hk; [|by apply IH]. subst. destruct Hni.
      apply list_elem_of_fmap. by exists (k, v).
Qed.

Lemma jm_keys_set k v m :
  jm_keys (jm_set k v m) = if decide (k ∈ jm_keys m) then jm_keys m else jm_keys m ++ [k].
Proof.
  unfold jm_keys. induction m as [|[k0 v0] m IH]; simpl; [done|].
  destruct (decide (k0 = k)) as [->|Hn]; simpl.
  - rewrite decide_True by set_solver. done.
  - rewrite IH. destruct (decide (k ∈ map fst m)) as [Hin|Hin].
    + rewrite decide_True by set_solver. done.
    + rewrite decide_False by set_solver. done.
Qed.

Lemma jm_wf_nil : jm_wf [].
Proof. constructor. Qed.

Lemma jm_wf_set k v m : jm_wf m → jm_wf (jm_set k v m).
Proof.
  unfold jm_wf. rewrite jm_keys_set. case_decide; [done|].
  intros Hnd. apply NoDup_app. split_and!; [done| |apply NoDup_singleton]. set_solver.
Qed.

Lemma jm_wf_filter (P : K * V → Prop) `{∀ x, Decision (P x)} m :
  jm_wf m → jm_wf (filter P m).
Proof.
  unfold jm_wf, jm_keys. induction m as [|kv m IH]; [done|].
  simpl. rewrite NoDup_cons. intros [Hni Hnd]. rewrite filter_cons.
  case_decide; simpl; [|by apply IH]. apply NoDup_cons. split; [|by apply IH].
  intros (y & Hy & Hin)%list_elem_of_fmap. apply Hni, list_elem_of_fmap.
  exists y. split; [done|]. by apply list_elem_of_filter in Hin as [_ ?].
Qed.

(** [map.delete(k)] *)
Definition jm_delete (k : K) (m : jsmap) : jsmap := filter (λ kv, kv.1 ≠ k) m.

Lemma jm_get_delete k k' m : jm_get k' (jm_delete k m) = if decide (k' = k) then None else jm_get k' m.
Proof.
  unfold jm_delete. induction m as [|[k0 v0] m IH]; [by case_decide|]. rewrite filter_cons. simpl.
  repeat case_decide; simplify_eq; simpl; rewrite ?IH; repeat case_decide; naive_solver.
Qed.

(** Deleting entries by a test on key and value, as a loop that calls
    [map.delete(key)] does. *)
Lemma jm_get_filter (P : K * V → Prop) `{∀ x, Decision (P x)} k m :
  jm_wf m →
  jm_get k (filter P m) =
    match jm_get k m with
    | Some v => if decide (P (k, v)) then Some v else None
    | None => None
    end.
Proof.
  intros Hwf. destruct (jm_get k m) as [v|] eqn:E.
  - case_decide as HP.
    + apply jm_elem_get; [by apply jm_wf_filter|]. apply list_elem_of_filter.
      split; [done|]. by apply jm_get_Some_elem.
    + destruct (jm_get k (filter P m)) as [w|] eqn:F; [|done].
      apply jm_get_Some_elem, list_elem_of_filter in F as [HP' Hin].
      apply jm_elem_get in Hin; [|done]. congruence.
  - apply jm_get_None. apply jm_get_None in E. intros Hin. apply E.
    unfold jm_keys in *. apply list_elem_of_fmap in Hin as (y & -> & Hy).
    apply list_elem_of_fmap. exists y. split; [done|].
    by apply list_elem_of_filter in Hy as [_ ?].
Qed.
End jsmap.

#[export] Hint Resolve jm_wf_nil jm_wf_set jm_wf_filter : js.

(** ** Accumulating into a map

    The loop [const current = map.get(k) ?? init(x); update(current, x); map.set(k, current)]
    over a list: one entry per key, in the order of the first occurrences, which holds the
    updates of all elements with the key. *)
Section accumulate.
Context {X K V : Type} `{EqDecision K} (key : X → K) (init : X → V) (upd : V → X → V).

Definition acc_step (m : list (K * V)) (x : X) : list (K * V) :=
  jm_set (key x) (upd (default (init x) (jm_get (key x) m)) x) m.

Definition accumulate (l : list X) : list (K * V) := foldl acc_step [] l.

(** What the entry of a key becomes. *)
Definition acc_value (l : list X) : option V :=
  match l with
  | [] => None
  | x :: l' => Some (foldl upd (init x) (x :: l'))
  end.

Lemma acc_foldl_get k l m :
  jm_get k (foldl acc_step m l) =
    match jm_get k m with
    | Some v => Some (foldl upd v (filter (λ x, key x = k) l))
    | None => acc_value (filter (λ x, key x = k) l)
    end.
Proof.
  revert m. induction l as [|x l IH]; intros m; [by simpl; destruct (jm_get k m)|].
  cbn [foldl]. rewrite IH. unfold acc_step at 1. rewrite jm_get_set, filter_cons.
  destruct (decide (key x = k)) as [<-|Hn].
  - destruct (jm_get (key x) m); done.
  - done.
Qed.

Lemma accumulate_get k l : jm_get k (accumulate l) = acc_value (filter (λ x, key x = k) l).
Proof. unfold accumulate. by rewrite acc_foldl_get. Qed.

Lemma acc_foldl_wf l m : jm_wf m → jm_wf (foldl acc_step m l).
Proof. revert m. induction l; intros m Hm; simpl; auto. apply IHl, jm_wf_set, Hm. Qed.

Lemma accumulate_wf l : jm_wf (accumulate l).
Proof. apply acc_foldl_wf, jm_wf_nil. Qed.

Lemma acc_foldl_keys k l m :
  k ∈ jm_keys (foldl acc_step m l) ↔ k ∈ jm_keys m ∨ ∃ x, x ∈ l ∧ key x = k.
Proof.
  revert m. induction l as [|x l IH]; intros m; simpl; [set_solver|].
  rewrite IH. unfold acc_step. rewrite jm_keys_set. case_decide; set_solver.
Qed.

Lemma accumulate_keys k l : k ∈ jm_keys (accumulate l) ↔ ∃ x, x ∈ l ∧ key x = k.
Proof. unfold accumulate. rewrite acc_foldl_keys. simpl. set_solver. Qed.

(** Every entry comes from the elements of its key. *)
Lemma accumulate_elem k v l :
  (k, v) ∈ accumulate l →
  ∃ x l', filter (λ x, key x = k) l = x :: l' ∧ key x = k ∧ v = foldl upd (init x) (x :: l').
Proof.
  intros Hin%(jm_elem_get k v); [|apply accumulate_wf]. rewrite accumulate_get in Hin.
  destruct (filter (λ x, key x = k) l) as [|x l'] eqn:E; [done|]. injection Hin as <-.
  exists x, l'. split_and!; [done| |done].
  assert (x ∈ filter (λ x, key x = k) l) as Hx by (rewrite E; left).
  by apply list_elem_of_filter in Hx as [? _].
Qed.

(** Sums over the entries, restricted by a test on the key. *)
Lemma acc_foldl_sum (g : V → Z) (w : X → Z) (t : K → bool) l m :
  (∀ x, g (init x) = 0%Z) → (∀ v x, g (upd v x) = (g v + w x)%Z) →
  sumZ (λ e, if t e.1 then g e.2 else 0%Z) (foldl acc_step m l) =
    (sumZ (λ e, if t e.1 then g e.2 else 0) m + sumZ (λ x, if t (key x) then w x else 0) l)%Z.
Proof.
  intros H0 H1. revert m. induction l as [|x l IH]; intros m; cbn [foldl]; [simpl; lia|].
  rewrite IH, sumZ_cons.
  enough (sumZ (λ e, if t e.1 then g e.2 else 0%Z) (acc_step m x) =
    (sumZ (λ e, if t e.1 then g e.2 else 0) m + (if t (key x) then w x else 0))%Z) by lia.
  clear IH. unfold acc_step. induction m as [|[k v] m IH]; simpl.
  - rewrite H1, H0. destruct (t (key x)); lia.
  - case_decide as Hk; simpl.
    + subst. rewrite H1. destruct (t (key x)); lia.
    + rewrite IH. lia.
Qed.

Lemma accumulate_sum (g : V → Z) (w : X → Z) (t : K → bool) l :
  (∀ x, g (init x) = 0%Z) → (∀ v x, g (upd v x) = (g v + w x)%Z) →
  sumZ (λ e, if t e.1 then g e.2 else 0%Z) (accumulate l) =
    sumZ (λ x, if t (key x) then w x else 0%Z) l.
Proof. intros. unfold accumulate. rewrite (acc_foldl_sum g w) by done. simpl. lia. Qed.
End accumulate.

(** ** Set *)
Section jsset.
Context {K : Type} `{EqDecision K}.

Definition js_add (x : K) (s : list K) : list K := if decide (x ∈ s) then s else s ++ [x].

(** [new Set(l)] *)
Definition new_Set (l : list K) : list K := foldl (λ s x, js_add x s) [] l.

Definition set_has (s : list K) (x : K) : bool := bool_decide (x ∈ s).

Lemma set_has_spec s x : set_has s x = true ↔ x ∈ s.
Proof. apply bool_decide_eq_true. Qed.

Lemma js_add_elem x y s : y ∈ js_add x s ↔ y = x ∨ y ∈ s.
Proof. unfold js_add. case_decide; set_solver. Qed.

Lemma js_add_NoDup x s : NoDup s → NoDup (js_add x s).
Proof.
  unfold js_add. case_decide; [done|]. intros Hs. apply NoDup_app.
  split_and!; [done| |apply NoDup_singleton]. set_solver.
Qed.

Lemma foldl_js_add_elem l s y : y ∈ foldl (λ s x, js_add x s) s l ↔ y ∈ s ∨ y ∈ l.
Proof.
  revert s. induction l as [|x l IH]; intros s; simpl; [set_solver|].
  rewrite IH, js_add_elem. set_solver.
Qed.

Lemma foldl_js_add_NoDup l s : NoDup s → NoDup (foldl (λ s x, js_add x s) s l).
Proof. revert s. induction l; intros s Hs; simpl; auto using js_add_NoDup. Qed.

Lemma foldl_js_add_id l s : NoDup (s ++ l) → foldl (λ s x, js_add x s) s l = s ++ l.
Proof.
  revert s. induction l as [|x l IH]; intros s Hn; simpl; [by rewrite app_nil_r|].
  assert (x ∉ s) as Hx.
  { apply NoDup_app in Hn as (_ & Hn & _). intros Hs. apply (Hn x Hs). by left. }
  unfold js_add at 2. rewrite decide_False by done. rewrite IH; by rewrite <-app_assoc.
Qed.

Lemma new_Set_id l : NoDup l → new_Set l = l.
Proof. intros Hl. unfold new_Set. by rewrite foldl_js_add_id. Qed.

Lemma new_Set_elem l y : y ∈ new_Set l ↔ y ∈ l.
Proof. unfold new_Set. rewrite foldl_js_add_elem. set_solver. Qed.

Lemma new_Set_NoDup l : NoDup (new_Set l).
Proof. apply foldl_js_add_NoDup, NoDup_nil_2. Qed.
End jsset.

#[export] Hint Resolve js_add_NoDup new_Set_NoDup : js.
