(* ===== verification/JsValue.v ===== *)
(** * Values of the language: numbers and [unknown] values

    A number is NaN, an infinity, or the rational a finite double denotes ([-0] is not
    told from [0], which no code modelled here does either). The operations used are
    exact on doubles: comparisons, [Math.trunc], [Math.min], [Math.max], the integer
    tests. [value] is what [unknown] data from a response or a store can be. *)
From Stdlib Require Import QArith Qcanon.
From S2P Require Import Prelude JsString.
Local Open Scope Z_scope.

Inductive jsnum := NaN | PosInf | NegInf | Fin (q : Qc).

#[export] Instance jsnum_eq_dec : EqDecision jsnum.
Proof. solve_decision. Defined.

Definition num_of_Z (z : Z) : jsnum := Fin (Q2Qc (inject_Z z)).

(** [a < b] of the language: false when either is NaN. *)
Definition num_lt (a b : jsnum) : bool :=
  match a, b with
  | NaN, _ | _, NaN => false
  | PosInf, _ | _, NegInf => false
  | NegInf, _ | _, PosInf => true
  | Fin p, Fin q => bool_decide (p < q)%Qc
  end.

Definition num_le (a b : jsnum) : bool :=
  match a, b with
  | NaN, _ | _, NaN => false
  | NegInf, _ | _, PosInf => true
  | PosInf, _ | _, NegInf => false
  | Fin p, Fin q => bool_decide (p ≤ q)%Qc
  end.

(** [a === b]. *)
Definition num_eqb (a b : jsnum) : bool :=
  match a, b with NaN, _ | _, NaN => false | _, _ => bool_decide (a = b) end.

Definition isFinite (a : jsnum) : bool := match a with Fin _ => true | _ => false end.

Definition qtrunc (q : Qc) : Z := Z.quot (Qnum (this q)) (Zpos (Qden (this q))).

Definition as_integer (a : jsnum) : option Z :=
  match a with
  | Fin q => if decide (q = Q2Qc (inject_Z (qtrunc q))) then Some (qtrunc q) else None
  | _ => None
  end.

Definition MAX_SAFE : Z := 2 ^ 53 - 1.

Definition isSafeInteger (a : jsnum) : bool :=
  match as_integer a with Some z => (- MAX_SAFE <=? z) && (z <=? MAX_SAFE) | None => false end.

Definition math_trunc (a : jsnum) : jsnum :=
  match a with Fin q => num_of_Z (qtrunc q) | _ => a end.

Definition math_max (a b : jsnum) : jsnum :=
  match a, b with
  | NaN, _ | _, NaN => NaN
  | _, _ => if num_lt a b then b else a
  end.

Definition math_min (a b : jsnum) : jsnum :=
  match a, b with
  | NaN, _ | _, NaN => NaN
  | _, _ => if num_lt b a then b else a
  end.

(** ** [unknown] values *)

Inductive value :=
| Undef
| Null
| Bool (b : bool)
| Num (n : jsnum)
| Str (s : jsstr)
| Arr (l : list value)
| Obj (fields : list (jsstr * value)).

Fixpoint field (fields : list (jsstr * value)) (k : jsstr) : value :=
  match fields with
  | [] => Undef
  | (k', v) :: rest => if streq k' k then v else field rest k
  end.

(** [v?.k] for a key that is not a property of the primitive prototypes. *)
Definition get (v : value) (k : jsstr) : value :=
  match v with Obj fields => field fields k | _ => Undef end.

Definition value_truthy (v : value) : bool :=
  match v with
  | Undef | Null => false
  | Bool b => b
  | Num n => negb (bool_decide (n = NaN)) && negb (num_eqb n (num_of_Z 0))
  | Str s => truthy s
  | Arr _ | Obj _ => true
  end.

(** [typeof v === 'object'] (which [null] satisfies). *)
Definition is_object_type (v : value) : bool :=
  match v with Null | Arr _ | Obj _ => true | _ => false end.

Definition is_true (v : value) : bool := match v with Bool b => b | _ => false end.

(** [a || b] and [a ?? b] *)
Definition value_or (a b : value) : value := if value_truthy a then a else b.
Definition value_default (a b : value) : value := match a with Undef | Null => b | _ => a end.

(** ** Lemmas *)

Lemma num_of_Z_inj a b : num_of_Z a = num_of_Z b → a = b.
Proof.
  unfold num_of_Z. intros [= H]. apply (f_equal Qnum) in H. rewrite !Qred_identity in H by (simpl; apply Z.gcd_1_r). done.
Qed.

Lemma Zlt_Qc a b : (Q2Qc (inject_Z a) < Q2Qc (inject_Z b))%Qc ↔ a < b.
Proof.
  unfold Qclt. simpl. rewrite !Qred_correct. unfold Qlt. simpl. lia.
Qed.

Lemma num_lt_Z a b : num_lt (num_of_Z a) (num_of_Z b) = bool_decide (a < b).
Proof. unfold num_lt, num_of_Z. apply bool_decide_ext, Zlt_Qc. Qed.

Lemma num_lt_trans a b c : num_lt a b = true → num_lt b c = true → num_lt a c = true.
Proof. destruct a, b, c; simpl; try done. rewrite !bool_decide_eq_true. apply Qclt_trans. Qed.

Lemma num_lt_irrefl a : num_lt a a = false.
Proof. destruct a; simpl; try done. apply bool_decide_eq_false. intros H. by apply Qclt_not_eq in H. Qed.

Lemma num_lt_asym a b : num_lt a b = true → num_lt b a = false.
Proof.
  intros H. destruct (num_lt b a) eqn:E; [|done]. pose proof (num_lt_trans _ _ _ H E) as Hc. by rewrite num_lt_irrefl in Hc.
Qed.

Lemma qtrunc_Z z : qtrunc (Q2Qc (inject_Z z)) = z.
Proof.
  unfold qtrunc. simpl. rewrite !Qred_identity by (simpl; apply Z.gcd_1_r). simpl.
  apply Z.quot_1_r.
Qed.

Lemma as_integer_Z z : as_integer (num_of_Z z) = Some z.
Proof. unfold as_integer, num_of_Z. rewrite qtrunc_Z. by rewrite decide_True. Qed.

Lemma as_integer_Some n z : as_integer n = Some z → n = num_of_Z z.
Proof. destruct n; simpl; try done. case_decide as H; [|done]. intros [= <-]. by rewrite H at 1. Qed.

Lemma math_max_Z a b : math_max (num_of_Z a) (num_of_Z b) = num_of_Z (Z.max a b).
Proof.
  unfold math_max. change (match num_of_Z a with NaN => NaN | _ => _ end) with
    (if num_lt (num_of_Z a) (num_of_Z b) then num_of_Z b else num_of_Z a).
  rewrite num_lt_Z. case_bool_decide; f_equal; lia.
Qed.

Lemma math_min_Z a b : math_min (num_of_Z a) (num_of_Z b) = num_of_Z (Z.min a b).
Proof.
  unfold math_min. change (match num_of_Z a with NaN => NaN | _ => _ end) with
    (if num_lt (num_of_Z b) (num_of_Z a) then num_of_Z b else num_of_Z a).
  rewrite num_lt_Z. case_bool_decide; f_equal; lia.
Qed.

Lemma math_trunc_Z z : math_trunc (num_of_Z z) = num_of_Z z.
Proof. unfold math_trunc, num_of_Z at 1. by rewrite qtrunc_Z. Qed.

Lemma num_le_Z a b : num_le (num_of_Z a) (num_of_Z b) = bool_decide (a ≤ b).
Proof.
  unfold num_le, num_of_Z. apply bool_decide_ext. unfold Qcle. simpl. rewrite !Qred_correct.
  unfold Qle. simpl. lia.
Qed.

Lemma num_le_trans a b c : num_le a b = true → num_le b c = true → num_le a c = true.
Proof.
  destruct a, b, c; simpl; try done. rewrite !bool_decide_eq_true. apply Qcle_trans.
Qed.

Lemma num_of_Z_Fin z : ∃ q, num_of_Z z = Fin q.
Proof. unfold num_of_Z. eauto. Qed.

#[global] Opaque num_of_Z.
