(* ===== verification/Json.v ===== *)
(** * [JSON] and the coercions of the browser

    What the forms use of the language to keep objects in texts: [JSON.parse],
    [JSON.stringify] with and without indentation, [String] and [Number] of a value that is no
    string. They are an interface with its laws: what is written is read back, for the
    values that JSON can hold. *)
From S2P Require Import Prelude JsString JsMap JsValue.
From Stdlib Require Import QArith Qcanon.
From stdpp Require Import countable.

Module Json.

Class Json := {
  (** [None]: the call throws *)
  JSON_parse : jsstr → option value;
  JSON_stringify : value → jsstr;
  JSON_pretty : value → jsstr;                      (* [JSON.stringify(v, null, 2)] *)
  String_of : value → jsstr;                         (* [String(v)], of no string *)
  Number_of : value → jsnum                          (* [Number(v)], of no number *)
}.

(** A number that is held exactly is a finite fraction with a power of two below. *)
Fixpoint power_of_two (p : positive) : bool :=
  match p with xH => true | xO p => power_of_two p | xI _ => false end.

Definition json_num (n : jsnum) : bool :=
  match n with Fin q => power_of_two (Qden (this q)) | _ => false end.

(** Names that look like array indices are moved to the front of an object. *)
Definition index_like (k : jsstr) : bool := is_digits k.

(** The values JSON holds as they are. *)
Fixpoint json (v : value) : bool :=
  match v with
  | Undef => false
  | Null | Bool _ | Str _ => true
  | Num n => json_num n
  | Arr l => forallb json l
  | Obj fields =>
      bool_decide (NoDup (map fst fields)) &&
      forallb (λ kv, negb (index_like (fst kv)) && json (snd kv)) fields
  end.

Class JsonLaws `{Json} : Prop := {
  parse_stringify : ∀ v, json v = true → JSON_parse (JSON_stringify v) = Some v;
  parse_pretty : ∀ v, json v = true → JSON_parse (JSON_pretty v) = Some v;
  stringify_nonblank : ∀ v, v ≠ Undef → trim (JSON_stringify v) ≠ [];
  pretty_nonblank : ∀ v, v ≠ Undef → trim (JSON_pretty v) ≠ [];
  stringify_trimmed : ∀ v, v ≠ Undef → trim (JSON_stringify v) = JSON_stringify v;
  pretty_trimmed : ∀ v, v ≠ Undef → trim (JSON_pretty v) = JSON_pretty v;
  parse_empty : JSON_parse (js "{}") = Some (Obj []);
  parse_blank : ∀ s, trim s = [] → JSON_parse s = None;
  parse_defined : ∀ s, JSON_parse s ≠ Some Undef
}.

(** [String(v)] and [Number(v)] *)
Definition to_str `{Json} (v : value) : jsstr := match v with Str s => s | _ => String_of v end.
Definition to_num `{Json} (v : value) : jsnum := match v with Num n => n | _ => Number_of v end.

(** ** A concrete [JSON]: the texts are numbers *)

Section ValueInd.
Context (P : value → Prop).
Context (HU : P Undef) (HN : P Null) (HB : ∀ b, P (Bool b)) (HNum : ∀ n, P (Num n)) (HS : ∀ s, P (Str s)).
Context (HA : ∀ l, Forall P l → P (Arr l)) (HO : ∀ fs, Forall (λ kv, P (snd kv)) fs → P (Obj fs)).

Fixpoint value_rect' (v : value) : P v :=
  match v with
  | Undef => HU
  | Null => HN
  | Bool b => HB b
  | Num n => HNum n
  | Str s => HS s
  | Arr l => HA l ((fix go l := match l return Forall P l with
                                | [] => Forall_nil_2 _
                                | x :: l => Forall_cons_2 _ _ _ (value_rect' x) (go l)
                                end) l)
  | Obj fs => HO fs ((fix go l := match l return Forall (λ kv, P (snd kv)) l with
                                  | [] => Forall_nil_2 _
                                  | x :: l => Forall_cons_2 _ _ _ (value_rect' (snd x)) (go l)
                                  end) fs)
  end.
End ValueInd.

#[global] Instance Qc_countable : Countable Qc.
Proof.
  apply (inj_countable' (λ q : Qc, (Qnum (this q), Qden (this q))) (λ '(n, d), Q2Qc (Qmake n d))).
  intros q. apply Qc_is_canon. simpl. destruct q as [ [n d] Hq]. simpl in *. apply Qred_correct.
Qed.

#[global] Instance jsnum_countable : Countable jsnum.
Proof.
  apply (inj_countable'
    (λ n, match n with NaN => inl 0%nat | PosInf => inl 1%nat | NegInf => inl 2%nat | Fin q => inr q end)
    (λ x : nat + Qc, match x with inl 0%nat => NaN | inl 1%nat => PosInf | inl _ => NegInf | inr q => Fin q end)).
  by intros [].
Qed.

Definition leaf : Type := unit + bool + jsnum + jsstr.

Fixpoint to_tree (v : value) : gen_tree leaf :=
  match v with
  | Undef => GenNode 2 []
  | Null => GenLeaf (inl (inl (inl ())))
  | Bool b => GenLeaf (inl (inl (inr b)))
  | Num n => GenLeaf (inl (inr n))
  | Str s => GenLeaf (inr s)
  | Arr l => GenNode 0 (map to_tree l)
  | Obj fs => GenNode 1 (map (λ kv, GenNode 3 [GenLeaf (inr (fst kv)); to_tree (snd kv)]) fs)
  end.

Fixpoint of_tree (x : gen_tree leaf) : value :=
  match x with
  | GenLeaf (inl (inl (inl _))) => Null
  | GenLeaf (inl (inl (inr b))) => Bool b
  | GenLeaf (inl (inr n)) => Num n
  | GenLeaf (inr s) => Str s
  | GenNode 0 l => Arr (map of_tree l)
  | GenNode 1 l =>
      Obj (map (λ y, match y with
                     | GenNode _ [GenLeaf (inr k); z] => (k, of_tree z)
                     | _ => ([], Undef)
                     end) l)
  | _ => Undef
  end.

Lemma of_to_tree v : of_tree (to_tree v) = v.
Proof.
  induction v as [| | | | |l Hl|fs Hf] using value_rect'; try done; simpl; f_equal.
  - induction Hl as [|x l Hx _ IH]; simpl; [done|]. by rewrite Hx, IH.
  - induction Hf as [|[k x] l Hx _ IH]; simpl; [done|]. simpl in Hx. by rewrite Hx, IH.
Qed.

#[global] Instance value_eq_dec' : EqDecision leaf.
Proof. solve_decision. Defined.

Definition sample_text (v : value) : jsstr :=
  match v with Obj [] => js "{}" | _ => [91%N; Npos (encode (to_tree v)); 93%N] end.

Definition defined (v : value) : option value := match v with Undef => None | _ => Some v end.

Definition sample_read (s : jsstr) : option value :=
  if streq s (js "{}") then Some (Obj [])
  else match s with
       | [c; Npos p; d] => if ((c =? 91) && (d =? 93))%N then decode p ≫= (λ x, defined (of_tree x)) else None
       | _ => None
       end.

Lemma sample_read_num p : sample_read [91%N; Npos p; 93%N] = decode p ≫= (λ x, defined (of_tree x)).
Proof. done. Qed.

Lemma sample_read_text v : v ≠ Undef → sample_read (sample_text v) = Some v.
Proof.
  intros Hv. destruct v as [| | | | | |[|kv fs] ]; [done|..|done|]; unfold sample_text;
    rewrite sample_read_num, decode_encode; cbn [mbind option_bind]; by rewrite of_to_tree.
Qed.

(** And with a [String] and a [Number] for the values that are none. *)
#[local] Instance sample_json : Json := {|
  JSON_parse := sample_read; JSON_stringify := sample_text; JSON_pretty := sample_text;
  String_of _ := []; Number_of _ := NaN |}.

Lemma sample_trimmed v : trim (sample_text v) = sample_text v.
Proof.
  assert (∀ p, trim [91%N; Npos p; 93%N] = [91%N; Npos p; 93%N]) as Hp
    by (intros p; apply (trim_bounded 91 [Npos p] 93); done).
  destruct v as [| | | | | |[|] ]; first [apply Hp | done].
Qed.

Lemma sample_nonblank v : trim (sample_text v) ≠ [].
Proof. rewrite sample_trimmed. by destruct v as [| | | | | |[|] ]. Qed.

Lemma sample_read_blank s : trim s = [] → sample_read s = None.
Proof.
  intros Hs. unfold sample_read. destruct (streq s (js "{}")) eqn:E.
  { apply streq_spec in E. subst s. done. }
  destruct s as [|c [|[|p] [|d [|] ] ] ]; try done.
  destruct ((c =? 91) && (d =? 93))%N eqn:Ec; [|done].
  apply andb_true_iff in Ec as [->%N.eqb_eq ->%N.eqb_eq].
  change [91%N; Npos p; 93%N] with (91%N :: [Npos p] ++ [93%N]) in Hs. by rewrite trim_bounded in Hs.
Qed.

Lemma sample_read_defined s : sample_read s ≠ Some Undef.
Proof.
  unfold sample_read. repeat case_match; try done.
  destruct (decode _) as [x|]; simpl; [|done]. by destruct (of_tree x).
Qed.

#[local] Instance sample_json_laws : JsonLaws.
Proof.
  split; intros; first [apply sample_nonblank | apply sample_trimmed | by apply sample_read_blank | apply sample_read_defined
    | reflexivity | apply sample_read_text; by intros ->].
Qed.

End Json.
