(* ===== verification/StatusRules.v ===== *)
(** * HTTP status code rules (web/src/lib/http-status-code-rules.ts)

    The console lets an operator write lists such as [401,500-503] of upstream
    status codes that disable or retry a channel. The file parses such a list,
    merges its ranges and prints the canonical form that is stored. *)
From S2P Require Import Prelude JsString.
From Stdlib Require Import Ascii.
Local Open Scope Z_scope.

Module StatusRules.

Record StatusCodeRange := mkRange { r_start : Z; r_end : Z }.

Record ParsedHttpStatusCodeRules := mkParsed {
  p_ok : bool;
  p_ranges : list StatusCodeRange;
  p_tokens : list jsstr;
  p_normalized : jsstr;
  p_invalidTokens : list jsstr
}.

#[export] Instance StatusCodeRange_eq_dec : EqDecision StatusCodeRange.
Proof. solve_decision. Defined.

Definition isNumber (s : jsstr) : bool := is_digits s.

Definition parseInt10 (s : jsstr) : Z := Z.of_N (parse_digits s).

Definition isValidCode (code : Z) : bool := (100 <=? code) && (code <=? 599).

Definition comma : N := ch ",".
Definition dash : N := ch "-".

(** [parseToken]; the destructuring [const [a, b] = cleaned.split('-')] keeps the
    first two parts only. *)
Definition parseToken (token : jsstr) : option StatusCodeRange :=
  let cleaned := filter (λ c, is_ws c = false) (trim token) in
  if negb (truthy cleaned) then None
  else if includes_unit dash cleaned then
    match split_on dash cleaned with
    | a :: b :: _ =>
        if negb (isNumber a) || negb (isNumber b) then None
        else
          let start := parseInt10 a in
          let end_ := parseInt10 b in
          if negb (isValidCode start) || negb (isValidCode end_) || (end_ <? start)
          then None
          else Some (mkRange start end_)
    | _ => None
    end
  else if negb (isNumber cleaned) then None
  else
    let code := parseInt10 cleaned in
    if negb (isValidCode code) then None else Some (mkRange code code).

(** The comparator [a.start !== b.start ? a.start - b.start : a.end - b.end]. *)
Definition range_cmp (a b : StatusCodeRange) : Z :=
  if negb (r_start a =? r_start b) then r_start a - r_start b else r_end a - r_end b.

Definition range_le (a b : StatusCodeRange) : bool := range_cmp a b <=? 0.

(** One step of the [reduce] in [mergeRanges]: push a copy, or widen the last
    range in place. *)
Definition merge_step (merged : list StatusCodeRange) (current : StatusCodeRange) :
    list StatusCodeRange :=
  match last merged with
  | None => merged ++ [current]
  | Some l =>
      if r_end l + 1 <? r_start current then merged ++ [current]
      else removelast merged ++ [mkRange (r_start l) (Z.max (r_end l) (r_end current))]
  end.

Definition mergeRanges (ranges : list StatusCodeRange) : list StatusCodeRange :=
  match ranges with
  | [] => []
  | _ => foldl merge_step [] (js_sort range_le ranges)
  end.

Definition show_range (r : StatusCodeRange) : jsstr :=
  if r_start r =? r_end r then show_Z (r_start r)
  else show_Z (r_start r) ++ dash :: show_Z (r_end r).

(** The loop over the segments: the ranges parsed and the tokens refused. *)
Fixpoint parse_segments (segments : list jsstr) : list StatusCodeRange * list jsstr :=
  match segments with
  | [] => ([], [])
  | s :: rest =>
      let '(ranges, bad) := parse_segments rest in
      match parseToken s with
      | None => (ranges, s :: bad)
      | Some r => (r :: ranges, bad)
      end
  end.

Definition segments_of (raw : jsstr) : list jsstr :=
  let sanitized := map (λ c, if (c =? 0xFF0C)%N then comma else c) raw in
  filter (λ s, truthy s = true) (map trim (split_on comma sanitized)).

Definition parseHttpStatusCodeRules (input : option jsstr) : ParsedHttpStatusCodeRules :=
  let raw := trim (default [] input) in
  if negb (truthy raw) then mkParsed true [] [] [] []
  else
    let '(ranges, invalidTokens) := parse_segments (segments_of raw) in
    match invalidTokens with
    | _ :: _ => mkParsed false [] [] raw invalidTokens
    | [] =>
        let merged := mergeRanges ranges in
        let tokens := map show_range merged in
        mkParsed true merged tokens (join [comma] tokens) []
    end.

(** ** What a rule list means *)

Definition covers (r : StatusCodeRange) (c : Z) : Prop := r_start r ≤ c ≤ r_end r.

Definition wf_range (r : StatusCodeRange) : Prop :=
  100 ≤ r_start r ∧ r_start r ≤ r_end r ∧ r_end r ≤ 599.

(** Two neighbouring ranges of a canonical list leave at least one code between. *)
Definition separated (a b : StatusCodeRange) : Prop := r_end a + 1 < r_start b.

Definition canonical (l : list StatusCodeRange) : Prop :=
  Forall wf_range l ∧ Sorted separated l.

Definition covered (l : list StatusCodeRange) (c : Z) : Prop := ∃ r, r ∈ l ∧ covers r c.

Lemma covered_app l k c : covered (l ++ k) c ↔ covered l c ∨ covered k c.
Proof. unfold covered. set_solver. Qed.

Lemma covered_cons r l c : covered (r :: l) c ↔ covers r c ∨ covered l c.
Proof. unfold covered. set_solver. Qed.

Lemma covered_one r c : covered [r] c ↔ covers r c.
Proof. unfold covered. set_solver. Qed.

Lemma covered_nil c : ¬ covered [] c.
Proof. intros (r & Hr & _). by apply not_elem_of_nil in Hr. Qed.

Lemma covered_perm l k c : l ≡ₚ k → covered l c ↔ covered k c.
Proof. intros H. unfold covered. by setoid_rewrite H. Qed.

(** ** Merging *)

Lemma range_le_total a b : range_le a b = false → range_le b a = true.
Proof.
  unfold range_le, range_cmp. rewrite Z.leb_gt, Z.leb_le.
  destruct (Z.eqb_spec (r_start a) (r_start b)), (Z.eqb_spec (r_start b) (r_start a));
    simpl; lia.
Qed.

Lemma range_le_start a b : range_le a b = true → r_start a ≤ r_start b.
Proof.
  unfold range_le, range_cmp. rewrite Z.leb_le.
  destruct (Z.eqb_spec (r_start a) (r_start b)); simpl; lia.
Qed.

Lemma merge_step_nil r : merge_step [] r = [r].
Proof. done. Qed.

Lemma merge_step_snoc m x r :
  merge_step (m ++ [x]) r =
    if r_end x + 1 <? r_start r then (m ++ [x]) ++ [r]
    else m ++ [mkRange (r_start x) (Z.max (r_end x) (r_end r))].
Proof. unfold merge_step. by rewrite last_snoc, removelast_last. Qed.

(** One step keeps the list canonical and adds exactly the new range. *)
Lemma merge_step_ok m r :
  canonical m → wf_range r → (∀ x, last m = Some x → r_start x ≤ r_start r) →
  canonical (merge_step m r) ∧
  (∀ c, covered (merge_step m r) c ↔ covered m c ∨ covers r c) ∧
  (∀ x, last (merge_step m r) = Some x → r_start x ≤ r_start r).
Proof.
  intros [Hwf Hs] Hr Hlast. destruct m as [|x m _] using rev_ind.
  - rewrite merge_step_nil. split_and!.
    + split; [by rewrite Forall_singleton|by repeat constructor].
    + intros c. rewrite covered_one. pose proof (covered_nil c). tauto.
    + intros x [= <-]. lia.
  - specialize (Hlast x). rewrite last_snoc in Hlast. specialize (Hlast eq_refl).
    rewrite Forall_app, Forall_singleton in Hwf. destruct Hwf as [Hm Hx].
    rewrite merge_step_snoc. destruct (Z.ltb_spec (r_end x + 1) (r_start r)).
    + split_and!.
      * split; [by rewrite !Forall_app, !Forall_singleton|].
        by apply Sorted_snoc.
      * intros c. by rewrite covered_app, covered_one.
      * intros y. rewrite last_snoc. intros [= <-]. lia.
    + unfold wf_range in *. split_and!.
      * split; [rewrite Forall_app, Forall_singleton; simpl; split; [done|unfold wf_range in *; simpl; lia]|].
        eapply Sorted_snoc_replace; [|done]. intros z. unfold separated. simpl. lia.
      * intros c. rewrite !covered_app, !covered_one. unfold covers. simpl.
        assert (r_start x ≤ c ≤ Z.max (r_end x) (r_end r) ↔
                r_start x ≤ c ≤ r_end x ∨ r_start r ≤ c ≤ r_end r) by lia.
        tauto.
      * intros y. rewrite last_snoc. intros [= <-]. simpl. lia.
Qed.

Lemma fold_merge_ok l m :
  Sorted (λ a b, range_le a b = true) l → Forall wf_range l → canonical m →
  (∀ x r, last m = Some x → head l = Some r → r_start x ≤ r_start r) →
  canonical (foldl merge_step m l) ∧
  ∀ c, covered (foldl merge_step m l) c ↔ covered m c ∨ covered l c.
Proof.
  revert m. induction l as [|r l IH]; intros m Hs Hwf Hm Hlast; simpl.
  - split; [done|]. intros c. pose proof (covered_nil c). tauto.
  - apply Forall_cons in Hwf as [Hr Hwf]. inversion Hs as [|?? Hs' Hhd]; subst.
    destruct (merge_step_ok m r) as (Hc & Hcov & Hl); [done..| |].
    { intros x Hx. by apply Hlast. }
    destruct (IH (merge_step m r)) as [Hc' Hcov']; [done..| |].
    { intros x r' Hx%Hl Hr'. destruct l; simplify_eq/=. inversion Hhd; subst.
      etrans; [exact Hx|]. by apply range_le_start. }
    split; [done|]. intros c. rewrite Hcov', Hcov, covered_cons. tauto.
Qed.

Lemma mergeRanges_fold l : mergeRanges l = foldl merge_step [] (js_sort range_le l).
Proof. by destruct l. Qed.

Lemma mergeRanges_ok l :
  Forall wf_range l →
  canonical (mergeRanges l) ∧ ∀ c, covered (mergeRanges l) c ↔ covered l c.
Proof.
  intros Hwf. rewrite mergeRanges_fold.
  destruct (fold_merge_ok (js_sort range_le l) []) as [Hc Hcov].
  - apply js_sort_Sorted, range_le_total.
  - by rewrite js_sort_perm.
  - by split; constructor.
  - done.
  - split; [done|]. intros c. rewrite Hcov.
    rewrite (covered_perm _ _ c (js_sort_perm range_le l)).
    pose proof (covered_nil c). tauto.
Qed.

(** Merging a canonical list is the identity. *)
Lemma fold_merge_canonical l m :
  Sorted separated (m ++ l) → foldl merge_step m l = m ++ l.
Proof.
  revert m. induction l as [|r l IH]; intros m Hs; simpl; [by rewrite app_nil_r|].
  assert (merge_step m r = m ++ [r]) as ->.
  { destruct m as [|x m _] using rev_ind; [done|]. rewrite merge_step_snoc.
    replace (r_end x + 1 <? r_start r) with true; [done|]. symmetry. apply Z.ltb_lt.
    rewrite <- app_assoc in Hs. clear -Hs. induction m as [|y m IHm]; simpl in Hs.
    - inversion Hs as [|?? _ Hhd]. by inversion Hhd.
    - apply IHm. by inversion Hs. }
  rewrite IH; by rewrite <- app_assoc.
Qed.

Lemma canonical_sorted l :
  canonical l → Sorted (λ a b, range_le a b = true) l.
Proof.
  intros [Hwf Hs]. induction Hs as [|r l Hs IH Hhd]; [constructor|].
  apply Forall_cons in Hwf as [Hr Hwf]. constructor; [by apply IH|].
  destruct Hhd as [|s l Hsep]; constructor.
  unfold separated, wf_range, range_le, range_cmp in *. apply Z.leb_le.
  destruct (Z.eqb_spec (r_start r) (r_start s)); simpl; lia.
Qed.

Lemma mergeRanges_canonical l : canonical l → mergeRanges l = l.
Proof.
  intros Hc. rewrite mergeRanges_fold, js_sort_id by by apply canonical_sorted.
  rewrite fold_merge_canonical; [done|]. apply Hc.
Qed.

(** ** Tokens *)

Lemma isValidCode_spec c : isValidCode c = true ↔ 100 ≤ c ≤ 599.
Proof. unfold isValidCode. rewrite andb_true_iff, !Z.leb_le. lia. Qed.

Lemma parseToken_wf t r : parseToken t = Some r → wf_range r.
Proof.
  unfold parseToken. intros H. unfold wf_range.
  repeat case_match; simplify_eq/=; split_bools;
    repeat match goal with
    | H : isValidCode _ = true |- _ => apply isValidCode_spec in H
    | H : (_ <? _) = false |- _ => apply Z.ltb_ge in H
    end; lia.
Qed.

Definition code_char (c : N) : Prop := is_digit c = true ∨ c = dash.

Lemma show_Z_digits z : 0 ≤ z → Forall (λ c, is_digit c = true) (show_Z z).
Proof.
  intros Hz. unfold show_Z. destruct (Z.ltb_spec z 0); [lia|]. apply show_N_digits.
Qed.

Lemma show_range_chars r : wf_range r → Forall code_char (show_range r).
Proof.
  intros (H1 & H2 & H3).
  assert (∀ z, 0 ≤ z → Forall code_char (show_Z z)) as Hd.
  { intros z Hz. eapply Forall_impl; [by apply show_Z_digits|]. by left. }
  unfold show_range. case_match; [apply Hd; lia|].
  rewrite Forall_app, Forall_cons. split_and!; [apply Hd; lia|by right|apply Hd; lia].
Qed.

Lemma code_char_not_ws c : code_char c → is_ws c = false.
Proof. intros [H| ->]; [by apply digit_not_ws|done]. Qed.

Lemma code_char_not_comma c : code_char c → c ≠ comma ∧ c ≠ 0xFF0C%N.
Proof. intros [H| ->]; [|done]. split; intros ->; done. Qed.

Lemma show_range_nonempty r : show_range r ≠ [].
Proof.
  assert (∀ z, show_Z z ≠ []) as Hz.
  { intros z. unfold show_Z. case_match; [done|apply show_N_nonempty]. }
  unfold show_range. case_match; [apply Hz|]. by intros [? [=]]%app_nil.
Qed.

Lemma parse_show_Z z : 0 ≤ z → isNumber (show_Z z) = true ∧ parseInt10 (show_Z z) = z.
Proof.
  intros Hz. unfold show_Z, isNumber, parseInt10. destruct (Z.ltb_spec z 0); [lia|].
  rewrite parse_show_N, is_digits_show_N. split; [done|]. by apply Z2N.id.
Qed.

Lemma dash_not_in_digits s : Forall (λ c, is_digit c = true) s → dash ∉ s.
Proof. rewrite Forall_forall. intros H Hin. by specialize (H _ Hin). Qed.

Lemma clean_code_chars s :
  Forall code_char s → filter (λ c, is_ws c = false) (trim s) = s.
Proof.
  intros H. assert (Forall (λ c, is_ws c = false) s) as Hw.
  { eapply Forall_impl; [exact H|]. apply code_char_not_ws. }
  rewrite trim_no_ws by done. by apply filter_all.
Qed.

Lemma parseToken_show r : wf_range r → parseToken (show_range r) = Some r.
Proof.
  intros Hwf. unfold parseToken. rewrite clean_code_chars by by apply show_range_chars.
  pose proof (show_range_nonempty r) as Hne. destruct Hwf as (H1 & H2 & H3).
  assert (isValidCode (r_start r) = true) as Hvs by (apply isValidCode_spec; lia).
  assert (isValidCode (r_end r) = true) as Hve by (apply isValidCode_spec; lia).
  destruct (parse_show_Z (r_start r)) as [Ha Hpa]; [lia|].
  destruct (parse_show_Z (r_end r)) as [Hb Hpb]; [lia|].
  destruct (truthy (show_range r)) eqn:Ht; [|by destruct (show_range r)]. simpl.
  unfold show_range, includes_unit. destruct (Z.eqb_spec (r_start r) (r_end r)) as [He|Hn].
  - rewrite bool_decide_eq_false_2 by (apply dash_not_in_digits, show_Z_digits; lia).
    rewrite Ha, Hpa, Hvs. destruct r; simplify_eq/=. done.
  - rewrite bool_decide_eq_true_2 by set_solver.
    rewrite split_on_app, split_on_free by (apply dash_not_in_digits, show_Z_digits; lia).
    rewrite Ha, Hb, Hpa, Hpb, Hvs, Hve. simpl.
    destruct (Z.ltb_spec (r_end r) (r_start r)); [lia|]. by destruct r.
Qed.

Lemma parse_segments_show l :
  Forall wf_range l → parse_segments (map show_range l) = (l, []).
Proof.
  induction 1 as [|r l Hr Hl IH]; simpl; [done|]. by rewrite IH, parseToken_show.
Qed.

(** What the segment loop collects. *)
Lemma parse_segments_spec l :
  parse_segments l = (omap parseToken l, filter (λ t, parseToken t = None) l).
Proof.
  induction l as [|s l IH]; simpl; [done|]. rewrite IH, filter_cons.
  destruct (parseToken s) eqn:E; by case_decide.
Qed.

Lemma omap_parseToken_wf l : Forall wf_range (omap parseToken l).
Proof.
  apply Forall_forall. intros r (t & _ & Ht)%list_elem_of_omap. by eapply parseToken_wf.
Qed.

(** ** The whole parser *)

Definition segments_of_input (i : option jsstr) : list jsstr := segments_of (trim (default [] i)).

Lemma parse_unfold i :
  let parsed := omap parseToken (segments_of_input i) in
  let bad := filter (λ t, parseToken t = None) (segments_of_input i) in
  parseHttpStatusCodeRules i =
    match bad with
    | _ :: _ => mkParsed false [] [] (trim (default [] i)) bad
    | [] => mkParsed true (mergeRanges parsed) (map show_range (mergeRanges parsed))
              (join [comma] (map show_range (mergeRanges parsed))) []
    end.
Proof.
  unfold parseHttpStatusCodeRules, segments_of_input. cbv zeta.
  rewrite parse_segments_spec. destruct (trim (default [] i)); done.
Qed.

Lemma join_Forall (P : N → Prop) sep ps :
  Forall P sep → Forall (Forall P) ps → Forall P (join sep ps).
Proof.
  intros Hsep H. induction H as [|p ps Hp Hps IH]; [constructor|].
  destruct ps as [|q ps]; [done|]. simpl. rewrite !Forall_app. auto.
Qed.

(** Reading back the printed form of a canonical list. *)
Lemma segments_of_print l :
  Forall wf_range l → l ≠ [] →
  segments_of_input (Some (join [comma] (map show_range l))) = map show_range l.
Proof.
  intros Hwf Hne. unfold segments_of_input, segments_of. simpl.
  assert (Forall (Forall code_char) (map show_range l)) as Hc.
  { rewrite Forall_fmap. eapply Forall_impl; [exact Hwf|]. apply show_range_chars. }
  assert (Forall (λ c, code_char c ∨ c = comma) (join [comma] (map show_range l))) as Hj.
  { apply join_Forall; [repeat constructor; by right|].
    eapply Forall_impl; [exact Hc|]. intros t Ht.
    eapply Forall_impl; [exact Ht|]. by left. }
  rewrite trim_no_ws.
  2:{ eapply Forall_impl; [exact Hj|]. intros c [?| ->]; [by apply code_char_not_ws|done]. }
  rewrite (map_fix (λ c, if (c =? 0xFF0C)%N then comma else c)).
  2:{ eapply Forall_impl; [exact Hj|]. intros c [H| ->]; [|done].
      apply code_char_not_comma in H as [_ H]. by apply N.eqb_neq in H as ->. }
  rewrite split_on_join.
  2:{ by destruct l. }
  2:{ eapply Forall_impl; [exact Hc|]. intros t Ht Hin. rewrite Forall_forall in Ht.
      by destruct (code_char_not_comma comma (Ht _ Hin)). }
  rewrite (map_fix trim).
  2:{ eapply Forall_impl; [exact Hc|]. intros t Ht. apply trim_no_ws.
      eapply Forall_impl; [exact Ht|]. apply code_char_not_ws. }
  apply filter_all. rewrite Forall_fmap. apply Forall_forall. intros r _. simpl.
  apply truthy_spec, show_range_nonempty.
Qed.

Lemma parse_print l :
  canonical l →
  parseHttpStatusCodeRules (Some (join [comma] (map show_range l))) =
    mkParsed true l (map show_range l) (join [comma] (map show_range l)) [].
Proof.
  intros Hc. destruct (decide (l = [])) as [->|Hne]; [done|].
  pose proof (parse_unfold (Some (join [comma] (map show_range l)))) as H. cbv zeta in H.
  rewrite segments_of_print in H by (done || apply Hc).
  pose proof (parse_segments_spec (map show_range l)) as Hp.
  rewrite parse_segments_show in Hp by apply Hc. injection Hp as Hl Hb.
  rewrite <- Hb, <- Hl, mergeRanges_canonical in H; done.
Qed.

(** [C39] Meaning: an accepted list denotes exactly the codes its comma-separated
    segments denote. The parser accepts exactly when every segment is a valid
    token; otherwise it returns no range and lists the refused segments. *)
Theorem parse_rules_meaning (i : option jsstr) :
  let r := parseHttpStatusCodeRules i in
  (p_ok r = true ↔ ∀ t, t ∈ segments_of_input i → parseToken t ≠ None) ∧
  p_invalidTokens r = filter (λ t, parseToken t = None) (segments_of_input i) ∧
  ∀ c, covered (p_ranges r) c ↔
    p_ok r = true ∧
    ∃ t s, t ∈ segments_of_input i ∧ parseToken t = Some s ∧ covers s c.
Proof.
  cbv zeta. rewrite parse_unfold.
  destruct (filter _ _) as [|t0 bad] eqn:E; simpl; split_and!.
  - split; [|done]. intros _ t Ht Hn.
    assert (t ∈ filter (λ t, parseToken t = None) (segments_of_input i)) as Hin.
    { by apply list_elem_of_filter. }
    rewrite E in Hin. by apply not_elem_of_nil in Hin.
  - done.
  - intros c. destruct (mergeRanges_ok (omap parseToken (segments_of_input i))) as [_ ->];
      [apply omap_parseToken_wf|].
    unfold covered. setoid_rewrite list_elem_of_omap. naive_solver.
  - split; [done|]. intros H.
    assert (t0 ∈ filter (λ t, parseToken t = None) (segments_of_input i)) as Hin.
    { rewrite E. left. }
    apply list_elem_of_filter in Hin as [Hn Hin]. by destruct (H t0 Hin).
  - done.
  - intros c. pose proof (covered_nil c). naive_solver.
Qed.

(** Canonical form: the ranges returned are within 100..599, each starts no
    later than it ends, and neighbours are increasing, disjoint and non-adjacent. *)
Theorem parse_rules_canonical (i : option jsstr) :
  canonical (p_ranges (parseHttpStatusCodeRules i)).
Proof.
  rewrite parse_unfold. case_match; simpl; [|by split; constructor].
  apply mergeRanges_ok, omap_parseToken_wf.
Qed.

(** Round trip: parsing the normalized text that is stored gives back the
    same result, so saving a rule list twice changes nothing. *)
Theorem parse_rules_roundtrip (i : option jsstr)
    (Hok : p_ok (parseHttpStatusCodeRules i) = true) :
  parseHttpStatusCodeRules (Some (p_normalized (parseHttpStatusCodeRules i))) =
  parseHttpStatusCodeRules i.
Proof.
  revert Hok. rewrite parse_unfold. case_match; simpl; [intros _|done].
  apply parse_print, mergeRanges_ok, omap_parseToken_wf.
Qed.

Lemma parse_rules_roundtrip_witness :
  p_normalized (parseHttpStatusCodeRules (Some (js " 503, 500 - 502,401"))) =
    js "401,500-503" ∧
  parseHttpStatusCodeRules (Some (p_normalized (parseHttpStatusCodeRules
    (Some (js " 503, 500 - 502,401"))))) =
  parseHttpStatusCodeRules (Some (js " 503, 500 - 502,401")).
Proof.
  split; [vm_compute; reflexivity|].
  apply (parse_rules_roundtrip (Some (js " 503, 500 - 502,401"))).
  vm_compute. reflexivity.
Defined.

(** Everything after a second dash of a token is dropped without being
    reported: the token [a-b-rest] is accepted as the range [a-b] whatever the
    rest is, although it is not a code or a range of codes. *)
Theorem token_third_part_ignored (r : StatusCodeRange) (rest : jsstr)
    (Hwf : wf_range r) (Hlt : r_start r < r_end r)
    (Hrest : Forall (λ c, is_ws c = false) rest) :
  parseToken (show_range r ++ dash :: rest) = Some r.
Proof.
  pose proof (parseToken_show r Hwf) as Hp. unfold parseToken in *.
  rewrite clean_code_chars in Hp by by apply show_range_chars.
  assert (Forall (λ c, is_ws c = false) (show_range r ++ dash :: rest)) as Hw.
  { rewrite Forall_app, Forall_cons. split_and!; [|done..].
    eapply Forall_impl; [by apply show_range_chars|]. apply code_char_not_ws. }
  rewrite trim_no_ws, filter_all by done.
  destruct Hwf as (H1 & H2 & H3). unfold show_range in *.
  destruct (Z.eqb_spec (r_start r) (r_end r)); [lia|].
  unfold includes_unit in *. rewrite bool_decide_eq_true_2 in Hp by set_solver.
  rewrite bool_decide_eq_true_2 by set_solver.
  rewrite <- app_assoc. simpl.
  rewrite split_on_app, split_on_free in Hp by (apply dash_not_in_digits, show_Z_digits; lia).
  rewrite !split_on_app by (apply dash_not_in_digits, show_Z_digits; lia).
  destruct (show_Z (r_start r)); exact Hp.
Qed.

Lemma token_third_part_ignored_witness :
  parseToken (js "400-499-9999") = Some (mkRange 400 499).
Proof.
  change (js "400-499-9999") with (show_range (mkRange 400 499) ++ dash :: js "9999").
  apply (token_third_part_ignored (mkRange 400 499) (js "9999")).
  - unfold wf_range; simpl; lia.
  - simpl; lia.
  - repeat constructor.
Defined.

End StatusRules.
