(* ===== verification/RatioSync.v ===== *)
(** * Upstream ratio synchronisation
      (web/src/features/system-settings/models/upstream-ratio-sync-helpers.ts)

    The operator compares the local model prices with those of upstream sources
    and selects, per model and field, which upstream value to take over. The
    selections are collected in a [ResolutionsMap]; a model is billed either by
    price or by ratios, while the tiered fields ([billing_mode], [billing_expr])
    may accompany both. *)
From S2P Require Import Prelude JsString JsMap.

Module RatioSync.

Inductive RatioType :=
| model_ratio | completion_ratio | cache_ratio | create_cache_ratio
| image_ratio | audio_ratio | audio_completion_ratio
| model_price | billing_mode | billing_expr.

#[export] Instance RatioType_eq_dec : EqDecision RatioType.
Proof. solve_decision. Defined.

Definition RATIO_SYNC_FIELDS : list RatioType :=
  [model_ratio; completion_ratio; cache_ratio; create_cache_ratio;
   image_ratio; audio_ratio; audio_completion_ratio].

Definition SYNC_FIELD_ORDER : list RatioType :=
  RATIO_SYNC_FIELDS ++ [model_price; billing_mode; billing_expr].

(** The field's name as it appears in keys and filters. *)
Definition ratio_name (t : RatioType) : jsstr :=
  match t with
  | model_ratio => js "model_ratio"
  | completion_ratio => js "completion_ratio"
  | cache_ratio => js "cache_ratio"
  | create_cache_ratio => js "create_cache_ratio"
  | image_ratio => js "image_ratio"
  | audio_ratio => js "audio_ratio"
  | audio_completion_ratio => js "audio_completion_ratio"
  | model_price => js "model_price"
  | billing_mode => js "billing_mode"
  | billing_expr => js "billing_expr"
  end.

#[export] Instance RatioType_countable : Countable RatioType.
Proof.
  refine (inj_countable' (λ t, match t with
    | model_ratio => 0 | completion_ratio => 1 | cache_ratio => 2
    | create_cache_ratio => 3 | image_ratio => 4 | audio_ratio => 5
    | audio_completion_ratio => 6 | model_price => 7 | billing_mode => 8
    | billing_expr => 9 end)
    (λ n, nth n SYNC_FIELD_ORDER billing_expr) _).
  by intros [].
Defined.

Section with_numbers.
(** JavaScript numbers are carried, never inspected, by this code. *)
Context {num : Type}.

Inductive SyncValue := VNum (n : num) | VStr (s : jsstr).

(** [upstreams[source]]: an absent key is [None], a stored [null] is [Some None]. *)
Record RatioDifferenceEntry := mkEntry {
  e_current : option SyncValue;
  e_upstreams : gmap jsstr (option SyncValue);
  e_confidence : gmap jsstr bool
}.

Abbreviation RatioTypes := (gmap RatioType RatioDifferenceEntry).
Abbreviation Differences := (gmap jsstr (gmap RatioType RatioDifferenceEntry)).
Abbreviation Resolution := (gmap RatioType SyncValue).
Abbreviation ResolutionsMap := (gmap jsstr (gmap RatioType SyncValue)).

Record ResolutionSelection := mkSel {
  s_model : jsstr;
  s_ratioType : RatioType;
  s_value : SyncValue;
  s_sourceName : jsstr
}.

Record ResolutionRemoval := mkRem { rm_model : jsstr; rm_ratioType : RatioType }.

Definition isSame (v : SyncValue) : bool :=
  match v with VStr s => streq s (js "same") | VNum _ => false end.

(** [value !== null && value !== undefined && value !== 'same'] *)
Definition isSelectableUpstreamValue (v : option (option SyncValue)) : bool :=
  match v with Some (Some x) => negb (isSame x) | _ => false end.

Definition upstream (rts : RatioTypes) (t : RatioType) (source : jsstr) :
    option (option SyncValue) :=
  match rts !! t with Some e => e_upstreams e !! source | None => None end.

Definition getOrderedRatioTypes (rts : RatioTypes) (flt : option jsstr) : list RatioType :=
  let keys := map fst (map_to_list rts) in
  let ordered :=
    filter (λ f, f ∈ keys) SYNC_FIELD_ORDER ++ filter (λ f, f ∉ SYNC_FIELD_ORDER) keys in
  match flt with
  | None => ordered
  | Some f =>
      if negb (truthy f) || streq f (js "__all__") then ordered
      else filter (λ t, ratio_name t = f) ordered
  end.

Definition getPreferredSyncField (rts : RatioTypes) (t : RatioType) (source : jsstr) :
    RatioType :=
  if negb (bool_decide (t = billing_expr)) &&
     isSelectableUpstreamValue (upstream rts billing_expr source)
  then billing_expr else t.

Definition getVisibleRatioTypesForSource (rts : RatioTypes) (source : jsstr)
    (flt : option jsstr) : list RatioType :=
  filter (λ t, getPreferredSyncField rts t source = t) (getOrderedRatioTypes rts flt).

Definition getAlignedRatioTypes (rts : RatioTypes) (sources : list jsstr)
    (flt : option jsstr) : list RatioType :=
  let ordered := getOrderedRatioTypes rts flt in
  match sources with
  | [] => ordered
  | _ =>
      let visible := foldl (λ s x, js_add x s) []
        (mjoin (map (λ src, getVisibleRatioTypesForSource rts src flt) sources)) in
      filter (λ t, t ∈ visible) ordered
  end.

Inductive BillingCategory := CPrice | CRatio | CTiered.

#[export] Instance BillingCategory_eq_dec : EqDecision BillingCategory.
Proof. solve_decision. Defined.

Definition getBillingCategory (t : RatioType) : BillingCategory :=
  match t with
  | model_price => CPrice
  | billing_mode | billing_expr => CTiered
  | _ => CRatio
  end.

(** [preferredValue]: the selected value, or the preferred field's own. *)
Definition preferredValue (rts : RatioTypes) (sel : ResolutionSelection) : SyncValue :=
  let preferredType := getPreferredSyncField rts (s_ratioType sel) (s_sourceName sel) in
  if decide (preferredType = s_ratioType sel) then s_value sel
  else match upstream rts preferredType (s_sourceName sel) with
       | Some (Some v) => v
       | _ => s_value sel
       end.

Definition getDraftModelResolution (drafts : ResolutionsMap) (resolutions : ResolutionsMap)
    (model : jsstr) : Resolution :=
  match drafts !! model with
  | Some d => d
  | None => default ∅ (resolutions !! model)
  end.

(** The deletion loop over [Object.keys(newModelRes)]. *)
Definition conflicts (category : BillingCategory) (t : RatioType) : Prop :=
  category ≠ CTiered ∧ getBillingCategory t ≠ CTiered ∧ getBillingCategory t ≠ category.

#[export] Instance conflicts_dec category t : Decision (conflicts category t).
Proof. unfold conflicts. apply _. Defined.

Definition drop_conflicts (category : BillingCategory) (r : Resolution) : Resolution :=
  filter (λ kv, ¬ conflicts category kv.1) r.

(** The write of the tiered companions [billing_mode] and [billing_expr]. *)
Definition write_tiered (rts : RatioTypes) (finalType : RatioType) (source : jsstr)
    (r : Resolution) : Resolution :=
  let modeVal := upstream rts billing_mode source in
  let exprVal := upstream rts billing_expr source in
  let r1 :=
    match modeVal with
    | Some (Some v) =>
        if negb (isSame v) then <[billing_mode := v]> r
        else if decide (finalType = billing_expr)
             then <[billing_mode := VStr (js "tiered_expr")]> r else r
    | _ => if decide (finalType = billing_expr)
           then <[billing_mode := VStr (js "tiered_expr")]> r else r
    end in
  match exprVal with
  | Some (Some v) => if negb (isSame v) then <[billing_expr := v]> r1 else r1
  | _ => r1
  end.

Definition applyResolutionSelectionToDraft (drafts resolutions : ResolutionsMap)
    (differences : Differences) (sel : ResolutionSelection) : ResolutionsMap :=
  let modelDiffs := differences !! s_model sel in
  let rts := default ∅ modelDiffs in
  let finalType := getPreferredSyncField rts (s_ratioType sel) (s_sourceName sel) in
  let finalValue := preferredValue rts sel in
  let category := getBillingCategory finalType in
  let draft := getDraftModelResolution drafts resolutions (s_model sel) in
  let written := <[finalType := finalValue]> (drop_conflicts category draft) in
  let final :=
    match modelDiffs with
    | Some diffs =>
        if decide (category = CTiered)
        then write_tiered diffs finalType (s_sourceName sel) written else written
    | None => written
    end in
  <[s_model sel := final]> drafts.

(** [drafts.forEach((draft, model) => ...)] writes every draft into a copy. *)
Definition commit (drafts base : ResolutionsMap) : ResolutionsMap :=
  map_fold (λ model draft next,
    if decide (draft = ∅) then delete model next else <[model := draft]> next) base drafts.

Definition applyResolutionSelections (resolutions : ResolutionsMap)
    (differences : Differences) (selections : list ResolutionSelection) : ResolutionsMap :=
  match selections with
  | [] => resolutions
  | _ =>
      let drafts := foldl (λ drafts sel,
        applyResolutionSelectionToDraft drafts resolutions differences sel) ∅ selections in
      commit drafts resolutions
  end.

Definition applyResolutionSelection (resolutions : ResolutionsMap)
    (differences : Differences) (selection : ResolutionSelection) : ResolutionsMap :=
  applyResolutionSelections resolutions differences [selection].

Definition resolveResolutionSelection (differences : Differences)
    (sel : ResolutionSelection) : ResolutionSelection :=
  let rts := default ∅ (differences !! s_model sel) in
  mkSel (s_model sel)
    (getPreferredSyncField rts (s_ratioType sel) (s_sourceName sel))
    (preferredValue rts sel) (s_sourceName sel).

(** The key [`${model}\u0000${ratioType}`]. *)
Definition effective_key (model : jsstr) (t : RatioType) : jsstr :=
  model ++ 0%N :: ratio_name t.

Definition supersedes (resolved existing : ResolutionSelection) : Prop :=
  s_model existing = s_model resolved ∧
  getBillingCategory (s_ratioType existing) ≠ CTiered ∧
  getBillingCategory (s_ratioType existing) ≠ getBillingCategory (s_ratioType resolved).

#[export] Instance supersedes_dec r e : Decision (supersedes r e).
Proof. unfold supersedes. apply _. Defined.

Definition effective_step (differences : Differences)
    (m : list (jsstr * ResolutionSelection)) (sel : ResolutionSelection) :
    list (jsstr * ResolutionSelection) :=
  let resolved := resolveResolutionSelection differences sel in
  let kept :=
    if decide (getBillingCategory (s_ratioType resolved) = CTiered) then m
    else filter (λ kv, ¬ supersedes resolved kv.2) m in
  jm_set (effective_key (s_model resolved) (s_ratioType resolved)) resolved kept.

Definition effective_map (differences : Differences) (sels : list ResolutionSelection) :
    list (jsstr * ResolutionSelection) :=
  foldl (effective_step differences) [] sels.

Definition getEffectiveResolutionSelections (differences : Differences)
    (selections : list ResolutionSelection) : list ResolutionSelection :=
  jm_values (effective_map differences selections).

(** ** Removal *)

Definition plan_add (plan : gmap jsstr (gset RatioType)) (r : ResolutionRemoval) :
    gmap jsstr (gset RatioType) :=
  match plan !! rm_model r with
  | Some ts => <[rm_model r := {[rm_ratioType r]} ∪ ts]> plan
  | None => <[rm_model r := {[rm_ratioType r]}]> plan
  end.

(** [delete draft[ratioType]] with the paired tiered field. *)
Definition delete_field (t : RatioType) (d : Resolution) : Resolution :=
  let d1 := delete t d in
  match t with
  | billing_expr => delete billing_mode d1
  | billing_mode => delete billing_expr d1
  | _ => d1
  end.

Definition applyResolutionRemovalPlan (resolutions : ResolutionsMap)
    (plan : gmap jsstr (gset RatioType)) : ResolutionsMap :=
  map_fold (λ model ts next,
    match resolutions !! model with
    | None => next
    | Some current =>
        let draft := set_fold delete_field current ts in
        if decide (draft = ∅) then delete model next else <[model := draft]> next
    end) resolutions plan.

Definition applyResolutionRemovals (resolutions : ResolutionsMap)
    (removals : list ResolutionRemoval) : ResolutionsMap :=
  match removals with
  | [] => resolutions
  | _ => applyResolutionRemovalPlan resolutions (foldl plan_add ∅ removals)
  end.

Definition deleteResolutionField (resolutions : ResolutionsMap) (model : jsstr)
    (t : RatioType) : ResolutionsMap :=
  applyResolutionRemovals resolutions [mkRem model t].

(** ** Lookups in the results *)

Lemma commit_lookup (drafts base : ResolutionsMap) m :
  commit drafts base !! m =
    match drafts !! m with
    | Some d => if decide (d = ∅) then None else Some d
    | None => base !! m
    end.
Proof.
  unfold commit. revert m.
  apply (map_fold_weak_ind (λ next drafts, ∀ m, next !! m =
    match drafts !! m with
    | Some d => if decide (d = ∅) then None else Some d
    | None => base !! m
    end)).
  - intros m. by rewrite lookup_empty.
  - intros k d ds next Hk IH m. rewrite lookup_insert.
    destruct (decide (k = m)) as [->|Hne]; destruct (decide (d = ∅)).
    + apply lookup_delete_eq.
    + apply lookup_insert_eq.
    + by rewrite lookup_delete_ne.
    + by rewrite lookup_insert_ne.
Qed.

Lemma write_tiered_other rts ft src (r : Resolution) t :
  getBillingCategory t ≠ CTiered → write_tiered rts ft src r !! t = r !! t.
Proof.
  intros Ht. assert (t ≠ billing_mode ∧ t ≠ billing_expr) as [Hm He] by by split; intros ->.
  unfold write_tiered. repeat case_match; rewrite ?lookup_insert_ne by congruence; done.
Qed.

Lemma drop_conflicts_lookup cat (r : Resolution) t :
  drop_conflicts cat r !! t = if decide (conflicts cat t) then None else r !! t.
Proof.
  unfold drop_conflicts. rewrite map_lookup_filter. destruct (r !! t); simpl.
  - case_decide; case_guard; try done; contradiction.
  - by case_decide.
Qed.

(** What one selection leaves in its model's draft, on the untiered fields. *)
Lemma apply_to_draft_lookup (drafts res : ResolutionsMap) diffs sel m t :
  getBillingCategory t ≠ CTiered →
  let rsel := resolveResolutionSelection diffs sel in
  (applyResolutionSelectionToDraft drafts res diffs sel !! m) ≫= (λ d, d !! t) =
    if decide (m = s_model sel) then
      if decide (t = s_ratioType rsel) then Some (s_value rsel)
      else if decide (conflicts (getBillingCategory (s_ratioType rsel)) t) then None
      else getDraftModelResolution drafts res m !! t
    else drafts !! m ≫= (λ d, d !! t).
Proof.
  intros Ht. cbv zeta. unfold applyResolutionSelectionToDraft, resolveResolutionSelection.
  simpl. set (rts := default ∅ (diffs !! s_model sel)).
  set (ft := getPreferredSyncField rts (s_ratioType sel) (s_sourceName sel)).
  destruct (decide (m = s_model sel)) as [->|Hne]; [|by rewrite lookup_insert_ne].
  rewrite lookup_insert_eq. simpl.
  set (d := getDraftModelResolution drafts res (s_model sel)).
  assert (∀ r : Resolution, (match diffs !! s_model sel with
     | Some diffs0 => if decide (getBillingCategory ft = CTiered)
         then write_tiered diffs0 ft (s_sourceName sel) r else r
     | None => r end) !! t = r !! t) as ->.
  { intros r. destruct (diffs !! s_model sel); [|done].
    case_decide; [by apply write_tiered_other|done]. }
  destruct (decide (t = ft)) as [->|Hn]; [by rewrite lookup_insert_eq|].
  rewrite lookup_insert_ne by congruence. apply drop_conflicts_lookup.
Qed.

Lemma apply_to_draft_dom (drafts res : ResolutionsMap) diffs sel m :
  m ≠ s_model sel →
  applyResolutionSelectionToDraft drafts res diffs sel !! m = drafts !! m.
Proof. intros Hm. unfold applyResolutionSelectionToDraft. by rewrite lookup_insert_ne. Qed.

Definition drafts_of (res : ResolutionsMap) (diffs : Differences)
    (sels : list ResolutionSelection) : ResolutionsMap :=
  foldl (λ drafts sel, applyResolutionSelectionToDraft drafts res diffs sel) ∅ sels.

Lemma drafts_of_snoc res diffs sels sel :
  drafts_of res diffs (sels ++ [sel]) =
  applyResolutionSelectionToDraft (drafts_of res diffs sels) res diffs sel.
Proof. unfold drafts_of. by rewrite foldl_app. Qed.

Lemma apply_selections_commit res diffs sels :
  applyResolutionSelections res diffs sels = commit (drafts_of res diffs sels) res.
Proof.
  destruct sels; [|done]. simpl. apply map_eq. intros m. by rewrite commit_lookup.
Qed.

Lemma apply_selections_field res diffs sels m t :
  applyResolutionSelections res diffs sels !! m ≫= (λ d, d !! t) =
  getDraftModelResolution (drafts_of res diffs sels) res m !! t.
Proof.
  rewrite apply_selections_commit, commit_lookup. unfold getDraftModelResolution.
  destruct (drafts_of res diffs sels !! m) as [d|].
  - case_decide as Hd; [subst; simpl; by rewrite lookup_empty|done].
  - destruct (res !! m); simpl; [done|]. by rewrite lookup_empty.
Qed.

Lemma drafts_of_frame res diffs sels m :
  m ∉ map s_model sels → drafts_of res diffs sels !! m = None.
Proof.
  induction sels as [|sel sels IH] using rev_ind; [intros _; apply lookup_empty|].
  rewrite map_app. simpl. rewrite not_elem_of_app, list_elem_of_singleton.
  intros [Hm Hne]. rewrite drafts_of_snoc, apply_to_draft_dom by done. by apply IH.
Qed.

(** ** Price and ratio billing exclude each other *)

Definition exclusive (r : Resolution) : Prop :=
  ∀ t, is_Some (r !! t) → is_Some (r !! model_price) → getBillingCategory t ≠ CRatio.

(** A selection of the model that ends on a price or on a ratio. *)
Definition untiered_selection (diffs : Differences) (m : jsstr) (sel : ResolutionSelection) : Prop :=
  s_model sel = m ∧ getBillingCategory (s_ratioType (resolveResolutionSelection diffs sel)) ≠ CTiered.

Lemma draft_exclusive res diffs sels m :
  exclusive (default ∅ (res !! m)) ∨ Exists (untiered_selection diffs m) sels →
  exclusive (getDraftModelResolution (drafts_of res diffs sels) res m).
Proof.
  induction sels as [|sel sels IH] using rev_ind.
  { intros [Hres|?%Exists_nil]; [|done]. unfold getDraftModelResolution, drafts_of. simpl. by rewrite lookup_empty. }
  intros Hex. rewrite drafts_of_snoc.
  destruct (decide (m = s_model sel)) as [Hm|Hne].
  2:{ unfold getDraftModelResolution in *. rewrite apply_to_draft_dom by done. apply IH.
      destruct Hex as [?|[?|[[? _]|?%Exists_nil]%Exists_cons]%Exists_app]; [by left|by right|congruence|done]. }
  assert (∀ t, getBillingCategory t ≠ CTiered →
    getDraftModelResolution (applyResolutionSelectionToDraft (drafts_of res diffs sels)
      res diffs sel) res m !! t =
    applyResolutionSelectionToDraft (drafts_of res diffs sels) res diffs sel !! m
      ≫= (λ d, d !! t)) as Hl.
  { intros t Ht. unfold getDraftModelResolution, applyResolutionSelectionToDraft.
    subst m. by rewrite !lookup_insert_eq. }
  intros t Ht Hp Hc. rewrite Hl in Ht by congruence. rewrite Hl in Hp by done.
  rewrite apply_to_draft_lookup in Ht by congruence.
  rewrite apply_to_draft_lookup in Hp by done.
  rewrite decide_True in Ht, Hp by done.
  set (rt := s_ratioType (resolveResolutionSelection diffs sel)) in *.
  destruct (decide (t = rt)) as [->|Htn].
  - rewrite decide_False in Hp by (intros Heq; by rewrite <- Heq in Hc).
    rewrite decide_True in Hp; [by destruct Hp|].
    unfold conflicts. rewrite Hc. by split_and!.
  - destruct (decide (conflicts (getBillingCategory rt) t)); [by destruct Ht|].
    destruct (decide (model_price = rt)) as [<-|Hpn].
    + destruct n. unfold conflicts. rewrite Hc. by split_and!.
    + destruct (decide (conflicts (getBillingCategory rt) model_price)); [by destruct Hp|].
      destruct Hex as [Hres|[Hex|[[_ Hu]|?%Exists_nil]%Exists_cons]%Exists_app]; [| | |done].
      * apply (IH (or_introl Hres) t); done.
      * apply (IH (or_intror Hex) t); done.
      * fold rt in Hu. unfold conflicts in *. rewrite Hc in *. destruct (getBillingCategory rt); naive_solver.
Qed.

(** ** The effective selections *)

Lemma ratio_name_no_nul t : 0%N ∉ ratio_name t.
Proof. by destruct t; apply (bool_decide_unpack _); vm_compute. Qed.

Lemma ratio_name_inj t t' : ratio_name t = ratio_name t' → t = t'.
Proof. destruct t, t'; intros H; try reflexivity; vm_compute in H; discriminate. Qed.

Lemma effective_key_inj m t m' t' :
  effective_key m t = effective_key m' t' → m = m' ∧ t = t'.
Proof.
  intros [-> H]%last_cut_inj; try apply ratio_name_no_nul.
  split; [done|]. by apply ratio_name_inj.
Qed.

Definition eff_wf (eff : list (jsstr * ResolutionSelection)) : Prop :=
  jm_wf eff ∧ ∀ k e, (k, e) ∈ eff → k = effective_key (s_model e) (s_ratioType e).

Lemma effective_step_lookup diffs eff sel m t :
  eff_wf eff → getBillingCategory t ≠ CTiered →
  let rsel := resolveResolutionSelection diffs sel in
  jm_get (effective_key m t) (effective_step diffs eff sel) =
    if decide (m = s_model sel) then
      if decide (t = s_ratioType rsel) then Some rsel
      else if decide (conflicts (getBillingCategory (s_ratioType rsel)) t) then None
      else jm_get (effective_key m t) eff
    else jm_get (effective_key m t) eff.
Proof.
  intros [Hwf Hkey] Ht. cbv zeta. unfold effective_step.
  set (rsel := resolveResolutionSelection diffs sel).
  assert (s_model rsel = s_model sel) as Hms by done.
  rewrite jm_get_set, Hms.
  assert (jm_get (effective_key m t)
    (if decide (getBillingCategory (s_ratioType rsel) = CTiered) then eff
     else filter (λ kv, ¬ supersedes rsel kv.2) eff) =
    if decide (m = s_model sel ∧ conflicts (getBillingCategory (s_ratioType rsel)) t)
    then None else jm_get (effective_key m t) eff) as ->.
  { destruct (decide (getBillingCategory (s_ratioType rsel) = CTiered)) as [Hc|Hc].
    { rewrite decide_False; [done|]. by intros [_ [? _]]. }
    rewrite jm_get_filter by done.
    destruct (jm_get (effective_key m t) eff) as [e|] eqn:E; [|by case_decide].
    pose proof (jm_get_Some_elem _ _ _ E) as Hin. apply Hkey in Hin.
    apply effective_key_inj in Hin as [Hm Htt].
    assert (supersedes rsel e ↔
      m = s_model sel ∧ conflicts (getBillingCategory (s_ratioType rsel)) t) as Hse.
    { unfold supersedes, conflicts. rewrite <- Hm, <- Htt, Hms. tauto. }
    simpl. repeat case_decide; tauto. }
  destruct (decide (m = s_model sel)) as [->|Hm].
  - destruct (decide (t = s_ratioType rsel)) as [->|Hn].
    + by rewrite decide_True.
    + rewrite decide_False by (intros [_ ?]%effective_key_inj; congruence).
      repeat case_decide; tauto.
  - rewrite decide_False by (intros [? _]%effective_key_inj; congruence).
    rewrite decide_False by tauto. done.
Qed.

Lemma effective_step_wf diffs eff sel : eff_wf eff → eff_wf (effective_step diffs eff sel).
Proof.
  intros [Hwf Hkey]. unfold effective_step.
  set (rsel := resolveResolutionSelection diffs sel).
  set (kept := if decide _ then _ else _).
  assert (jm_wf kept ∧ ∀ k e, (k, e) ∈ kept → (k, e) ∈ eff) as [Hkwf Hsub].
  { unfold kept. case_decide; [done|]. split; [by apply jm_wf_filter|].
    by intros k e [_ ?]%list_elem_of_filter. }
  split; [by apply jm_wf_set|]. intros k e Hin.
  apply jm_elem_get in Hin; [|by apply jm_wf_set]. rewrite jm_get_set in Hin.
  case_decide; simplify_eq; [done|]. apply jm_get_Some_elem in Hin. auto.
Qed.

Lemma effective_map_snoc diffs sels sel :
  effective_map diffs (sels ++ [sel]) = effective_step diffs (effective_map diffs sels) sel.
Proof. unfold effective_map. by rewrite foldl_app. Qed.

Lemma effective_map_wf diffs sels : eff_wf (effective_map diffs sels).
Proof.
  induction sels as [|sel sels IH] using rev_ind.
  - split; [constructor|]. by intros k e []%not_elem_of_nil.
  - rewrite effective_map_snoc. by apply effective_step_wf.
Qed.

Lemma effective_map_drafts diffs sels m t :
  getBillingCategory t ≠ CTiered →
  s_value <$> jm_get (effective_key m t) (effective_map diffs sels) =
  drafts_of ∅ diffs sels !! m ≫= (λ d, d !! t).
Proof.
  intros Ht. induction sels as [|sel sels IH] using rev_ind.
  { simpl. unfold drafts_of. simpl. by rewrite lookup_empty. }
  rewrite effective_map_snoc, drafts_of_snoc.
  rewrite effective_step_lookup, apply_to_draft_lookup by (done || apply effective_map_wf).
  destruct (decide (m = s_model sel)) as [->|Hm]; [|done].
  destruct (decide (t = _)); [done|]. case_decide; [done|]. rewrite IH.
  unfold getDraftModelResolution. destruct (drafts_of ∅ diffs sels !! s_model sel); [done|].
  simpl. rewrite lookup_empty. simpl. by rewrite lookup_empty.
Qed.

Lemma effective_elem diffs sels m t v :
  (∃ e, e ∈ getEffectiveResolutionSelections diffs sels ∧
        s_model e = m ∧ s_ratioType e = t ∧ s_value e = v) ↔
  s_value <$> jm_get (effective_key m t) (effective_map diffs sels) = Some v.
Proof.
  destruct (effective_map_wf diffs sels) as [Hwf Hkey].
  unfold getEffectiveResolutionSelections, jm_values. split.
  - intros (e & Hin & <- & <- & <-). apply list_elem_of_fmap in Hin as ([k e'] & -> & Hin).
    simpl. pose proof (Hkey _ _ Hin) as ->. by rewrite (jm_elem_get _ _ _ Hwf Hin).
  - intros (e & He & ->)%fmap_Some. pose proof (jm_get_Some_elem _ _ _ He) as Hin.
    exists e. pose proof (Hkey _ _ Hin) as [-> ->]%effective_key_inj.
    split; [|done]. apply list_elem_of_fmap. by exists (effective_key (s_model e) (s_ratioType e), e).
Qed.

(** ** Removals *)

(** The fields a removal of [t'] takes away: itself, and the other tiered field. *)
Definition removes (t' t : RatioType) : Prop :=
  t' = t ∨ (t' = billing_expr ∧ t = billing_mode) ∨ (t' = billing_mode ∧ t = billing_expr).

#[export] Instance removes_dec t' t : Decision (removes t' t).
Proof. unfold removes. apply _. Defined.

Lemma delete_field_lookup t' (d : Resolution) t :
  delete_field t' d !! t = if decide (removes t' t) then None else d !! t.
Proof.
  unfold delete_field, removes.
  destruct t'; case_decide as H; rewrite ?lookup_delete; repeat case_decide; naive_solver.
Qed.

Lemma fold_delete_lookup (ts : gset RatioType) (d : Resolution) t :
  set_fold delete_field d ts !! t =
    if decide (∃ t', t' ∈ ts ∧ removes t' t) then None else d !! t.
Proof.
  assert (∀ l, (Exists (λ t', removes t' t) l → foldr delete_field d l !! t = None) ∧
    (¬ Exists (λ t', removes t' t) l → foldr delete_field d l !! t = d !! t)) as Hl.
  { induction l as [|t' l [IH1 IH2]]; simpl; [by rewrite Exists_nil|].
    rewrite Exists_cons, delete_field_lookup. case_decide; naive_solver. }
  destruct (Hl (elements ts)) as [H1 H2].
  rewrite Exists_exists in H1, H2. setoid_rewrite elem_of_elements in H1.
  setoid_rewrite elem_of_elements in H2. case_decide; auto.
Qed.

Lemma plan_lookup removals m t :
  t ∈ default ∅ (foldl plan_add ∅ removals !! m) ↔ mkRem m t ∈ removals.
Proof.
  revert t. induction removals as [|r rs IH] using rev_ind; intros t.
  - simpl. rewrite lookup_empty. simpl. set_solver.
  - rewrite foldl_app, elem_of_app, list_elem_of_singleton, <- IH. simpl. clear IH.
    set (plan := foldl plan_add ∅ rs). unfold plan_add. destruct r as [m' t']; simpl.
    destruct (decide (m' = m)) as [->|Hne].
    + destruct (plan !! m) as [ts|] eqn:E; rewrite lookup_insert_eq; simpl; set_solver.
    + destruct (plan !! m') as [ts|] eqn:E; rewrite lookup_insert_ne by done; naive_solver.
Qed.

Lemma removal_plan_lookup (res : ResolutionsMap) plan m :
  applyResolutionRemovalPlan res plan !! m =
    match plan !! m, res !! m with
    | Some ts, Some current =>
        let draft := set_fold delete_field current ts in
        if decide (draft = ∅) then None else Some draft
    | _, _ => res !! m
    end.
Proof.
  unfold applyResolutionRemovalPlan. revert m.
  apply (map_fold_weak_ind (λ next plan, ∀ m, next !! m =
    match plan !! m, res !! m with
    | Some ts, Some current =>
        let draft := set_fold delete_field current ts in
        if decide (draft = ∅) then None else Some draft
    | _, _ => res !! m
    end)).
  - intros m. by rewrite lookup_empty.
  - intros k ts pl next Hk IH m. rewrite lookup_insert.
    destruct (decide (k = m)) as [->|Hne].
    + specialize (IH m). rewrite Hk in IH. destruct (res !! m) eqn:E; [|done].
      simpl. case_decide; [by rewrite lookup_delete_eq|by rewrite lookup_insert_eq].
    + destruct (res !! k) eqn:E; [|apply IH]. simpl.
      case_decide; [rewrite lookup_delete_ne by done|rewrite lookup_insert_ne by done]; apply IH.
Qed.

(** ** Properties *)

(** [C30] Fixed prices and ratios exclude each other: after any list of selections a model has
    no fixed price beside a ratio, if it had not both before or if one of its selections ends on
    a price or a ratio (a tiered expression may stand beside either). A last selection that ends
    on a price or a ratio gives that field its value, and models that no selection names are
    untouched. *)
Theorem selections_keep_exclusive (res : ResolutionsMap) (diffs : Differences)
    (sels : list ResolutionSelection) :
  (∀ m r, applyResolutionSelections res diffs sels !! m = Some r →
     exclusive (default ∅ (res !! m)) ∨ Exists (untiered_selection diffs m) sels → exclusive r) ∧
  (∀ pre sel, sels = pre ++ [sel] → untiered_selection diffs (s_model sel) sel →
     let resolved := resolveResolutionSelection diffs sel in
     applyResolutionSelections res diffs sels !! s_model sel ≫= (λ d, d !! s_ratioType resolved) =
       Some (s_value resolved)) ∧
  (∀ m, m ∉ map s_model sels → applyResolutionSelections res diffs sels !! m = res !! m).
Proof.
  split_and!.
  - intros m r Hm Hex t. pose proof (λ t, apply_selections_field res diffs sels m t) as Hf.
    rewrite Hm in Hf. simpl in Hf. rewrite !Hf. by apply draft_exclusive.
  - intros pre sel -> [_ Hu]. cbv zeta. rewrite apply_selections_field, drafts_of_snoc.
    transitivity (applyResolutionSelectionToDraft (drafts_of res diffs pre) res diffs sel !! s_model sel
      ≫= (λ d, d !! s_ratioType (resolveResolutionSelection diffs sel))).
    { unfold getDraftModelResolution, applyResolutionSelectionToDraft. by rewrite !lookup_insert_eq. }
    rewrite apply_to_draft_lookup by done. by rewrite !decide_True.
  - intros m Hm. by rewrite apply_selections_commit, commit_lookup, drafts_of_frame.
Qed.

(** The list of effective selections shown to the operator agrees with what is
    applied: starting from no resolutions, an untiered field of a model holds a
    value exactly when an effective selection gives it that value. *)
Theorem effective_selections_agree (diffs : Differences) (sels : list ResolutionSelection)
    (m : jsstr) (t : RatioType) (v : SyncValue)
    (Ht : getBillingCategory t ≠ CTiered) :
  applyResolutionSelections ∅ diffs sels !! m ≫= (λ d, d !! t) = Some v ↔
  ∃ e, e ∈ getEffectiveResolutionSelections diffs sels ∧
       s_model e = m ∧ s_ratioType e = t ∧ s_value e = v.
Proof.
  rewrite effective_elem, effective_map_drafts by done.
  rewrite apply_selections_field. unfold getDraftModelResolution.
  destruct (drafts_of ∅ diffs sels !! m); [done|]. simpl. rewrite !lookup_empty. simpl.
  by rewrite lookup_empty.
Qed.

(** A source that offers a billing expression wins: selecting any field of that
    source takes over its expression and sets the billing mode to the source's own,
    or to [tiered_expr]; the model's untiered fields stay as they were. *)
Theorem selection_expr_wins (res : ResolutionsMap) (diffs : Differences)
    (sel : ResolutionSelection) (rts : RatioTypes) (v : SyncValue)
    (Hd : diffs !! s_model sel = Some rts)
    (Hv : upstream rts billing_expr (s_sourceName sel) = Some (Some v))
    (Hs : isSame v = false) :
  ∃ r, applyResolutionSelection res diffs sel !! s_model sel = Some r ∧
    r !! billing_expr = Some v ∧
    r !! billing_mode = Some
      (match upstream rts billing_mode (s_sourceName sel) with
       | Some (Some w) => if isSame w then VStr (js "tiered_expr") else w
       | _ => VStr (js "tiered_expr")
       end) ∧
    ∀ t, getBillingCategory t ≠ CTiered →
         r !! t = default ∅ (res !! s_model sel) !! t.
Proof.
  assert (getPreferredSyncField rts (s_ratioType sel) (s_sourceName sel) = billing_expr) as Hp.
  { unfold getPreferredSyncField. rewrite Hv. simpl. rewrite Hs.
    destruct (s_ratioType sel); done. }
  unfold applyResolutionSelection. rewrite apply_selections_commit, commit_lookup.
  unfold drafts_of. simpl. unfold applyResolutionSelectionToDraft. rewrite Hd. simpl.
  rewrite lookup_insert_eq, Hp. simpl.
  set (r0 := <[billing_expr := preferredValue rts sel]> _).
  assert (∀ t, getBillingCategory t ≠ CTiered →
    write_tiered rts billing_expr (s_sourceName sel) r0 !! t =
    default ∅ (res !! s_model sel) !! t) as Hrest.
  { intros t Ht. rewrite write_tiered_other by done. unfold r0.
    rewrite lookup_insert_ne by by intros <-.
    rewrite drop_conflicts_lookup, decide_False by by intros [].
    unfold getDraftModelResolution. by rewrite lookup_empty. }
  assert (write_tiered rts billing_expr (s_sourceName sel) r0 !! billing_expr = Some v) as He.
  { unfold write_tiered. rewrite Hv, Hs. simpl. apply lookup_insert_eq. }
  rewrite decide_False by (intros H0; rewrite H0, lookup_empty in He; done).
  eexists. split_and!; [done|done| |done].
  unfold write_tiered. rewrite Hv, Hs. simpl. rewrite lookup_insert_ne by done.
  destruct (upstream rts billing_mode (s_sourceName sel)) as [[w|]|];
    [destruct (isSame w)|..]; simpl; by rewrite lookup_insert_eq.
Qed.

(** Removals: exactly the named fields disappear, the two tiered fields always
    together, every other field keeps its value, and a model never keeps an empty
    record it did not have. *)
Theorem removals_exact (res : ResolutionsMap) (removals : list ResolutionRemoval) :
  (∀ m t, applyResolutionRemovals res removals !! m ≫= (λ d, d !! t) =
     if decide (Exists (λ r, rm_model r = m ∧ removes (rm_ratioType r) t) removals)
     then None else res !! m ≫= (λ d, d !! t)) ∧
  (∀ m, applyResolutionRemovals res removals !! m = Some ∅ → res !! m = Some ∅).
Proof.
  assert (applyResolutionRemovals res removals =
    applyResolutionRemovalPlan res (foldl plan_add ∅ removals)) as ->.
  { destruct removals; [|done]. simpl. apply map_eq. intros m.
    by rewrite removal_plan_lookup, lookup_empty. }
  assert (∀ m t, Exists (λ r, rm_model r = m ∧ removes (rm_ratioType r) t) removals ↔
    ∃ t', t' ∈ default ∅ (foldl plan_add ∅ removals !! m) ∧ removes t' t) as Hex.
  { intros m t. rewrite Exists_exists. setoid_rewrite plan_lookup. split.
    - intros ([m' t'] & Hin & <- & Hr). eauto.
    - intros (t' & Hin & Hr). by exists (mkRem m t'). }
  split.
  - intros m t. specialize (Hex m t). rewrite removal_plan_lookup.
    destruct (foldl plan_add ∅ removals !! m) as [ts|] eqn:Hp; simpl in Hex.
    + destruct (res !! m) as [d|]; simpl; [|by case_decide].
      transitivity (set_fold delete_field d ts !! t).
      { case_decide as H0; simpl; [by rewrite H0, lookup_empty|done]. }
      rewrite fold_delete_lookup. repeat case_decide; tauto.
    + rewrite decide_False by set_solver. by destruct (res !! m).
  - intros m. rewrite removal_plan_lookup.
    repeat case_match; simpl; try done; case_decide; naive_solver.
Qed.

End with_numbers.
Arguments SyncValue : clear implicits.
Arguments ResolutionSelection : clear implicits.
Arguments RatioDifferenceEntry : clear implicits.

(** ** Witnesses, at integer-valued numbers *)

Definition ex_entry (v : SyncValue Z) : RatioDifferenceEntry Z :=
  mkEntry None {[js "up" := Some v]} ∅.

Definition ex_diffs : gmap jsstr (gmap RatioType (RatioDifferenceEntry Z)) :=
  {[js "gpt" := {[billing_expr := ex_entry (VStr (js "p * 2"))]}]}.

Definition ex_sel (t : RatioType) (n : Z) (src : string) : ResolutionSelection Z :=
  mkSel (js "gpt") t (VNum n) (js src).

Lemma selections_keep_exclusive_witness :
  let both := {[js "gpt" := {[model_price := VNum 1%Z; model_ratio := VNum 3%Z]}]} in
  ∃ r, applyResolutionSelections both ex_diffs
     [ex_sel model_ratio 2 "other"; ex_sel model_price 7 "other"] !! js "gpt" = Some r ∧ exclusive r ∧
     r = {[model_price := VNum 7%Z]}.
Proof.
  intros both. set (sels := [ex_sel model_ratio 2 "other"; ex_sel model_price 7 "other"]).
  exists {[model_price := VNum 7%Z]}. split; [by vm_compute|]. split; [|done].
  apply (proj1 (selections_keep_exclusive (num := Z) both ex_diffs sels) (js "gpt")); [by vm_compute|].
  right. left. split; [done|]. by vm_compute.
Defined.

Lemma effective_selections_agree_witness :
  ∃ e, e ∈ getEffectiveResolutionSelections ex_diffs
             [ex_sel model_ratio 2 "other"; ex_sel model_price 7 "other"] ∧
       s_model e = js "gpt" ∧ s_ratioType e = model_price ∧ s_value e = VNum 7%Z.
Proof.
  apply (effective_selections_agree (num := Z) ex_diffs
    [ex_sel model_ratio 2 "other"; ex_sel model_price 7 "other"]
    (js "gpt") model_price (VNum 7%Z)); [done|by vm_compute].
Defined.

Lemma selection_expr_wins_witness :
  ∃ r, applyResolutionSelection ∅ ex_diffs (ex_sel model_ratio 2 "up") !! js "gpt" = Some r ∧
    r !! billing_expr = Some (VStr (js "p * 2")).
Proof.
  destruct (selection_expr_wins (num := Z) ∅ ex_diffs (ex_sel model_ratio 2 "up")
    {[billing_expr := ex_entry (VStr (js "p * 2"))]} (VStr (js "p * 2"))) as (r & Hr & He & _);
    [by vm_compute..|].
  exists r. split; [exact Hr|exact He].
Defined.

End RatioSync.
