(* ===== verification/Message.v ===== *)
(** * Playground messages
      (web/src/features/playground/types.ts, constants.ts,
       lib/message/message-utils.ts, message-timing-utils.ts,
       message-update-utils.ts)

    A conversation is a list of messages; the assistant's last message is the one a
    running generation writes to. Optional properties are [option]s. [Date.now()]
    and [nanoid()] are read by their callers in the source: here the instants and
    the fresh identifiers are arguments, in the order the code reads them. *)
From S2P Require Import Prelude JsString.
Local Open Scope Z_scope.

Module Msg.

Inductive MessageRole := User | Assistant | System.
Inductive MessageStatus := Loading | Streaming | Complete | Error.

#[export] Instance MessageRole_eq_dec : EqDecision MessageRole.
Proof. solve_decision. Defined.
#[export] Instance MessageStatus_eq_dec : EqDecision MessageStatus.
Proof. solve_decision. Defined.

Record MessageVersion := mkVersion { v_id : jsstr; v_content : jsstr }.

Record ChatAttachment := mkAttachment {
  a_id : jsstr; a_name : jsstr; a_mimeType : jsstr; a_size : Z; a_dataUrl : jsstr
}.

Record Reasoning := mkReasoning {
  r_content : jsstr;
  r_duration : Z;
  r_startedAt : option Z;
  r_completedAt : option Z;
  r_durationMs : option Z
}.

Record Source := mkSource { src_href : jsstr; src_title : jsstr }.

Record Message := mkMessage {
  m_attachments : option (list ChatAttachment);
  m_missingAttachments : option bool;
  m_key : jsstr;
  m_from : MessageRole;
  m_versions : list MessageVersion;
  m_createdAt : option Z;
  m_startedAt : option Z;
  m_completedAt : option Z;
  m_durationMs : option Z;
  m_sources : option (list Source);
  m_reasoning : option Reasoning;
  m_isReasoningStreaming : option bool;
  m_isReasoningComplete : option bool;
  m_isContentComplete : option bool;
  m_status : option MessageStatus;
  m_errorCode : option (option jsstr)
}.

#[export] Instance MessageVersion_eq_dec : EqDecision MessageVersion.
Proof. solve_decision. Defined.
#[export] Instance ChatAttachment_eq_dec : EqDecision ChatAttachment.
Proof. solve_decision. Defined.
#[export] Instance Reasoning_eq_dec : EqDecision Reasoning.
Proof. solve_decision. Defined.
#[export] Instance Source_eq_dec : EqDecision Source.
Proof. solve_decision. Defined.
#[export] Instance Message_eq_dec : EqDecision Message.
Proof. solve_decision. Defined.

(** ** Object spread [{ ...message, field }] *)

Definition with_versions (vs : list MessageVersion) (m : Message) : Message :=
  mkMessage (m_attachments m) (m_missingAttachments m) (m_key m) (m_from m) vs
    (m_createdAt m) (m_startedAt m) (m_completedAt m) (m_durationMs m) (m_sources m)
    (m_reasoning m) (m_isReasoningStreaming m) (m_isReasoningComplete m)
    (m_isContentComplete m) (m_status m) (m_errorCode m).

Definition with_createdAt (t : option Z) (m : Message) : Message :=
  mkMessage (m_attachments m) (m_missingAttachments m) (m_key m) (m_from m) (m_versions m)
    t (m_startedAt m) (m_completedAt m) (m_durationMs m) (m_sources m)
    (m_reasoning m) (m_isReasoningStreaming m) (m_isReasoningComplete m)
    (m_isContentComplete m) (m_status m) (m_errorCode m).

Definition with_timing (started completed duration : option Z) (m : Message) : Message :=
  mkMessage (m_attachments m) (m_missingAttachments m) (m_key m) (m_from m) (m_versions m)
    (m_createdAt m) started completed duration (m_sources m)
    (m_reasoning m) (m_isReasoningStreaming m) (m_isReasoningComplete m)
    (m_isContentComplete m) (m_status m) (m_errorCode m).

Definition with_reasoning (r : option Reasoning) (m : Message) : Message :=
  mkMessage (m_attachments m) (m_missingAttachments m) (m_key m) (m_from m) (m_versions m)
    (m_createdAt m) (m_startedAt m) (m_completedAt m) (m_durationMs m) (m_sources m)
    r (m_isReasoningStreaming m) (m_isReasoningComplete m)
    (m_isContentComplete m) (m_status m) (m_errorCode m).

Definition with_isReasoningStreaming (b : bool) (m : Message) : Message :=
  mkMessage (m_attachments m) (m_missingAttachments m) (m_key m) (m_from m) (m_versions m)
    (m_createdAt m) (m_startedAt m) (m_completedAt m) (m_durationMs m) (m_sources m)
    (m_reasoning m) (Some b) (m_isReasoningComplete m)
    (m_isContentComplete m) (m_status m) (m_errorCode m).

Definition with_status (s : MessageStatus) (m : Message) : Message :=
  mkMessage (m_attachments m) (m_missingAttachments m) (m_key m) (m_from m) (m_versions m)
    (m_createdAt m) (m_startedAt m) (m_completedAt m) (m_durationMs m) (m_sources m)
    (m_reasoning m) (m_isReasoningStreaming m) (m_isReasoningComplete m)
    (m_isContentComplete m) (Some s) (m_errorCode m).

Definition with_errorCode (e : option jsstr) (m : Message) : Message :=
  mkMessage (m_attachments m) (m_missingAttachments m) (m_key m) (m_from m) (m_versions m)
    (m_createdAt m) (m_startedAt m) (m_completedAt m) (m_durationMs m) (m_sources m)
    (m_reasoning m) (m_isReasoningStreaming m) (m_isReasoningComplete m)
    (m_isContentComplete m) (m_status m) (Some e).

(** ** message-utils.ts *)

Definition createMessageVersion (id content : jsstr) : MessageVersion := mkVersion id content.

Definition getCurrentVersion (m : Message) : MessageVersion :=
  match m_versions m with
  | v :: _ => v
  | [] => mkVersion (js "default") []
  end.

Definition getMessageContent (m : Message) : jsstr := v_content (getCurrentVersion m).

Definition hasMessageContent (m : Message) : bool := truthy (trim (getMessageContent m)).

Definition updateCurrentVersionContent (m : Message) (content : jsstr) : Message :=
  with_versions [mkVersion (v_id (getCurrentVersion m)) content] m.

Definition createUserMessage (key vid content : jsstr) (createdAt : Z)
    (attachments : list ChatAttachment) : Message :=
  {| m_attachments := match attachments with [] => None | _ => Some attachments end;
     m_missingAttachments := None;
     m_key := key;
     m_from := User;
     m_versions := [createMessageVersion vid content];
     m_createdAt := Some createdAt;
     m_startedAt := None;
     m_completedAt := None;
     m_durationMs := None;
     m_sources := None;
     m_reasoning := None;
     m_isReasoningStreaming := None;
     m_isReasoningComplete := None;
     m_isContentComplete := None;
     m_status := None;
     m_errorCode := None |}.

Definition createLoadingAssistantMessage (key vid : jsstr) (startedAt : Z) : Message :=
  {| m_attachments := None;
     m_missingAttachments := None;
     m_key := key;
     m_from := Assistant;
     m_versions := [createMessageVersion vid []];
     m_createdAt := Some startedAt;
     m_startedAt := Some startedAt;
     m_completedAt := None;
     m_durationMs := None;
     m_sources := None;
     m_reasoning := None;
     m_isReasoningStreaming := Some false;
     m_isReasoningComplete := Some false;
     m_isContentComplete := Some false;
     m_status := Some Loading;
     m_errorCode := None |}.

Inductive ContentPart :=
| TextPart (text : jsstr)
| ImagePart (url : jsstr)
| FilePart (filename file_data : jsstr).

Inductive MessageContent := TextContent (s : jsstr) | PartsContent (ps : list ContentPart).

Definition attachment_part (a : ChatAttachment) : ContentPart :=
  if streq (a_mimeType a) (js "application/pdf") then FilePart (a_name a) (a_dataUrl a)
  else ImagePart (a_dataUrl a).

Definition buildMessageContent (text : jsstr) (attachments : list ChatAttachment) :
    MessageContent :=
  match attachments with
  | [] => TextContent text
  | _ => PartsContent (TextPart text :: map attachment_part attachments)
  end.

Definition getTextContent (c : MessageContent) : jsstr :=
  match c with
  | TextContent s => s
  | PartsContent ps =>
      default [] (head (omap (λ p, match p with TextPart s => Some s | _ => None end) ps))
  end.

Record ChatCompletionMessage := mkChatMessage {
  cm_role : MessageRole; cm_content : MessageContent
}.

Definition formatMessageForAPI (m : Message) : ChatCompletionMessage :=
  mkChatMessage (m_from m)
    (buildMessageContent (v_content (getCurrentVersion m)) (default [] (m_attachments m))).

Definition isValidMessage (m : Message) : bool :=
  match m_versions m with
  | [] => false
  | _ =>
      match m_status m with
      | Some Error | Some Loading | Some Streaming => false
      | _ =>
          if bool_decide (m_from m = Assistant) && negb (hasMessageContent m)
          then false else true
      end
  end.

(** ** message-timing-utils.ts *)

Definition completeAssistantTiming (m : Message) (completedAt : Z) : Message :=
  if negb (bool_decide (m_from m = Assistant)) then m
  else
    let startedAt :=
      match m_startedAt m with
      | Some s => s
      | None => default completedAt (m_createdAt m)
      end in
    with_timing (Some startedAt) (Some completedAt)
      (Some (Z.max 0 (completedAt - startedAt))) m.

Definition startReasoningTiming (m : Message) (startedAt : Z) : Reasoning :=
  match m_reasoning m with
  | Some r =>
      mkReasoning (r_content r) (r_duration r)
        (Some (default startedAt (r_startedAt r))) (r_completedAt r) (r_durationMs r)
  | None => mkReasoning [] 0 (Some startedAt) None None
  end.

(** [Math.ceil(n / 1000)] for an integer [n]. *)
Definition ceil_seconds (n : Z) : Z := - ((- n) / 1000).

Definition completeReasoningTiming (m : Message) (completedAt : Z) : Message :=
  match m_reasoning m with
  | None => m
  | Some r =>
      match r_durationMs r with
      | Some _ => m
      | None =>
          let startedAt :=
            match r_startedAt r with
            | Some s => s
            | None => default completedAt (m_startedAt m)
            end in
          let durationMs := Z.max 0 (completedAt - startedAt) in
          with_reasoning (Some (mkReasoning (r_content r) (ceil_seconds durationMs)
            (Some startedAt) (Some completedAt) (Some durationMs))) m
      end
  end.

(** ** message-update-utils.ts *)

Definition updateLastAssistantMessage (messages : list Message)
    (updater : Message → Message) : list Message :=
  match last messages with
  | None => messages
  | Some l =>
      if negb (bool_decide (m_from l = Assistant)) then messages
      else removelast messages ++ [updater l]
  end.

Definition API_REQUEST_ERROR : jsstr := js "Request error occurred".
Definition INTERRUPTED : jsstr := js "Generation was interrupted".
Definition CONNECTION_CLOSED : jsstr := js "Connection closed".
Definition PARSE_ERROR : jsstr := js "Error parsing response data".
Definition STREAM_START_ERROR : jsstr := js "Error establishing connection".
Definition NETWORK_ERROR : jsstr := js "Network connection failed or server not responding".

(** The updater of [updateAssistantMessageWithError]. *)
Definition error_updater (errorMessage : jsstr) (errorCode : option jsstr) (title : jsstr)
    (now : Z) (m : Message) : Message :=
  let updatedMessage := updateCurrentVersionContent m (title ++ js ": " ++ errorMessage) in
  let code := match errorCode with
              | Some c => if truthy c then Some c else None
              | None => None
              end in
  completeAssistantTiming
    (with_errorCode code (with_isReasoningStreaming false (with_status Error updatedMessage)))
    now.

Definition updateAssistantMessageWithError (messages : list Message) (errorMessage : jsstr)
    (errorCode : option jsstr) (title : jsstr) (now : Z) : list Message :=
  updateLastAssistantMessage messages (error_updater errorMessage errorCode title now).

(** ** Lemmas *)

Lemma updateLast_snoc ms m f :
  updateLastAssistantMessage (ms ++ [m]) f =
  if bool_decide (m_from m = Assistant) then ms ++ [f m] else ms ++ [m].
Proof.
  unfold updateLastAssistantMessage. rewrite last_snoc, removelast_last.
  by destruct (bool_decide (m_from m = Assistant)).
Qed.

Lemma updateLast_length ms f : length (updateLastAssistantMessage ms f) = length ms.
Proof.
  destruct ms as [|m ms _] using rev_ind; [done|]. rewrite updateLast_snoc.
  case_match; rewrite !length_app; done.
Qed.

Lemma updateLast_compose ms f g :
  (∀ m, m_from (f m) = m_from m) →
  updateLastAssistantMessage (updateLastAssistantMessage ms f) g =
  updateLastAssistantMessage ms (λ m, g (f m)).
Proof.
  intros Hf. destruct ms as [|m ms _] using rev_ind; [done|].
  rewrite !updateLast_snoc. destruct (bool_decide (m_from m = Assistant)) eqn:E.
  - by rewrite updateLast_snoc, Hf, E.
  - by rewrite updateLast_snoc, E.
Qed.

Lemma getMessageContent_update m c :
  getMessageContent (updateCurrentVersionContent m c) = c.
Proof. done. Qed.

Lemma completeAssistantTiming_status m t :
  m_status (completeAssistantTiming m t) = m_status m.
Proof. unfold completeAssistantTiming. by case_match. Qed.

Lemma completeAssistantTiming_from m t :
  m_from (completeAssistantTiming m t) = m_from m.
Proof. unfold completeAssistantTiming. by case_match. Qed.

Lemma completeAssistantTiming_content m t :
  getMessageContent (completeAssistantTiming m t) = getMessageContent m.
Proof. unfold completeAssistantTiming. by case_match. Qed.

Lemma completeAssistantTiming_reasoning m t :
  m_reasoning (completeAssistantTiming m t) = m_reasoning m.
Proof. unfold completeAssistantTiming. by case_match. Qed.

Lemma completeReasoningTiming_frame m t :
  let m' := completeReasoningTiming m t in
  m_status m' = m_status m ∧ m_from m' = m_from m ∧ m_key m' = m_key m ∧
  m_versions m' = m_versions m ∧ m_isReasoningStreaming m' = m_isReasoningStreaming m ∧
  (r_content <$> m_reasoning m') = (r_content <$> m_reasoning m).
Proof.
  cbv zeta. unfold completeReasoningTiming.
  destruct (m_reasoning m) as [r|] eqn:E; [|by rewrite E].
  destruct (r_durationMs r); [by rewrite E|done].
Qed.

End Msg.
