(* ===== verification/Reasoning.v ===== *)
(** * Separating reasoning from visible text
      (web/src/features/playground/lib/message/message-reasoning-utils.ts)

    Some models stream their reasoning inside [<think>...</think>] tags. The loop of
    [parseThinkTags] scans the content with two [indexOf] searches; it is modelled
    with fuel, which the length of the content bounds, and specified by the grammar
    of tagged text. *)
From S2P Require Import Prelude JsString.

Module Reasoning.

Definition OPEN : jsstr := js "<think>".
Definition CLOSE : jsstr := js "</think>".

Record ParsedThinkTags := mkThink {
  visibleContent : jsstr;
  reasoning : jsstr;
  hasUnclosedTag : bool
}.

(** The [while (true)] loop from position [pos]; [None] when the fuel runs out. *)
Fixpoint think_loop (fuel : nat) (content : jsstr) (pos : nat)
    (visibleParts reasoningParts : list jsstr) :
    option (list jsstr * list jsstr * bool) :=
  match fuel with
  | O => None
  | S f =>
      match index_from OPEN content pos with
      | None =>
          Some (if pos <? length content then visibleParts ++ [drop pos content]
                else visibleParts, reasoningParts, false)
      | Some openPos =>
          let visibleParts' :=
            if pos <? openPos then visibleParts ++ [slice content pos openPos]
            else visibleParts in
          match index_from CLOSE content (openPos + 7) with
          | None =>
              Some (visibleParts', reasoningParts ++ [drop (openPos + 7) content], true)
          | Some closePos =>
              think_loop f content (closePos + 8) visibleParts'
                (reasoningParts ++ [slice content (openPos + 7) closePos])
          end
      end
  end.

Definition parseThinkTags (content : jsstr) : ParsedThinkTags :=
  if negb (includes OPEN content) then mkThink content [] false
  else
    match think_loop (S (length content)) content 0 [] [] with
    | Some (visibleParts, reasoningParts, unclosed) =>
        mkThink (trim (concat visibleParts)) (trim (join [10; 10]%N reasoningParts)) unclosed
    | None => mkThink [] [] false
    end.

(** ** The grammar of tagged text *)

Inductive ThinkTail := TPlain (v : jsstr) | TOpen (v r : jsstr).

Record ThinkDoc := mkDoc { d_pairs : list (jsstr * jsstr); d_tail : ThinkTail }.

Definition render_pair (vr : jsstr * jsstr) : jsstr := vr.1 ++ OPEN ++ vr.2 ++ CLOSE.

Definition render_tail (t : ThinkTail) : jsstr :=
  match t with TPlain v => v | TOpen v r => v ++ OPEN ++ r end.

Definition render (d : ThinkDoc) : jsstr :=
  concat (map render_pair (d_pairs d)) ++ render_tail (d_tail d).

(** Visible text holds no opening tag, reasoning no closing tag. *)
Definition wf_pair (vr : jsstr * jsstr) : Prop :=
  includes OPEN vr.1 = false ∧ includes CLOSE vr.2 = false.

Definition wf_tail (t : ThinkTail) : Prop :=
  match t with
  | TPlain v => includes OPEN v = false
  | TOpen v r => includes OPEN v = false ∧ includes CLOSE r = false
  end.

Definition wf_doc (d : ThinkDoc) : Prop := Forall wf_pair (d_pairs d) ∧ wf_tail (d_tail d).

Definition tail_visible (t : ThinkTail) : jsstr := match t with TPlain v | TOpen v _ => v end.
Definition tail_reasoning (t : ThinkTail) : list jsstr :=
  match t with TPlain _ => [] | TOpen _ r => [r] end.
Definition tail_open (t : ThinkTail) : bool :=
  match t with TPlain _ => false | TOpen _ _ => true end.

Definition doc_visible (d : ThinkDoc) : jsstr :=
  concat (map fst (d_pairs d)) ++ tail_visible (d_tail d).
Definition doc_reasoning (d : ThinkDoc) : list jsstr :=
  map snd (d_pairs d) ++ tail_reasoning (d_tail d).

(** ** The loop computes the parts *)

Lemma index_open v s :
  includes OPEN v = false → index_of OPEN (v ++ OPEN ++ s) = Some (length v).
Proof. apply index_of_first. by apply (bool_decide_unpack _). Qed.

Lemma index_close v s :
  includes CLOSE v = false → index_of CLOSE (v ++ CLOSE ++ s) = Some (length v).
Proof. apply index_of_first. by apply (bool_decide_unpack _). Qed.

Lemma index_none p s : includes p s = false → index_of p s = None.
Proof. unfold includes. by destruct (index_of p s). Qed.

Lemma drop_open s : drop 7 (OPEN ++ s) = s.
Proof. done. Qed.

Lemma drop_close s : drop 8 (CLOSE ++ s) = s.
Proof. done. Qed.

Lemma tag_lengths : length OPEN = 7 ∧ length CLOSE = 8.
Proof. done. Qed.

Lemma tags_nonempty : OPEN ≠ [] ∧ CLOSE ≠ [].
Proof. done. Qed.

#[local] Opaque OPEN CLOSE.

(** Cutting the visible part off at an opening tag found at the end of [v]. *)
Lemma slice_found (content : jsstr) pos (v s : jsstr) :
  drop pos content = v ++ s → slice content pos (pos + length v) = v.
Proof.
  intros H. unfold slice. rewrite H. replace (pos + length v - pos) with (length v) by lia.
  by rewrite take_app_length.
Qed.

Lemma drop_found (content : jsstr) pos (v s : jsstr) :
  drop pos content = v ++ s → drop (pos + length v) content = s.
Proof. intros H. by rewrite <- drop_drop, H, drop_app_length. Qed.

Lemma concat_push (b : bool) (parts : list jsstr) v :
  (b = false → v = []) →
  concat (if b then parts ++ [v] else parts) = concat parts ++ v.
Proof.
  intros Hb. destruct b; [by rewrite concat_app; simpl; rewrite app_nil_r|].
  by rewrite Hb, app_nil_r.
Qed.

Lemma think_loop_ok fuel (content : jsstr) pos vis rea pairs tail :
  drop pos content = render (mkDoc pairs tail) →
  Forall wf_pair pairs → wf_tail tail → length pairs < fuel →
  ∃ vis', think_loop fuel content pos vis rea =
            Some (vis', rea ++ doc_reasoning (mkDoc pairs tail), tail_open tail) ∧
          concat vis' = concat vis ++ doc_visible (mkDoc pairs tail).
Proof.
  revert fuel pos vis rea. induction pairs as [|[v r] pairs IH];
    intros fuel pos vis rea Hd Hp Ht Hf; (destruct fuel as [|fuel]; [simpl in Hf; lia|]);
    cbn [think_loop]; unfold index_from.
  - unfold render, doc_reasoning, doc_visible in *. simpl in *. rewrite Hd.
    destruct tail as [v|v r]; simpl in *.
    + rewrite index_none by done. simpl. rewrite app_nil_r. eexists. split; [done|].
      rewrite concat_push; [done|]. intros Hlt%Nat.ltb_ge.
      by rewrite <- Hd, drop_ge.
    + destruct Ht as [Hv Hr]. rewrite index_open by done. simpl.
      assert (drop (pos + length v) content = OPEN ++ r) as H1 by by apply drop_found in Hd.
      assert (drop (pos + length v + 7) content = r) as H2.
      { by rewrite <- drop_drop, H1, drop_open. }
      rewrite H2, index_none by done. simpl. eexists. split; [done|].
      rewrite (slice_found _ _ v _ Hd). rewrite concat_push; [done|].
      intros Hlt%Nat.ltb_ge. apply nil_length_inv. lia.
  - apply Forall_cons in Hp as [[Hv Hr] Hp]. simpl in Hv, Hr.
    unfold render in Hd. simpl in Hd. unfold render_pair in Hd at 1. simpl in Hd.
    rewrite <- !app_assoc in Hd. rewrite Hd, index_open by done. simpl.
    assert (drop (pos + length v) content =
      OPEN ++ r ++ CLOSE ++ render (mkDoc pairs tail)) as H1 by by apply drop_found in Hd.
    assert (drop (pos + length v + 7) content = r ++ CLOSE ++ render (mkDoc pairs tail)) as H2.
    { by rewrite <- drop_drop, H1, drop_open. }
    rewrite H2, index_close by done. simpl.
    assert (drop (pos + length v + 7 + length r + 8) content = render (mkDoc pairs tail)) as H3.
    { apply drop_found in H2. by rewrite <- drop_drop, H2, drop_close. }
    destruct (IH fuel (pos + length v + 7 + length r + 8)
      (if pos <? pos + length v then vis ++ [slice content pos (pos + length v)] else vis)
      (rea ++ [slice content (pos + length v + 7) (pos + length v + 7 + length r)]))
      as (vis' & Hloop & Hvis); [done..|simpl in Hf; lia|].
    exists vis'. rewrite Hloop, Hvis, (slice_found _ _ _ _ H2), (slice_found _ _ _ _ Hd).
    split.
    + unfold doc_reasoning. simpl. by rewrite <- app_assoc.
    + unfold doc_visible. simpl. rewrite concat_push; [by rewrite <- !app_assoc|].
      intros Hlt%Nat.ltb_ge. apply nil_length_inv. lia.
Qed.

Lemma render_length d : length (d_pairs d) ≤ length (render d).
Proof.
  destruct d as [pairs tail]. unfold render. simpl. rewrite length_app.
  induction pairs as [|[v r] pairs IH]; simpl; [lia|].
  unfold render_pair at 1. rewrite !length_app. simpl. destruct tag_lengths. lia.
Qed.

Lemma render_includes d :
  wf_doc d →
  includes OPEN (render d) =
    negb (bool_decide (d_pairs d = [])) || tail_open (d_tail d).
Proof.
  intros [Hp Ht]. destruct d as [[|[v r] pairs] tail]; unfold render; simpl in *.
  - destruct tail as [v|v r]; simpl in *; [done|]. apply includes_spec. eauto.
  - apply includes_spec. unfold render_pair at 1. simpl.
    exists v, (r ++ CLOSE ++ concat (map render_pair pairs) ++ render_tail tail).
    by rewrite <- !app_assoc.
Qed.

Lemma includes_split p s : includes p s = true →
  ∃ v r, s = v ++ p ++ r ∧ (p ≠ [] → includes p v = false ∨ length v < length s).
Proof.
  intros (a & b & ->)%includes_spec. exists a, b. split; [done|].
  intros Hp. right. rewrite !length_app. destruct p; simpl; [done|lia].
Qed.

(** The first opening (or closing) tag splits the text. *)
Lemma first_split p s : includes p s = true → p ≠ [] →
  ∃ v r, s = v ++ p ++ r ∧ includes p v = false.
Proof.
  intros H Hp. remember (length s) as n eqn:Hn. revert s Hn H.
  induction n as [n IH] using lt_wf_ind. intros s -> H.
  destruct (includes_split _ _ H) as (v & r & Hs & Hor).
  destruct (includes p v) eqn:E; [|by exists v, r].
  destruct (Hor Hp) as [|Hlt]; [done|].
  destruct (IH (length v) Hlt v eq_refl E) as (v' & r' & -> & Hv').
  exists v', (r' ++ p ++ r). split; [|done]. by rewrite Hs, <- !app_assoc.
Qed.

Lemma render_complete content : ∃ d, wf_doc d ∧ render d = content.
Proof.
  remember (length content) as n eqn:Hn. revert content Hn.
  induction n as [n IH] using lt_wf_ind. intros content ->.
  destruct (includes OPEN content) eqn:E.
  2:{ exists (mkDoc [] (TPlain content)). split; [by split; [constructor|]|done]. }
  destruct (first_split _ _ E) as (v & s & -> & Hv); [apply tags_nonempty|].
  destruct (includes CLOSE s) eqn:F.
  2:{ exists (mkDoc [] (TOpen v s)). split; [by split; [constructor|]|done]. }
  destruct (first_split _ _ F) as (r & s' & -> & Hr); [apply tags_nonempty|].
  destruct (IH (length s')) with (content := s') as (d & [Hp Ht] & Hd); [|done|].
  { rewrite !length_app. destruct tag_lengths. lia. }
  exists (mkDoc ((v, r) :: d_pairs d) (d_tail d)). split.
  - split; [by constructor|done].
  - unfold render in *. simpl. rewrite <- Hd. unfold render_pair at 1. simpl.
    by rewrite <- !app_assoc.
Qed.

(** The value [parseThinkTags] gives to a tagged text. *)
Definition doc_value (d : ThinkDoc) : ParsedThinkTags :=
  if bool_decide (d_pairs d = []) && negb (tail_open (d_tail d))
  then mkThink (render d) [] false
  else mkThink (trim (doc_visible d)) (trim (join [10; 10]%N (doc_reasoning d)))
         (tail_open (d_tail d)).

Lemma parse_render d : wf_doc d → parseThinkTags (render d) = doc_value d.
Proof.
  intros Hwf. unfold parseThinkTags, doc_value. rewrite render_includes by done.
  destruct (bool_decide (d_pairs d = [])), (tail_open (d_tail d)) eqn:Ho;
    cbn [negb andb orb]; try done.
  all: destruct d as [pairs tail]; destruct Hwf as [Hp Ht];
    destruct (think_loop_ok (S (length (render (mkDoc pairs tail)))) (render (mkDoc pairs tail))
      0 [] [] pairs tail) as (vis & -> & ->);
    [done..|pose proof (render_length (mkDoc pairs tail)); simpl in *; lia|].
  all: simpl in Ho; rewrite ?Ho; done.
Qed.

(** [C17] Tag parsing is total and follows the grammar: every content is the rendering
    of a tagged text whose visible parts hold no opening tag and whose reasoning
    parts hold no closing tag, and the result is the visible text, the reasoning
    joined by blank lines (both trimmed) and whether the last tag is still open. *)
Theorem parse_think_grammar (content : jsstr) :
  (∃ d, wf_doc d ∧ render d = content ∧ parseThinkTags content = doc_value d) ∧
  (∀ d, wf_doc d → render d = content → parseThinkTags content = doc_value d) ∧
  ∃ parts, think_loop (S (length content)) content 0 [] [] = Some parts.
Proof.
  destruct (render_complete content) as (d & Hwf & <-). split_and!.
  - exists d. split_and!; [done..|]. by apply parse_render.
  - intros d' Hwf' <-. by apply parse_render.
  - destruct d as [pairs tail], Hwf as [Hp Ht].
    destruct (think_loop_ok (S (length (render (mkDoc pairs tail)))) (render (mkDoc pairs tail))
      0 [] [] pairs tail) as (vis & Hl & _);
      [done..|pose proof (render_length (mkDoc pairs tail)); simpl in *; lia|].
    eauto.
Qed.

Lemma parseThinkTags_plain c :
  includes OPEN c = false → parseThinkTags c = mkThink c [] false.
Proof. intros H. unfold parseThinkTags. by rewrite H. Qed.

(** Splitting never makes a text longer: the tags it drops are longer than the blank lines
    it puts between the pieces of reasoning. *)
Lemma doc_lengths d :
  length (doc_visible d) + length (join [10; 10]%N (doc_reasoning d)) ≤ length (render d).
Proof.
  pose proof (join_length [10; 10]%N (doc_reasoning d)) as Hj. destruct d as [pairs tail].
  unfold doc_visible, doc_reasoning, render in *. simpl in *.
  rewrite concat_app, !length_app in *. destruct tag_lengths as [HO HC].
  assert (length (concat (map fst pairs)) + length (concat (map snd pairs)) + 15 * length pairs =
    length (concat (map render_pair pairs))) as Hp.
  { clear Hj. induction pairs as [|[v r] ps IH]; simpl; [done|]. unfold render_pair at 1.
    rewrite !length_app, HO, HC. simpl. lia. }
  rewrite length_map in Hj. destruct tail as [v|v r]; simpl in *; rewrite ?length_app, ?HO in *; simpl in *; lia.
Qed.

Lemma parse_lengths content :
  length (visibleContent (parseThinkTags content)) + length (reasoning (parseThinkTags content)) ≤
  length content.
Proof.
  destruct (render_complete content) as (d & Hwf & <-). rewrite parse_render by done.
  unfold doc_value. case_match; simpl; [lia|].
  pose proof (doc_lengths d). pose proof (trim_length (doc_visible d)).
  pose proof (trim_length (join [10; 10]%N (doc_reasoning d))). lia.
Qed.

#[local] Transparent OPEN CLOSE.

Lemma parseThinkTags_example :
  parseThinkTags (js "a <think>x</think>b<think>y") = mkThink (js "a b") (js "x" ++ [10; 10]%N ++ js "y") true.
Proof. by vm_compute. Qed.

End Reasoning.
