(* ===== verification/Streaming.v ===== *)
(** * Streaming into the assistant's message
      (web/src/features/playground/lib/message/message-streaming-utils.ts)

    Chunks of content or reasoning are appended to the message while it is
    generated; completion finalizes it; a stored conversation is sanitized when it is
    loaded. The instants are arguments in the order [Date.now()] is read. *)
From S2P Require Import Prelude JsString Message Reasoning.
Import Msg Reasoning.
Local Open Scope Z_scope.

Module Stream.

Definition reasoning_with_content (r : Reasoning) (c : jsstr) : Reasoning :=
  mkReasoning c (r_duration r) (r_startedAt r) (r_completedAt r) (r_durationMs r).

Definition processStreamingContent (m : Message) (contentChunk : option jsstr) (now : Z) :
    Message :=
  let currentVersion := getCurrentVersion m in
  let fullContent :=
    match contentChunk with
    | Some c => if truthy c then v_content currentVersion ++ c else v_content currentVersion
    | None => v_content currentVersion
    end in
  if bool_decide (m_reasoning m = None) && negb (includes OPEN fullContent) then
    with_isReasoningStreaming false (updateCurrentVersionContent m fullContent)
  else
    let parsed := parseThinkTags fullContent in
    let finalReasoning :=
      if truthy (reasoning parsed)
      then Some (reasoning_with_content (startReasoningTiming m now) (reasoning parsed))
      else m_reasoning m in
    with_isReasoningStreaming (hasUnclosedTag parsed)
      (with_reasoning finalReasoning (updateCurrentVersionContent m fullContent)).

Inductive StreamChunkType := ReasoningChunk | ContentChunk.

#[export] Instance StreamChunkType_eq_dec : EqDecision StreamChunkType.
Proof. solve_decision. Defined.

Definition getAppendableChunk (currentContent chunk : jsstr) : jsstr :=
  if negb (truthy currentContent) || negb (starts_with currentContent chunk) then chunk
  else drop (length currentContent) chunk.

Definition is_reasoning_streaming (m : Message) : bool :=
  default false (m_isReasoningStreaming m).

Definition applyStreamingChunk (m : Message) (type : StreamChunkType) (chunk : jsstr)
    (now1 now2 : Z) : Message :=
  if bool_decide (m_status m = Some Error) then m
  else
    match type with
    | ReasoningChunk =>
        let r := startReasoningTiming m now1 in
        let appendableChunk := getAppendableChunk (r_content r) chunk in
        with_status Streaming
          (with_isReasoningStreaming true
            (with_reasoning (Some (reasoning_with_content r (r_content r ++ appendableChunk))) m))
    | ContentChunk =>
        let currentVersion := getCurrentVersion m in
        let appendableChunk := getAppendableChunk (v_content currentVersion) chunk in
        let contentMessage := processStreamingContent m (Some appendableChunk) now1 in
        with_status Streaming
          (if is_reasoning_streaming contentMessage then contentMessage
           else completeReasoningTiming contentMessage now2)
    end.

(** [apiReasoningContent || message.reasoning?.content || parsed?.reasoning || ''] *)
Definition final_reasoning (m : Message) (apiReasoningContent : option jsstr)
    (parsed : option ParsedThinkTags) : jsstr :=
  let api := default [] apiReasoningContent in
  let own := match m_reasoning m with Some r => r_content r | None => [] end in
  let tagged := match parsed with Some p => reasoning p | None => [] end in
  if truthy api then api else if truthy own then own else tagged.

Definition finalizeMessage (m : Message) (apiReasoningContent : option jsstr)
    (now1 now2 : Z) : Message :=
  let currentVersion := getCurrentVersion m in
  let parsedThinkTags :=
    if includes OPEN (v_content currentVersion)
    then Some (parseThinkTags (v_content currentVersion)) else None in
  let visible :=
    match parsedThinkTags with
    | Some p => visibleContent p
    | None => v_content currentVersion
    end in
  let finalReasoning := final_reasoning m apiReasoningContent parsedThinkTags in
  let finalized :=
    with_isReasoningStreaming false
      (with_reasoning
        (if truthy finalReasoning
         then Some (reasoning_with_content (startReasoningTiming m now1) finalReasoning)
         else None)
        (updateCurrentVersionContent m visible)) in
  completeReasoningTiming finalized now2.

Definition completeAssistantMessage (m : Message) (now1 now2 now3 : Z) : Message :=
  completeAssistantTiming (with_status Complete (finalizeMessage m None now1 now2)) now3.

Definition isAssistantMessageFinal (m : Message) : bool :=
  match m_status m with Some Complete | Some Error => true | _ => false end.

Definition isAssistantMessagePending (m : Message) : bool :=
  match m_status m with Some Loading | Some Streaming => true | _ => false end.

Definition isPendingAssistantMessage (m : Message) : bool :=
  bool_decide (m_from m = Assistant) && isAssistantMessagePending m.

(** [ChatCompletionResponse]: the choices with their message content and reasoning. *)
Record ChatCompletionChoice := mkChoice {
  c_content : option jsstr; c_reasoning_content : option jsstr
}.

Definition hasChatCompletionChoice (choices : list ChatCompletionChoice) : bool :=
  match choices with [] => false | _ => true end.

Definition applyChatCompletionChoice (m : Message) (choice : ChatCompletionChoice)
    (now1 now2 now3 : Z) : Message :=
  completeAssistantTiming
    (with_status Complete
      (finalizeMessage (updateCurrentVersionContent m (default [] (c_content choice)))
        (c_reasoning_content choice) now1 now2))
    now3.

Definition applyChatCompletionResponse (m : Message) (choices : list ChatCompletionChoice)
    (now1 now2 now3 : Z) : option Message :=
  match choices with
  | [] => None
  | choice :: _ => Some (applyChatCompletionChoice m choice now1 now2 now3)
  end.

(** The backward loop of [sanitizeMessagesOnLoad]: the last pending assistant message. *)
Fixpoint last_pending (messages : list Message) : option nat :=
  match messages with
  | [] => None
  | m :: rest =>
      match last_pending rest with
      | Some i => Some (S i)
      | None => if isPendingAssistantMessage m then Some O else None
      end
  end.

Section sanitize.
(** i18next's [t]. *)
Context (t : jsstr → jsstr).

Definition sanitize_message (m : Message) (now1 now2 now3 : Z) : Message :=
  let finalized := finalizeMessage m None now1 now2 in
  let hasContent := hasMessageContent finalized in
  let hasReasoning :=
    match m_reasoning finalized with Some r => truthy (trim (r_content r)) | None => false end in
  if hasContent || hasReasoning then
    completeAssistantTiming
      (with_isReasoningStreaming false (with_status Complete finalized)) now3
  else
    completeAssistantTiming
      (with_isReasoningStreaming false (with_status Error
        (updateCurrentVersionContent finalized (t API_REQUEST_ERROR ++ js ": " ++ t INTERRUPTED))))
      now3.

Definition sanitizeMessagesOnLoad (messages : list Message) (now1 now2 now3 : Z) :
    list Message :=
  match last_pending messages with
  | None => messages
  | Some i =>
      match messages !! i with
      | Some m => <[i := sanitize_message m now1 now2 now3]> messages
      | None => messages
      end
  end.
End sanitize.

(** ** Lemmas *)

Lemma getAppendable_append c d :
  c ≠ [] → getAppendableChunk c (c ++ d) = d.
Proof.
  intros Hc. unfold getAppendableChunk.
  assert (starts_with c (c ++ d) = true) as -> by (apply starts_with_spec; eauto).
  assert (truthy c = true) as -> by by apply truthy_spec. simpl. by rewrite drop_app_length.
Qed.

Lemma getAppendable_other c d :
  c = [] ∨ starts_with c d = false → getAppendableChunk c d = d.
Proof.
  unfold getAppendableChunk. intros [-> | ->]; simpl; [done|]. by rewrite orb_true_r.
Qed.

Lemma processStreaming_content m chunk now :
  getMessageContent (processStreamingContent m (Some chunk) now) = getMessageContent m ++ chunk.
Proof.
  unfold processStreamingContent. assert (∀ v : jsstr, (if truthy chunk then v ++ chunk else v) =
    v ++ chunk) as ->. { intros v. destruct chunk; simpl; [by rewrite app_nil_r|done]. }
  by case_match.
Qed.

Lemma processStreaming_frame m chunk now :
  let m' := processStreamingContent m chunk now in
  m_status m' = m_status m ∧ m_from m' = m_from m ∧ m_key m' = m_key m.
Proof. cbv zeta. unfold processStreamingContent. case_match; done. Qed.

Lemma applyChunk_frame m ty chunk t1 t2 :
  let m' := applyStreamingChunk m ty chunk t1 t2 in
  m_from m' = m_from m ∧ m_key m' = m_key m ∧
  (m_status m = Some Error → m' = m) ∧
  (m_status m ≠ Some Error → m_status m' = Some Streaming).
Proof.
  cbv zeta. unfold applyStreamingChunk. case_bool_decide; [done|].
  destruct ty; simpl; [done|].
  pose proof (processStreaming_frame m
    (Some (getAppendableChunk (v_content (getCurrentVersion m)) chunk)) t1) as (H1 & H2 & H3).
  case_match; simpl; [done|].
  edestruct completeReasoningTiming_frame as (? & -> & -> & _). done.
Qed.

Lemma applyChunk_content m chunk t1 t2 :
  m_status m ≠ Some Error →
  getMessageContent (applyStreamingChunk m ContentChunk chunk t1 t2) =
  getMessageContent m ++ getAppendableChunk (getMessageContent m) chunk.
Proof.
  intros Hs. unfold applyStreamingChunk. rewrite bool_decide_eq_false_2 by done.
  cbv zeta. change (v_content (getCurrentVersion m)) with (getMessageContent m).
  rewrite <-(processStreaming_content m (getAppendableChunk (getMessageContent m) chunk) t1).
  destruct (is_reasoning_streaming _); [done|].
  edestruct completeReasoningTiming_frame as (_ & _ & _ & Hv & _).
  unfold getMessageContent, getCurrentVersion at 1. simpl. by rewrite Hv.
Qed.

(** Applying a list of content chunks; the instants of each application are given. *)
Definition apply_content_chunks (m : Message) (chunks : list (jsstr * Z * Z)) : Message :=
  foldl (λ m c, applyStreamingChunk m ContentChunk c.1.1 c.1.2 c.2) m chunks.

Lemma apply_chunks_status m chunks :
  m_status m ≠ Some Error → m_status (apply_content_chunks m chunks) ≠ Some Error.
Proof.
  revert m. induction chunks as [|c chunks IH]; intros m Hm; simpl; [done|].
  apply IH. destruct (applyChunk_frame m ContentChunk c.1.1 c.1.2 c.2) as (_ & _ & _ & H).
  by rewrite H.
Qed.

Lemma finalize_frame m api t1 t2 :
  let m' := finalizeMessage m api t1 t2 in
  m_status m' = m_status m ∧ m_from m' = m_from m ∧ m_key m' = m_key m ∧
  m_isReasoningStreaming m' = Some false.
Proof.
  cbv zeta. unfold finalizeMessage.
  edestruct completeReasoningTiming_frame as (-> & -> & -> & _ & -> & _). done.
Qed.

Lemma complete_status m t1 t2 t3 :
  m_status (completeAssistantMessage m t1 t2 t3) = Some Complete.
Proof. unfold completeAssistantMessage. by rewrite completeAssistantTiming_status. Qed.

Lemma complete_from m t1 t2 t3 :
  m_from (completeAssistantMessage m t1 t2 t3) = m_from m.
Proof.
  unfold completeAssistantMessage. rewrite completeAssistantTiming_from. simpl.
  apply finalize_frame.
Qed.

(** ** What a stream of content chunks leaves in the message *)

(** Each chunk repeats the content so far and extends it (a provider that sends the
    whole text each time). *)
Fixpoint snapshots_from (c : jsstr) (chunks : list jsstr) : Prop :=
  match chunks with
  | [] => True
  | s :: rest => c `prefix_of` s ∧ snapshots_from s rest
  end.

(** No chunk begins with the whole content received before it (ordinary deltas). *)
Fixpoint deltas_from (c : jsstr) (chunks : list jsstr) : Prop :=
  match chunks with
  | [] => True
  | d :: rest => (c = [] ∨ starts_with c d = false) ∧ deltas_from (c ++ d) rest
  end.

Definition chunk_texts (chunks : list (jsstr * Z * Z)) : list jsstr := map (λ c, c.1.1) chunks.

Lemma appendable_prefix c s : c `prefix_of` s → c ++ getAppendableChunk c s = s.
Proof.
  intros [d ->]. destruct c as [|u c]; [done|]. by rewrite getAppendable_append.
Qed.

Lemma apply_chunks_snoc m chunks c :
  apply_content_chunks m (chunks ++ [c]) =
  applyStreamingChunk (apply_content_chunks m chunks) ContentChunk c.1.1 c.1.2 c.2.
Proof. unfold apply_content_chunks. by rewrite foldl_app. Qed.

Lemma snapshots_content m chunks :
  m_status m ≠ Some Error → snapshots_from (getMessageContent m) (chunk_texts chunks) →
  getMessageContent (apply_content_chunks m chunks) =
  default (getMessageContent m) (last (chunk_texts chunks)).
Proof.
  revert m. induction chunks as [|[[s t1] t2] chunks IH]; intros m Hm; [done|].
  intros [Hp Hs]. simpl in Hp, Hs.
  assert (getMessageContent (applyStreamingChunk m ContentChunk s t1 t2) = s) as Hc.
  { rewrite applyChunk_content by done. by apply appendable_prefix. }
  simpl. rewrite IH.
  - rewrite Hc. change (default s (last (chunk_texts chunks)) =
      default (getMessageContent m) (last (s :: chunk_texts chunks))).
    rewrite last_cons. by destruct (last (chunk_texts chunks)).
  - destruct (applyChunk_frame m ContentChunk s t1 t2) as (_ & _ & _ & H). by rewrite H.
  - by rewrite Hc.
Qed.

Lemma deltas_content m chunks :
  m_status m ≠ Some Error → deltas_from (getMessageContent m) (chunk_texts chunks) →
  getMessageContent (apply_content_chunks m chunks) =
  getMessageContent m ++ concat (chunk_texts chunks).
Proof.
  revert m. induction chunks as [|[[d t1] t2] chunks IH]; intros m Hm.
  { intros _. simpl. by rewrite app_nil_r. }
  intros [Hp Hs]. simpl in Hp, Hs.
  assert (getMessageContent (applyStreamingChunk m ContentChunk d t1 t2) =
    getMessageContent m ++ d) as Hc.
  { rewrite applyChunk_content by done. by rewrite getAppendable_other. }
  simpl. rewrite IH.
  - rewrite Hc. by rewrite <-app_assoc.
  - destruct (applyChunk_frame m ContentChunk d t1 t2) as (_ & _ & _ & H). by rewrite H.
  - by rewrite Hc.
Qed.

(** After a content chunk the reasoning is that of the tags, when there is some, and
    else what it was. *)
Lemma applyChunk_reasoning m chunk t1 t2 :
  m_status m ≠ Some Error →
  let r := reasoning (parseThinkTags
    (getMessageContent (applyStreamingChunk m ContentChunk chunk t1 t2))) in
  r_content <$> m_reasoning (applyStreamingChunk m ContentChunk chunk t1 t2) =
  if truthy r then Some r else r_content <$> m_reasoning m.
Proof.
  intros Hs. cbv zeta. rewrite applyChunk_content by done.
  unfold applyStreamingChunk. rewrite bool_decide_eq_false_2 by done. cbv zeta.
  change (v_content (getCurrentVersion m)) with (getMessageContent m).
  set (d := getAppendableChunk (getMessageContent m) chunk) in *.
  transitivity (r_content <$> m_reasoning (processStreamingContent m (Some d) t1)).
  { destruct (is_reasoning_streaming _); [done|].
    edestruct completeReasoningTiming_frame as (_ & _ & _ & _ & _ & H). exact H. }
  unfold processStreamingContent. change (v_content (getCurrentVersion m)) with
    (getMessageContent m).
  assert ((if truthy d then getMessageContent m ++ d else getMessageContent m) =
    getMessageContent m ++ d) as -> by (destruct d; simpl; [by rewrite app_nil_r|done]).
  destruct (includes OPEN (getMessageContent m ++ d)) eqn:E.
  - rewrite andb_false_r. cbv zeta. by destruct (truthy (reasoning _)).
  - rewrite (parseThinkTags_plain _ E). by case_match.
Qed.

Lemma finalize_content m api t1 t2 :
  getMessageContent (finalizeMessage m api t1 t2) =
  visibleContent (parseThinkTags (getMessageContent m)).
Proof.
  unfold finalizeMessage, getMessageContent, getCurrentVersion at 1.
  edestruct completeReasoningTiming_frame as (_ & _ & _ & -> & _). simpl.
  destruct (includes OPEN _) eqn:E; [done|]. by rewrite parseThinkTags_plain.
Qed.

Lemma finalize_reasoning m api t1 t2 :
  let r := final_reasoning m api (Some (parseThinkTags (getMessageContent m))) in
  r_content <$> m_reasoning (finalizeMessage m api t1 t2) =
  if truthy r then Some r else None.
Proof.
  cbv zeta. unfold finalizeMessage.
  edestruct completeReasoningTiming_frame as (_ & _ & _ & _ & _ & ->). simpl.
  change (v_content (getCurrentVersion m)) with (getMessageContent m).
  assert (final_reasoning m api (if includes OPEN (getMessageContent m)
    then Some (parseThinkTags (getMessageContent m)) else None) =
    final_reasoning m api (Some (parseThinkTags (getMessageContent m)))) as ->.
  { destruct (includes OPEN _) eqn:E; [done|]. unfold final_reasoning.
    by rewrite parseThinkTags_plain. }
  by destruct (truthy _).
Qed.

Lemma complete_content m t1 t2 t3 :
  getMessageContent (completeAssistantMessage m t1 t2 t3) =
  visibleContent (parseThinkTags (getMessageContent m)).
Proof.
  unfold completeAssistantMessage. rewrite completeAssistantTiming_content.
  apply finalize_content.
Qed.

Lemma complete_reasoning m t1 t2 t3 :
  let r := final_reasoning m None (Some (parseThinkTags (getMessageContent m))) in
  r_content <$> m_reasoning (completeAssistantMessage m t1 t2 t3) =
  if truthy r then Some r else None.
Proof.
  cbv zeta. unfold completeAssistantMessage. rewrite completeAssistantTiming_reasoning.
  apply finalize_reasoning.
Qed.

(** ** Sanitizing *)

Lemma last_pending_None ms :
  last_pending ms = None ↔ Forall (λ m, isPendingAssistantMessage m = false) ms.
Proof.
  induction ms as [|m ms IH]; simpl; [by split; [constructor|]|]. rewrite Forall_cons, <-IH.
  destruct (last_pending ms); [naive_solver|].
  destruct (isPendingAssistantMessage m); naive_solver.
Qed.

Lemma last_pending_Some ms i :
  last_pending ms = Some i →
  ∃ pre m post, ms = pre ++ m :: post ∧ i = length pre ∧ isPendingAssistantMessage m = true ∧
    last_pending post = None.
Proof.
  revert i. induction ms as [|m ms IH]; intros i; simpl; [done|].
  destruct (last_pending ms) as [j|] eqn:E.
  - intros [= <-]. destruct (IH j eq_refl) as (pre & m' & post & -> & -> & ? & ?).
    by exists (m :: pre), m', post.
  - destruct (isPendingAssistantMessage m) eqn:Em; [|done]. intros [= <-]. by exists [], m, ms.
Qed.

Lemma last_pending_split pre m post :
  isPendingAssistantMessage m = true → last_pending post = None →
  last_pending (pre ++ m :: post) = Some (length pre).
Proof.
  intros Hm Hp. induction pre as [|x pre IH]; simpl; [by rewrite Hp, Hm|]. by rewrite IH.
Qed.

Lemma sanitize_split t pre m post t1 t2 t3 :
  isPendingAssistantMessage m = true → last_pending post = None →
  sanitizeMessagesOnLoad t (pre ++ m :: post) t1 t2 t3 =
  pre ++ sanitize_message t m t1 t2 t3 :: post.
Proof.
  intros Hm Hp. unfold sanitizeMessagesOnLoad. rewrite last_pending_split by done.
  rewrite list_lookup_middle by done. by rewrite insert_app_r_alt, Nat.sub_diag by lia.
Qed.

Lemma sanitize_message_content t m t1 t2 t3 :
  m_status (sanitize_message t m t1 t2 t3) = Some Complete ∧
    getMessageContent (sanitize_message t m t1 t2 t3) =
      visibleContent (parseThinkTags (getMessageContent m)) ∨
  m_status (sanitize_message t m t1 t2 t3) = Some Error ∧
    trim (visibleContent (parseThinkTags (getMessageContent m))) = [] ∧
    trim (final_reasoning m None (Some (parseThinkTags (getMessageContent m)))) = [] ∧
    getMessageContent (sanitize_message t m t1 t2 t3) =
      t API_REQUEST_ERROR ++ js ": " ++ t INTERRUPTED.
Proof.
  unfold sanitize_message, hasMessageContent.
  rewrite finalize_content. pose proof (finalize_reasoning m None t1 t2) as Hr. cbv zeta in Hr.
  destruct (truthy (trim (visibleContent _))) eqn:E1; simpl.
  { left. rewrite completeAssistantTiming_status, completeAssistantTiming_content. simpl.
    split; [done|]. apply (finalize_content m None t1 t2). }
  destruct (m_reasoning (finalizeMessage m None t1 t2)) as [r|].
  - simpl in Hr. destruct (truthy (trim (r_content r))) eqn:E2.
    + left. rewrite completeAssistantTiming_status, completeAssistantTiming_content. simpl.
      split; [done|]. apply (finalize_content m None t1 t2).
    + right. rewrite completeAssistantTiming_status, completeAssistantTiming_content.
      apply truthy_false in E1, E2. split_and!; [done..| |done].
      destruct (truthy _) in Hr; [|done]. by injection Hr as <-.
  - right. rewrite completeAssistantTiming_status, completeAssistantTiming_content.
    apply truthy_false in E1. split_and!; [done..| |done].
    destruct (truthy _) eqn:E3 in Hr; [done|]. by apply truthy_false in E3 as ->.
Qed.

(** ** Properties *)

(** What a chunk makes of the text so far: one that begins with all of it is a snapshot and
    takes its place, any other is appended. *)
Definition absorb (content chunk : jsstr) : jsstr :=
  if truthy content && starts_with content chunk then chunk else content ++ chunk.

Lemma absorb_spec c d : c ++ getAppendableChunk c d = absorb c d.
Proof.
  unfold absorb, getAppendableChunk. destruct (truthy c) eqn:Ec; [|done]. destruct (starts_with c d) eqn:Es; [|done]. simpl.
  by rewrite <- (starts_with_drop c d Es).
Qed.

Lemma absorbed_content m chunks : m_status m ≠ Some Error →
  getMessageContent (apply_content_chunks m chunks) = foldl absorb (getMessageContent m) (chunk_texts chunks).
Proof.
  revert m. induction chunks as [|[ [c t1] t2] chunks IH]; intros m Hm; [done|]. simpl. rewrite IH.
  - by rewrite applyChunk_content, absorb_spec.
  - destruct (applyChunk_frame m ContentChunk c t1 t2) as (_ & _ & _ & H). by rewrite H.
Qed.

(** [C18] A stream that ends with the completion of its message: whatever the chunks are, each
    one that begins with the whole text so far takes its place and every other one is appended
    to it. So a stream of snapshots (each extends the text so far) leaves the last one, and a
    stream of deltas of which none begins with the whole text so far leaves their
    concatenation. The completed message shows the visible part of this text, and, when the
    text has reasoning in think tags, exactly that reasoning. *)
Theorem streamed_message_complete (m : Message) (chunks : list (jsstr * Z * Z)) (t1 t2 t3 : Z) :
  m_status m ≠ Some Error →
  chunks ≠ [] →
  let final := foldl absorb (getMessageContent m) (chunk_texts chunks) in
  let streamed := apply_content_chunks m chunks in
  let done := completeAssistantMessage streamed t1 t2 t3 in
  (snapshots_from (getMessageContent m) (chunk_texts chunks) → last (chunk_texts chunks) = Some final) ∧
  (deltas_from (getMessageContent m) (chunk_texts chunks) →
     final = getMessageContent m ++ concat (chunk_texts chunks)) ∧
  m_status streamed = Some Streaming ∧ getMessageContent streamed = final ∧
  m_status done = Some Complete ∧
  getMessageContent done = visibleContent (parseThinkTags final) ∧
  (reasoning (parseThinkTags final) ≠ [] →
   r_content <$> m_reasoning done = Some (reasoning (parseThinkTags final))).
Proof.
  intros Hs Hne final. cbv zeta. pose proof (absorbed_content m chunks Hs) as Hc. fold final in Hc.
  assert ((snapshots_from (getMessageContent m) (chunk_texts chunks) → last (chunk_texts chunks) = Some final) ∧
    (deltas_from (getMessageContent m) (chunk_texts chunks) →
       final = getMessageContent m ++ concat (chunk_texts chunks))) as [Hsnap Hdelta].
  { split; intros Hk; rewrite <- Hc; [|by apply deltas_content]. rewrite snapshots_content by done.
    destruct (last (chunk_texts chunks)) eqn:El; [done|]. apply last_None in El. by destruct chunks. }
  split_and!; [exact Hsnap|exact Hdelta|..]; clear Hsnap Hdelta; clearbody final.
  all: destruct chunks as [|[[c u1] u2] chunks _] using rev_ind; [done|].
  all: rewrite apply_chunks_snoc in *; cbn [fst snd] in *; pose proof (apply_chunks_status m chunks Hs) as Hs';
    destruct (applyChunk_frame (apply_content_chunks m chunks) ContentChunk c u1 u2) as (_ & _ & _ & Hst).
  1: auto. 1: done. 1: apply complete_status. 1: by rewrite complete_content, Hc.
  intros Hr. rewrite complete_reasoning, Hc. unfold final_reasoning. simpl.
  pose proof (applyChunk_reasoning (apply_content_chunks m chunks) c u1 u2 Hs') as Hre.
  apply truthy_spec in Hr. cbv zeta in Hre. rewrite Hc, Hr in Hre.
  destruct (m_reasoning _) as [r|]; [|done]. simpl in Hre. injection Hre as ->.
  by rewrite Hr, Hr.
Qed.

Definition example_message : Message := createLoadingAssistantMessage (js "k") (js "v") 5.

Lemma streamed_message_complete_witness :
  let chunks := [(js "<think>wh", 6, 7); (js "y</think>", 8, 9); (js "so", 10, 11)] in
  let done := completeAssistantMessage (apply_content_chunks example_message chunks) 12 13 14 in
  getMessageContent done = js "so" ∧ r_content <$> m_reasoning done = Some (js "why").
Proof.
  set (chunks := [(js "<think>wh", 6, 7); (js "y</think>", 8, 9); (js "so", 10, 11)]).
  destruct (streamed_message_complete example_message chunks 12 13 14 ltac:(done) ltac:(done)) as (_ & _ & _ & _ & _ & H1 & H2).
  split; [rewrite H1; by vm_compute|]. rewrite H2; [by vm_compute|by vm_compute].
Defined.

(** A delta that repeats the whole text received so far, possibly with more after
    it, is taken for a snapshot: the repeated text is dropped from the message. *)
Theorem repeated_delta_lost (m : Message) (d : jsstr) (t1 t2 : Z) :
  m_status m ≠ Some Error →
  getMessageContent m ≠ [] →
  getMessageContent (applyStreamingChunk m ContentChunk (getMessageContent m ++ d) t1 t2) =
    getMessageContent m ++ d ∧
  getMessageContent (applyStreamingChunk m ContentChunk (getMessageContent m ++ d) t1 t2) ≠
    getMessageContent m ++ getMessageContent m ++ d.
Proof.
  intros Hs Hc. rewrite applyChunk_content, getAppendable_append by done. split; [done|].
  intros Heq. apply app_inv_head in Heq. apply (f_equal length) in Heq.
  rewrite length_app in Heq. destruct (getMessageContent m); [done|]. simpl in Heq. lia.
Qed.

Lemma repeated_delta_lost_witness :
  getMessageContent (apply_content_chunks example_message [(js "ha", 6, 7); (js "ha!", 8, 9)]) =
  js "ha!".
Proof.
  destruct (repeated_delta_lost (apply_content_chunks example_message [(js "ha", 6, 7)])
    (js "!") 8 9) as [H _]; [done|done|]. exact H.
Defined.

(** An empty think block whose closing tag is split over two chunks leaves the first
    half of the tag behind as the reasoning of the completed message, although the
    whole text has no reasoning. *)
Theorem split_close_tag_becomes_reasoning (m : Message) (v : jsstr) (t1 t2 t3 t4 t5 t6 t7 : Z) :
  m_status m ≠ Some Error →
  getMessageContent m = [] →
  includes OPEN v = false →
  let chunks := [(js "<think></", t1, t2); (js "think>" ++ v, t3, t4)] in
  let done := completeAssistantMessage (apply_content_chunks m chunks) t5 t6 t7 in
  reasoning (parseThinkTags (js "<think></think>" ++ v)) = [] ∧
  getMessageContent done = trim v ∧
  r_content <$> m_reasoning done = Some (js "</").
Proof.
  intros Hs Hm Hv. cbv zeta.
  assert (parseThinkTags (js "<think></think>" ++ v) = mkThink (trim v) [] false) as Hp.
  { change (js "<think></think>" ++ v) with (render (mkDoc [([], [])] (TPlain v))).
    by rewrite parse_render by (split; [by repeat constructor|done]). }
  set (m1 := applyStreamingChunk m ContentChunk (js "<think></") t1 t2).
  assert (getMessageContent m1 = js "<think></") as Hc1.
  { unfold m1. rewrite applyChunk_content by done. by rewrite Hm. }
  assert (r_content <$> m_reasoning m1 = Some (js "</")) as Hr1.
  { unfold m1. rewrite applyChunk_reasoning by done. fold m1. by rewrite Hc1. }
  assert (m_status m1 ≠ Some Error) as Hs1.
  { by apply (apply_chunks_status m [(js "<think></", t1, t2)]). }
  set (m2 := applyStreamingChunk m1 ContentChunk (js "think>" ++ v) t3 t4).
  assert (getMessageContent m2 = js "<think></think>" ++ v) as Hc2.
  { unfold m2. rewrite applyChunk_content by done.
    rewrite Hc1, getAppendable_other; [done|by right]. }
  assert (r_content <$> m_reasoning m2 = Some (js "</")) as Hr2.
  { unfold m2. rewrite applyChunk_reasoning by done. fold m2. by rewrite Hc2, Hp. }
  split; [by rewrite Hp|]. change (apply_content_chunks m _) with m2. clearbody m2.
  split; [by rewrite complete_content, Hc2, Hp|].
  rewrite complete_reasoning, Hc2, Hp. unfold final_reasoning. simpl.
  destruct (m_reasoning m2); [|done]. simpl in *. by injection Hr2 as ->.
Qed.

Lemma split_close_tag_becomes_reasoning_witness :
  let done := completeAssistantMessage (apply_content_chunks example_message
    [(js "<think></", 6, 7); (js "think>Hello", 8, 9)]) 10 11 12 in
  getMessageContent done = js "Hello" ∧ r_content <$> m_reasoning done = Some (js "</").
Proof.
  destruct (split_close_tag_becomes_reasoning example_message (js "Hello") 6 7 8 9 10 11 12
    ltac:(done) eq_refl eq_refl) as (_ & H1 & H2).
  split; [exact H1|exact H2].
Defined.

(** Loading a stored conversation settles its last pending assistant message and
    changes nothing else: the message keeps its visible text and is complete, or, when it
    has neither visible text nor reasoning, it is an error that says the generation was
    interrupted. Without a pending message the list is returned as it is. *)
Theorem sanitize_on_load (t : jsstr → jsstr) (ms : list Message) (t1 t2 t3 : Z) :
  (Forall (λ m, isPendingAssistantMessage m = false) ms ∧
     sanitizeMessagesOnLoad t ms t1 t2 t3 = ms) ∨
  ∃ pre m post,
    ms = pre ++ m :: post ∧ isPendingAssistantMessage m = true ∧
    Forall (λ m, isPendingAssistantMessage m = false) post ∧
    let m' := sanitize_message t m t1 t2 t3 in
    sanitizeMessagesOnLoad t ms t1 t2 t3 = pre ++ m' :: post ∧
    (m_status m' = Some Complete ∧
       getMessageContent m' = visibleContent (parseThinkTags (getMessageContent m)) ∨
     m_status m' = Some Error ∧
       trim (visibleContent (parseThinkTags (getMessageContent m))) = [] ∧
       trim (final_reasoning m None (Some (parseThinkTags (getMessageContent m)))) = [] ∧
       getMessageContent m' = t API_REQUEST_ERROR ++ js ": " ++ t INTERRUPTED).
Proof.
  destruct (last_pending ms) as [i|] eqn:E.
  - right. destruct (last_pending_Some _ _ E) as (pre & m & post & -> & -> & Hm & Hp).
    exists pre, m, post. split_and!; [done..|by apply last_pending_None|].
    split; [by apply sanitize_split|]. apply sanitize_message_content.
  - left. split; [by apply last_pending_None|]. unfold sanitizeMessagesOnLoad. by rewrite E.
Qed.

(** Only the last pending message is settled: an earlier assistant message that is
    still loading or streaming stays so after the conversation is loaded. *)
Theorem sanitize_keeps_earlier_pending (t : jsstr → jsstr) (pre mid post : list Message)
    (m m' : Message) (t1 t2 t3 : Z) :
  isPendingAssistantMessage m = true →
  isPendingAssistantMessage m' = true →
  ∃ rest, sanitizeMessagesOnLoad t (pre ++ m :: mid ++ m' :: post) t1 t2 t3 =
    pre ++ m :: rest.
Proof.
  intros Hm Hm'. destruct (last_pending (mid ++ m' :: post)) as [i|] eqn:E.
  - destruct (last_pending_Some _ _ E) as (mid2 & m2 & post2 & Heq & -> & Hm2 & Hp).
    rewrite Heq. exists (mid2 ++ sanitize_message t m2 t1 t2 t3 :: post2).
    rewrite app_comm_cons, app_assoc, sanitize_split by done. by rewrite <-app_assoc.
  - apply last_pending_None in E. apply Forall_app in E as [_ E].
    apply Forall_cons in E as [E _]. by rewrite E in Hm'.
Qed.

Lemma sanitize_keeps_earlier_pending_witness :
  ∃ rest, sanitizeMessagesOnLoad (λ s, s) [example_message; example_message] 6 7 8 =
    example_message :: rest.
Proof.
  destruct (sanitize_keeps_earlier_pending (λ s, s) [] [] [] example_message example_message
    6 7 8 eq_refl eq_refl) as [rest H].
  exists rest. exact H.
Defined.

End Stream.
