(* ===== verification/Conversation.v ===== *)
(** * The conversation and its operations
      (web/src/features/playground/lib/message/conversation-message-utils.ts,
       message-action-utils.ts, message-content-utils.ts, message-editor-utils.ts,
       message-error-utils.ts, message-layout-utils.ts,
       hooks/use-playground-conversation.ts)

    The list operations behind send, regenerate, edit and delete, the view state of a
    message, and the hook that ties them to requests: a handler runs up to its [await],
    and the rest of it is a continuation kept in the state until its request settles.
    The keys [nanoid()] gives and the instants are arguments. *)
From S2P Require Import Prelude JsString Message Reasoning Streaming.
Import Msg Reasoning Stream.
Local Open Scope Z_scope.

Module Conversation.

(** The identifiers a new message draws: its key and its version's id. *)
Record Ids := mkIds { id_key : jsstr; id_version : jsstr }.

Definition appendUserMessagePair (messages : list Message) (content : jsstr)
    (attachments : list ChatAttachment) (submittedAt : Z) (u a : Ids) : list Message :=
  messages ++
  [createUserMessage (id_key u) (id_version u) content submittedAt attachments;
   createLoadingAssistantMessage (id_key a) (id_version a) submittedAt].

Fixpoint findIndex (messageKey : jsstr) (messages : list Message) : option nat :=
  match messages with
  | [] => None
  | m :: rest => if streq (m_key m) messageKey then Some O else S <$> findIndex messageKey rest
  end.

Definition createRegeneratedMessages (messages : list Message) (messageKey : jsstr)
    (now : Z) (a : Ids) : option (list Message) :=
  match findIndex messageKey messages with
  | None => None
  | Some i =>
      let loading := createLoadingAssistantMessage (id_key a) (id_version a) now in
      match messages !! i with
      | Some m =>
          if bool_decide (m_from m = User) then Some (take (i + 1) messages ++ [loading])
          else Some (take i messages ++ [loading])
      | None => None
      end
  end.

Definition removeMessageByKey (messages : list Message) (messageKey : jsstr) : list Message :=
  List.filter (λ m, negb (streq (m_key m) messageKey)) messages.

(** The loop [for (index = beforeIndex - 1; index >= 0; index--)]. *)
Fixpoint getPreviousUserMessage (messages : list Message) (beforeIndex : nat) :
    option Message :=
  match beforeIndex with
  | O => None
  | S i =>
      match messages !! i with
      | Some m =>
          if bool_decide (m_from m = User) then Some m else getPreviousUserMessage messages i
      | None => None
      end
  end.

Record ApplyMessageEditResult := mkEdit { e_messages : list Message; shouldSend : bool }.

Definition edit_message (messageKey content : jsstr) (shouldSubmit : bool) (submittedAt : Z)
    (m : Message) : Message :=
  if streq (m_key m) messageKey then
    with_createdAt (if shouldSubmit then Some submittedAt else m_createdAt m)
      (updateCurrentVersionContent m content)
  else m.

Definition applyMessageEdit (messages : list Message) (messageKey content : jsstr)
    (shouldSubmit : bool) (submittedAt : Z) (a : Ids) : option ApplyMessageEditResult :=
  match findIndex messageKey messages with
  | None => None
  | Some i =>
      let updatedMessages := map (edit_message messageKey content shouldSubmit submittedAt) messages in
      match updatedMessages !! i with
      | Some m =>
          if negb shouldSubmit || negb (bool_decide (m_from m = User)) then
            Some (mkEdit updatedMessages false)
          else
            Some (mkEdit (take (i + 1) updatedMessages ++
              [createLoadingAssistantMessage (id_key a) (id_version a) submittedAt]) true)
      | None => None
      end
  end.

Definition find_key (key : jsstr) (messages : list Message) : option Message :=
  List.find (λ m, streq (m_key m) key) messages.

Definition getEditingMessageContent (messages : list Message) (editingKey : option jsstr) :
    jsstr :=
  match editingKey with
  | None => []
  | Some k =>
      if negb (truthy k) then []
      else match find_key k messages with Some m => getMessageContent m | None => [] end
  end.

Record ChatMessageRenderState := mkRender {
  alwaysShowActions : bool; rs_content : jsstr; isEditing : bool
}.

Definition getChatMessageRenderState (messages : list Message) (m : Message)
    (messageIndex : Z) (editingKey : option jsstr) : ChatMessageRenderState :=
  mkRender
    ((messageIndex =? Z.of_nat (length messages) - 1) && bool_decide (m_from m = Assistant))
    (getMessageContent m)
    (match editingKey with Some k => streq k (m_key m) | None => false end).

(** ** The view state of one message *)

Record MessageActionState := mkAction {
  as_content : jsstr; as_hasContent : bool; as_isAssistant : bool; as_isLoading : bool;
  as_isUser : bool
}.

Definition getMessageActionState (m : Message) : MessageActionState :=
  mkAction (getMessageContent m) (hasMessageContent m) (bool_decide (m_from m = Assistant))
    (isAssistantMessagePending m) (bool_decide (m_from m = User)).

Definition shouldShowMessageLoader (m : Message) (isAssistant : bool)
    (versionContent : jsstr) : bool :=
  isAssistant && negb (is_reasoning_streaming m) &&
  match m_status m with
  | Some Loading => true
  | Some Streaming => negb (truthy versionContent)
  | _ => false
  end.

Definition shouldShowMessageContent (m : Message) (versionContent : jsstr) : bool :=
  (bool_decide (m_from m = User) || negb (is_reasoning_streaming m)) && truthy versionContent.

Definition getDisplayContent (m : Message) (versionContent : jsstr) : jsstr :=
  if negb (bool_decide (m_from m = Assistant)) then versionContent
  else if negb (includes OPEN versionContent) then versionContent
  else visibleContent (parseThinkTags versionContent).

Record MessageContentState := mkContentState {
  displayContent : jsstr; hasSources : bool; cs_isAssistant : bool; showLoader : bool;
  showMessageContent : bool; cs_sources : list Source;
  (** [hasReasoning] is whether [reasoningContent] is present *)
  reasoningContent : option jsstr
}.

Definition getMessageContentState (m : Message) (versionContent : jsstr) :
    MessageContentState :=
  let isAssistant := bool_decide (m_from m = Assistant) in
  let sources := default [] (m_sources m) in
  let rc := if isAssistant then r_content <$> m_reasoning m else None in
  mkContentState (getDisplayContent m versionContent)
    (match sources with [] => false | _ => true end) isAssistant
    (shouldShowMessageLoader m isAssistant versionContent)
    (shouldShowMessageContent m versionContent) sources
    (match rc with Some r => if truthy r then Some r else None | None => None end).

Record MessageEditorState := mkEditor {
  canSave : bool; hasChanged : bool; showSaveAndSubmit : bool
}.

Definition getMessageEditorState (m : Message) (editText originalText : jsstr) :
    MessageEditorState :=
  let hasText := truthy (trim editText) in
  let changed := negb (streq editText originalText) in
  mkEditor (hasText && changed) changed (bool_decide (m_from m = User)).

Definition isAdminRole (role : option Z) : bool :=
  match role with Some r => 10 <=? r | None => false end.

Definition isErrorMessage (m : Message) : bool := bool_decide (m_status m = Some Error).

Inductive ErrorKind := Generic | ModelPrice.

Record MessageErrorState := mkErrorState {
  es_content : jsstr; es_kind : ErrorKind; showSettingsLink : bool
}.

Definition FALLBACK_ERROR_CONTENT : jsstr := js "An unknown error occurred".
Definition MODEL_PRICE_ERROR_CODE : jsstr := js "model_price_error".

Definition getMessageErrorState (m : Message) (isAdmin : bool) : option MessageErrorState :=
  if negb (isErrorMessage m) then None
  else
    let isModelPriceError :=
      match m_errorCode m with Some (Some c) => streq c MODEL_PRICE_ERROR_CODE | _ => false end in
    Some (mkErrorState (str_or (getMessageContent m) FALLBACK_ERROR_CONTENT)
      (if isModelPriceError then ModelPrice else Generic) (isModelPriceError && isAdmin)).

Inductive PlaygroundMessageLayoutMode := Alternating | LayoutLeft.
Inductive MessageAlignment := AlignLeft | AlignRight.

Definition getMessageAlignment (m : Message) (mode : PlaygroundMessageLayoutMode) :
    MessageAlignment :=
  match mode with
  | LayoutLeft => AlignLeft
  | Alternating => if bool_decide (m_from m = User) then AlignRight else AlignLeft
  end.

(** ** The hook [usePlaygroundConversation] *)

Record PlaygroundDraftIdentity := mkDraftId {
  di_key : jsstr; di_text : jsstr; di_attachmentIds : list jsstr
}.

Record FailedDraft := mkFailed { userKey : jsstr; assistantKey : jsstr }.

(** The rest of a handler after [await request]. *)
Inductive Continuation :=
| AfterSend (nextMessages : list Message) (ownershipEpoch : nat)
| AfterRegenerate (originalDraft : option Message) (nextMessages : list Message)
    (ownershipEpoch : nat).

Record Hook := mkHook {
  h_messages : list Message;              (* the list [updateMessages] writes *)
  h_editingMessageKey : option jsstr;
  h_completedRetryDraft : option PlaygroundDraftIdentity;
  h_lastFailedDraft : option FailedDraft;
  h_draftOwnershipEpoch : nat;
  h_awaiting : list Continuation
}.

Definition set_lastFailed (f : option FailedDraft) (h : Hook) : Hook :=
  mkHook (h_messages h) (h_editingMessageKey h) (h_completedRetryDraft h) f
    (h_draftOwnershipEpoch h) (h_awaiting h).

Definition updateMessages (ms : list Message) (h : Hook) : Hook :=
  mkHook ms (h_editingMessageKey h) (h_completedRetryDraft h) (h_lastFailedDraft h)
    (h_draftOwnershipEpoch h) (h_awaiting h).

Definition setEditingMessageKey (k : option jsstr) (h : Hook) : Hook :=
  mkHook (h_messages h) k (h_completedRetryDraft h) (h_lastFailedDraft h)
    (h_draftOwnershipEpoch h) (h_awaiting h).

Definition setCompletedRetryDraft (d : PlaygroundDraftIdentity) (h : Hook) : Hook :=
  mkHook (h_messages h) (h_editingMessageKey h) (Some d) (h_lastFailedDraft h)
    (h_draftOwnershipEpoch h) (h_awaiting h).

Definition await (k : Continuation) (h : Hook) : Hook :=
  mkHook (h_messages h) (h_editingMessageKey h) (h_completedRetryDraft h)
    (h_lastFailedDraft h) (h_draftOwnershipEpoch h) (h_awaiting h ++ [k]).

Definition releaseDraftOwnership (h : Hook) : Hook :=
  mkHook (h_messages h) (h_editingMessageKey h) (h_completedRetryDraft h) None
    (S (h_draftOwnershipEpoch h)) (h_awaiting h).

(** [messages.at(-1)] and [messages.at(-2)]. *)
Definition last_message (ms : list Message) : option Message := last ms.
Definition second_last_message (ms : list Message) : option Message := last (removelast ms).

Definition key_is (m : option Message) (k : jsstr) : bool :=
  match m with Some m => streq (m_key m) k | None => false end.

Definition send_history (messages : list Message) (failed : option FailedDraft) :
    list Message :=
  match failed with
  | Some f =>
      if key_is (second_last_message messages) (userKey f) &&
         key_is (last_message messages) (assistantKey f)
      then removelast (removelast messages) else messages
  | None => messages
  end.

Section hook.
(** [sendChat]: whether the request is accepted (a promise) or refused ([null]). *)
Context (sendChat : list Message → bool).

(** [handleSendMessage] up to its [await]; [messages] is the list of the render. The
    second component is the handler's result when it returns before awaiting. *)
Definition handleSendMessage (messages : list Message) (text : jsstr)
    (attachments : list ChatAttachment) (submittedAt : Z) (u a : Ids) (h : Hook) :
    Hook * option bool :=
  if negb (truthy (trim text)) && match attachments with [] => true | _ => false end
  then (h, Some false)
  else
    let history := send_history messages (h_lastFailedDraft h) in
    let nextMessages := appendUserMessagePair history text attachments submittedAt u a in
    if negb (sendChat nextMessages) then (h, Some false)
    else
      (await (AfterSend nextMessages (h_draftOwnershipEpoch h))
        (updateMessages nextMessages (set_lastFailed None h)), None).

Definition handleRegenerateMessage (messages : list Message) (m : Message) (now : Z) (a : Ids)
    (h : Hook) : Hook :=
  match createRegeneratedMessages messages (m_key m) now a with
  | None => h
  | Some nextMessages =>
      let failedDraft := h_lastFailedDraft h in
      let isFailedDraftRetry :=
        match failedDraft with
        | Some f => streq (m_key m) (userKey f) || streq (m_key m) (assistantKey f)
        | None => false
        end in
      let originalDraft :=
        match failedDraft with
        | Some f => if isFailedDraftRetry then find_key (userKey f) messages else None
        | None => None
        end in
      let h1 := releaseDraftOwnership h in
      if negb (sendChat nextMessages) then
        if isFailedDraftRetry then set_lastFailed failedDraft h1 else h1
      else
        await (AfterRegenerate originalDraft nextMessages (h_draftOwnershipEpoch h1))
          (updateMessages nextMessages h1)
  end.

(** [userKey && assistantKey] of the sent pair, when both are non-empty. *)
Definition draft_of (u a : option Message) : option FailedDraft :=
  match u, a with
  | Some u, Some a =>
      if truthy (m_key u) && truthy (m_key a) then Some (mkFailed (m_key u) (m_key a)) else None
  | _, _ => None
  end.

Definition draft_identity (m : Message) : PlaygroundDraftIdentity :=
  mkDraftId (m_key m)
    (match m_versions m with v :: _ => v_content v | [] => [] end)
    (match m_attachments m with Some l => map a_id l | None => [] end).

(** The continuation once the request settled with [success]. *)
Definition resume (k : Continuation) (success : bool) (h : Hook) : Hook :=
  match k with
  | AfterSend nextMessages ownershipEpoch =>
      if negb (h_draftOwnershipEpoch h =? ownershipEpoch)%nat then h
      else
        set_lastFailed
          (if success then None
           else draft_of (second_last_message nextMessages) (last_message nextMessages)) h
  | AfterRegenerate originalDraft nextMessages ownershipEpoch =>
      match originalDraft with
      | None => h
      | Some d =>
          if negb (h_draftOwnershipEpoch h =? ownershipEpoch)%nat then h
          else if success then setCompletedRetryDraft (draft_identity d) h
          else
            match last_message nextMessages with
            | Some a =>
                if truthy (m_key a) then set_lastFailed (Some (mkFailed (m_key d) (m_key a))) h
                else h
            | None => h
            end
      end
  end.

Definition handleEditMessage (m : Message) (h : Hook) : Hook :=
  setEditingMessageKey (Some (m_key m)) (releaseDraftOwnership h).

Definition handleEditOpenChange (open : bool) (h : Hook) : Hook :=
  if open then h else setEditingMessageKey None (releaseDraftOwnership h).

Definition applyEdit (messages : list Message) (newContent : jsstr) (shouldSubmit : bool)
    (now : Z) (a : Ids) (h : Hook) : Hook :=
  match h_editingMessageKey h with
  | None => h
  | Some k =>
      if negb (truthy k) then h
      else
        let h1 := releaseDraftOwnership h in
        match applyMessageEdit messages k newContent shouldSubmit now a with
        | None => h1
        | Some r =>
            if shouldSend r && negb (sendChat (e_messages r)) then h1
            else updateMessages (e_messages r) (setEditingMessageKey None h1)
        end
  end.

Definition handleDeleteMessage (m : Message) (h : Hook) : Hook :=
  let h1 := releaseDraftOwnership h in
  updateMessages (removeMessageByKey (h_messages h1) (m_key m)) h1.
End hook.

(** ** Handlers as events *)

(** [accepted] is what [sendChat] answers the event's request. *)
Inductive Event :=
| ESend (rendered : list Message) (text : jsstr) (attachments : list ChatAttachment) (now : Z)
    (u a : Ids) (accepted : bool)
| ERegenerate (rendered : list Message) (m : Message) (now : Z) (a : Ids) (accepted : bool)
| EEdit (m : Message)
| EEditOpenChange (open : bool)
| EApplyEdit (rendered : list Message) (newContent : jsstr) (shouldSubmit : bool) (now : Z)
    (a : Ids) (accepted : bool)
| EDelete (m : Message)
| ESettle (i : nat) (success : bool).

Definition drop_awaiting (i : nat) (h : Hook) : Hook :=
  mkHook (h_messages h) (h_editingMessageKey h) (h_completedRetryDraft h)
    (h_lastFailedDraft h) (h_draftOwnershipEpoch h) (delete i (h_awaiting h)).

Definition hook_step (h : Hook) (e : Event) : Hook :=
  match e with
  | ESend rendered text atts now u a ok =>
      (handleSendMessage (λ _, ok) rendered text atts now u a h).1
  | ERegenerate rendered m now a ok => handleRegenerateMessage (λ _, ok) rendered m now a h
  | EEdit m => handleEditMessage m h
  | EEditOpenChange open => handleEditOpenChange open h
  | EApplyEdit rendered c sub now a ok => applyEdit (λ _, ok) rendered c sub now a h
  | EDelete m => handleDeleteMessage m h
  | ESettle i success =>
      match h_awaiting h !! i with
      | Some k => resume k success (drop_awaiting i h)
      | None => h
      end
  end.

Definition hook_run (h : Hook) (es : list Event) : Hook := foldl hook_step h es.

(** ** Lemmas on the list operations *)

Definition keys (ms : list Message) : list jsstr := map m_key ms.

Lemma findIndex_split k ms i :
  findIndex k ms = Some i →
  ∃ pre m post, ms = pre ++ m :: post ∧ i = length pre ∧ m_key m = k ∧ k ∉ keys pre.
Proof.
  revert i. induction ms as [|m ms IH]; intros i; simpl; [done|].
  destruct (streq (m_key m) k) eqn:E.
  - intros [= <-]. exists [], m, ms. split_and!; [done..|by apply streq_spec|set_solver].
  - destruct (findIndex k ms) as [j|]; [|done]. intros [= <-].
    destruct (IH j eq_refl) as (pre & m' & post & -> & -> & Hk & Hn).
    exists (m :: pre), m', post. split_and!; [done..|].
    simpl. intros [->|]%elem_of_cons; [|done].
    by rewrite (proj2 (streq_spec _ _) eq_refl) in E.
Qed.

Lemma findIndex_found k pre m post :
  m_key m = k → k ∉ keys pre → findIndex k (pre ++ m :: post) = Some (length pre).
Proof.
  intros Hk. induction pre as [|x pre IH]; simpl; intros Hn.
  - by rewrite (proj2 (streq_spec _ _) Hk).
  - apply not_elem_of_cons in Hn as [Hx Hn]. rewrite IH by done.
    destruct (streq (m_key x) k) eqn:E; [|done]. apply streq_spec in E. congruence.
Qed.

Lemma findIndex_None k ms : findIndex k ms = None ↔ k ∉ keys ms.
Proof.
  split.
  - intros H Hin. apply list_elem_of_fmap in Hin as (m & -> & Hin).
    apply list_elem_of_split in Hin as (pre & post & ->). revert H.
    induction pre as [|x pre IH]; simpl.
    + by rewrite (proj2 (streq_spec _ _) eq_refl).
    + destruct (streq _ _); [done|]. by destruct (findIndex _ _).
  - intros Hn. destruct (findIndex k ms) eqn:E; [|done].
    destruct (findIndex_split _ _ _ E) as (pre & m & post & -> & _ & Hk & _).
    destruct Hn. unfold keys. rewrite map_app. set_solver.
Qed.

Lemma edit_key k c sub now m : m_key (edit_message k c sub now m) = m_key m.
Proof. unfold edit_message. by destruct (streq _ _). Qed.

Lemma edit_from k c sub now m : m_from (edit_message k c sub now m) = m_from m.
Proof. unfold edit_message. by destruct (streq _ _). Qed.

Lemma edit_other k c sub now ms :
  k ∉ keys ms → map (edit_message k c sub now) ms = ms.
Proof.
  induction ms as [|m ms IH]; simpl; [done|]. intros [Hm Hn]%not_elem_of_cons.
  rewrite IH by done. f_equal. unfold edit_message.
  destruct (streq (m_key m) k) eqn:E; [|done]. apply streq_spec in E. congruence.
Qed.

Lemma keys_app a b : keys (a ++ b) = keys a ++ keys b.
Proof. apply map_app. Qed.

Lemma keys_edit k c sub now ms : keys (map (edit_message k c sub now) ms) = keys ms.
Proof.
  unfold keys. rewrite map_map. apply map_ext. intros. apply edit_key.
Qed.

Lemma regenerate_split pre m post now a :
  m_key m ∉ keys pre →
  createRegeneratedMessages (pre ++ m :: post) (m_key m) now a =
  Some (pre ++ (if bool_decide (m_from m = User) then [m] else []) ++
    [createLoadingAssistantMessage (id_key a) (id_version a) now]).
Proof.
  intros Hn. unfold createRegeneratedMessages.
  rewrite findIndex_found, list_lookup_middle by done.
  case_bool_decide; simpl.
  - rewrite take_app_ge by lia. replace (length pre + 1 - length pre)%nat with 1%nat by lia.
    simpl. by rewrite <-app_assoc.
  - by rewrite take_app_length.
Qed.

Lemma edit_split pre m post c sub now a :
  m_key m ∉ keys pre →
  let m' := edit_message (m_key m) c sub now m in
  applyMessageEdit (pre ++ m :: post) (m_key m) c sub now a =
  Some (if sub && bool_decide (m_from m = User)
        then mkEdit (pre ++ [m'; createLoadingAssistantMessage (id_key a) (id_version a) now]) true
        else mkEdit (pre ++ m' :: map (edit_message (m_key m) c sub now) post) false).
Proof.
  intros Hn m'. unfold applyMessageEdit. rewrite findIndex_found by done.
  rewrite map_app, (edit_other _ _ _ _ pre) by done. simpl. fold m'.
  rewrite list_lookup_middle by done.
  assert (m_from m' = m_from m) as -> by apply edit_from.
  destruct sub; simpl; [|done]. case_bool_decide; simpl; [|done].
  rewrite take_app_ge by lia. replace (length pre + 1 - length pre)%nat with 1%nat by lia.
  simpl. by rewrite <-app_assoc.
Qed.

Lemma remove_keys k ms : k ∉ keys (removeMessageByKey ms k).
Proof.
  intros (m & -> & Hin)%list_elem_of_fmap. apply list_elem_of_In, filter_In in Hin as [_ H].
  by rewrite (proj2 (streq_spec _ _) eq_refl) in H.
Qed.

Lemma remove_absent k ms : k ∉ keys ms → removeMessageByKey ms k = ms.
Proof.
  unfold removeMessageByKey. induction ms as [|m ms IH]; simpl; [done|].
  intros [Hm Hn]%not_elem_of_cons. rewrite IH by done.
  destruct (streq (m_key m) k) eqn:E; [|done]. apply streq_spec in E. congruence.
Qed.

Lemma remove_sublist k ms : keys (removeMessageByKey ms k) `sublist_of` keys ms.
Proof.
  induction ms as [|m ms IH]; simpl; [done|]. destruct (negb _); simpl; by constructor.
Qed.

(** ** Lemmas on the hook *)

Lemma second_last_snoc ms u a : second_last_message (ms ++ [u; a]) = Some u.
Proof.
  unfold second_last_message. change [u; a] with ([u] ++ [a]).
  by rewrite app_assoc, removelast_last, last_snoc.
Qed.

Lemma last_message_snoc ms u a : last_message (ms ++ [u; a]) = Some a.
Proof. unfold last_message. change [u; a] with ([u] ++ [a]). by rewrite app_assoc, last_snoc. Qed.

Lemma removelast_snoc2 (ms : list Message) u a : removelast (removelast (ms ++ [u; a])) = ms.
Proof.
  change [u; a] with ([u] ++ [a]). rewrite app_assoc, removelast_last. by rewrite removelast_last.
Qed.

Lemma resume_epoch k b h : h_draftOwnershipEpoch (resume k b h) = h_draftOwnershipEpoch h.
Proof. destruct k as [ms e|[d|] ms e]; simpl; repeat case_match; done. Qed.

Lemma step_epoch h e : (h_draftOwnershipEpoch h ≤ h_draftOwnershipEpoch (hook_step h e))%nat.
Proof.
  destruct e; simpl.
  - unfold handleSendMessage. repeat case_match; simpl; lia.
  - unfold handleRegenerateMessage. repeat case_match; simpl; lia.
  - lia.
  - destruct open; simpl; lia.
  - unfold applyEdit. repeat case_match; simpl; lia.
  - lia.
  - case_match; [rewrite resume_epoch; simpl|]; lia.
Qed.

Lemma run_epoch es h : (h_draftOwnershipEpoch h ≤ h_draftOwnershipEpoch (hook_run h es))%nat.
Proof.
  revert h. induction es as [|e es IH]; intros h; simpl; [lia|].
  etrans; [apply (step_epoch h e)|]. apply IH.
Qed.

Lemma hook_run_app h es1 es2 : hook_run h (es1 ++ es2) = hook_run (hook_run h es1) es2.
Proof. apply foldl_app. Qed.

(** The epoch a continuation belongs to. *)
Definition cont_epoch (k : Continuation) : nat :=
  match k with AfterSend _ e => e | AfterRegenerate _ _ e => e end.

Lemma resume_stale k b h :
  h_draftOwnershipEpoch h ≠ cont_epoch k → resume k b h = h.
Proof.
  intros Hne. destruct k as [ms e|[d|] ms e]; simpl in *; [..|done];
    by destruct (Nat.eqb_spec (h_draftOwnershipEpoch h) e).
Qed.

(** The events that give up the composer's claim on a failed draft. *)
Definition releases (h : Hook) (e : Event) : bool :=
  match e with
  | EEdit _ | EDelete _ => true
  | EEditOpenChange open => negb open
  | ERegenerate rendered m now a _ =>
      match createRegeneratedMessages rendered (m_key m) now a with Some _ => true | None => false end
  | EApplyEdit _ _ _ _ _ _ =>
      match h_editingMessageKey h with Some k => truthy k | None => false end
  | _ => false
  end.

Lemma release_epoch h e :
  releases h e = true → h_draftOwnershipEpoch (hook_step h e) = S (h_draftOwnershipEpoch h).
Proof.
  destruct e; simpl; try done.
  - unfold handleRegenerateMessage. destruct (createRegeneratedMessages _ _ _ _); [|done].
    intros _. repeat case_match; done.
  - destruct open; [done|]. done.
  - unfold applyEdit. destruct (h_editingMessageKey h) as [k|]; [|done]. intros ->. simpl.
    repeat case_match; done.
Qed.

Lemma send_accepted h rendered text atts now u a :
  truthy (trim text) = true →
  let nm := appendUserMessagePair (send_history rendered (h_lastFailedDraft h)) text atts now u a in
  hook_step h (ESend rendered text atts now u a true) =
  mkHook nm (h_editingMessageKey h) (h_completedRetryDraft h) None (h_draftOwnershipEpoch h)
    (h_awaiting h ++ [AfterSend nm (h_draftOwnershipEpoch h)]).
Proof. intros Ht. simpl. unfold handleSendMessage. by rewrite Ht. Qed.

Lemma settle_failed_send h i nm :
  h_awaiting h !! i = Some (AfterSend nm (h_draftOwnershipEpoch h)) →
  hook_step h (ESettle i false) =
  set_lastFailed (draft_of (second_last_message nm) (last_message nm)) (drop_awaiting i h).
Proof. intros Hi. simpl. rewrite Hi. simpl. by rewrite Nat.eqb_refl. Qed.

Lemma draft_of_pair history text atts now u a :
  truthy (id_key u) = true → truthy (id_key a) = true →
  let nm := appendUserMessagePair history text atts now u a in
  draft_of (second_last_message nm) (last_message nm) = Some (mkFailed (id_key u) (id_key a)).
Proof.
  intros Hu Ha. unfold appendUserMessagePair. cbv zeta.
  rewrite second_last_snoc, last_message_snoc. simpl. by rewrite Hu, Ha.
Qed.

Lemma send_history_failed ms um am uk ak :
  m_key um = uk → m_key am = ak →
  send_history (ms ++ [um; am]) (Some (mkFailed uk ak)) = ms.
Proof.
  intros <- <-. unfold send_history. rewrite second_last_snoc, last_message_snoc. simpl.
  rewrite !(proj2 (streq_spec _ _) eq_refl). apply removelast_snoc2.
Qed.

Lemma NoDup_cut {A} (l1 l2 : list A) x u a :
  NoDup ((l1 ++ x :: l2) ++ [u; a]) →
  NoDup (l1 ++ x :: l2) ∧ (x ∉ l1) ∧ (x ∉ l2) ∧ (a ∉ l1 ++ x :: l2) ∧
  NoDup (l1 ++ [x; a]) ∧ NoDup (l1 ++ [a]).
Proof.
  intros H. assert (∀ l, sublist l ((l1 ++ x :: l2) ++ [u; a]) → NoDup l) as Hs.
  { intros l Hl. by eapply sublist_NoDup. }
  assert (sublist [a] (l2 ++ [u; a])) as Ha by (apply sublist_inserts_l; by repeat constructor).
  apply NoDup_app in H as H2. destruct H2 as (H1 & Hd & _).
  apply NoDup_app in H1 as H3. destruct H3 as (_ & Hx & Hc). apply NoDup_cons in Hc as [Hc _].
  split_and!; [done| |done| | |].
  - intros Hin. by destruct (Hx x Hin); left.
  - intros Hin. destruct (Hd a Hin). by right; left.
  - apply Hs. rewrite <-app_assoc. apply sublist_app; [done|]. by constructor.
  - apply Hs. rewrite <-app_assoc. apply sublist_app; [done|]. by constructor.
Qed.

(** ** Properties *)

(** The operations on a conversation with distinct keys. Sending appends the user's
    message and a loading assistant message; regenerating cuts the conversation at the
    chosen message (after it when it is the user's, before it otherwise) and appends a
    loading message; saving an edit rewrites that message only, and submitting the edit of
    a user message also cuts what follows it and appends a loading message; deleting
    removes that message only; an unknown key is refused. In each case the keys stay
    distinct when the new keys are fresh. *)
Theorem conversation_operations (pre post : list Message) (m : Message) (c : jsstr)
    (atts : list ChatAttachment) (sub : bool) (now : Z) (u a : Ids) :
  let ms := pre ++ m :: post in
  let loading := createLoadingAssistantMessage (id_key a) (id_version a) now in
  let m' := edit_message (m_key m) c sub now m in
  NoDup (keys ms ++ [id_key u; id_key a]) →
  NoDup (keys (appendUserMessagePair ms c atts now u a)) ∧
  (∃ regenerated, createRegeneratedMessages ms (m_key m) now a = Some regenerated ∧
    regenerated = pre ++ (if bool_decide (m_from m = User) then [m] else []) ++ [loading] ∧
    NoDup (keys regenerated)) ∧
  (∃ edited, applyMessageEdit ms (m_key m) c sub now a = Some edited ∧
    edited = (if sub && bool_decide (m_from m = User)
              then mkEdit (pre ++ [m'; loading]) true else mkEdit (pre ++ m' :: post) false) ∧
    getMessageContent m' = c ∧ NoDup (keys (e_messages edited))) ∧
  removeMessageByKey ms (m_key m) = pre ++ post ∧
  createRegeneratedMessages ms (id_key a) now a = None ∧
  applyMessageEdit ms (id_key a) c sub now a = None.
Proof.
  intros ms loading m' Hnd.
  assert (keys ms = keys pre ++ m_key m :: keys post) as Hkeys by apply keys_app.
  rewrite Hkeys in Hnd.
  destruct (NoDup_cut _ _ _ _ _ Hnd) as (Hnd' & Hpre & Hpost & Ha & Hcut & Hcut').
  rewrite <-Hkeys in Hnd, Hnd', Ha.
  split_and!.
  - unfold appendUserMessagePair. by rewrite keys_app.
  - eexists. split; [by apply regenerate_split|]. split; [done|]. rewrite !keys_app.
    by case_bool_decide.
  - eexists. split; [by apply edit_split|]. rewrite (edit_other _ _ _ _ post) by done. fold m'.
    assert (m_key m' = m_key m) as Hk by apply edit_key.
    split; [done|]. split.
    + unfold m', edit_message. by rewrite (proj2 (streq_spec _ _) eq_refl).
    + destruct (sub && _); simpl; rewrite keys_app; simpl; rewrite Hk; [done|].
      by rewrite <-Hkeys.
  - unfold removeMessageByKey, ms. rewrite List.filter_app. simpl.
    rewrite (proj2 (streq_spec _ _) eq_refl). simpl.
    fold (removeMessageByKey pre (m_key m)) (removeMessageByKey post (m_key m)).
    by rewrite !remove_absent.
  - unfold createRegeneratedMessages. by rewrite (proj2 (findIndex_None _ _) Ha).
  - unfold applyMessageEdit. by rewrite (proj2 (findIndex_None _ _) Ha).
Qed.

Definition ids1 : Ids := mkIds (js "k1") (js "v1").
Definition ids2 : Ids := mkIds (js "k2") (js "v2").
Definition ids3 : Ids := mkIds (js "k3") (js "v3").
Definition ids4 : Ids := mkIds (js "k4") (js "v4").

Lemma conversation_operations_witness :
  removeMessageByKey (appendUserMessagePair [] (js "hi") [] 1 ids1 ids2) (js "k1") =
  [createLoadingAssistantMessage (js "k2") (js "v2") 1].
Proof.
  set (u := createUserMessage (js "k1") (js "v1") (js "hi") 1 []).
  set (l := createLoadingAssistantMessage (js "k2") (js "v2") 1).
  destruct (conversation_operations [] [l] u (js "yo") [] true 5 ids3 ids4
    ltac:(by apply (bool_decide_unpack _))) as (_ & _ & _ & H & _).
  exact H.
Defined.

(** A draft whose request failed is replaced, not repeated: after a send that failed
    without the user giving the draft up, and after the conversation's tail was rewritten
    by the failure (its keys stay), sending again keeps the history before the failed pair
    and appends the new pair to it. *)
Theorem resend_replaces_failed_draft (rendered rendered' : list Message)
    (text text' : jsstr) (atts atts' : list ChatAttachment) (now now' : Z)
    (u a u' a' : Ids) (um am : Message) (h : Hook) :
  truthy (trim text) = true → truthy (trim text') = true →
  h_lastFailedDraft h = None → h_awaiting h = [] →
  truthy (id_key u) = true → truthy (id_key a) = true →
  rendered' = rendered ++ [um; am] →
  m_key um = id_key u → m_key am = id_key a →
  let h' := hook_run h [ESend rendered text atts now u a true; ESettle 0 false;
                        ESend rendered' text' atts' now' u' a' true] in
  h_messages h' = appendUserMessagePair rendered text' atts' now' u' a' ∧
  h_awaiting h' = [AfterSend (h_messages h') (h_draftOwnershipEpoch h)].
Proof.
  intros Ht Ht' Hf Haw Hu Ha -> Hum Ham. unfold hook_run. cbn [foldl].
  rewrite (send_accepted h) by done. rewrite Hf, Haw. cbv zeta.
  change (send_history rendered None) with rendered.
  erewrite settle_failed_send; [|done]. rewrite draft_of_pair by done.
  rewrite send_accepted by done.
  cbn [set_lastFailed drop_awaiting h_messages h_awaiting h_lastFailedDraft h_draftOwnershipEpoch].
  by rewrite send_history_failed.
Qed.

Definition hook0 : Hook := mkHook [] None None None 0 [].

Lemma resend_replaces_failed_draft_witness :
  h_messages (hook_run hook0
    [ESend [] (js "hi") [] 1 ids1 ids2 true; ESettle 0 false;
     ESend (updateAssistantMessageWithError (appendUserMessagePair [] (js "hi") [] 1 ids1 ids2)
       (js "down") None (js "Error") 2) (js "hello") [] 3 ids3 ids4 true]) =
  appendUserMessagePair [] (js "hello") [] 3 ids3 ids4.
Proof.
  set (um := createUserMessage (js "k1") (js "v1") (js "hi") 1 []).
  set (am := error_updater (js "down") None (js "Error") 2
    (createLoadingAssistantMessage (js "k2") (js "v2") 1)).
  destruct (resend_replaces_failed_draft [] [um; am] (js "hi") (js "hello") [] [] 1 3
    ids1 ids2 ids3 ids4 um am hook0 eq_refl eq_refl eq_refl eq_refl eq_refl eq_refl eq_refl
    eq_refl eq_refl) as [H _].
  exact H.
Defined.

(** A failure that arrives after the user gave the draft up (by editing, deleting,
    regenerating or closing the editor) changes nothing: whatever else happened in
    between, the continuation of the earlier request leaves the state as it is. *)
Theorem late_settlement_ignored (h : Hook) (k : Continuation) (es1 es2 : list Event)
    (e : Event) (success : bool) :
  (cont_epoch k ≤ h_draftOwnershipEpoch h)%nat →
  releases (hook_run h es1) e = true →
  let h' := hook_run h (es1 ++ e :: es2) in
  resume k success h' = h'.
Proof.
  intros Hk Hr h'. apply resume_stale. unfold h'. rewrite hook_run_app. simpl.
  pose proof (run_epoch es1 h). pose proof (release_epoch _ _ Hr).
  pose proof (run_epoch es2 (hook_step (hook_run h es1) e)). unfold hook_run in *. lia.
Qed.

Lemma late_settlement_ignored_witness :
  let h := hook_run hook0 [ESend [] (js "hi") [] 1 ids1 ids2 true] in
  let k := AfterSend (appendUserMessagePair [] (js "hi") [] 1 ids1 ids2) 0 in
  let m := createUserMessage (js "k1") (js "v1") (js "hi") 1 [] in
  h_awaiting h = [k] ∧
  resume k false (hook_run h [EEdit m]) = hook_run h [EEdit m].
Proof.
  split; [by vm_compute|].
  apply (late_settlement_ignored (hook_run hook0 [ESend [] (js "hi") [] 1 ids1 ids2 true])
    (AfterSend (appendUserMessagePair [] (js "hi") [] 1 ids1 ids2) 0) [] []); [done|done].
Defined.

End Conversation.
