(* ===== verification/Payload.v ===== *)
(** * Requests of the playground
      (web/src/features/playground/lib/streaming/payload-builder.ts,
       lib/parameters/strict-chat-parameters.ts, playground-parameters.ts, api.ts,
       lib/options/playground-option-utils.ts, lib/playground-key-handoff.ts)

    The payload of a chat completion, the keys a user can send with and how they are
    read from the server's pages, and the one-shot hand-over of a key to the
    playground. *)
From S2P Require Import Prelude JsString JsValue Message.
Import Msg.
Local Open Scope Z_scope.

Module Payload.

Record PlaygroundConfig := mkConfig {
  keyId : option jsnum;      (* absent or null: [None] *)
  model : jsstr;
  group : jsstr;
  temperature : jsnum;
  top_p : jsnum;
  max_tokens : jsnum;
  frequency_penalty : jsnum;
  presence_penalty : jsnum;
  seed : option jsnum;
  stream : bool
}.

Inductive PlaygroundParameterKey :=
| Ktemperature | Ktop_p | Kmax_tokens | Kfrequency_penalty | Kpresence_penalty | Kseed.

#[export] Instance PlaygroundParameterKey_eq_dec : EqDecision PlaygroundParameterKey.
Proof. solve_decision. Defined.

Record ParameterEnabled := mkEnabled {
  en_temperature : bool; en_top_p : bool; en_max_tokens : bool;
  en_frequency_penalty : bool; en_presence_penalty : bool; en_seed : bool
}.

Record PlaygroundKey := mkKey {
  strict_token_budget : option bool;
  k_id : jsnum;
  k_name : jsstr;
  k_status : jsnum;
  k_group : jsstr;
  remain_quota : jsnum;
  unlimited_quota : bool;
  expired_time : jsnum
}.

Record ChatCompletionRequest := mkRequest {
  p_model : jsstr;
  p_messages : list ChatCompletionMessage;
  p_stream : bool;
  p_temperature : option jsnum;
  p_top_p : option jsnum;
  p_max_tokens : option jsnum;
  p_service_tier : option jsstr;
  p_max_completion_tokens : option jsnum;
  p_stream_options : option bool;     (* [{ include_usage: true }] *)
  p_frequency_penalty : option jsnum;
  p_presence_penalty : option jsnum;
  p_seed : option jsnum
}.

(** ** strict-chat-parameters.ts *)

Definition STRICT_CHAT_MAX_TOKENS : Z := 128000.
Definition DEFAULT_MAX_TOKENS : Z := 4096.

Definition STRICT_CHAT_UNSUPPORTED_PARAMETERS : list PlaygroundParameterKey :=
  [Ktemperature; Ktop_p; Kfrequency_penalty; Kpresence_penalty; Kseed].

(** [selectedKey.id === config.keyId], a number against a number, null or undefined. *)
Definition same_key (k : jsnum) (configured : option jsnum) : bool :=
  match configured with Some c => num_eqb k c | None => false end.

Definition usesStrictChatParameters (config : PlaygroundConfig)
    (selectedKey : option PlaygroundKey) : bool :=
  match selectedKey with
  | Some k =>
      bool_decide (strict_token_budget k = Some true) && same_key (k_id k) (keyId config) &&
      streq (model config) (js "gpt-6.1-sol")
  | None => false
  end.

Definition normalizeStrictChatMaxTokens (v : jsnum) : jsnum :=
  if negb (isFinite v) then num_of_Z DEFAULT_MAX_TOKENS
  else math_min (num_of_Z STRICT_CHAT_MAX_TOKENS) (math_max (num_of_Z 1) (math_trunc v)).

(** ** playground-parameters.ts *)

Definition disable (e : ParameterEnabled) (k : PlaygroundParameterKey) : ParameterEnabled :=
  match k with
  | Ktemperature => mkEnabled false (en_top_p e) (en_max_tokens e) (en_frequency_penalty e)
      (en_presence_penalty e) (en_seed e)
  | Ktop_p => mkEnabled (en_temperature e) false (en_max_tokens e) (en_frequency_penalty e)
      (en_presence_penalty e) (en_seed e)
  | Kmax_tokens => mkEnabled (en_temperature e) (en_top_p e) false (en_frequency_penalty e)
      (en_presence_penalty e) (en_seed e)
  | Kfrequency_penalty => mkEnabled (en_temperature e) (en_top_p e) (en_max_tokens e) false
      (en_presence_penalty e) (en_seed e)
  | Kpresence_penalty => mkEnabled (en_temperature e) (en_top_p e) (en_max_tokens e)
      (en_frequency_penalty e) false (en_seed e)
  | Kseed => mkEnabled (en_temperature e) (en_top_p e) (en_max_tokens e)
      (en_frequency_penalty e) (en_presence_penalty e) false
  end.

Definition enabled (e : ParameterEnabled) (k : PlaygroundParameterKey) : bool :=
  match k with
  | Ktemperature => en_temperature e | Ktop_p => en_top_p e | Kmax_tokens => en_max_tokens e
  | Kfrequency_penalty => en_frequency_penalty e | Kpresence_penalty => en_presence_penalty e
  | Kseed => en_seed e
  end.

Definition applyUnsupportedParameterRestrictions (e : ParameterEnabled)
    (unsupported : list PlaygroundParameterKey) : ParameterEnabled :=
  match unsupported with [] => e | _ => foldl disable e unsupported end.

(** ** payload-builder.ts *)

Definition buildChatCompletionPayload (messages : list Message) (config : PlaygroundConfig)
    (e : ParameterEnabled) (selectedKey : option PlaygroundKey) : ChatCompletionRequest :=
  let processedMessages := map formatMessageForAPI (List.filter isValidMessage messages) in
  if usesStrictChatParameters config selectedKey then
    mkRequest (model config) processedMessages (stream config) None None None
      (Some (js "default")) (Some (normalizeStrictChatMaxTokens (max_tokens config)))
      (if stream config then Some true else None) None None None
  else
    mkRequest (model config) processedMessages (stream config)
      (if en_temperature e then Some (temperature config) else None)
      (if en_top_p e then Some (top_p config) else None)
      (if en_max_tokens e then Some (max_tokens config) else None)
      None None None
      (if en_frequency_penalty e then Some (frequency_penalty config) else None)
      (if en_presence_penalty e then Some (presence_penalty config) else None)
      (if en_seed e then seed config else None).

(** The value the payload carries for a parameter. *)
Definition payload_parameter (p : ChatCompletionRequest) (k : PlaygroundParameterKey) :
    option jsnum :=
  match k with
  | Ktemperature => p_temperature p | Ktop_p => p_top_p p | Kmax_tokens => p_max_tokens p
  | Kfrequency_penalty => p_frequency_penalty p | Kpresence_penalty => p_presence_penalty p
  | Kseed => p_seed p
  end.

Definition config_parameter (c : PlaygroundConfig) (k : PlaygroundParameterKey) :
    option jsnum :=
  match k with
  | Ktemperature => Some (temperature c) | Ktop_p => Some (top_p c)
  | Kmax_tokens => Some (max_tokens c) | Kfrequency_penalty => Some (frequency_penalty c)
  | Kpresence_penalty => Some (presence_penalty c) | Kseed => seed c
  end.

(** ** api.ts *)

Definition getPlaygroundKeyHeaders (key : jsnum) : result jsstr (list (jsstr * jsstr)) :=
  match as_integer key with
  | Some z =>
      if isSafeInteger key && (0 <? z) then Ok [(js "X-MyAPI-Key-ID", show_Z z)]
      else Throw (js "Select an available API key before sending")
  | None => Throw (js "Select an available API key before sending")
  end.

(** One element of [response.data.items]. *)
Definition parse_key (item : value) : list PlaygroundKey :=
  if negb (value_truthy item) || negb (is_object_type item) then []
  else
    match get item (js "id"), get item (js "name"), get item (js "status"),
      get item (js "group"), get item (js "remain_quota"), get item (js "unlimited_quota"),
      get item (js "expired_time") with
    | Num id, Str name, Num status, Str grp, Num remain, Bool unlimited, Num expired =>
        if isSafeInteger id && num_lt (num_of_Z 0) id then
          [mkKey (match get item (js "strict_token_budget") with
                  | Bool b => Some b | _ => None end)
             id name status grp remain unlimited expired]
        else []
    | _, _, _, _, _, _, _ => []
    end.

Definition parsePlaygroundKeys (payload : value) : list PlaygroundKey :=
  if negb (value_truthy payload) || negb (is_object_type payload) then []
  else if negb (is_true (get payload (js "success"))) then []
  else
    match get (get payload (js "data")) (js "items") with
    | Arr items => flat_map parse_key items
    | _ => []
    end.

Definition isPlaygroundKeyAvailable (key : PlaygroundKey) (now_seconds : jsnum) : bool :=
  num_eqb (k_status key) (num_of_Z 1) &&
  (num_eqb (expired_time key) (num_of_Z (-1)) || num_lt now_seconds (expired_time key)) &&
  (unlimited_quota key || num_lt (num_of_Z 0) (remain_quota key)).

(** The paging loop of [getPlaygroundKeys]: [server page] is the response's data.
    [None]: the fuel ran out. *)
Definition FAILED_TO_LOAD : jsstr := js "Failed to load API keys".

Definition page_total (response : value) : option jsnum :=
  match get (get response (js "data")) (js "total") with Num n => Some n | _ => None end.

Fixpoint load_pages (fuel : nat) (server : Z → value) (page : Z) (keys : list PlaygroundKey) :
    option (result jsstr (list PlaygroundKey)) :=
  match fuel with
  | O => None
  | S f =>
      let response := server page in
      if negb (is_true (get response (js "success"))) then Some (Throw FAILED_TO_LOAD)
      else
        let items := parsePlaygroundKeys response in
        let keys' := keys ++ items in
        match page_total response with
        | None => Some (Ok keys')
        | Some total =>
            if num_le total (num_of_Z (Z.of_nat (length keys'))) ||
               match items with [] => true | _ => false end
            then Some (Ok keys')
            else load_pages f server (page + 1) keys'
        end
  end.

(** ** playground-option-utils.ts *)

Definition getModelFallback (models : list jsstr) (currentModel : jsstr) : option jsstr :=
  if existsb (λ m, streq m currentModel) models then None else head models.

Definition shouldClearModelForGroup (models : list jsstr) (currentModel : jsstr) : bool :=
  if negb (truthy currentModel) then false
  else negb (existsb (λ m, streq m currentModel) models).

Definition getGroupFallback (groups : list jsstr) (currentGroup : jsstr) : option jsstr :=
  if existsb (λ g, streq g currentGroup) groups then None
  else match List.find (λ g, streq g (js "default")) groups with
       | Some g => Some g
       | None => head groups
       end.

(** ** playground-key-handoff.ts *)

Definition HANDOFF_MAX_AGE_MS : Z := 30000.

Record PendingPlaygroundKeyHandoff := mkPending {
  requestId : Z; h_userId : Z; h_sessionId : option jsstr; h_keyId : Z; createdAt : Z
}.

Inductive PlaygroundKeyHandoff :=
| HandoffNone
| HandoffRejected (requestId : Z)
| HandoffAccepted (requestId keyId : Z).

(** The module's two variables. *)
Record Handoff := mkHandoff {
  pendingHandoff : option PendingPlaygroundKeyHandoff; nextRequestId : Z
}.

Definition createPlaygroundKeyHandoff (userId : jsnum) (sessionId : option jsstr)
    (key : jsnum) (now : Z) (s : Handoff) : Handoff :=
  match as_integer userId, as_integer key with
  | Some u, Some k =>
      if isSafeInteger userId && (0 <? u) && isSafeInteger key && (0 <? k) then
        mkHandoff (Some (mkPending (nextRequestId s) u sessionId k now)) (nextRequestId s + 1)
      else mkHandoff None (nextRequestId s)
  | _, _ => mkHandoff None (nextRequestId s)
  end.

Definition readPlaygroundKeyHandoff (userId : Z) (sessionId : option jsstr) (now : Z)
    (s : Handoff) : PlaygroundKeyHandoff :=
  match pendingHandoff s with
  | None => HandoffNone
  | Some p =>
      if (HANDOFF_MAX_AGE_MS <? now - createdAt p) || negb (h_userId p =? userId) ||
         negb (bool_decide (h_sessionId p = sessionId))
      then HandoffRejected (requestId p)
      else HandoffAccepted (requestId p) (h_keyId p)
  end.

Definition completePlaygroundKeyHandoff (id : Z) (s : Handoff) : Handoff :=
  match pendingHandoff s with
  | Some p => if requestId p =? id then mkHandoff None (nextRequestId s) else s
  | None => s
  end.

(** ** Lemmas *)

Lemma strict_max_tokens v :
  ∃ n, normalizeStrictChatMaxTokens v = num_of_Z n ∧ 1 ≤ n ≤ STRICT_CHAT_MAX_TOKENS ∧
    (∀ z, v = num_of_Z z → n = Z.min STRICT_CHAT_MAX_TOKENS (Z.max 1 z)).
Proof.
  assert (∀ z, num_of_Z z ≠ NaN ∧ num_of_Z z ≠ PosInf ∧ num_of_Z z ≠ NegInf) as Hz by done.
  unfold normalizeStrictChatMaxTokens. destruct v as [| | |q]; simpl.
  1-3: exists DEFAULT_MAX_TOKENS; split_and!; [done..|]; intros z ?; exfalso; naive_solver.
  rewrite math_max_Z, math_min_Z. eexists. split; [done|].
  unfold STRICT_CHAT_MAX_TOKENS. split; [lia|]. intros z Hq.
  assert (qtrunc q = z) as ->; [|done].
  apply (f_equal math_trunc) in Hq. simpl in Hq.
  apply num_of_Z_inj. rewrite Hq. apply math_trunc_Z.
Qed.

Lemma disable_enabled e k k' :
  enabled (disable e k) k' = enabled e k' && negb (bool_decide (k = k')).
Proof. destruct k, k', e; simpl; by rewrite ?andb_true_r, ?andb_false_r. Qed.

Lemma restrictions_enabled e ks k :
  enabled (applyUnsupportedParameterRestrictions e ks) k =
  enabled e k && negb (bool_decide (k ∈ ks)).
Proof.
  assert (∀ e, enabled (foldl disable e ks) k = enabled e k && negb (bool_decide (k ∈ ks))) as H.
  { induction ks as [|k' ks IH]; intros e'; cbn [foldl].
    - by rewrite bool_decide_eq_false_2, andb_true_r by set_solver.
    - rewrite IH, disable_enabled, <-andb_assoc, <-negb_orb. do 2 f_equal.
      apply eq_true_iff_eq. rewrite orb_true_iff, !bool_decide_eq_true. set_solver. }
  rewrite <-H. by destruct ks.
Qed.

Lemma payload_parameter_value ms c e sel k :
  payload_parameter (buildChatCompletionPayload ms c e sel) k =
  if usesStrictChatParameters c sel then None
  else if enabled e k then config_parameter c k else None.
Proof.
  unfold buildChatCompletionPayload. destruct (usesStrictChatParameters c sel), k; done.
Qed.

(** ** Properties of the payload *)

(** The payload of a chat completion: its messages are the valid ones, formatted and
    in order; each optional parameter is sent exactly when it is enabled and not
    restricted for the model (and the seed is set), with the configured value; under a
    strict key none of them is sent, the token limit is an integer between 1 and 128000
    (the configured one when it is in that range), and usage is asked for exactly when
    streaming. *)
Theorem payload_parameters (ms : list Message) (c : PlaygroundConfig) (e : ParameterEnabled)
    (unsupported : list PlaygroundParameterKey) (sel : option PlaygroundKey) :
  let p := buildChatCompletionPayload ms c
    (applyUnsupportedParameterRestrictions e unsupported) sel in
  p_messages p = map formatMessageForAPI (List.filter isValidMessage ms) ∧
  p_stream p = stream c ∧
  (∀ k, payload_parameter p k =
    if negb (usesStrictChatParameters c sel) && enabled e k && negb (bool_decide (k ∈ unsupported))
    then config_parameter c k else None) ∧
  if usesStrictChatParameters c sel then
    p_service_tier p = Some (js "default") ∧
    (∃ n, p_max_completion_tokens p = Some (num_of_Z n) ∧ 1 ≤ n ≤ 128000 ∧
      (∀ z, max_tokens c = num_of_Z z → 1 ≤ z ≤ 128000 → n = z)) ∧
    (p_stream_options p = Some true ↔ stream c = true)
  else p_service_tier p = None ∧ p_max_completion_tokens p = None ∧ p_stream_options p = None.
Proof.
  cbv zeta. split_and!.
  - unfold buildChatCompletionPayload. by case_match.
  - unfold buildChatCompletionPayload. by case_match.
  - intros k. rewrite payload_parameter_value, restrictions_enabled.
    by destruct (usesStrictChatParameters c sel), (enabled e k).
  - unfold buildChatCompletionPayload. destruct (usesStrictChatParameters c sel); [|done]. simpl.
    destruct (strict_max_tokens (max_tokens c)) as (n & -> & Hn & Hz).
    split_and!; [done| |by destruct (stream c)].
    exists n. split_and!; [done|unfold STRICT_CHAT_MAX_TOKENS in *; lia..|].
    intros z Hc Hr. rewrite (Hz z Hc). unfold STRICT_CHAT_MAX_TOKENS. lia.
Qed.

(** ** Reading the pages of keys *)

(** A server that holds [items] and answers page [p] with at most 100 of them. *)
Definition page_items (items : list value) (p : Z) : list value :=
  take 100 (drop (Z.to_nat (100 * (p - 1))) items).

Definition key_server (items : list value) (p : Z) : value :=
  Obj [(js "success", Bool true);
       (js "data", Obj [(js "items", Arr (page_items items p));
                        (js "total", Num (num_of_Z (Z.of_nat (length items))))])].

Definition valid_item (v : value) : Prop := ∃ k, parse_key v = [k].

Lemma key_server_parse items p :
  is_true (get (key_server items p) (js "success")) = true ∧
  parsePlaygroundKeys (key_server items p) = flat_map parse_key (page_items items p) ∧
  page_total (key_server items p) = Some (num_of_Z (Z.of_nat (length items))).
Proof. done. Qed.

Lemma valid_length items :
  Forall valid_item items → length (flat_map parse_key items) = length items.
Proof. induction 1 as [|v items [k Hk] _ IH]; simpl; [done|]. rewrite Hk. simpl. by rewrite IH. Qed.

Lemma flat_map_take_page items i :
  flat_map parse_key (take (100 * i) items) ++
  flat_map parse_key (page_items items (Z.of_nat i + 1)) =
  flat_map parse_key (take (100 * S i) items).
Proof.
  unfold page_items. replace (Z.to_nat (100 * (Z.of_nat i + 1 - 1))) with (100 * i)%nat by lia.
  rewrite <-flat_map_app. f_equal. replace (100 * S i)%nat with (100 * i + 100)%nat by lia.
  by rewrite take_take_drop.
Qed.

Lemma load_pages_ok items fuel i :
  Forall valid_item items →
  (0 < fuel)%nat → (length items ≤ 100 * i + 100 * fuel)%nat →
  load_pages fuel (key_server items) (Z.of_nat i + 1) (flat_map parse_key (take (100 * i) items)) =
  Some (Ok (flat_map parse_key items)).
Proof.
  intros Hv. revert i. induction fuel as [|fuel IH]; intros i Hf Hlen; [lia|].
  cbn [load_pages]. destruct (key_server_parse items (Z.of_nat i + 1)) as (-> & -> & ->).
  cbn [negb]. rewrite flat_map_take_page, num_le_Z, valid_length by by apply Forall_take.
  rewrite length_take. case_bool_decide as Hc; simpl orb.
  { rewrite take_ge by lia. done. }
  assert (flat_map parse_key (page_items items (Z.of_nat i + 1)) ≠ []) as Hne.
  { intros Hn. apply (f_equal length) in Hn. unfold page_items in Hn.
    rewrite valid_length in Hn by (by apply Forall_take, Forall_drop).
    rewrite length_take, length_drop in Hn. cbn [length] in Hn. lia. }
  destruct (flat_map parse_key (page_items items (Z.of_nat i + 1))); [done|].
  replace (Z.of_nat i + 1 + 1) with (Z.of_nat (S i) + 1) by lia. apply IH; lia.
Qed.

(** The loop returns whenever the totals the server names are bounded. *)
Lemma load_pages_returns server N fuel p keys :
  (∀ q total, page_total (server q) = Some total → num_le total (num_of_Z N) = true) →
  N < Z.of_nat (length keys) + Z.of_nat fuel → 0 < Z.of_nat fuel →
  ∃ r, load_pages fuel server p keys = Some r.
Proof.
  intros Hb. revert p keys. induction fuel as [|fuel IH]; intros p keys Hf H0; [lia|].
  cbn [load_pages]. destruct (negb _); [eauto|].
  destruct (page_total (server p)) as [total|] eqn:Et; [|eauto].
  destruct (parsePlaygroundKeys (server p)) as [|k items]; [rewrite orb_true_r; eauto|].
  destruct (_ || _) eqn:E; [eauto|]. rewrite orb_false_r in E.
  apply IH; rewrite ?length_app; simpl; [lia|].
  destruct fuel; [|lia]. exfalso. pose proof (Hb _ _ Et) as Ht.
  rewrite (num_le_trans _ _ _ Ht) in E; [done|]. rewrite num_le_Z, length_app. simpl.
  apply bool_decide_eq_true. lia.
Qed.

(** Reading a user's keys page by page: against any server whose totals are bounded
    the loop returns; against one that pages through valid entries, 100 at a time, it
    returns all of them in order. *)
Theorem key_pages_complete (server : Z → value) (N : Z) (items : list value) :
  (∀ q total, page_total (server q) = Some total → num_le total (num_of_Z N) = true) →
  0 ≤ N →
  Forall valid_item items →
  (∃ r, load_pages (S (Z.to_nat N)) server 1 [] = Some r) ∧
  load_pages (S (length items / 100)) (key_server items) 1 [] =
    Some (Ok (flat_map parse_key items)) ∧
  length (flat_map parse_key items) = length items.
Proof.
  intros Hb HN Hv. split_and!.
  - apply (load_pages_returns server N); simpl; [done|lia..].
  - apply (load_pages_ok items _ 0); [done|lia|].
    pose proof (Nat.div_mod_eq (length items) 100).
    pose proof (Nat.mod_upper_bound (length items) 100). lia.
  - by apply valid_length.
Qed.

Definition example_key (id : Z) : value :=
  Obj [(js "id", Num (num_of_Z id)); (js "name", Str (js "k")); (js "status", Num (num_of_Z 1));
       (js "group", Str (js "default")); (js "remain_quota", Num (num_of_Z 5));
       (js "unlimited_quota", Bool false); (js "expired_time", Num (num_of_Z (-1)))].

Lemma key_pages_complete_witness :
  load_pages 1 (key_server [example_key 3; example_key 4]) 1 [] =
    Some (Ok (parse_key (example_key 3) ++ parse_key (example_key 4))) ∧
  length (parse_key (example_key 3)) = 1%nat.
Proof.
  assert (Forall valid_item [example_key 3; example_key 4]) as Hv.
  { repeat constructor; eexists; by vm_compute. }
  split; [|by vm_compute].
  exact (proj1 (proj2 (key_pages_complete (λ _, Null) 0 [example_key 3; example_key 4]
    ltac:(done) ltac:(done) Hv))).
Defined.

(** A page whose entries are all refused ends the loop: the keys of the pages after
    it are not read, although the total says they exist. *)
Theorem refused_page_hides_the_rest (bad good : list value) :
  length bad = 100%nat →
  Forall (λ v, parse_key v = []) bad →
  good ≠ [] →
  load_pages 2 (key_server (bad ++ good)) 1 [] = Some (Ok []).
Proof.
  intros Hl Hb Hg. cbn [load_pages].
  destruct (key_server_parse (bad ++ good) 1) as (-> & -> & ->). cbn [negb].
  assert (flat_map parse_key (page_items (bad ++ good) 1) = []) as ->.
  { unfold page_items. simpl Z.to_nat. rewrite drop_0, <-Hl, take_app_length. clear Hl.
    induction Hb as [|v bad Hv _ IH]; simpl; [done|]. by rewrite Hv. }
  by rewrite orb_true_r.
Qed.

Lemma refused_page_hides_the_rest_witness :
  load_pages 2 (key_server (replicate 100 Null ++ [example_key 3])) 1 [] = Some (Ok []).
Proof.
  apply refused_page_hides_the_rest; [done| |done].
  apply Forall_forall. intros v ->%elem_of_replicate_inv. done.
Defined.

(** ** The hand-over of a key *)

Inductive HandoffEvent :=
| HCreate (userId : jsnum) (sessionId : option jsstr) (key : jsnum) (now : Z)
| HComplete (id : Z).

Definition handoff_step (s : Handoff) (e : HandoffEvent) : Handoff :=
  match e with
  | HCreate u sid k now => createPlaygroundKeyHandoff u sid k now s
  | HComplete id => completePlaygroundKeyHandoff id s
  end.

Definition handoff_run (s : Handoff) (es : list HandoffEvent) : Handoff := foldl handoff_step s es.

Definition handoff_init : Handoff := mkHandoff None 1.

(** A pending hand-over carries the id drawn last but unused since. *)
Definition handoff_inv (s : Handoff) : Prop :=
  ∀ p, pendingHandoff s = Some p →
    requestId p < nextRequestId s ∧ 0 < h_userId p ≤ MAX_SAFE ∧ 0 < h_keyId p ≤ MAX_SAFE.

Lemma safe_positive n z :
  as_integer n = Some z → isSafeInteger n = true → (0 <? z) = true → 0 < z ≤ MAX_SAFE.
Proof.
  unfold isSafeInteger. intros ->. rewrite andb_true_iff. rewrite Z.ltb_lt, !Z.leb_le. lia.
Qed.

Lemma handoff_step_inv s e :
  handoff_inv s →
  handoff_inv (handoff_step s e) ∧ nextRequestId s ≤ nextRequestId (handoff_step s e) ∧
  (∀ p, pendingHandoff (handoff_step s e) = Some p →
     pendingHandoff s = Some p ∨ requestId p = nextRequestId s).
Proof.
  intros Hs. unfold handoff_inv. destruct e as [u sid k now|id]; simpl.
  - unfold createPlaygroundKeyHandoff.
    destruct (as_integer u) as [uz|] eqn:Eu; [|simpl; split_and!; [done|lia|done]].
    destruct (as_integer k) as [kz|] eqn:Ek; [|simpl; split_and!; [done|lia|done]].
    destruct (_ && _) eqn:E; simpl; [|split_and!; [done|lia|done]].
    rewrite !andb_true_iff in E. destruct E as [[[E1 E2] E3] E4].
    split_and!; [|lia|intros p [= <-]; by right].
    intros p [= <-]. simpl. split_and!; [lia|by eapply safe_positive..].
  - unfold completePlaygroundKeyHandoff. destruct (pendingHandoff s) as [p|] eqn:Ep; simpl.
    + destruct (requestId p =? id); simpl; [split_and!; [done|lia|done]|].
      rewrite Ep. split_and!; [|lia|auto]. intros p' [= <-]. auto.
    + rewrite Ep. split_and!; [done|lia|done].
Qed.

Lemma handoff_run_inv s es : handoff_inv s →
  handoff_inv (handoff_run s es) ∧ nextRequestId s ≤ nextRequestId (handoff_run s es) ∧
  (∀ p, pendingHandoff (handoff_run s es) = Some p →
     pendingHandoff s = Some p ∨ nextRequestId s ≤ requestId p).
Proof.
  revert s. induction es as [|e es IH]; intros s Hs; simpl; [split_and!; [done|lia|auto]|].
  destruct (handoff_step_inv s e Hs) as (H1 & H2 & H3).
  destruct (IH _ H1) as (H4 & H5 & H6). split_and!; [done|unfold handoff_run in *; lia|].
  intros p Hp. destruct (H6 p Hp) as [H|H]; [|right; lia].
  destruct (H3 p H) as [?| ->]; [auto|right; lia].
Qed.

(** The hand-over of a key to the playground, over any sequence of creations and
    completions. A read accepts a key only for the user and session that handed it over
    and for 30 seconds, and names the id of that hand-over; completing that id, at any
    later time, clears it or a hand-over that is gone already, and never a newer one. *)
Theorem handoff_single_use (es es' : list HandoffEvent) (userId : Z) (sessionId : option jsstr)
    (now id key : Z) :
  let s := handoff_run handoff_init es in
  let s' := handoff_run s es' in
  readPlaygroundKeyHandoff userId sessionId now s = HandoffAccepted id key →
  (∃ created, pendingHandoff s = Some (mkPending id userId sessionId key created) ∧
    now - created ≤ 30000 ∧ 0 < key ≤ MAX_SAFE) ∧
  pendingHandoff (completePlaygroundKeyHandoff id s) = None ∧
  (pendingHandoff s' = pendingHandoff s ∨
   completePlaygroundKeyHandoff id s' = s').
Proof.
  intros s s' Hr. assert (handoff_inv s) as Hs by (apply handoff_run_inv; done).
  unfold readPlaygroundKeyHandoff in Hr. destruct (pendingHandoff s) as [p|] eqn:Ep; [|done].
  destruct (_ || _) eqn:E; [done|]. injection Hr as <- <-.
  rewrite !orb_false_iff in E. destruct E as [[E1 E2] E3].
  apply Z.ltb_ge in E1. apply negb_false_iff in E2, E3. apply Z.eqb_eq in E2.
  apply bool_decide_eq_true in E3. destruct (Hs _ Ep) as (Hid & _ & Hk). split_and!.
  - exists (createdAt p). split_and!; [|unfold HANDOFF_MAX_AGE_MS in *; lia|lia..].
    subst. by destruct p.
  - unfold completePlaygroundKeyHandoff. by rewrite Ep, Z.eqb_refl.
  - destruct (handoff_run_inv s es' Hs) as (_ & _ & Hn). fold s' in Hn.
    unfold completePlaygroundKeyHandoff. destruct (pendingHandoff s') as [p'|] eqn:Ep'; [|by right].
    destruct (Hn p' eq_refl) as [?|Hge]; [left; congruence|]. right.
    destruct (Z.eqb_spec (requestId p') (requestId p)); [lia|done].
Qed.

Lemma handoff_single_use_witness :
  let s := handoff_run handoff_init [HCreate (num_of_Z 7) None (num_of_Z 3) 1000] in
  readPlaygroundKeyHandoff 7 None 2000 s = HandoffAccepted 1 3 ∧
  pendingHandoff (completePlaygroundKeyHandoff 1 s) = None.
Proof.
  assert (readPlaygroundKeyHandoff 7 None 2000
    (handoff_run handoff_init [HCreate (num_of_Z 7) None (num_of_Z 3) 1000]) =
    HandoffAccepted 1 3) as H by by vm_compute.
  split; [exact H|].
  exact (proj1 (proj2 (handoff_single_use [HCreate (num_of_Z 7) None (num_of_Z 3) 1000] []
    7 None 2000 1 3 H))).
Defined.

End Payload.
