(* ===== verification/Attachments.v ===== *)
(** * Attachments
      (web/src/features/playground/lib/input/chat-attachments.ts)

    What a file must satisfy to be attached, the check of its first bytes, and the limits
    of a whole conversation. A failed check throws; the model returns the thrown text. *)
From S2P Require Import Prelude JsString Message.
Import Msg.
Local Open Scope Z_scope.

Module Attachments.

Definition PDF : jsstr := js "application/pdf".
Definition IMAGE_MIME_TYPES : list jsstr :=
  [js "image/png"; js "image/jpeg"; js "image/webp"; js "image/gif"].
Definition ATTACHMENT_MIME_TYPES : list jsstr := IMAGE_MIME_TYPES ++ [PDF].
Definition MAX_ATTACHMENT_COUNT : Z := 4.
Definition MAX_ATTACHMENT_BYTES : Z := 10 * 1024 * 1024.
Definition MAX_TOTAL_ATTACHMENT_BYTES : Z := 20 * 1024 * 1024.

(** The properties of a [File] the code reads. *)
Record File := mkFile { f_name : jsstr; f_type : jsstr; f_size : Z }.

(** [new TextEncoder().encode(s).length]: a surrogate pair takes four bytes, a lone
    surrogate is replaced by U+FFFD, which takes three. *)
Fixpoint utf8_length (s : jsstr) : Z :=
  match s with
  | [] => 0
  | u :: rest =>
      if (u <? 128)%N then 1 + utf8_length rest
      else if (u <? 2048)%N then 2 + utf8_length rest
      else if ((55296 <=? u) && (u <=? 56319))%N then
        match rest with
        | l :: rest' =>
            if ((56320 <=? l) && (l <=? 57343))%N then 4 + utf8_length rest'
            else 3 + utf8_length rest
        | [] => 3
        end
      else 3 + utf8_length rest
  end.

(** No character that is no ASCII letter has one of [.pdf] as its lower case. *)
Definition bad_pdf_name (name : jsstr) : bool :=
  negb (ends_with (js ".pdf") (map ascii_lower name)) || (255 <? utf8_length name) ||
  existsb (λ c, includes_unit c name) [0; 13; 10; 47; 92]%N.

Definition TOO_MANY : jsstr := js "You can attach up to 4 files".
Definition BAD_TYPE : jsstr := js "Only PNG, JPEG, WEBP, GIF and PDF files are supported".
Definition BAD_PDF_NAME : jsstr :=
  js "PDF filenames must end in .pdf, fit within 255 bytes and contain no path separators".
Definition BAD_SIZE : jsstr := js "Each file must be non-empty and no larger than 10 MiB".
Definition BAD_TOTAL : jsstr := js "Attachments must total no more than 20 MiB".
Definition MISSING : jsstr :=
  js "Attachments from a previous session are unavailable. Remove those messages or start a new conversation.".
Definition CONVERSATION_TOO_LARGE : jsstr :=
  js "This conversation exceeds 4 attachments or 20 MiB. Remove earlier attachment messages or start a new conversation.".

(** The body of the loop over the files. *)
Definition check_file (f : File) : option jsstr :=
  if negb (existsb (streq (f_type f)) ATTACHMENT_MIME_TYPES) then Some BAD_TYPE
  else if streq (f_type f) PDF && bad_pdf_name (f_name f) then Some BAD_PDF_NAME
  else if (f_size f =? 0) || (MAX_ATTACHMENT_BYTES <? f_size f) then Some BAD_SIZE
  else None.

Fixpoint check_files (files : list File) : option jsstr :=
  match files with
  | [] => None
  | f :: rest => match check_file f with Some e => Some e | None => check_files rest end
  end.

Definition sum_sizes (sizes : list Z) : Z := foldl Z.add 0 sizes.

Definition validateAttachmentFiles (files : list File) (existing : list ChatAttachment) :
    result jsstr unit :=
  if MAX_ATTACHMENT_COUNT <? Z.of_nat (length files) + Z.of_nat (length existing) then
    Throw TOO_MANY
  else
    match check_files files with
    | Some e => Throw e
    | None =>
        if MAX_TOTAL_ATTACHMENT_BYTES <? sum_sizes (map a_size existing ++ map f_size files)
        then Throw BAD_TOTAL else Ok tt
    end.

(** Bytes as numbers; [bytes[index]] past the end is [undefined], which equals no byte. *)
Definition byte_is (bytes : list N) (i : nat) (b : N) : bool :=
  bool_decide (bytes !! i = Some b).

Fixpoint bytes_match (bytes : list N) (i : nat) (expected : list N) : bool :=
  match expected with
  | [] => true
  | b :: rest => byte_is bytes i b && bytes_match bytes (S i) rest
  end.

Definition PNG_SIGNATURE : list N := [137; 80; 78; 71; 13; 10; 26; 10]%N.

Definition hasMatchingImageSignature (bytes : list N) (mimeType : jsstr) : bool :=
  if streq mimeType (js "image/png") then bytes_match bytes 0 PNG_SIGNATURE
  else if streq mimeType (js "image/jpeg") then
    byte_is bytes 0 255 && byte_is bytes 1 216 && byte_is bytes 2 255
  else
    let signature : jsstr := take 12 bytes in
    if streq mimeType (js "image/gif") then
      starts_with (js "GIF87a") signature || starts_with (js "GIF89a") signature
    else
      streq mimeType (js "image/webp") && starts_with (js "RIFF") signature &&
      streq (slice signature 8 12) (js "WEBP").

(** The check [readChatAttachment] makes of the first decoded bytes. *)
Definition content_matches (bytes : list N) (mimeType : jsstr) : bool :=
  if streq mimeType PDF then streq (take 5 bytes) (js "%PDF-")
  else hasMatchingImageSignature bytes mimeType.

Definition conversation_attachments (messages : list Message) : list ChatAttachment :=
  flat_map (λ m, default [] (m_attachments m)) messages.

Definition validateConversationAttachments (messages : list Message) : result jsstr unit :=
  if existsb (λ m, default false (m_missingAttachments m)) messages then Throw MISSING
  else
    let attachments := conversation_attachments messages in
    if (MAX_ATTACHMENT_COUNT <? Z.of_nat (length attachments)) ||
       (MAX_TOTAL_ATTACHMENT_BYTES <? sum_sizes (map a_size attachments))
    then Throw CONVERSATION_TOO_LARGE else Ok tt.

(** ** What the checks mean *)

Definition pdf_name_ok (name : jsstr) : Prop :=
  (∃ stem ext, name = stem ++ ext ∧ map ascii_lower ext = js ".pdf") ∧ utf8_length name ≤ 255 ∧
  Forall (λ u, u ∉ [0; 13; 10; 47; 92]%N) name.

Definition file_ok (f : File) : Prop :=
  f_type f ∈ ATTACHMENT_MIME_TYPES ∧ (f_type f = PDF → pdf_name_ok (f_name f)) ∧
  f_size f ≠ 0 ∧ f_size f ≤ MAX_ATTACHMENT_BYTES.

Lemma ends_with_spec p s : ends_with p s = true ↔ ∃ stem, s = stem ++ p.
Proof.
  unfold ends_with. rewrite starts_with_spec. split.
  - intros [r Hr]. exists (rev r). apply (f_equal (@rev N)) in Hr.
    by rewrite rev_involutive, rev_app_distr, rev_involutive in Hr.
  - intros [stem ->]. exists (rev stem). by rewrite rev_app_distr.
Qed.

Lemma pdf_suffix_spec name :
  ends_with (js ".pdf") (map ascii_lower name) = true ↔
  ∃ stem ext, name = stem ++ ext ∧ map ascii_lower ext = js ".pdf".
Proof.
  rewrite ends_with_spec. split.
  - intros [stem H]. change (ascii_lower <$> name = stem ++ js ".pdf") in H.
    apply fmap_app_inv in H as (l1 & l2 & _ & Hl2 & ->). by exists l1, l2.
  - intros (stem & ext & -> & <-). exists (map ascii_lower stem). by rewrite map_app.
Qed.

Lemma forbidden_units_spec cs name :
  existsb (λ c, includes_unit c name) cs = false ↔ Forall (λ u, u ∉ cs) name.
Proof.
  induction cs as [|c cs IH]; simpl.
  - split; [|done]. intros _. apply Forall_forall. set_solver.
  - rewrite orb_false_iff, IH. unfold includes_unit. rewrite bool_decide_eq_false.
    rewrite !Forall_forall. set_solver.
Qed.

Lemma bad_pdf_name_spec name : bad_pdf_name name = false ↔ pdf_name_ok name.
Proof.
  unfold bad_pdf_name, pdf_name_ok.
  rewrite !orb_false_iff, negb_false_iff, Z.ltb_ge, pdf_suffix_spec, forbidden_units_spec.
  tauto.
Qed.

Lemma mime_spec t : existsb (streq t) ATTACHMENT_MIME_TYPES = true ↔ t ∈ ATTACHMENT_MIME_TYPES.
Proof.
  rewrite existsb_exists. split.
  - intros (x & Hx & Hs). apply bool_decide_eq_true in Hs as ->. by apply list_elem_of_In.
  - intros H. exists t. split; [by apply list_elem_of_In|]. by apply bool_decide_eq_true.
Qed.

Lemma check_file_spec f : check_file f = None ↔ file_ok f.
Proof.
  unfold check_file, file_ok. rewrite <-mime_spec.
  destruct (existsb (streq (f_type f)) ATTACHMENT_MIME_TYPES); simpl; [|naive_solver].
  unfold streq at 1. case_bool_decide as Ht; simpl.
  - rewrite <-bad_pdf_name_spec. destruct (bad_pdf_name (f_name f)); simpl; [naive_solver|].
    destruct (Z.eqb_spec (f_size f) 0), (Z.ltb_spec MAX_ATTACHMENT_BYTES (f_size f)); simpl;
      naive_solver lia.
  - destruct (Z.eqb_spec (f_size f) 0), (Z.ltb_spec MAX_ATTACHMENT_BYTES (f_size f)); simpl;
      naive_solver lia.
Qed.

Lemma check_files_spec files : check_files files = None ↔ Forall file_ok files.
Proof.
  induction files as [|f files IH]; simpl; [by split|]. rewrite Forall_cons, <-IH, <-check_file_spec.
  destruct (check_file f); naive_solver.
Qed.

Lemma sum_sizes_app a b : sum_sizes (a ++ b) = sum_sizes a + sum_sizes b.
Proof.
  unfold sum_sizes. rewrite foldl_app. generalize (foldl Z.add 0 a) as z.
  induction b as [|x b IH] using rev_ind; intros z; simpl; [lia|].
  rewrite !foldl_app. simpl. rewrite IH. lia.
Qed.

Lemma bytes_match_spec bytes i expected :
  bytes_match bytes i expected = true ↔ expected `prefix_of` drop i bytes.
Proof.
  revert i. induction expected as [|b expected IH]; intros i; simpl.
  - split; [|done]. intros _. apply prefix_nil.
  - unfold byte_is. rewrite andb_true_iff, bool_decide_eq_true, IH. split.
    + intros [Hb Hp]. rewrite (drop_S _ _ _ Hb). by apply prefix_cons.
    + intros [r Hr]. assert (bytes !! i = Some b) as Hb.
      { rewrite <-(Nat.add_0_r i), <-lookup_drop, Hr. done. }
      split; [done|]. rewrite (drop_S _ _ _ Hb) in Hr. injection Hr as Hr. by exists r.
Qed.

Lemma validate_files_spec files existing :
  validateAttachmentFiles files existing = Ok tt ↔
    Z.of_nat (length files) + Z.of_nat (length existing) ≤ 4 ∧ Forall file_ok files ∧
    sum_sizes (map a_size existing) + sum_sizes (map f_size files) ≤ 20971520.
Proof.
  unfold validateAttachmentFiles, MAX_ATTACHMENT_COUNT, MAX_TOTAL_ATTACHMENT_BYTES.
  rewrite <-check_files_spec, sum_sizes_app.
  destruct (Z.ltb_spec 4 (Z.of_nat (length files) + Z.of_nat (length existing))).
  { split; [done|]. intros [? _]. lia. }
  destruct (check_files files); [naive_solver|].
  match goal with |- context [?a <? ?b] => destruct (Z.ltb_spec a b) end.
  - split; [done|]. intros (_ & _ & ?). lia.
  - split; [|done]. intros _. split_and!; [lia|done|lia].
Qed.

Lemma missing_spec messages :
  existsb (λ m, default false (m_missingAttachments m)) messages = false ↔
  Forall (λ m, m_missingAttachments m ≠ Some true) messages.
Proof.
  induction messages as [|m ms IH]; simpl; [by split|].
  rewrite orb_false_iff, IH, Forall_cons. destruct (m_missingAttachments m) as [[]|]; naive_solver.
Qed.

Lemma validate_conversation_spec messages :
  validateConversationAttachments messages = Ok tt ↔
    Forall (λ m, m_missingAttachments m ≠ Some true) messages ∧
    Z.of_nat (length (conversation_attachments messages)) ≤ 4 ∧
    sum_sizes (map a_size (conversation_attachments messages)) ≤ 20971520.
Proof.
  unfold validateConversationAttachments, MAX_ATTACHMENT_COUNT, MAX_TOTAL_ATTACHMENT_BYTES.
  rewrite <-missing_spec. destruct (existsb _ messages); [naive_solver|].
  destruct (Z.ltb_spec 4 (Z.of_nat (length (conversation_attachments messages)))); simpl.
  { split; [done|]. intros (_ & ? & _). lia. }
  match goal with |- context [?a <? ?b] => destruct (Z.ltb_spec a b) end.
  - split; [done|]. intros (_ & _ & ?). lia.
  - split; [|done]. intros _. split_and!; [done|lia|lia].
Qed.

Lemma no_attachments messages :
  Forall (λ m, m_missingAttachments m ≠ Some true ∧ m_attachments m = None) messages →
  conversation_attachments messages = [].
Proof. induction 1 as [|m ms [_ Hm] _ IH]; simpl; [done|]. by rewrite Hm. Qed.

Lemma starts_prefix p s : starts_with p s = true ↔ p `prefix_of` s.
Proof. apply starts_with_spec. Qed.

Lemma prefix_of_take (p l : list N) n : (length p ≤ n)%nat → p `prefix_of` take n l ↔ p `prefix_of` l.
Proof.
  intros Hn. split; intros [r Hr].
  - exists (r ++ drop n l). by rewrite app_assoc, <-Hr, take_drop.
  - subst l. rewrite take_app_ge by done. eexists. done.
Qed.

Lemma take_is_prefix (p l : list N) n : length p = n → take n l = p ↔ p `prefix_of` l.
Proof.
  intros <-. split.
  - intros H. exists (drop (length p) l). by rewrite <-H at 1; rewrite take_drop.
  - intros [r ->]. by rewrite take_app_length.
Qed.

Lemma webp_spec (bytes : list N) :
  starts_with (js "RIFF") (take 12 bytes) && streq (slice (take 12 bytes) 8 12) (js "WEBP") = true ↔
  ∃ size rest, length size = 4%nat ∧ bytes = js "RIFF" ++ size ++ js "WEBP" ++ rest.
Proof.
  rewrite andb_true_iff, starts_prefix, prefix_of_take by (simpl; lia). unfold streq, slice.
  rewrite bool_decide_eq_true. split.
  - intros [[r ->] Hw].
    do 8 (destruct r as [|? r]; [done|]). simpl in Hw. injection Hw as -> -> -> ->.
    by exists [n; n0; n1; n2], r.
  - intros (size & rest & Hl & ->). split; [by eexists|].
    do 4 (destruct size as [|? size]; [done|]). by destruct size.
Qed.

Lemma content_cases bytes :
  content_matches bytes PDF = streq (take 5 bytes) (js "%PDF-") ∧
  content_matches bytes (js "image/png") = bytes_match bytes 0 PNG_SIGNATURE ∧
  content_matches bytes (js "image/jpeg") = bytes_match bytes 0 [255; 216; 255]%N ∧
  content_matches bytes (js "image/gif") =
    starts_with (js "GIF87a") (take 12 bytes) || starts_with (js "GIF89a") (take 12 bytes) ∧
  content_matches bytes (js "image/webp") =
    starts_with (js "RIFF") (take 12 bytes) && streq (slice (take 12 bytes) 8 12) (js "WEBP").
Proof.
  split_and!; try done. simpl. rewrite andb_true_r, andb_assoc. done.
Qed.

(** ** Properties *)

(** A selection of files is accepted exactly when, with what is attached already, it
    is at most 4 files and 20 MiB, and every new file has an allowed type, is neither
    empty nor larger than 10 MiB and, for a PDF, has a portable .pdf name of at most 255
    UTF-8 bytes; the conversation is accepted exactly when no attachment was lost and it
    holds at most 4 attachments and 20 MiB. A selection accepted for a draft passes the
    conversation's check when the conversation has no other attachment. *)
Theorem attachment_limits (files : list File) (existing : list ChatAttachment)
    (messages : list Message) :
  (validateAttachmentFiles files existing = Ok tt ↔
    Z.of_nat (length files) + Z.of_nat (length existing) ≤ 4 ∧ Forall file_ok files ∧
    sum_sizes (map a_size existing) + sum_sizes (map f_size files) ≤ 20971520) ∧
  (validateConversationAttachments messages = Ok tt ↔
    Forall (λ m, m_missingAttachments m ≠ Some true) messages ∧
    Z.of_nat (length (conversation_attachments messages)) ≤ 4 ∧
    sum_sizes (map a_size (conversation_attachments messages)) ≤ 20971520) ∧
  (∀ atts m, validateAttachmentFiles files existing = Ok tt →
    map a_size atts = map a_size existing ++ map f_size files →
    Forall (λ m, m_missingAttachments m ≠ Some true ∧ m_attachments m = None) messages →
    m_missingAttachments m ≠ Some true → m_attachments m = Some atts →
    validateConversationAttachments (messages ++ [m]) = Ok tt).
Proof.
  split_and!; [apply validate_files_spec|apply validate_conversation_spec|].
  intros atts m (Hc & _ & Hs)%validate_files_spec Ha Hms Hm Hat.
  apply validate_conversation_spec.
  assert (conversation_attachments (messages ++ [m]) = atts) as ->.
  { unfold conversation_attachments. rewrite flat_map_app.
    change (flat_map _ messages) with (conversation_attachments messages).
    rewrite no_attachments by done. simpl. by rewrite Hat, app_nil_r. }
  split_and!.
  - apply Forall_app. split; [|by constructor]. eapply Forall_impl; [done|]. by intros ? [].
  - rewrite <-(length_map a_size atts), Ha, length_app, !length_map. lia.
  - rewrite Ha, sum_sizes_app. lia.
Qed.

(** The check of a file's first bytes: what each type requires of them, and that an
    unknown type is refused. *)
Theorem content_signature (bytes : list N) :
  (content_matches bytes PDF = true ↔ js "%PDF-" `prefix_of` bytes) ∧
  (content_matches bytes (js "image/png") = true ↔ PNG_SIGNATURE `prefix_of` bytes) ∧
  (content_matches bytes (js "image/jpeg") = true ↔ [255; 216; 255]%N `prefix_of` bytes) ∧
  (content_matches bytes (js "image/gif") = true ↔
     js "GIF87a" `prefix_of` bytes ∨ js "GIF89a" `prefix_of` bytes) ∧
  (content_matches bytes (js "image/webp") = true ↔
     ∃ size rest, length size = 4%nat ∧ bytes = js "RIFF" ++ size ++ js "WEBP" ++ rest) ∧
  (∀ mimeType, mimeType ∉ ATTACHMENT_MIME_TYPES → content_matches bytes mimeType = false).
Proof.
  destruct (content_cases bytes) as (-> & -> & -> & -> & ->). split_and!.
  - unfold streq. rewrite bool_decide_eq_true. by apply take_is_prefix.
  - by rewrite bytes_match_spec.
  - by rewrite bytes_match_spec.
  - rewrite orb_true_iff, !starts_prefix. by rewrite !prefix_of_take by (simpl; lia).
  - apply webp_spec.
  - intros t Ht. unfold ATTACHMENT_MIME_TYPES, IMAGE_MIME_TYPES in Ht. simpl in Ht.
    rewrite !not_elem_of_cons in Ht. destruct Ht as (H1 & H2 & H3 & H4 & H5 & _).
    unfold content_matches, hasMatchingImageSignature, streq. by rewrite !bool_decide_eq_false_2 by done.
Qed.

End Attachments.
