(* ===== verification/Storage.v ===== *)
(** * What the playground keeps in the browser
      (web/src/features/playground/lib/storage/storage.ts, storage-schema.ts)

    Conversations are kept in localStorage under a key of their own for each user, as the
    JSON of a versioned envelope, validated by a schema when they are written and read.
    On the way back in a conversation is collapsed, truncated, trimmed by count and by
    size, and settled. [JSON] and the schema library are parameters, an instance of the
    class [Codec], whose laws are their documented behaviour: parsing what was printed
    gives it back, and a conversation the schema admits passes it unchanged. *)
From S2P Require Import Prelude JsString JsMap JsValue Message Reasoning Streaming Attachments.
From stdpp Require Import gmap.
Import Msg Reasoning Stream Attachments.
Local Open Scope Z_scope.

Module Storage.

Definition STORAGE_VERSION : Z := 1.
Definition MAX_STORED_MESSAGES : nat := 100.
Definition MAX_STORED_MESSAGES_BYTES : Z := 1048576.
Definition MAX_LOADED_MESSAGES_CHARS : Z := 120000.
Definition MAX_LOADED_MESSAGE_CHARS : Z := 40000.
Definition TRUNCATED_CONTENT_SUFFIX : jsstr := [10; 10]%N ++ js "[...]".
Definition MIN_PREFIX_COLLAPSE_LENGTH : Z := 2000.
Definition MIN_REPEATED_SECTION_COUNT : nat := 3.
Definition MESSAGES_KEY : jsstr := js "playground_messages".
Definition CONFIG_KEY : jsstr := js "playground_config".
Definition PARAMETER_ENABLED_KEY : jsstr := js "playground_parameter_enabled".

(** [getStorageKey], for the id given or, when none is, the signed-in user's. *)
Definition getStorageKey (key : jsstr) (userId : option jsnum) : option jsstr :=
  match userId with
  | Some n =>
      match as_integer n with
      | Some z =>
          if isSafeInteger n && (0 <? z) then Some (key ++ js ":user:" ++ show_Z z) else None
      | None => None
      end
  | None => None
  end.

(** ** Trimming *)

Definition trimMessages (messages : list Message) : list Message :=
  if (length messages <=? MAX_STORED_MESSAGES)%nat then messages
  else drop (length messages - MAX_STORED_MESSAGES) messages.

Definition str_length (s : jsstr) : Z := Z.of_nat (length s).

Definition getMessageSize (m : Message) : Z :=
  foldl (λ total v, total + str_length (v_content v)) 0 (m_versions m) +
  match m_reasoning m with Some r => str_length (r_content r) | None => 0 end.

Definition truncateText (text : jsstr) (maxLength : Z) : jsstr :=
  if str_length text <=? maxLength then text
  else if maxLength <=? str_length TRUNCATED_CONTENT_SUFFIX then take (Z.to_nat maxLength) text
  else take (Z.to_nat (maxLength - str_length TRUNCATED_CONTENT_SUFFIX)) text ++
       TRUNCATED_CONTENT_SUFFIX.

(** The backward loop of [trimMessagesByContentSize] over the reversed list. *)
Fixpoint take_by_size (reversed : list Message) (totalSize : Z) (result : list Message) :
    list Message :=
  match reversed with
  | [] => result
  | m :: rest =>
      if match result with [] => false | _ => true end &&
         (MAX_LOADED_MESSAGES_CHARS <? totalSize + getMessageSize m)
      then result
      else take_by_size rest (totalSize + getMessageSize m) (m :: result)
  end.

Definition trimMessagesByContentSize (messages : list Message) : list Message :=
  take_by_size (rev messages) 0 [].

(** ** Repeated sections *)

Definition is_line_terminator (u : N) : bool :=
  existsb (N.eqb u) [10; 13; 8232; 8233]%N.

Fixpoint span (p : N → bool) (s : jsstr) : jsstr * jsstr :=
  match s with
  | u :: rest => if p u then let (a, b) := span p rest in (u :: a, b) else ([], s)
  | [] => ([], [])
  end.

(** The tail [\s+.+$] of the heading pattern: the longest run of white space that leaves
    a character of its line, then the rest of that line. [n] counts down. *)
Fixpoint match_title (n : nat) (s : jsstr) : option nat :=
  match n with
  | O => None
  | S k =>
      match drop n s with
      | u :: _ =>
          if is_line_terminator u then match_title k s
          else Some (n + length (span (λ u, negb (is_line_terminator u)) (drop n s)).1)%nat
      | [] => match_title k s
      end
  end.

(** The length of a match of [^#{2,6}\s+\d+\.\s+.+$] at the start of a line. *)
Definition match_heading (s : jsstr) : option nat :=
  let (hashes, s1) := span (N.eqb 35) s in
  let (spaces, s2) := span is_ws s1 in
  let (digits, s3) := span is_digit s2 in
  if (2 <=? length hashes)%nat && (length hashes <=? 6)%nat && truthy spaces && truthy digits then
    match s3 with
    | 46%N :: s4 =>
        match match_title (length (span is_ws s4).1) s4 with
        | Some n => Some (length hashes + length spaces + length digits + 1 + n)%nat
        | None => None
        end
    | _ => None
    end
  else None.

(** [text.matchAll]: headings with their positions; [skip] characters belong to the
    match before. *)
Fixpoint scan_headings (s : jsstr) (index : nat) (lineStart : bool) (skip : nat) :
    list (jsstr * nat) :=
  match s with
  | [] => []
  | u :: rest =>
      match skip with
      | S k => scan_headings rest (S index) (is_line_terminator u) k
      | O =>
          match (if lineStart then match_heading s else None) with
          | Some n => (take n s, index) :: scan_headings rest (S index) (is_line_terminator u) (n - 1)
          | None => scan_headings rest (S index) (is_line_terminator u) O
          end
      end
  end.

Definition getSectionOccurrences (text : jsstr) : list (jsstr * nat) :=
  scan_headings text 0 true 0.

Definition getHeadingCounts (occurrences : list (jsstr * nat)) : list (jsstr * nat) :=
  foldl (λ counts o, jm_set o.1 (S (default O (jm_get o.1 counts))) counts) [] occurrences.

(** The loop over the occurrences from the last to the first. *)
Fixpoint last_repeated (counts : list (jsstr * nat)) (reversed : list (jsstr * nat))
    (seen : list jsstr) : list nat :=
  match reversed with
  | [] => []
  | (heading, index) :: rest =>
      if (default O (jm_get heading counts) <? MIN_REPEATED_SECTION_COUNT)%nat ||
         bool_decide (heading ∈ seen)
      then last_repeated counts rest seen
      else index :: last_repeated counts rest (heading :: seen)
  end.

Definition findLastRepeatedSectionRunStart (text : jsstr) : option nat :=
  let occurrences := getSectionOccurrences text in
  match last_repeated (getHeadingCounts occurrences) (rev occurrences) [] with
  | [] => None
  | i :: rest => Some (foldl Nat.min i rest)
  end.

Definition collapseRepeatedSectionSnapshots (text : jsstr) : jsstr :=
  if str_length text <? MIN_PREFIX_COLLAPSE_LENGTH then text
  else match findLastRepeatedSectionRunStart text with
       | None => text
       | Some start => drop start text
       end.

(** ** Normalizing a stored message *)

Definition load_content (c : jsstr) : jsstr :=
  truncateText (collapseRepeatedSectionSnapshots c) MAX_LOADED_MESSAGE_CHARS.

Definition first_some (l : list (option Z)) (d : Z) : Z := default d (head (omap (λ x, x) l)).

Definition normalizeStoredMessageForLoad (m : Message) (now1 now2 now3 : Z) : Message :=
  let versions := map (λ v, mkVersion (v_id v) (load_content (v_content v))) (m_versions m) in
  let reasoning :=
    (λ r, reasoning_with_content r (truncateText (r_content r) MAX_LOADED_MESSAGE_CHARS)) <$>
    m_reasoning m in
  let normalized := with_reasoning reasoning (with_versions versions m) in
  if negb (isAssistantMessagePending normalized) then normalized
  else
    let hasContent := hasMessageContent normalized in
    let hasReasoning :=
      match m_reasoning normalized with Some r => truthy (trim (r_content r)) | None => false end in
    if negb hasContent && negb hasReasoning then normalized
    else
      let completedAt := first_some [m_completedAt normalized;
        match m_reasoning normalized with Some r => r_completedAt r | None => None end;
        m_startedAt normalized; m_createdAt normalized] now1 in
      completeAssistantTiming
        (with_isReasoningStreaming false (with_status Complete (finalizeMessage normalized None now2 now3)))
        completedAt.

(** ** The store *)

Abbreviation LocalStorage := (gmap jsstr jsstr).

(** [{ ...message, attachments: undefined, missingAttachments }] *)
Definition persistable (m : Message) : Message :=
  mkMessage None
    (Some (default false (m_missingAttachments m) ||
           match m_attachments m with Some (_ :: _) => true | _ => false end))
    (m_key m) (m_from m) (m_versions m) (m_createdAt m) (m_startedAt m) (m_completedAt m)
    (m_durationMs m) (m_sources m) (m_reasoning m) (m_isReasoningStreaming m)
    (m_isReasoningComplete m) (m_isContentComplete m) (m_status m) (m_errorCode m).

(** What [messagesSchema] asks of a message of this type: at least one version. *)
Definition schema_ok (m : Message) : bool :=
  match m_versions m with [] => false | _ => true end.

(** [JSON] and the schema. *)
Class Codec := {
  stringify : value → jsstr;
  JSON_parse : jsstr → option value;
  messages_value : list Message → value;
  messagesSchema_parse : value → option (list Message);
  parse_stringify : ∀ ms,
    let v := Obj [(js "version", Num (num_of_Z STORAGE_VERSION)); (js "data", messages_value ms)] in
    stringify v ≠ [] ∧ JSON_parse (stringify v) = Some v;
  schema_roundtrip : ∀ ms, Forall (λ m, m_attachments m = None) ms →
    messagesSchema_parse (messages_value ms) = if forallb schema_ok ms then Some ms else None
}.

Definition unwrapStoredValue (v : value) : value :=
  match v with
  | Obj fields =>
      if existsb (λ kv, streq kv.1 (js "version")) fields &&
         existsb (λ kv, streq kv.1 (js "data")) fields
      then field fields (js "data") else v
  | _ => v
  end.

Definition envelope (data : value) : value :=
  Obj [(js "version", Num (num_of_Z STORAGE_VERSION)); (js "data", data)].

Section store.
Context `{Codec}.
(** i18next's [t], and whether [setItem] accepts a value (it throws beyond the quota). *)
Context (t : jsstr → jsstr) (accepts : jsstr → jsstr → bool).

Definition setItem (key v : jsstr) (store : LocalStorage) : LocalStorage :=
  if accepts key v then <[key := v]> store else store.

Definition writeStoredValue (key : option jsstr) (data : value) (store : LocalStorage) :
    LocalStorage :=
  match key with Some k => setItem k (stringify (envelope data)) store | None => store end.

Definition saveMessages (messages : list Message) (userId : option jsnum)
    (store : LocalStorage) : LocalStorage :=
  let trimmed := trimMessages (map persistable messages) in
  match messagesSchema_parse (messages_value trimmed) with
  | Some parsed =>
      writeStoredValue (getStorageKey MESSAGES_KEY userId) (messages_value parsed) store
  | None => store
  end.

(** [None] in the first component: [null]; the store afterwards. *)
Definition readStoredMessagesValue (userId : option jsnum) (store : LocalStorage) :
    result unit (option value) * LocalStorage :=
  match getStorageKey MESSAGES_KEY userId with
  | None => (Ok None, store)
  | Some key =>
      match store !! key with
      | None => (Ok None, store)
      | Some saved =>
          if negb (truthy saved) then (Ok None, store)
          else if MAX_STORED_MESSAGES_BYTES <? str_length saved then (Ok None, delete key store)
          else match JSON_parse saved with
               | Some v => (Ok (Some v), store)
               | None => (Throw tt, store)
               end
      end
  end.

(** [loadMessages]: the array [trimMessagesByContentSize] builds is always a new one, so
    the cleaned conversation is always written back. *)
Definition loadMessages (userId : option jsnum) (now1 now2 now3 : Z) (store : LocalStorage) :
    option (list Message) * LocalStorage :=
  match readStoredMessagesValue userId store with
  | (Throw _, store') => (None, store')
  | (Ok None, store') => (None, store')
  | (Ok (Some saved), store') =>
      if negb (value_truthy saved) then (None, store')
      else
        match messagesSchema_parse (unwrapStoredValue saved) with
        | None => (None, store')
        | Some parsed =>
            let normalized := map (λ m, normalizeStoredMessageForLoad m now1 now2 now3) parsed in
            let trimmed := trimMessages normalized in
            let sizeTrimmed := trimMessagesByContentSize trimmed in
            let sanitized := sanitizeMessagesOnLoad t sizeTrimmed now1 now2 now3 in
            (Some sanitized, saveMessages sanitized userId store')
        end
  end.

Definition clearPlaygroundData (userId : option jsnum) (store : LocalStorage) : LocalStorage :=
  foldl (λ store baseKey,
    match getStorageKey baseKey userId with Some key => delete key store | None => store end)
    store [CONFIG_KEY; MESSAGES_KEY; PARAMETER_ENABLED_KEY].
End store.

(** ** Lemmas *)

Lemma getStorageKey_Some base z :
  0 < z ≤ MAX_SAFE →
  getStorageKey base (Some (num_of_Z z)) = Some (base ++ js ":user:" ++ show_Z z).
Proof.
  intros Hz. unfold getStorageKey, isSafeInteger. rewrite !as_integer_Z.
  rewrite !(proj2 (Z.leb_le _ _)) by lia. by rewrite (proj2 (Z.ltb_lt _ _)) by lia.
Qed.

Lemma getStorageKey_inv base u key :
  getStorageKey base u = Some key →
  ∃ z, u = Some (num_of_Z z) ∧ 0 < z ≤ MAX_SAFE ∧ key = base ++ js ":user:" ++ show_Z z.
Proof.
  unfold getStorageKey. destruct u as [n|]; [|done]. destruct (as_integer n) as [z|] eqn:E; [|done].
  unfold isSafeInteger. rewrite E. destruct (_ && _) eqn:Ez; [|done]. intros [= <-].
  rewrite !andb_true_iff, !Z.leb_le, Z.ltb_lt in Ez. apply as_integer_Some in E as ->.
  exists z. split_and!; [done|lia..|done].
Qed.

Lemma colon_not_digit z : 0 < z → 58%N ∉ show_Z z.
Proof. intros Hz Hin. apply show_Z_digit in Hin; [done|lia]. Qed.

(** Keys of different users differ, whatever they hold. *)
Lemma storage_keys_disjoint base base' u u' key key' :
  getStorageKey base u = Some key → getStorageKey base' u' = Some key' →
  u ≠ u' → key ≠ key'.
Proof.
  intros (z & -> & Hz & ->)%getStorageKey_inv (z' & -> & Hz' & ->)%getStorageKey_inv Hne Heq.
  apply Hne. do 2 f_equal. apply show_Z_inj; [lia..|].
  rewrite !app_assoc in Heq. change (js ":user:") with (js ":user" ++ [58%N]) in Heq.
  rewrite !app_assoc, <-!(app_assoc _ [58%N]) in Heq.
  apply last_cut_inj in Heq as [_ ?]; [done|apply colon_not_digit; lia..].
Qed.

Lemma trimMessages_length ms : (length (trimMessages ms) ≤ 100)%nat.
Proof.
  unfold trimMessages, MAX_STORED_MESSAGES. destruct (Nat.leb_spec (length ms) 100); [done|].
  rewrite length_drop. lia.
Qed.

Lemma trimMessages_suffix ms : trimMessages ms `suffix_of` ms.
Proof.
  unfold trimMessages. case_match; [done|].
  exists (take (length ms - MAX_STORED_MESSAGES) ms). by rewrite take_drop.
Qed.

Lemma trimMessages_small ms : (length ms ≤ 100)%nat → trimMessages ms = ms.
Proof. intros Hl. unfold trimMessages, MAX_STORED_MESSAGES. by rewrite (proj2 (Nat.leb_le _ _)). Qed.

Definition total_size (ms : list Message) : Z := foldr (λ m z, getMessageSize m + z) 0 ms.

Lemma foldl_length_nonneg (vs : list MessageVersion) z :
  0 ≤ z → 0 ≤ foldl (λ total v, total + str_length (v_content v)) z vs.
Proof.
  revert z. induction vs as [|v vs IH]; intros z Hz; simpl; [done|]. apply IH.
  unfold str_length. lia.
Qed.

Lemma getMessageSize_nonneg m : 0 ≤ getMessageSize m.
Proof.
  unfold getMessageSize. pose proof (foldl_length_nonneg (m_versions m) 0).
  destruct (m_reasoning m); unfold str_length in *; lia.
Qed.

Lemma total_size_nonneg ms : 0 ≤ total_size ms.
Proof. induction ms as [|m ms IH]; simpl; [done|]. pose proof (getMessageSize_nonneg m). lia. Qed.

Lemma take_by_size_spec reversed result :
  total_size result ≤ MAX_LOADED_MESSAGES_CHARS ∨ (length result ≤ 1)%nat →
  let r := take_by_size reversed (total_size result) result in
  (∃ pre, rev reversed ++ result = pre ++ r) ∧
  (total_size r ≤ MAX_LOADED_MESSAGES_CHARS ∨ (length r ≤ 1)%nat) ∧
  (total_size (rev reversed ++ result) ≤ MAX_LOADED_MESSAGES_CHARS → r = rev reversed ++ result) ∧
  (reversed ++ result ≠ [] → r ≠ []).
Proof.
  revert result. induction reversed as [|m rest IH]; intros result Hr; cbv zeta; simpl.
  { split_and!; [by exists []|done|done|done]. }
  replace (total_size result + getMessageSize m) with (total_size (m :: result)) by (simpl; lia).
  rewrite <-app_assoc. simpl.
  destruct (_ && _) eqn:E.
  - apply andb_true_iff in E as [En Eb]. apply Z.ltb_lt in Eb. split_and!.
    + exists (rev rest ++ [m]). by rewrite <-app_assoc.
    + done.
    + intros Ht. exfalso.
      assert (total_size (m :: result) ≤ total_size (rev rest ++ m :: result)).
      { clear. induction (rev rest) as [|x l IHl]; simpl; [done|].
        pose proof (getMessageSize_nonneg x). simpl in IHl. lia. }
      simpl in *. lia.
    + by destruct result.
  - destruct (IH (m :: result)) as (H1 & H2 & H3 & H4).
    { destruct result as [|y result]; [by right; simpl; lia|]. left. simpl in E.
      apply Z.ltb_ge in E. simpl in *. lia. }
    split_and!; [done|done|done|]. intros _. apply H4. by destruct rest.
Qed.

Lemma trimBySize_spec ms :
  (∃ pre, ms = pre ++ trimMessagesByContentSize ms) ∧
  (total_size (trimMessagesByContentSize ms) ≤ MAX_LOADED_MESSAGES_CHARS ∨
   (length (trimMessagesByContentSize ms) ≤ 1)%nat) ∧
  (total_size ms ≤ MAX_LOADED_MESSAGES_CHARS → trimMessagesByContentSize ms = ms) ∧
  (ms ≠ [] → trimMessagesByContentSize ms ≠ []).
Proof.
  unfold trimMessagesByContentSize.
  destruct (take_by_size_spec (rev ms) []) as (H1 & H2 & H3 & H4); [by left|].
  simpl in *. rewrite rev_involutive, !app_nil_r in *. split_and!; [done..|].
  intros Hne. apply H4. intros Hr. apply Hne. by rewrite <-(rev_involutive ms), Hr.
Qed.

Lemma truncateText_spec text n :
  0 ≤ n →
  str_length (truncateText text n) ≤ n ∧ (str_length text ≤ n → truncateText text n = text) ∧
  (n < str_length text → ∃ k, (k ≤ length text)%nat ∧
     (truncateText text n = take k text ∨ truncateText text n = take k text ++ TRUNCATED_CONTENT_SUFFIX)).
Proof.
  intros Hn. unfold truncateText. destruct (Z.leb_spec (str_length text) n); [split_and!; [done..|lia]|].
  destruct (Z.leb_spec n (str_length TRUNCATED_CONTENT_SUFFIX)).
  - split_and!; [unfold str_length; rewrite length_take; lia|lia|]. intros _.
    exists (Z.to_nat n). split; [unfold str_length in *; lia|by left].
  - split_and!; [|lia|].
    + unfold str_length in *. rewrite length_app, length_take. lia.
    + intros _. eexists. split; [|by right]. unfold str_length in *. lia.
Qed.

(** A message no answer is awaited for, which the schema admits. *)
Definition settled (m : Message) : Prop :=
  schema_ok m = true ∧ isAssistantMessagePending m = false.

(** What loading makes of it: the versions collapsed and cut, the reasoning cut. *)
Definition reduced (m : Message) : Message :=
  with_reasoning
    ((λ r, reasoning_with_content r (truncateText (r_content r) MAX_LOADED_MESSAGE_CHARS)) <$> m_reasoning m)
    (with_versions (map (λ v, mkVersion (v_id v) (load_content (v_content v))) (m_versions m)) m).

(** No numbered section heading stands three times or more in the text. *)
Definition no_repeated_heading (text : jsstr) : Prop :=
  ∀ h, (length (filter (λ o, o.1 = h) (getSectionOccurrences text)) < 3)%nat.

Definition within_limits (m : Message) : Prop :=
  Forall (λ v, str_length (v_content v) ≤ 40000 ∧
    (2000 ≤ str_length (v_content v) → no_repeated_heading (v_content v))) (m_versions m) ∧
  match m_reasoning m with Some r => str_length (r_content r) ≤ 40000 | None => True end.

Lemma heading_counts h occ :
  default O (jm_get h (getHeadingCounts occ)) = length (filter (λ o, o.1 = h) occ).
Proof.
  unfold getHeadingCounts. induction occ as [|o occ IH] using rev_ind; [done|].
  rewrite foldl_app, filter_app, length_app, <- IH. simpl. rewrite jm_get_set, filter_cons.
  case_decide as Ho; [subst h|]; simpl; lia.
Qed.

Lemma last_repeated_nil counts reversed seen :
  last_repeated counts reversed seen = [] ↔
  Forall (λ o, (default O (jm_get o.1 counts) < 3)%nat ∨ o.1 ∈ seen) reversed.
Proof.
  induction reversed as [|[h i] rest IH]; simpl; [by split; [constructor|]|].
  rewrite Forall_cons. simpl. unfold MIN_REPEATED_SECTION_COUNT.
  destruct (Nat.ltb_spec (default O (jm_get h counts)) 3) as [Hlt|Hge]; simpl.
  { rewrite IH. naive_solver. }
  destruct (bool_decide_reflect (h ∈ seen)); [rewrite IH; naive_solver|].
  split; [done|]. intros [[?|?] _]; [lia|done].
Qed.

(** Collapsing looks for the headings that stand three times. *)
Lemma collapse_exact text :
  findLastRepeatedSectionRunStart text = None ↔ no_repeated_heading text.
Proof.
  unfold findLastRepeatedSectionRunStart. set (occ := getSectionOccurrences text).
  transitivity (last_repeated (getHeadingCounts occ) (rev occ) [] = []); [by destruct (last_repeated _ _ _)|].
  rewrite last_repeated_nil. unfold no_repeated_heading. fold occ. split.
  - intros Hf h. destruct (filter (λ o, o.1 = h) occ) as [|o l] eqn:E; [simpl; lia|].
    assert (o ∈ filter (λ o, o.1 = h) occ) as [Ho Hin]%list_elem_of_filter by (rewrite E; by left).
    rewrite Forall_forall in Hf. destruct (Hf o) as [Hc|?%elem_of_nil]; [|rewrite <- E|done].
    + by rewrite list_elem_of_In, <- in_rev, <- list_elem_of_In.
    + by rewrite heading_counts, Ho in Hc.
  - intros Hn. apply Forall_true. intros o. left. rewrite heading_counts. apply Hn.
Qed.

Lemma truncate_short text : str_length text ≤ 40000 → truncateText text MAX_LOADED_MESSAGE_CHARS = text.
Proof. intros Hl. by apply truncateText_spec. Qed.

Lemma load_content_within c :
  str_length c ≤ 40000 → (2000 ≤ str_length c → no_repeated_heading c) → load_content c = c.
Proof.
  intros Hc Hn. unfold load_content, collapseRepeatedSectionSnapshots, MIN_PREFIX_COLLAPSE_LENGTH.
  destruct (Z.ltb_spec (str_length c) 2000); [by apply truncate_short|].
  rewrite (proj2 (collapse_exact c)) by auto. by apply truncate_short.
Qed.

Lemma reduced_within m : within_limits m → reduced m = m.
Proof.
  intros [Hv Hr]. unfold reduced.
  assert (map (λ v, mkVersion (v_id v) (load_content (v_content v))) (m_versions m) = m_versions m) as ->.
  { apply map_fix. eapply Forall_impl; [exact Hv|]. intros v [Hc Hn]. simpl in *.
    rewrite load_content_within by done. by destruct v. }
  destruct m as [? ? ? ? vs ? ? ? ? ? [r|]]; [|done]. simpl in *.
  rewrite truncate_short by done. by destruct r.
Qed.

Lemma normalize_settled m n1 n2 n3 :
  isAssistantMessagePending m = false → normalizeStoredMessageForLoad m n1 n2 n3 = reduced m.
Proof.
  intros Hp. unfold normalizeStoredMessageForLoad. fold (reduced m). cbv zeta.
  change (isAssistantMessagePending (reduced m)) with (isAssistantMessagePending m). by rewrite Hp.
Qed.

Lemma reduced_settled m : settled m → settled (reduced m).
Proof. intros [Hs Hp]. split; [|done]. unfold schema_ok in *. simpl. by destruct (m_versions m). Qed.

Lemma reduced_persistable m : reduced (persistable m) = persistable (reduced m).
Proof. done. Qed.

Lemma persistable_settled m : settled m → settled (persistable m).
Proof. done. Qed.

(** ** How large loaded messages are *)

Definition reasoning_length (m : Message) : Z :=
  match m_reasoning m with Some r => str_length (r_content r) | None => 0 end.

(** The notice that settles an answer the page was left in the middle of. *)
Definition interrupted_notice (t : jsstr → jsstr) : jsstr :=
  t API_REQUEST_ERROR ++ js ": " ++ t INTERRUPTED.

Definition bounded (notice : jsstr) (m : Message) : Prop :=
  Forall (λ v, str_length (v_content v) ≤ 40000 ∨ v_content v = notice) (m_versions m) ∧
  reasoning_length m ≤ 40000.

Lemma completeAssistantTiming_frame m n :
  let m' := completeAssistantTiming m n in
  m_key m' = m_key m ∧ m_versions m' = m_versions m ∧ m_reasoning m' = m_reasoning m.
Proof. cbv zeta. unfold completeAssistantTiming. by repeat case_match. Qed.

Lemma finalize_versions m n1 n2 :
  m_versions (finalizeMessage m None n1 n2) =
  [mkVersion (v_id (getCurrentVersion m)) (visibleContent (parseThinkTags (getMessageContent m)))].
Proof.
  unfold finalizeMessage. edestruct completeReasoningTiming_frame as (_ & _ & _ & -> & _). simpl.
  change (v_content (getCurrentVersion m)) with (getMessageContent m).
  destruct (includes OPEN _) eqn:E; [done|]. by rewrite parseThinkTags_plain.
Qed.

Lemma finalize_reasoning_length m n1 n2 :
  reasoning_length (finalizeMessage m None n1 n2) =
  str_length (final_reasoning m None (Some (parseThinkTags (getMessageContent m)))).
Proof.
  pose proof (finalize_reasoning m None n1 n2) as Hr. cbv zeta in Hr. unfold reasoning_length.
  destruct (m_reasoning (finalizeMessage m None n1 n2)) as [r|]; simpl in Hr;
    destruct (truthy _) eqn:E in Hr; try done.
  - by injection Hr as <-.
  - by apply truthy_false in E as ->.
Qed.

Lemma final_reasoning_cases m c :
  let r := final_reasoning m None (Some (parseThinkTags c)) in
  str_length r = reasoning_length m ∨
  reasoning_length m = 0 ∧ r = reasoning (parseThinkTags c).
Proof.
  cbv zeta. unfold final_reasoning, reasoning_length. simpl. destruct (m_reasoning m) as [r|]; [|by right].
  destruct (truthy (r_content r)) eqn:E; [by left|right]. by apply truthy_false in E as ->.
Qed.

Lemma content_size m : str_length (getMessageContent m) + reasoning_length m ≤ getMessageSize m.
Proof.
  change (getMessageSize m) with
    (foldl (λ total v, total + str_length (v_content v)) 0 (m_versions m) + reasoning_length m).
  generalize (reasoning_length m). intros n. unfold getMessageContent, getCurrentVersion.
  destruct (m_versions m) as [|v vs]; simpl; [unfold str_length; simpl; lia|].
  rewrite Z.add_0_l. generalize (str_length (v_content v)). clear. induction vs as [|w vs IH]; intros z; simpl; [lia|].
  specialize (IH (z + str_length (v_content w))).
  assert (0 ≤ str_length (v_content w)) by (unfold str_length; lia). lia.
Qed.

(** Finalizing a message does not make it larger. *)
Lemma finalize_size m n1 n2 : getMessageSize (finalizeMessage m None n1 n2) ≤ getMessageSize m.
Proof.
  pose proof (content_size m) as Hc. pose proof (parse_lengths (getMessageContent m)) as Hp.
  unfold getMessageSize at 1. fold (reasoning_length (finalizeMessage m None n1 n2)).
  rewrite finalize_versions, finalize_reasoning_length. simpl.
  destruct (final_reasoning_cases m (getMessageContent m)) as [->|[H0 ->]]; unfold str_length in *; lia.
Qed.

Lemma finalize_bounded notice m n1 n2 :
  str_length (getMessageContent m) ≤ 40000 → reasoning_length m ≤ 40000 →
  bounded notice (finalizeMessage m None n1 n2).
Proof.
  intros Hc Hr. pose proof (parse_lengths (getMessageContent m)) as Hp. unfold bounded.
  rewrite finalize_versions, finalize_reasoning_length. split.
  - constructor; [left|constructor]. simpl. unfold str_length in *. lia.
  - destruct (final_reasoning_cases m (getMessageContent m)) as [->|[H0 ->]]; unfold str_length in *; lia.
Qed.

Lemma reduced_bounded m :
  Forall (λ v, str_length (v_content v) ≤ 40000) (m_versions (reduced m)) ∧
  reasoning_length (reduced m) ≤ 40000 ∧ str_length (getMessageContent (reduced m)) ≤ 40000.
Proof.
  assert (Forall (λ v, str_length (v_content v) ≤ 40000) (m_versions (reduced m))) as Hv.
  { apply Forall_map, Forall_true. intros v. simpl. unfold load_content.
    by apply (truncateText_spec _ MAX_LOADED_MESSAGE_CHARS). }
  split_and!; [done| |].
  - unfold reasoning_length. simpl. destruct (m_reasoning m) as [r|]; simpl; [|done].
    by apply (truncateText_spec _ MAX_LOADED_MESSAGE_CHARS).
  - unfold getMessageContent, getCurrentVersion. destruct (m_versions (reduced m)); [done|].
    by inversion Hv.
Qed.

Lemma normalize_bounded notice m n1 n2 n3 :
  m_key (normalizeStoredMessageForLoad m n1 n2 n3) = m_key m ∧
  bounded notice (normalizeStoredMessageForLoad m n1 n2 n3) ∧
  str_length (getMessageContent (normalizeStoredMessageForLoad m n1 n2 n3)) ≤ 40000.
Proof.
  destruct (reduced_bounded m) as (Hv & Hr & Hc).
  assert (bounded notice (reduced m)) as Hb.
  { split; [|done]. eapply Forall_impl; [exact Hv|]. by left. }
  unfold normalizeStoredMessageForLoad. fold (reduced m). cbv zeta.
  destruct (negb (isAssistantMessagePending (reduced m))); [done|].
  destruct (negb _ && negb _); [done|].
  match goal with |- context [completeAssistantTiming ?x ?n] =>
    destruct (completeAssistantTiming_frame x n) as (Hk & Hve & Hre) end.
  unfold bounded, reasoning_length, getMessageContent, getCurrentVersion. rewrite Hk, Hve, Hre. simpl.
  destruct (finalize_frame (reduced m) None n2 n3) as (_ & _ & -> & _).
  pose proof (finalize_bounded notice (reduced m) n2 n3 Hc Hr) as [Hb1 Hb2].
  split_and!; [done|done|done|]. rewrite finalize_versions. simpl.
  pose proof (parse_lengths (getMessageContent (reduced m))). unfold str_length in *. lia.
Qed.

Lemma sanitize_bounded t m n1 n2 n3 :
  bounded (interrupted_notice t) m → str_length (getMessageContent m) ≤ 40000 →
  let m' := sanitize_message t m n1 n2 n3 in
  m_key m' = m_key m ∧ bounded (interrupted_notice t) m' ∧
  getMessageSize m' ≤ getMessageSize m + str_length (interrupted_notice t).
Proof.
  intros [_ Hr] Hc m'. pose proof (finalize_size m n1 n2) as Hs.
  pose proof (finalize_bounded (interrupted_notice t) m n1 n2 Hc Hr) as [Hb1 Hb2].
  destruct (finalize_frame m None n1 n2) as (_ & _ & Hk & _).
  unfold m', sanitize_message. cbv zeta.
  destruct (_ || _);
    match goal with |- context [completeAssistantTiming ?x ?n] =>
      destruct (completeAssistantTiming_frame x n) as (Hk' & Hve & Hre) end;
    unfold bounded, reasoning_length; rewrite Hk', Hve, Hre.
  - split_and!; [done|done|done|]. unfold getMessageSize at 1. rewrite Hve, Hre.
    change (getMessageSize (finalizeMessage m None n1 n2) ≤
      getMessageSize m + str_length (interrupted_notice t)). unfold str_length. lia.
  - split_and!; [done|by constructor; [right|constructor]|done|].
    unfold getMessageSize at 1. rewrite Hve, Hre.
    change (str_length (interrupted_notice t) + reasoning_length (finalizeMessage m None n1 n2) ≤
      getMessageSize m + str_length (interrupted_notice t)).
    pose proof (content_size (finalizeMessage m None n1 n2)) as Hf.
    assert (0 ≤ str_length (getMessageContent (finalizeMessage m None n1 n2))) by (unfold str_length; lia). lia.
Qed.

Lemma total_size_app ms ms' : total_size (ms ++ ms') = total_size ms + total_size ms'.
Proof. induction ms as [|m ms IH]; simpl; [done|]. rewrite IH. lia. Qed.

Lemma sanitize_list_bounded t ms n1 n2 n3 :
  Forall (λ m, bounded (interrupted_notice t) m ∧ str_length (getMessageContent m) ≤ 40000) ms →
  let ms' := sanitizeMessagesOnLoad t ms n1 n2 n3 in
  map m_key ms' = map m_key ms ∧ Forall (bounded (interrupted_notice t)) ms' ∧
  total_size ms' ≤ total_size ms + str_length (interrupted_notice t) ∧
  (∀ i m, ms !! i = Some m → isAssistantMessagePending m = false → ms' !! i = Some m).
Proof.
  intros Hms. cbv zeta. destruct (last_pending ms) as [i|] eqn:E.
  - destruct (last_pending_Some _ _ E) as (pre & m & post & -> & _ & Hm & Hp).
    rewrite sanitize_split by done. apply Forall_app in Hms as [Hpre [[Hb Hc] Hpost]%Forall_cons].
    destruct (sanitize_bounded t m n1 n2 n3 Hb Hc) as (Hk & Hb' & Hs).
    rewrite !total_size_app, !map_app. simpl. rewrite Hk. split_and!; [done| |lia|].
    + apply Forall_app. split; [|constructor; [done|]].
      all: eapply Forall_impl; [eassumption|]; by intros ? [? _].
    + intros j m0 Hj Hpm. destruct (decide (j = length pre)) as [->|Hne].
      * rewrite list_lookup_middle in Hj by done. injection Hj as <-.
        unfold isPendingAssistantMessage in Hm. by rewrite Hpm, andb_false_r in Hm.
      * destruct (decide (j < length pre)%nat); [by rewrite lookup_app_l in Hj |- * by lia|].
        rewrite lookup_app_r in Hj |- * by lia.
        destruct (j - length pre)%nat eqn:Ej; [lia|done].
  - unfold sanitizeMessagesOnLoad. rewrite E. split_and!; [done| |unfold str_length; lia|done].
    eapply Forall_impl; [eassumption|]. by intros ? [? _].
Qed.

Lemma trimMessages_nonempty ms : ms ≠ [] → trimMessages ms ≠ [].
Proof.
  intros Hne. unfold trimMessages. destruct (Nat.leb_spec (length ms) MAX_STORED_MESSAGES); [done|].
  intros Hd. apply (f_equal length) in Hd. rewrite length_drop in Hd. unfold MAX_STORED_MESSAGES in *.
  simpl in Hd. lia.
Qed.

Section properties.
Context `{Codec}.
Context (t : jsstr → jsstr) (accepts : jsstr → jsstr → bool).

Lemma setItem_other key key' v store :
  key ≠ key' → setItem accepts key v store !! key' = store !! key'.
Proof. intros Hne. unfold setItem. case_match; [by rewrite lookup_insert_ne|done]. Qed.

Lemma save_other ms u store base' u' key' :
  getStorageKey base' u' = Some key' → u ≠ u' →
  saveMessages accepts ms u store !! key' = store !! key'.
Proof.
  intros Hk Hne. unfold saveMessages. case_match; [|done]. unfold writeStoredValue.
  destruct (getStorageKey MESSAGES_KEY u) as [key|] eqn:E; [|done].
  apply setItem_other. by eapply storage_keys_disjoint.
Qed.

Lemma read_other u store base' u' key' :
  getStorageKey base' u' = Some key' → u ≠ u' →
  (readStoredMessagesValue u store).2 !! key' = store !! key'.
Proof.
  intros Hk Hne. unfold readStoredMessagesValue.
  destruct (getStorageKey MESSAGES_KEY u) as [key|] eqn:E; [|done].
  destruct (store !! key); [|done]. destruct (negb _); [done|].
  destruct (_ <? _); simpl; [|by case_match].
  apply lookup_delete_ne. by eapply storage_keys_disjoint.
Qed.

Lemma load_other u store base' u' key' n1 n2 n3 :
  getStorageKey base' u' = Some key' → u ≠ u' →
  (loadMessages t accepts u n1 n2 n3 store).2 !! key' = store !! key'.
Proof.
  intros Hk Hne. pose proof (read_other u store base' u' key' Hk Hne) as Hr.
  unfold loadMessages. destruct (readStoredMessagesValue u store) as [[[v|]|e] st]; simpl in *; try done.
  destruct (negb _); [done|]. destruct (messagesSchema_parse _); [|done].
  simpl. by erewrite save_other.
Qed.

Lemma clear_other u store base' u' key' :
  getStorageKey base' u' = Some key' → u ≠ u' →
  clearPlaygroundData u store !! key' = store !! key'.
Proof.
  intros Hk Hne. unfold clearPlaygroundData. generalize [CONFIG_KEY; MESSAGES_KEY; PARAMETER_ENABLED_KEY].
  intros bases. revert store. induction bases as [|b bases IH]; intros store; simpl; [done|].
  rewrite IH. destruct (getStorageKey b u) as [key|] eqn:E; [|done].
  apply lookup_delete_ne. by eapply storage_keys_disjoint.
Qed.

Lemma persistable_idemp m : persistable (persistable m) = persistable m.
Proof. unfold persistable. simpl. by rewrite orb_false_r. Qed.

Lemma total_size_persistable ms : total_size (map persistable ms) = total_size ms.
Proof. induction ms as [|m ms IH]; simpl; [done|]. by rewrite IH. Qed.

Lemma schema_persistable ms :
  Forall (λ m, schema_ok m = true) ms →
  messagesSchema_parse (messages_value (map persistable ms)) = Some (map persistable ms).
Proof.
  intros Hs. rewrite schema_roundtrip.
  - assert (forallb schema_ok (map persistable ms) = true) as ->; [|done].
    induction Hs as [|m ms Hm _ IH]; simpl; [done|]. by rewrite IH, andb_true_r.
  - apply Forall_map, Forall_true. done.
Qed.

(** The text a conversation of at most 100 messages is stored as. *)
Definition stored_text (ms : list Message) : jsstr :=
  stringify (envelope (messages_value (map persistable ms))).

Lemma save_stores ms z store :
  0 < z ≤ MAX_SAFE → (length ms ≤ 100)%nat → Forall (λ m, schema_ok m = true) ms →
  saveMessages accepts ms (Some (num_of_Z z)) store =
  setItem accepts (MESSAGES_KEY ++ js ":user:" ++ show_Z z) (stored_text ms) store.
Proof.
  intros Hz Hl Hs. unfold saveMessages. rewrite trimMessages_small by by rewrite length_map.
  rewrite schema_persistable by done. by rewrite getStorageKey_Some by done.
Qed.

Lemma settled_not_pending ms : Forall settled ms → last_pending ms = None.
Proof.
  intros Hs. apply last_pending_None. eapply Forall_impl; [done|]. intros m [_ Hp].
  unfold isPendingAssistantMessage. by rewrite Hp, andb_false_r.
Qed.

Lemma settled_schema ms : Forall settled ms → Forall (λ m, schema_ok m = true) ms.
Proof. intros Hs. eapply Forall_impl; [done|]. by intros m [? _]. Qed.

(** Loading the text of a settled conversation. *)
Lemma load_stored ms z store n1 n2 n3 :
  0 < z ≤ MAX_SAFE → (length ms ≤ 100)%nat → Forall settled ms →
  total_size (map reduced ms) ≤ MAX_LOADED_MESSAGES_CHARS →
  str_length (stored_text ms) ≤ MAX_STORED_MESSAGES_BYTES →
  store !! (MESSAGES_KEY ++ js ":user:" ++ show_Z z) = Some (stored_text ms) →
  loadMessages t accepts (Some (num_of_Z z)) n1 n2 n3 store =
  (Some (map persistable (map reduced ms)), saveMessages accepts (map reduced ms) (Some (num_of_Z z)) store).
Proof.
  intros Hz Hl Hs Ht Hb Hst. unfold loadMessages, readStoredMessagesValue.
  rewrite getStorageKey_Some, Hst by done.
  destruct (parse_stringify (map persistable ms)) as [Hne Hp]. cbv zeta in Hne, Hp.
  fold (envelope (messages_value (map persistable ms))) in Hne, Hp. fold (stored_text ms) in Hne, Hp.
  apply truthy_spec in Hne. rewrite Hne. cbn [negb]. rewrite (proj2 (Z.ltb_ge _ _)) by done.
  rewrite Hp. change (value_truthy (envelope _)) with true. cbn [negb].
  change (unwrapStoredValue (envelope ?v)) with v.
  rewrite schema_persistable by by apply settled_schema. cbv zeta.
  assert (Forall settled (map reduced ms)) as Hs'.
  { apply Forall_map. eapply Forall_impl; [exact Hs|]. apply reduced_settled. }
  assert (map (λ m, normalizeStoredMessageForLoad m n1 n2 n3) (map persistable ms) =
    map persistable (map reduced ms)) as ->.
  { rewrite !map_map. apply map_ext_in. intros m Hm%list_elem_of_In.
    rewrite Forall_forall in Hs. destruct (Hs m Hm) as [_ Hpm]. by apply normalize_settled. }
  rewrite trimMessages_small by by rewrite !length_map.
  destruct (trimBySize_spec (map persistable (map reduced ms))) as (_ & _ & -> & _);
    [|by rewrite total_size_persistable].
  assert (Forall settled (map persistable (map reduced ms))) as Hs''.
  { apply Forall_map. eapply Forall_impl; [exact Hs'|]. apply persistable_settled. }
  unfold sanitizeMessagesOnLoad. rewrite settled_not_pending by done. f_equal.
  rewrite !save_stores by (rewrite ?length_map; try done; by apply settled_schema).
  unfold stored_text. do 4 f_equal. rewrite map_map. apply map_ext, persistable_idemp.
Qed.

End properties.

(** ** A codec, to show that its laws can hold *)

#[export] Instance MessageRole_countable : Countable MessageRole.
Proof.
  refine (inj_countable' (λ r, match r with User => 0 | Assistant => 1 | System => 2 end)
    (λ n, if decide (n = 0) then User else if decide (n = 1) then Assistant else System) _).
  by intros [].
Defined.

#[export] Instance MessageStatus_countable : Countable MessageStatus.
Proof.
  refine (inj_countable' (λ r, match r with Loading => 0 | Streaming => 1 | Complete => 2 | Error => 3 end)
    (λ n, if decide (n = 0) then Loading else if decide (n = 1) then Streaming
          else if decide (n = 2) then Complete else Error) _).
  by intros [].
Defined.

#[export] Instance MessageVersion_countable : Countable MessageVersion.
Proof.
  refine (inj_countable' (λ v, (v_id v, v_content v)) (λ p, mkVersion p.1 p.2) _). by intros [].
Defined.

#[export] Instance ChatAttachment_countable : Countable ChatAttachment.
Proof.
  refine (inj_countable' (λ a, (a_id a, a_name a, a_mimeType a, a_size a, a_dataUrl a))
    (λ '(i, n, m, z, d), mkAttachment i n m z d) _). by intros [].
Defined.

#[export] Instance Reasoning_countable : Countable Msg.Reasoning.
Proof.
  refine (inj_countable' (λ r, (r_content r, r_duration r, r_startedAt r, r_completedAt r, r_durationMs r))
    (λ '(c, d, s, e, n), mkReasoning c d s e n) _). by intros [].
Defined.

#[export] Instance Source_countable : Countable Source.
Proof.
  refine (inj_countable' (λ s, (src_href s, src_title s)) (λ p, mkSource p.1 p.2) _). by intros [].
Defined.

#[export] Instance Message_countable : Countable Message.
Proof.
  refine (inj_countable' (λ m, (m_attachments m, m_missingAttachments m, m_key m, m_from m,
      m_versions m, m_createdAt m, m_startedAt m, m_completedAt m,
      (m_durationMs m, m_sources m, m_reasoning m, m_isReasoningStreaming m,
       m_isReasoningComplete m, m_isContentComplete m, m_status m, m_errorCode m)))
    (λ '(a, b, c, d, e, f, g, h, (i, j, k, l, n, o, p, q)),
      mkMessage a b c d e f g h i j k l n o p q) _). by intros [].
Defined.

(** Conversations are numbered; the text of one is its number. *)
Definition numbered_value (ms : list Message) : value := Str [Npos (encode ms)].

Definition numbered_parse (v : value) : option (list Message) :=
  match v with
  | Str [Npos n] =>
      match decode (A := list Message) n with
      | Some ms => if forallb schema_ok ms then Some ms else None
      | None => None
      end
  | _ => None
  end.

Lemma numbered_schema ms :
  numbered_parse (numbered_value ms) = if forallb schema_ok ms then Some ms else None.
Proof. unfold numbered_parse, numbered_value. by rewrite decode_encode. Qed.

(** The text is padded on the left, so that texts of any length can be had. *)
Definition numbered_stringify (pad : nat) (v : value) : jsstr :=
  match v with Obj [_; (_, Str s)] => replicate (S pad) 32%N ++ s | _ => [0%N] end.

Definition numbered_JSON (pad : nat) (s : jsstr) : option value :=
  Some (envelope (Str (drop (S pad) s))).

Lemma numbered_json pad ms :
  numbered_stringify pad (envelope (numbered_value ms)) ≠ [] ∧
  numbered_JSON pad (numbered_stringify pad (envelope (numbered_value ms))) =
    Some (envelope (numbered_value ms)).
Proof.
  unfold numbered_value. generalize [N.pos (encode ms)]. intros s. split; [done|].
  unfold numbered_JSON. cbn [numbered_stringify envelope].
  by rewrite drop_app_length' by (by rewrite length_replicate).
Qed.

Definition numbered_codec (pad : nat) : Codec :=
  Build_Codec (numbered_stringify pad) (numbered_JSON pad) numbered_value numbered_parse
    (numbered_json pad) (λ ms _, numbered_schema ms).

Lemma numbered_text_length pad ms :
  str_length (@stored_text (numbered_codec pad) ms) = Z.of_nat pad + 2.
Proof.
  unfold stored_text, str_length. cbn [stringify messages_value numbered_codec].
  unfold numbered_value, envelope, numbered_stringify.
  rewrite length_app, length_replicate. cbn [length]. lia.
Qed.

Lemma lost_attachments_missing ms :
  Exists (λ m, ∃ a l, m_attachments m = Some (a :: l)) ms →
  existsb (λ m, default false (m_missingAttachments m)) (map persistable ms) = true.
Proof.
  induction 1 as [m ms (a & l & Ha)|m ms _ IH]; simpl.
  - by rewrite Ha, orb_true_r.
  - by rewrite IH, orb_true_r.
Qed.

(** ** Properties *)

(** What one account stores is out of reach of every other: saving, loading or clearing
    a user's conversations leaves every entry of another user as it is, and without a
    valid user id nothing is stored or loaded. *)
Theorem storage_isolated `{Codec} (t : jsstr → jsstr) (accepts : jsstr → jsstr → bool)
    (ms : list Message) (u u' : option jsnum) (base' key' : jsstr) (store : gmap jsstr jsstr)
    (n1 n2 n3 : Z) :
  u ≠ u' →
  getStorageKey base' u' = Some key' →
  saveMessages accepts ms u store !! key' = store !! key' ∧
  (loadMessages t accepts u n1 n2 n3 store).2 !! key' = store !! key' ∧
  clearPlaygroundData u store !! key' = store !! key' ∧
  (getStorageKey MESSAGES_KEY u = None →
   saveMessages accepts ms u store = store ∧ loadMessages t accepts u n1 n2 n3 store = (None, store)).
Proof.
  intros Hne Hk. split_and!; [by eapply save_other|by eapply load_other|by eapply clear_other|].
  intros Hn. unfold saveMessages, loadMessages, readStoredMessagesValue, writeStoredValue.
  rewrite Hn. split; [by case_match|done].
Qed.

Definition stored_message : Message :=
  createUserMessage (js "k") (js "v") (js "hi") 1 [].

Lemma storage_isolated_witness :
  @saveMessages (numbered_codec 0) (λ _ _, true) [stored_message] (Some (num_of_Z 1)) {[js "m:user:2" := js "x"]} !!
    js "m:user:2" = Some (js "x").
Proof.
  destruct (@storage_isolated (numbered_codec 0) (λ s, s) (λ _ _, true) [stored_message] (Some (num_of_Z 1))
    (Some (num_of_Z 2)) (js "m") (js "m:user:2") {[js "m:user:2" := js "x"]} 1 2 3) as [H _].
  - by intros [= ?].
  - by vm_compute.
  - rewrite H. by vm_compute.
Defined.

(** [C37] Round trip: a settled conversation of at most 100 messages, of at most 120000
    characters once loading has reduced its texts and stored in at most 1 MiB, is loaded with
    all its messages, each as it was saved but for three things: attachments are gone and
    marked as missing, so that it cannot be sent without them; a version of 2000 characters
    or more in which a numbered heading stands three times or more is collapsed; and texts
    are cut to 40000 characters. If every text is within these limits, the conversation is
    loaded as it was saved and loading it stores the same text again. *)
Theorem storage_roundtrip `{Codec} (t : jsstr → jsstr) (accepts : jsstr → jsstr → bool)
    (ms : list Message) (z : Z) (store : gmap jsstr jsstr) (n1 n2 n3 : Z) :
  0 < z ≤ MAX_SAFE → (length ms ≤ 100)%nat → Forall settled ms →
  total_size (map reduced ms) ≤ 120000 → str_length (stored_text ms) ≤ 1048576 →
  accepts (MESSAGES_KEY ++ js ":user:" ++ show_Z z) (stored_text ms) = true →
  let u := Some (num_of_Z z) in
  let store' := saveMessages accepts ms u store in
  (loadMessages t accepts u n1 n2 n3 store').1 = Some (map persistable (map reduced ms)) ∧
  (Forall within_limits ms →
   loadMessages t accepts u n1 n2 n3 store' = (Some (map persistable ms), store')) ∧
  (Exists (λ m, ∃ a l, m_attachments m = Some (a :: l)) ms →
   validateConversationAttachments (map persistable (map reduced ms)) = Throw MISSING).
Proof.
  intros Hz Hl Hs Ht Hb Hacc u store'. pose proof (settled_schema ms Hs) as Hsch.
  assert (store' = <[MESSAGES_KEY ++ js ":user:" ++ show_Z z := stored_text ms]> store) as Hst.
  { unfold store', u. rewrite save_stores by done. unfold setItem. by rewrite Hacc. }
  assert (loadMessages t accepts u n1 n2 n3 store' =
    (Some (map persistable (map reduced ms)), saveMessages accepts (map reduced ms) u store')) as ->.
  { apply load_stored; try done. rewrite Hst. apply lookup_insert_eq. }
  split_and!; [done| |].
  - intros Hw. assert (map reduced ms = ms) as ->.
    { apply map_fix. eapply Forall_impl; [exact Hw|]. intros m. apply reduced_within. }
    f_equal. unfold u. rewrite save_stores by done. unfold setItem. rewrite Hacc, Hst.
    apply insert_insert_eq.
  - intros Hex. unfold validateConversationAttachments. rewrite lost_attachments_missing; [done|].
    apply Exists_exists in Hex as (m & Hin & a & l & Ha). apply Exists_exists. exists (reduced m).
    split; [by apply list_elem_of_fmap_2|by exists a, l].
Qed.

(** A long settled message, and one that repeats a section three times. *)
Definition long_message : Message :=
  createUserMessage (js "k") (js "v") (replicate 3000 97%N) 1 [].

Definition example_section : jsstr := js "## 1. Plan" ++ [10%N] ++ replicate 900 98%N ++ [10%N].

Definition repeated_message : Message :=
  createUserMessage (js "r") (js "v") (example_section ++ example_section ++ example_section) 1 [].

Lemma repeated_message_collapsed : getMessageContent (reduced repeated_message) = example_section.
Proof. by vm_compute. Qed.

Lemma storage_roundtrip_witness :
  let u := Some (num_of_Z 7) in
  let store ms := @saveMessages (numbered_codec 0) (λ _ _, true) ms u ∅ in
  @loadMessages (numbered_codec 0) (λ s, s) (λ _ _, true) u 1 2 3 (store [long_message]) =
    (Some [persistable long_message], store [long_message]) ∧
  (@loadMessages (numbered_codec 0) (λ s, s) (λ _ _, true) u 1 2 3
    (store [long_message; repeated_message])).1 =
    Some (map persistable [reduced long_message; reduced repeated_message]).
Proof.
  split.
  - refine (proj1 (proj2 (@storage_roundtrip (numbered_codec 0) (λ s, s) (λ _ _, true) [long_message]
      7 ∅ 1 2 3 _ _ _ _ _ _)) _).
    + by vm_compute.
    + simpl. lia.
    + by repeat constructor.
    + by vm_compute.
    + rewrite numbered_text_length. lia.
    + done.
    + constructor; [|constructor]. split; [|done]. constructor; [|constructor].
      split; [by vm_compute|]. intros _. apply collapse_exact. by vm_compute.
  - refine (proj1 (@storage_roundtrip (numbered_codec 0) (λ s, s) (λ _ _, true)
      [long_message; repeated_message] 7 ∅ 1 2 3 _ _ _ _ _ _)).
    + by vm_compute.
    + simpl. lia.
    + by repeat constructor.
    + by vm_compute.
    + rewrite numbered_text_length. lia.
    + done.
Defined.

(** A conversation whose text is longer than 1 MiB is stored all the same, since saving
    bounds the number of messages only; the next load erases it and returns nothing. *)
Theorem oversized_conversation_lost `{Codec} (t : jsstr → jsstr)
    (accepts : jsstr → jsstr → bool) (ms : list Message) (z : Z) (store : gmap jsstr jsstr)
    (n1 n2 n3 : Z) :
  0 < z ≤ MAX_SAFE → (length ms ≤ 100)%nat → Forall (λ m, schema_ok m = true) ms →
  1048576 < str_length (stored_text ms) →
  accepts (MESSAGES_KEY ++ js ":user:" ++ show_Z z) (stored_text ms) = true →
  let u := Some (num_of_Z z) in
  let key := MESSAGES_KEY ++ js ":user:" ++ show_Z z in
  saveMessages accepts ms u store !! key = Some (stored_text ms) ∧
  (loadMessages t accepts u n1 n2 n3 (saveMessages accepts ms u store)).1 = None ∧
  (loadMessages t accepts u n1 n2 n3 (saveMessages accepts ms u store)).2 !! key = None.
Proof.
  intros Hz Hl Hs Hb Hacc u key.
  assert (saveMessages accepts ms u store = <[key := stored_text ms]> store) as ->.
  { unfold u. rewrite save_stores by done. unfold setItem. by rewrite Hacc. }
  split; [apply lookup_insert_eq|]. unfold loadMessages, readStoredMessagesValue, u.
  rewrite getStorageKey_Some by done. fold key. rewrite lookup_insert_eq.
  assert (truthy (stored_text ms) = true) as ->.
  { apply truthy_spec. intros Hn. rewrite Hn in Hb. done. }
  cbn [negb]. unfold MAX_STORED_MESSAGES_BYTES. rewrite (proj2 (Z.ltb_lt _ _)) by done.
  split; [done|]. apply lookup_delete_eq.
Qed.

Lemma oversized_conversation_lost_witness :
  let codec := numbered_codec (Z.to_nat 1048576) in
  (@loadMessages codec (λ s, s) (λ _ _, true) (Some (num_of_Z 7)) 1 2 3
    (@saveMessages codec (λ _ _, true) [stored_message] (Some (num_of_Z 7)) ∅)).1 = None.
Proof.
  refine (proj1 (proj2 (@oversized_conversation_lost (numbered_codec (Z.to_nat 1048576)) (λ s, s)
    (λ _ _, true) [stored_message] 7 ∅ 1 2 3 _ _ _ _ _))).
  - by vm_compute.
  - simpl. lia.
  - by repeat constructor.
  - rewrite numbered_text_length. lia.
  - done.
Defined.

(** [C38] What [loadMessages] returns of the conversation a user's entry holds: its last
    messages, at least one if it has any, at most 100. Together they have at most 120000
    characters (and the notice, when one settles an interrupted answer), unless a single
    message is left; no version and no reasoning has more than 40000 (but for the notice).
    Messages no answer was awaited for come back reduced and otherwise unchanged, and what
    is returned has been written back. *)
Theorem loaded_conversation_bounded `{Codec} (t : jsstr → jsstr) (accepts : jsstr → jsstr → bool)
    (u : option jsnum) (n1 n2 n3 : Z) (store store' : gmap jsstr jsstr) (ms : list Message) :
  loadMessages t accepts u n1 n2 n3 store = (Some ms, store') →
  (length ms ≤ 100)%nat ∧
  (total_size ms ≤ 120000 + str_length (interrupted_notice t) ∨ (length ms ≤ 1)%nat) ∧
  Forall (bounded (interrupted_notice t)) ms ∧
  store' = saveMessages accepts ms u store ∧
  ∃ key text v parsed k,
    getStorageKey MESSAGES_KEY u = Some key ∧ store !! key = Some text ∧ JSON_parse text = Some v ∧
    messagesSchema_parse (unwrapStoredValue v) = Some parsed ∧
    map m_key ms = map m_key (drop k parsed) ∧ (parsed ≠ [] → ms ≠ []) ∧
    ∀ i m, drop k parsed !! i = Some m → isAssistantMessagePending m = false →
      ms !! i = Some (reduced m).
Proof.
  unfold loadMessages, readStoredMessagesValue.
  destruct (getStorageKey MESSAGES_KEY u) as [key|]; [|done].
  destruct (store !! key) as [text|] eqn:Et; [|done]. destruct (negb (truthy text)); [done|].
  destruct (_ <? _); [done|]. destruct (JSON_parse text) as [v|] eqn:Ev; [|done].
  destruct (negb (value_truthy v)); [done|].
  destruct (messagesSchema_parse (unwrapStoredValue v)) as [parsed|] eqn:Ep; [|done].
  cbv zeta. set (norm := λ m, normalizeStoredMessageForLoad m n1 n2 n3).
  set (normalized := map norm parsed). set (loaded := trimMessagesByContentSize (trimMessages normalized)).
  intros [= <- <-].
  destruct (trimBySize_spec (trimMessages normalized)) as ([pre Hpre] & Hsize & _ & Hne). fold loaded in Hpre, Hsize, Hne.
  destruct (trimMessages_suffix normalized) as [pre' Hpre'].
  assert (loaded = map norm (drop (length (pre' ++ pre)) parsed)) as Hloaded.
  { change (map norm) with (fmap (M:=list) norm). rewrite fmap_drop. change (norm <$> parsed) with normalized. by rewrite Hpre', Hpre, app_assoc, drop_app_length. }
  set (k := length (pre' ++ pre)) in Hloaded. clearbody k.
  destruct (sanitize_list_bounded t loaded n1 n2 n3) as (Hk & Hb & Hs & Hi).
  { rewrite Hloaded. apply Forall_map, Forall_true. intros m.
    destruct (normalize_bounded (interrupted_notice t) m n1 n2 n3) as (_ & ? & ?). done. }
  assert (length (sanitizeMessagesOnLoad t loaded n1 n2 n3) = length loaded) as Hl.
  { rewrite <- (length_map m_key), Hk. by rewrite length_map. }
  split_and!; [| |done|done|].
  - rewrite Hl. pose proof (trimMessages_length normalized) as Hn. rewrite Hpre, length_app in Hn. lia.
  - rewrite Hl. unfold MAX_LOADED_MESSAGES_CHARS in Hsize. destruct Hsize; [left; lia|by right].
  - exists key, text, v, parsed, k. split_and!; [done..| | |].
    + rewrite Hk, Hloaded, map_map. apply map_ext. intros m. apply (normalize_bounded []).
    + intros Hp. assert (loaded ≠ []) as Hlo.
      { apply Hne, trimMessages_nonempty. unfold normalized. by destruct parsed. }
      intros Hnil. rewrite Hnil in Hl. by destruct loaded.
    + intros i m Hm Hpm. apply Hi; [|done]. rewrite Hloaded, <- (normalize_settled m n1 n2 n3 Hpm).
      by change (map norm) with (fmap (M:=list) norm); rewrite list_lookup_fmap, Hm.
Qed.

Lemma loaded_conversation_bounded_witness :
  let u := Some (num_of_Z 7) in
  let store := @saveMessages (numbered_codec 0) (λ _ _, true) [stored_message] u ∅ in
  ∃ ms, (@loadMessages (numbered_codec 0) (λ s, s) (λ _ _, true) u 1 2 3 store).1 = Some ms ∧
    (length ms ≤ 100)%nat ∧ Forall (bounded (interrupted_notice (λ s, s))) ms.
Proof.
  intros u store.
  assert (∃ ms store', @loadMessages (numbered_codec 0) (λ s, s) (λ _ _, true) u 1 2 3 store =
    (Some ms, store')) as (ms & store' & He).
  { do 2 eexists. apply (@load_stored (numbered_codec 0) (λ s, s) (λ _ _, true) [stored_message] 7 store 1 2 3).
    - by vm_compute.
    - simpl. lia.
    - by repeat constructor.
    - by vm_compute.
    - rewrite numbered_text_length. by vm_compute.
    - unfold store, u. rewrite save_stores; [apply lookup_insert_eq|by vm_compute|simpl; lia|by repeat constructor]. }
  exists ms. rewrite He. split; [done|].
  destruct (@loaded_conversation_bounded (numbered_codec 0) (λ s, s) (λ _ _, true) u 1 2 3 store
    store' ms He) as (Hl & _ & Hb & _). exact (conj Hl Hb).
Defined.

End Storage.
