(* ===== verification/AuthSession.v ===== *)
(** * The session of the signed-in user
      (web/src/lib/auth-session.ts, auth-session-sync.ts, stores/auth-store.ts)

    The store holds the user, the access token and the login session. A refresh asks the
    server for a new bundle, retries while another tab holds the race, and gives up at a
    deadline; one refresh runs at a time; signing in or out meanwhile advances an epoch
    and supersedes it. The runner is modelled twice: as a function of the responses it
    gets, for what it returns and that it stops, and as a coroutine of a state machine,
    in which responses, waits, the deadline's timer, the browser's lock and everything
    else that touches the session happen in any order. *)
From S2P Require Import Prelude JsString JsValue.
Local Open Scope Z_scope.

Module Auth.

(** ** Data *)

Record LoginSession := mkSession {
  sid : jsstr; current : bool; login_method : jsstr; ip : jsstr; user_agent : jsstr;
  created_at : jsnum; last_active_at : jsnum; expires_at : jsnum
}.

(** [user_object] is the object itself, for the fields the checks do not read. *)
Record AuthUser := mkUser {
  user_id : jsnum; username : jsstr; role : jsnum; user_object : value
}.

Record AuthBundle := mkBundle {
  access_token : jsstr; token_type : jsstr; access_expires_at : jsnum;
  b_user : AuthUser; b_session : LoginSession
}.

Inductive AuthBootstrapState := Idle | Checking | CompleteState.

#[export] Instance AuthBootstrapState_eq_dec : EqDecision AuthBootstrapState.
Proof. solve_decision. Defined.

Record AuthStore := mkStore {
  user : option AuthUser;
  accessToken : option jsstr;
  accessExpiresAt : option jsnum;
  session : option LoginSession;
  pending2FAFlowToken : option jsstr;
  bootstrapState : AuthBootstrapState
}.

Definition initial_store : AuthStore := mkStore None None None None None Idle.

Definition setBundle (b : AuthBundle) (s : AuthStore) : AuthStore :=
  mkStore (Some (b_user b)) (Some (access_token b)) (Some (access_expires_at b))
    (Some (b_session b)) None CompleteState.

Definition setUser (u : option AuthUser) (s : AuthStore) : AuthStore :=
  mkStore u (accessToken s) (accessExpiresAt s) (session s) (pending2FAFlowToken s)
    (bootstrapState s).

Definition setPending2FAFlowToken (f : option jsstr) (s : AuthStore) : AuthStore :=
  mkStore (user s) (accessToken s) (accessExpiresAt s) (session s) f (bootstrapState s).

Definition setBootstrapState (b : AuthBootstrapState) (s : AuthStore) : AuthStore :=
  mkStore (user s) (accessToken s) (accessExpiresAt s) (session s) (pending2FAFlowToken s) b.

Definition reset (b : AuthBootstrapState) (s : AuthStore) : AuthStore :=
  mkStore None None None None None b.

(** ** Validation of what the server sends *)

Definition isRecord (v : value) : bool := value_truthy v && is_object_type v.

Definition parseAuthUser (v : value) : option AuthUser :=
  if negb (isRecord v) then None
  else
    match get v (js "id"), get v (js "username"), get v (js "role") with
    | Num id, Str name, Num r =>
        match as_integer id with
        | Some z => if 0 <? z then Some (mkUser id name r v) else None
        | None => None
        end
    | _, _, _ => None
    end.

Definition parseLoginSession (v : value) : option LoginSession :=
  if negb (isRecord v) then None
  else
    match get v (js "sid"), get v (js "current"), get v (js "login_method"), get v (js "ip"),
      get v (js "user_agent"), get v (js "created_at"), get v (js "last_active_at"),
      get v (js "expires_at") with
    | Str s, Bool c, Str lm, Str i, Str ua, Num ca, Num la, Num ea =>
        if truthy s then Some (mkSession s c lm i ua ca la ea) else None
    | _, _, _, _, _, _, _, _ => None
    end.

(** [hasValidTokenFields], with the fields it checked. *)
Definition token_fields (v : value) : option (jsstr * jsstr * jsnum) :=
  match get v (js "access_token"), get v (js "token_type"), get v (js "access_expires_at") with
  | Str a, Str ty, Num e =>
      if truthy a && truthy ty && isFinite e && num_lt (num_of_Z 0) e then Some (a, ty, e) else None
  | _, _, _ => None
  end.

(** [isAuthBundle(value) ? value : null] *)
Definition parseBundle (v : value) : option AuthBundle :=
  if negb (isRecord v) then None
  else
    match token_fields v, parseAuthUser (get v (js "user")),
      parseLoginSession (get v (js "session")) with
    | Some (a, ty, e), Some u, Some s => Some (mkBundle a ty e u s)
    | _, _, _ => None
    end.

Record AuthTokenRotation := mkRotation {
  r_access_token : jsstr; r_token_type : jsstr; r_access_expires_at : jsnum;
  r_session : LoginSession
}.

Definition parseAuthTokenRotation (v : value) : option AuthTokenRotation :=
  if negb (isRecord v) then None
  else
    match token_fields v, parseLoginSession (get v (js "session")) with
    | Some (a, ty, e), Some s =>
        if streq ty (js "Bearer") && current s then Some (mkRotation a ty e s) else None
    | _, _ => None
    end.

(** ** The refresh runner as a function of its responses *)

Record AuthRefreshHTTPResponse := mkResponse { status : Z; data : value; error : value }.

Inductive RefreshOutcome :=
| Authenticated (bundle : AuthBundle)
| Anonymous
| TransientError (error : value)
| Superseded                       (* a transient error: AuthRefreshSupersededError *)
| TimedOut                         (* a transient error: AuthRefreshTimeoutError *)
| OutOfSync (code : option jsstr).

Definition refreshRaceDelays : list Z := [80; 200; 500].

(** What the runner does with one response. *)
Inductive Reaction :=
| Accept (bundle : AuthBundle)
| RetryAfter (delay : Z)                       (* the next race attempt *)
| RetryFresh                                   (* after clearing a mismatched session *)
| GiveUp (synchronizeTabs : bool) (o : RefreshOutcome)
| Transient (error : value).

Definition response_code (r : AuthRefreshHTTPResponse) : option jsstr :=
  if isRecord (data r) then match get (data r) (js "code") with Str c => Some c | _ => None end
  else None.

Definition code_is (c : option jsstr) (s : jsstr) : bool :=
  match c with Some c => streq c s | None => false end.

Definition coalesce (a b : value) : value := match a with Undef | Null => b | _ => a end.

Definition react (r : AuthRefreshHTTPResponse) (raceAttempt : nat) (allowMismatchRetry : bool) :
    Reaction :=
  let responseData := if isRecord (data r) then data r else Undef in
  let code := response_code r in
  let bundle := parseBundle (get responseData (js "data")) in
  match is_true (get responseData (js "success")), bundle with
  | true, Some b => Accept b
  | _, _ =>
      if (status r =? 409) && code_is code (js "AUTH_REFRESH_RACE") then
        match refreshRaceDelays !! raceAttempt with
        | Some delay => RetryAfter delay
        | None => GiveUp false (OutOfSync code)
        end
      else if (status r =? 409) && code_is code (js "AUTH_SESSION_MISMATCH") then
        if allowMismatchRetry then RetryFresh else GiveUp false (OutOfSync code)
      else if status r =? 401 then GiveUp true Anonymous
      else if (status r =? 0) || (500 <=? status r) || (status r =? 429) then
        Transient (coalesce (error r) (data r))
      else GiveUp false (OutOfSync (Some (default (js "AUTH_INVALID_REFRESH_RESPONSE") code)))
  end.

(** The runner against the server's answers, and against what [isCurrent] says before the
    [n]-th request ([before n]) and after its response ([after n]): the outcome, the requests
    made and the time waited; [None] when the fuel runs out. *)
Fixpoint run_refresh (fuel : nat) (before after : nat → bool) (responses : nat → AuthRefreshHTTPResponse)
    (requests : nat) (waited : Z) (raceAttempt : nat) (allow : bool) :
    option (RefreshOutcome * nat * Z) :=
  match fuel with
  | O => None
  | S f =>
      if negb (before requests) then Some (Superseded, requests, waited)
      else if negb (after requests) then Some (Superseded, S requests, waited)
      else
        match react (responses requests) raceAttempt allow with
        | Accept b => Some (Authenticated b, S requests, waited)
        | RetryAfter delay =>
            run_refresh f before after responses (S requests) (waited + delay) (S raceAttempt) allow
        | RetryFresh => run_refresh f before after responses (S requests) waited 0 false
        | GiveUp _ o => Some (o, S requests, waited)
        | Transient e => Some (TransientError e, S requests, waited)
        end
  end.

(** ** The session and its refreshes as a state machine *)

Record AuthRefreshGeneration := mkGen {
  g_epoch : nat; g_deadline : Z; g_cancelled : bool; g_outcome : option RefreshOutcome
}.

(** Where the coroutine of a generation stands. *)
Inductive Pc :=
| WaitLock
| WaitResponse (raceAttempt : nat) (allowMismatchRetry : bool) (expectedSID : option jsstr)
| WaitRace (raceAttempt : nat) (allowMismatchRetry : bool)
| Finished.

Inductive SyncEvent := PublishAuthenticated (sid : jsstr) | PublishSignedOut (sid : jsstr).

Record State := mkState {
  store : AuthStore;
  authEpoch : nat;
  now : Z;
  generations : list (AuthRefreshGeneration * Pc);
  refreshPromise : option nat;
  published : list SyncEvent
}.

Definition set_store (a : AuthStore) (s : State) : State :=
  mkState a (authEpoch s) (now s) (generations s) (refreshPromise s) (published s).
Definition bump_epoch (s : State) : State :=
  mkState (store s) (S (authEpoch s)) (now s) (generations s) (refreshPromise s) (published s).
Definition set_generations (l : list (AuthRefreshGeneration * Pc)) (s : State) : State :=
  mkState (store s) (authEpoch s) (now s) l (refreshPromise s) (published s).
Definition set_promise (p : option nat) (s : State) : State :=
  mkState (store s) (authEpoch s) (now s) (generations s) p (published s).
Definition publish (l : list SyncEvent) (s : State) : State :=
  mkState (store s) (authEpoch s) (now s) (generations s) (refreshPromise s) (published s ++ l).

Definition set_pc (i : nat) (pc : Pc) (s : State) : State :=
  set_generations (alter (λ gp, (gp.1, pc)) i (generations s)) s.

Definition set_gen (i : nat) (f : AuthRefreshGeneration → AuthRefreshGeneration) (s : State) : State :=
  set_generations (alter (λ gp, (f gp.1, gp.2)) i (generations s)) s.

Definition ownsRefreshGeneration (g : AuthRefreshGeneration) (s : State) : bool :=
  (authEpoch s =? g_epoch g)%nat && negb (g_cancelled g).

Definition isRefreshGenerationCurrent (g : AuthRefreshGeneration) (s : State) : bool :=
  ownsRefreshGeneration g s && (now s <? g_deadline g).

Definition previous_sid (s : State) : option jsstr := sid <$> session (store s).

Definition applyAuthBundle (b : AuthBundle) (synchronizeTabs : bool) (s : State) : State :=
  let previousSID := previous_sid s in
  let s1 := set_store (setBundle b (store s)) (bump_epoch s) in
  if synchronizeTabs && negb (bool_decide (previousSID = Some (sid (b_session b))))
  then publish (if truthy (sid (b_session b)) then [PublishAuthenticated (sid (b_session b))] else []) s1
  else s1.

Definition clearAuthentication (synchronizeTabs : bool) (b : AuthBootstrapState) (s : State) : State :=
  let s1 := set_store (reset b (store s)) (bump_epoch s) in
  match previous_sid s with
  | Some sd => if synchronizeTabs && truthy sd then publish [PublishSignedOut sd] s1 else s1
  | None => s1
  end.

Definition applyAuthRotation (v : value) (s : State) : result jsstr State :=
  match parseAuthTokenRotation v with
  | None => Throw (js "Invalid authentication rotation response")
  | Some r =>
      match user (store s), session (store s) with
      | Some u, Some ss =>
          if negb (streq (sid (r_session r)) (sid ss)) then
            Throw (js "Authentication rotation session mismatch")
          else
            Ok (applyAuthBundle
                  (mkBundle (r_access_token r) (r_token_type r) (r_access_expires_at r) u (r_session r))
                  false s)
      | _, _ => Throw (js "Authentication rotation has no active session")
      end
  end.

(** [cancelRefreshGeneration] and the outcome of [expireRefreshGeneration]. *)
Definition cancel_gen (o : RefreshOutcome) (g : AuthRefreshGeneration) : AuthRefreshGeneration :=
  mkGen (g_epoch g) (g_deadline g) true (Some o).

Definition settle_gen (o : RefreshOutcome) (g : AuthRefreshGeneration) : AuthRefreshGeneration :=
  mkGen (g_epoch g) (g_deadline g) (g_cancelled g) (Some o).

(** [activePromise.then(() => { if (refreshPromise === activePromise) ... })] *)
Definition release_promise (i : nat) (s : State) : State :=
  if bool_decide (refreshPromise s = Some i) then set_promise None s else s.

Definition expireRefreshGeneration (i : nat) (o : RefreshOutcome) (s : State) : State :=
  match generations s !! i with
  | None => s
  | Some (g, _) =>
      let wasActive := ownsRefreshGeneration g s in
      let s1 := set_gen i (cancel_gen o) s in
      release_promise i
        (if wasActive then set_store (setBootstrapState Idle (store s1)) s1 else s1)
  end.

(** The coroutine of generation [i] returned [o]. *)
Definition finish (i : nat) (o : RefreshOutcome) (s : State) : State :=
  match generations s !! i with
  | None => s
  | Some (g, _) =>
      let s1 := set_pc i Finished s in
      match g_outcome g with
      | Some _ => s1                                  (* [settled] *)
      | None =>
          if g_deadline g <=? now s then expireRefreshGeneration i TimedOut s1
          else release_promise i (set_gen i (settle_gen o) s1)
      end
  end.

(** The start of [run]: the check, then the request. *)
Definition start_run (i : nat) (raceAttempt : nat) (allow : bool) (s : State) : State :=
  match generations s !! i with
  | None => s
  | Some (g, _) =>
      if negb (isRefreshGenerationCurrent g s) then finish i Superseded s
      else set_pc i (WaitResponse raceAttempt allow (previous_sid s)) s
  end.

Definition on_response (i : nat) (r : AuthRefreshHTTPResponse) (s : State) : State :=
  match generations s !! i with
  | Some (g, WaitResponse raceAttempt allow _) =>
      if negb (isRefreshGenerationCurrent g s) then finish i Superseded s
      else
        match react r raceAttempt allow with
        | Accept b => finish i (Authenticated b) (applyAuthBundle b false s)
        | RetryAfter _ => set_pc i (WaitRace (S raceAttempt) allow) s
        | RetryFresh => start_run i 0 false (set_store (reset Idle (store s)) s)
        | GiveUp sync o => finish i o (clearAuthentication sync CompleteState s)
        | Transient e => finish i (TransientError e) (set_store (setBootstrapState Idle (store s)) s)
        end
  | _ => s
  end.

Definition on_lock (i : nat) (s : State) : State :=
  match generations s !! i with
  | Some (_, WaitLock) => start_run i 0 true s
  | _ => s
  end.

(** The lock request is rejected: the handler of [performRefreshWithinDeadline]. *)
Definition on_lock_failed (i : nat) (e : value) (s : State) : State :=
  match generations s !! i with
  | Some (g, WaitLock) =>
      let s1 := set_pc i Finished s in
      match g_outcome g with
      | Some _ => s1
      | None => expireRefreshGeneration i (TransientError e) s1
      end
  | _ => s
  end.

Definition on_wait (i : nat) (s : State) : State :=
  match generations s !! i with
  | Some (_, WaitRace a allow) => start_run i a allow s
  | _ => s
  end.

(** The deadline's timer. *)
Definition on_timeout (i : nat) (s : State) : State :=
  match generations s !! i with
  | Some (g, _) =>
      match g_outcome g with
      | Some _ => s
      | None => if g_deadline g <=? now s then expireRefreshGeneration i TimedOut s else s
      end
  | None => s
  end.

Definition refreshTimeoutMilliseconds : Z := 10000.

Definition refreshAuthentication (s : State) : State :=
  match refreshPromise s with
  | Some _ => s
  | None =>
      set_promise (Some (length (generations s)))
        (set_generations (generations s ++
          [(mkGen (authEpoch s) (now s + refreshTimeoutMilliseconds) false None, WaitLock)]) s)
  end.

(** ** Using the session *)

Definition ROLE_ADMIN : jsnum := num_of_Z 10.
Definition ROLE_SUPER_ADMIN : jsnum := num_of_Z 100.

Definition requiresCapabilityRefresh (u : option AuthUser) : bool :=
  match u with
  | Some u =>
      num_le ROLE_ADMIN (role u) && num_lt (role u) ROLE_SUPER_ADMIN &&
      negb (value_truthy (get (get (user_object u) (js "permissions")) (js "admin_permissions")))
  | None => false
  end.

(** Seconds of [Date.now()], rounded down. *)
Definition now_seconds (ms : Z) : jsnum := num_of_Z (ms / 1000).

Definition currentValidAuthBundle (a : AuthStore) (ms : Z) : option AuthBundle :=
  match user a, accessToken a, accessExpiresAt a, session a with
  | Some u, Some tok, Some e, Some ss =>
      if negb (truthy tok) || negb (value_truthy (Num e)) || num_le e (now_seconds ms) then None
      else if requiresCapabilityRefresh (Some u) then None
      else Some (mkBundle tok (js "Bearer") e u ss)
  | _, _, _, _ => None
  end.

(** [inl]: the outcome at once; [inr]: wait for the refresh. *)
Definition bootstrapAuthentication (s : State) : State * (RefreshOutcome + nat) :=
  match currentValidAuthBundle (store s) (now s) with
  | Some b => (set_store (setBootstrapState CompleteState (store s)) s, inl (Authenticated b))
  | None =>
      let hasStaleSession :=
        match user (store s), session (store s) with Some _, Some _ => true | _, _ => false end in
      if bool_decide (bootstrapState (store s) = CompleteState) && negb hasStaleSession
      then (s, inl Anonymous)
      else
        let s1 := refreshAuthentication (set_store (setBootstrapState Checking (store s)) s) in
        (s1, inr (default O (refreshPromise s1)))
  end.

Definition getCommonHeaders (a : AuthStore) : list (jsstr * jsstr) :=
  (js "Content-Type", js "application/json") ::
  match accessToken a with
  | Some tok => if truthy tok then [(js "Authorization", js "Bearer " ++ tok)] else []
  | None => []
  end.

Definition token_valid_after (a : AuthStore) (seconds : jsnum) : bool :=
  match accessToken a, accessExpiresAt a with
  | Some tok, Some e => truthy tok && value_truthy (Num e) && num_lt seconds e
  | _, _ => false
  end.

(** [getFreshAuthHeaders] before its [await]: the headers, when no refresh is needed. *)
Definition fresh_headers_now (s : State) : option (list (jsstr * jsstr)) :=
  if token_valid_after (store s) (num_of_Z (now s / 1000 + 60))
  then Some (getCommonHeaders (store s)) else None.

(** And after it. [t] is i18next's. *)
Definition fresh_headers_after (t : jsstr → jsstr) (o : RefreshOutcome) (s : State) :
    result jsstr (list (jsstr * jsstr)) :=
  match o with
  | Authenticated _ => Ok (getCommonHeaders (store s))
  | _ =>
      if token_valid_after (store s) (now_seconds (now s)) then Ok (getCommonHeaders (store s))
      else match o with
           | TransientError _ | Superseded | TimedOut => Throw (t (js "Request failed"))
           | _ => Throw (t (js "Session expired!"))
           end
  end.

(** ** Events *)

Inductive Event :=
| ETick (d : Z)
| ERefresh
| EBootstrap
| ELock (i : nat)
| ELockFailed (i : nat) (e : value)
| EResponse (i : nat) (r : AuthRefreshHTTPResponse)
| EWaited (i : nat)
| ETimeout (i : nat)
| ESignIn (b : AuthBundle) (synchronizeTabs : bool)
| EClear (synchronizeTabs : bool) (b : AuthBootstrapState)
| ERotate (v : value)
| ESetUser (u : option AuthUser).

Definition step (s : State) (e : Event) : State :=
  match e with
  | ETick d => mkState (store s) (authEpoch s) (now s + Z.max 0 d) (generations s) (refreshPromise s) (published s)
  | ERefresh => refreshAuthentication s
  | EBootstrap => (bootstrapAuthentication s).1
  | ELock i => on_lock i s
  | ELockFailed i e => on_lock_failed i e s
  | EResponse i r => on_response i r s
  | EWaited i => on_wait i s
  | ETimeout i => on_timeout i s
  | ESignIn b sync => applyAuthBundle b sync s
  | EClear sync b => clearAuthentication sync b s
  | ERotate v => match applyAuthRotation v s with Ok s' => s' | Throw _ => s end
  | ESetUser u => set_store (setUser u (store s)) s
  end.

Definition run (s : State) (es : list Event) : State := foldl step s es.

Definition init : State := mkState initial_store 0 0 [] None [].

(** ** The runner stops *)

Definition remaining (raceAttempt : nat) (allow : bool) : nat :=
  (4 - raceAttempt + if allow then 4 else 0)%nat.

Definition delays_left (raceAttempt : nat) : Z := foldr Z.add 0 (drop raceAttempt refreshRaceDelays).

Definition wait_budget (raceAttempt : nat) (allow : bool) : Z :=
  delays_left raceAttempt + if allow then 780 else 0.

Lemma delays_left_nonneg a : 0 ≤ delays_left a.
Proof. do 3 (destruct a as [|a]; [done|]). unfold delays_left. by rewrite drop_ge by (simpl; lia). Qed.

Lemma react_retry r a allow d :
  react r a allow = RetryAfter d → (a ≤ 2)%nat ∧ delays_left a = d + delays_left (S a).
Proof.
  unfold react. intros H. assert (refreshRaceDelays !! a = Some d) as Hd.
  { by repeat (case_match; simplify_eq). }
  do 3 (destruct a as [|a]; [split; [lia|by injection Hd as <-]|]). done.
Qed.

Lemma react_fresh r a allow : react r a allow = RetryFresh → allow = true.
Proof. unfold react. intros H. by repeat (case_match; try done). Qed.

Lemma react_accept r a allow b :
  react r a allow = Accept b →
  is_true (get (data r) (js "success")) = true ∧ parseBundle (get (data r) (js "data")) = Some b.
Proof.
  unfold react. intros H. destruct (isRecord (data r)) eqn:E.
  - destruct (is_true (get (data r) (js "success"))); [|by repeat (case_match; try done)].
    destruct (parseBundle (get (data r) (js "data"))); [by injection H as ->|].
    by repeat (case_match; try done).
  - simpl in H. by repeat (case_match; try done).
Qed.

(** What the runner returns is its reaction to the last response. *)
Definition final_reaction (r : AuthRefreshHTTPResponse) (o : RefreshOutcome) : Prop :=
  match o with
  | Authenticated b =>
      is_true (get (data r) (js "success")) = true ∧ parseBundle (get (data r) (js "data")) = Some b
  | Anonymous => status r = 401
  | TransientError _ => status r = 0 ∨ 500 ≤ status r ∨ status r = 429
  | OutOfSync _ => status r ≠ 401 ∧ status r ≠ 0 ∧ status r < 500 ∧ status r ≠ 429
  | Superseded | TimedOut => False
  end.

Lemma react_final r a allow o :
  (∃ sync, react r a allow = GiveUp sync o) ∨
  (∃ b, react r a allow = Accept b ∧ o = Authenticated b) ∨
  (∃ e, react r a allow = Transient e ∧ o = TransientError e) →
  final_reaction r o.
Proof.
  intros [[sync H]|[(b & H & ->)|(e & H & ->)]].
  - unfold react in H. repeat (case_match; try done); injection H as <- <-; simpl;
      rewrite ?andb_true_iff, ?orb_false_iff, ?Z.eqb_eq, ?Z.eqb_neq, ?Z.leb_gt in *; lia.
  - by eapply react_accept.
  - simpl. unfold react in H. repeat (case_match; try done);
      rewrite ?orb_true_iff, ?Z.eqb_eq, ?Z.leb_le in *; lia.
Qed.

(** How a run that began with request [n] may end: superseded at the first check that fails,
    or, all checks passed, with the reaction to the last response. *)
Definition ends_rightly (before after : nat → bool) (responses : nat → AuthRefreshHTTPResponse)
    (n n' : nat) (o : RefreshOutcome) : Prop :=
  let passed k := before k = true ∧ after k = true in
  (o = Superseded ∧
    ((∀ k, (n ≤ k < n')%nat → passed k) ∧ before n' = false ∨
     (n < n')%nat ∧ (∀ k, (n ≤ k < n' - 1)%nat → passed k) ∧
       before (n' - 1)%nat = true ∧ after (n' - 1)%nat = false)) ∨
  ((n < n')%nat ∧ (∀ k, (n ≤ k < n')%nat → passed k) ∧ final_reaction (responses (n' - 1)%nat) o).

Lemma ends_later before after responses n n' o : before n = true → after n = true → (S n ≤ n')%nat →
  ends_rightly before after responses (S n) n' o → ends_rightly before after responses n n' o.
Proof.
  intros Hb Ha Hn. assert (∀ m, (∀ k, (S n ≤ k < m)%nat → before k = true ∧ after k = true) →
    ∀ k, (n ≤ k < m)%nat → before k = true ∧ after k = true) as Hall.
  { intros m Hm k Hk. destruct (decide (k = n)) as [->|]; [done|]. apply Hm. lia. }
  intros [ [-> [ [Hp Hc]|(Hlt & Hp & Hc)] ]|(Hlt & Hp & Hf)].
  - left. split; [done|]. left. by split; [apply Hall|].
  - left. split; [done|]. right. split_and!; [lia|by apply Hall|apply Hc..].
  - right. split_and!; [lia|by apply Hall|done].
Qed.

Lemma ends_now before after responses n o : before n = true → after n = true →
  final_reaction (responses n) o → ends_rightly before after responses n (S n) o.
Proof.
  intros Hb Ha Hf. right. split_and!; [lia| |by rewrite Nat.sub_succ, Nat.sub_0_r].
  intros k Hk. by replace k with n by lia.
Qed.

Lemma run_refresh_ok fuel before after responses n w a allow :
  (a ≤ 3)%nat → (remaining a allow ≤ fuel)%nat →
  ∃ o n' w', run_refresh fuel before after responses n w a allow = Some (o, n', w') ∧
    (n ≤ n')%nat ∧ (n' ≤ n + remaining a allow)%nat ∧ w' ≤ w + wait_budget a allow ∧
    ends_rightly before after responses n n' o.
Proof.
  revert n w a allow. induction fuel as [|fuel IH]; intros n w a allow Ha Hf.
  { unfold remaining in Hf. lia. }
  pose proof (delays_left_nonneg a) as Hd0. cbn [run_refresh].
  pose proof (react_final (responses n) a allow) as Hfin.
  assert (0 ≤ wait_budget a allow) by (unfold wait_budget; destruct allow; lia).
  assert (1 ≤ remaining a allow)%nat by (unfold remaining; lia).
  destruct (before n) eqn:Eb; cbn [negb].
  2: { exists Superseded, n, w. split_and!; [done|lia..|]. left. split; [done|]. left. split; [lia|done]. }
  destruct (after n) eqn:Ea; cbn [negb].
  2: { exists Superseded, (S n), w. split_and!; [done|lia..|]. left. split; [done|]. right.
       rewrite Nat.sub_succ, Nat.sub_0_r. split_and!; [lia|lia|done..]. }
  destruct (react (responses n) a allow) as [b|d| |sync o|e] eqn:E.
  - exists (Authenticated b), (S n), w. split_and!; [done|lia..|]. apply ends_now; [done..|]. apply Hfin. eauto.
  - destruct (react_retry _ _ _ _ E) as [Ha2 Hd].
    destruct (IH (S n) (w + d) (S a) allow) as (o & n' & w' & -> & H1 & H2 & H3 & H4);
      [lia|unfold remaining in *; lia|].
    exists o, n', w'. unfold remaining, wait_budget in *. split_and!; [done|lia..|by apply ends_later].
  - apply react_fresh in E as ->.
    destruct (IH (S n) w 0%nat false) as (o & n' & w' & -> & H1 & H2 & H3 & H4);
      [lia|unfold remaining in *; lia|].
    exists o, n', w'. unfold remaining, wait_budget in *.
    change (delays_left 0) with 780 in H3. split_and!; [done|lia..|by apply ends_later].
  - exists o, (S n), w. split_and!; [done|lia..|]. apply ends_now; [done..|]. apply Hfin. eauto.
  - exists (TransientError e), (S n), w. split_and!; [done|lia..|]. apply ends_now; [done..|]. apply Hfin. eauto 6.
Qed.

(** ** One refresh at a time *)

Definition gens (s : State) : list AuthRefreshGeneration := (generations s).*1.

Definition flight_inv (s : State) : Prop :=
  (∀ i g, gens s !! i = Some g → g_outcome g = None ↔ refreshPromise s = Some i) ∧
  (∀ i, refreshPromise s = Some i → is_Some (gens s !! i)) ∧
  (∀ i g, gens s !! i = Some g → (g_epoch g ≤ authEpoch s)%nat).

Lemma gens_set_pc i pc s : gens (set_pc i pc s) = gens s.
Proof.
  unfold gens, set_pc. simpl. apply list_eq. intros j. rewrite !list_lookup_fmap, list_lookup_alter.
  case_decide; [subst|done]. by destruct (generations s !! j).
Qed.

Lemma gens_set_gen i f s : gens (set_gen i f s) = alter f i (gens s).
Proof.
  unfold gens, set_gen. simpl. apply list_eq. intros j.
  rewrite list_lookup_fmap, !list_lookup_alter, !list_lookup_fmap.
  case_decide; [subst|done]. by destruct (generations s !! j).
Qed.

Lemma gens_lookup s i g pc : generations s !! i = Some (g, pc) → gens s !! i = Some g.
Proof. intros H. unfold gens. by rewrite list_lookup_fmap, H. Qed.

(** The parts of the state the invariant reads. *)
Lemma flight_same s s' :
  gens s' = gens s → refreshPromise s' = refreshPromise s → (authEpoch s ≤ authEpoch s')%nat →
  flight_inv s → flight_inv s'.
Proof.
  intros H1 H2 H3 (Ha & Hb & Hc). unfold flight_inv. rewrite H1, H2. split_and!; [done..|].
  intros i g Hg. specialize (Hc i g Hg). lia.
Qed.

Lemma flight_settle i f s :
  (∀ g, g_outcome (f g) ≠ None ∧ g_epoch (f g) = g_epoch g) →
  flight_inv s → flight_inv (release_promise i (set_gen i f s)).
Proof.
  intros Hf (Ha & Hb & Hc). unfold release_promise. cbn [refreshPromise set_gen set_generations].
  assert (∀ p, (p = refreshPromise s ∧ refreshPromise s ≠ Some i) ∨
      (p = None ∧ refreshPromise s = Some i) → flight_inv (set_promise p (set_gen i f s))) as Hgo.
  { intros p Hp. unfold flight_inv. change (gens (set_promise p (set_gen i f s))) with
      (gens (set_gen i f s)). rewrite gens_set_gen. simpl. split_and!.
    - intros j g. rewrite list_lookup_alter. case_decide as Hij; [subst j|].
      + destruct (gens s !! i) as [g0|] eqn:E; [|done]. intros [= <-].
        destruct (Hf g0) as [Hn _]. split; [done|]. intros ->.
        destruct Hp as [[Hp Hq]|[Hp _]]; congruence.
      + intros Hj. rewrite (Ha j g Hj). destruct Hp as [[-> _]|[-> Hp]]; [done|].
        rewrite Hp. split; congruence.
    - intros j Hj. rewrite list_lookup_alter. destruct Hp as [[-> Hne]|[-> _]]; [|done].
      rewrite decide_False by congruence. by apply Hb.
    - intros j g. rewrite list_lookup_alter. case_decide as Hij; [subst j|by apply Hc].
      destruct (gens s !! i) as [g0|] eqn:E; [|done]. intros [= <-].
      destruct (Hf g0) as [_ ->]. by apply (Hc i). }
  case_bool_decide as Hd.
  - apply (Hgo None). by right.
  - specialize (Hgo (refreshPromise s) (or_introl (conj eq_refl Hd))). by destruct s.
Qed.

Lemma flight_store a s : flight_inv s → flight_inv (set_store a s).
Proof. by apply flight_same. Qed.

Lemma flight_expire i o s : flight_inv s → flight_inv (expireRefreshGeneration i o s).
Proof.
  intros Hs. unfold expireRefreshGeneration. destruct (generations s !! i) as [[g pc]|]; [|done].
  assert (∀ a, set_store a (set_gen i (cancel_gen o) s) = set_gen i (cancel_gen o) (set_store a s))
    as Hcomm by done.
  destruct (ownsRefreshGeneration g s); rewrite ?Hcomm; by apply flight_settle.
Qed.

Lemma flight_finish i o s : flight_inv s → flight_inv (finish i o s).
Proof.
  intros Hs. unfold finish. destruct (generations s !! i) as [[g pc]|]; [|done].
  assert (flight_inv (set_pc i Finished s)) as Hs1.
  { eapply flight_same; [apply gens_set_pc|done..]. }
  destruct (g_outcome g); [done|]. destruct (_ <=? _); [by apply flight_expire|].
  by apply flight_settle.
Qed.

Lemma flight_start i a allow s : flight_inv s → flight_inv (start_run i a allow s).
Proof.
  intros Hs. unfold start_run. destruct (generations s !! i) as [[g pc]|]; [|done].
  destruct (negb _); [by apply flight_finish|]. eapply flight_same; [apply gens_set_pc|done..].
Qed.

Lemma flight_bundle b sync s : flight_inv s → flight_inv (applyAuthBundle b sync s).
Proof.
  intros Hs. unfold applyAuthBundle. cbv zeta. eapply flight_same; [| | |exact Hs];
    destruct (_ && _); simpl; try done; lia.
Qed.

Lemma flight_clear sync b s : flight_inv s → flight_inv (clearAuthentication sync b s).
Proof.
  intros Hs. unfold clearAuthentication. eapply flight_same; [| | |exact Hs];
    repeat case_match; simpl; try done; lia.
Qed.

Lemma flight_refresh s : flight_inv s → flight_inv (refreshAuthentication s).
Proof.
  intros Hs. pose proof Hs as (Ha & Hb & Hc). unfold refreshAuthentication.
  destruct (refreshPromise s) eqn:E; [exact Hs|].
  unfold flight_inv, gens in *. simpl. rewrite fmap_app. simpl. split_and!.
  - intros i g [Hi|[Hi Hg]]%lookup_app_Some.
    + rewrite (Ha i g Hi). split; [congruence|]. intros [= <-]. apply lookup_lt_Some in Hi.
      rewrite length_fmap in Hi. lia.
    + apply list_lookup_singleton_Some in Hg as [Hz <-]. rewrite length_fmap in *. simpl.
      split; [intros _; f_equal; lia|done].
  - intros i [= <-]. rewrite lookup_app_r by (by rewrite length_fmap).
    rewrite length_fmap, Nat.sub_diag. by eexists.
  - intros i g [Hi|[Hi Hg]]%lookup_app_Some; [by apply (Hc i)|].
    by apply list_lookup_singleton_Some in Hg as [_ <-].
Qed.

Lemma flight_step s e : flight_inv s → flight_inv (step s e).
Proof.
  intros Hs. destruct e; simpl.
  - by eapply flight_same.
  - by apply flight_refresh.
  - unfold bootstrapAuthentication. case_match; [by apply flight_store|]. cbv zeta.
    destruct (_ && _); [done|]. simpl. by apply flight_refresh, flight_store.
  - unfold on_lock. repeat (case_match; try done). by apply flight_start.
  - unfold on_lock_failed. destruct (generations s !! i) as [[g []]|]; try done.
    assert (flight_inv (set_pc i Finished s)) by (eapply flight_same; [apply gens_set_pc|done..]).
    destruct (g_outcome g); [done|]. by apply flight_expire.
  - unfold on_response. destruct (generations s !! i) as [[g []]|]; try done.
    destruct (negb _); [by apply flight_finish|].
    destruct (react r raceAttempt allowMismatchRetry).
    + by apply flight_finish, flight_bundle.
    + eapply flight_same; [apply gens_set_pc|done..].
    + by apply flight_start, flight_store.
    + by apply flight_finish, flight_clear.
    + by apply flight_finish, flight_store.
  - unfold on_wait. repeat (case_match; try done). by apply flight_start.
  - unfold on_timeout. repeat (case_match; try done). by apply flight_expire.
  - by apply flight_bundle.
  - by apply flight_clear.
  - unfold applyAuthRotation. repeat (case_match; try done). simplify_eq.
    by apply flight_bundle.
  - by apply flight_store.
Qed.

Lemma flight_run es s : flight_inv s → flight_inv (run s es).
Proof. revert s. induction es as [|e es IH]; intros s Hs; simpl; [done|]. by apply IH, flight_step. Qed.

(** Refreshes are never forgotten. *)
Definition gsize (s : State) : nat := length (generations s).

Lemma gsize_expire i o s : gsize (expireRefreshGeneration i o s) = gsize s.
Proof.
  unfold expireRefreshGeneration, release_promise, gsize. repeat case_match; simpl;
    by rewrite ?length_alter.
Qed.

Lemma gsize_finish i o s : gsize (finish i o s) = gsize s.
Proof.
  unfold finish. destruct (generations s !! i) as [ [g pc]|]; [|done].
  destruct (g_outcome g); [|destruct (_ <=? _)]; rewrite ?gsize_expire;
    unfold release_promise, gsize; repeat case_match; simpl; by rewrite ?length_alter.
Qed.

Lemma gsize_start i a allow s : gsize (start_run i a allow s) = gsize s.
Proof.
  unfold start_run. destruct (generations s !! i) as [ [g pc]|]; [|done].
  destruct (negb _); [apply gsize_finish|]. unfold gsize. simpl. by rewrite length_alter.
Qed.

Lemma gsize_bundle b sync s : gsize (applyAuthBundle b sync s) = gsize s.
Proof. unfold applyAuthBundle. by case_match. Qed.

Lemma gsize_clear sync b s : gsize (clearAuthentication sync b s) = gsize s.
Proof. unfold clearAuthentication. by repeat case_match. Qed.

Lemma gsize_refresh s : (gsize s ≤ gsize (refreshAuthentication s))%nat.
Proof. unfold refreshAuthentication, gsize. case_match; simpl; rewrite ?length_app; lia. Qed.

Lemma gsize_step s e : (gsize s ≤ gsize (step s e))%nat.
Proof.
  destruct e; simpl; try done; try apply gsize_refresh.
  - unfold bootstrapAuthentication. repeat case_match; try done;
      (etrans; [|apply gsize_refresh]; done).
  - unfold on_lock. repeat case_match; try done. by rewrite gsize_start.
  - unfold on_lock_failed. repeat case_match; rewrite ?gsize_expire; try done;
      unfold gsize; simpl; by rewrite length_alter.
  - unfold on_response. repeat case_match;
      rewrite ?gsize_finish, ?gsize_start, ?gsize_bundle, ?gsize_clear; try done;
      unfold gsize; simpl; by rewrite length_alter.
  - unfold on_wait. repeat case_match; try done. by rewrite gsize_start.
  - unfold on_timeout. repeat case_match; rewrite ?gsize_expire; done.
  - by rewrite gsize_bundle.
  - by rewrite gsize_clear.
  - unfold applyAuthRotation. repeat case_match; simplify_eq; rewrite ?gsize_bundle; done.
Qed.

Lemma gens_kept s s' i : (gsize s ≤ gsize s')%nat → is_Some (gens s !! i) → is_Some (gens s' !! i).
Proof.
  intros Hl Hi. apply lookup_lt_is_Some. apply lookup_lt_is_Some in Hi.
  unfold gens, gsize in *. rewrite length_fmap in *. lia.
Qed.

(** ** Superseded refreshes *)

(** The events of refreshes that are under way, and the passage of time. *)
Definition refresh_event (e : Event) : bool :=
  match e with
  | ETick _ | ELock _ | ELockFailed _ _ | EResponse _ _ | EWaited _ | ETimeout _ => true
  | _ => false
  end.

Definition epochs (s : State) : list nat := g_epoch <$> gens s.

(** All refreshes belong to an earlier epoch. *)
Definition all_superseded (s : State) : Prop := authEpoch s ∉ epochs s.

(** What signing in or out decided stays as it is. *)
Definition same_session (s s' : State) : Prop :=
  store s' = store s ∧ authEpoch s' = authEpoch s ∧ published s' = published s ∧ epochs s' = epochs s.

Lemma epochs_set_pc i pc s : epochs (set_pc i pc s) = epochs s.
Proof. unfold epochs. by rewrite gens_set_pc. Qed.

Lemma epochs_set_gen i f s :
  (∀ g, g_epoch (f g) = g_epoch g) → epochs (set_gen i f s) = epochs s.
Proof.
  intros Hf. unfold epochs. rewrite gens_set_gen. apply list_eq. intros j.
  rewrite !list_lookup_fmap, list_lookup_alter. case_decide; [subst|done].
  destruct (gens s !! j); simpl; [by rewrite Hf|done].
Qed.

Lemma superseded_owns s i g pc :
  all_superseded s → generations s !! i = Some (g, pc) → ownsRefreshGeneration g s = false.
Proof.
  intros Hs Hi. unfold ownsRefreshGeneration. apply andb_false_iff. left. apply Nat.eqb_neq.
  intros Heq. apply Hs. rewrite Heq. apply gens_lookup in Hi.
  unfold epochs. apply list_elem_of_fmap. exists g. split; [done|]. by eapply list_elem_of_lookup_2.
Qed.

Lemma release_same i s : same_session s (release_promise i s).
Proof. unfold release_promise. by case_bool_decide. Qed.

Lemma same_session_trans s1 s2 s3 : same_session s1 s2 → same_session s2 s3 → same_session s1 s3.
Proof. unfold same_session. intuition congruence. Qed.

Lemma set_pc_same i pc s : same_session s (set_pc i pc s).
Proof. split_and!; [done..|apply epochs_set_pc]. Qed.

Lemma same_superseded s s' : same_session s s' → all_superseded s → all_superseded s'.
Proof. unfold all_superseded. intros (_ & -> & _ & ->). done. Qed.

Lemma expire_same i o s :
  all_superseded s → same_session s (expireRefreshGeneration i o s).
Proof.
  intros Hs. unfold expireRefreshGeneration. destruct (generations s !! i) as [[g pc]|] eqn:E; [|done].
  rewrite (superseded_owns _ _ _ _ Hs E). eapply same_session_trans; [|apply release_same].
  split_and!; [done..|]. by apply epochs_set_gen.
Qed.

Lemma finish_same i o s : all_superseded s → same_session s (finish i o s).
Proof.
  intros Hs. unfold finish. destruct (generations s !! i) as [[g pc]|]; [|done].
  pose proof (set_pc_same i Finished s) as H1.
  destruct (g_outcome g); [done|]. destruct (_ <=? _).
  - eapply same_session_trans; [exact H1|]. apply expire_same. by eapply same_superseded.
  - eapply same_session_trans; [exact H1|]. eapply same_session_trans; [|apply release_same].
    split_and!; [done..|]. by apply epochs_set_gen.
Qed.

Lemma start_same i a allow s : all_superseded s → same_session s (start_run i a allow s).
Proof.
  intros Hs. unfold start_run. destruct (generations s !! i) as [[g pc]|] eqn:E; [|done].
  unfold isRefreshGenerationCurrent. rewrite (superseded_owns _ _ _ _ Hs E). simpl.
  by apply finish_same.
Qed.

Lemma refresh_event_same s e :
  refresh_event e = true → all_superseded s → same_session s (step s e).
Proof.
  intros He Hs. destruct e; try done; simpl.
  - unfold on_lock. repeat (case_match; try done). by apply start_same.
  - unfold on_lock_failed. destruct (generations s !! i) as [[g []]|]; try done.
    pose proof (set_pc_same i Finished s) as H1. destruct (g_outcome g); [done|].
    eapply same_session_trans; [exact H1|]. apply expire_same. by eapply same_superseded.
  - unfold on_response. destruct (generations s !! i) as [[g pc]|] eqn:E; [|done].
    destruct pc; try done. unfold isRefreshGenerationCurrent.
    rewrite (superseded_owns _ _ _ _ Hs E). simpl. by apply finish_same.
  - unfold on_wait. repeat (case_match; try done). by apply start_same.
  - unfold on_timeout. repeat (case_match; try done). by apply expire_same.
Qed.

Lemma refresh_events_same es s :
  Forall (λ e, refresh_event e = true) es → all_superseded s → same_session s (run s es).
Proof.
  intros He. revert s. induction He as [|e es He _ IH]; intros s Hs; simpl; [done|].
  pose proof (refresh_event_same s e He Hs) as H1. eapply same_session_trans; [exact H1|].
  apply IH. by eapply same_superseded.
Qed.

Lemma epochs_bounded s : flight_inv s → Forall (λ e, (e ≤ authEpoch s)%nat) (epochs s).
Proof.
  intros (_ & _ & Hc). apply Forall_forall. intros e (g & -> & Hg)%list_elem_of_fmap.
  apply list_elem_of_lookup in Hg as [i Hi]. by apply (Hc i).
Qed.

Lemma bump_supersedes s s' :
  flight_inv s → authEpoch s' = S (authEpoch s) → gens s' = gens s → all_superseded s'.
Proof.
  intros Hs He Hg Hin. unfold epochs in Hin. rewrite Hg, He in Hin.
  pose proof (epochs_bounded s Hs) as Hb. rewrite Forall_forall in Hb.
  specialize (Hb _ Hin). lia.
Qed.

Lemma flight_init : flight_inv init.
Proof. split_and!; done. Qed.

(** The outcome of a refresh, and that it is over. *)
Lemma finish_current i o s g pc :
  generations s !! i = Some (g, pc) → g_outcome g = None → now s < g_deadline g →
  gens (finish i o s) = alter (settle_gen o) i (gens s) ∧
  store (finish i o s) = store s ∧ authEpoch (finish i o s) = authEpoch s ∧
  published (finish i o s) = published s.
Proof.
  intros Hi Ho Hn. unfold finish. rewrite Hi, Ho. rewrite (proj2 (Z.leb_gt _ _)) by done.
  unfold release_promise. case_bool_decide; simpl;
    (split_and!; [|done..]); change (gens (set_promise _ ?s)) with (gens s);
    by rewrite gens_set_gen, gens_set_pc.
Qed.

(** ** Properties *)

(** [C3] The refresh runner stops: whatever the server answers and whenever the refresh is
    superseded, it makes at most 8 requests (four attempts at a race, again once after a
    session mismatch) and waits at most 1560 ms in total. If [isCurrent] fails before a request
    or after its response, the run ends there as superseded; otherwise its outcome is what the
    last response calls for: signed in only with a valid bundle the server marked as a success,
    signed out only on 401, a transient error only when the server was unreachable, failing or
    limiting, and out of sync otherwise. *)
Theorem refresh_runner_stops (before after : nat → bool) (responses : nat → AuthRefreshHTTPResponse) :
  ∃ o requests waited,
    run_refresh 8 before after responses 0 0 0 true = Some (o, requests, waited) ∧
    (requests ≤ 8)%nat ∧ waited ≤ 1560 ∧ ends_rightly before after responses 0 requests o.
Proof.
  destruct (run_refresh_ok 8 before after responses 0 0 0 true) as (o & n & w & H & H1 & H2 & H3 & H4);
    [lia|unfold remaining; lia|].
  exists o, n, w. unfold remaining, wait_budget in *. change (delays_left 0) with 780 in H3.
  split_and!; [done|lia..|done].
Qed.

(** [C1] Signing in or out wins over every refresh that was under way: from any reachable
    state, after a bundle is applied or the session cleared, the responses, waits, locks
    and timers of the earlier refreshes, in any order, leave the session, the epoch and
    what was told to other tabs as they are. *)
Theorem sign_in_supersedes_refreshes (es es' : list Event) (e : Event) :
  (∃ b sync, e = ESignIn b sync) ∨ (∃ sync b, e = EClear sync b) →
  Forall (λ e, refresh_event e = true) es' →
  let s := step (run init es) e in
  store (run s es') = store s ∧ authEpoch (run s es') = authEpoch s ∧
  published (run s es') = published s.
Proof.
  intros He Hes s. pose proof (flight_run es init flight_init) as Hf.
  assert (all_superseded s) as Hs.
  { apply (bump_supersedes (run init es)); [done|..];
      unfold s; destruct He as [(b & sync & ->)|(sync & b & ->)]; simpl;
      unfold applyAuthBundle, clearAuthentication; repeat case_match; done. }
  by destruct (refresh_events_same es' s Hes Hs) as (? & ? & ? & _).
Qed.

Definition example_session : LoginSession :=
  mkSession (js "s1") true (js "password") [] [] (num_of_Z 1) (num_of_Z 1) (num_of_Z 9).

Definition example_bundle : AuthBundle :=
  mkBundle (js "tok") (js "Bearer") (num_of_Z 100) (mkUser (num_of_Z 1) (js "u") (num_of_Z 1) Null)
    example_session.

Lemma sign_in_supersedes_refreshes_witness :
  let s := step (run init [ERefresh; ELock 0]) (ESignIn example_bundle true) in
  store (run s [EResponse 0 (mkResponse 401 Null Null)]) = store s.
Proof.
  destruct (sign_in_supersedes_refreshes [ERefresh; ELock 0]
    [EResponse 0 (mkResponse 401 Null Null)] (ESignIn example_bundle true)) as [H _].
  - left. by exists example_bundle, true.
  - by repeat constructor.
  - exact H.
Defined.

(** [C2] One refresh at a time: in every reachable state a refresh is unsettled exactly
    when it is the shared one, so that at most one is; asking for a refresh meanwhile
    joins it; and once its deadline has passed its timer settles it, whatever the
    network, the lock or other tabs do. *)
Theorem single_refresh_in_flight (es : list Event) :
  let s := run init es in
  (∀ i g pc, generations s !! i = Some (g, pc) → (g_outcome g = None ↔ refreshPromise s = Some i)) ∧
  (∀ i, refreshPromise s = Some i → refreshAuthentication s = s ∧
     ∃ g pc, generations s !! i = Some (g, pc) ∧
       (g_deadline g ≤ now s → refreshPromise (step s (ETimeout i)) = None)).
Proof.
  intros s. pose proof (flight_run es init flight_init) as Hf. fold s in Hf. pose proof Hf as (Ha & Hb & _).
  split; [intros i g pc Hi; by apply Ha, (gens_lookup _ _ _ pc)|].
  intros i Hp. split; [unfold refreshAuthentication; by rewrite Hp|].
  destruct (Hb i Hp) as [g Hg]. unfold gens in Hg. rewrite list_lookup_fmap in Hg.
  destruct (generations s !! i) as [[g' pc]|] eqn:E; [|done]. simpl in Hg. injection Hg as ->.
  exists g, pc. split; [done|]. intros Hd. simpl. unfold on_timeout. rewrite E.
  assert (g_outcome g = None) as -> by (apply (Ha i); [by eapply gens_lookup|done]).
  rewrite (proj2 (Z.leb_le _ _)) by done. unfold expireRefreshGeneration. rewrite E.
  unfold release_promise. destruct (ownsRefreshGeneration g s); simpl;
    by rewrite bool_decide_eq_true_2.
Qed.

(** What a response does while its refresh is current: a valid bundle becomes the
    session; a 401 ends it and tells the other tabs; other refusals end it silently; a
    transient failure keeps it; a lost race waits and a mismatch clears the session and
    asks again, both without an outcome. *)
Theorem response_effects (s : State) (i : nat) (g : AuthRefreshGeneration) (a : nat)
    (allow : bool) (sd : option jsstr) (r : AuthRefreshHTTPResponse) :
  generations s !! i = Some (g, WaitResponse a allow sd) →
  g_outcome g = None →
  isRefreshGenerationCurrent g s = true →
  let s' := step s (EResponse i r) in
  match react r a allow with
  | Accept b => store s' = setBundle b (store s) ∧ published s' = published s ∧
      g_outcome <$> gens s' !! i = Some (Some (Authenticated b))
  | GiveUp sync o => store s' = reset CompleteState (store s) ∧
      g_outcome <$> gens s' !! i = Some (Some o) ∧
      published s' = published s ++ match previous_sid s with
        | Some sd => if sync && truthy sd then [PublishSignedOut sd] else []
        | None => [] end
  | Transient e => store s' = setBootstrapState Idle (store s) ∧ published s' = published s ∧
      g_outcome <$> gens s' !! i = Some (Some (TransientError e))
  | RetryAfter _ => store s' = store s ∧
      generations s' !! i = Some (g, WaitRace (S a) allow)
  | RetryFresh => store s' = reset Idle (store s) ∧
      generations s' !! i = Some (g, WaitResponse 0 false None)
  end.
Proof.
  intros Hi Ho Hc. simpl. unfold on_response. rewrite Hi, Hc. cbn [negb].
  assert (now s < g_deadline g) as Hn.
  { unfold isRefreshGenerationCurrent in Hc. apply andb_true_iff in Hc as [_ Hc]. lia. }
  assert (∀ s1 o, generations s1 = generations s → now s1 = now s →
    let s' := finish i o s1 in
    store s' = store s1 ∧ published s' = published s1 ∧
    g_outcome <$> gens s' !! i = Some (Some o)) as Hfin.
  { intros s1 o Hg Hnow. rewrite <-Hg in Hi. rewrite <-Hnow in Hn.
    cbv zeta. destruct (finish_current i o s1 g _ Hi Ho Hn) as (-> & ? & ? & ?).
    split_and!; [done..|]. rewrite list_lookup_alter_eq.
    apply gens_lookup in Hi. by rewrite Hi. }
  destruct (react r a allow) as [b|d| |sync o|e].
  - destruct (Hfin (applyAuthBundle b false s) (Authenticated b)) as (-> & -> & ->); done.
  - split; [done|]. simpl. by rewrite list_lookup_alter_eq, Hi.
  - unfold start_run. simpl. rewrite Hi. unfold isRefreshGenerationCurrent, ownsRefreshGeneration in *.
    simpl. rewrite Hc. simpl. split; [done|]. by rewrite list_lookup_alter_eq, Hi.
  - destruct (Hfin (clearAuthentication sync CompleteState s) o) as (-> & -> & ->);
      [unfold clearAuthentication; by repeat case_match..|].
    unfold clearAuthentication. destruct (previous_sid s) as [sd'|]; [|by rewrite app_nil_r].
    destruct (sync && truthy sd'); [done|by rewrite app_nil_r].
  - destruct (Hfin (set_store (setBootstrapState Idle (store s)) s) (TransientError e))
      as (-> & -> & ->); done.
Qed.

Lemma response_effects_witness :
  let s := run init [ESignIn example_bundle true; ERefresh; ELock 0] in
  published (step s (EResponse 0 (mkResponse 401 Null Null))) =
    [PublishAuthenticated (js "s1"); PublishSignedOut (js "s1")].
Proof.
  cbv zeta. set (s := run init [ESignIn example_bundle true; ERefresh; ELock 0]).
  assert (generations s !! 0%nat = Some (mkGen 1 10000 false None,
    WaitResponse 0 true (Some (js "s1")))) as Hg by (vm_compute; reflexivity).
  assert (isRefreshGenerationCurrent (mkGen 1 10000 false None) s = true) as Hc
    by (vm_compute; reflexivity).
  pose proof (response_effects s 0 _ 0 true _ (mkResponse 401 Null Null) Hg eq_refl Hc) as H.
  change (react (mkResponse 401 Null Null) 0 true) with (GiveUp true Anonymous) in H.
  destruct H as (_ & _ & H). rewrite H. vm_compute. reflexivity.
Defined.

End Auth.
