(* ===== verification/Flow.v ===== *)
(** * The dashboard's flow graph
      (web/src/features/dashboard/lib/flow.ts, flow-selection.ts)

    Usage rows become paths through the stages that a role may see (user, node, token,
    group, model, channel); the paths add up to the nodes and links of a Sankey diagram.
    Counts are whole numbers, as the server sends them. What the browser decides is a
    [Platform]: the collation of strings, the color scheme of the chart library, and the
    double arithmetic of a link's opacity. *)
From Stdlib Require Import QArith Qround Qcanon.
From S2P Require Import Prelude JsString JsMap JsValue.
Local Open Scope Z_scope.

Module Flow.

(** ** Data *)

Inductive FlowNodeKind := KUser | KNode | KToken | KGroup | KModel | KChannel.

#[export] Instance FlowNodeKind_eq_dec : EqDecision FlowNodeKind.
Proof. solve_decision. Defined.

Inductive FlowMetric := MQuota | MTokens | MRequests.
Inductive FlowOverflowMode := Aggregate | Hide.
Inductive FlowRole := RUser | RAdmin | RRoot.

Record FlowQuotaDataItem := mkRow {
  user_id : option Z; username : option jsstr; node_name : option jsstr;
  use_group : option jsstr; token_id : option Z; token_name : option jsstr;
  channel_id : option Z; channel_name : option jsstr; model_name : option jsstr;
  token_used : option Z; count : option Z; quota : option Z }.

Record FlowMetrics := mkMetrics { m_quota : Z; m_tokens : Z; m_requests : Z }.

Record FlowPathNode := mkPathNode { pn_id : jsstr; pn_label : jsstr; pn_kind : FlowNodeKind }.

Record PreparedFlowPath := mkPrepared { path : list FlowPathNode; metrics : FlowMetrics }.

Record FlowNodeFilter := mkFilter { fl_kind : FlowNodeKind; fl_id : jsstr }.
Record FlowLinkSelection := mkSelection { sel_source : jsstr; sel_target : jsstr }.

Record DashboardFlowNode := mkNode {
  n_id : jsstr; n_label : jsstr; n_kind : FlowNodeKind;
  n_value : Z; n_requests : Z; n_quota : Z; n_tokens : Z;
  n_color : jsstr; n_colorKey : jsstr;
  n_highlighted : option bool; n_dimmed : option bool }.

Record DashboardFlowLink := mkLink {
  l_source : jsstr; l_target : jsstr;
  l_value : Z; l_requests : Z; l_quota : Z; l_tokens : Z;
  l_sourceLabel : jsstr; l_targetLabel : jsstr;
  l_color : jsstr; l_linkColor : jsstr; l_linkAlpha : jsnum; l_hoverColor : jsstr;
  l_colorKey : jsstr; l_share : Qc;
  l_highlighted : option bool; l_dimmed : option bool }.

Record DashboardFlowGraph := mkGraph {
  nodes : list DashboardFlowNode; links : list DashboardFlowLink }.

Record FlowGraphOptions := mkOptions {
  topNodeLimit : option jsnum; overflowMode : option FlowOverflowMode;
  otherNodeLabel : option (FlowNodeKind → jsstr);
  activeNode : option FlowNodeFilter; activeLink : option FlowLinkSelection;
  maskSensitive : bool }.

(** ** The platform *)

Class Platform := {
  localeCompare : jsstr → jsstr → Z;
  getDashboardChartColors : nat → list jsstr;
  (** the opacity of the link at an index among a number of links *)
  link_alpha : nat → nat → jsnum;
  toFixed2 : jsnum → jsstr;
  formatNumber : Z → jsstr
}.

(** The collation is a total preorder. *)
Class Collation (P : Platform) : Prop := {
  locale_refl : ∀ a, localeCompare a a = 0;
  locale_anti : ∀ a b, localeCompare a b ≤ 0 ↔ 0 ≤ localeCompare b a;
  locale_trans : ∀ a b c, localeCompare a b ≤ 0 → localeCompare b c ≤ 0 → localeCompare a c ≤ 0
}.

(** ** Nodes of a row *)

Definition kind_name (k : FlowNodeKind) : jsstr :=
  match k with
  | KUser => js "user" | KNode => js "node" | KToken => js "token"
  | KGroup => js "group" | KModel => js "model" | KChannel => js "channel"
  end.

Definition OTHER_FLOW_NODE_ID (k : FlowNodeKind) : jsstr := kind_name k ++ js ":__other__".

Definition DEFAULT_OTHER_FLOW_NODE_LABELS (k : FlowNodeKind) : jsstr :=
  match k with
  | KUser => js "Other users" | KNode => js "Other nodes" | KToken => js "Other tokens"
  | KGroup => js "Other groups" | KModel => js "Other models" | KChannel => js "Other channels"
  end.

Definition SENSITIVE_FLOW_KINDS : list FlowNodeKind := [KUser; KNode; KToken; KGroup; KChannel].

Definition numberValue (v : option Z) : Z := default 0 v.

(** [s || d] for an optional string. *)
Definition opt_str (s : option jsstr) (d : jsstr) : jsstr := str_or (default [] s) d.

Definition rowMetrics (row : FlowQuotaDataItem) : FlowMetrics :=
  mkMetrics (numberValue (quota row)) (numberValue (token_used row)) (numberValue (count row)).

Definition metricValue (m : FlowMetrics) (metric : FlowMetric) : Z :=
  match metric with
  | MRequests => m_requests m
  | MTokens => m_tokens m
  | MQuota => m_quota m
  end.

Definition userNode (row : FlowQuotaDataItem) : FlowPathNode :=
  let userID := numberValue (user_id row) in
  mkPathNode
    (js "user:" ++ if 0 <? userID then show_Z userID else opt_str (username row) (js "unknown"))
    (opt_str (username row)
       (if 0 <? userID then js "user-" ++ show_Z userID else js "Unknown User"))
    KUser.

Definition nodeNameNode (row : FlowQuotaDataItem) : FlowPathNode :=
  let nodeName := opt_str (node_name row) (js "default-node") in
  mkPathNode (js "node:" ++ nodeName) nodeName KNode.

Definition deletedTokenLabel (tokenID : Z) (ctx : option (Z → jsstr)) : jsstr :=
  if tokenID <=? 0 then js "Unknown Token"
  else match ctx with Some f => f tokenID | None => js "token-" ++ show_Z tokenID end.

Definition tokenNode (ctx : option (Z → jsstr)) (row : FlowQuotaDataItem) : FlowPathNode :=
  let tokenID := numberValue (token_id row) in
  mkPathNode
    (js "token:" ++ if 0 <? tokenID then show_Z tokenID else opt_str (token_name row) (js "unknown"))
    (opt_str (token_name row) (deletedTokenLabel tokenID ctx)) KToken.

Definition groupNode (row : FlowQuotaDataItem) : FlowPathNode :=
  let useGroup := opt_str (use_group row) (js "unknown") in
  mkPathNode (js "group:" ++ useGroup) useGroup KGroup.

Definition modelNode (row : FlowQuotaDataItem) : FlowPathNode :=
  mkPathNode (js "model:" ++ opt_str (model_name row) (js "unknown"))
    (opt_str (model_name row) (js "Unknown Model")) KModel.

Definition channelNode (row : FlowQuotaDataItem) : FlowPathNode :=
  let channelID := numberValue (channel_id row) in
  mkPathNode
    (js "channel:" ++ if 0 <? channelID then show_Z channelID
                      else opt_str (channel_name row) (js "unknown"))
    (opt_str (channel_name row)
       (if 0 <? channelID then js "channel-" ++ show_Z channelID else js "Unknown"))
    KChannel.

Definition NODE_BUILDERS (ctx : option (Z → jsstr)) (k : FlowNodeKind)
    (row : FlowQuotaDataItem) : FlowPathNode :=
  match k with
  | KUser => userNode row
  | KNode => nodeNameNode row
  | KToken => tokenNode ctx row
  | KGroup => groupNode row
  | KModel => modelNode row
  | KChannel => channelNode row
  end.

(** ** Stages *)

Definition getFlowStages (role : FlowRole) : list FlowNodeKind :=
  match role with
  | RRoot => [KUser; KNode; KToken; KGroup; KModel; KChannel]
  | RAdmin => [KUser; KGroup; KModel; KChannel]
  | RUser => [KToken; KGroup; KModel]
  end.

Definition MIN_FLOW_STAGES : nat := 2.

Definition resolveVisibleStages (role : FlowRole) (visibleStages : option (list FlowNodeKind)) :
    list FlowNodeKind :=
  let stages := getFlowStages role in
  match visibleStages with
  | None => stages
  | Some vs =>
      let filtered := List.filter (set_has (new_Set vs)) stages in
      if (MIN_FLOW_STAGES <=? length filtered)%nat then filtered else stages
  end.

Definition flowPathForStages (ctx : option (Z → jsstr)) (row : FlowQuotaDataItem)
    (stages : list FlowNodeKind) : list FlowPathNode :=
  map (λ stage, NODE_BUILDERS ctx stage row) stages.

(** ** Filters *)

Definition filterRows (rows : list FlowQuotaDataItem) (selectedUsers : option (list jsstr)) :
    list FlowQuotaDataItem :=
  match new_Set (default [] selectedUsers) with
  | [] => rows
  | selected => List.filter (λ row, set_has selected (pn_id (userNode row))) rows
  end.

Definition normalizeSelectedNodeFilters (selectedNodes : option (list FlowNodeFilter))
    (stages : list FlowNodeKind) : list (FlowNodeKind * list jsstr) :=
  foldl (λ filters f,
    if set_has (new_Set stages) (fl_kind f)
    then jm_set (fl_kind f) (js_add (fl_id f) (default [] (jm_get (fl_kind f) filters))) filters
    else filters) [] (default [] selectedNodes).

Definition pathNodesByKind (p : list FlowPathNode) : list (FlowNodeKind * list jsstr) :=
  foldl (λ m n, jm_set (pn_kind n) (js_add (pn_id n) (default [] (jm_get (pn_kind n) m))) m) [] p.

Definition pathMatchesNodeFilters (p : list FlowPathNode)
    (filters : list (FlowNodeKind * list jsstr)) : bool :=
  forallb (λ '(kind, selectedIds),
    match jm_get kind (pathNodesByKind p) with
    | None => false
    | Some pathIds => existsb (set_has pathIds) selectedIds
    end) filters.

Definition filterRowsByNodes (ctx : option (Z → jsstr)) (rows : list FlowQuotaDataItem)
    (selectedNodes : option (list FlowNodeFilter)) (stages : list FlowNodeKind) :
    list FlowQuotaDataItem :=
  match normalizeSelectedNodeFilters selectedNodes stages with
  | [] => rows
  | filters =>
      List.filter (λ row, pathMatchesNodeFilters (flowPathForStages ctx row stages) filters) rows
  end.

Definition selectedNodeFiltersExceptKind (selectedNodes : option (list FlowNodeFilter))
    (kind : FlowNodeKind) : option (list FlowNodeFilter) :=
  match List.filter (λ f, negb (bool_decide (fl_kind f = kind))) (default [] selectedNodes) with
  | [] => None
  | filtered => Some filtered
  end.

Definition nodeFilterKey (f : FlowNodeFilter) : jsstr := kind_name (fl_kind f) ++ 0%N :: fl_id f.

(** ** Summary *)

Definition add_metrics (a b : FlowMetrics) : FlowMetrics :=
  mkMetrics (m_quota a + m_quota b) (m_tokens a + m_tokens b) (m_requests a + m_requests b).

Definition buildSummary (rows : list FlowQuotaDataItem) : FlowMetrics :=
  foldl (λ s row, add_metrics s (rowMetrics row)) (mkMetrics 0 0 0) rows.

(** ** Adding to the graph *)

Definition pathLinkKey (source target : FlowPathNode) : jsstr := pn_id source ++ 0%N :: pn_id target.
Definition linkStableKey (l : DashboardFlowLink) : jsstr := l_source l ++ 0%N :: l_target l.

Definition empty_node (pathNode : FlowPathNode) (color colorKey : jsstr) : DashboardFlowNode :=
  mkNode (pn_id pathNode) (pn_label pathNode) (pn_kind pathNode) 0 0 0 0 color colorKey None None.

Definition add_to_node (n : DashboardFlowNode) (m : FlowMetrics) (metric : FlowMetric) :
    DashboardFlowNode :=
  mkNode (n_id n) (n_label n) (n_kind n) (n_value n + metricValue m metric)
    (n_requests n + m_requests m) (n_quota n + m_quota m) (n_tokens n + m_tokens m)
    (n_color n) (n_colorKey n) (n_highlighted n) (n_dimmed n).

Definition addNode (map : list (jsstr * DashboardFlowNode)) (pathNode : FlowPathNode)
    (m : FlowMetrics) (metric : FlowMetric) (color colorKey : jsstr) :
    list (jsstr * DashboardFlowNode) :=
  let previous := default (empty_node pathNode color colorKey) (jm_get (pn_id pathNode) map) in
  jm_set (pn_id pathNode) (add_to_node previous m metric) map.

Definition empty_link (source target : FlowPathNode) (color colorKey : jsstr) : DashboardFlowLink :=
  mkLink (pn_id source) (pn_id target) 0 0 0 0 (pn_label source) (pn_label target)
    color color (num_of_Z 1) color colorKey 0%Qc None None.

Definition add_to_link (l : DashboardFlowLink) (m : FlowMetrics) (metric : FlowMetric) :
    DashboardFlowLink :=
  mkLink (l_source l) (l_target l) (l_value l + metricValue m metric)
    (l_requests l + m_requests m) (l_quota l + m_quota m) (l_tokens l + m_tokens m)
    (l_sourceLabel l) (l_targetLabel l) (l_color l) (l_linkColor l) (l_linkAlpha l)
    (l_hoverColor l) (l_colorKey l) (l_share l) (l_highlighted l) (l_dimmed l).

Definition addLink (map : list (jsstr * DashboardFlowLink)) (source target : FlowPathNode)
    (m : FlowMetrics) (metric : FlowMetric) (color colorKey : jsstr) :
    list (jsstr * DashboardFlowLink) :=
  let key := pathLinkKey source target in
  let previous := default (empty_link source target color colorKey) (jm_get key map) in
  jm_set key (add_to_link previous m metric) map.

(** The pairs [path[i], path[i + 1]]. *)
Fixpoint path_links (p : list FlowPathNode) : list (FlowPathNode * FlowPathNode) :=
  match p with
  | a :: ((b :: _) as rest) => (a, b) :: path_links rest
  | _ => []
  end.

(** ** The limit on the nodes of a stage *)

Definition normalizeTopNodeLimit (limit : option jsnum) : option nat :=
  match limit with
  | Some (Fin q) => if 0 <? Qfloor q then Some (Z.to_nat (Qfloor q)) else None
  | _ => None
  end.

Definition otherFlowNode (labeler : option (FlowNodeKind → jsstr)) (kind : FlowNodeKind) :
    FlowPathNode :=
  mkPathNode (OTHER_FLOW_NODE_ID kind)
    (match labeler with Some f => f kind | None => DEFAULT_OTHER_FLOW_NODE_LABELS kind end) kind.

Definition isTopFlowNode (topNodeSets : option (list (FlowNodeKind * list jsstr)))
    (n : FlowPathNode) : bool :=
  match topNodeSets with
  | None => true
  | Some sets =>
      match jm_get (pn_kind n) sets with
      | None => true
      | Some topNodes => set_has topNodes (pn_id n)
      end
  end.

Definition applyTopNodeLimit (p : list FlowPathNode)
    (topNodeSets : option (list (FlowNodeKind * list jsstr))) (mode : FlowOverflowMode)
    (labeler : option (FlowNodeKind → jsstr)) : option (list FlowPathNode) :=
  match topNodeSets with
  | None => Some p
  | Some _ =>
      if negb (existsb (λ n, negb (isTopFlowNode topNodeSets n)) p) then Some p
      else match mode with
           | Hide => None
           | Aggregate =>
               Some (map (λ n, if isTopFlowNode topNodeSets n then n
                               else otherFlowNode labeler (pn_kind n)) p)
           end
  end.

(** ** Highlighting *)

Definition pathContainsFlowNode (p : list FlowPathNode) (f : FlowNodeFilter) : bool :=
  existsb (λ n, bool_decide (pn_kind n = fl_kind f) && streq (pn_id n) (fl_id f)) p.

Definition pathContainsFlowLink (p : list FlowPathNode) (l : FlowLinkSelection) : bool :=
  existsb (λ '(a, b), streq (pn_id a) (sel_source l) && streq (pn_id b) (sel_target l))
    (path_links p).

Definition matchesPath (activeNode : option FlowNodeFilter) (activeLink : option FlowLinkSelection)
    (p : list FlowPathNode) : bool :=
  match activeLink with
  | Some l => pathContainsFlowLink p l
  | None => match activeNode with Some f => pathContainsFlowNode p f | None => false end
  end.

Definition buildFlowHighlightSets (preparedPaths : list PreparedFlowPath)
    (activeNode : option FlowNodeFilter) (activeLink : option FlowLinkSelection)
    (stages : list FlowNodeKind) : option (list jsstr * list jsstr) :=
  let nodeActive := match activeNode with
                    | Some f => bool_decide (fl_kind f ∈ stages) | None => false end in
  let linkActive := match activeLink with Some _ => true | None => false end in
  if negb nodeActive && negb linkActive then None
  else
    let highlighted :=
      foldl (λ sets prepared,
        let p := path prepared in
        if negb (matchesPath activeNode activeLink p) then sets
        else (foldl (λ s n, js_add (pn_id n) s) sets.1 p,
              foldl (λ s l, js_add (pathLinkKey l.1 l.2) s) sets.2 (path_links p)))
        ([], []) preparedPaths in
    match highlighted.1 with [] => None | _ => Some highlighted end.

Definition set_node_flags (h : bool) (n : DashboardFlowNode) : DashboardFlowNode :=
  mkNode (n_id n) (n_label n) (n_kind n) (n_value n) (n_requests n) (n_quota n) (n_tokens n)
    (n_color n) (n_colorKey n) (Some h) (Some (negb h)).

Definition set_link_flags (h : bool) (l : DashboardFlowLink) : DashboardFlowLink :=
  mkLink (l_source l) (l_target l) (l_value l) (l_requests l) (l_quota l) (l_tokens l)
    (l_sourceLabel l) (l_targetLabel l) (l_color l) (l_linkColor l) (l_linkAlpha l)
    (l_hoverColor l) (l_colorKey l) (l_share l) (Some h) (Some (negb h)).

Definition applyFlowHighlights (ns : list (jsstr * DashboardFlowNode))
    (ls : list (jsstr * DashboardFlowLink)) (sets : option (list jsstr * list jsstr)) :
    list (jsstr * DashboardFlowNode) * list (jsstr * DashboardFlowLink) :=
  match sets with
  | None => (ns, ls)
  | Some (hn, hl) =>
      (prod_map id (λ n, set_node_flags (set_has hn (n_id n)) n) <$> ns,
       prod_map id (λ l, set_link_flags (set_has hl (linkStableKey l)) l) <$> ls)
  end.

(** ** Masking *)

Definition FLOW_MASK_TEXT : jsstr := [8226; 8226; 8226; 8226]%N.

Definition maskFlowLabel (label : jsstr) : jsstr := if truthy label then FLOW_MASK_TEXT else label.

Definition set_node_label (label : jsstr) (n : DashboardFlowNode) : DashboardFlowNode :=
  mkNode (n_id n) label (n_kind n) (n_value n) (n_requests n) (n_quota n) (n_tokens n)
    (n_color n) (n_colorKey n) (n_highlighted n) (n_dimmed n).

Definition set_link_labels (sourceLabel targetLabel : jsstr) (l : DashboardFlowLink) :
    DashboardFlowLink :=
  mkLink (l_source l) (l_target l) (l_value l) (l_requests l) (l_quota l) (l_tokens l)
    sourceLabel targetLabel (l_color l) (l_linkColor l) (l_linkAlpha l)
    (l_hoverColor l) (l_colorKey l) (l_share l) (l_highlighted l) (l_dimmed l).

Definition OTHER_FLOW_NODE_ID_SET : list jsstr :=
  map OTHER_FLOW_NODE_ID [KUser; KNode; KToken; KGroup; KModel; KChannel].

Definition is_masked (n : DashboardFlowNode) : bool :=
  set_has SENSITIVE_FLOW_KINDS (n_kind n) && negb (set_has OTHER_FLOW_NODE_ID_SET (n_id n)).

Definition mask_node (n : DashboardFlowNode) : DashboardFlowNode :=
  if is_masked n then set_node_label (maskFlowLabel (n_label n)) n else n.

(** [maskedById] *)
Definition masked_by_id (ns : list (jsstr * DashboardFlowNode)) : list (jsstr * jsstr) :=
  foldl (λ m n, if is_masked n then jm_set (n_id n) (maskFlowLabel (n_label n)) m else m) []
    (jm_values ns).

Definition mask_link (masked : list (jsstr * jsstr)) (l : DashboardFlowLink) : DashboardFlowLink :=
  set_link_labels (default (l_sourceLabel l) (jm_get (l_source l) masked))
    (default (l_targetLabel l) (jm_get (l_target l) masked)) l.

Definition maskFlowGraphLabels (ns : list (jsstr * DashboardFlowNode))
    (ls : list (jsstr * DashboardFlowLink)) :
    list (jsstr * DashboardFlowNode) * list (jsstr * DashboardFlowLink) :=
  let masked := masked_by_id ns in
  (prod_map id mask_node <$> ns,
   match masked with [] => ls | _ => prod_map id (mask_link masked) <$> ls end).

(** ** Colors, ranking and the graph *)

Section graph.
Context `{P : Platform}.

Definition DEFAULT_FLOW_CHART_COLOR : jsstr := js "#1664FF".

(** An optional palette, when it is not empty. *)
Definition usable (palette : option (list jsstr)) : option (list jsstr) :=
  match palette with Some (c :: cs) => Some (c :: cs) | _ => None end.

Definition colorAt (index : nat) (palette : option (list jsstr)) : jsstr :=
  let colors := default (getDashboardChartColors (index + 1)) (usable palette) in
  match colors with
  | [] => DEFAULT_FLOW_CHART_COLOR
  | _ => default DEFAULT_FLOW_CHART_COLOR (colors !! (index mod length colors)%nat)
  end.

Definition colorPalette (colorCount : nat) (palette : option (list jsstr)) : list jsstr :=
  match usable palette with
  | Some colors => colors
  | None => match getDashboardChartColors colorCount with
            | [] => [DEFAULT_FLOW_CHART_COLOR]
            | colors => colors
            end
  end.

Definition stableColorMap (keys : list jsstr) (palette : option (list jsstr)) :
    list (jsstr * jsstr) :=
  let uniqueKeys := new_Set keys in
  let colors := colorPalette (length uniqueKeys) palette in
  imap (λ index key, (key, colorAt index (Some colors))) uniqueKeys.

(** [/^[0-9a-f]{6}$/i] and the digits' values. *)
Definition hex_value (u : N) : option Z :=
  if (48 <=? u)%N && (u <=? 57)%N then Some (Z.of_N u - 48)
  else if (97 <=? u)%N && (u <=? 102)%N then Some (Z.of_N u - 87)
  else if (65 <=? u)%N && (u <=? 70)%N then Some (Z.of_N u - 55)
  else None.

Definition parse_hex6 (hex : jsstr) : option Z :=
  if (length hex =? 6)%nat
  then foldl (λ a d, v ← a; x ← d; Some (16 * v + x)) (Some 0) (map hex_value hex)
  else None.

Definition alphaColor (color : jsstr) (alpha : jsnum) : jsstr * jsnum :=
  let normalized := trim color in
  let hex := if starts_with (js "#") normalized then drop 1 normalized else normalized in
  match parse_hex6 hex with
  | None => (normalized, alpha)
  | Some value =>
      let red := Z.land (Z.shiftr value 16) 255 in
      let green := Z.land (Z.shiftr value 8) 255 in
      let blue := Z.land value 255 in
      (js "rgba(" ++ show_Z red ++ js ", " ++ show_Z green ++ js ", " ++ show_Z blue ++ js ", " ++
       toFixed2 alpha ++ js ")", num_of_Z 1)
  end.

(** [a - b || rest] of a comparator, as [cmp <= 0]. *)
Definition cmp_or (d : Z) (rest : Z) : Z := if d =? 0 then rest else d.

Definition byValueThenLabel (a b : DashboardFlowNode) : bool :=
  cmp_or (n_value b - n_value a) (localeCompare (n_label a) (n_label b)) <=? 0.

Definition by_value_key (a b : nat * DashboardFlowLink) : bool :=
  cmp_or (l_value b.2 - l_value a.2)
    (localeCompare (linkStableKey a.2) (linkStableKey b.2)) <=? 0.

Definition set_display (linkColor : jsstr) (linkAlpha : jsnum) (hoverColor : jsstr)
    (l : DashboardFlowLink) : DashboardFlowLink :=
  mkLink (l_source l) (l_target l) (l_value l) (l_requests l) (l_quota l) (l_tokens l)
    (l_sourceLabel l) (l_targetLabel l) (l_color l) linkColor linkAlpha
    hoverColor (l_colorKey l) (l_share l) (l_highlighted l) (l_dimmed l).

(** The links of a source with their positions, ranked. *)
Definition ranked_links (ls : list DashboardFlowLink) (source : jsstr) :
    list (nat * DashboardFlowLink) :=
  js_sort by_value_key
    (List.filter (λ l, streq (l_source l.2) source) (imap (λ i l, (i, l)) ls)).

(** The rank of the link at position [i]. *)
Fixpoint rank_of (i : nat) (ranked : list (nat * DashboardFlowLink)) : nat :=
  match ranked with
  | [] => 0
  | (j, _) :: rest => if (i =? j)%nat then 0 else S (rank_of i rest)
  end.

Definition assignLinkDisplayColors (ls : list DashboardFlowLink) : list DashboardFlowLink :=
  imap (λ i l,
    let sortedLinks := ranked_links ls (l_source l) in
    let '(color, alpha) := alphaColor (l_color l) (link_alpha (rank_of i sortedLinks) (length sortedLinks)) in
    set_display color alpha (l_color l) l) ls.

(** The ranking of the nodes of a stage. *)
Record FlowNodeRank := mkRank { r_node : FlowPathNode; r_value : Z }.

Definition by_rank (a b : FlowNodeRank) : bool :=
  cmp_or (r_value b - r_value a)
    (cmp_or (localeCompare (pn_label (r_node a)) (pn_label (r_node b)))
       (localeCompare (pn_id (r_node a)) (pn_id (r_node b)))) <=? 0.

(** Adding one node of a path to the totals of its stage. *)
Definition add_rank (value : Z) (totals : list (FlowNodeKind * list (jsstr * FlowNodeRank)))
    (n : FlowPathNode) : list (FlowNodeKind * list (jsstr * FlowNodeRank)) :=
  match jm_get (pn_kind n) totals with
  | None => totals
  | Some stageTotals =>
      let current := default (mkRank n 0) (jm_get (pn_id n) stageTotals) in
      jm_set (pn_kind n)
        (jm_set (pn_id n) (mkRank (r_node current) (r_value current + value)) stageTotals) totals
  end.

Definition stage_totals (ctx : option (Z → jsstr)) (rows : list FlowQuotaDataItem)
    (metric : FlowMetric) (stages : list FlowNodeKind) :
    list (FlowNodeKind * list (jsstr * FlowNodeRank)) :=
  foldl (λ totals row,
    foldl (add_rank (metricValue (rowMetrics row) metric)) totals (flowPathForStages ctx row stages))
    (foldl (λ m stage, jm_set stage [] m) [] stages) rows.

Definition top_ids (limit : nat) (stageTotals : list (jsstr * FlowNodeRank)) : list jsstr :=
  new_Set (map (λ r, pn_id (r_node r)) (take limit (js_sort by_rank (jm_values stageTotals)))).

Definition buildTopNodeSets (ctx : option (Z → jsstr)) (rows : list FlowQuotaDataItem)
    (metric : FlowMetric) (stages : list FlowNodeKind) (limit : option nat) :
    option (list (FlowNodeKind * list jsstr)) :=
  match limit with
  | None | Some O => None
  | Some k =>
      Some (foldl (λ m '(kind, stageTotals), jm_set kind (top_ids k stageTotals) m) []
              (stage_totals ctx rows metric stages))
  end.

(** The paths of the rows, under the limit. *)
Definition prepare_paths (ctx : option (Z → jsstr)) (rows : list FlowQuotaDataItem)
    (metric : FlowMetric) (stages : list FlowNodeKind) (options : FlowGraphOptions) :
    list PreparedFlowPath :=
  let topNodeSets :=
    buildTopNodeSets ctx rows metric stages (normalizeTopNodeLimit (topNodeLimit options)) in
  omap (λ row,
    (λ p, mkPrepared p (rowMetrics row)) <$>
    applyTopNodeLimit (flowPathForStages ctx row stages) topNodeSets
      (default Aggregate (overflowMode options)) (otherNodeLabel options)) rows.

Definition first_id (prepared : PreparedFlowPath) : option jsstr :=
  match path prepared with
  | n :: _ => if truthy (pn_id n) then Some (pn_id n) else None
  | [] => None
  end.

Definition locale_le (a b : jsstr) : bool := localeCompare a b <=? 0.

(** The color of the paths from a root. *)
Definition root_color (preparedPaths : list PreparedFlowPath) (palette : option (list jsstr))
    (root : FlowPathNode) : jsstr :=
  default (colorAt 0 palette)
    (jm_get (pn_id root) (stableColorMap (js_sort locale_le (omap first_id preparedPaths)) palette)).

(** The nodes and links that the paths add up to. *)
Definition add_path (metric : FlowMetric) (color : FlowPathNode → jsstr)
    (g : list (jsstr * DashboardFlowNode) * list (jsstr * DashboardFlowLink))
    (prepared : PreparedFlowPath) :
    list (jsstr * DashboardFlowNode) * list (jsstr * DashboardFlowLink) :=
  match path prepared with
  | [] => g
  | root :: _ =>
      (foldl (λ m n, addNode m n (metrics prepared) metric (color root) (pn_id root))
         g.1 (path prepared),
       foldl (λ m l, addLink m l.1 l.2 (metrics prepared) metric (color root) (pn_id root))
         g.2 (path_links (path prepared)))
  end.

Definition graph_maps (metric : FlowMetric) (palette : option (list jsstr))
    (preparedPaths : list PreparedFlowPath) :
    list (jsstr * DashboardFlowNode) * list (jsstr * DashboardFlowLink) :=
  foldl (add_path metric (root_color preparedPaths palette)) ([], []) preparedPaths.

Definition by_ends (a b : DashboardFlowLink) : bool :=
  cmp_or (localeCompare (l_source a) (l_source b)) (localeCompare (l_target a) (l_target b)) <=? 0.

Definition set_share (total : Z) (l : DashboardFlowLink) : DashboardFlowLink :=
  mkLink (l_source l) (l_target l) (l_value l) (l_requests l) (l_quota l) (l_tokens l)
    (l_sourceLabel l) (l_targetLabel l) (l_color l) (l_linkColor l) (l_linkAlpha l)
    (l_hoverColor l) (l_colorKey l)
    (if 0 <? total then (Q2Qc (inject_Z (l_value l)) / Q2Qc (inject_Z total))%Qc else 0%Qc)
    (l_highlighted l) (l_dimmed l).

(** The total of the links of the first step. *)
Definition first_step_total (preparedPaths : list PreparedFlowPath) (ls : list DashboardFlowLink) : Z :=
  foldl (λ sum l, sum + l_value l) 0
    (List.filter (λ l, set_has (new_Set (omap first_id preparedPaths)) (l_source l)) ls).

(** The part of [buildFlowGraph] after the paths are prepared. *)
Definition graph_of_paths (preparedPaths : list PreparedFlowPath) (metric : FlowMetric)
    (palette : option (list jsstr)) (stages : list FlowNodeKind) (options : FlowGraphOptions) :
    DashboardFlowGraph :=
  let g := graph_maps metric palette preparedPaths in
  let g1 := if maskSensitive options then maskFlowGraphLabels g.1 g.2 else g in
  let g2 := applyFlowHighlights g1.1 g1.2
              (buildFlowHighlightSets preparedPaths (activeNode options) (activeLink options) stages) in
  let flowLinks := js_sort by_ends (jm_values g2.2) in
  let total := first_step_total preparedPaths flowLinks in
  mkGraph (js_sort byValueThenLabel (jm_values g2.1))
    (assignLinkDisplayColors (map (set_share total) flowLinks)).

Definition buildFlowGraph (ctx : option (Z → jsstr)) (rows : list FlowQuotaDataItem)
    (metric : FlowMetric) (role : FlowRole) (palette : option (list jsstr))
    (visibleStages : option (list FlowNodeKind)) (options : FlowGraphOptions) : DashboardFlowGraph :=
  let stages := resolveVisibleStages role visibleStages in
  graph_of_paths (prepare_paths ctx rows metric stages options) metric palette stages options.

(** ** Filter options *)

Record FlowUserFilterOption := mkUserOption {
  u_value : jsstr; u_label : jsstr; u_valueLabel : jsstr; u_valueRaw : Z; u_color : jsstr }.

Record FlowNodeFilterOption := mkNodeOption {
  o_kind : FlowNodeKind; o_value : jsstr; o_label : jsstr; o_valueLabel : jsstr; o_valueRaw : Z;
  o_color : jsstr }.

(** [!row.user_id && !row.username] *)
Definition anonymous (row : FlowQuotaDataItem) : bool :=
  (numberValue (user_id row) =? 0) && negb (truthy (default [] (username row))).

(** The accumulated entry of a user: label, value and color. *)
Definition user_totals (metric : FlowMetric) (palette : option (list jsstr))
    (rows : list FlowQuotaDataItem) : list (jsstr * (jsstr * Z * jsstr)) :=
  let colors := stableColorMap (js_sort locale_le (map (λ row, pn_id (userNode row)) rows)) palette in
  foldl (λ users row,
    let user := userNode row in
    if anonymous row then users
    else
      let '(label, v, color) :=
        default (pn_label user, 0, default (colorAt 0 palette) (jm_get (pn_id user) colors))
          (jm_get (pn_id user) users) in
      jm_set (pn_id user) (label, v + metricValue (rowMetrics row) metric, color) users) [] rows.

Definition by_raw (a b : FlowUserFilterOption) : bool :=
  cmp_or (u_valueRaw b - u_valueRaw a) (localeCompare (u_label a) (u_label b)) <=? 0.

Definition buildUserFilterOptions (rows : list FlowQuotaDataItem) (metric : FlowMetric)
    (palette : option (list jsstr)) : list FlowUserFilterOption :=
  js_sort by_raw
    (map (λ '(value, (label, v, color)), mkUserOption value label (formatNumber v) v color)
       (user_totals metric palette rows)).

(** The totals of one stage over its candidate rows. *)
Definition node_totals (ctx : option (Z → jsstr)) (metric : FlowMetric) (stage : FlowNodeKind)
    (candidateRows : list FlowQuotaDataItem) : list (jsstr * FlowNodeRank) :=
  foldl (λ totals row,
    let n := NODE_BUILDERS ctx stage row in
    let key := nodeFilterKey (mkFilter (pn_kind n) (pn_id n)) in
    let current := default (mkRank n 0) (jm_get key totals) in
    jm_set key (mkRank (r_node current) (r_value current + metricValue (rowMetrics row) metric)) totals)
    [] candidateRows.

(** [stageOrder.get(kind) ?? 0] *)
Fixpoint stage_index (k : FlowNodeKind) (stages : list FlowNodeKind) : nat :=
  match stages with
  | [] => 0
  | s :: rest => if decide (s = k) then 0 else S (stage_index k rest)
  end.

Definition stage_order (stages : list FlowNodeKind) (k : FlowNodeKind) : Z :=
  if bool_decide (k ∈ stages) then Z.of_nat (stage_index k stages) else 0.

Definition by_option (stages : list FlowNodeKind) (a b : FlowNodeFilterOption) : bool :=
  cmp_or (stage_order stages (o_kind a) - stage_order stages (o_kind b))
    (cmp_or (o_valueRaw b - o_valueRaw a)
       (cmp_or (localeCompare (o_label a) (o_label b)) (localeCompare (o_value a) (o_value b)))) <=? 0.

Definition buildNodeFilterOptions (ctx : option (Z → jsstr)) (rows : list FlowQuotaDataItem)
    (metric : FlowMetric) (role : FlowRole) (visibleStages : option (list FlowNodeKind))
    (palette : option (list jsstr)) (selectedNodes : option (list FlowNodeFilter)) :
    list FlowNodeFilterOption :=
  let stages := resolveVisibleStages role visibleStages in
  let colorIds := new_Set (map pn_id (mjoin ((λ row, flowPathForStages ctx row stages) <$> rows))) in
  let colors := stableColorMap (js_sort locale_le colorIds) palette in
  js_sort (by_option stages)
    (mjoin ((λ stage,
       map (λ '(_, rank),
              mkNodeOption (pn_kind (r_node rank)) (pn_id (r_node rank)) (pn_label (r_node rank))
                (formatNumber (r_value rank)) (r_value rank)
                (default (colorAt 0 palette) (jm_get (pn_id (r_node rank)) colors)))
         (node_totals ctx metric stage
            (filterRowsByNodes ctx rows (selectedNodeFiltersExceptKind selectedNodes stage) stages)))
       <$> stages)).

(** ** The whole computation *)

Record FlowBuildOptions := mkBuildOptions {
  b_role : option FlowRole; selectedUsers : option (list jsstr);
  selectedNodes : option (list FlowNodeFilter); colorPalette_ : option (list jsstr);
  visibleStages : option (list FlowNodeKind); deletedTokenLabel_ : option (Z → jsstr);
  graphOptions : FlowGraphOptions }.

Record ProcessedFlowData := mkProcessed {
  summary : FlowMetrics; flow : DashboardFlowGraph;
  user_options : list FlowUserFilterOption; node_options : list FlowNodeFilterOption }.

Definition buildDashboardFlowData (rows : list FlowQuotaDataItem) (metric : FlowMetric)
    (options : FlowBuildOptions) : ProcessedFlowData :=
  let role := default RUser (b_role options) in
  let palette := colorPalette_ options in
  let ctx := deletedTokenLabel_ options in
  let stages := resolveVisibleStages role (visibleStages options) in
  let userFilteredRows := filterRows rows (selectedUsers options) in
  let filteredRows := filterRowsByNodes ctx userFilteredRows (selectedNodes options) stages in
  mkProcessed (buildSummary filteredRows)
    (buildFlowGraph ctx filteredRows metric role palette (visibleStages options) (graphOptions options))
    (buildUserFilterOptions rows metric palette)
    (buildNodeFilterOptions ctx userFilteredRows metric role (visibleStages options) palette
       (selectedNodes options)).

Definition buildFlowFilterOptions (rows : list FlowQuotaDataItem) (metric : FlowMetric)
    (palette : option (list jsstr)) (role : FlowRole) (visibleStages : option (list FlowNodeKind))
    (selectedNodes : option (list FlowNodeFilter)) :
    list FlowUserFilterOption * list FlowNodeFilterOption :=
  (buildUserFilterOptions rows metric palette,
   buildNodeFilterOptions None rows metric role visibleStages palette selectedNodes).
End graph.

(** ** What the dashboard shows (flow-selection.ts) *)

Inductive FlowDisplayState := Loading | DisplayError | Empty | Chart.

Record FlowResponse := mkFlowResponse {
  fr_success : bool; fr_data : option (list FlowQuotaDataItem); fr_message : option jsstr }.

(** [inl] is the message of the error thrown. *)
Definition requireSuccessfulFlowRows (response : FlowResponse) (fallbackMessage : jsstr) :
    jsstr + list FlowQuotaDataItem :=
  if negb (fr_success response) then inl (opt_str (fr_message response) fallbackMessage)
  else inr (default [] (fr_data response)).

Definition flowDisplayState (isLoading isError : bool) (linkCount : nat) (themeReady : bool) :
    FlowDisplayState :=
  if isLoading then Loading
  else if isError then DisplayError
  else if (linkCount =? 0)%nat then Empty
  else if negb themeReady then Loading
  else Chart.

Definition compactFlowSelectionLabel (count : Z) : jsstr :=
  if 0 <? count then show_Z count else js "*".

Definition visibleFlowUsers (users : list FlowUserFilterOption) (selectedUsers : list jsstr) :
    list FlowUserFilterOption :=
  match selectedUsers with
  | [] => users
  | _ => List.filter (λ user, set_has (new_Set selectedUsers) (u_value user)) users
  end.

End Flow.
