(* ===== verification/FlowGraph.v ===== *)
(** * The dashboard's flow graph is the sum of its paths

    The graph of [Flow] is the sum of the prepared paths ([sums_paths]): nodes and links are
    exactly those the paths go through, with the sums of their metrics. From that alone it
    follows that flow is conserved at inner nodes and that every stage carries the whole
    flow. *)
From Stdlib Require Import QArith Qround Qcanon.
From S2P Require Import Prelude JsString JsMap JsValue Flow.
Local Open Scope Z_scope.

Module FlowGraph.
Import Flow.

(** ** Shape of the paths *)

(** An identifier begins with its kind and holds no NUL, the separator of link keys. *)
Definition good_id (n : FlowPathNode) : Prop :=
  (∃ t, pn_id n = kind_name (pn_kind n) ++ 58%N :: t) ∧ 0%N ∉ pn_id n.

Definition shaped (stages : list FlowNodeKind) (p : list FlowPathNode) : Prop :=
  pn_kind <$> p = stages ∧ Forall good_id p.

(** No name of a row holds a NUL. *)
Definition clean (s : option jsstr) : Prop := 0%N ∉ default [] s.

Definition clean_row (row : FlowQuotaDataItem) : Prop :=
  clean (username row) ∧ clean (node_name row) ∧ clean (use_group row) ∧ clean (token_name row) ∧
  clean (channel_name row) ∧ clean (model_name row).

Lemma kind_prefix_inj k k' t t' :
  kind_name k ++ 58%N :: t = kind_name k' ++ 58%N :: t' → k = k'.
Proof. by destruct k, k'; intros H; try done; discriminate H. Qed.

Lemma good_id_kind n n' : good_id n → good_id n' → pn_id n = pn_id n' → pn_kind n = pn_kind n'.
Proof. intros [[t ->] _] [[t' ->] _] H. by eapply kind_prefix_inj. Qed.

Lemma digit_nonzero z : 0%N ∉ show_Z z.
Proof.
  assert (∀ n, 0%N ∉ show_N n) as Hn.
  { intros n Hin. pose proof (show_N_digits n) as Hd. rewrite Forall_forall in Hd.
    by apply Hd in Hin. }
  unfold show_Z. case_match; [|apply Hn]. rewrite not_elem_of_cons. split; [done|apply Hn].
Qed.

Lemma opt_str_clean s d : clean s → 0%N ∉ d → 0%N ∉ opt_str s d.
Proof. unfold clean, opt_str, str_or. by destruct s as [[|u s]|]. Qed.

(** A prefix [kind:] without NUL before a clean text. *)
Lemma prefix_clean k t : 0%N ∉ t → 0%N ∉ (kind_name k ++ 58%N :: t).
Proof.
  intros Ht. rewrite elem_of_app, elem_of_cons. intros [Hk|[?|?]]; [|done|done].
  revert Hk. rewrite list_elem_of_In. destruct k; vm_compute; intuition discriminate.
Qed.

Lemma known_clean : (0%N ∉ js "unknown") ∧ (0%N ∉ js "default-node").
Proof. split; rewrite list_elem_of_In; vm_compute; intuition discriminate. Qed.

Lemma builder_good ctx k row :
  clean_row row → good_id (NODE_BUILDERS ctx k row) ∧ pn_kind (NODE_BUILDERS ctx k row) = k.
Proof.
  intros (H1 & H2 & H3 & H4 & H5 & H6). destruct known_clean as [Hu Hd].
  split; [|by destruct k].
  assert (∃ t, pn_id (NODE_BUILDERS ctx k row) = kind_name k ++ 58%N :: t ∧ 0%N ∉ t) as (t & Ht & Hc).
  { destruct k; eexists; (split; [reflexivity|]); try case_match;
      auto using digit_nonzero, opt_str_clean. }
  split; [exists t; rewrite Ht; by destruct k|]. rewrite Ht. by apply prefix_clean.
Qed.

Lemma path_shaped ctx row stages : clean_row row → shaped stages (flowPathForStages ctx row stages).
Proof.
  intros Hc. unfold flowPathForStages. split.
  - induction stages as [|k ks IH]; [done|]. cbn. f_equal; [|apply IH].
    by apply builder_good.
  - apply Forall_fmap, Forall_true. intros k. by apply builder_good.
Qed.

Lemma other_good labeler k : good_id (otherFlowNode labeler k).
Proof.
  split; [by exists (js "__other__"); destruct k|].
  apply (prefix_clean k (js "__other__")). rewrite list_elem_of_In. vm_compute. intuition discriminate.
Qed.

Lemma limit_shaped stages p sets mode labeler p' :
  shaped stages p → applyTopNodeLimit p sets mode labeler = Some p' → shaped stages p'.
Proof.
  unfold applyTopNodeLimit. intros [Hk Hg] H. repeat case_match; simplify_eq; try done.
  split.
  - rewrite <- list_fmap_compose. apply list_fmap_ext. intros i n _. simpl. by case_match.
  - apply Forall_fmap. eapply Forall_impl; [exact Hg|]. intros n Hn. simpl.
    case_match; [done|apply other_good].
Qed.

Lemma resolve_NoDup role vs : NoDup (resolveVisibleStages role vs).
Proof.
  assert (NoDup (getFlowStages role)) as Hn by (destruct role; by apply (bool_decide_unpack _)).
  unfold resolveVisibleStages. destruct vs as [vs|]; [|done]. case_match; [|done].
  rewrite filter_bool. by apply NoDup_filter.
Qed.

(** ** The maps as accumulations *)

Section maps.
Context `{P : Platform} (metric : FlowMetric) (color : FlowPathNode → jsstr).

(** A step of the loops: the path, its root and what is added. *)
Definition root_of (pp : PreparedFlowPath) : FlowPathNode :=
  default (mkPathNode [] [] KUser) (head (path pp)).

Definition node_items (pps : list PreparedFlowPath) : list (PreparedFlowPath * FlowPathNode) :=
  mjoin ((λ pp, pair pp <$> path pp) <$> pps).

Definition link_items (pps : list PreparedFlowPath) :
    list (PreparedFlowPath * (FlowPathNode * FlowPathNode)) :=
  mjoin ((λ pp, pair pp <$> path_links (path pp)) <$> pps).

Definition weight (pp : PreparedFlowPath) : Z := metricValue (metrics pp) metric.

Definition node_key (x : PreparedFlowPath * FlowPathNode) : jsstr := pn_id x.2.
Definition node_init (x : PreparedFlowPath * FlowPathNode) : DashboardFlowNode :=
  empty_node x.2 (color (root_of x.1)) (pn_id (root_of x.1)).
Definition node_upd (n : DashboardFlowNode) (x : PreparedFlowPath * FlowPathNode) :
    DashboardFlowNode := add_to_node n (metrics x.1) metric.

Definition link_key (x : PreparedFlowPath * (FlowPathNode * FlowPathNode)) : jsstr :=
  pathLinkKey x.2.1 x.2.2.
Definition link_init (x : PreparedFlowPath * (FlowPathNode * FlowPathNode)) : DashboardFlowLink :=
  empty_link x.2.1 x.2.2 (color (root_of x.1)) (pn_id (root_of x.1)).
Definition link_upd (l : DashboardFlowLink) (x : PreparedFlowPath * (FlowPathNode * FlowPathNode)) :
    DashboardFlowLink := add_to_link l (metrics x.1) metric.

Lemma foldl_pair {A B C} (f : C → B → C) (g : C → A * B → C) (a : A) l c :
  (∀ c b, g c (a, b) = f c b) → foldl g c (pair a <$> l) = foldl f c l.
Proof. intros H. revert c. induction l as [|b l IH]; intros c; simpl; [done|]. by rewrite H, IH. Qed.

Lemma add_path_maps g pp :
  add_path metric color g pp =
    (foldl (acc_step node_key node_init node_upd) g.1 (pair pp <$> path pp),
     foldl (acc_step link_key link_init link_upd) g.2 (pair pp <$> path_links (path pp))).
Proof.
  unfold add_path. destruct (path pp) as [|root p] eqn:E; [by destruct g|].
  assert (root_of pp = root) as Hr by (unfold root_of; by rewrite E).
  f_equal; symmetry; apply foldl_pair; intros m x; unfold acc_step, node_init, link_init; simpl;
    by rewrite Hr.
Qed.

Lemma foldl_maps pps g :
  foldl (add_path metric color) g pps =
    (foldl (acc_step node_key node_init node_upd) g.1 (node_items pps),
     foldl (acc_step link_key link_init link_upd) g.2 (link_items pps)).
Proof.
  revert g. induction pps as [|pp pps IH]; intros g; [by destruct g|].
  cbn [foldl]. rewrite IH, add_path_maps. simpl.
  change (node_items (pp :: pps)) with ((pair pp <$> path pp) ++ node_items pps).
  change (link_items (pp :: pps)) with ((pair pp <$> path_links (path pp)) ++ link_items pps).
  by rewrite !foldl_app.
Qed.

Lemma maps_accumulate pps :
  foldl (add_path metric color) ([], []) pps =
    (accumulate node_key node_init node_upd (node_items pps),
     accumulate link_key link_init link_upd (link_items pps)).
Proof. apply foldl_maps. Qed.

(** What the updates leave alone, and what they add. *)
Lemma node_fold_core n xs :
  let n' := foldl node_upd n xs in
  n_id n' = n_id n ∧ n_kind n' = n_kind n ∧ n_label n' = n_label n ∧
  n_value n' = n_value n + sumZ (λ x, weight x.1) xs ∧
  n_requests n' = n_requests n + sumZ (λ x, m_requests (metrics x.1)) xs ∧
  n_quota n' = n_quota n + sumZ (λ x, m_quota (metrics x.1)) xs ∧
  n_tokens n' = n_tokens n + sumZ (λ x, m_tokens (metrics x.1)) xs.
Proof.
  revert n. induction xs as [|x xs IH]; intros n; [simpl; split_and!; done || lia|].
  cbn [foldl]. specialize (IH (node_upd n x)). rewrite !sumZ_cons.
  destruct IH as (-> & -> & -> & -> & -> & -> & ->). unfold node_upd, add_to_node, weight. simpl.
  split_and!; done || lia.
Qed.

Lemma link_fold_core l xs :
  let l' := foldl link_upd l xs in
  l_source l' = l_source l ∧ l_target l' = l_target l ∧
  l_sourceLabel l' = l_sourceLabel l ∧ l_targetLabel l' = l_targetLabel l ∧
  l_value l' = l_value l + sumZ (λ x, weight x.1) xs ∧
  l_requests l' = l_requests l + sumZ (λ x, m_requests (metrics x.1)) xs ∧
  l_quota l' = l_quota l + sumZ (λ x, m_quota (metrics x.1)) xs ∧
  l_tokens l' = l_tokens l + sumZ (λ x, m_tokens (metrics x.1)) xs.
Proof.
  revert l. induction xs as [|x xs IH]; intros l; [simpl; split_and!; done || lia|].
  cbn [foldl]. specialize (IH (link_upd l x)). rewrite !sumZ_cons.
  destruct IH as (-> & -> & -> & -> & -> & -> & -> & ->).
  unfold link_upd, add_to_link, weight. simpl. split_and!; done || lia.
Qed.
End maps.

(** ** Paths through a node and across a link *)

Definition ids (p : list FlowPathNode) : list jsstr := pn_id <$> p.
Definition link_ids (p : list FlowPathNode) : list (jsstr * jsstr) :=
  prod_map pn_id pn_id <$> path_links p.

Definition through (id : jsstr) (pps : list PreparedFlowPath) : list PreparedFlowPath :=
  filter (λ pp, id ∈ ids (path pp)) pps.

Definition across (source target : jsstr) (pps : list PreparedFlowPath) : list PreparedFlowPath :=
  filter (λ pp, (source, target) ∈ link_ids (path pp)) pps.

Lemma NoDup_fmap_weaker {A B C} (f : A → B) (g : A → C) l :
  NoDup (g <$> l) → (∀ x y, x ∈ l → y ∈ l → f x = f y → g x = g y) → NoDup (f <$> l).
Proof.
  induction l as [|x l IH]; [constructor|]. cbn. rewrite !NoDup_cons. intros [Hx Hnd] H.
  split; [|apply IH; [done|]; intros; apply H; set_solver].
  intros (y & Hy & Hin)%list_elem_of_fmap. apply Hx, list_elem_of_fmap. exists y.
  split; [|done]. apply H; [left|by right|done].
Qed.

Lemma shaped_ids_NoDup stages p : NoDup stages → shaped stages p → NoDup (ids p).
Proof.
  intros Hnd [Hk Hg]. rewrite Forall_forall in Hg. eapply (NoDup_fmap_weaker _ pn_kind).
  - by rewrite Hk.
  - intros x y Hx Hy. apply good_id_kind; by apply Hg.
Qed.

Lemma path_links_fst p : (λ l, l.1) <$> path_links p = removelast p.
Proof.
  induction p as [|a [|b p] IH]; [done|done|].
  change (path_links (a :: b :: p)) with ((a, b) :: path_links (b :: p)). cbn. f_equal. apply IH.
Qed.

Lemma path_links_snd p : (λ l, l.2) <$> path_links p = tail p.
Proof.
  induction p as [|a [|b p] IH]; [done|done|].
  change (path_links (a :: b :: p)) with ((a, b) :: path_links (b :: p)). cbn. f_equal. apply IH.
Qed.

Lemma removelast_sublist {A} (l : list A) : sublist (removelast l) l.
Proof.
  destruct l as [|x l] using rev_ind; [done|]. rewrite removelast_last.
  apply sublist_inserts_r. done.
Qed.

Lemma sublist_map {A B} (f : A → B) l k : sublist l k → sublist (f <$> l) (f <$> k).
Proof. induction 1; cbn; by constructor. Qed.

Lemma link_elem p a b : (a, b) ∈ path_links p → a ∈ p ∧ b ∈ p.
Proof.
  intros H. split.
  - eapply elem_of_sublist; [|apply removelast_sublist]. rewrite <- path_links_fst.
    apply list_elem_of_fmap. by exists (a, b).
  - apply (list_elem_of_fmap_2 (λ l, l.2)) in H. rewrite path_links_snd in H.
    destruct p; [done|]. by right.
Qed.

Lemma link_ids_NoDup p : NoDup (ids p) → NoDup (link_ids p).
Proof.
  intros Hnd. unfold link_ids. eapply (NoDup_fmap_weaker _ (λ l, pn_id l.1)).
  - change (λ l, pn_id l.1) with (pn_id ∘ (λ l : FlowPathNode * FlowPathNode, l.1)).
    rewrite list_fmap_compose, path_links_fst.
    eapply sublist_NoDup; [exact Hnd|]. apply sublist_map, removelast_sublist.
  - intros [a b] [c d] _ _ [= H _]. done.
Qed.

Lemma cut_inj (a b a' b' : jsstr) :
  0%N ∉ a → 0%N ∉ a' → a ++ 0%N :: b = a' ++ 0%N :: b' → a = a' ∧ b = b'.
Proof.
  revert a'. induction a as [|x a IH]; intros [|x' a'] Ha Ha' H; simpl in *.
  - by injection H as ->.
  - injection H as <- _. set_solver.
  - injection H as -> _. set_solver.
  - injection H as -> H. destruct (IH a') as [-> ->]; set_solver.
Qed.

Lemma link_key_inj stages p p' a b c d :
  shaped stages p → shaped stages p' → (a, b) ∈ path_links p → (c, d) ∈ path_links p' →
  pathLinkKey a b = pathLinkKey c d ↔ (pn_id a, pn_id b) = (pn_id c, pn_id d).
Proof.
  intros [_ Hp] [_ Hp'] Hab Hcd. rewrite Forall_forall in Hp, Hp'.
  apply link_elem in Hab as [Ha Hb], Hcd as [Hc Hd].
  split; [|by intros [= H1 H2]; unfold pathLinkKey; rewrite H1, H2].
  intros [-> ->]%cut_inj; [done|by apply Hp|by apply Hp'].
Qed.

(** ** What the later passes keep *)

Definition node_core (n : DashboardFlowNode) : jsstr * FlowNodeKind * (Z * Z * Z * Z) :=
  (n_id n, n_kind n, (n_value n, n_requests n, n_quota n, n_tokens n)).

Definition link_core (l : DashboardFlowLink) : jsstr * jsstr * (Z * Z * Z * Z) :=
  (l_source l, l_target l, (l_value l, l_requests l, l_quota l, l_tokens l)).

Lemma values_map {K V W} (f : V → W) (m : list (K * V)) :
  jm_values (prod_map id f <$> m) = f <$> jm_values m.
Proof. unfold jm_values. rewrite <- !list_fmap_compose. by apply list_fmap_ext. Qed.

Lemma mask_cores ns ls :
  node_core <$> jm_values (maskFlowGraphLabels ns ls).1 = node_core <$> jm_values ns ∧
  link_core <$> jm_values (maskFlowGraphLabels ns ls).2 = link_core <$> jm_values ls.
Proof.
  unfold maskFlowGraphLabels. cbn [fst snd]. split.
  - rewrite values_map, <- list_fmap_compose. apply list_fmap_ext. intros i n _.
    unfold compose, mask_node. by case_match.
  - case_match; [done|]. rewrite values_map, <- list_fmap_compose. by apply list_fmap_ext.
Qed.

Lemma highlight_cores ns ls sets :
  node_core <$> jm_values (applyFlowHighlights ns ls sets).1 = node_core <$> jm_values ns ∧
  link_core <$> jm_values (applyFlowHighlights ns ls sets).2 = link_core <$> jm_values ls.
Proof.
  destruct sets as [[hn hl]|]; [|done]. simpl.
  split; rewrite values_map, <- list_fmap_compose; by apply list_fmap_ext.
Qed.

Section cores.
Context `{P : Platform}.

Lemma display_cores ls : link_core <$> assignLinkDisplayColors ls = link_core <$> ls.
Proof.
  unfold assignLinkDisplayColors. generalize (ranked_links ls). intros r.
  rewrite fmap_imap. rewrite <- (imap_const link_core). apply imap_ext. intros i l _.
  unfold compose. by case_match.
Qed.

Lemma share_cores total ls : link_core <$> map (set_share total) ls = link_core <$> ls.
Proof. rewrite <- list_fmap_compose. by apply list_fmap_ext. Qed.

(** The elements of the graph are those of the two maps, up to order and display. *)
Lemma graph_cores pps metric palette stages options :
  let g := graph_of_paths pps metric palette stages options in
  node_core <$> nodes g ≡ₚ node_core <$> jm_values (graph_maps metric palette pps).1 ∧
  link_core <$> links g ≡ₚ link_core <$> jm_values (graph_maps metric palette pps).2.
Proof.
  unfold graph_of_paths. cbn [nodes links].
  set (m := graph_maps metric palette pps).
  set (m1 := if maskSensitive options then maskFlowGraphLabels m.1 m.2 else m).
  assert (node_core <$> jm_values m1.1 = node_core <$> jm_values m.1 ∧
          link_core <$> jm_values m1.2 = link_core <$> jm_values m.2) as [Hn Hl].
  { subst m1. destruct (maskSensitive options); [apply mask_cores|done]. }
  rewrite <- Hn, <- Hl. generalize (buildFlowHighlightSets pps (activeNode options) (activeLink options) stages).
  intros sets. destruct (highlight_cores m1.1 m1.2 sets) as [<- <-].
  rewrite display_cores, share_cores, !js_sort_perm. done.
Qed.
End cores.

(** ** Sums over the items *)

Section sums.
Context `{P : Platform} (stages : list FlowNodeKind) (pps : list PreparedFlowPath).
Hypothesis (Hstages : NoDup stages) (Hpps : Forall (λ pp, shaped stages (path pp)) pps).

Lemma node_items_sum (f : PreparedFlowPath → Z) id :
  sumZ (λ x, f x.1) (filter (λ x, node_key x = id) (node_items pps)) = sumZ f (through id pps).
Proof.
  unfold node_items, through. rewrite !sumZ_filter, sumZ_join. apply sumZ_ext. intros pp Hin.
  rewrite sumZ_map. rewrite Forall_forall in Hpps. specialize (Hpps pp Hin).
  exact (sumZ_single pn_id id (f pp) (path pp) (shaped_ids_NoDup _ _ Hstages Hpps)).
Qed.

(** The pair of identifiers of a link item. *)
Definition ends (x : PreparedFlowPath * (FlowPathNode * FlowPathNode)) : jsstr * jsstr :=
  prod_map pn_id pn_id x.2.

Lemma link_items_sum (f : PreparedFlowPath → Z) a b :
  sumZ (λ x, f x.1) (filter (λ x, ends x = (a, b)) (link_items pps)) = sumZ f (across a b pps).
Proof.
  unfold link_items, across. rewrite !sumZ_filter, sumZ_join. apply sumZ_ext. intros pp Hin.
  rewrite sumZ_map. rewrite Forall_forall in Hpps. specialize (Hpps pp Hin).
  exact (sumZ_single (prod_map pn_id pn_id) (a, b) (f pp) (path_links (path pp))
    (link_ids_NoDup _ (shaped_ids_NoDup _ _ Hstages Hpps))).
Qed.

Lemma node_item_elem pp n : (pp, n) ∈ node_items pps ↔ pp ∈ pps ∧ n ∈ path pp.
Proof.
  unfold node_items. rewrite list_elem_of_join. split.
  - intros (l & Hl & (q & -> & Hq)%list_elem_of_fmap).
    apply list_elem_of_fmap in Hl as (n' & [= -> ->] & ?). done.
  - intros [Hpp Hn]. exists (pair pp <$> path pp).
    split; apply list_elem_of_fmap; eauto.
Qed.

Lemma link_item_elem pp l : (pp, l) ∈ link_items pps ↔ pp ∈ pps ∧ l ∈ path_links (path pp).
Proof.
  unfold link_items. rewrite list_elem_of_join. split.
  - intros (k & Hk & (q & -> & Hq)%list_elem_of_fmap).
    apply list_elem_of_fmap in Hk as (n' & [= -> ->] & ?). done.
  - intros [Hpp Hn]. exists (pair pp <$> path_links (path pp)).
    split; apply list_elem_of_fmap; eauto.
Qed.

(** Equal keys, equal ends. *)
Lemma link_item_key x y :
  x ∈ link_items pps → y ∈ link_items pps → link_key x = link_key y ↔ ends x = ends y.
Proof.
  destruct x as [pp [a b]], y as [pp' [c d]]. rewrite !link_item_elem. intros [Hp Hab] [Hp' Hcd].
  rewrite Forall_forall in Hpps. unfold link_key, ends. simpl.
  apply (link_key_inj stages (path pp) (path pp')); auto.
Qed.
End sums.

(** ** The reference graph *)

(** The four sums of a list of paths. *)
Definition totals (metric : FlowMetric) (pps : list PreparedFlowPath) : Z * Z * Z * Z :=
  (sumZ (weight metric) pps, sumZ (λ pp, m_requests (metrics pp)) pps,
   sumZ (λ pp, m_quota (metrics pp)) pps, sumZ (λ pp, m_tokens (metrics pp)) pps).

Section exact.
Context `{P : Platform} (metric : FlowMetric) (palette : option (list jsstr)).
Context (stages : list FlowNodeKind) (pps : list PreparedFlowPath).
Hypothesis (Hstages : NoDup stages) (Hpps : Forall (λ pp, shaped stages (path pp)) pps).

Lemma map_nodes_exact k n :
  (k, n) ∈ (graph_maps metric palette pps).1 →
  ∃ pp pn, pp ∈ pps ∧ pn ∈ path pp ∧ pn_id pn = k ∧
    node_core n = (k, pn_kind pn, totals metric (through k pps)).
Proof.
  unfold graph_maps. rewrite maps_accumulate. cbn [fst].
  intros ([pp pn] & xs & Hf & Hk & ->)%accumulate_elem.
  assert ((pp, pn) ∈ filter (λ x, node_key x = k) (node_items pps)) as Hin by (rewrite Hf; left).
  apply list_elem_of_filter in Hin as [_ [Hpp Hpn]%node_item_elem].
  exists pp, pn. split_and!; [done..|].
  destruct (node_fold_core metric (node_init (root_color pps palette) (pp, pn)) ((pp, pn) :: xs))
    as (H1 & H2 & _ & H4 & H5 & H6 & H7).
  unfold node_core. rewrite H1, H2, H4, H5, H6, H7, <- Hf. unfold totals.
  rewrite <- !(node_items_sum stages pps Hstages Hpps). simpl. by rewrite <- Hk.
Qed.

Lemma map_links_exact k l :
  (k, l) ∈ (graph_maps metric palette pps).2 →
  ∃ pp a b, pp ∈ pps ∧ (a, b) ∈ path_links (path pp) ∧ pathLinkKey a b = k ∧
    link_core l = (pn_id a, pn_id b, totals metric (across (pn_id a) (pn_id b) pps)).
Proof.
  unfold graph_maps. rewrite maps_accumulate. cbn [snd].
  intros ([pp [a b]] & xs & Hf & Hk & ->)%accumulate_elem.
  assert ((pp, (a, b)) ∈ filter (λ x, link_key x = k) (link_items pps)) as Hin by (rewrite Hf; left).
  apply list_elem_of_filter in Hin as [_ Hitem].
  destruct (proj1 (link_item_elem _ _ _) Hitem) as [Hpp Hab].
  exists pp, a, b. split_and!; [done..|].
  destruct (link_fold_core metric (link_init (root_color pps palette) (pp, (a, b))) ((pp, (a, b)) :: xs))
    as (H1 & H2 & _ & _ & H5 & H6 & H7 & H8).
  unfold link_core. rewrite H1, H2, H5, H6, H7, H8, <- Hf. unfold totals.
  rewrite <- !(link_items_sum stages pps Hstages Hpps).
  assert (filter (λ x, link_key x = k) (link_items pps) =
          filter (λ x, ends x = (pn_id a, pn_id b)) (link_items pps)) as ->; [|done].
  apply filter_ext_in. intros x Hx. rewrite <- Hk.
  by rewrite (link_item_key stages pps Hpps x (pp, (a, b)) Hx Hitem).
Qed.
End exact.

(** The graph is the sum of the paths: one node per identifier on a path and one link per
    step of a path, each with the sums over the paths that go through it. *)
Record sums_paths (metric : FlowMetric) (pps : list PreparedFlowPath) (g : DashboardFlowGraph) :
    Prop := {
  nodes_distinct : NoDup (n_id <$> nodes g);
  nodes_cover : ∀ id, id ∈ n_id <$> nodes g ↔ ∃ pp, pp ∈ pps ∧ id ∈ ids (path pp);
  nodes_kind : ∀ n, n ∈ nodes g →
    ∃ pp pn, pp ∈ pps ∧ pn ∈ path pp ∧ pn_id pn = n_id n ∧ pn_kind pn = n_kind n;
  nodes_sum : ∀ n, n ∈ nodes g →
    (n_value n, n_requests n, n_quota n, n_tokens n) = totals metric (through (n_id n) pps);
  links_distinct : NoDup ((λ l, (l_source l, l_target l)) <$> links g);
  links_cover : ∀ a b, (a, b) ∈ (λ l, (l_source l, l_target l)) <$> links g ↔
    ∃ pp, pp ∈ pps ∧ (a, b) ∈ link_ids (path pp);
  links_sum : ∀ l, l ∈ links g →
    (l_value l, l_requests l, l_quota l, l_tokens l) =
    totals metric (across (l_source l) (l_target l) pps)
}.

Section reference.
Context `{P : Platform} (metric : FlowMetric) (palette : option (list jsstr)).
Context (stages : list FlowNodeKind) (pps : list PreparedFlowPath) (options : FlowGraphOptions).
Hypothesis (Hstages : NoDup stages) (Hpps : Forall (λ pp, shaped stages (path pp)) pps).

Abbreviation maps := (graph_maps metric palette pps).
Abbreviation graph := (graph_of_paths pps metric palette stages options).

Lemma node_keys_ids : jm_keys maps.1 = n_id <$> jm_values maps.1.
Proof.
  unfold jm_keys, jm_values. rewrite <- list_fmap_compose. apply list_fmap_ext.
  intros i [k n] Hi. apply list_elem_of_lookup_2, map_nodes_exact with (stages := stages) in Hi; [|done..].
  destruct Hi as (? & ? & _ & _ & _ & [= H _ _]). by rewrite <- H.
Qed.

Lemma maps_wf : jm_wf maps.1 ∧ jm_wf maps.2.
Proof. unfold graph_maps. rewrite maps_accumulate. split; apply accumulate_wf. Qed.

Lemma graph_node n : n ∈ nodes graph → ∃ v, (n_id n, v) ∈ maps.1 ∧ node_core v = node_core n.
Proof.
  intros Hn%(list_elem_of_fmap_2 node_core). destruct (graph_cores pps metric palette stages options) as [Hc _].
  rewrite Hc in Hn. apply list_elem_of_fmap in Hn as (v & Hv & [[k w] [-> Hin]]%list_elem_of_fmap).
  simpl in *. destruct (map_nodes_exact metric palette stages pps Hstages Hpps k w Hin)
    as (pp & pn & _ & _ & _ & Hw).
  exists w. split; [|done]. apply (f_equal (λ c, c.1.1)) in Hv, Hw. simpl in *. by rewrite Hv, Hw.
Qed.

Lemma graph_link l : l ∈ links graph → ∃ k v, (k, v) ∈ maps.2 ∧ link_core v = link_core l.
Proof.
  intros Hn%(list_elem_of_fmap_2 link_core). destruct (graph_cores pps metric palette stages options) as [_ Hc].
  rewrite Hc in Hn. apply list_elem_of_fmap in Hn as (v & Hv & [[k w] [-> Hin]]%list_elem_of_fmap).
  by exists k, w.
Qed.

Lemma graph_ids : n_id <$> nodes graph ≡ₚ jm_keys maps.1.
Proof.
  rewrite node_keys_ids. destruct (graph_cores pps metric palette stages options) as [Hc _].
  apply (fmap_Permutation (λ c : jsstr * FlowNodeKind * (Z * Z * Z * Z), c.1.1)) in Hc.
  by rewrite <- !list_fmap_compose in Hc.
Qed.

Lemma graph_ends :
  (λ l, (l_source l, l_target l)) <$> links graph ≡ₚ
  (λ l, (l_source l, l_target l)) <$> jm_values maps.2.
Proof.
  destruct (graph_cores pps metric palette stages options) as [_ Hc].
  apply (fmap_Permutation (λ c : jsstr * jsstr * (Z * Z * Z * Z), c.1)) in Hc.
  by rewrite <- !list_fmap_compose in Hc.
Qed.

Lemma map_ends_NoDup : NoDup ((λ l, (l_source l, l_target l)) <$> jm_values maps.2).
Proof.
  unfold jm_values. rewrite <- list_fmap_compose.
  eapply (NoDup_fmap_weaker _ fst); [apply maps_wf|].
  intros [k l] [k' l'] Hl Hl' [= H1 H2].
  destruct (map_links_exact metric palette stages pps Hstages Hpps k l Hl)
    as (pp & a & b & _ & _ & <- & [= Ha Hb _ _ _ _]).
  destruct (map_links_exact metric palette stages pps Hstages Hpps k' l' Hl')
    as (pp' & a' & b' & _ & _ & <- & [= Ha' Hb' _ _ _ _]).
  simpl in *. unfold pathLinkKey. congruence.
Qed.

Lemma map_keys_cover k : k ∈ jm_keys maps.1 ↔ ∃ pp, pp ∈ pps ∧ k ∈ ids (path pp).
Proof.
  unfold graph_maps. rewrite maps_accumulate. cbn [fst]. rewrite accumulate_keys. split.
  - intros ([pp pn] & [Hpp Hpn]%node_item_elem & <-). exists pp. split; [done|].
    by apply (list_elem_of_fmap_2 pn_id).
  - intros (pp & Hpp & (pn & -> & Hpn)%list_elem_of_fmap).
    exists (pp, pn). split; [|done]. by apply node_item_elem.
Qed.

Lemma map_ends_cover a b :
  (a, b) ∈ (λ l, (l_source l, l_target l)) <$> jm_values maps.2 ↔
  ∃ pp, pp ∈ pps ∧ (a, b) ∈ link_ids (path pp).
Proof.
  split.
  - intros (l & Hl & ([k l'] & -> & Hin)%list_elem_of_fmap)%list_elem_of_fmap. simpl in *.
    destruct (map_links_exact metric palette stages pps Hstages Hpps k l' Hin)
      as (pp & x & y & Hpp & Hxy & _ & [= Hx Hy _ _ _ _]).
    exists pp. split; [done|]. apply list_elem_of_fmap. exists (x, y). simpl. split; [|done].
    injection Hl as -> ->. by rewrite Hx, Hy.
  - intros (pp & Hpp & ([x y] & [= -> ->] & Hxy)%list_elem_of_fmap).
    assert (pathLinkKey x y ∈ jm_keys maps.2) as Hk.
    { unfold graph_maps. rewrite maps_accumulate. cbn [snd]. apply accumulate_keys.
      exists (pp, (x, y)). split; [|done]. by apply link_item_elem. }
    apply list_elem_of_fmap in Hk as ([k l] & Hkl & Hin). simpl in Hkl.
    destruct (map_links_exact metric palette stages pps Hstages Hpps _ l Hin)
      as (pp' & x' & y' & Hpp' & Hxy' & Hkey & [= Hx Hy _ _ _ _]).
    rewrite Forall_forall in Hpps. rewrite <- Hkl in Hkey.
    apply (link_key_inj stages (path pp') (path pp)) in Hkey; [|by auto..].
    injection Hkey as Hx' Hy'. apply list_elem_of_fmap. exists l.
    split; [congruence|]. apply list_elem_of_fmap. by exists (k, l).
Qed.

Lemma graph_sums_paths : sums_paths metric pps graph.
Proof.
  destruct maps_wf as [Hwf _]. split.
  - by rewrite graph_ids.
  - intros id. rewrite graph_ids. apply map_keys_cover.
  - intros n (v & Hv & Hc)%graph_node.
    destruct (map_nodes_exact metric palette stages pps Hstages Hpps _ v Hv)
      as (pp & pn & Hpp & Hpn & Hid & Hw). exists pp, pn. split_and!; [done..|].
    rewrite Hc in Hw. by apply (f_equal (λ c, c.1.2)) in Hw.
  - intros n (v & Hv & Hc)%graph_node.
    destruct (map_nodes_exact metric palette stages pps Hstages Hpps _ v Hv)
      as (_ & pn & _ & _ & _ & Hw). rewrite Hc in Hw. unfold node_core in Hw. by simplify_eq.
  - rewrite graph_ends. apply map_ends_NoDup.
  - intros a b. rewrite graph_ends. apply map_ends_cover.
  - intros l (k & v & Hv & Hc)%graph_link.
    destruct (map_links_exact metric palette stages pps Hstages Hpps _ v Hv)
      as (_ & a & b & _ & _ & _ & Hw). rewrite Hc in Hw.
    pose proof (f_equal (λ c, c.1.1) Hw) as Ha. pose proof (f_equal (λ c, c.1.2) Hw) as Hb.
    apply (f_equal snd) in Hw. simpl in *. by rewrite Ha, Hb.
Qed.
End reference.

(** ** Consequences for any graph that sums its paths *)

Definition inflow (g : DashboardFlowGraph) (id : jsstr) : Z :=
  sumZ (λ l, if decide (l_target l = id) then l_value l else 0) (links g).

Definition outflow (g : DashboardFlowGraph) (id : jsstr) : Z :=
  sumZ (λ l, if decide (l_source l = id) then l_value l else 0) (links g).

Section consequences.
Context (metric : FlowMetric) (stages : list FlowNodeKind) (pps : list PreparedFlowPath).
Context (g : DashboardFlowGraph).
Hypothesis (Hstages : NoDup stages) (Hpps : Forall (λ pp, shaped stages (path pp)) pps).
Hypothesis (Hg : sums_paths metric pps g).

Definition l_ends (l : DashboardFlowLink) : jsstr * jsstr := (l_source l, l_target l).

(** A sum of link values, path by path. *)
Lemma links_by_path (t : jsstr * jsstr → bool) :
  sumZ (λ l, if t (l_ends l) then l_value l else 0) (links g) =
  sumZ (λ pp, sumZ (λ e, if t e then weight metric pp else 0) (link_ids (path pp))) pps.
Proof.
  trans (sumZ (λ e, sumZ (λ pp, if decide (e ∈ link_ids (path pp))
    then (if t e then weight metric pp else 0) else 0) pps) (l_ends <$> links g)).
  - rewrite sumZ_map. apply sumZ_ext. intros l Hl.
    pose proof (links_sum _ _ _ Hg l Hl) as [= Hv _ _ _].
    rewrite Hv. unfold across, l_ends. rewrite sumZ_filter. destruct (t _).
    + done.
    + rewrite (sumZ_ext _ (λ _, 0)); [by rewrite sumZ_zero|]. intros; by case_decide.
  - rewrite sumZ_swap. apply sumZ_ext. intros pp Hpp. apply sumZ_subset.
    + apply Hg.
    + apply link_ids_NoDup, (shaped_ids_NoDup stages); [done|]. rewrite Forall_forall in Hpps. auto.
    + intros [a b] Hab. apply (links_cover _ _ _ Hg). eauto.
Qed.

Lemma link_ids_snd p : snd <$> link_ids p = ids (tail p).
Proof. unfold link_ids, ids. rewrite <- list_fmap_compose, <- path_links_snd, <- list_fmap_compose. done. Qed.

Lemma link_ids_fst p : fst <$> link_ids p = ids (removelast p).
Proof. unfold link_ids, ids. rewrite <- list_fmap_compose, <- path_links_fst, <- list_fmap_compose. done. Qed.

Lemma side_sum (side : jsstr * jsstr → jsstr) pp id :
  NoDup (side <$> link_ids (path pp)) →
  sumZ (λ e, if bool_decide (side e = id) then weight metric pp else 0) (link_ids (path pp)) =
  if decide (id ∈ side <$> link_ids (path pp)) then weight metric pp else 0.
Proof.
  intros Hnd. rewrite <- sumZ_single by done. apply sumZ_ext. intros e _.
  by rewrite decide_bool_decide.
Qed.

(** The kind of an identifier on a path. *)
Lemma id_kind pp pn n : pp ∈ pps → pn ∈ path pp → n ∈ nodes g → pn_id pn = n_id n → pn_kind pn = n_kind n.
Proof.
  intros Hpp Hpn Hn Hid. destruct (nodes_kind _ _ _ Hg n Hn) as (qq & qn & Hqq & Hqn & Hqid & <-).
  rewrite Forall_forall in Hpps. destruct (Hpps _ Hpp) as [_ Hgp], (Hpps _ Hqq) as [_ Hgq].
  rewrite Forall_forall in Hgp, Hgq. apply good_id_kind; [auto..|congruence].
Qed.

Lemma tail_ids pp n :
  pp ∈ pps → n ∈ nodes g → head stages ≠ Some (n_kind n) →
  n_id n ∈ ids (tail (path pp)) ↔ n_id n ∈ ids (path pp).
Proof.
  intros Hpp Hn Hk. destruct (path pp) as [|a p] eqn:E; [done|].
  change (ids (a :: p)) with (pn_id a :: ids p). rewrite elem_of_cons. split; [by right|]. intros [Ha|?]; [|done].
  destruct Hk. pose proof (proj1 (Forall_forall _ _) Hpps _ Hpp) as [Hks _]. rewrite <- Hks, E. simpl.
  f_equal. apply (id_kind pp); [done|rewrite E; left|done|done].
Qed.

Lemma removelast_ids pp n :
  pp ∈ pps → n ∈ nodes g → last stages ≠ Some (n_kind n) →
  n_id n ∈ ids (removelast (path pp)) ↔ n_id n ∈ ids (path pp).
Proof.
  intros Hpp Hn Hk. destruct (path pp) as [|a p _] eqn:E using rev_ind; [done|].
  rewrite removelast_last. unfold ids. rewrite fmap_app, elem_of_app. split; [by left|].
  intros [?|Ha]; [done|]. simpl in Ha. apply list_elem_of_singleton in Ha.
  destruct Hk. pose proof (proj1 (Forall_forall _ _) Hpps _ Hpp) as [Hks _].
  rewrite <- Hks, E, fmap_app. cbn [fmap list_fmap]. rewrite last_snoc.
  f_equal. apply (id_kind pp); [done|rewrite E; set_solver|done|done].
Qed.

Lemma node_value n : n ∈ nodes g → n_value n = sumZ (weight metric) (through (n_id n) pps).
Proof. intros Hn. by pose proof (nodes_sum _ _ _ Hg n Hn) as [= ? _ _ _]. Qed.

Lemma conserved_in n :
  n ∈ nodes g → head stages ≠ Some (n_kind n) → inflow g (n_id n) = n_value n.
Proof.
  intros Hn Hk. rewrite node_value by done. unfold inflow, through. rewrite sumZ_filter.
  etrans; [|etrans; [apply (links_by_path (λ e, bool_decide (e.2 = n_id n)))|]].
  { apply sumZ_ext. intros l _. simpl. by case_decide; case_bool_decide. }
  apply sumZ_ext. intros pp Hpp.
  pose proof (proj1 (Forall_forall _ _) Hpps _ Hpp) as Hs.
  rewrite (side_sum snd), link_ids_snd.
  - pose proof (tail_ids pp n Hpp Hn Hk). by repeat case_decide; try tauto.
  - rewrite link_ids_snd. pose proof (shaped_ids_NoDup _ _ Hstages Hs) as Hnd.
    destruct (path pp); [done|]. by apply NoDup_cons in Hnd as [_ ?].
Qed.

Lemma conserved_out n :
  n ∈ nodes g → last stages ≠ Some (n_kind n) → outflow g (n_id n) = n_value n.
Proof.
  intros Hn Hk. rewrite node_value by done. unfold outflow, through. rewrite sumZ_filter.
  etrans; [|etrans; [apply (links_by_path (λ e, bool_decide (e.1 = n_id n)))|]].
  { apply sumZ_ext. intros l _. simpl. by case_decide; case_bool_decide. }
  apply sumZ_ext. intros pp Hpp.
  pose proof (proj1 (Forall_forall _ _) Hpps _ Hpp) as Hs.
  rewrite (side_sum fst), link_ids_fst.
  - pose proof (removelast_ids pp n Hpp Hn Hk). by repeat case_decide; try tauto.
  - rewrite link_ids_fst. eapply sublist_NoDup; [apply (shaped_ids_NoDup _ _ Hstages Hs)|].
    apply sublist_map, removelast_sublist.
Qed.

(** The node of a kind on a path. *)
Lemma stage_node pp k :
  pp ∈ pps → k ∈ stages → ∃ pn, pn ∈ path pp ∧ pn_kind pn = k.
Proof.
  intros Hpp Hk. pose proof (proj1 (Forall_forall _ _) Hpps _ Hpp) as [Hks _].
  rewrite <- Hks in Hk. apply list_elem_of_fmap in Hk as (pn & -> & Hpn). eauto.
Qed.

Lemma stage_unique pp a b : pp ∈ pps → a ∈ path pp → b ∈ path pp → pn_kind a = pn_kind b → a = b.
Proof.
  intros Hpp Ha Hb Hk. pose proof (proj1 (Forall_forall _ _) Hpps _ Hpp) as [Hks _].
  apply list_elem_of_lookup in Ha as [i Hi], Hb as [j Hj].
  assert (i = j) as ->; [|congruence]. eapply (NoDup_lookup (pn_kind <$> path pp)).
  - by rewrite Hks.
  - by rewrite list_lookup_fmap, Hi.
  - by rewrite list_lookup_fmap, Hj, Hk.
Qed.

(** Every stage carries the whole flow. *)
Lemma stage_sum k :
  k ∈ stages →
  sumZ (λ n, if decide (n_kind n = k) then n_value n else 0) (nodes g) = sumZ (weight metric) pps.
Proof.
  intros Hk.
  trans (sumZ (λ n, sumZ (λ pp, if decide (n_kind n = k ∧ n_id n ∈ ids (path pp))
    then weight metric pp else 0) pps) (nodes g)).
  { apply sumZ_ext. intros n Hn. rewrite node_value by done. unfold through. rewrite sumZ_filter.
    case_decide as Hkn.
    - apply sumZ_ext. intros pp _. by repeat case_decide; try tauto.
    - rewrite (sumZ_ext _ (λ _, 0)); [by rewrite sumZ_zero|]. intros pp _.
      case_decide; [tauto|done]. }
  rewrite sumZ_swap. apply sumZ_ext. intros pp Hpp.
  destruct (stage_node pp k Hpp Hk) as (pn & Hpn & Hpk).
  trans (sumZ (λ n, if decide (n_id n = pn_id pn) then weight metric pp else 0) (nodes g)).
  { apply sumZ_ext. intros n Hn.
    assert ((n_kind n = k ∧ n_id n ∈ ids (path pp)) ↔ n_id n = pn_id pn) as Hiff.
    { split.
      - intros [Hnk (qn & Hq & Hqn)%list_elem_of_fmap]. rewrite Hq. f_equal.
        apply (stage_unique pp); [done..|]. rewrite Hpk, <- Hnk. by apply (id_kind pp).
      - intros Hid. split; [|rewrite Hid; by apply (list_elem_of_fmap_2 pn_id)].
        rewrite <- Hpk. symmetry. by apply (id_kind pp). }
    by repeat case_decide; try tauto. }
  rewrite sumZ_single by apply Hg. rewrite decide_True; [done|].
  apply (nodes_cover _ _ _ Hg). exists pp. split; [done|]. by apply (list_elem_of_fmap_2 pn_id).
Qed.

(** The links of the first step carry it too. *)
Lemma first_step_sum :
  (2 ≤ length stages)%nat →
  sumZ (λ l, if set_has (new_Set (omap first_id pps)) (l_source l) then l_value l else 0) (links g) =
  sumZ (weight metric) pps.
Proof.
  intros Hlen. rewrite (links_by_path (λ e, set_has (new_Set (omap first_id pps)) e.1)).
  apply sumZ_ext. intros pp Hpp. pose proof (proj1 (Forall_forall _ _) Hpps _ Hpp) as Hs.
  assert (∀ x, set_has (new_Set (omap first_id pps)) x = true ↔
               ∃ qq a p, qq ∈ pps ∧ path qq = a :: p ∧ pn_id a = x) as HF.
  { intros x. rewrite set_has_spec, new_Set_elem, list_elem_of_omap. split.
    - intros (qq & Hqq & Hq). unfold first_id in Hq. destruct (path qq) as [|a p] eqn:E; [done|].
      destruct (truthy (pn_id a)); simplify_eq. eauto 6.
    - intros (qq & a & p & Hqq & E & <-). exists qq. split; [done|]. unfold first_id. rewrite E.
      pose proof (proj1 (Forall_forall _ _) Hpps _ Hqq) as [_ Hgood]. rewrite E in Hgood.
      inversion Hgood as [|? ? [[t Ht] _] _]; subst. rewrite Ht. by destruct (pn_kind a). }
  destruct Hs as [Hks Hgood]. destruct (path pp) as [|a [|b p]] eqn:E;
    [by subst; simpl in *; lia|by subst; simpl in *; lia|].
  change (link_ids (a :: b :: p)) with ((pn_id a, pn_id b) :: link_ids (b :: p)).
  rewrite sumZ_cons. cbn [fst].
  rewrite (proj2 (HF (pn_id a))) by eauto 6.
  rewrite (sumZ_ext _ (λ _, 0)), sumZ_zero; [lia|]. intros e He.
  destruct (set_has _ e.1) eqn:Hh; [exfalso|done]. apply HF in Hh as (qq & c & q & Hqq & Eq & Hc).
  apply (list_elem_of_fmap_2 fst) in He. rewrite link_ids_fst in He.
  apply list_elem_of_fmap in He as (d & Hd & Hin).
  pose proof (elem_of_sublist _ _ _ Hin (removelast_sublist (b :: p))) as Hbp.
  pose proof (proj1 (Forall_forall _ _) Hpps _ Hqq) as [Hkq Hgq]. rewrite Eq in Hkq, Hgq.
  rewrite Forall_forall in Hgood, Hgq.
  assert (pn_kind c = pn_kind d) as Hcd.
  { apply good_id_kind; [apply Hgq; left|apply Hgood; by right|congruence]. }
  rewrite <- Hks in Hkq. simpl in Hkq. injection Hkq as Hca _.
  rewrite <- Hks in Hstages. cbn in Hstages. apply NoDup_cons in Hstages as [Hni _].
  apply Hni. rewrite <- Hca, Hcd. by apply (list_elem_of_fmap_2 pn_kind (b :: p)).
Qed.
End consequences.

(** ** The prepared paths of the rows *)

Section prepared.
Context `{P : Platform} (ctx : option (Z → jsstr)) (rows : list FlowQuotaDataItem).
Context (metric : FlowMetric) (stages : list FlowNodeKind) (options : FlowGraphOptions).

Abbreviation pps := (prepare_paths ctx rows metric stages options).

Lemma prepared_shaped : Forall clean_row rows → Forall (λ pp, shaped stages (path pp)) pps.
Proof.
  intros Hc. unfold prepare_paths. apply Forall_forall. intros pp Hpp.
  apply list_elem_of_omap in Hpp as (row & Hrow & (p & Hp & ->)%fmap_Some). simpl.
  eapply limit_shaped; [|exact Hp]. by apply path_shaped, (proj1 (Forall_forall _ _) Hc).
Qed.

(** Nothing is left out: no limit applies, or the overflow is aggregated. *)
Definition keeps_all : bool :=
  match normalizeTopNodeLimit (topNodeLimit options), overflowMode options with
  | Some _, Some Hide => false
  | _, _ => true
  end.

Lemma limit_keeps row sets :
  keeps_all = true → sets = buildTopNodeSets ctx rows metric stages
    (normalizeTopNodeLimit (topNodeLimit options)) →
  is_Some (applyTopNodeLimit (flowPathForStages ctx row stages) sets
    (default Aggregate (overflowMode options)) (otherNodeLabel options)).
Proof.
  unfold keeps_all, buildTopNodeSets, applyTopNodeLimit. intros Hk ->.
  destruct (normalizeTopNodeLimit _) as [[|k]|]; [by eexists| |by eexists].
  destruct (negb _); [by eexists|]. destruct (overflowMode options) as [[]|]; first [done|by eexists].
Qed.

Lemma prepared_weight :
  keeps_all = true →
  sumZ (weight metric) pps = sumZ (λ row, metricValue (rowMetrics row) metric) rows.
Proof.
  intros Hk. unfold prepare_paths.
  pose proof (λ row, limit_keeps row _ Hk eq_refl) as Hs. revert Hs.
  generalize (buildTopNodeSets ctx rows metric stages (normalizeTopNodeLimit (topNodeLimit options))).
  intros sets Hs. induction rows as [|row rows' IH]; [done|].
  cbn [omap list_omap]. destruct (Hs row) as [p ->]. cbn [fmap option_fmap option_map].
  rewrite !sumZ_cons. f_equal. apply IH.
Qed.
End prepared.

Lemma summary_metric rows metric :
  metricValue (buildSummary rows) metric = sumZ (λ row, metricValue (rowMetrics row) metric) rows.
Proof.
  unfold buildSummary.
  enough (∀ s, metricValue (foldl (λ s row, add_metrics s (rowMetrics row)) s rows) metric =
    metricValue s metric + sumZ (λ row, metricValue (rowMetrics row) metric) rows) as H
    by (rewrite H; by destruct metric).
  induction rows as [|row rows IH]; intros s; simpl; [lia|].
  rewrite IH. destruct metric; simpl; lia.
Qed.

Lemma resolve_length role vs : (2 ≤ length (resolveVisibleStages role vs))%nat.
Proof.
  assert (2 ≤ length (getFlowStages role))%nat as H by (destruct role; simpl; lia).
  unfold resolveVisibleStages, MIN_FLOW_STAGES. destruct vs; [|done].
  case_match eqn:E; [by apply Nat.leb_le in E|done].
Qed.

(** The share of a link. *)
Definition share_of (total value : Z) : Qc :=
  if 0 <? total then (Q2Qc (inject_Z value) / Q2Qc (inject_Z total))%Qc else 0%Qc.

Section shares.
Context `{P : Platform}.

Lemma display_share f ls l :
  l ∈ assignLinkDisplayColors (map (set_share f) ls) → l_share l = share_of f (l_value l).
Proof.
  unfold assignLinkDisplayColors. intros (i & l' & -> & Hl)%elem_of_lookup_imap.
  apply list_elem_of_lookup_2, list_elem_of_fmap in Hl as (l & -> & _).
  by case_match.
Qed.

Lemma graph_share pps metric palette stages options l :
  NoDup stages → (2 ≤ length stages)%nat → Forall (λ pp, shaped stages (path pp)) pps →
  l ∈ links (graph_of_paths pps metric palette stages options) →
  l_share l = share_of (sumZ (weight metric) pps) (l_value l).
Proof.
  intros Hnd Hlen Hpps Hl.
  pose proof (graph_sums_paths metric palette stages pps options Hnd Hpps) as Hg.
  rewrite <- (first_step_sum metric stages pps _ Hnd Hpps Hg Hlen).
  revert Hl. unfold graph_of_paths. cbn [links]. intros Hl%display_share. rewrite Hl. f_equal.
  unfold first_step_total. rewrite foldl_sumZ, filter_bool, sumZ_filter, Z.add_0_l.
  generalize (js_sort by_ends (jm_values (applyFlowHighlights
    (if maskSensitive options
     then maskFlowGraphLabels (graph_maps metric palette pps).1 (graph_maps metric palette pps).2
     else graph_maps metric palette pps).1
    (if maskSensitive options
     then maskFlowGraphLabels (graph_maps metric palette pps).1 (graph_maps metric palette pps).2
     else graph_maps metric palette pps).2
    (buildFlowHighlightSets pps (activeNode options) (activeLink options) stages)).2)).
  intros ls. set (F := set_has _).
  pose (h := λ c : jsstr * jsstr * (Z * Z * Z * Z), if F c.1.1 then c.2.1.1.1 else 0).
  trans (sumZ h (link_core <$> ls)).
  { rewrite sumZ_map. apply sumZ_ext. intros x _. simpl. unfold h. simpl. case_decide as E; destruct (F (l_source x)); done. }
  match goal with |- _ = sumZ _ (assignLinkDisplayColors (map (set_share ?t) _)) =>
    rewrite <- (share_cores t ls) end.
  by rewrite <- display_cores, sumZ_map.
Qed.
End shares.

(** ** Properties *)

(** A platform that compares strings by code units, for concrete evaluations. *)
Fixpoint unit_compare (a b : jsstr) : Z :=
  match a, b with
  | [], [] => 0
  | [], _ => -1
  | _, [] => 1
  | x :: a', y :: b' => if (x =? y)%N then unit_compare a' b' else if (x <? y)%N then -1 else 1
  end.

#[export] Instance unit_platform : Platform := {
  localeCompare := unit_compare;
  getDashboardChartColors n := [js "#112233"; js "#445566"];
  link_alpha i n := num_of_Z 1;
  toFixed2 x := js "1.00";
  formatNumber := show_Z
}.

Definition no_options : FlowGraphOptions := mkOptions None None None None None false.

Definition sample_row (user group model : string) (amount : Z) : FlowQuotaDataItem :=
  mkRow None (Some (js user)) None (Some (js group)) None (Some (js user)) None None
    (Some (js model)) (Some (2 * amount)) (Some 1) (Some amount).

Definition sample_rows : list FlowQuotaDataItem :=
  [sample_row "ann" "vip" "m1" 5; sample_row "bob" "vip" "m2" 7; sample_row "ann" "std" "m1" 3].

Lemma sample_clean : Forall clean_row sample_rows.
Proof.
  repeat (apply Forall_cons_2 || apply Forall_nil_2);
    (unfold clean_row, clean; split_and!; rewrite list_elem_of_In; vm_compute; intuition discriminate).
Qed.

(** [C31] The flow graph is the sum of its paths: for rows whose names hold no NUL, the nodes are
    the distinct identifiers on the prepared paths and the links their distinct steps, each
    once, and the value, requests, quota and tokens of each are the sums over the paths that go
    through it. *)
Theorem flow_graph_exact `{P : Platform} (ctx : option (Z → jsstr)) (rows : list FlowQuotaDataItem)
    (metric : FlowMetric) (role : FlowRole) (palette : option (list jsstr))
    (vs : option (list FlowNodeKind)) (options : FlowGraphOptions) :
  Forall clean_row rows →
  sums_paths metric (prepare_paths ctx rows metric (resolveVisibleStages role vs) options)
    (buildFlowGraph ctx rows metric role palette vs options).
Proof.
  intros Hc. unfold buildFlowGraph. apply graph_sums_paths; [apply resolve_NoDup|].
  by apply prepared_shaped.
Qed.

Lemma flow_graph_exact_witness :
  sums_paths MQuota (prepare_paths None sample_rows MQuota (resolveVisibleStages RUser None) no_options)
    (buildFlowGraph None sample_rows MQuota RUser None None no_options).
Proof. apply flow_graph_exact. apply sample_clean. Defined.

(** Flow is conserved: at every node the links that arrive add up to its value unless it is
    in the first stage, and the links that leave add up to it unless it is in the last,
    whatever is filtered, limited, masked or highlighted. *)
Theorem flow_conserved `{P : Platform} (ctx : option (Z → jsstr)) (rows : list FlowQuotaDataItem)
    (metric : FlowMetric) (role : FlowRole) (palette : option (list jsstr))
    (vs : option (list FlowNodeKind)) (options : FlowGraphOptions) (n : DashboardFlowNode) :
  Forall clean_row rows →
  n ∈ nodes (buildFlowGraph ctx rows metric role palette vs options) →
  (head (resolveVisibleStages role vs) ≠ Some (n_kind n) →
     inflow (buildFlowGraph ctx rows metric role palette vs options) (n_id n) = n_value n) ∧
  (last (resolveVisibleStages role vs) ≠ Some (n_kind n) →
     outflow (buildFlowGraph ctx rows metric role palette vs options) (n_id n) = n_value n).
Proof.
  intros Hc Hn. pose proof (resolve_NoDup role vs) as Hs.
  pose proof (prepared_shaped ctx rows metric (resolveVisibleStages role vs) options Hc) as Hp.
  pose proof (graph_sums_paths metric palette _ _ options Hs Hp) as Hg.
  split; intros Hk; [eapply conserved_in|eapply conserved_out]; done.
Qed.

Lemma flow_conserved_witness :
  ∃ n, n ∈ nodes (buildFlowGraph None sample_rows MQuota RUser None None no_options) ∧
    inflow (buildFlowGraph None sample_rows MQuota RUser None None no_options) (n_id n) = 12 ∧
    outflow (buildFlowGraph None sample_rows MQuota RUser None None no_options) (n_id n) = 12.
Proof.
  set (g := buildFlowGraph None sample_rows MQuota RUser None None no_options).
  destruct (nodes g !! 0%nat) as [n|] eqn:E; [|vm_compute in E; discriminate].
  exists n. assert (n ∈ nodes g) as Hn by (by eapply list_elem_of_lookup_2).
  assert (n_kind n = KGroup ∧ n_value n = 12) as [Hk Hv].
  { vm_compute in E. injection E as <-. split; reflexivity. }
  destruct (flow_conserved None sample_rows MQuota RUser None None no_options n sample_clean Hn)
    as [Hin Hout].
  split; [exact Hn|]. rewrite <- Hv. split; [apply Hin|apply Hout]; rewrite Hk; vm_compute; discriminate.
Defined.

(** The graph agrees with the summary: when no path is left out, the values of the nodes of
    each visible stage add up to the metric of the summary of the rows, and the share of every
    link is its value over that total (zero when the total is not positive). *)
Theorem flow_totals_agree `{P : Platform} (ctx : option (Z → jsstr)) (rows : list FlowQuotaDataItem)
    (metric : FlowMetric) (role : FlowRole) (palette : option (list jsstr))
    (vs : option (list FlowNodeKind)) (options : FlowGraphOptions) :
  Forall clean_row rows → keeps_all options = true →
  let g := buildFlowGraph ctx rows metric role palette vs options in
  let total := metricValue (buildSummary rows) metric in
  (∀ k, k ∈ resolveVisibleStages role vs →
     sumZ (λ n, if decide (n_kind n = k) then n_value n else 0) (nodes g) = total) ∧
  (∀ l, l ∈ links g → l_share l = share_of total (l_value l)).
Proof.
  intros Hc Hk g total. pose proof (resolve_NoDup role vs) as Hs.
  pose proof (prepared_shaped ctx rows metric (resolveVisibleStages role vs) options Hc) as Hp.
  pose proof (graph_sums_paths metric palette _ _ options Hs Hp) as Hg.
  assert (sumZ (weight metric) (prepare_paths ctx rows metric (resolveVisibleStages role vs) options) =
          total) as Ht by (unfold total; by rewrite prepared_weight, summary_metric).
  split.
  - intros k Hin. rewrite <- Ht. by eapply stage_sum.
  - intros l Hl. rewrite <- Ht. eapply graph_share; [done|apply resolve_length|done|exact Hl].
Qed.

Lemma flow_totals_agree_witness :
  sumZ (λ n, if decide (n_kind n = KModel) then n_value n else 0)
    (nodes (buildFlowGraph None sample_rows MQuota RUser None None no_options)) = 15.
Proof.
  apply (flow_totals_agree None sample_rows MQuota RUser None None no_options).
  - apply sample_clean.
  - reflexivity.
  - right. right. left.
Defined.

End FlowGraph.
