(* ===== verification/FlowView.v ===== *)
(** * What the dashboard's flow graph shows

    Masking hides the labels of sensitive kinds; highlights mark exactly the paths through
    the active element; the limit bounds the nodes of a stage and keeps the largest; the
    filters select the rows they describe. *)
From Stdlib Require Import QArith Qround Qcanon.
From S2P Require Import Prelude JsString JsMap JsValue Flow FlowGraph.
Local Open Scope Z_scope.

Module FlowView.
Import Flow FlowGraph.

(** ** Masking *)

Lemma masked_foldl_get ns m id :
  NoDup (n_id <$> ns) →
  jm_get id (foldl (λ m n, if is_masked n then jm_set (n_id n) (maskFlowLabel (n_label n)) m else m) m ns) =
    match list_find (λ n, n_id n = id ∧ is_masked n = true) ns with
    | Some (_, n) => Some (maskFlowLabel (n_label n))
    | None => jm_get id m
    end.
Proof.
  revert m. induction ns as [|n ns IH]; intros m Hnd; [done|].
  cbn in Hnd. apply NoDup_cons in Hnd as [Hni Hnd]. cbn [foldl list_find].
  rewrite IH by done. destruct (is_masked n) eqn:E.
  - case_decide as Hd.
    + destruct Hd as [<- _]. destruct (list_find _ ns) as [[i n']|] eqn:F; simpl.
      * exfalso. apply list_find_Some in F as (Hi & [Hid _] & _). apply Hni.
        rewrite <- Hid. apply list_elem_of_fmap_2. by eapply list_elem_of_lookup_2.
      * by rewrite jm_get_set_eq.
    + destruct (list_find _ ns) as [[i n']|]; [done|]. simpl. rewrite jm_get_set_ne; [done|].
      intros <-. by destruct Hd.
  - rewrite decide_False by (intros [_ ?]; congruence). by destruct (list_find _ ns) as [[i n']|].
Qed.

Lemma masked_get ns n :
  NoDup (n_id <$> jm_values ns) → n ∈ jm_values ns → is_masked n = true →
  jm_get (n_id n) (masked_by_id ns) = Some (maskFlowLabel (n_label n)).
Proof.
  intros Hnd Hn Hm. unfold masked_by_id. rewrite masked_foldl_get by done.
  destruct (list_find _ (jm_values ns)) as [[i n']|] eqn:F.
  - apply list_find_Some in F as (Hi & [Hid _] & _). do 2 f_equal.
    apply list_elem_of_lookup in Hn as [j Hj].
    assert (i = j) as ->; [|congruence]. eapply (NoDup_lookup _ i j (n_id n)); [exact Hnd|..].
    + by rewrite list_lookup_fmap, Hi, <- Hid.
    + by rewrite list_lookup_fmap, Hj.
  - apply list_find_None in F. rewrite Forall_forall in F. by destruct (F n Hn).
Qed.

(** A label that shows nothing. *)
Definition hidden (label : jsstr) : Prop := label = FLOW_MASK_TEXT ∨ label = [].

Lemma mask_hidden label : hidden (maskFlowLabel label).
Proof. unfold maskFlowLabel, hidden. destruct label; auto. Qed.

Definition sensitive (n : DashboardFlowNode) : Prop :=
  n_kind n ∈ SENSITIVE_FLOW_KINDS ∧ n_id n ∉ OTHER_FLOW_NODE_ID_SET.

Lemma is_masked_spec n : is_masked n = true ↔ sensitive n.
Proof.
  unfold is_masked, sensitive. rewrite andb_true_iff, negb_true_iff, set_has_spec.
  unfold set_has. by rewrite bool_decide_eq_false.
Qed.

Section masking.
Context `{P : Platform} (metric : FlowMetric) (palette : option (list jsstr)).
Context (stages : list FlowNodeKind) (pps : list PreparedFlowPath) (options : FlowGraphOptions).
Hypothesis (Hstages : NoDup stages) (Hpps : Forall (λ pp, shaped stages (path pp)) pps).
Hypothesis Hmask : maskSensitive options = true.

Abbreviation maps := (graph_maps metric palette pps).
Abbreviation graph := (graph_of_paths pps metric palette stages options).

Lemma masked_node n :
  n ∈ nodes graph → ∃ n0, n0 ∈ jm_values maps.1 ∧ n_id n0 = n_id n ∧ n_kind n0 = n_kind n ∧
    n_label n = n_label (mask_node n0).
Proof.
  unfold graph_of_paths. cbn [nodes]. rewrite Hmask, js_sort_elem_of.
  generalize (buildFlowHighlightSets pps (activeNode options) (activeLink options) stages).
  intros [[hn hl]|]; unfold maskFlowGraphLabels; cbn [applyFlowHighlights fst snd].
  - rewrite !values_map. intros (n1 & -> & (n0 & -> & Hn0)%list_elem_of_fmap)%list_elem_of_fmap.
    exists n0. unfold mask_node. split_and!; [done|by case_match..|done].
  - rewrite values_map. intros (n0 & -> & Hn0)%list_elem_of_fmap.
    exists n0. unfold mask_node. split_and!; [done|by case_match..|done].
Qed.

Lemma masked_link l :
  l ∈ links graph → ∃ l0, l0 ∈ jm_values maps.2 ∧ l_source l0 = l_source l ∧ l_target l0 = l_target l ∧
    l_sourceLabel l = default (l_sourceLabel l0) (jm_get (l_source l) (masked_by_id maps.1)) ∧
    l_targetLabel l = default (l_targetLabel l0) (jm_get (l_target l) (masked_by_id maps.1)).
Proof.
  unfold graph_of_paths. cbn [links]. rewrite Hmask. unfold assignLinkDisplayColors.
  intros (i & l1 & -> & Hl)%elem_of_lookup_imap.
  apply list_elem_of_lookup_2, list_elem_of_fmap in Hl as (l2 & -> & Hl). rewrite js_sort_elem_of in Hl.
  assert (∃ l3, l3 ∈ jm_values (maskFlowGraphLabels maps.1 maps.2).2 ∧
    (l_source l3, l_target l3, l_sourceLabel l3, l_targetLabel l3) =
    (l_source l2, l_target l2, l_sourceLabel l2, l_targetLabel l2)) as (l3 & Hl3 & Heq).
  { revert Hl. generalize (buildFlowHighlightSets pps (activeNode options) (activeLink options) stages).
    intros [[hn hl]|]; cbn [applyFlowHighlights fst snd]; [|eauto].
    rewrite values_map. intros (l3 & -> & Hl3)%list_elem_of_fmap. by exists l3. }
  clear Hl. unfold maskFlowGraphLabels in Hl3. cbn [snd] in Hl3.
  destruct (alphaColor _ _) as [c a]. simpl. injection Heq as <- <- <- <-.
  destruct (masked_by_id maps.1) as [|e es] eqn:E.
  - by exists l3.
  - rewrite values_map in Hl3. apply list_elem_of_fmap in Hl3 as (l0 & -> & Hl0).
    exists l0. done.
Qed.

Lemma masking_hides :
  (∀ n, n ∈ nodes graph → sensitive n → hidden (n_label n)) ∧
  (∀ n l, n ∈ nodes graph → l ∈ links graph → sensitive n →
     (l_source l = n_id n → hidden (l_sourceLabel l)) ∧
     (l_target l = n_id n → hidden (l_targetLabel l))).
Proof.
  assert (∀ n, n ∈ nodes graph → sensitive n →
    ∃ n0, n0 ∈ jm_values maps.1 ∧ n_id n0 = n_id n ∧ is_masked n0 = true ∧
      n_label n = n_label (mask_node n0)) as Hsrc.
  { intros n (n0 & Hn0 & Hid & Hk & Hl)%masked_node Hs. exists n0. split_and!; try done.
    apply is_masked_spec. unfold sensitive. by rewrite Hid, Hk. }
  split.
  - intros n Hn Hs. destruct (Hsrc n Hn Hs) as (n0 & _ & _ & Hm & ->).
    unfold mask_node. rewrite Hm. apply mask_hidden.
  - intros n l Hn (l0 & _ & _ & _ & Hsl & Htl)%masked_link Hs.
    destruct (Hsrc n Hn Hs) as (n0 & Hn0 & Hid & Hm & _).
    assert (jm_get (n_id n) (masked_by_id maps.1) = Some (maskFlowLabel (n_label n0))) as Hget.
    { rewrite <- Hid. apply masked_get; [|done..].
      rewrite <- (node_keys_ids metric palette stages pps Hstages Hpps). apply maps_wf. }
    split; intros Heq; [rewrite Hsl, Heq, Hget|rewrite Htl, Heq, Hget]; apply mask_hidden.
Qed.
End masking.

(** ** Highlighting *)

(** The paths that the active link, or else the active node, selects. *)
Definition selected (options : FlowGraphOptions) (pps : list PreparedFlowPath) : list PreparedFlowPath :=
  List.filter (λ pp, matchesPath (activeNode options) (activeLink options) (path pp)) pps.

Definition something_active (options : FlowGraphOptions) (stages : list FlowNodeKind) : Prop :=
  is_Some (activeLink options) ∨ ∃ f, activeNode options = Some f ∧ fl_kind f ∈ stages.

Lemma foldl_add_keys {A} (key : A → jsstr) l s x :
  x ∈ foldl (λ s y, js_add (key y) s) s l ↔ x ∈ s ∨ x ∈ key <$> l.
Proof.
  revert s. induction l as [|y l IH]; intros s; simpl; [set_solver|].
  rewrite IH, js_add_elem. set_solver.
Qed.

Section highlighting.
Context (an : option FlowNodeFilter) (al : option FlowLinkSelection).

Definition highlight_step (sets : list jsstr * list jsstr) (prepared : PreparedFlowPath) :
    list jsstr * list jsstr :=
  let p := path prepared in
  if negb (matchesPath an al p) then sets
  else (foldl (λ s n, js_add (pn_id n) s) sets.1 p,
        foldl (λ s l, js_add (pathLinkKey l.1 l.2) s) sets.2 (path_links p)).

Lemma highlight_elems pps sets :
  let M := List.filter (λ pp, matchesPath an al (path pp)) pps in
  (∀ x, x ∈ (foldl highlight_step sets pps).1 ↔ x ∈ sets.1 ∨ ∃ pp, pp ∈ M ∧ x ∈ ids (path pp)) ∧
  (∀ x, x ∈ (foldl highlight_step sets pps).2 ↔ x ∈ sets.2 ∨
     ∃ pp l, pp ∈ M ∧ l ∈ path_links (path pp) ∧ x = pathLinkKey l.1 l.2).
Proof.
  revert sets. induction pps as [|pp pps IH]; intros sets; simpl.
  - split; intros x; set_solver.
  - destruct (IH (highlight_step sets pp)) as [H1 H2].
    destruct (matchesPath an al (path pp)) eqn:E.
    + split; intros x; [rewrite H1|rewrite H2]; unfold highlight_step; rewrite E; cbn [negb fst snd];
        rewrite foldl_add_keys; setoid_rewrite elem_of_cons.
      * unfold ids. naive_solver.
      * rewrite list_elem_of_fmap. naive_solver.
    + unfold highlight_step in H1, H2. rewrite E in H1, H2. cbn [negb] in H1, H2.
      split; intros x; [rewrite <- H1|rewrite <- H2]; unfold highlight_step; by rewrite E.
Qed.
End highlighting.

Lemma highlight_sets_spec options pps stages :
  (something_active options stages ∧ (∃ pp, pp ∈ selected options pps ∧ path pp ≠ []) ∧
   ∃ hn hl,
     buildFlowHighlightSets pps (activeNode options) (activeLink options) stages = Some (hn, hl) ∧
     (∀ x, x ∈ hn ↔ ∃ pp, pp ∈ selected options pps ∧ x ∈ ids (path pp)) ∧
     (∀ x, x ∈ hl ↔ ∃ pp l, pp ∈ selected options pps ∧ l ∈ path_links (path pp) ∧
        x = pathLinkKey l.1 l.2)) ∨
  (¬ (something_active options stages ∧ ∃ pp, pp ∈ selected options pps ∧ path pp ≠ []) ∧
   buildFlowHighlightSets pps (activeNode options) (activeLink options) stages = None).
Proof.
  unfold buildFlowHighlightSets.
  set (na := match activeNode options with Some f => _ | None => false end).
  set (la := match activeLink options with Some _ => true | None => false end).
  assert (negb na && negb la = false ↔ something_active options stages) as Hact.
  { unfold something_active, na, la. destruct (activeLink options) as [sl|], (activeNode options) as [f|]; simpl;
      rewrite ?andb_true_r, ?andb_false_r, ?negb_false_iff, ?bool_decide_eq_true.
    - split; [intros _; left; by eexists|done].
    - split; [intros _; left; by eexists|done].
    - split; [eauto|]. intros [[? [=]]|(f' & [= ->] & ?)]. done.
    - split; [done|]. by intros [[? [=]]|(f' & [=] & ?)]. }
  destruct (negb na && negb la) eqn:E.
  { right. split; [|done]. intros [Ha _]. apply Hact in Ha. congruence. }
  specialize (proj1 Hact eq_refl) as Ha.
  destruct (highlight_elems (activeNode options) (activeLink options) pps ([], [])) as [H1 H2].
  unfold highlight_step in H1, H2.
  set (h := foldl _ ([], []) pps) in *. clearbody h. destruct h as [hn hl]. cbn [fst snd] in *.
  destruct hn as [|x hn].
  - right. split; [|done]. intros (_ & pp & Hpp & Hne). destruct (path pp) as [|n p] eqn:Ep; [done|].
    apply (not_elem_of_nil (pn_id n)), H1. right. exists pp. rewrite Ep. split; [done|left].
  - left. split; [done|]. split.
    + destruct (proj1 (H1 x) ltac:(left)) as [[]%elem_of_nil|(pp & Hpp & Hx)].
      exists pp. split; [done|]. intros Ep. rewrite Ep in Hx. by apply not_elem_of_nil in Hx.
    + exists (x :: hn), hl. split_and!; [done|..].
      * intros y. rewrite H1. unfold selected. set_solver.
      * intros y. rewrite H2. unfold selected. set_solver.
Qed.

Section flags.
Context `{P : Platform} (metric : FlowMetric) (palette : option (list jsstr)).
Context (stages : list FlowNodeKind) (pps : list PreparedFlowPath) (options : FlowGraphOptions).
Hypothesis (Hstages : NoDup stages) (Hpps : Forall (λ pp, shaped stages (path pp)) pps).

Abbreviation maps := (graph_maps metric palette pps).
Abbreviation graph := (graph_of_paths pps metric palette stages options).
Abbreviation sets := (buildFlowHighlightSets pps (activeNode options) (activeLink options) stages).

Lemma node_fold_flags n xs :
  n_highlighted (foldl (node_upd metric) n xs) = n_highlighted n ∧
  n_dimmed (foldl (node_upd metric) n xs) = n_dimmed n.
Proof. revert n. induction xs as [|x xs IH]; intros n; [done|]. apply (IH (node_upd metric n x)). Qed.

Lemma link_fold_flags l xs :
  l_highlighted (foldl (link_upd metric) l xs) = l_highlighted l ∧
  l_dimmed (foldl (link_upd metric) l xs) = l_dimmed l.
Proof. revert l. induction xs as [|x xs IH]; intros l; [done|]. apply (IH (link_upd metric l x)). Qed.

Lemma map_flags :
  (∀ n, n ∈ jm_values maps.1 → n_highlighted n = None ∧ n_dimmed n = None) ∧
  (∀ l, l ∈ jm_values maps.2 → l_highlighted l = None ∧ l_dimmed l = None).
Proof.
  unfold graph_maps. rewrite maps_accumulate. cbn [fst snd]. split.
  - intros n ([k n'] & -> & (x & xs & _ & _ & ->)%accumulate_elem)%list_elem_of_fmap.
    apply node_fold_flags.
  - intros l ([k l'] & -> & (x & xs & _ & _ & ->)%accumulate_elem)%list_elem_of_fmap.
    apply link_fold_flags.
Qed.

(** The values before the highlights, masked or not. *)
Definition masked_maps : list (jsstr * DashboardFlowNode) * list (jsstr * DashboardFlowLink) :=
  if maskSensitive options then maskFlowGraphLabels maps.1 maps.2 else maps.

Lemma masked_flags :
  (∀ n, n ∈ jm_values masked_maps.1 → n_highlighted n = None ∧ n_dimmed n = None) ∧
  (∀ l, l ∈ jm_values masked_maps.2 → l_highlighted l = None ∧ l_dimmed l = None).
Proof.
  unfold masked_maps. destruct (maskSensitive options); [|apply map_flags].
  destruct map_flags as [Hn Hl]. unfold maskFlowGraphLabels. cbn [fst snd]. split.
  - intros n. rewrite values_map. intros (n0 & -> & H)%list_elem_of_fmap.
    unfold mask_node. case_match; by apply Hn in H.
  - intros l. destruct (masked_by_id maps.1) as [|e es]; [apply Hl|]. rewrite values_map.
    intros (l0 & -> & H)%list_elem_of_fmap. by apply Hl in H.
Qed.

Definition node_flags (hs : option (list jsstr * list jsstr)) (id : jsstr) : option bool * option bool :=
  match hs with
  | None => (None, None)
  | Some (hn, _) => (Some (set_has hn id), Some (negb (set_has hn id)))
  end.

Definition link_flags (hs : option (list jsstr * list jsstr)) (key : jsstr) : option bool * option bool :=
  match hs with
  | None => (None, None)
  | Some (_, hl) => (Some (set_has hl key), Some (negb (set_has hl key)))
  end.

Lemma graph_node_flags n :
  n ∈ nodes graph → (n_highlighted n, n_dimmed n) = node_flags sets (n_id n).
Proof.
  unfold graph_of_paths. cbn [nodes]. rewrite js_sort_elem_of. fold masked_maps.
  destruct masked_flags as [Hn _]. destruct sets as [[hn hl]|]; cbn [applyFlowHighlights fst].
  - rewrite values_map. intros (n0 & -> & H)%list_elem_of_fmap. done.
  - intros H. by destruct (Hn n H) as [-> ->].
Qed.

Lemma graph_link_flags l :
  l ∈ links graph → (l_highlighted l, l_dimmed l) = link_flags sets (linkStableKey l).
Proof.
  unfold graph_of_paths. cbn [links]. fold masked_maps. unfold assignLinkDisplayColors.
  intros (i & l1 & -> & Hl)%elem_of_lookup_imap.
  apply list_elem_of_lookup_2, list_elem_of_fmap in Hl as (l2 & -> & Hl).
  rewrite js_sort_elem_of in Hl. destruct (alphaColor _ _) as [c a].
  change (linkStableKey (set_display c a _ _)) with (linkStableKey l2).
  destruct masked_flags as [_ Hm]. revert Hl. destruct sets as [[hn hl]|]; cbn [applyFlowHighlights snd].
  - rewrite values_map. intros (l0 & -> & H)%list_elem_of_fmap. done.
  - intros H. destruct (Hm l2 H) as [E1 E2]. simpl. by rewrite E1, E2.
Qed.

Definition mark (b : Prop) (flags : option bool * option bool) : Prop :=
  (b ∧ flags = (Some true, Some false)) ∨ (¬ b ∧ flags = (Some false, Some true)).

Lemma mark_set (s : list jsstr) x (b : Prop) :
  (x ∈ s ↔ b) → mark b (Some (set_has s x), Some (negb (set_has s x))).
Proof.
  intros H. unfold mark, set_has. case_bool_decide; [left|right]; (split; [tauto|done]).
Qed.

Lemma graph_highlights :
  (something_active options stages ∧ (∃ pp, pp ∈ selected options pps ∧ path pp ≠ []) →
     (∀ n, n ∈ nodes graph →
        mark (∃ pp, pp ∈ selected options pps ∧ n_id n ∈ ids (path pp)) (n_highlighted n, n_dimmed n)) ∧
     (∀ l, l ∈ links graph →
        mark (∃ pp, pp ∈ selected options pps ∧ l_ends l ∈ link_ids (path pp))
          (l_highlighted l, l_dimmed l))) ∧
  (¬ (something_active options stages ∧ ∃ pp, pp ∈ selected options pps ∧ path pp ≠ []) →
     (∀ n, n ∈ nodes graph → (n_highlighted n, n_dimmed n) = (None, None)) ∧
     (∀ l, l ∈ links graph → (l_highlighted l, l_dimmed l) = (None, None))).
Proof.
  destruct (highlight_sets_spec options pps stages)
    as [(Ha & Hp & hn & hl & Hs & Hhn & Hhl)|[Hno Hs]].
  - split; [intros _|tauto]. split.
    + intros n Hn. rewrite (graph_node_flags n Hn), Hs. by apply mark_set.
    + intros l Hl. rewrite (graph_link_flags l Hl), Hs. apply mark_set. rewrite Hhl.
      pose proof (graph_sums_paths metric palette stages pps options Hstages Hpps) as Hg.
      assert (∃ qq, qq ∈ pps ∧ l_ends l ∈ link_ids (path qq)) as (qq & Hqq & Hql).
      { apply (links_cover _ _ _ Hg). by apply (list_elem_of_fmap_2 l_ends). }
      apply list_elem_of_fmap in Hql as ([c d] & Hcd & Hin). injection Hcd as Hc Hd.
      rewrite Forall_forall in Hpps. split.
      * intros (pp & [a b] & Hpp & Hab & Hk). exists pp. split; [done|].
        assert (pp ∈ pps) as Hin' by (by apply elem_of_filter_bool in Hpp as [_ ?]).
        unfold linkStableKey in Hk. rewrite Hc, Hd in Hk.
        apply (link_key_inj stages (path qq) (path pp)) in Hk as [= Hca Hdb]; [|by auto..].
        apply list_elem_of_fmap. exists (a, b). split; [|done]. unfold l_ends. simpl. congruence.
      * intros (pp & Hpp & ([a b] & [= Ha' Hb'] & Hab)%list_elem_of_fmap).
        exists pp, (a, b). split_and!; [done..|]. unfold linkStableKey, pathLinkKey. simpl. congruence.
  - split; [tauto|intros _]. split.
    + intros n Hn. by rewrite (graph_node_flags n Hn), Hs.
    + intros l Hl. by rewrite (graph_link_flags l Hl), Hs.
Qed.
End flags.

(** ** The limit on the nodes of a stage *)

Section limit.
Context `{P : Platform} (ctx : option (Z → jsstr)) (metric : FlowMetric).

Definition row_value (row : FlowQuotaDataItem) : Z := metricValue (rowMetrics row) metric.
Definition row_id (k : FlowNodeKind) (row : FlowQuotaDataItem) : jsstr := pn_id (NODE_BUILDERS ctx k row).

(** The totals of a stage as one accumulation over the rows. *)
Definition rank_init (k : FlowNodeKind) (row : FlowQuotaDataItem) : FlowNodeRank :=
  mkRank (NODE_BUILDERS ctx k row) 0.
Definition rank_upd (r : FlowNodeRank) (row : FlowQuotaDataItem) : FlowNodeRank :=
  mkRank (r_node r) (r_value r + row_value row).
Abbreviation ranks k := (accumulate (row_id k) (rank_init k) rank_upd).
Abbreviation rank_step k := (acc_step (row_id k) (rank_init k) rank_upd).

Lemma builder_kind k row : pn_kind (NODE_BUILDERS ctx k row) = k.
Proof. by destruct k. Qed.

Lemma add_rank_get row k s totals :
  jm_get k (add_rank (row_value row) totals (NODE_BUILDERS ctx s row)) =
    if decide (s = k) then (λ m, rank_step k m row) <$> jm_get k totals else jm_get k totals.
Proof.
  unfold add_rank. rewrite builder_kind. destruct (decide (s = k)) as [->|Hn].
  - destruct (jm_get k totals) as [m|] eqn:E; simpl; [|done]. by rewrite jm_get_set_eq.
  - destruct (jm_get s totals); [|done]. by rewrite jm_get_set_ne.
Qed.

Lemma add_rank_keys v totals n : jm_keys (add_rank v totals n) = jm_keys totals.
Proof.
  unfold add_rank. destruct (jm_get (pn_kind n) totals) as [m|] eqn:E; [|done].
  rewrite jm_keys_set, decide_True; [done|].
  destruct (decide (pn_kind n ∈ jm_keys totals)) as [|Hni]; [done|].
  apply jm_get_None in Hni. congruence.
Qed.

Lemma path_ranks row ss totals k :
  NoDup ss →
  jm_get k (foldl (add_rank (row_value row)) totals (flowPathForStages ctx row ss)) =
    if decide (k ∈ ss) then (λ m, rank_step k m row) <$> jm_get k totals else jm_get k totals.
Proof.
  intros Hnd. revert totals. induction Hnd as [|s ss Hs Hnd IH]; intros totals; [done|].
  cbn [flowPathForStages map foldl]. rewrite IH, add_rank_get. clear IH.
  destruct (decide (s = k)) as [->|Hn].
  - rewrite decide_False by done. rewrite decide_True by left. done.
  - destruct (decide (k ∈ ss)).
    + rewrite decide_True by (by right). done.
    + rewrite decide_False; [done|]. rewrite not_elem_of_cons. auto.
Qed.

Lemma path_ranks_keys row ss totals :
  jm_keys (foldl (add_rank (row_value row)) totals (flowPathForStages ctx row ss)) = jm_keys totals.
Proof.
  revert totals. induction ss as [|s ss IH]; intros totals; [done|]. cbn [flowPathForStages map foldl].
  rewrite IH. apply add_rank_keys.
Qed.

Lemma initial_totals ss (m : list (FlowNodeKind * list (jsstr * FlowNodeRank))) k :
  jm_get k (foldl (λ m s, jm_set s [] m) m ss) = if decide (k ∈ ss) then Some [] else jm_get k m.
Proof.
  revert m. induction ss as [|s ss IH]; intros m; [done|]. cbn [foldl]. rewrite IH, jm_get_set.
  destruct (decide (k ∈ ss)); [by rewrite decide_True by (by right)|].
  destruct (decide (s = k)) as [->|]; [by rewrite decide_True by left|].
  rewrite decide_False; [done|]. rewrite not_elem_of_cons. auto.
Qed.

Lemma initial_wf ss (m : list (FlowNodeKind * list (jsstr * FlowNodeRank))) :
  jm_wf m → jm_wf (foldl (λ m s, jm_set s [] m) m ss).
Proof. revert m. induction ss; intros m Hm; simpl; auto using jm_wf_set. Qed.

Lemma stage_totals_ranks rows stages k :
  NoDup stages → k ∈ stages →
  jm_get k (stage_totals ctx rows metric stages) = Some (ranks k rows).
Proof.
  intros Hnd Hk. unfold stage_totals, accumulate.
  assert (jm_get k (foldl (λ m s, jm_set s [] m) [] stages) = Some ([] : list (jsstr * FlowNodeRank)))
    as H0 by (rewrite initial_totals; by rewrite decide_True).
  revert H0. generalize (foldl (λ m s, jm_set s [] m) ([] : list (FlowNodeKind * list (jsstr * FlowNodeRank))) stages).
  generalize ([] : list (jsstr * FlowNodeRank)).
  induction rows as [|row rows IH]; intros t totals Ht; [done|]. cbn [foldl]. apply IH.
  change (metricValue (rowMetrics row) metric) with (row_value row).
  rewrite path_ranks by done. by rewrite decide_True, Ht.
Qed.

Lemma stage_totals_wf rows stages : jm_wf (stage_totals ctx rows metric stages).
Proof.
  unfold stage_totals.
  assert (jm_wf (foldl (λ m s, jm_set s [] m) ([] : list (FlowNodeKind * list (jsstr * FlowNodeRank))) stages))
    as H0 by (apply initial_wf, jm_wf_nil).
  revert H0. generalize (foldl (λ m s, jm_set s [] m) ([] : list (FlowNodeKind * list (jsstr * FlowNodeRank))) stages).
  induction rows as [|row rows IH]; intros totals Ht; [done|]. cbn [foldl]. apply IH.
  unfold jm_wf. change (metricValue (rowMetrics row) metric) with (row_value row).
  by rewrite path_ranks_keys.
Qed.

Lemma map_values_get {K V W} `{EqDecision K} (f : V → W) (l : list (K * V)) m k :
  jm_wf l →
  jm_get k (foldl (λ m '(k, v), jm_set k (f v) m) m l) =
    match jm_get k l with Some v => Some (f v) | None => jm_get k m end.
Proof.
  revert m. induction l as [|[k' v] l IH]; intros m Hwf; [done|].
  unfold jm_wf in Hwf. cbn in Hwf. apply NoDup_cons in Hwf as [Hni Hwf].
  cbn [foldl jm_get]. rewrite IH by done. case_decide as Hk.
  - subst. apply jm_get_None in Hni. by rewrite Hni, jm_get_set_eq.
  - destruct (jm_get k l); [done|]. by rewrite jm_get_set_ne.
Qed.

Lemma top_sets_get rows stages L k :
  NoDup stages → k ∈ stages →
  ∃ sets, buildTopNodeSets ctx rows metric stages (Some (S L)) = Some sets ∧
    jm_get k sets = Some (top_ids (S L) (ranks k rows)).
Proof.
  intros Hnd Hk. eexists. split; [reflexivity|].
  rewrite map_values_get by apply stage_totals_wf. by rewrite stage_totals_ranks.
Qed.

Lemma js_add_length {A} `{EqDecision A} (x : A) s : (length (js_add x s) ≤ S (length s))%nat.
Proof. unfold js_add. case_decide; [lia|]. rewrite length_app. simpl. lia. Qed.

Lemma new_Set_length {A} `{EqDecision A} (l : list A) : (length (new_Set l) ≤ length l)%nat.
Proof.
  unfold new_Set. enough (∀ s, length (foldl (λ s x, js_add x s) s l) ≤ length s + length l)%nat as H
    by apply (H []).
  induction l as [|x l IH]; intros s; simpl; [lia|]. specialize (IH (js_add x s)).
  pose proof (js_add_length x s). lia.
Qed.

Lemma top_ids_length L m : (length (top_ids L m) ≤ L)%nat.
Proof.
  unfold top_ids. etrans; [apply new_Set_length|]. rewrite length_map, length_take. lia.
Qed.

(** The rank of an identifier holds the sum of its rows. *)
Lemma rank_fold r rows :
  foldl rank_upd r rows = mkRank (r_node r) (r_value r + sumZ row_value rows).
Proof.
  revert r. induction rows as [|row rows IH]; intros r; simpl; [destruct r; simpl; f_equal; lia|].
  rewrite IH. unfold rank_upd. simpl. f_equal. lia.
Qed.

Definition id_total (k : FlowNodeKind) (id : jsstr) (rows : list FlowQuotaDataItem) : Z :=
  sumZ row_value (filter (λ row, row_id k row = id) rows).

Lemma ranks_elem k rows r :
  r ∈ jm_values (ranks k rows) →
  r_value r = id_total k (pn_id (r_node r)) rows ∧ pn_kind (r_node r) = k.
Proof.
  intros ([id r'] & -> & (row & xs & Hf & Hid & ->)%accumulate_elem)%list_elem_of_fmap.
  rewrite rank_fold. unfold rank_init, id_total. cbn [r_node r_value snd].
  change (pn_id (NODE_BUILDERS ctx k row)) with (row_id k row). rewrite Hid, Hf.
  split; [lia|apply builder_kind].
Qed.

Lemma ranks_row k rows row :
  row ∈ rows → ∃ r, r ∈ jm_values (ranks k rows) ∧ pn_id (r_node r) = row_id k row.
Proof.
  intros Hrow.
  assert (row_id k row ∈ jm_keys (ranks k rows)) as Hk by (apply accumulate_keys; eauto).
  apply list_elem_of_fmap in Hk as ([id r] & Hid & Hin). simpl in Hid. exists r.
  split; [apply list_elem_of_fmap; by exists (id, r)|].
  apply accumulate_elem in Hin as (row' & xs & _ & Hid' & ->).
  rewrite rank_fold. unfold rank_init. cbn [r_node]. unfold row_id in *. congruence.
Qed.

Context `{C : !Collation P}.

Lemma locale_lt_trans a b c :
  localeCompare a b < 0 → localeCompare b c ≤ 0 → localeCompare a c < 0.
Proof.
  intros H1 H2. destruct (Z.lt_ge_cases (localeCompare a c) 0) as [|H3]; [done|exfalso].
  apply locale_anti in H3. pose proof (locale_trans _ _ _ H2 H3) as H4.
  apply locale_anti in H4. lia.
Qed.

Lemma locale_lt_trans_r a b c :
  localeCompare a b ≤ 0 → localeCompare b c < 0 → localeCompare a c < 0.
Proof.
  intros H1 H2. destruct (Z.lt_ge_cases (localeCompare a c) 0) as [|H3]; [done|exfalso].
  apply locale_anti in H3. pose proof (locale_trans _ _ _ H3 H1) as H4.
  apply locale_anti in H4. lia.
Qed.

Lemma by_rank_spec a b :
  by_rank a b = true ↔
  r_value b < r_value a ∨ r_value b = r_value a ∧
    (localeCompare (pn_label (r_node a)) (pn_label (r_node b)) < 0 ∨
     localeCompare (pn_label (r_node a)) (pn_label (r_node b)) = 0 ∧
     localeCompare (pn_id (r_node a)) (pn_id (r_node b)) ≤ 0).
Proof.
  unfold by_rank, cmp_or. rewrite Z.leb_le. case_match eqn:E1; [case_match eqn:E2|]; lia.
Qed.

Lemma by_rank_total a b : by_rank a b = false → by_rank b a = true.
Proof.
  intros H. apply not_true_iff_false in H. rewrite by_rank_spec in H. apply by_rank_spec.
  pose proof (locale_anti (pn_label (r_node a)) (pn_label (r_node b))).
  pose proof (locale_anti (pn_label (r_node b)) (pn_label (r_node a))).
  pose proof (locale_anti (pn_id (r_node b)) (pn_id (r_node a))). lia.
Qed.

#[local] Instance by_rank_trans : Transitive (λ a b, by_rank a b = true).
Proof.
  intros a b c. rewrite !by_rank_spec.
  pose proof (locale_lt_trans (pn_label (r_node a)) (pn_label (r_node b)) (pn_label (r_node c))).
  pose proof (locale_lt_trans_r (pn_label (r_node a)) (pn_label (r_node b)) (pn_label (r_node c))).
  pose proof (locale_trans (pn_label (r_node a)) (pn_label (r_node b)) (pn_label (r_node c))).
  pose proof (locale_trans (pn_id (r_node a)) (pn_id (r_node b)) (pn_id (r_node c))).
  lia.
Qed.

(** The identifiers kept have the largest totals. *)
Lemma top_ids_largest L k rows id row :
  id ∈ top_ids L (ranks k rows) → row ∈ rows → row_id k row ∉ top_ids L (ranks k rows) →
  id_total k (row_id k row) rows ≤ id_total k id rows.
Proof.
  unfold top_ids. rewrite !new_Set_elem. intros (r & -> & Hr)%list_elem_of_fmap Hrow Hni.
  destruct (ranks_row k rows row Hrow) as (r' & Hr' & Hid'). rewrite <- Hid' in Hni |- *.
  pose proof (js_sort_Sorted by_rank by_rank_total (jm_values (ranks k rows))) as Hs.
  apply Sorted_StronglySorted in Hs; [|apply _].
  rewrite <- (js_sort_elem_of by_rank) in Hr'.
  pose proof (elem_of_sublist _ _ _ Hr (sublist_take _ _)) as Hrin. rewrite js_sort_elem_of in Hrin.
  rewrite <- (take_drop L (js_sort by_rank (jm_values (ranks k rows)))) in Hr', Hs.
  apply elem_of_app in Hr' as [Hr'|Hr'].
  { destruct Hni. by apply (list_elem_of_fmap_2 (λ r, pn_id (r_node r))). }
  pose proof (StronglySorted_app_1_elem_of _ _ _ r r' Hs Hr Hr') as Hle%by_rank_spec.
  assert (r' ∈ jm_values (ranks k rows)) as Hr'in.
  { rewrite <- (js_sort_elem_of by_rank). rewrite <- (take_drop L). apply elem_of_app. by right. }
  destruct (ranks_elem k rows r Hrin) as [<- _]. destruct (ranks_elem k rows r' Hr'in) as [<- _]. lia.
Qed.
End limit.

Section limited.
Context `{P : Platform} (ctx : option (Z → jsstr)) (rows : list FlowQuotaDataItem).
Context (metric : FlowMetric) (stages : list FlowNodeKind) (options : FlowGraphOptions) (L : nat).
Hypothesis (Hstages : NoDup stages).
Hypothesis (Hlimit : normalizeTopNodeLimit (topNodeLimit options) = Some L).

Abbreviation pps := (prepare_paths ctx rows metric stages options).
Abbreviation top k :=
  (top_ids L (accumulate (row_id ctx k) (rank_init ctx k) (rank_upd metric) rows)).
Abbreviation hides := (match overflowMode options with Some Hide => true | _ => false end).

Lemma limit_positive : ∃ L', L = S L'.
Proof.
  unfold normalizeTopNodeLimit in Hlimit. destruct (topNodeLimit options) as [[| | |q]|]; try done.
  case_match eqn:E; simplify_eq. apply Z.ltb_lt in E.
  destruct (Z.to_nat (Qfloor q)) eqn:E'; [lia|eauto].
Qed.

Lemma is_top k n :
  pn_kind n = k → k ∈ stages →
  isTopFlowNode (buildTopNodeSets ctx rows metric stages (Some L)) n = set_has (top k) (pn_id n).
Proof.
  intros Hk Hin. destruct limit_positive as [L' ->].
  destruct (top_sets_get ctx metric rows stages L' k Hstages Hin) as (sets & -> & Hget).
  unfold isTopFlowNode. by rewrite Hk, Hget.
Qed.

(** The nodes of the prepared paths are kept nodes of the rows, or stand for the others. *)
Lemma prepared_node pp pn :
  pp ∈ pps → pn ∈ path pp →
  pn_kind pn ∈ stages ∧
  (pn_id pn ∈ top (pn_kind pn) ∨ hides = false ∧ pn_id pn = OTHER_FLOW_NODE_ID (pn_kind pn)).
Proof.
  unfold prepare_paths. intros (row & Hrow & (p & Hp & ->)%fmap_Some)%list_elem_of_omap Hpn.
  cbn [path] in Hpn. rewrite Hlimit in Hp. unfold applyTopNodeLimit in Hp.
  destruct (buildTopNodeSets ctx rows metric stages (Some L)) as [sets|] eqn:Es.
  2: { destruct limit_positive as [L' ->]. done. }
  rewrite <- Es in Hp. clear Es sets.
  assert (∀ n, n ∈ flowPathForStages ctx row stages → pn_kind n ∈ stages) as Hkind.
  { intros n (k & -> & Hk)%list_elem_of_fmap. by rewrite builder_kind. }
  destruct (existsb _ (flowPathForStages ctx row stages)) eqn:Eb; cbn [negb] in Hp.
  - destruct (overflowMode options) as [[]|]; simplify_eq/=;
      apply list_elem_of_fmap in Hpn as (n & -> & Hn); specialize (Hkind n Hn);
      (destruct (isTopFlowNode _ n) eqn:Et; [|by split; [|right]]);
      rewrite (is_top (pn_kind n)) in Et by done; apply set_has_spec in Et; auto.
  - simplify_eq. split; [by apply Hkind|]. left.
    destruct (isTopFlowNode (buildTopNodeSets ctx rows metric stages (Some L)) pn) eqn:Et.
    + rewrite (is_top (pn_kind pn)) in Et by auto. by apply set_has_spec in Et.
    + assert (existsb (λ n, negb (isTopFlowNode (buildTopNodeSets ctx rows metric stages (Some L)) n))
        (flowPathForStages ctx row stages) = true); [|congruence].
      apply existsb_exists. exists pn. split; [by apply list_elem_of_In|]. by rewrite Et.
Qed.

(** When nothing is hidden, a kept node of a row is in the graph. *)
Lemma kept_row row k :
  hides = false → row ∈ rows → k ∈ stages → row_id ctx k row ∈ top k →
  ∃ pp, pp ∈ pps ∧ row_id ctx k row ∈ ids (path pp).
Proof.
  intros Hh Hrow Hk Htop. set (n := NODE_BUILDERS ctx k row).
  assert (n ∈ flowPathForStages ctx row stages) as Hn
    by (by apply (list_elem_of_fmap_2 (λ stage, NODE_BUILDERS ctx stage row))).
  assert (isTopFlowNode (buildTopNodeSets ctx rows metric stages (Some L)) n = true) as Hnt.
  { rewrite (is_top k) by (done || apply builder_kind). by apply set_has_spec. }
  assert (∃ p, applyTopNodeLimit (flowPathForStages ctx row stages)
      (buildTopNodeSets ctx rows metric stages (Some L)) (default Aggregate (overflowMode options))
      (otherNodeLabel options) = Some p ∧ n ∈ p) as (p & Hp & Hnp).
  { unfold applyTopNodeLimit.
    destruct (buildTopNodeSets ctx rows metric stages (Some L)) as [sets|]; [|eauto].
    destruct (negb _); [eauto|].
    assert (default Aggregate (overflowMode options) = Aggregate) as ->
      by (by destruct (overflowMode options) as [[]|]).
    eexists. split; [reflexivity|]. apply list_elem_of_fmap. exists n. by rewrite Hnt. }
  exists (mkPrepared p (rowMetrics row)). split.
  - unfold prepare_paths. apply list_elem_of_omap. exists row. split; [done|]. by rewrite Hlimit, Hp.
  - by apply (list_elem_of_fmap_2 pn_id p n).
Qed.

Context (palette : option (list jsstr)).
Hypothesis (Hclean : Forall clean_row rows).
Abbreviation graph := (graph_of_paths pps metric palette stages options).

Lemma graph_facts : sums_paths metric pps graph.
Proof. apply graph_sums_paths; [done|]. by apply prepared_shaped. Qed.

Lemma limited_ids n :
  n ∈ nodes graph →
  n_id n ∈ top (n_kind n) ∨ hides = false ∧ n_id n = OTHER_FLOW_NODE_ID (n_kind n).
Proof.
  intros Hn. destruct (nodes_kind _ _ _ graph_facts n Hn) as (pp & pn & Hpp & Hpn & <- & <-).
  by apply prepared_node with pp.
Qed.

Lemma limited_count k :
  (length (filter (λ n, n_kind n = k) (nodes graph)) ≤ L + if hides then 0 else 1)%nat.
Proof.
  rewrite <- (length_fmap n_id).
  trans (length (top k ++ if hides then [] else [OTHER_FLOW_NODE_ID k])).
  - apply submseteq_length, NoDup_submseteq.
    + eapply sublist_NoDup; [apply (nodes_distinct _ _ _ graph_facts)|].
      apply sublist_map, sublist_filter.
    + intros id (n & -> & [<- Hn]%list_elem_of_filter)%list_elem_of_fmap. apply elem_of_app.
      destruct (limited_ids n Hn) as [?|[-> ->]]; [by left|right; left].
  - rewrite length_app. pose proof (top_ids_length L
      (accumulate (row_id ctx k) (rank_init ctx k) (rank_upd metric) rows)).
    destruct hides; simpl; lia.
Qed.

Lemma limited_largest `{!Collation P} n row :
  hides = false → n ∈ nodes graph → n_kind n ∈ stages →
  n_id n ≠ OTHER_FLOW_NODE_ID (n_kind n) → row ∈ rows →
  row_id ctx (n_kind n) row ∉ n_id <$> nodes graph →
  id_total ctx metric (n_kind n) (row_id ctx (n_kind n) row) rows ≤
  id_total ctx metric (n_kind n) (n_id n) rows.
Proof.
  intros Hh Hn Hk Ho Hrow Hni. destruct (limited_ids n Hn) as [Htop|[_ ?]]; [|done].
  eapply top_ids_largest; [done|exact Htop|done|]. intros Hrt. apply Hni.
  apply (nodes_cover _ _ _ graph_facts). by apply kept_row.
Qed.
End limited.

(** ** Filters *)

Section filters.
Context (ctx : option (Z → jsstr)) (stages : list FlowNodeKind).

(** A row agrees with a selection on a stage: nothing is selected there, or its node is. *)
Definition agrees (sel : list FlowNodeFilter) (k : FlowNodeKind) (row : FlowQuotaDataItem) : Prop :=
  (∀ f, f ∈ sel → fl_kind f ≠ k) ∨ ∃ f, f ∈ sel ∧ fl_kind f = k ∧ fl_id f = row_id ctx k row.

Lemma foldl_kinds_get {A} (kind : A → FlowNodeKind) (id : A → jsstr) (keep : A → bool) l m k :
  jm_get k (foldl (λ m x, if keep x
      then jm_set (kind x) (js_add (id x) (default [] (jm_get (kind x) m))) m else m) m l) =
    match filter (λ x, keep x = true ∧ kind x = k) l with
    | [] => jm_get k m
    | xs => Some (foldl (λ s x, js_add (id x) s) (default [] (jm_get k m)) xs)
    end.
Proof.
  revert m. induction l as [|x l IH]; intros m; [done|]. cbn [foldl]. rewrite IH, filter_cons.
  destruct (keep x) eqn:Ek; [|rewrite decide_False by (intros [? _]; congruence); done].
  rewrite jm_get_set. destruct (decide (kind x = k)) as [->|Hn].
  - rewrite decide_True by done. simpl. by destruct (filter _ l).
  - rewrite decide_False by (intros [_ ?]; congruence). done.
Qed.

Lemma foldl_kinds_wf {A} (kind : A → FlowNodeKind) (id : A → jsstr) (keep : A → bool) l m :
  jm_wf m →
  jm_wf (foldl (λ m x, if keep x
      then jm_set (kind x) (js_add (id x) (default [] (jm_get (kind x) m))) m else m) m l).
Proof. revert m. induction l as [|x l IH]; intros m Hm; [done|]. cbn [foldl]. apply IH. case_match; auto using jm_wf_set. Qed.

Lemma normalized_get sel k :
  jm_get k (normalizeSelectedNodeFilters sel stages) =
    match filter (λ f, set_has (new_Set stages) (fl_kind f) = true ∧ fl_kind f = k) (default [] sel) with
    | [] => None
    | xs => Some (foldl (λ s f, js_add (fl_id f) s) [] xs)
    end.
Proof. apply (foldl_kinds_get fl_kind fl_id). Qed.

Lemma by_kind_get p k :
  jm_get k (pathNodesByKind p) =
    match filter (λ n, true = true ∧ pn_kind n = k) p with
    | [] => None
    | xs => Some (foldl (λ s n, js_add (pn_id n) s) [] xs)
    end.
Proof. apply (foldl_kinds_get pn_kind pn_id (λ _, true)). Qed.

Lemma path_of_kind row k x :
  NoDup stages → k ∈ stages →
  match jm_get k (pathNodesByKind (flowPathForStages ctx row stages)) with
  | None => false
  | Some pathIds => set_has pathIds x
  end = bool_decide (x = row_id ctx k row).
Proof.
  intros Hnd Hk. rewrite by_kind_get.
  assert (∀ n, n ∈ filter (λ n, true = true ∧ pn_kind n = k) (flowPathForStages ctx row stages) ↔
               n = NODE_BUILDERS ctx k row) as Hf.
  { intros n. rewrite list_elem_of_filter. unfold flowPathForStages. rewrite list_elem_of_fmap. split.
    - intros [[_ Hkn] (s & -> & Hs)]. by rewrite builder_kind in Hkn; subst.
    - intros ->. rewrite builder_kind. eauto. }
  destruct (filter _ (flowPathForStages ctx row stages)) as [|n ns] eqn:E.
  { by destruct (not_elem_of_nil (NODE_BUILDERS ctx k row)); apply Hf. }
  unfold set_has. apply bool_decide_ext. rewrite foldl_add_keys, elem_of_nil.
  rewrite list_elem_of_fmap. unfold row_id. split.
  - intros [[]|(n' & -> & Hn')]. apply Hf in Hn' as ->. done.
  - intros ->. right. exists (NODE_BUILDERS ctx k row). split; [done|]. by apply Hf.
Qed.

Lemma normalized_wf sel : jm_wf (normalizeSelectedNodeFilters sel stages).
Proof. apply (foldl_kinds_wf fl_kind fl_id), jm_wf_nil. Qed.

(** An entry holds the identifiers selected for its stage. *)
Lemma normalized_entry sel k xs :
  (k, xs) ∈ normalizeSelectedNodeFilters sel stages →
  k ∈ stages ∧ ∀ x, x ∈ xs ↔ ∃ f, f ∈ default [] sel ∧ fl_kind f = k ∧ fl_id f = x.
Proof.
  intros Hin. apply jm_elem_get in Hin; [|apply normalized_wf]. rewrite normalized_get in Hin.
  destruct (filter _ (default [] sel)) as [|f fs] eqn:E; [done|]. apply (inj Some) in Hin as <-.
  assert (∀ f', f' ∈ f :: fs ↔ (fl_kind f' ∈ stages ∧ fl_kind f' = k) ∧ f' ∈ default [] sel) as Hfs.
  { intros f'. rewrite <- E, list_elem_of_filter, set_has_spec, new_Set_elem. done. }
  split; [destruct (proj1 (Hfs f) ltac:(left)) as [[? <-] _]; done|].
  intros x. rewrite foldl_add_keys, elem_of_nil, list_elem_of_fmap.
  destruct (proj1 (Hfs f) ltac:(left)) as [[Hst Hk] _].
  split; [intros [[]|(f' & -> & Hf')]; apply Hfs in Hf'; naive_solver|].
  intros (f' & Hin & Hk' & <-). right. exists f'. split; [done|]. apply Hfs.
  rewrite Hk'. rewrite Hk in Hst. done.
Qed.

Lemma filter_rows_spec rows sel row :
  NoDup stages →
  row ∈ filterRowsByNodes ctx rows sel stages ↔
  row ∈ rows ∧ ∀ k, k ∈ stages → agrees (default [] sel) k row.
Proof.
  intros Hnd. set (m := normalizeSelectedNodeFilters sel stages).
  assert (jm_wf m) as Hwf by apply normalized_wf.
  assert (row ∈ filterRowsByNodes ctx rows sel stages ↔
    row ∈ rows ∧ pathMatchesNodeFilters (flowPathForStages ctx row stages) m = true) as ->.
  { unfold filterRowsByNodes. fold m. destruct m as [|e m']; [naive_solver|].
    rewrite elem_of_filter_bool. tauto. }
  apply and_iff_compat_l. unfold pathMatchesNodeFilters. rewrite forallb_Forall, Forall_forall.
  pose proof (normalized_entry sel) as Hentry. fold m in Hentry.
  split.
  - intros Hall k Hk. destruct (jm_get k m) as [xs|] eqn:Em.
    + right. apply jm_get_Some_elem in Em. specialize (Hall _ Em). simpl in Hall.
      destruct (Hentry k xs Em) as [_ Hxs].
      destruct (jm_get k (pathNodesByKind _)) as [ps|] eqn:Ep; [|done].
      apply existsb_exists in Hall as (x & Hx & Hh). apply list_elem_of_In, Hxs in Hx as (f & Hf & Hfk & <-).
      exists f. split_and!; [done..|]. pose proof (path_of_kind row k (fl_id f) Hnd Hk) as Hp.
      rewrite Ep, Hh in Hp. by symmetry in Hp; apply bool_decide_eq_true in Hp.
    + left. intros f Hf Hfk. subst m. rewrite normalized_get in Em.
      destruct (filter _ (default [] sel)) as [|f' fs] eqn:E; [|done].
      apply (not_elem_of_nil f). rewrite <- E, list_elem_of_filter, set_has_spec, new_Set_elem.
      by rewrite Hfk.
  - intros Hall [k xs] Hin. destruct (Hentry k xs Hin) as [Hk Hxs].
    destruct (Hall k Hk) as [Hno|(f & Hf & Hfk & Hid)].
    + exfalso. apply jm_elem_get in Hin; [|done]. subst m. rewrite normalized_get in Hin.
      destruct (filter _ (default [] sel)) as [|f fs] eqn:E; [done|].
      assert (f ∈ f :: fs) as Hf by left. rewrite <- E, list_elem_of_filter in Hf.
      destruct Hf as [[_ Hfk] Hf]. by destruct (Hno f Hf).
    + pose proof (path_of_kind row k (fl_id f) Hnd Hk) as Hp. rewrite bool_decide_eq_true_2 in Hp by done.
      destruct (jm_get k (pathNodesByKind _)) as [ps|]; [|done].
      apply existsb_exists. exists (fl_id f). split; [|done]. apply list_elem_of_In, Hxs. eauto.
Qed.

(** ** Filter options *)

Lemma agrees_except sel k k' row :
  agrees (default [] (selectedNodeFiltersExceptKind sel k)) k' row ↔
  k' = k ∨ agrees (default [] sel) k' row.
Proof.
  assert (∀ f, f ∈ default [] (selectedNodeFiltersExceptKind sel k) ↔
               fl_kind f ≠ k ∧ f ∈ default [] sel) as Hf.
  { intros f. trans (f ∈ List.filter (λ f, negb (bool_decide (fl_kind f = k))) (default [] sel)).
    - unfold selectedNodeFiltersExceptKind. by case_match.
    - by rewrite elem_of_filter_bool, negb_true_iff, bool_decide_eq_false. }
  unfold agrees. setoid_rewrite Hf. destruct (decide (k' = k)) as [->|Hn]; [|naive_solver].
  split; [auto|]. intros _. left. naive_solver.
Qed.

Definition candidates (rows : list FlowQuotaDataItem) (sel : option (list FlowNodeFilter))
    (k : FlowNodeKind) : list FlowQuotaDataItem :=
  filterRowsByNodes ctx rows (selectedNodeFiltersExceptKind sel k) stages.

Lemma candidates_spec rows sel k row :
  NoDup stages →
  row ∈ candidates rows sel k ↔
  row ∈ rows ∧ ∀ k', k' ∈ stages → k' ≠ k → agrees (default [] sel) k' row.
Proof.
  intros Hnd. unfold candidates. rewrite filter_rows_spec by done.
  apply and_iff_compat_l. setoid_rewrite agrees_except. split; intros H k' Hk'.
  - intros Hne. by destruct (H k' Hk').
  - destruct (decide (k' = k)); auto.
Qed.
End filters.

Section options.
Context `{P : Platform} (ctx : option (Z → jsstr)) (metric : FlowMetric).

Definition option_key (k : FlowNodeKind) (row : FlowQuotaDataItem) : jsstr :=
  nodeFilterKey (mkFilter (pn_kind (NODE_BUILDERS ctx k row)) (row_id ctx k row)).

Lemma node_totals_accumulate k rows :
  node_totals ctx metric k rows = accumulate (option_key k) (rank_init ctx k) (rank_upd metric) rows.
Proof. done. Qed.

Lemma option_key_inj k row row' : option_key k row = option_key k row' ↔ row_id ctx k row = row_id ctx k row'.
Proof.
  unfold option_key, nodeFilterKey. rewrite !builder_kind. simpl. split; [|by intros ->].
  intros H. apply app_inv_head in H. by injection H.
Qed.

Lemma node_totals_entry k rows key r :
  (key, r) ∈ node_totals ctx metric k rows →
  pn_kind (r_node r) = k ∧ (∃ row, row ∈ rows ∧ row_id ctx k row = pn_id (r_node r)) ∧
  r_value r = id_total ctx metric k (pn_id (r_node r)) rows.
Proof.
  rewrite node_totals_accumulate. intros (row & xs & Hf & Hk & ->)%accumulate_elem.
  rewrite rank_fold. cbn [rank_init r_node r_value].
  assert (row ∈ filter (λ x, option_key k x = key) rows) as Hin by (rewrite Hf; left).
  apply list_elem_of_filter in Hin as [_ Hin]. split_and!; [apply builder_kind|by exists row|].
  rewrite Z.add_0_l, <- Hf. unfold id_total. f_equal. apply list_filter_iff. intros x.
  rewrite <- Hk. apply option_key_inj.
Qed.

Lemma node_totals_row k rows row :
  row ∈ rows → ∃ key r, (key, r) ∈ node_totals ctx metric k rows ∧ pn_id (r_node r) = row_id ctx k row.
Proof.
  intros Hrow. rewrite node_totals_accumulate.
  assert (option_key k row ∈ jm_keys (accumulate (option_key k) (rank_init ctx k) (rank_upd metric) rows))
    as Hk by (apply accumulate_keys; eauto).
  apply list_elem_of_fmap in Hk as ([key r] & Hkey & Hin). simpl in Hkey. exists key, r. split; [done|].
  apply accumulate_elem in Hin as (row' & xs & _ & Hid & ->).
  rewrite rank_fold. cbn [rank_init r_node]. fold (row_id ctx k row').
  apply option_key_inj. congruence.
Qed.
End options.

(** ** What masking leaves *)

Definition unlabelled (n : DashboardFlowNode) : DashboardFlowNode := set_node_label [] n.
Definition unlabelled_link (l : DashboardFlowLink) : DashboardFlowLink := set_link_labels [] [] l.

Lemma mask_unlabelled ns ls :
  unlabelled <$> jm_values (maskFlowGraphLabels ns ls).1 = unlabelled <$> jm_values ns ∧
  unlabelled_link <$> jm_values (maskFlowGraphLabels ns ls).2 = unlabelled_link <$> jm_values ls.
Proof.
  unfold maskFlowGraphLabels. cbn [fst snd]. split.
  - rewrite values_map, <- list_fmap_compose. apply list_fmap_ext. intros i n _.
    unfold compose, mask_node. by case_match.
  - case_match; [done|]. rewrite values_map, <- list_fmap_compose. by apply list_fmap_ext.
Qed.

Lemma highlight_unlabelled ns ls ns' ls' sets :
  unlabelled <$> jm_values ns = unlabelled <$> jm_values ns' →
  unlabelled_link <$> jm_values ls = unlabelled_link <$> jm_values ls' →
  unlabelled <$> jm_values (applyFlowHighlights ns ls sets).1 =
    unlabelled <$> jm_values (applyFlowHighlights ns' ls' sets).1 ∧
  unlabelled_link <$> jm_values (applyFlowHighlights ns ls sets).2 =
    unlabelled_link <$> jm_values (applyFlowHighlights ns' ls' sets).2.
Proof.
  intros Hn Hl. destruct sets as [[hn hl]|]; [|done]. simpl. rewrite !values_map. split.
  - set (f := λ n, set_node_flags (set_has hn (n_id n)) n).
    rewrite <- !list_fmap_compose. change (unlabelled ∘ f) with (f ∘ unlabelled).
    by rewrite !list_fmap_compose, Hn.
  - set (f := λ l, set_link_flags (set_has hl (linkStableKey l)) l).
    rewrite <- !list_fmap_compose. change (unlabelled_link ∘ f) with (f ∘ unlabelled_link).
    by rewrite !list_fmap_compose, Hl.
Qed.

Section unlabelled.
Context `{P : Platform}.

Lemma ends_unlabelled ls : unlabelled_link <$> js_sort by_ends ls = js_sort by_ends (unlabelled_link <$> ls).
Proof. by apply js_sort_map. Qed.

Lemma total_unlabelled pps ls : first_step_total pps (unlabelled_link <$> ls) = first_step_total pps ls.
Proof.
  unfold first_step_total. generalize 0. induction ls as [|l ls IH]; intros z; [done|]. simpl.
  destruct (set_has _ (l_source l)); simpl; apply IH.
Qed.

Lemma ranked_unlabelled ls source :
  prod_map id unlabelled_link <$> ranked_links ls source = ranked_links (unlabelled_link <$> ls) source.
Proof.
  unfold ranked_links. rewrite (js_sort_map _ _ by_value_key) by done. f_equal.
  set (p := λ l : nat * DashboardFlowLink, streq (l_source l.2) source).
  assert (∀ (k : list (nat * DashboardFlowLink)), prod_map id unlabelled_link <$> List.filter p k =
    List.filter p (prod_map id unlabelled_link <$> k)) as ->.
  { intros k. induction k as [|x k IH]; [done|]. rewrite fmap_cons. simpl.
    change (p (prod_map id unlabelled_link x)) with (p x). destruct (p x); [by rewrite fmap_cons, IH|done]. }
  f_equal. by rewrite fmap_imap, imap_fmap.
Qed.

Lemma rank_unlabelled i (ranked : list (nat * DashboardFlowLink)) :
  rank_of i (prod_map id unlabelled_link <$> ranked) = rank_of i ranked.
Proof. induction ranked as [|[j l] r IH]; [done|]. rewrite fmap_cons. cbn [rank_of prod_map id]. by rewrite IH. Qed.

Lemma display_unlabelled ls :
  unlabelled_link <$> assignLinkDisplayColors ls = assignLinkDisplayColors (unlabelled_link <$> ls).
Proof.
  unfold assignLinkDisplayColors. rewrite fmap_imap, imap_fmap. apply imap_ext. intros i l _.
  unfold compose. rewrite <- ranked_unlabelled, rank_unlabelled, length_fmap. cbn [unlabelled_link set_link_labels l_color l_source]. by destruct (alphaColor _ _).
Qed.

Lemma shares_unlabelled total ls :
  unlabelled_link <$> map (set_share total) ls = map (set_share total) (unlabelled_link <$> ls).
Proof. rewrite <- !list_fmap_compose. by apply list_fmap_ext. Qed.

(** Masking changes nothing but labels, and the order of the nodes, which is by label. *)
Lemma masking_unlabelled pps metric palette stages options options' :
  activeNode options = activeNode options' → activeLink options = activeLink options' →
  let g := graph_of_paths pps metric palette stages options in
  let g' := graph_of_paths pps metric palette stages options' in
  unlabelled <$> nodes g ≡ₚ unlabelled <$> nodes g' ∧ unlabelled_link <$> links g = unlabelled_link <$> links g'.
Proof.
  intros Han Hal. unfold graph_of_paths. cbn [nodes links]. set (m := graph_maps metric palette pps).
  rewrite Han, Hal. generalize (buildFlowHighlightSets pps (activeNode options') (activeLink options') stages).
  intros sets. set (masked o := if maskSensitive o then maskFlowGraphLabels m.1 m.2 else m).
  assert (∀ o, unlabelled <$> jm_values (masked o).1 = unlabelled <$> jm_values m.1 ∧
    unlabelled_link <$> jm_values (masked o).2 = unlabelled_link <$> jm_values m.2) as Hm.
  { intros o. unfold masked. destruct (maskSensitive o); [apply mask_unlabelled|done]. }
  destruct (Hm options) as [Hn Hl], (Hm options') as [Hn' Hl']. fold (masked options) (masked options').
  destruct (highlight_unlabelled (masked options).1 (masked options).2 (masked options').1
    (masked options').2 sets) as [En El]; [by rewrite Hn, Hn'|by rewrite Hl, Hl'|].
  split; [by rewrite !js_sort_perm, En|].
  set (ls := jm_values (applyFlowHighlights (masked options).1 (masked options).2 sets).2) in *.
  set (ls' := jm_values (applyFlowHighlights (masked options').1 (masked options').2 sets).2) in *.
  assert (unlabelled_link <$> js_sort by_ends ls = unlabelled_link <$> js_sort by_ends ls') as Hs
    by by rewrite !ends_unlabelled, El.
  rewrite !display_unlabelled, !shares_unlabelled, Hs.
  by rewrite <- (total_unlabelled pps (js_sort by_ends ls)), Hs, total_unlabelled.
Qed.
End unlabelled.

(** ** Properties *)

(** [C32] Masking: with masking on, every node of a sensitive kind that is not one of the
    aggregated others has a label that shows nothing, and so has every end of a link at such a
    node. Everything else is as in the graph without masking: the links are the same in the
    same order, and the nodes up to their order, which is by label among equal values. *)
Theorem masking_hides_labels `{P : Platform} (ctx : option (Z → jsstr)) (rows : list FlowQuotaDataItem)
    (metric : FlowMetric) (role : FlowRole) (palette : option (list jsstr))
    (vs : option (list FlowNodeKind)) (limit : option jsnum) (mode : option FlowOverflowMode)
    (other : option (FlowNodeKind → jsstr)) (an : option FlowNodeFilter) (al : option FlowLinkSelection) :
  Forall clean_row rows →
  let masked := buildFlowGraph ctx rows metric role palette vs (mkOptions limit mode other an al true) in
  let plain := buildFlowGraph ctx rows metric role palette vs (mkOptions limit mode other an al false) in
  (∀ n, n ∈ nodes masked → sensitive n → hidden (n_label n)) ∧
  (∀ n l, n ∈ nodes masked → l ∈ links masked → sensitive n →
     (l_source l = n_id n → hidden (l_sourceLabel l)) ∧
     (l_target l = n_id n → hidden (l_targetLabel l))) ∧
  unlabelled <$> nodes masked ≡ₚ unlabelled <$> nodes plain ∧
  unlabelled_link <$> links masked = unlabelled_link <$> links plain.
Proof.
  intros Hc masked plain. pose proof (resolve_NoDup role vs) as Hs.
  pose proof (prepared_shaped ctx rows metric (resolveVisibleStages role vs)
    (mkOptions limit mode other an al true) Hc) as Hp.
  destruct (masking_hides metric palette _ _ (mkOptions limit mode other an al true) Hs Hp eq_refl)
    as [H1 H2].
  split; [exact H1|]. split; [exact H2|]. by apply masking_unlabelled.
Qed.

Lemma masking_hides_labels_witness :
  ∃ n, n ∈ nodes (buildFlowGraph None sample_rows MQuota RUser None None
                    (mkOptions None None None None None true)) ∧ hidden (n_label n).
Proof.
  set (g := buildFlowGraph None sample_rows MQuota RUser None None (mkOptions None None None None None true)).
  destruct (nodes g !! 0%nat) as [n|] eqn:E; [|vm_compute in E; discriminate].
  exists n. assert (n ∈ nodes g) as Hn by (by eapply list_elem_of_lookup_2). split; [exact Hn|].
  apply (masking_hides_labels None sample_rows MQuota RUser None None None None None None None sample_clean);
    [exact Hn|].
  vm_compute in E. injection E as <-. apply is_masked_spec. vm_compute. reflexivity.
Defined.

(** Highlighting: when a link is active, or a node of a visible stage, and some path goes
    through it, exactly the nodes and links of the paths through it are highlighted and all
    others are dimmed; otherwise no flag is set anywhere. *)
Theorem highlights_exact `{P : Platform} (ctx : option (Z → jsstr)) (rows : list FlowQuotaDataItem)
    (metric : FlowMetric) (role : FlowRole) (palette : option (list jsstr))
    (vs : option (list FlowNodeKind)) (options : FlowGraphOptions) :
  Forall clean_row rows →
  let stages := resolveVisibleStages role vs in
  let pps := prepare_paths ctx rows metric stages options in
  let g := buildFlowGraph ctx rows metric role palette vs options in
  let on := something_active options stages ∧ ∃ pp, pp ∈ selected options pps ∧ path pp ≠ [] in
  (on → (∀ n, n ∈ nodes g →
           mark (∃ pp, pp ∈ selected options pps ∧ n_id n ∈ ids (path pp))
             (n_highlighted n, n_dimmed n)) ∧
        (∀ l, l ∈ links g →
           mark (∃ pp, pp ∈ selected options pps ∧ l_ends l ∈ link_ids (path pp))
             (l_highlighted l, l_dimmed l))) ∧
  (¬ on → (∀ n, n ∈ nodes g → (n_highlighted n, n_dimmed n) = (None, None)) ∧
          (∀ l, l ∈ links g → (l_highlighted l, l_dimmed l) = (None, None))).
Proof.
  intros Hc. apply graph_highlights; [apply resolve_NoDup|]. by apply prepared_shaped.
Qed.

Definition active_options : FlowGraphOptions :=
  mkOptions None None None (Some (mkFilter KModel (js "model:m2"))) None false.

Lemma highlights_exact_witness :
  ∃ n, n ∈ nodes (buildFlowGraph None sample_rows MQuota RUser None None active_options) ∧
    n_id n = js "group:vip" ∧ (n_highlighted n, n_dimmed n) = (Some true, Some false).
Proof.
  set (g := buildFlowGraph None sample_rows MQuota RUser None None active_options).
  destruct (nodes g !! 0%nat) as [n|] eqn:E; [|vm_compute in E; discriminate].
  exists n. assert (n ∈ nodes g) as Hn by (by eapply list_elem_of_lookup_2). split; [exact Hn|].
  assert (n_id n = js "group:vip") as Hid by (vm_compute in E; injection E as <-; reflexivity).
  split; [exact Hid|].
  destruct (highlights_exact None sample_rows MQuota RUser None None active_options sample_clean)
    as [Hon _].
  destruct Hon as [Hm _].
  { split; [right; eexists; split; [reflexivity|right; right; left]|].
    exists (mkPrepared (flowPathForStages None (sample_row "bob" "vip" "m2" 7) [KToken; KGroup; KModel])
              (rowMetrics (sample_row "bob" "vip" "m2" 7))).
    split; [left|discriminate]. }
  destruct (Hm n Hn) as [[_ H]|[Hno _]]; [exact H|]. exfalso. apply Hno.
  exists (mkPrepared (flowPathForStages None (sample_row "bob" "vip" "m2" 7) [KToken; KGroup; KModel])
              (rowMetrics (sample_row "bob" "vip" "m2" 7))).
  split; [left|]. rewrite Hid. right. left.
Defined.

(** The limit on the nodes of a stage: with a limit, each stage shows at most that many
    nodes, and one more that stands for the others unless they are hidden; when they are
    aggregated, every node of a row that is not shown has at most the total of any node shown
    for its stage. *)
Theorem node_limit_keeps_largest `{P : Platform} `{!Collation P} (ctx : option (Z → jsstr))
    (rows : list FlowQuotaDataItem) (metric : FlowMetric) (role : FlowRole)
    (palette : option (list jsstr)) (vs : option (list FlowNodeKind)) (options : FlowGraphOptions)
    (L : nat) :
  Forall clean_row rows → normalizeTopNodeLimit (topNodeLimit options) = Some L →
  let g := buildFlowGraph ctx rows metric role palette vs options in
  let hides := match overflowMode options with Some Hide => true | _ => false end in
  (∀ k, length (filter (λ n, n_kind n = k) (nodes g)) ≤ L + if hides then 0 else 1)%nat ∧
  (hides = false → ∀ n row, n ∈ nodes g → n_id n ≠ OTHER_FLOW_NODE_ID (n_kind n) → row ∈ rows →
     row_id ctx (n_kind n) row ∉ n_id <$> nodes g →
     id_total ctx metric (n_kind n) (row_id ctx (n_kind n) row) rows ≤
     id_total ctx metric (n_kind n) (n_id n) rows).
Proof.
  intros Hc HL g hides. pose proof (resolve_NoDup role vs) as Hs. split.
  - intros k. by apply limited_count.
  - intros Hh n row Hn Ho Hrow Hni.
    assert (n_kind n ∈ resolveVisibleStages role vs) as Hk.
    { destruct (nodes_kind _ _ _ (graph_facts ctx rows metric _ options Hs palette Hc) n Hn)
        as (pp & pn & Hpp & Hpn & _ & <-).
      by destruct (prepared_node ctx rows metric _ options L Hs HL pp pn Hpp Hpn). }
    by apply limited_largest with (stages := resolveVisibleStages role vs) (L := L) (options := options)
      (palette := palette).
Qed.

Lemma unit_compare_opp a b : unit_compare b a = - unit_compare a b.
Proof.
  revert b. induction a as [|x a IH]; intros [|y b]; simpl; try lia.
  rewrite (N.eqb_sym y x). destruct (N.eqb_spec x y); [by apply IH|].
  destruct (N.ltb_spec x y), (N.ltb_spec y x); lia.
Qed.

Lemma unit_compare_trans a b c :
  unit_compare a b ≤ 0 → unit_compare b c ≤ 0 → unit_compare a c ≤ 0.
Proof.
  revert b c. induction a as [|x a IH]; intros [|y b] [|z c]; simpl; try lia.
  intros H1 H2. destruct (N.eqb_spec x y) as [Exy|], (N.eqb_spec y z) as [Eyz|], (N.eqb_spec x z);
    try congruence; [by eapply IH|..].
  all: repeat match goal with
    | H : context [N.ltb ?u ?v] |- _ => destruct (N.ltb_spec u v)
    | |- context [N.ltb ?u ?v] => destruct (N.ltb_spec u v)
    end; lia.
Qed.

#[export] Instance unit_collation : Collation unit_platform.
Proof.
  split; cbn [localeCompare unit_platform].
  - intros a. pose proof (unit_compare_opp a a). lia.
  - intros a b. rewrite (unit_compare_opp a b). lia.
  - apply unit_compare_trans.
Qed.

Definition limit_options : FlowGraphOptions :=
  mkOptions (Some (num_of_Z 1)) None None None None false.

Lemma node_limit_keeps_largest_witness :
  (length (filter (λ n, n_kind n = KModel)
     (nodes (buildFlowGraph None sample_rows MQuota RUser None None limit_options))) ≤ 1 + 1)%nat.
Proof.
  apply (node_limit_keeps_largest None sample_rows MQuota RUser None None limit_options 1).
  - apply sample_clean.
  - vm_compute. reflexivity.
Defined.

(** Node filters: a row passes exactly when, on every visible stage with a selection, its
    node is selected; and the options offered for a stage are the nodes of the rows that pass
    the selections of the other stages, each with the total of those rows. *)
Theorem node_filters_exact `{P : Platform} (ctx : option (Z → jsstr)) (rows : list FlowQuotaDataItem)
    (metric : FlowMetric) (role : FlowRole) (vs : option (list FlowNodeKind))
    (palette : option (list jsstr)) (sel : option (list FlowNodeFilter)) :
  let stages := resolveVisibleStages role vs in
  let cands := candidates ctx stages rows sel in
  let opts := buildNodeFilterOptions ctx rows metric role vs palette sel in
  (∀ row, row ∈ filterRowsByNodes ctx rows sel stages ↔
     row ∈ rows ∧ ∀ k, k ∈ stages → agrees ctx (default [] sel) k row) ∧
  (∀ k row, row ∈ cands k ↔
     row ∈ rows ∧ ∀ k', k' ∈ stages → k' ≠ k → agrees ctx (default [] sel) k' row) ∧
  (∀ k id, (k, id) ∈ (λ o, (o_kind o, o_value o)) <$> opts ↔
     k ∈ stages ∧ ∃ row, row ∈ cands k ∧ row_id ctx k row = id) ∧
  (∀ o, o ∈ opts → o_valueRaw o = id_total ctx metric (o_kind o) (o_value o) (cands (o_kind o))).
Proof.
  intros stages cands opts. pose proof (resolve_NoDup role vs) as Hs.
  split; [intros row; by apply filter_rows_spec|].
  split; [intros k row; by apply candidates_spec|].
  assert (∀ o, o ∈ opts → ∃ key r, o_kind o ∈ stages ∧ (key, r) ∈ node_totals ctx metric (o_kind o)
    (cands (o_kind o)) ∧ o_value o = pn_id (r_node r) ∧ o_valueRaw o = r_value r) as Hopts.
  { intros o. unfold opts, buildNodeFilterOptions. rewrite js_sort_elem_of, list_elem_of_join.
    intros (l & Ho & (stage & -> & Hst)%list_elem_of_fmap).
    apply list_elem_of_fmap in Ho as ([key r] & -> & Hin). exists key, r.
    cbn [o_kind o_value o_valueRaw]. by destruct (node_totals_entry _ _ _ _ _ _ Hin) as [-> _]. }
  split; [intros k id; split|].
  - intros (o & [= -> ->] & Ho)%list_elem_of_fmap.
    destruct (Hopts o Ho) as (key & r & Hst & Hin & -> & _). split; [exact Hst|].
    by apply node_totals_entry in Hin as (_ & ? & _).
  - intros (Hst & row & Hrow & <-).
    destruct (node_totals_row ctx metric k (cands k) row Hrow) as (key & r & Hin & <-).
    destruct (node_totals_entry _ _ _ _ _ _ Hin) as (Hk & _ & _).
    apply list_elem_of_fmap. eexists. split; [|apply js_sort_elem_of, list_elem_of_join;
      eexists; split; [|apply list_elem_of_fmap; eexists; split; [reflexivity|exact Hst]];
      apply list_elem_of_fmap; exists (key, r); split; [reflexivity|exact Hin]].
    cbn [o_kind o_value]. by rewrite Hk.
  - intros o Ho. destruct (Hopts o Ho) as (key & r & Hst & Hin & -> & ->).
    by apply node_totals_entry in Hin as (_ & _ & ?).
Qed.

End FlowView.
