(* ===== verification/AdvancedCustom.v ===== *)
(** * Custom routes of a channel (web/src/features/channels/lib/advanced-custom.ts)

    An advanced custom channel maps incoming paths to upstream paths, with a converter of
    protocols, rules on the model and the authentication to send. The converter and the type
    of an authentication are strings, because a stored configuration may hold any: the
    validation is what refuses the unknown ones. [JSON] and [URL] of the browser are
    parameters. *)
From S2P Require Import Prelude JsString JsMap.
Local Open Scope nat_scope.

Module AdvancedCustom.

(** ** Data *)

Record AdvancedCustomRouteAuth := mkAuth {
  a_type : option jsstr; a_name : option jsstr; a_value : option jsstr }.

Record AdvancedCustomRoute := mkRoute {
  incoming_path : option jsstr; upstream_path : option jsstr; converter : option jsstr;
  models : option (list jsstr); auth : option AdvancedCustomRouteAuth }.

Record AdvancedCustomConfig := mkConfig { advanced_routes : option (list AdvancedCustomRoute) }.

Record AdvancedCustomValidationError := mkError { message : jsstr; routeIndex : option nat }.

Inductive AdvancedCustomAuthMode := MDefault | MNone | MHeader | MQuery.

Inductive AdvancedCustomModelRuleKind := exact_rule | regex_rule.

Record ConverterOption := mkConverter { c_value : jsstr; c_label : jsstr; c_triggerLabel : jsstr }.

Record AdvancedCustomIncomingPathOption := mkPath { p_value : jsstr; p_label : jsstr }.

Record AdvancedCustomTemplateOption := mkTemplate {
  t_value : jsstr; t_label : jsstr; t_config : AdvancedCustomConfig }.

Record AdvancedCustomConverterDefaults := mkDefaults {
  d_upstream_path : jsstr; d_auth : option AdvancedCustomRouteAuth }.

(** What [JSON.parse] returns, seen through the cast of the code: an object of the declared
    type, or something the code refuses (a primitive, [null] or an array). *)
Inductive parsed := JObject (config : AdvancedCustomConfig) | JOther.

Class Browser := {
  (** [None]: the call throws *)
  JSON_parse : jsstr → option parsed;
  JSON_stringify : AdvancedCustomConfig → jsstr;
  (** protocol and host of [new URL(s)]; [None]: the call throws *)
  URL : jsstr → option (jsstr * jsstr)
}.

(** Properties that are [undefined] are not written, so what is written is read back; the text
    of an object is not blank. *)
Class BrowserLaws (B : Browser) : Prop := {
  parse_stringify : ∀ c, JSON_parse (JSON_stringify c) = Some (JObject c);
  stringify_nonblank : ∀ c, trim (JSON_stringify c) ≠ []
}.

(** ** Constants *)

Definition ADVANCED_CUSTOM_MODEL_LIST_PATH : jsstr := js "/v1/models".
Definition ADVANCED_CUSTOM_MODEL_LIST_LABEL : jsstr := js "OpenAI Models".
Definition ADVANCED_CUSTOM_BALANCE_PATH : jsstr := js "/v1/dashboard/billing/credit_grants".
Definition ADVANCED_CUSTOM_BALANCE_LABEL : jsstr := js "Balance Query".
Definition ADVANCED_CUSTOM_MODEL_REGEX_PREFIX : jsstr := js "re:".

Definition native : jsstr := js "none".
Definition messages_to_chat : jsstr := js "anthropic_messages_to_openai_chat_completions".
Definition chat_to_messages : jsstr := js "openai_chat_completions_to_anthropic_messages".
Definition chat_to_responses : jsstr := js "openai_chat_completions_to_openai_responses".
Definition responses_to_chat : jsstr := js "openai_responses_to_openai_chat_completions".
Definition responses_to_gemini : jsstr := js "openai_responses_to_gemini_generate_content".
Definition gemini_to_chat : jsstr := js "gemini_generate_content_to_openai_chat_completions".
Definition chat_to_gemini : jsstr := js "openai_chat_completions_to_gemini_generate_content".

Definition ADVANCED_CUSTOM_CONVERTER_OPTIONS : list ConverterOption :=
  [mkConverter native (js "Native forwarding") (js "Native forwarding");
   mkConverter messages_to_chat (js "Anthropic Messages to OpenAI Chat") (js "To OpenAI Chat");
   mkConverter chat_to_messages (js "OpenAI Chat to Anthropic Messages") (js "To Anthropic Messages");
   mkConverter chat_to_responses (js "OpenAI Chat to OpenAI Responses") (js "To OpenAI Responses");
   mkConverter responses_to_chat (js "OpenAI Responses to OpenAI Chat") (js "To OpenAI Chat");
   mkConverter responses_to_gemini (js "OpenAI Responses to Gemini Generate Content")
     (js "To Gemini Generate Content");
   mkConverter gemini_to_chat (js "Gemini Generate Content to OpenAI Chat") (js "To OpenAI Chat");
   mkConverter chat_to_gemini (js "OpenAI Chat to Gemini Generate Content")
     (js "To Gemini Generate Content")].

Definition ADVANCED_CUSTOM_INCOMING_PATH_OPTIONS : list AdvancedCustomIncomingPathOption :=
  [mkPath (js "/v1/chat/completions") (js "OpenAI Chat");
   mkPath (js "/v1/responses") (js "OpenAI Responses");
   mkPath (js "/v1/responses/compact") (js "OpenAI Responses Compact");
   mkPath (js "/v1/alpha/search") (js "Codex Alpha Search");
   mkPath (js "/v1/embeddings") (js "OpenAI Embeddings");
   mkPath (js "/v1/images/generations") (js "OpenAI Image Generations");
   mkPath (js "/v1/images/edits") (js "OpenAI Image Edits");
   mkPath (js "/v1/completions") (js "OpenAI Completions");
   mkPath (js "/v1/audio/speech") (js "OpenAI Audio Speech");
   mkPath (js "/v1/audio/transcriptions") (js "OpenAI Audio Transcriptions");
   mkPath (js "/v1/audio/translations") (js "OpenAI Audio Translations");
   mkPath (js "/v1/rerank") (js "Rerank");
   mkPath (js "/v1/realtime") (js "OpenAI Realtime");
   mkPath (js "/v1/messages") (js "Claude Messages");
   mkPath (js "/v1beta/models/{model}:generateContent") (js "Gemini Generate Content");
   mkPath (js "/v1beta/models/{model}:embedContent") (js "Gemini Embed Content");
   mkPath (js "/v1beta/models/{model}:batchEmbedContents") (js "Gemini Batch Embed Contents")].

Definition ADVANCED_CUSTOM_ROUTE_SUMMARY_LABELS : list (jsstr * jsstr) :=
  [(js "/v1/chat/completions", js "OpenAI Chat");
   (ADVANCED_CUSTOM_MODEL_LIST_PATH, ADVANCED_CUSTOM_MODEL_LIST_LABEL);
   (ADVANCED_CUSTOM_BALANCE_PATH, ADVANCED_CUSTOM_BALANCE_LABEL)].

Definition openAIChatPath : jsstr := js "/v1/chat/completions".
Definition openAIResponsesPath : jsstr := js "/v1/responses".
Definition claudeMessagesPath : jsstr := js "/v1/messages".
Definition geminiGenerateContentPath : jsstr := js "/v1beta/models/{model}:generateContent".

Definition bearerHeaderAuth : AdvancedCustomRouteAuth :=
  mkAuth (Some (js "header")) (Some (js "Authorization")) (Some (js "Bearer {api_key}")).
Definition apiKeyHeaderAuth : AdvancedCustomRouteAuth :=
  mkAuth (Some (js "header")) (Some (js "x-api-key")) (Some (js "{api_key}")).
Definition geminiQueryAuth : AdvancedCustomRouteAuth :=
  mkAuth (Some (js "query")) (Some (js "key")) (Some (js "{api_key}")).

(** ** Templates *)

Definition native_route (a : AdvancedCustomRouteAuth) (path : jsstr) : AdvancedCustomRoute :=
  mkRoute (Some path) (Some path) (Some native) None (Some a).

Definition createOpenAINativeRoutes : list AdvancedCustomRoute :=
  map (native_route bearerHeaderAuth)
    [js "/v1/chat/completions"; js "/v1/completions"; js "/v1/responses"; js "/v1/responses/compact";
     js "/v1/embeddings"; js "/v1/images/generations"; js "/v1/images/edits"; js "/v1/audio/speech";
     js "/v1/audio/transcriptions"; js "/v1/audio/translations"; js "/v1/realtime"].

Definition createClaudeNativeRoutes : list AdvancedCustomRoute :=
  [native_route apiKeyHeaderAuth (js "/v1/messages")].

Definition createGeminiNativeRoutes : list AdvancedCustomRoute :=
  map (native_route geminiQueryAuth)
    [js "/v1beta/models/{model}:generateContent"; js "/v1beta/models/{model}:embedContent";
     js "/v1beta/models/{model}:batchEmbedContents"].

Definition createGatewayNativeRoutes : list AdvancedCustomRoute :=
  map (native_route bearerHeaderAuth) [js "/v1/alpha/search"; js "/v1/rerank"].

Definition all_protocols : AdvancedCustomTemplateOption :=
  mkTemplate (js "all_protocols") (js "All routes")
    (mkConfig (Some (createOpenAINativeRoutes ++ createClaudeNativeRoutes ++
       createGeminiNativeRoutes ++ createGatewayNativeRoutes))).

Definition ADVANCED_CUSTOM_TEMPLATE_OPTIONS : list AdvancedCustomTemplateOption :=
  [all_protocols;
   mkTemplate (js "openai_only") (js "OpenAI only") (mkConfig (Some createOpenAINativeRoutes));
   mkTemplate (js "claude_only") (js "Claude only") (mkConfig (Some createClaudeNativeRoutes));
   mkTemplate (js "gemini_only") (js "Gemini only") (mkConfig (Some createGeminiNativeRoutes))].

Definition getAdvancedCustomTemplateConfig (templateKey : jsstr) : AdvancedCustomConfig :=
  t_config (default all_protocols
    (List.find (λ option, streq (t_value option) templateKey) ADVANCED_CUSTOM_TEMPLATE_OPTIONS)).

(** ** Normalization *)

Definition getAdvancedCustomRouteUpstreamPath (route : AdvancedCustomRoute) : jsstr :=
  trim (default [] (upstream_path route)).

Definition normalizeAdvancedCustomRouteModels (ms : option (list jsstr)) : list jsstr :=
  match ms with Some l => List.filter truthy (map trim l) | None => [] end.

(** [s || d] for a string that may be [undefined]. *)
Definition or_str (s : option jsstr) (d : jsstr) : jsstr := str_or (default [] s) d.

Definition normalizeAdvancedCustomRoute (route : AdvancedCustomRoute) : AdvancedCustomRoute :=
  mkRoute (Some (or_str (incoming_path route) []))
    (Some (getAdvancedCustomRouteUpstreamPath route))
    (Some (or_str (converter route) native))
    (match normalizeAdvancedCustomRouteModels (models route) with [] => None | ms => Some ms end)
    ((λ a, mkAuth (a_type a) (Some (or_str (a_name a) [])) (Some (or_str (a_value a) []))) <$> auth route).

Definition normalizeAdvancedCustomConfig (config : AdvancedCustomConfig) : AdvancedCustomConfig :=
  mkConfig (Some (match advanced_routes config with
                  | Some routes => map normalizeAdvancedCustomRoute routes
                  | None => []
                  end)).

(** [normalizeAdvancedCustomConfig(config).advanced_routes || []] *)
Definition normalized_routes (config : AdvancedCustomConfig) : list AdvancedCustomRoute :=
  default [] (advanced_routes (normalizeAdvancedCustomConfig config)).

(** [route.incoming_path?.trim() || ''] *)
Definition trimmed_path (route : AdvancedCustomRoute) : jsstr := trim (default [] (incoming_path route)).

(** ** Management and forwarding routes *)

Definition isAdvancedCustomManagementPath (path : jsstr) : bool :=
  streq path ADVANCED_CUSTOM_MODEL_LIST_PATH || streq path ADVANCED_CUSTOM_BALANCE_PATH.

(** [candidate.incoming_path?.trim() === path], which an absent path never satisfies *)
Definition has_path (path : jsstr) (route : AdvancedCustomRoute) : bool :=
  match incoming_path route with Some p => streq (trim p) path | None => false end.

Definition getAdvancedCustomManagementRoute (config : AdvancedCustomConfig) (path : jsstr) :
    option AdvancedCustomRoute :=
  List.find (has_path path) (normalized_routes config).

(** [routes[findIndex(p)] = r], or [routes.push(r)] when there is none *)
Fixpoint set_first (p : AdvancedCustomRoute → bool) (r : AdvancedCustomRoute)
    (routes : list AdvancedCustomRoute) : list AdvancedCustomRoute :=
  match routes with
  | [] => [r]
  | x :: rest => if p x then r :: rest else x :: set_first p r rest
  end.

(** [routes.splice(findIndex(p), 1)], or nothing when there is none *)
Fixpoint remove_first (p : AdvancedCustomRoute → bool) (routes : list AdvancedCustomRoute) :
    list AdvancedCustomRoute :=
  match routes with
  | [] => []
  | x :: rest => if p x then rest else x :: remove_first p rest
  end.

Definition replaceAdvancedCustomManagementRoute (config : AdvancedCustomConfig) (path : jsstr)
    (route : option AdvancedCustomRoute) : AdvancedCustomConfig :=
  let routes := normalized_routes config in
  mkConfig (Some match route with
    | None => remove_first (has_path path) routes
    | Some route =>
        set_first (has_path path)
          (mkRoute (Some path) (Some (or_str (upstream_path route) [])) (Some native) (Some []) (auth route))
          routes
    end).

Definition is_management (route : AdvancedCustomRoute) : bool :=
  isAdvancedCustomManagementPath (trimmed_path route).

(** [findIndex] of a list, [None] for -1 *)
Fixpoint find_index (p : AdvancedCustomRoute → bool) (routes : list AdvancedCustomRoute) : option nat :=
  match routes with
  | [] => None
  | x :: rest => if p x then Some 0 else S <$> find_index p rest
  end.

Definition replaceAdvancedCustomForwardingRoutes (config : AdvancedCustomConfig)
    (forwardingRoutes : list AdvancedCustomRoute) : AdvancedCustomConfig :=
  let routes := normalized_routes config in
  match find_index (λ route, negb (is_management route)) routes with
  | None => mkConfig (Some (List.filter is_management routes ++ forwardingRoutes))
  | Some firstForwardingIndex =>
      let before := List.filter is_management (take firstForwardingIndex routes) in
      let after := List.filter is_management (drop firstForwardingIndex routes) in
      mkConfig (Some (before ++ forwardingRoutes ++ after))
  end.

Definition createAdvancedCustomRoute : AdvancedCustomRoute :=
  mkRoute (Some openAIChatPath) (Some openAIChatPath) (Some native) None None.

Definition createAdvancedCustomConfig : AdvancedCustomConfig :=
  mkConfig (Some [createAdvancedCustomRoute]).

Definition createAdvancedCustomManagementRoute (path : jsstr) : AdvancedCustomRoute :=
  mkRoute (Some path) (Some path) (Some native) (Some []) None.

(** ** Converters *)

Definition isConverterPathAllowed (incomingPath : jsstr) (conv : jsstr) : bool :=
  if streq conv native then true
  else if streq incomingPath (js "/v1/alpha/search") then false
  else if streq conv messages_to_chat then streq incomingPath (js "/v1/messages")
  else if streq conv chat_to_messages || streq conv chat_to_responses || streq conv chat_to_gemini
    then streq incomingPath (js "/v1/chat/completions")
  else if streq conv responses_to_chat then streq incomingPath (js "/v1/responses")
  else if streq conv responses_to_gemini then streq incomingPath (js "/v1/responses")
  else includes (js ":generateContent") incomingPath || includes (js ":streamGenerateContent") incomingPath.

Definition isAdvancedCustomConverter (value : jsstr) : bool :=
  existsb (λ option, streq (c_value option) value) ADVANCED_CUSTOM_CONVERTER_OPTIONS.

Definition getAdvancedCustomIncomingPathOptions (conv : jsstr) : list AdvancedCustomIncomingPathOption :=
  List.filter (λ option, isConverterPathAllowed (p_value option) conv) ADVANCED_CUSTOM_INCOMING_PATH_OPTIONS.

Definition getDefaultAdvancedCustomIncomingPath (conv : jsstr) : jsstr :=
  or_str (p_value <$> head (getAdvancedCustomIncomingPathOptions conv)) (js "/v1/chat/completions").

Definition isAdvancedCustomIncomingPathAllowed (incomingPath conv : jsstr) : bool :=
  isConverterPathAllowed incomingPath conv.

Definition getAdvancedCustomConverterOptions (incomingPath : jsstr) : list ConverterOption :=
  List.filter (λ option, streq (c_value option) native ||
                         isConverterPathAllowed (trim incomingPath) (c_value option))
    ADVANCED_CUSTOM_CONVERTER_OPTIONS.

Definition getAdvancedCustomIncomingPathLabel (value : jsstr) : jsstr :=
  or_str (p_label <$> List.find (λ option, streq (p_value option) value) ADVANCED_CUSTOM_INCOMING_PATH_OPTIONS)
    value.

Definition getAdvancedCustomNativeAuth (incomingPath : jsstr) : AdvancedCustomRouteAuth :=
  if streq incomingPath claudeMessagesPath then apiKeyHeaderAuth
  else if includes (js ":generateContent") incomingPath ||
          includes (js ":streamGenerateContent") incomingPath ||
          includes (js ":embedContent") incomingPath ||
          includes (js ":batchEmbedContents") incomingPath then geminiQueryAuth
  else bearerHeaderAuth.

Definition getAdvancedCustomConverterDefaults (conv incomingPath : jsstr) :
    AdvancedCustomConverterDefaults :=
  let normalizedIncomingPath := str_or (trim incomingPath) (getDefaultAdvancedCustomIncomingPath conv) in
  if streq conv native then
    mkDefaults normalizedIncomingPath (Some (getAdvancedCustomNativeAuth normalizedIncomingPath))
  else if streq conv messages_to_chat || streq conv gemini_to_chat || streq conv responses_to_chat then
    mkDefaults openAIChatPath (Some bearerHeaderAuth)
  else if streq conv chat_to_responses then mkDefaults openAIResponsesPath (Some bearerHeaderAuth)
  else if streq conv chat_to_messages then mkDefaults claudeMessagesPath (Some apiKeyHeaderAuth)
  else if streq conv chat_to_gemini || streq conv responses_to_gemini then
    mkDefaults geminiGenerateContentPath (Some geminiQueryAuth)
  else mkDefaults (str_or normalizedIncomingPath openAIChatPath)
         (Some (getAdvancedCustomNativeAuth normalizedIncomingPath)).

Definition getAdvancedCustomUpstreamPathPlaceholder (conv : jsstr) (incomingPath : option jsstr) : jsstr :=
  d_upstream_path (getAdvancedCustomConverterDefaults conv
    (default (getDefaultAdvancedCustomIncomingPath conv) incomingPath)).

(** ** Authentication modes *)

Definition mode_type (mode : AdvancedCustomAuthMode) : jsstr :=
  match mode with
  | MDefault => js "default" | MNone => js "none" | MHeader => js "header" | MQuery => js "query"
  end.

(** The mode as the string the code compares: a stored type may be any. *)
Definition getAdvancedCustomAuthMode (route : AdvancedCustomRoute) : jsstr :=
  or_str (auth route ≫= a_type) (js "default").

Definition buildAdvancedCustomAuth (mode : AdvancedCustomAuthMode)
    (previousAuth : option AdvancedCustomRouteAuth) : option AdvancedCustomRouteAuth :=
  match mode with
  | MDefault => None
  | MNone => Some (mkAuth (Some (js "none")) None None)
  | MHeader =>
      Some (mkAuth (Some (js "header")) (Some (or_str (previousAuth ≫= a_name) (js "Authorization")))
              (Some (or_str (previousAuth ≫= a_value) (js "Bearer {api_key}"))))
  | MQuery =>
      Some (mkAuth (Some (js "query")) (Some (or_str (previousAuth ≫= a_name) (js "api_key")))
              (Some (or_str (previousAuth ≫= a_value) (js "{api_key}"))))
  end.

Definition validateRouteAuth (a : option AdvancedCustomRouteAuth) : option jsstr :=
  match a with
  | None => None
  | Some a =>
      if bool_decide (a_type a = Some (js "none")) then None
      else if negb (bool_decide (a_type a = Some (js "header"))) &&
              negb (bool_decide (a_type a = Some (js "query"))) then Some (js "Auth type is invalid")
      else if negb (truthy (trim (default [] (a_name a)))) then Some (js "Auth name is required")
      else if negb (truthy (trim (default [] (a_value a)))) then Some (js "Auth value is required")
      else None
  end.

(** ** Model rules *)

Definition parseAdvancedCustomRouteModels (value : jsstr) : list jsstr :=
  new_Set (List.filter truthy (map trim (split_on 44%N value))).

Definition getAdvancedCustomModelRuleKind (modelRule : jsstr) : AdvancedCustomModelRuleKind :=
  if starts_with ADVANCED_CUSTOM_MODEL_REGEX_PREFIX modelRule then regex_rule else exact_rule.

Definition getAdvancedCustomRegexModelPattern (modelRule : jsstr) : jsstr :=
  drop (length ADVANCED_CUSTOM_MODEL_REGEX_PREFIX) modelRule.

Record PathState := mkPathState { catchAllIndex : option nat; path_models : list (jsstr * nat) }.

Definition empty_regex (model : jsstr) : bool :=
  match getAdvancedCustomModelRuleKind model with
  | regex_rule => streq (getAdvancedCustomRegexModelPattern model) []
  | exact_rule => false
  end.

(** The loop over the rules of a route: the rules of the path with those of the route. *)
Fixpoint add_models (index : nat) (rules seenInRoute : list jsstr) (ms : list (jsstr * nat)) :
    AdvancedCustomValidationError + list (jsstr * nat) :=
  match rules with
  | [] => inr ms
  | model :: rest =>
      if empty_regex model then inl (mkError (js "Model regex cannot be empty") (Some index))
      else if set_has seenInRoute model then
        inl (mkError (js "Duplicate model in route models") (Some index))
      else match jm_get model ms with
           | Some _ => inl (mkError (js "Route models must be unique for the same incoming path") (Some index))
           | None => add_models index rest (js_add model seenInRoute) (jm_set model index ms)
           end
  end.

Definition validateAdvancedCustomRouteModels (index : nat) (incomingPath : jsstr) (rules : list jsstr)
    (routeModelsByPath : list (jsstr * PathState)) :
    AdvancedCustomValidationError + list (jsstr * PathState) :=
  let state := default (mkPathState None []) (jm_get incomingPath routeModelsByPath) in
  match rules, catchAllIndex state with
  | [], Some _ =>
      inl (mkError (js "Only one catch-all route is allowed for the same incoming path") (Some index))
  | [], None => inr (jm_set incomingPath (mkPathState (Some index) (path_models state)) routeModelsByPath)
  | _, Some _ =>
      inl (mkError (js "Catch-all route must be last for the same incoming path") (Some index))
  | _, None =>
      match add_models index rules [] (path_models state) with
      | inl e => inl e
      | inr ms => inr (jm_set incomingPath (mkPathState None ms) routeModelsByPath)
      end
  end.

(** ** Validation *)

Section browser.
Context `{B : Browser}.

Definition isFullHttpURLOrAbsolutePath (value : jsstr) : bool :=
  if starts_with (js "/") value then negb (starts_with (js "//") value)
  else match URL value with
       | Some (protocol, host) => truthy host && (streq protocol (js "http:") || streq protocol (js "https:"))
       | None => false
       end.

Record LoopState := mkLoop {
  routeModelsByPath : list (jsstr * PathState);
  modelListRouteIndex : option nat; balanceRouteIndex : option nat }.

(** The checks of a management route, which remember its index. *)
Definition check_management (index : nat) (incomingPath upstreamPath conv : jsstr)
    (routeModels : list jsstr) (st : LoopState) : AdvancedCustomValidationError + LoopState :=
  let isModelListRoute := streq incomingPath ADVANCED_CUSTOM_MODEL_LIST_PATH in
  let existingIndex := if isModelListRoute then modelListRouteIndex st else balanceRouteIndex st in
  let routeLabel := if isModelListRoute then js "OpenAI Models" else js "Balance Query" in
  match existingIndex with
  | Some _ => inl (mkError (js "Only one " ++ routeLabel ++ js " route is allowed") (Some index))
  | None =>
      let st' := if isModelListRoute
                 then mkLoop (routeModelsByPath st) (Some index) (balanceRouteIndex st)
                 else mkLoop (routeModelsByPath st) (modelListRouteIndex st) (Some index) in
      if (0 <? length routeModels) then
        inl (mkError (routeLabel ++ js " route does not support client model rules") (Some index))
      else if negb (streq conv native) then
        inl (mkError (routeLabel ++ js " route must use native forwarding") (Some index))
      else if includes (js "{model}") upstreamPath then
        inl (mkError (routeLabel ++ js " upstream path must not contain {model}") (Some index))
      else inr st'
  end.

(** The body of the loop over the routes. *)
Definition check_route (index : nat) (route : AdvancedCustomRoute) (st : LoopState) :
    AdvancedCustomValidationError + LoopState :=
  let incomingPath := trimmed_path route in
  let upstreamPath := getAdvancedCustomRouteUpstreamPath route in
  let conv := or_str (converter route) native in
  let routeModels := normalizeAdvancedCustomRouteModels (models route) in
  let fail m := inl (mkError m (Some index)) in
  if negb (truthy incomingPath) then fail (js "Incoming path is required")
  else if negb (starts_with (js "/") incomingPath) then fail (js "Incoming path must start with /")
  else if includes (js "?") incomingPath then fail (js "Incoming path must not include query")
  else
    match (if isAdvancedCustomManagementPath incomingPath
           then check_management index incomingPath upstreamPath conv routeModels st
           else inr st) with
    | inl e => inl e
    | inr st1 =>
        match validateAdvancedCustomRouteModels index incomingPath routeModels (routeModelsByPath st1) with
        | inl e => inl e
        | inr byPath =>
            if negb (truthy upstreamPath) then fail (js "Upstream path is required")
            else if negb (isFullHttpURLOrAbsolutePath upstreamPath) then
              fail (js "Upstream path must be a full URL or a path starting with /")
            else if negb (isAdvancedCustomConverter conv) then fail (js "Converter is not registered")
            else if negb (isConverterPathAllowed incomingPath conv) then
              fail (js "Converter does not match incoming path")
            else match validateRouteAuth (auth route) with
                 | Some authError => fail authError
                 | None => inr (mkLoop byPath (modelListRouteIndex st1) (balanceRouteIndex st1))
                 end
        end
    end.

Fixpoint check_routes (index : nat) (routes : list AdvancedCustomRoute) (st : LoopState) :
    option AdvancedCustomValidationError :=
  match routes with
  | [] => None
  | route :: rest =>
      match check_route index route st with
      | inl e => Some e
      | inr st' => check_routes (S index) rest st'
      end
  end.

Definition validateAdvancedCustomConfig (config : option AdvancedCustomConfig) :
    option AdvancedCustomValidationError :=
  match config with
  | None => Some (mkError (js "Advanced custom configuration is required") None)
  | Some config =>
      let routes := normalized_routes config in
      match routes with
      | [] => Some (mkError (js "Advanced custom configuration requires at least one route") None)
      | _ => check_routes 0 routes (mkLoop [] None None)
      end
  end.

Definition hasValidAdvancedCustomModelListRoute (config : option AdvancedCustomConfig) : bool :=
  match config, validateAdvancedCustomConfig config with
  | Some config, None => existsb (has_path ADVANCED_CUSTOM_MODEL_LIST_PATH) (normalized_routes config)
  | _, _ => false
  end.

Definition advancedCustomConfigUsesRelativeUpstreamPath (config : option AdvancedCustomConfig) : bool :=
  match config with
  | None => false
  | Some config =>
      existsb (λ route, starts_with (js "/") (getAdvancedCustomRouteUpstreamPath route))
        (normalized_routes config)
  end.

(** ** Text form *)

Definition parseAdvancedCustomConfig (value : option jsstr) : option AdvancedCustomConfig :=
  if negb (truthy (trim (default [] value))) then None
  else match JSON_parse (default [] value) with
       | Some (JObject config) => Some (normalizeAdvancedCustomConfig config)
       | _ => None
       end.

Definition stringifyAdvancedCustomConfig (config : AdvancedCustomConfig) : jsstr :=
  JSON_stringify (normalizeAdvancedCustomConfig config).

(** A path is not the name of a property every object has (such as constructor): those have
    no slash, and are refused as paths. *)
Definition getAdvancedCustomRouteSummaryLabel (route : AdvancedCustomRoute) : option jsstr :=
  let incomingPath := trimmed_path route in
  if negb (truthy incomingPath) then None
  else Some (or_str (jm_get incomingPath ADVANCED_CUSTOM_ROUTE_SUMMARY_LABELS)
               (getAdvancedCustomIncomingPathLabel incomingPath)).

Record AdvancedCustomStats := mkStats {
  routeCount : nat; valid : bool; routeTypeLabels : list jsstr }.

Definition getAdvancedCustomStats (value : option jsstr) : AdvancedCustomStats :=
  match parseAdvancedCustomConfig value with
  | None => mkStats 0 false []
  | Some config =>
      let routes := normalized_routes config in
      mkStats (length routes)
        (match validateAdvancedCustomConfig (Some (normalizeAdvancedCustomConfig config)) with
         | None => true | Some _ => false end)
        (new_Set (List.filter truthy (omap getAdvancedCustomRouteSummaryLabel routes)))
  end.
End browser.

(** ** What a valid configuration is *)

Definition rules (r : AdvancedCustomRoute) : list jsstr := normalizeAdvancedCustomRouteModels (models r).
Definition conv_of (r : AdvancedCustomRoute) : jsstr := or_str (converter r) native.

Definition auth_ok (a : AdvancedCustomRouteAuth) : Prop :=
  a_type a = Some (js "none") ∨
  ((a_type a = Some (js "header") ∨ a_type a = Some (js "query")) ∧
   trim (default [] (a_name a)) ≠ [] ∧ trim (default [] (a_value a)) ≠ []).

Section validity.
Context `{B : Browser}.

(** What is asked of each route by itself. *)
Record route_ok (r : AdvancedCustomRoute) : Prop := {
  ok_path : ∃ rest, trimmed_path r = js "/" ++ rest;
  ok_query : ¬ (∃ a b, trimmed_path r = a ++ js "?" ++ b);
  ok_management : is_management r = true →
    rules r = [] ∧ conv_of r = native ∧ ¬ (∃ a b, getAdvancedCustomRouteUpstreamPath r = a ++ js "{model}" ++ b);
  ok_rules : NoDup (rules r) ∧ js "re:" ∉ rules r;
  ok_nonempty : getAdvancedCustomRouteUpstreamPath r ≠ [];
  ok_upstream : isFullHttpURLOrAbsolutePath (getAdvancedCustomRouteUpstreamPath r) = true;
  ok_converter : conv_of r ∈ c_value <$> ADVANCED_CUSTOM_CONVERTER_OPTIONS;
  ok_allowed : isConverterPathAllowed (trimmed_path r) (conv_of r) = true;
  ok_auth : ∀ a, auth r = Some a → auth_ok a }.

(** A later route of the same path: the earlier one is limited to some models, and the two
    name different ones. *)
Definition compatible (r r' : AdvancedCustomRoute) : Prop :=
  trimmed_path r = trimmed_path r' → rules r ≠ [] ∧ ∀ m, m ∈ rules r → m ∉ rules r'.

Definition routes_ok (routes : list AdvancedCustomRoute) : Prop :=
  (∀ r, r ∈ routes → route_ok r) ∧
  (∀ i j r r', i < j → routes !! i = Some r → routes !! j = Some r' → compatible r r').

(** ** The loop computes it *)

Lemma empty_regex_spec m : empty_regex m = true ↔ m = js "re:".
Proof.
  unfold empty_regex, getAdvancedCustomModelRuleKind, getAdvancedCustomRegexModelPattern.
  destruct (starts_with ADVANCED_CUSTOM_MODEL_REGEX_PREFIX m) eqn:E.
  - apply starts_with_drop in E. rewrite streq_spec. split; [|by intros ->].
    intros Hd. rewrite Hd, app_nil_r in E. exact E.
  - split; [done|]. intros ->. vm_compute in E. done.
Qed.

Definition rules_fit (rs seen keys : list jsstr) : Prop :=
  NoDup rs ∧ (js "re:" ∉ rs) ∧ (∀ m, m ∈ rs → (m ∉ seen) ∧ (m ∉ keys)).

Lemma add_models_outcome index rs seen ms :
  match add_models index rs seen ms with
  | inr ms' => rules_fit rs seen (jm_keys ms) ∧ ∀ m, m ∈ jm_keys ms' ↔ m ∈ rs ∨ m ∈ jm_keys ms
  | inl e => ¬ rules_fit rs seen (jm_keys ms) ∧ routeIndex e = Some index
  end.
Proof.
  revert seen ms. induction rs as [|m rs IH]; intros seen ms; cbn [add_models].
  { unfold rules_fit. split; [split_and!; [constructor|set_solver..]|set_solver]. }
  destruct (empty_regex m) eqn:Er.
  { apply empty_regex_spec in Er as ->. split; [|done]. intros (_ & Hn & _). apply Hn. left. }
  assert (m ≠ js "re:") as Hre by (intros Hm; apply empty_regex_spec in Hm; congruence).
  destruct (set_has seen m) eqn:Es.
  { apply set_has_spec in Es. split; [|done]. intros (_ & _ & Hn). by destruct (Hn m ltac:(left)). }
  assert (m ∉ seen) as Hs by (intros Hin%set_has_spec; congruence).
  destruct (jm_get m ms) as [i|] eqn:Eg.
  { split; [|done]. intros (_ & _ & Hn). destruct (Hn m ltac:(left)) as [_ Hk]. apply Hk.
    apply jm_get_Some_elem in Eg. apply list_elem_of_fmap. by exists (m, i). }
  apply jm_get_None in Eg.
  specialize (IH (js_add m seen) (jm_set m index ms)).
  assert (rules_fit rs (js_add m seen) (jm_keys (jm_set m index ms)) ↔
          rules_fit (m :: rs) seen (jm_keys ms)) as Hfit.
  { unfold rules_fit. rewrite jm_keys_set, decide_False by done. rewrite NoDup_cons. split.
    - intros (Hnd & Hn & Hf). split_and!; [|done|set_solver|].
      + intros Hin. destruct (Hf m Hin) as [Hf1 _]. apply Hf1, js_add_elem. by left.
      + intros m' [->|Hin]%elem_of_cons; [done|]. destruct (Hf m' Hin) as [Hf1 Hf2].
        rewrite js_add_elem in Hf1. set_solver.
    - intros ([Hm Hnd] & Hn & Hf). split_and!; [done|set_solver|].
      intros m' Hin. rewrite js_add_elem. destruct (Hf m' ltac:(by right)).
      split; [|set_solver]. intros [->|?]; done. }
  destruct (add_models index rs (js_add m seen) (jm_set m index ms)) as [e|ms'].
  - by rewrite <- Hfit.
  - rewrite <- Hfit. destruct IH as [IH1 IH2]. split; [exact IH1|]. intros m'. rewrite IH2.
    rewrite jm_keys_set, decide_False by done. set_solver.
Qed.

Definition path_state (p : jsstr) (m : list (jsstr * PathState)) : PathState :=
  default (mkPathState None []) (jm_get p m).

(** The state of the loop after some routes. *)
Record seen_state (done : list AdvancedCustomRoute) (st : LoopState) : Prop := {
  seen_ok : ∀ r, r ∈ done → route_ok r;
  seen_catch : ∀ p, (∃ i, catchAllIndex (path_state p (routeModelsByPath st)) = Some i) ↔
      ∃ r, r ∈ done ∧ trimmed_path r = p ∧ rules r = [];
  seen_models : ∀ p m, m ∈ jm_keys (path_models (path_state p (routeModelsByPath st))) ↔
      ∃ r, r ∈ done ∧ trimmed_path r = p ∧ m ∈ rules r;
  seen_list : (∃ i, modelListRouteIndex st = Some i) →
      ∃ r, r ∈ done ∧ trimmed_path r = ADVANCED_CUSTOM_MODEL_LIST_PATH;
  seen_balance : (∃ i, balanceRouteIndex st = Some i) →
      ∃ r, r ∈ done ∧ trimmed_path r = ADVANCED_CUSTOM_BALANCE_PATH }.

Definition fits (done : list AdvancedCustomRoute) (r : AdvancedCustomRoute) : Prop :=
  ∀ r', r' ∈ done → compatible r' r.

(** What the loop remembers when it accepts a route. *)
Definition remembers (done : list AdvancedCustomRoute) (r : AdvancedCustomRoute) (st st' : LoopState) : Prop :=
  ((∃ i, modelListRouteIndex st' = Some i) →
     (∃ i, modelListRouteIndex st = Some i) ∨ trimmed_path r = ADVANCED_CUSTOM_MODEL_LIST_PATH) ∧
  ((∃ i, balanceRouteIndex st' = Some i) →
     (∃ i, balanceRouteIndex st = Some i) ∨ trimmed_path r = ADVANCED_CUSTOM_BALANCE_PATH).

Lemma seen_extend done st r st' s' :
  seen_state done st → route_ok r → remembers done r st st' →
  routeModelsByPath st' = jm_set (trimmed_path r) s' (routeModelsByPath st) →
  let s := path_state (trimmed_path r) (routeModelsByPath st) in
  ((∃ i, catchAllIndex s' = Some i) ↔ (∃ i, catchAllIndex s = Some i) ∨ rules r = []) →
  (∀ m, m ∈ jm_keys (path_models s') ↔ m ∈ rules r ∨ m ∈ jm_keys (path_models s)) →
  seen_state (done ++ [r]) st'.
Proof.
  intros [Hok Hc Hm Hl Hb] Hr [Rl Rb] Hby s Hcs Hms.
  assert (∀ p, path_state p (routeModelsByPath st') =
    if decide (trimmed_path r = p) then s' else path_state p (routeModelsByPath st)) as Hps.
  { intros p. unfold path_state. rewrite Hby, jm_get_set. by case_decide. }
  split.
  - intros r' [?|Hin]%elem_of_app; [by apply Hok|]. apply list_elem_of_singleton in Hin as ->. done.
  - intros p. rewrite Hps. case_decide as Hp; [subst p; rewrite Hcs|]; unfold s; rewrite Hc; set_solver.
  - intros p m. rewrite Hps. case_decide as Hp; [subst p; rewrite Hms|]; unfold s; rewrite Hm; set_solver.
  - intros [Hi|Hp]%Rl; [destruct (Hl Hi) as (r' & ? & ?); exists r'|exists r]; set_solver.
  - intros [Hi|Hp]%Rb; [destruct (Hb Hi) as (r' & ? & ?); exists r'|exists r]; set_solver.
Qed.

(** The check of the rules: an error exactly when they do not fit. *)
Lemma route_models_outcome index done st r :
  seen_state done st →
  match validateAdvancedCustomRouteModels index (trimmed_path r) (rules r) (routeModelsByPath st) with
  | inr byPath =>
      (NoDup (rules r) ∧ js "re:" ∉ rules r) ∧ fits done r ∧
      ∀ ml b, route_ok r → remembers done r st (mkLoop byPath ml b) →
        seen_state (done ++ [r]) (mkLoop byPath ml b)
  | inl e => ¬ ((NoDup (rules r) ∧ js "re:" ∉ rules r) ∧ fits done r) ∧ routeIndex e = Some index
  end.
Proof.
  intros Hst. unfold validateAdvancedCustomRouteModels.
  fold (path_state (trimmed_path r) (routeModelsByPath st)).
  set (state := path_state (trimmed_path r) (routeModelsByPath st)).
  pose proof (seen_catch _ _ Hst (trimmed_path r)) as Hc. fold state in Hc.
  pose proof (λ m, seen_models _ _ Hst (trimmed_path r) m) as Hm. fold state in Hm.
  destruct (catchAllIndex state) as [i|] eqn:Ei.
  { destruct (proj1 Hc ltac:(eauto)) as (r' & Hin & Hp & Hn).
    destruct (rules r) eqn:Er; (split; [|done]); intros [_ Hf]; by destruct (Hf r' Hin Hp). }
  destruct (rules r) as [|m0 ms0] eqn:Er.
  - split; [split; [constructor|set_solver]|]. split.
    + intros r' Hin Hp. split; [|rewrite Er; set_solver]. intros Hn.
      destruct (proj2 Hc) as [? [=]]. eauto.
    + intros ml b Hr Hrem. eapply seen_extend; [done..|reflexivity| |].
      * simpl. split; [intros _; by right|eauto].
      * simpl. intros m. fold state. rewrite Er. set_solver.
  - rewrite <- Er. pose proof (add_models_outcome index (rules r) [] (path_models state)) as Ha.
    assert (rules_fit (rules r) [] (jm_keys (path_models state)) ↔
      (NoDup (rules r) ∧ js "re:" ∉ rules r) ∧ fits done r) as Hfit.
    { unfold rules_fit, fits, compatible. split.
      - intros (Hnd & Hre & Hf). split; [done|]. intros r' Hin Hp. split.
        + intros Hn. destruct (proj2 Hc) as [? [=]]. eauto.
        + intros m Hm' Hmr. destruct (Hf m Hmr) as [_ Hk]. apply Hk, Hm. eauto.
      - intros [[Hnd Hre] Hf]. split_and!; [done..|]. intros m Hmr. split; [set_solver|].
        rewrite Hm. intros (r' & Hin & Hp & Hmr'). destruct (Hf r' Hin Hp) as [_ Hd]. by apply (Hd m). }
    destruct (add_models index (rules r) [] (path_models state)) as [e|ms'].
    + by rewrite <- Hfit.
    + destruct Ha as [Ha1 Ha2]. apply Hfit in Ha1 as [[? ?] ?]. split_and!; [done..|].
      intros ml b Hr Hrem. eapply seen_extend; [done..|reflexivity| |exact Ha2].
      simpl. fold state. rewrite Ei. split; [by intros [? ?]|]. intros [[? [=]]|Hn]. congruence.
Qed.

Definition management_ok (r : AdvancedCustomRoute) : Prop :=
  rules r = [] ∧ conv_of r = native ∧
  ¬ (∃ a b, getAdvancedCustomRouteUpstreamPath r = a ++ js "{model}" ++ b).

Lemma seen_management_unfit done st r path :
  seen_state done st → isAdvancedCustomManagementPath path = true → trimmed_path r = path →
  (∃ r', r' ∈ done ∧ trimmed_path r' = path) → ¬ fits done r.
Proof.
  intros Hst Hp Hr (r' & Hin & Hp') Hf. destruct (Hf r' Hin) as [Hn _]; [congruence|]. apply Hn.
  apply (ok_management r'); [by apply (seen_ok _ _ Hst)|]. unfold is_management. by rewrite Hp'.
Qed.

Lemma check_management_outcome index done st r :
  seen_state done st → is_management r = true →
  match check_management index (trimmed_path r) (getAdvancedCustomRouteUpstreamPath r) (conv_of r) (rules r) st with
  | inr st' => management_ok r ∧ routeModelsByPath st' = routeModelsByPath st ∧ remembers done r st st'
  | inl e => ¬ (management_ok r ∧ fits done r) ∧ routeIndex e = Some index
  end.
Proof.
  intros Hst Hmg. unfold check_management.
  set (lst := streq (trimmed_path r) ADVANCED_CUSTOM_MODEL_LIST_PATH).
  destruct (if lst then modelListRouteIndex st else balanceRouteIndex st) as [i|] eqn:Ei.
  { split; [|done]. intros [_ Hf]. revert Hf.
    apply (seen_management_unfit done st r (trimmed_path r)); [done|exact Hmg|done|].
    destruct lst eqn:El; unfold lst in El.
    - apply streq_spec in El. rewrite El. apply (seen_list _ _ Hst). eauto.
    - assert (trimmed_path r = ADVANCED_CUSTOM_BALANCE_PATH) as ->.
      { unfold is_management, isAdvancedCustomManagementPath in Hmg. rewrite El in Hmg.
        by apply streq_spec in Hmg. }
      apply (seen_balance _ _ Hst). eauto. }
  unfold management_ok. destruct (rules r) as [|m ms]; [|split; [intros [[? _] _]; done|done]]. cbn [length Nat.ltb Nat.leb].
  destruct (streq (conv_of r) native) eqn:Ec; cbn [negb];
    [apply streq_spec in Ec|split; [intros [(_ & Hc & _) _]; apply streq_spec in Hc; congruence|done]].
  destruct (includes (js "{model}") (getAdvancedCustomRouteUpstreamPath r)) eqn:Em.
  { apply includes_spec in Em. split; [intros [(_ & _ & Hc) _]; done|done]. }
  split; [split_and!; [done..|]; intros Hc; apply includes_spec in Hc; congruence|].
  unfold remembers. destruct lst eqn:El; unfold lst in El; simpl; (split; [done|]).
  - apply streq_spec in El. rewrite El. split; eauto.
  - split; [eauto|]. intros _. right. unfold is_management, isAdvancedCustomManagementPath in Hmg.
    rewrite El in Hmg. by apply streq_spec in Hmg.
Qed.

Lemma remembers_refl done r st : remembers done r st st.
Proof. split; eauto. Qed.

Lemma auth_outcome a : match validateRouteAuth a with
  | None => ∀ a', a = Some a' → auth_ok a'
  | Some _ => ¬ ∀ a', a = Some a' → auth_ok a'
  end.
Proof.
  destruct a as [a|]; simpl; [|done]. unfold auth_ok.
  destruct (bool_decide_reflect (a_type a = Some (js "none"))) as [Hn|Hn]; [intros ? [= <-]; by left|].
  destruct (bool_decide_reflect (a_type a = Some (js "header"))) as [Hh|Hh];
    destruct (bool_decide_reflect (a_type a = Some (js "query"))) as [Hq|Hq]; cbn [negb andb].
  4: { intros H. destruct (H a eq_refl) as [?|[[?|?] _]]; done. }
  all: destruct (trim (default [] (a_name a))) eqn:En; cbn [truthy negb];
    [intros H; destruct (H a eq_refl) as [?|(_ & ? & _)]; congruence|];
    destruct (trim (default [] (a_value a))) eqn:Ev; cbn [truthy negb];
    [intros H; destruct (H a eq_refl) as [?|(_ & _ & ?)]; congruence|];
    intros ? [= <-]; right; (split; [tauto|]); split; congruence.
Qed.

Lemma converter_spec c :
  isAdvancedCustomConverter c = true ↔ c ∈ c_value <$> ADVANCED_CUSTOM_CONVERTER_OPTIONS.
Proof.
  unfold isAdvancedCustomConverter. rewrite existsb_exists, list_elem_of_fmap. split.
  - intros (o & Hin & Ho%streq_spec). exists o. split; [done|]. by apply list_elem_of_In.
  - intros (o & -> & Hin). exists o. split; [by apply list_elem_of_In|apply streq_refl].
Qed.

(** A rejected route: [check_route] gives its index. *)
Local Ltac refuse := split; [intros [Hok Hf]; destruct Hok; try done; try tauto|reflexivity].

Lemma check_route_outcome index done st r :
  seen_state done st →
  match check_route index r st with
  | inr st' => route_ok r ∧ fits done r ∧ seen_state (done ++ [r]) st'
  | inl e => ¬ (route_ok r ∧ fits done r) ∧ routeIndex e = Some index
  end.
Proof.
  intros Hst. unfold check_route. fold (rules r) (conv_of r) (is_management r).
  destruct (truthy (trimmed_path r)) eqn:Et; cbn [negb].
  2: { apply truthy_false in Et. refuse. destruct ok_path0 as [? Hp]. rewrite Et in Hp. discriminate Hp. }
  destruct (starts_with (js "/") (trimmed_path r)) eqn:Es; cbn [negb].
  2: { refuse. apply starts_with_spec in ok_path0. congruence. }
  apply starts_with_spec in Es.
  destruct (includes (js "?") (trimmed_path r)) eqn:Eq.
  { apply includes_spec in Eq. refuse. }
  assert (match (if is_management r then check_management index (trimmed_path r)
             (getAdvancedCustomRouteUpstreamPath r) (conv_of r) (rules r) st else inr st) with
    | inr st' => (is_management r = true → management_ok r) ∧
        routeModelsByPath st' = routeModelsByPath st ∧ remembers done r st st'
    | inl e => ¬ ((is_management r = true → management_ok r) ∧ fits done r) ∧ routeIndex e = Some index
    end) as Hmg.
  { destruct (is_management r) eqn:Em; [|split_and!; [done..|apply remembers_refl]].
    pose proof (check_management_outcome index done st r Hst Em) as H.
    destruct (check_management _ _ _ _ _ _); naive_solver. }
  destruct (if is_management r then _ else _) as [e|st1].
  { destruct Hmg as [Hn ->]. split; [|done]. intros [Hok Hf]. apply Hn. split; [apply (ok_management r Hok)|done]. }
  destruct Hmg as (Hmg & Hby & Hrem). rewrite Hby.
  pose proof (route_models_outcome index done st r Hst) as Hrm.
  destruct (validateAdvancedCustomRouteModels _ _ _ _) as [e|byPath].
  { destruct Hrm as [Hn ->]. split; [|done]. intros [Hok Hf]. apply Hn. split; [apply (ok_rules r Hok)|done]. }
  destruct Hrm as (Hrules & Hfits & Hext).
  destruct (truthy (getAdvancedCustomRouteUpstreamPath r)) eqn:Eu; cbn [negb].
  2: { apply truthy_false in Eu. refuse. }
  apply truthy_spec in Eu.
  destruct (isFullHttpURLOrAbsolutePath (getAdvancedCustomRouteUpstreamPath r)) eqn:Ef; cbn [negb].
  2: { refuse. congruence. }
  destruct (isAdvancedCustomConverter (conv_of r)) eqn:Ec; cbn [negb].
  2: { refuse. apply converter_spec in ok_converter0. congruence. }
  apply converter_spec in Ec.
  destruct (isConverterPathAllowed (trimmed_path r) (conv_of r)) eqn:Ea; cbn [negb].
  2: { refuse. congruence. }
  pose proof (auth_outcome (auth r)) as Hau. destruct (validateRouteAuth (auth r)).
  { refuse. }
  assert (route_ok r) as Hr.
  { split; [done| |exact Hmg|done..]. intros Hq. apply includes_spec in Hq. congruence. }
  split_and!; [done..|]. apply Hext; [done|]. exact Hrem.
Qed.

(** The routes in their order, each against the ones before it. *)
Definition in_order (done rs : list AdvancedCustomRoute) : Prop :=
  ∀ pre r post, rs = pre ++ r :: post → route_ok r ∧ fits (done ++ pre) r.

Lemma in_order_nil done : in_order done [].
Proof. intros [|] ? ? [=]. Qed.

Lemma in_order_cons done r rs :
  in_order done (r :: rs) ↔ (route_ok r ∧ fits done r) ∧ in_order (done ++ [r]) rs.
Proof.
  unfold in_order. split.
  - intros H. split; [rewrite <- (app_nil_r done); by apply (H [] r rs)|].
    intros pre r' post ->. rewrite <- app_assoc. by apply (H (r :: pre) r' post).
  - intros [H1 H2] [|x pre] r' post; simpl; intros [= <- Hrs]; [by rewrite app_nil_r|].
    replace (done ++ r :: pre) with ((done ++ [r]) ++ pre) by (by rewrite <- app_assoc). by apply (H2 pre r' post).
Qed.

Lemma in_order_ok rs : in_order [] rs ↔ routes_ok rs.
Proof.
  unfold in_order, routes_ok, fits. split.
  - intros H. split.
    + intros r (pre & post & ->)%list_elem_of_split. by apply (H pre r post).
    + intros i j r r' Hij Hi Hj. destruct (H (take j rs) r' (drop (S j) rs)) as [_ Hf].
      { symmetry. by apply take_drop_middle. }
      apply Hf. simpl. apply list_elem_of_lookup. exists i. by rewrite lookup_take_lt.
  - intros [H1 H2] pre r post ->. split; [apply H1; set_solver|]. simpl. intros r' Hin.
    apply list_elem_of_lookup in Hin as [i Hi]. pose proof (lookup_lt_Some _ _ _ Hi).
    apply (H2 i (length pre)); [done|by apply lookup_app_l_Some|by apply list_lookup_middle].
Qed.

Lemma check_routes_outcome rs : ∀ index done st,
  seen_state done st →
  match check_routes index rs st with
  | None => in_order done rs
  | Some e => ∃ k, routeIndex e = Some (index + k) ∧ k < length rs ∧
      in_order done (take k rs) ∧ ¬ in_order done (take (S k) rs)
  end.
Proof.
  induction rs as [|r rs IH]; intros index done st Hst; cbn [check_routes]; [apply in_order_nil|].
  pose proof (check_route_outcome index done st r Hst) as Hr.
  destruct (check_route index r st) as [e|st'].
  - destruct Hr as [Hn ->]. exists 0. rewrite Nat.add_0_r. cbn [take length].
    split_and!; [done|lia|apply in_order_nil|]. rewrite in_order_cons. tauto.
  - destruct Hr as (Hok & Hf & Hst'). specialize (IH (S index) _ _ Hst').
    destruct (check_routes (S index) rs st') as [e|]; [|by rewrite in_order_cons].
    destruct IH as (k & Hi & Hk & H1 & H2). exists (S k). rewrite !firstn_cons, !in_order_cons, Hi.
    cbn [length]. split_and!; [f_equal; lia|lia|done..|tauto].
Qed.

Lemma seen_state_nil : seen_state [] (mkLoop [] None None).
Proof. split; simpl; try set_solver. all: intros [? [=]]. Qed.

End validity.

(** ** Normal forms *)

Lemma or_str_idem s d : or_str (Some (or_str s d)) d = or_str s d.
Proof. unfold or_str, str_or. simpl. destruct s as [[|x s]|]; simpl; try done; by destruct d. Qed.

Lemma rules_idem ms : normalizeAdvancedCustomRouteModels (Some (normalizeAdvancedCustomRouteModels ms)) =
  normalizeAdvancedCustomRouteModels ms.
Proof.
  destruct ms as [l|]; [|done]. simpl. induction l as [|m l IH]; [done|]. simpl.
  destruct (trim m) eqn:E; cbn [truthy]; [done|]. rewrite <- E. cbn [map]. rewrite trim_idemp, E.
  cbn [List.filter truthy]. by rewrite IH.
Qed.

Definition shown_rules (ms : list jsstr) : option (list jsstr) := match ms with [] => None | m :: l => Some (m :: l) end.

Lemma shown_rules_idem ms : shown_rules (normalizeAdvancedCustomRouteModels (shown_rules
  (normalizeAdvancedCustomRouteModels ms))) = shown_rules (normalizeAdvancedCustomRouteModels ms).
Proof.
  rewrite <- (rules_idem ms) at 2. by destruct (normalizeAdvancedCustomRouteModels ms).
Qed.

Lemma normalize_route_idem r :
  normalizeAdvancedCustomRoute (normalizeAdvancedCustomRoute r) = normalizeAdvancedCustomRoute r.
Proof.
  unfold normalizeAdvancedCustomRoute at 1 3. cbn [incoming_path upstream_path converter models auth normalizeAdvancedCustomRoute].
  f_equal.
  - by rewrite or_str_idem.
  - unfold getAdvancedCustomRouteUpstreamPath. simpl. f_equal. apply trim_idemp.
  - by rewrite or_str_idem.
  - exact (shown_rules_idem (models r)).
  - destruct (auth r); [|done]. simpl. by rewrite !or_str_idem.
Qed.

Lemma normalize_routes_idem rs :
  map normalizeAdvancedCustomRoute (map normalizeAdvancedCustomRoute rs) = map normalizeAdvancedCustomRoute rs.
Proof. rewrite map_map. apply map_ext, normalize_route_idem. Qed.

Lemma normalize_config_idem c :
  normalizeAdvancedCustomConfig (normalizeAdvancedCustomConfig c) = normalizeAdvancedCustomConfig c.
Proof.
  unfold normalizeAdvancedCustomConfig. destruct (advanced_routes c); [|done]. simpl. by rewrite normalize_routes_idem.
Qed.

Lemma normalized_fixed c : Forall (λ r, normalizeAdvancedCustomRoute r = r) (normalized_routes c).
Proof.
  unfold normalized_routes, normalizeAdvancedCustomConfig. destruct (advanced_routes c) as [rs|]; simpl; [|done].
  apply Forall_fmap, Forall_true. intros r. apply normalize_route_idem.
Qed.

Lemma trimmed_path_normalize r : trimmed_path (normalizeAdvancedCustomRoute r) = trimmed_path r.
Proof. unfold trimmed_path. simpl. by destruct (incoming_path r) as [[|]|]. Qed.

Lemma has_path_normalized r p : normalizeAdvancedCustomRoute r = r → has_path p r = streq (trimmed_path r) p.
Proof. intros <-. done. Qed.

Lemma map_normalized l : Forall (λ r, normalizeAdvancedCustomRoute r = r) l →
  map normalizeAdvancedCustomRoute l = l.
Proof. induction 1; simpl; congruence. Qed.

(** ** Lists updated at the first match *)

Section first_match.
Context (p : AdvancedCustomRoute → bool).

Lemma find_set_first r l : p r = true → List.find p (set_first p r l) = Some r.
Proof. intros Hr. induction l as [|x l IH]; simpl; [by rewrite Hr|]. destruct (p x) eqn:E; simpl; [by rewrite Hr|by rewrite E]. Qed.

Lemma find_set_first_other q r l : (∀ x, p x = true → q x = false) → q r = false →
  List.find q (set_first p r l) = List.find q l.
Proof.
  intros Hpq Hr. induction l as [|x l IH]; simpl; [by rewrite Hr|].
  destruct (p x) eqn:E; simpl; [by rewrite Hr, (Hpq x E)|by rewrite IH].
Qed.

Lemma find_remove_first_other q l : (∀ x, p x = true → q x = false) →
  List.find q (remove_first p l) = List.find q l.
Proof.
  intros Hpq. induction l as [|x l IH]; simpl; [done|].
  destruct (p x) eqn:E; simpl; [by rewrite (Hpq x E)|by rewrite IH].
Qed.

Lemma filter_set_first_other q r l : (∀ x, p x = true → q x = false) → q r = false →
  List.filter q (set_first p r l) = List.filter q l.
Proof.
  intros Hpq Hr. induction l as [|x l IH]; simpl; [by rewrite Hr|].
  destruct (p x) eqn:E; simpl; [by rewrite Hr, (Hpq x E)|by rewrite IH].
Qed.

Lemma filter_remove_first_other q l : (∀ x, p x = true → q x = false) →
  List.filter q (remove_first p l) = List.filter q l.
Proof.
  intros Hpq. induction l as [|x l IH]; simpl; [done|].
  destruct (p x) eqn:E; simpl; [by rewrite (Hpq x E)|by rewrite IH].
Qed.

Lemma find_remove_first l :
  (∀ i j x y, i < j → l !! i = Some x → l !! j = Some y → p x = true → p y = true → False) →
  List.find p (remove_first p l) = None.
Proof.
  induction l as [|x l IH]; intros Hu; simpl; [done|]. destruct (p x) eqn:E; simpl.
  - destruct (List.find p l) as [y|] eqn:Ef; [exfalso|done]. apply List.find_some in Ef as [Hin Ey].
    apply list_elem_of_In, list_elem_of_lookup in Hin as [j Hj]. by apply (Hu 0 (S j) x y); [lia|..].
  - rewrite E. apply IH. intros i j y z Hij Hi Hj. by apply (Hu (S i) (S j)); [lia|..].
Qed.

Lemma map_set_first r l : Forall (λ x, normalizeAdvancedCustomRoute x = x) l →
  map normalizeAdvancedCustomRoute (set_first p r l) = set_first p (normalizeAdvancedCustomRoute r) l.
Proof.
  induction 1 as [|x l Hx Hl IH]; simpl; [done|]. destruct (p x); simpl; [by rewrite map_normalized|congruence].
Qed.

Lemma map_remove_first l : Forall (λ x, normalizeAdvancedCustomRoute x = x) l →
  map normalizeAdvancedCustomRoute (remove_first p l) = remove_first p l.
Proof.
  induction 1 as [|x l Hx Hl IH]; simpl; [done|]. destruct (p x); simpl; [by apply map_normalized|congruence].
Qed.
End first_match.

(** ** Accepting a configuration *)

Lemma validate_complete `{B : Browser} c :
  normalized_routes c ≠ [] → routes_ok (normalized_routes c) → validateAdvancedCustomConfig (Some c) = None.
Proof.
  intros Hne Hok. unfold validateAdvancedCustomConfig.
  destruct (normalized_routes c) as [|r rs] eqn:E; [done|]. rewrite <- E in *.
  pose proof (check_routes_outcome (normalized_routes c) 0 [] _ seen_state_nil) as H.
  destruct (check_routes 0 (normalized_routes c) _) as [e|]; [exfalso|done].
  destruct H as (k & _ & _ & _ & Hn). apply Hn. apply in_order_ok in Hok. intros pre r' post Ht.
  apply (Hok pre r' (post ++ drop (S k) (normalized_routes c))).
  rewrite <- (take_drop (S k) (normalized_routes c)) at 1. rewrite Ht. by rewrite <- app_assoc.
Qed.

Lemma validate_sound `{B : Browser} c :
  validateAdvancedCustomConfig (Some c) = None → routes_ok (normalized_routes c).
Proof.
  unfold validateAdvancedCustomConfig. destruct (normalized_routes c) as [|r rs] eqn:E; [done|]. rewrite <- E.
  pose proof (check_routes_outcome (normalized_routes c) 0 [] _ seen_state_nil) as H.
  intros Hn. rewrite Hn in H. by apply in_order_ok.
Qed.

(** Of the routes of a management path, a valid configuration has at most one. *)
Lemma management_unique `{B : Browser} rs path i j r r' :
  routes_ok rs → isAdvancedCustomManagementPath path = true → i < j →
  rs !! i = Some r → rs !! j = Some r' → trimmed_path r = path → trimmed_path r' = path → False.
Proof.
  intros [H1 H2] Hp Hij Hi Hj Hr Hr'. destruct (H2 i j r r' Hij Hi Hj) as [Hn _]; [congruence|]. apply Hn.
  apply (ok_management r); [apply H1; by eapply list_elem_of_lookup_2|]. unfold is_management. by rewrite Hr.
Qed.

Lemma replaced_routes c path x :
  normalized_routes (replaceAdvancedCustomManagementRoute c path x) =
  match x with
  | None => remove_first (has_path path) (normalized_routes c)
  | Some r => set_first (has_path path)
      (normalizeAdvancedCustomRoute (mkRoute (Some path) (Some (or_str (upstream_path r) [])) (Some native)
         (Some []) (auth r))) (normalized_routes c)
  end.
Proof.
  unfold replaceAdvancedCustomManagementRoute, normalized_routes at 1, normalizeAdvancedCustomConfig at 1.
  cbn [advanced_routes from_option id].
  destruct x; [apply map_set_first|apply map_remove_first]; apply normalized_fixed.
Qed.

Lemma filter_map_normalize f rs : (∀ r, f (normalizeAdvancedCustomRoute r) = f r) →
  List.filter f (map normalizeAdvancedCustomRoute rs) = map normalizeAdvancedCustomRoute (List.filter f rs).
Proof. intros Hf. induction rs as [|r rs IH]; simpl; [done|]. rewrite Hf. destruct (f r); simpl; congruence. Qed.

Lemma is_management_normalize r : is_management (normalizeAdvancedCustomRoute r) = is_management r.
Proof. unfold is_management. by rewrite trimmed_path_normalize. Qed.

Lemma find_index_take p l i : find_index p l = Some i → Forall (λ x, p x = false) (take i l).
Proof.
  revert i. induction l as [|x l IH]; intros i; simpl; [done|]. destruct (p x) eqn:E; [intros [= <-]; constructor|].
  destruct (find_index p l) as [k|]; [|done]. simpl. intros [= <-]. simpl. constructor; [done|]. by apply IH.
Qed.

Lemma filter_split (f : AdvancedCustomRoute → bool) i l :
  List.filter f l = List.filter f (take i l) ++ List.filter f (drop i l).
Proof. rewrite <- List.filter_app. by rewrite take_drop. Qed.

Lemma filter_keeps (f : AdvancedCustomRoute → bool) l : Forall (λ r, f r = true) l → List.filter f l = l.
Proof. induction 1 as [|x l Hx _ IH]; simpl; [done|]. by rewrite Hx, IH. Qed.

Lemma filter_drops (f : AdvancedCustomRoute → bool) l : Forall (λ r, f r = false) l → List.filter f l = [].
Proof. induction 1 as [|x l Hx _ IH]; simpl; [done|]. by rewrite Hx, IH. Qed.

Lemma filter_negb (f : AdvancedCustomRoute → bool) l :
  List.filter (λ r, negb (f r)) (List.filter f l) = [] ∧ List.filter f (List.filter f l) = List.filter f l.
Proof.
  induction l as [|x l [IH1 IH2]]; simpl; [done|]. destruct (f x) eqn:E; simpl; [|done].
  rewrite E. simpl. by rewrite IH2.
Qed.

(** Replacing the forwarding routes keeps the management routes, and the other way round. *)
Lemma forwarding_routes c fs : Forall (λ r, is_management r = false) fs →
  let rs := default [] (advanced_routes (replaceAdvancedCustomForwardingRoutes c fs)) in
  List.filter is_management rs = List.filter is_management (normalized_routes c) ∧
  List.filter (λ r, negb (is_management r)) rs = fs.
Proof.
  intros Hfs. assert (Forall (λ r, negb (is_management r) = true) fs) as Hfs'
    by (eapply Forall_impl; [exact Hfs|]; simpl; by intros ? ->).
  cbv zeta. unfold replaceAdvancedCustomForwardingRoutes. set (l := normalized_routes c).
  destruct (find_index (λ route, negb (is_management route)) l) as [i|]; cbn [advanced_routes from_option id];
    rewrite !List.filter_app, (filter_drops is_management fs), (filter_keeps _ fs) by done.
  - rewrite !(proj1 (filter_negb is_management _)), !(proj2 (filter_negb is_management _)).
    rewrite app_nil_r. simpl. by rewrite <- filter_split.
  - rewrite !(proj1 (filter_negb is_management _)), !(proj2 (filter_negb is_management _)). by rewrite app_nil_r.
Qed.

(** ** Routes the editor offers *)

Lemma offered_auth_ok a : a = bearerHeaderAuth ∨ a = apiKeyHeaderAuth ∨ a = geminiQueryAuth → auth_ok a.
Proof. intros [-> | [-> | ->]]; right; (split; [auto|split; vm_compute; discriminate]). Qed.

Lemma native_auth_offered p : let a := getAdvancedCustomNativeAuth p in
  a = bearerHeaderAuth ∨ a = apiKeyHeaderAuth ∨ a = geminiQueryAuth.
Proof. unfold getAdvancedCustomNativeAuth. cbv zeta. destruct (streq _ _); [auto|]. destruct (_ || _); auto. Qed.

Lemma normalize_auth_ok a : auth_ok a →
  auth_ok (mkAuth (a_type a) (Some (or_str (a_name a) [])) (Some (or_str (a_value a) []))).
Proof.
  intros [Ht|(Ht & Hn & Hv)]; [by left|right]. simpl. split; [done|].
  unfold or_str, str_or. destruct (a_name a) as [[|]|], (a_value a) as [[|]|]; done.
Qed.

(** A path the editor can be given: trimmed, absolute and without a query. *)
Record good_path (p : jsstr) : Prop := {
  good_trim : trim p = p;
  good_abs : starts_with (js "/") p = true;
  good_host : starts_with (js "//") p = false;
  good_query : includes (js "?") p = false }.

Lemma good_full `{B : Browser} p : good_path p → isFullHttpURLOrAbsolutePath p = true.
Proof. intros [_ H1 H2 _]. unfold isFullHttpURLOrAbsolutePath. by rewrite H1, H2. Qed.

(** A route without rules, between good paths. *)
Lemma plain_route_ok `{B : Browser} p up conv ms a :
  good_path p → good_path up → conv ∈ c_value <$> ADVANCED_CUSTOM_CONVERTER_OPTIONS →
  isConverterPathAllowed p conv = true → (∀ a', a = Some a' → auth_ok a') →
  (isAdvancedCustomManagementPath p = true → conv = native ∧ includes (js "{model}") up = false) →
  normalizeAdvancedCustomRouteModels ms = [] →
  route_ok (normalizeAdvancedCustomRoute (mkRoute (Some p) (Some up) (Some conv) ms a)).
Proof.
  intros Hp Hup Hc Ha Hau Hmg Hms. set (r := normalizeAdvancedCustomRoute _).
  assert (trimmed_path r = p) as Htp by (unfold r; rewrite trimmed_path_normalize; apply (good_trim _ Hp)).
  assert (getAdvancedCustomRouteUpstreamPath r = up) as Hu.
  { unfold r, getAdvancedCustomRouteUpstreamPath. simpl. unfold getAdvancedCustomRouteUpstreamPath. simpl.
    by rewrite trim_idemp, (good_trim _ Hup). }
  assert (conv_of r = conv) as Hcv.
  { unfold r, conv_of. simpl. rewrite or_str_idem. unfold or_str, str_or. simpl.
    destruct conv; [|done]. apply list_elem_of_In in Hc. vm_compute in Hc.
    repeat (destruct Hc as [Hc|Hc]; [discriminate|]). destruct Hc. }
  assert (rules r = []) as Hr by (unfold r, rules; simpl; by rewrite Hms).
  split; rewrite ?Htp, ?Hu, ?Hcv, ?Hr.
  - by apply starts_with_spec, (good_abs _ Hp).
  - intros Hq. apply includes_spec in Hq. rewrite (good_query _ Hp) in Hq. done.
  - intros Hm. unfold is_management in Hm. rewrite Htp in Hm. destruct (Hmg Hm) as [? Hi]. split_and!; [done..|].
    intros Hb. apply includes_spec in Hb. congruence.
  - split; [constructor|set_solver].
  - intros Hn. pose proof (good_abs _ Hup) as H. rewrite Hn in H. done.
  - by apply good_full.
  - done.
  - done.
  - unfold r. cbn [auth normalizeAdvancedCustomRoute]. intros a' Hr'. destruct a as [a|]; [|done]. simpl in Hr'.
    injection Hr' as <-. by apply normalize_auth_ok, Hau.
Qed.

Lemma offered_paths_good : Forall good_path
  [openAIChatPath; openAIResponsesPath; claudeMessagesPath; geminiGenerateContentPath;
   ADVANCED_CUSTOM_MODEL_LIST_PATH; ADVANCED_CUSTOM_BALANCE_PATH].
Proof. repeat constructor; vm_compute; reflexivity. Qed.

Lemma good_of p : p ∈ [openAIChatPath; openAIResponsesPath; claudeMessagesPath; geminiGenerateContentPath;
   ADVANCED_CUSTOM_MODEL_LIST_PATH; ADVANCED_CUSTOM_BALANCE_PATH] → good_path p.
Proof. apply Forall_forall, offered_paths_good. Qed.

Lemma management_not_converted p conv : isAdvancedCustomManagementPath p = true →
  isConverterPathAllowed p conv = true → conv = native.
Proof.
  intros Hm Ha. destruct (streq conv native) eqn:E; [by apply streq_spec|]. exfalso.
  unfold isConverterPathAllowed in Ha. rewrite E in Ha.
  assert (p = ADVANCED_CUSTOM_MODEL_LIST_PATH ∨ p = ADVANCED_CUSTOM_BALANCE_PATH) as Hp.
  { apply orb_true_iff in Hm as [Hm|Hm]; apply streq_spec in Hm; auto. }
  revert Ha. destruct Hp as [-> | ->]; repeat (destruct (streq conv _); [vm_compute; discriminate|]); vm_compute; discriminate.
Qed.

(** The defaults of a converter: a good upstream path and an offered authentication. *)
Lemma defaults_good conv p : good_path p → conv ∈ c_value <$> ADVANCED_CUSTOM_CONVERTER_OPTIONS →
  let d := getAdvancedCustomConverterDefaults conv p in
  good_path (d_upstream_path d) ∧ (conv = native → d_upstream_path d = p) ∧
  ∀ a, d_auth d = Some a → auth_ok a.
Proof.
  intros Hp Hc. unfold getAdvancedCustomConverterDefaults. rewrite (good_trim _ Hp). cbv zeta.
  replace (str_or p (getDefaultAdvancedCustomIncomingPath conv)) with p
    by (pose proof (good_abs _ Hp); by destruct p).
  destruct (streq conv native) eqn:En.
  { simpl. split_and!; [done..|]. intros a [= <-]. apply offered_auth_ok, native_auth_offered. }
  assert (conv ≠ native) as Hn by (intros ->; by rewrite streq_refl in En).
  apply list_elem_of_In in Hc. simpl in Hc.
  destruct Hc as [Hc|Hc]; [congruence|].
  repeat (destruct Hc as [Hc|Hc]; [subst conv;
    (split; [apply good_of; vm_compute; set_solver|split; [done|intros a [= <-]; apply offered_auth_ok; vm_compute; auto]])|]).
  destruct Hc.
Qed.

Lemma management_plain path : isAdvancedCustomManagementPath path = true → includes (js "{model}") path = false.
Proof. intros [Hm|Hm]%orb_true_iff; apply streq_spec in Hm as ->; vm_compute; reflexivity. Qed.

Lemma offered_converter conv path : good_path path → conv ∈ c_value <$> getAdvancedCustomConverterOptions path →
  conv ∈ c_value <$> ADVANCED_CUSTOM_CONVERTER_OPTIONS ∧ isConverterPathAllowed path conv = true.
Proof.
  intros Hp (o & -> & Ho)%list_elem_of_fmap. unfold getAdvancedCustomConverterOptions in Ho.
  apply list_elem_of_In, List.filter_In in Ho as [Hin Ho]. rewrite (good_trim _ Hp) in Ho.
  split; [apply list_elem_of_fmap; exists o; split; [done|by apply list_elem_of_In]|].
  apply orb_true_iff in Ho as [Ho|Ho]; [|done]. unfold isConverterPathAllowed. by rewrite Ho.
Qed.

Lemma routes_ok_single `{B : Browser} r : route_ok r → routes_ok [r].
Proof.
  intros Hr. apply in_order_ok, in_order_cons. split; [|apply in_order_nil]. split; [done|]. intros r' Hin. set_solver.
Qed.

Lemma routes_ok_snoc `{B : Browser} rs r : routes_ok rs → route_ok r → fits rs r → routes_ok (rs ++ [r]).
Proof.
  intros [H1 H2] Hr Hf. split.
  - intros r' [?|?%list_elem_of_singleton]%elem_of_app; [by apply H1|by subst].
  - intros i j x y Hij Hi Hj. apply lookup_app_Some in Hj as [Hj|[Hj1 Hj2]].
    + apply (H2 i j); [done| |done]. rewrite lookup_app_l in Hi; [done|]. apply lookup_lt_Some in Hj. lia.
    + destruct (j - length rs) as [|k] eqn:Ek; [|done]. injection Hj2 as <-. apply Hf.
      rewrite lookup_app_l in Hi by lia. by eapply list_elem_of_lookup_2.
Qed.

Lemma set_first_absent p r l : List.find p l = None → set_first p r l = l ++ [r].
Proof. induction l as [|x l IH]; simpl; [done|]. destruct (p x); [done|]. intros H. by rewrite IH. Qed.

Lemma or_str_good path : good_path path → or_str (Some path) [] = path.
Proof. intros Hp. unfold or_str, str_or. simpl. by destruct path. Qed.

(** ** Properties *)

(** [C33] Validation is exact: a configuration is accepted exactly when it has a route, each of
    its routes is well formed by itself (path, management restrictions, model rules, upstream,
    converter and authentication), and among routes of one path every route but the last is
    limited to models that no other of them names. Otherwise the error is about the missing
    routes, or names the first route with which the configuration stops being acceptable. *)
Theorem advanced_custom_validation_exact `{B : Browser} (c : AdvancedCustomConfig) :
  let routes := normalized_routes c in
  match validateAdvancedCustomConfig (Some c) with
  | None => routes ≠ [] ∧ routes_ok routes
  | Some e =>
      (routes = [] ∧ routeIndex e = None) ∨
      ∃ k, routeIndex e = Some k ∧ k < length routes ∧
        routes_ok (take k routes) ∧ ¬ routes_ok (take (S k) routes)
  end.
Proof.
  intros routes. unfold validateAdvancedCustomConfig. fold routes.
  destruct routes as [|r rs] eqn:E; [by left|]. rewrite <- E.
  pose proof (check_routes_outcome routes 0 [] _ seen_state_nil) as H.
  destruct (check_routes 0 routes _) as [e|].
  - right. destruct H as (k & H1 & H2 & H3 & H4). exists k. by rewrite <- !in_order_ok.
  - split; [congruence|]. by apply in_order_ok.
Qed.

(** Every configuration the editor offers is valid: the templates, a new configuration, a
    route with the defaults of its converter for every path the converter is offered for, and a
    valid configuration to which a management route it lacks is added. *)
Theorem offered_configurations_valid `{B : Browser} :
  (∀ key, validateAdvancedCustomConfig (Some (getAdvancedCustomTemplateConfig key)) = None) ∧
  validateAdvancedCustomConfig (Some createAdvancedCustomConfig) = None ∧
  (∀ conv path, good_path path → conv ∈ c_value <$> getAdvancedCustomConverterOptions path →
     let d := getAdvancedCustomConverterDefaults conv path in
     validateAdvancedCustomConfig (Some (mkConfig (Some
       [mkRoute (Some path) (Some (d_upstream_path d)) (Some conv) None (d_auth d)]))) = None) ∧
  (∀ c path, validateAdvancedCustomConfig (Some c) = None → isAdvancedCustomManagementPath path = true →
     getAdvancedCustomManagementRoute c path = None →
     validateAdvancedCustomConfig (Some (replaceAdvancedCustomManagementRoute c path
       (Some (createAdvancedCustomManagementRoute path)))) = None).
Proof.
  split_and!.
  - intros key. unfold getAdvancedCustomTemplateConfig.
    assert (∀ t, t ∈ ADVANCED_CUSTOM_TEMPLATE_OPTIONS → validateAdvancedCustomConfig (Some (t_config t)) = None) as H.
    { apply Forall_forall. repeat constructor. }
    destruct (List.find _ _) as [t|] eqn:E; [|apply H; left]. apply H, list_elem_of_In.
    by apply List.find_some in E as [? _].
  - reflexivity.
  - intros conv path Hp Hc. apply offered_converter in Hc as [Hc Ha]; [|done].
    destruct (defaults_good conv path Hp Hc) as (Hup & Hnat & Hau).
    apply validate_complete; [done|]. apply routes_ok_single.
    apply plain_route_ok; try done. intros Hm. pose proof (management_not_converted path conv Hm Ha) as Hn.
    split; [done|]. rewrite (Hnat Hn). by apply management_plain.
  - intros c path Hv Hm Hnone. apply validate_complete.
    { rewrite replaced_routes. by destruct (normalized_routes c) as [|x l]; simpl; [|destruct (has_path path x)]. }
    rewrite replaced_routes, set_first_absent by exact Hnone.
    cbn [upstream_path auth createAdvancedCustomManagementRoute].
    assert (good_path path) as Hg.
    { apply good_of. apply orb_true_iff in Hm as [Hm|Hm]; apply streq_spec in Hm as ->; set_solver. }
    rewrite or_str_good by done. apply routes_ok_snoc; [by apply validate_sound| |].
    + apply plain_route_ok; try done; [left|]. intros _. split; [done|]. by apply management_plain.
    + intros r Hr Hp. exfalso. rewrite trimmed_path_normalize in Hp.
      assert (has_path path r = true) as Hh.
      { rewrite has_path_normalized by (by eapply Forall_forall in Hr; [|apply normalized_fixed]).
        rewrite Hp. apply streq_spec, (good_trim _ Hg). }
      apply list_elem_of_In in Hr. pose proof (List.find_none _ _ Hnone r Hr). congruence.
Qed.

(** Management and forwarding routes are edited independently: setting the route of a
    path makes it the route that is read back and leaves the routes read for other paths;
    removing it from a valid configuration leaves none; both keep the forwarding routes, and
    replacing the forwarding routes keeps the management routes. *)
Theorem route_edits_independent `{B : Browser} (c : AdvancedCustomConfig) (path : jsstr) :
  isAdvancedCustomManagementPath path = true →
  (∀ r, getAdvancedCustomManagementRoute (replaceAdvancedCustomManagementRoute c path (Some r)) path =
     Some (normalizeAdvancedCustomRoute
       (mkRoute (Some path) (upstream_path r) (Some native) None (auth r)))) ∧
  (validateAdvancedCustomConfig (Some c) = None →
     getAdvancedCustomManagementRoute (replaceAdvancedCustomManagementRoute c path None) path = None) ∧
  (∀ x q, q ≠ path → getAdvancedCustomManagementRoute (replaceAdvancedCustomManagementRoute c path x) q =
     getAdvancedCustomManagementRoute c q) ∧
  (∀ x, List.filter (λ r, negb (is_management r)) (normalized_routes (replaceAdvancedCustomManagementRoute c path x)) =
     List.filter (λ r, negb (is_management r)) (normalized_routes c)) ∧
  (∀ fs, Forall (λ r, is_management r = false) fs →
     let rs := default [] (advanced_routes (replaceAdvancedCustomForwardingRoutes c fs)) in
     List.filter is_management rs = List.filter is_management (normalized_routes c) ∧
     List.filter (λ r, negb (is_management r)) rs = fs).
Proof.
  intros Hm. assert (good_path path) as Hg.
  { apply good_of. apply orb_true_iff in Hm as [Hm|Hm]; apply streq_spec in Hm as ->; set_solver. }
  assert (∀ up a, let r := mkRoute (Some path) up (Some native) (Some []) a in
    trimmed_path (normalizeAdvancedCustomRoute r) = path) as Htp
    by (intros; rewrite trimmed_path_normalize; apply (good_trim _ Hg)).
  assert (∀ x, has_path path x = true → trimmed_path x = path) as Hhp.
  { intros x. unfold has_path, trimmed_path. destruct (incoming_path x); [|done]. by intros ?%streq_spec. }
  split_and!.
  - intros r. unfold getAdvancedCustomManagementRoute. rewrite replaced_routes, find_set_first.
    + unfold normalizeAdvancedCustomRoute, getAdvancedCustomRouteUpstreamPath. simpl.
      by destruct (upstream_path r) as [[|]|].
    + rewrite has_path_normalized by apply normalize_route_idem. apply streq_spec, Htp.
  - intros Hv. unfold getAdvancedCustomManagementRoute. rewrite replaced_routes. apply find_remove_first.
    intros i j x y Hij Hi Hj Hx Hy. apply validate_sound in Hv.
    by eapply (management_unique (normalized_routes c) path i j x y); auto.
  - intros x q Hq. unfold getAdvancedCustomManagementRoute. rewrite replaced_routes.
    assert (∀ y, has_path path y = true → has_path q y = false) as Hex.
    { intros y Hy. pose proof (Hhp y Hy). unfold has_path, trimmed_path in *. destruct (incoming_path y) as [py|]; [|done].
      destruct (streq (trim py) q) eqn:E; [|done]. apply streq_spec in E. simpl in *. congruence. }
    destruct x as [r|]; [apply find_set_first_other|apply find_remove_first_other]; [done| |done].
    apply Hex. rewrite has_path_normalized by apply normalize_route_idem. apply streq_spec, Htp.
  - intros x. rewrite replaced_routes.
    assert (∀ y, has_path path y = true → negb (is_management y) = false) as Hex
      by (intros y Hy; unfold is_management; by rewrite (Hhp y Hy), Hm).
    destruct x as [r|]; [apply filter_set_first_other|apply filter_remove_first_other]; [done| |done].
    unfold is_management. by rewrite Htp, Hm.
  - intros fs. apply forwarding_routes.
Qed.

(** Round trip: writing a configuration and reading it back gives its normal form, which
    is validated as the configuration itself and written as the same text. *)
Theorem advanced_custom_roundtrip `{B : Browser} `{!BrowserLaws B} (c : AdvancedCustomConfig) :
  let text := stringifyAdvancedCustomConfig c in
  parseAdvancedCustomConfig (Some text) = Some (normalizeAdvancedCustomConfig c) ∧
  validateAdvancedCustomConfig (parseAdvancedCustomConfig (Some text)) = validateAdvancedCustomConfig (Some c) ∧
  stringifyAdvancedCustomConfig <$> parseAdvancedCustomConfig (Some text) = Some text.
Proof.
  intros text. assert (parseAdvancedCustomConfig (Some text) = Some (normalizeAdvancedCustomConfig c)) as Hp.
  { unfold parseAdvancedCustomConfig, text, stringifyAdvancedCustomConfig. simpl.
    assert (truthy (trim (JSON_stringify (normalizeAdvancedCustomConfig c))) = true) as ->
      by apply truthy_spec, stringify_nonblank.
    simpl. rewrite parse_stringify. by rewrite normalize_config_idem. }
  rewrite Hp. split_and!; [done| |].
  - unfold validateAdvancedCustomConfig, normalized_routes. by rewrite normalize_config_idem.
  - simpl. unfold stringifyAdvancedCustomConfig. by rewrite normalize_config_idem.
Qed.

(** ** A browser *)

(** Texts are encodings of the configuration behind a brace. *)
Definition auth_tuple (a : AdvancedCustomRouteAuth) : option jsstr * option jsstr * option jsstr :=
  (a_type a, a_name a, a_value a).

Definition config_tuple (c : AdvancedCustomConfig) :
    option (list (option jsstr * option jsstr * option jsstr * option (list jsstr) *
      option (option jsstr * option jsstr * option jsstr))) :=
  map (λ r, (incoming_path r, upstream_path r, converter r, models r, auth_tuple <$> auth r)) <$> advanced_routes c.

Definition tuple_config (t : option (list (option jsstr * option jsstr * option jsstr * option (list jsstr) *
      option (option jsstr * option jsstr * option jsstr)))) : AdvancedCustomConfig :=
  mkConfig (map (λ '(p, u, c, m, a), mkRoute p u c m ((λ '(x, y, z), mkAuth x y z) <$> a)) <$> t).

Lemma tuple_config_tuple c : tuple_config (config_tuple c) = c.
Proof.
  destruct c as [[rs|]]; [|done]. unfold tuple_config, config_tuple. simpl. do 2 f_equal. rewrite map_map.
  rewrite <- (map_id rs) at 2. apply map_ext. by intros [p u c m [[x y z]|]].
Qed.

#[export] Instance sample_browser : Browser := {|
  JSON_stringify c := [123; Npos (encode (config_tuple c))]%N;
  JSON_parse s := match s with
                  | [123; Npos p]%N => (λ t, JObject (tuple_config t)) <$> decode p
                  | _ => None
                  end;
  URL s := if starts_with (js "https://") s then Some (js "https:", drop 8 s) else None |}.

#[export] Instance sample_browser_laws : BrowserLaws sample_browser.
Proof.
  split; intros c; cbn [JSON_stringify JSON_parse sample_browser].
  - rewrite decode_encode. simpl. by rewrite tuple_config_tuple.
  - destruct (trim_end_head 123%N [Npos (encode (config_tuple c))] eq_refl) as [r Hr]. unfold trim.
    change (trim_start [123; Npos (encode (config_tuple c))]%N) with [123; Npos (encode (config_tuple c))]%N.
    by rewrite Hr.
Qed.

Lemma route_edits_independent_witness :
  getAdvancedCustomManagementRoute (replaceAdvancedCustomManagementRoute createAdvancedCustomConfig
    ADVANCED_CUSTOM_BALANCE_PATH None) ADVANCED_CUSTOM_BALANCE_PATH = None.
Proof.
  destruct (route_edits_independent createAdvancedCustomConfig ADVANCED_CUSTOM_BALANCE_PATH) as (_ & H & _);
    [reflexivity|]. apply H. vm_compute. reflexivity.
Defined.

Lemma advanced_custom_roundtrip_witness :
  parseAdvancedCustomConfig (Some (stringifyAdvancedCustomConfig createAdvancedCustomConfig)) =
  Some createAdvancedCustomConfig.
Proof. apply (advanced_custom_roundtrip createAdvancedCustomConfig). Defined.

End AdvancedCustom.
