(* ===== verification/PendingOperation.v ===== *)
(** * Pending operations on a key's credential
      (web/src/features/keys/credential-rotation-pending-operation.ts,
      credential-maintenance-pending-operation.ts, web/src/lib/operation-id.ts)

    Rotating the secret of a key, or maintaining it, must not be repeated when the answer of
    the server was lost: the id of the operation is kept in the session storage of the tab,
    for each actor and key, until the operation is known to be over. The two files are the
    same code with another storage prefix and other messages, so the operations take the
    [Kind]. The storage and JSON of the browser are parameters: a call of the storage may
    throw or be ignored, which the code checks. *)
From S2P Require Import Prelude JsString JsMap JsValue.
Local Open Scope Z_scope.

Module PendingOperation.

(** ** The browser *)

Class WebStorage (St : Type) := {
  getItem : St → jsstr → option jsstr;
  (** [None]: the call throws *)
  setItem : St → jsstr → jsstr → option St;
  removeItem : St → jsstr → St;
  JSON_parse : jsstr → option value;
  JSON_stringify : value → jsstr }.

(** The record that is stored. *)
Definition pending_record (actorId tokenId : jsnum) (operationId : jsstr) : value :=
  Obj [(js "version", Num (num_of_Z 1)); (js "actor_id", Num actorId); (js "token_id", Num tokenId);
       (js "operation_id", Str operationId)].

(** A write or a removal concerns its key only, and takes effect or does nothing; a
    record that was written is read back. *)
Class WebStorageLaws (St : Type) `{!WebStorage St} : Prop := {
  set_frame : ∀ st st' k v k', setItem st k v = Some st' → k' ≠ k → getItem st' k' = getItem st k';
  set_effect : ∀ st st' k v, setItem st k v = Some st' → getItem st' k = Some v ∨ getItem st' k = getItem st k;
  remove_frame : ∀ st k k', k' ≠ k → getItem (removeItem st k) k' = getItem st k';
  remove_effect : ∀ st k, getItem (removeItem st k) k = None ∨ getItem (removeItem st k) k = getItem st k;
  parse_stringify : ∀ a t id, let record := pending_record (num_of_Z a) (num_of_Z t) id in
    JSON_parse (JSON_stringify record) = Some record }.

(** What a call throws: an error of the code with its message, or one of the browser. *)
Inductive failure := Error (message : jsstr) | SyntaxError | StorageError.

(** ** Identifiers of operations *)

Definition hex_digit (n : N) : N := if (n <? 10)%N then (48 + n)%N else (87 + n)%N.

(** [value.toString(16).padStart(2, '0')] of a byte *)
Definition byte_hex (b : N) : jsstr :=
  (if (b <? 16)%N then [48%N] else [hex_digit (b / 16)]) ++ [hex_digit (b mod 16)].

(** The bytes are the random ones of the browser. *)
Definition createOperationId (bytes : list N) : jsstr := mjoin (byte_hex <$> bytes).

Definition is_hex (c : N) : bool := ((48 <=? c) && (c <=? 57) || (97 <=? c) && (c <=? 102))%N.

Definition operationIdPattern (s : jsstr) : bool := (length s =? 64)%nat && forallb is_hex s.

(** ** Pending operations *)

Inductive Kind := Rotation | Maintenance.

#[export] Instance Kind_eq_dec : EqDecision Kind.
Proof. solve_decision. Defined.

Definition STORAGE_PREFIX (k : Kind) : jsstr :=
  match k with
  | Rotation => js "myapi.credential-rotation.pending.v1"
  | Maintenance => js "myapi.credential-maintenance.pending.v1"
  end.

(** The messages, in the words of the kind. *)
Definition subject (k : Kind) : jsstr :=
  match k with Rotation => js "credential rotation" | Maintenance => js "credential maintenance" end.
Definition operation (k : Kind) : jsstr :=
  match k with Rotation => js "credential rotation" | Maintenance => js "credential maintenance operation" end.

Definition invalid_pending (k : Kind) : failure := Error (js "Invalid pending " ++ operation k).

(** A positive safe integer. *)
Definition positive_id (n : jsnum) : option Z :=
  match as_integer n with
  | Some z => if isSafeInteger n && (0 <? z) then Some z else None
  | None => None
  end.

Definition storageKey (k : Kind) (actorId tokenId : jsnum) : result failure jsstr :=
  match positive_id actorId with
  | None => Throw (Error (js "Invalid " ++ subject k ++ js " actor"))
  | Some a =>
      match positive_id tokenId with
      | None => Throw (Error (js "Invalid " ++ subject k ++ js " token"))
      | Some t => Ok (STORAGE_PREFIX k ++ js "." ++ show_Z a ++ js "." ++ show_Z t)
      end
  end.

Definition is_num (v : value) (n : jsnum) : bool := match v with Num m => num_eqb m n | _ => false end.

(** The checks of a stored record. *)
Definition pending_id (actorId tokenId : jsnum) (parsed : value) : option jsstr :=
  match parsed with
  | Obj fields =>
      if (length fields =? 4)%nat && is_num (get parsed (js "version")) (num_of_Z 1) &&
         is_num (get parsed (js "actor_id")) actorId && is_num (get parsed (js "token_id")) tokenId
      then match get parsed (js "operation_id") with
           | Str id => if operationIdPattern id then Some id else None
           | _ => None
           end
      else None
  | _ => None
  end.

Section operations.
Context {St : Type} `{W : !WebStorage St}.

Definition readPending (k : Kind) (actorId tokenId : jsnum) (st : St) : result failure (option jsstr) :=
  match storageKey k actorId tokenId with
  | Throw e => Throw e
  | Ok key =>
      match getItem st key with
      | None => Ok None
      | Some raw =>
          match JSON_parse raw with
          | None => Throw SyntaxError
          | Some parsed =>
              match pending_id actorId tokenId parsed with
              | Some id => Ok (Some id)
              | None => Throw (invalid_pending k)
              end
          end
      end
  end.

(** The outcome of a call with the storage it leaves. *)
Definition savePending (k : Kind) (actorId tokenId : jsnum) (operationId : jsstr) (st : St) :
    result failure unit * St :=
  if negb (operationIdPattern operationId) then (Throw (invalid_pending k), st)
  else match readPending k actorId tokenId st with
  | Throw e => (Throw e, st)
  | Ok existing =>
      if match existing with Some id => truthy id && negb (streq id operationId) | None => false end
      then (Throw (Error (js "Another " ++ operation k ++ js " is pending")), st)
      else match storageKey k actorId tokenId with
      | Throw e => (Throw e, st)
      | Ok key =>
          let v := JSON_stringify (pending_record actorId tokenId operationId) in
          match setItem st key v with
          | None => (Throw StorageError, st)
          | Some st' =>
              if bool_decide (getItem st' key = Some v) then (Ok tt, st')
              else (Throw (Error (js "Pending " ++ operation k ++ js " was not saved")), st')
          end
      end
  end.

Definition clearPending (k : Kind) (actorId tokenId : jsnum) (expectedOperationId : jsstr) (st : St) :
    result failure unit * St :=
  if negb (operationIdPattern expectedOperationId) then (Throw (invalid_pending k), st)
  else match readPending k actorId tokenId st with
  | Throw e => (Throw e, st)
  | Ok None => (Ok tt, st)
  | Ok (Some existing) =>
      if negb (streq existing expectedOperationId)
      then (Throw (Error (js "Pending " ++ operation k ++ js " changed")), st)
      else match storageKey k actorId tokenId with
      | Throw e => (Throw e, st)
      | Ok key =>
          let st' := removeItem st key in
          match getItem st' key with
          | None => (Ok tt, st')
          | Some _ => (Throw (Error (js "Pending " ++ operation k ++ js " was not cleared")), st')
          end
      end
  end.

Definition readPendingCredentialRotation := readPending Rotation.
Definition savePendingCredentialRotation := savePending Rotation.
Definition clearPendingCredentialRotation := clearPending Rotation.
Definition readPendingCredentialMaintenanceOperation := readPending Maintenance.
Definition savePendingCredentialMaintenanceOperation := savePending Maintenance.
Definition clearPendingCredentialMaintenanceOperation := clearPending Maintenance.

(** ** Sequences of calls *)

Inductive call :=
| Save (k : Kind) (actorId tokenId : jsnum) (operationId : jsstr)
| Clear (k : Kind) (actorId tokenId : jsnum) (operationId : jsstr).

Definition do_call (c : call) (st : St) : St :=
  match c with
  | Save k a t id => snd (savePending k a t id st)
  | Clear k a t id => snd (clearPending k a t id st)
  end.

Definition run (calls : list call) (st : St) : St := foldl (λ st c, do_call c st) st calls.
End operations.

(** ** Lemmas *)

Lemma positive_id_Some n z : positive_id n = Some z → n = num_of_Z z ∧ 0 < z.
Proof.
  unfold positive_id. destruct (as_integer n) as [z'|] eqn:E; [|done].
  destruct (_ && _) eqn:Ez; [|done]. intros [= <-]. split_bools. split; [by apply as_integer_Some|].
  by apply Z.ltb_lt.
Qed.

Lemma dot_not_digit z : 0 < z → 46%N ∉ show_Z z.
Proof. intros Hz Hin. apply show_Z_digit in Hin; [done|lia]. Qed.

Lemma prefix_inj k k' : STORAGE_PREFIX k = STORAGE_PREFIX k' → k = k'.
Proof. destruct k, k'; intros H; vm_compute in H; congruence. Qed.

(** The keys of different kinds, actors or tokens differ. *)
Lemma storageKey_inj k k' a a' t t' key :
  storageKey k a t = Ok key → storageKey k' a' t' = Ok key → k = k' ∧ a = a' ∧ t = t'.
Proof.
  unfold storageKey. destruct (positive_id a) as [za|] eqn:Ea; [|done].
  destruct (positive_id t) as [zt|] eqn:Et; [|done]. intros [= <-].
  destruct (positive_id a') as [za'|] eqn:Ea'; [|done]. destruct (positive_id t') as [zt'|] eqn:Et'; [|done].
  intros [= Heq]. apply positive_id_Some in Ea as [-> ?], Et as [-> ?], Ea' as [-> ?], Et' as [-> ?].
  change (js ".") with [46%N] in Heq. cbn [app] in Heq.
  rewrite !(app_comm_cons (show_Z _)), !app_assoc in Heq.
  apply last_cut_inj in Heq as [Heq Ht]; [|by apply dot_not_digit..].
  apply last_cut_inj in Heq as [Hk Ha]; [|by apply dot_not_digit..].
  split_and!; [by apply prefix_inj|by f_equal; apply show_Z_inj..].
Qed.

Lemma pattern_truthy id : operationIdPattern id = true → truthy id = true.
Proof. by destruct id. Qed.

Lemma num_eqb_refl n : n ≠ NaN → num_eqb n n = true.
Proof. intros Hn. unfold num_eqb. destruct n; try done; by apply bool_decide_eq_true. Qed.

Lemma num_of_Z_number z : num_of_Z z ≠ NaN.
Proof. destruct (num_of_Z_Fin z) as [q ->]. done. Qed.

Section laws.
Context {St : Type} `{W : !WebStorage St} `{L : !WebStorageLaws St}.
Implicit Types st : St.

Lemma read_inv k a t st id : readPending k a t st = Ok (Some id) →
  ∃ key, storageKey k a t = Ok key ∧ operationIdPattern id = true ∧ ∃ raw, getItem st key = Some raw.
Proof.
  unfold readPending. destruct (storageKey k a t) as [key|]; [|done].
  destruct (getItem st key) as [raw|] eqn:Eg; [|done]. destruct (JSON_parse raw) as [parsed|]; [|done].
  destruct (pending_id a t parsed) as [id'|] eqn:Ep; [|done]. intros [= ->]. exists key.
  split; [done|]. split; [|eauto]. unfold pending_id in Ep. destruct parsed; try done.
  destruct (_ && _); [|done]. destruct (get _ _); try done. destruct (operationIdPattern s) eqn:E; [|done].
  congruence.
Qed.

(** Reading depends on the item of its key only. *)
Lemma read_same k a t key st st' : storageKey k a t = Ok key → getItem st' key = getItem st key →
  readPending k a t st' = readPending k a t st.
Proof. intros Hk Hg. unfold readPending. by rewrite Hk, Hg. Qed.

Lemma read_record k a t key st id :
  storageKey k a t = Ok key → operationIdPattern id = true →
  getItem st key = Some (JSON_stringify (pending_record a t id)) → readPending k a t st = Ok (Some id).
Proof.
  intros Hk Hid Hg. unfold readPending. rewrite Hk, Hg.
  assert (∃ za zt, a = num_of_Z za ∧ t = num_of_Z zt) as (za & zt & -> & ->).
  { unfold storageKey in Hk. destruct (positive_id a) eqn:Ea; [|done]. destruct (positive_id t) eqn:Et; [|done].
    apply positive_id_Some in Ea as [-> _], Et as [-> _]. eauto. }
  rewrite parse_stringify. set (a := num_of_Z za). set (t := num_of_Z zt).
  assert (pending_id a t (pending_record a t id) = Some id) as Hp.
  { unfold pending_id, pending_record.
    change (get _ (js "version")) with (Num (num_of_Z 1)).
    change (get _ (js "actor_id")) with (Num a).
    change (get _ (js "token_id")) with (Num t).
    change (get _ (js "operation_id")) with (Str id). cbn [is_num length Nat.eqb].
    rewrite !num_eqb_refl, Hid by apply num_of_Z_number. done. }
  by rewrite Hp.
Qed.

Lemma save_Ok k a t id st st' : savePending k a t id st = (Ok tt, st') →
  operationIdPattern id = true ∧ ∃ key, storageKey k a t = Ok key ∧
  getItem st' key = Some (JSON_stringify (pending_record a t id)).
Proof.
  unfold savePending. destruct (operationIdPattern id); cbn [negb]; [|done].
  destruct (readPending k a t st) as [ex|]; [|done]. destruct (match ex with Some _ => _ | None => _ end); [done|].
  destruct (storageKey k a t) as [key|]; [|done]. destruct (setItem _ _ _) as [st''|]; [|done].
  case_bool_decide as Hg; [|done]. intros [= ->]. eauto.
Qed.

(** A save leaves a pending operation as it is. *)
Lemma save_keeps k a t id k' a' t' id' st :
  readPending k a t st = Ok (Some id) →
  readPending k a t (snd (savePending k' a' t' id' st)) = Ok (Some id).
Proof.
  intros Hr. unfold savePending. destruct (operationIdPattern id') eqn:Ep; cbn [negb]; [|done].
  destruct (readPending k' a' t' st) as [ex|] eqn:Er'; [|done].
  destruct (match ex with Some _ => _ | None => _ end) eqn:Ex; [done|].
  destruct (storageKey k' a' t') as [key'|] eqn:Ek'; [|done].
  destruct (setItem _ _ _) as [st''|] eqn:Es; [|done].
  assert (readPending k a t st'' = Ok (Some id)) as H; [|by case_bool_decide].
  destruct (read_inv _ _ _ _ _ Hr) as (key & Ek & Hid & _).
  destruct (decide (key = key')) as [->|Hne].
  - destruct (storageKey_inj _ _ _ _ _ _ _ Ek Ek') as (<- & <- & <-). rewrite Hr in Er'. injection Er' as <-.
    rewrite pattern_truthy in Ex by done. cbn [andb] in Ex. apply negb_false_iff, streq_spec in Ex as <-.
    destruct (set_effect _ _ _ _ Es) as [Hg|Hg]; [by eapply read_record|].
    by rewrite (read_same _ _ _ _ _ _ Ek Hg).
  - rewrite (read_same _ _ _ key st); [done..|]. by eapply set_frame.
Qed.

Lemma clear_keeps k a t id k' a' t' id' st :
  readPending k a t st = Ok (Some id) → (k', a', t', id') ≠ (k, a, t, id) →
  readPending k a t (snd (clearPending k' a' t' id' st)) = Ok (Some id).
Proof.
  intros Hr Hne. unfold clearPending. destruct (operationIdPattern id'); cbn [negb]; [|done].
  destruct (readPending k' a' t' st) as [[ex|]|] eqn:Er'; [|done..].
  destruct (streq ex id') eqn:Ex; cbn [negb]; [|done]. apply streq_spec in Ex as ->.
  destruct (storageKey k' a' t') as [key'|] eqn:Ek'; [|done].
  destruct (read_inv _ _ _ _ _ Hr) as (key & Ek & _).
  assert (key ≠ key') as Hk.
  { intros ->. destruct (storageKey_inj _ _ _ _ _ _ _ Ek Ek') as (<- & <- & <-). congruence. }
  assert (readPending k a t (removeItem st key') = Ok (Some id)) as H; [|by destruct (getItem _ _)].
  rewrite (read_same _ _ _ key st); [done..|]. by apply remove_frame.
Qed.

Lemma clear_Ok k a t id st st' : clearPending k a t id st = (Ok tt, st') → readPending k a t st' = Ok None.
Proof.
  unfold clearPending. destruct (operationIdPattern id); cbn [negb]; [|done].
  destruct (readPending k a t st) as [[ex|]|] eqn:Er; [|intros [= <-]; done|done].
  destruct (streq ex id); cbn [negb]; [|done].
  destruct (storageKey k a t) as [key|] eqn:Ek; [|done]. destruct (getItem (removeItem st key) key) eqn:Eg; [done|].
  intros [= <-]. unfold readPending. by rewrite Ek, Eg.
Qed.
End laws.

(** ** Generated identifiers *)

Lemma hex_digit_hex n : (n < 16)%N → is_hex (hex_digit n) = true.
Proof.
  intros Hn. unfold hex_digit, is_hex. destruct (N.ltb_spec n 10); apply orb_true_iff; [left|right];
    apply andb_true_iff; rewrite !N.leb_le; lia.
Qed.

Lemma byte_hex_ok b : (b < 256)%N → length (byte_hex b) = 2%nat ∧ forallb is_hex (byte_hex b) = true.
Proof.
  intros Hb. unfold byte_hex. assert (is_hex (hex_digit (b mod 16)) = true) as H1.
  { apply hex_digit_hex, N.mod_lt. lia. }
  destruct (N.ltb_spec b 16); cbn [app length forallb]; rewrite H1; [done|]. split; [done|].
  rewrite hex_digit_hex; [done|]. apply N.Div0.div_lt_upper_bound. lia.
Qed.

Lemma created_ids_accepted bytes : length bytes = 32%nat → Forall (λ b, b < 256)%N bytes →
  operationIdPattern (createOperationId bytes) = true.
Proof.
  intros Hl Hb. assert (length (createOperationId bytes) = 2 * length bytes ∧
    forallb is_hex (createOperationId bytes) = true)%nat as [H1 H2].
  { clear Hl. induction Hb as [|b l Hb _ [IH1 IH2]]; [done|].
    change (createOperationId (b :: l)) with (byte_hex b ++ createOperationId l). rewrite length_app, forallb_app, IH1, IH2. destruct (byte_hex_ok b Hb) as [-> ->].
    split; [cbn [length]; lia|done]. }
  unfold operationIdPattern. by rewrite H1, H2, Hl.
Qed.

(** ** Properties *)

(** [C34] A pending operation is protected: once an operation is pending for an actor and a
    key, any sequence of calls for any actors, keys and kinds, whether they succeed or throw,
    leaves exactly that operation pending, unless it is cleared by its own id. A save that
    returns makes its operation the pending one, with no other having been; a clear that
    returns leaves none pending; identifiers made from 32 random bytes can be saved. *)
Theorem pending_operation_protected {St : Type} `{W : !WebStorage St} `{L : !WebStorageLaws St}
    (k : Kind) (actorId tokenId : jsnum) (id : jsstr) (st : St) :
  (readPending k actorId tokenId st = Ok (Some id) →
     ∀ calls, Clear k actorId tokenId id ∉ calls →
       readPending k actorId tokenId (run calls st) = Ok (Some id)) ∧
  (∀ st', savePending k actorId tokenId id st = (Ok tt, st') →
     readPending k actorId tokenId st' = Ok (Some id) ∧
     (readPending k actorId tokenId st = Ok None ∨ readPending k actorId tokenId st = Ok (Some id))) ∧
  (∀ st', clearPending k actorId tokenId id st = (Ok tt, st') → readPending k actorId tokenId st' = Ok None) ∧
  (∀ bytes, length bytes = 32%nat → Forall (λ b, b < 256)%N bytes →
     operationIdPattern (createOperationId bytes) = true).
Proof.
  split_and!.
  - intros Hr calls. revert st Hr. induction calls as [|c calls IH]; intros st Hr Hn; [done|].
    apply not_elem_of_cons in Hn as [Hc Hn]. apply IH; [|done].
    destruct c; simpl; [by apply save_keeps|]. apply clear_keeps; [done|]. congruence.
  - intros st' Hs. destruct (save_Ok _ _ _ _ _ _ Hs) as (Hid & key & Hk & Hg). split; [by eapply read_record|].
    revert Hs. unfold savePending. rewrite Hid. cbn [negb].
    destruct (readPending k actorId tokenId st) as [[ex|]|] eqn:Er; [|by left|done].
    destruct (read_inv _ _ _ _ _ Er) as (? & _ & Hp & _). rewrite pattern_truthy by done. cbn [andb].
    destruct (streq ex id) eqn:Ex; cbn [negb]; [|done]. apply streq_spec in Ex as ->. by right.
  - intros st'. apply clear_Ok.
  - apply created_ids_accepted.
Qed.

(** ** A storage that keeps everything *)

#[export] Instance map_storage : WebStorage (list (jsstr * jsstr)) := {|
  getItem st k := jm_get k st;
  setItem st k v := Some (jm_set k v st);
  removeItem st k := jm_delete k st;
  JSON_parse s := match s with
                  | Npos p :: id => (λ '(a, t), pending_record (num_of_Z a) (num_of_Z t) id) <$> decode p
                  | _ => None
                  end;
  JSON_stringify v := match v with
                      | Obj [_; (_, Num a); (_, Num t); (_, Str id)] =>
                          Npos (encode (default 0 (as_integer a), default 0 (as_integer t))) :: id
                      | _ => []
                      end |}.

#[export] Instance map_storage_laws : WebStorageLaws (list (jsstr * jsstr)).
Proof.
  split; cbn [getItem setItem removeItem JSON_parse JSON_stringify map_storage].
  - intros st ? k v k' [= <-] Hk. by apply jm_get_set_ne.
  - intros st ? k v [= <-]. left. apply jm_get_set_eq.
  - intros st k k' Hk. by rewrite jm_get_delete, decide_False.
  - intros st k. left. by rewrite jm_get_delete, decide_True.
  - intros a t id. unfold pending_record at 1. rewrite !as_integer_Z, decode_encode. done.
Qed.

Definition sample_id : jsstr := replicate 64 97%N.

Lemma pending_operation_protected_witness :
  readPending Rotation (num_of_Z 1) (num_of_Z 21)
    (run [Save Rotation (num_of_Z 1) (num_of_Z 21) (replicate 64 98%N);
          Clear Maintenance (num_of_Z 1) (num_of_Z 21) sample_id]
       (snd (savePending Rotation (num_of_Z 1) (num_of_Z 21) sample_id []))) = Ok (Some sample_id).
Proof.
  destruct (pending_operation_protected Rotation (num_of_Z 1) (num_of_Z 21) sample_id
    (snd (savePending Rotation (num_of_Z 1) (num_of_Z 21) sample_id []))) as (Hkept & _).
  apply Hkept.
  - destruct (pending_operation_protected Rotation (num_of_Z 1) (num_of_Z 21) sample_id []) as (_ & H & _).
    apply H. vm_compute. reflexivity.
  - rewrite !not_elem_of_cons. split_and!; [discriminate|intros [=]|apply not_elem_of_nil].
Defined.

End PendingOperation.
