(* ===== verification/ExactUsd.v ===== *)
(** * Decimal amounts without doubles (web/src/lib/exact-usd.ts and the percentages of
      web/src/features/keys/lib/token-budget-schema.ts)

    Limits in dollars are strings that are compared digit by digit, and percentages become
    whole basis points. Both agree with the rational number the string denotes. *)
From Stdlib Require Import QArith Qcanon.
From S2P Require Import Prelude JsString.
Local Open Scope N_scope.

Module ExactUsd.

(** A single zero, or digits that do not begin with one. *)
Definition whole_ok (s : jsstr) : bool :=
  is_digits s && match s with 48 :: _ :: _ => false | _ => true end.

Definition usdAmountSchema (s : jsstr) : bool :=
  (1 <=? length s)%nat && (length s <=? 128)%nat &&
  match split_on 46 s with
  | [i] => whole_ok i
  | [i; f] => whole_ok i && is_digits f
  | _ => false
  end.

(** [const [i = '', f = ''] = s.split('.')] *)
Definition amount_parts (s : jsstr) : jsstr * jsstr :=
  match split_on 46 s with
  | i :: f :: _ => (i, f)
  | [i] => (i, [])
  | [] => ([], [])
  end.

Definition padEnd (s : jsstr) (n : nat) : jsstr := s ++ replicate (n - length s) 48.

(** [BigInt] of a string of digits is its value. *)
Definition usdLessThan (left right : jsstr) : bool :=
  if negb (usdAmountSchema left) || negb (usdAmountSchema right) then false
  else
    let '(li, lf) := amount_parts left in
    let '(ri, rf) := amount_parts right in
    let scale := Nat.max (length lf) (length rf) in
    parse_digits (li ++ padEnd lf scale) <? parse_digits (ri ++ padEnd rf scale).

(** [/^\d{1,3}(\.\d{1,2})?$/] *)
Definition percent_pattern (s : jsstr) : bool :=
  match split_on 46 s with
  | [i] => is_digits i && (length i <=? 3)%nat
  | [i; f] => is_digits i && (length i <=? 3)%nat && is_digits f && (length f <=? 2)%nat
  | _ => false
  end.

(** [Number] of at most three digits is exact. *)
Definition percentageToBasisPoints (s : jsstr) : N :=
  let '(whole, fraction) := amount_parts s in
  parse_digits whole * 100 + parse_digits (padEnd fraction 2).

Definition minimumRemainingPercent_ok (s : jsstr) : bool :=
  percent_pattern s && (percentageToBasisPoints s <=? 10000).

(** ** The number a string denotes *)

Definition decimal (s : jsstr) : Q :=
  let '(i, f) := amount_parts s in
  (inject_Z (Z.of_N (parse_digits i)) +
   inject_Z (Z.of_N (parse_digits f)) / inject_Z (10 ^ Z.of_nat (length f)))%Q.

(** The same number in units of a power of ten that holds all its digits. *)
Definition scaled (s : jsstr) (n : nat) : N :=
  let '(i, f) := amount_parts s in parse_digits (i ++ padEnd f n).

Lemma parse_digits_app a b : parse_digits (a ++ b) = parse_digits a * 10 ^ N.of_nat (length b) + parse_digits b.
Proof.
  induction b as [|c b IH] using rev_ind.
  - rewrite app_nil_r. simpl. rewrite N.mul_1_r. unfold parse_digits at 3. simpl. lia.
  - rewrite app_assoc, !parse_digits_snoc, IH, length_app. cbn [length].
    replace (N.of_nat (length b + 1)) with (N.succ (N.of_nat (length b))) by lia. rewrite N.pow_succ_r'. lia.
Qed.

Lemma parse_zeros n : parse_digits (replicate n 48) = 0.
Proof.
  induction n as [|n IH]; [done|]. replace (S n) with (n + 1)%nat by lia.
  rewrite replicate_add, parse_digits_app, IH. done.
Qed.

Lemma padEnd_length s n : (length s ≤ n)%nat → length (padEnd s n) = n.
Proof. intros H. unfold padEnd. rewrite length_app, length_replicate. lia. Qed.

Lemma padEnd_value s n : parse_digits (padEnd s n) = parse_digits s * 10 ^ N.of_nat (n - length s).
Proof. unfold padEnd. rewrite parse_digits_app, parse_zeros, length_replicate. lia. Qed.

Lemma scaled_value s n : (length (amount_parts s).2 ≤ n)%nat →
  Qeq (inject_Z (Z.of_N (scaled s n))) (decimal s * inject_Z (10 ^ Z.of_nat n)).
Proof.
  unfold scaled, decimal. destruct (amount_parts s) as [i f]. cbn [snd]. intros Hn.
  rewrite parse_digits_app, padEnd_length, padEnd_value by done.
  rewrite N2Z.inj_add, !N2Z.inj_mul, !N2Z.inj_pow, !nat_N_Z. change (Z.of_N 10) with 10%Z.
  assert (10 ^ Z.of_nat n = 10 ^ Z.of_nat (length f) * 10 ^ Z.of_nat (n - length f))%Z as ->.
  { rewrite <- Z.pow_add_r by lia. f_equal. lia. }
  rewrite inject_Z_plus, !inject_Z_mult.
  assert (¬ inject_Z (10 ^ Z.of_nat (length f)) == 0)%Q as Hnz.
  { unfold Qeq. simpl. pose proof (Z.pow_pos_nonneg 10 (Z.of_nat (length f))). lia. }
  field. exact Hnz.
Qed.

(** ** Properties *)

(** Comparisons of amounts are exact: one amount is less than another exactly when both
    are well formed and the numbers they denote are in that order, however many digits they
    have; and the basis points of a percentage are exactly a hundred times its value. *)
Theorem decimals_exact :
  (∀ left right, usdLessThan left right = true ↔
     usdAmountSchema left = true ∧ usdAmountSchema right = true ∧ (decimal left < decimal right)%Q) ∧
  (∀ s, percent_pattern s = true →
     Qeq (inject_Z (Z.of_N (percentageToBasisPoints s))) (decimal s * inject_Z 100)).
Proof.
  split.
  - intros l r. unfold usdLessThan.
    destruct (usdAmountSchema l), (usdAmountSchema r); cbn [negb orb]; try (split; [done|naive_solver]).
    pose proof (scaled_value l (Nat.max (length (amount_parts l).2) (length (amount_parts r).2)) ltac:(lia)) as Hl.
    pose proof (scaled_value r (Nat.max (length (amount_parts l).2) (length (amount_parts r).2)) ltac:(lia)) as Hr.
    unfold scaled in Hl, Hr. destruct (amount_parts l) as [li lf] eqn:El, (amount_parts r) as [ri rf] eqn:Er.
    cbn [snd] in *. rewrite N.ltb_lt.
    set (p := (10 ^ Z.of_nat (Nat.max (length lf) (length rf)))%Z) in *.
    assert (0 < inject_Z p)%Q as Hp by (unfold Qlt; simpl; pose proof (Z.pow_pos_nonneg 10 (Z.of_nat (Nat.max (length lf) (length rf)))); lia).
    rewrite <- (Qmult_lt_r _ _ (inject_Z p) Hp), <- Hl, <- Hr, <- Zlt_Qlt. rewrite <- N2Z.inj_lt. naive_solver.
  - intros s Hs. assert (length (amount_parts s).2 ≤ 2)%nat as Hf.
    { unfold percent_pattern, amount_parts in *. destruct (split_on 46 s) as [|i [|f [|]]]; simpl; try lia.
      split_bools. by apply Nat.leb_le. }
    rewrite <- (scaled_value s 2 Hf). unfold scaled, percentageToBasisPoints.
    destruct (amount_parts s) as [i f]. cbn [snd] in Hf.
    by rewrite parse_digits_app, padEnd_length.
Qed.

End ExactUsd.
