(* ===== verification/Keys.v ===== *)
(** * API keys (web/src/features/keys/lib: model-scope.ts, key-condition.ts,
      access-profile.ts, api-key-form.ts; the quota conversion of web/src/lib/format.ts)

    The scope of models a key may use, whether a key can serve a request, the routing
    profile of a key, and the form it is edited with. The translation function [t] and the
    lower-casing of the platform's locale are arguments. *)
From Stdlib Require Import QArith Qround Qcanon Lqa.
From S2P Require Import Prelude JsString JsMap JsValue Attachments.
Local Open Scope Z_scope.

(** ** Model scopes *)

Module ModelScope.

Record ModelScope := mkScope {
  token_id : Z; token_name : jsstr; model_limits_enabled : bool; models : list jsstr; revision : jsstr }.

Record ModelScopeCommand := mkCommand {
  expected_revision : jsstr; c_model_limits_enabled : bool; c_models : list jsstr }.

Inductive ModelScopeMode := Unlimited | Restricted | Blocked.

#[export] Instance ModelScopeMode_eq_dec : EqDecision ModelScopeMode.
Proof. solve_decision. Defined.

Record ModelScopeDraft := mkDraft { mode : ModelScopeMode; d_models : list jsstr }.

Inductive ModelScopeValidationError :=
| EmptyRestrictedScope | InvalidNewModel | DuplicateModel | ScopeTooLarge.

Definition modelScopeDraft (scope : ModelScope) : ModelScopeDraft :=
  if negb (model_limits_enabled scope) then mkDraft Unlimited (models scope)
  else match models scope with
       | [] => mkDraft Blocked []
       | ms => mkDraft Restricted ms
       end.

Definition saved_models (draft : ModelScopeDraft) : list jsstr :=
  match mode draft with Blocked => [] | _ => d_models draft end.

Definition modelScopeCommand (scope : ModelScope) (draft : ModelScopeDraft) : ModelScopeCommand :=
  mkCommand (revision scope) (match mode draft with Unlimited => false | _ => true end) (saved_models draft).

(** Equal lengths and [every] element equal to the one at its index. *)
Definition same_list (left right : list jsstr) : bool :=
  (length left =? length right)%nat &&
  forallb (λ '(index, model), bool_decide (right !! index = Some model)) (zip (seq 0 (length left)) left).

Definition sameModelScopeDraft (left right : ModelScopeDraft) : bool :=
  bool_decide (mode left = mode right) && same_list (d_models left) (d_models right).

Definition modelScopeMatchesCommand (scope : ModelScope) (command : ModelScopeCommand) : bool :=
  Bool.eqb (model_limits_enabled scope) (c_model_limits_enabled command) &&
  same_list (models scope) (c_models command).

(** [[...s]] as code points: a surrogate pair is one of them. *)
Fixpoint code_points (s : jsstr) : list N :=
  match s with
  | [] => []
  | u :: rest =>
      if ((55296 <=? u) && (u <=? 56319))%N then
        match rest with
        | l :: rest' =>
            if ((56320 <=? l) && (l <=? 57343))%N
            then (65536 + (u - 55296) * 1024 + (l - 56320))%N :: code_points rest'
            else u :: code_points rest
        | [] => [u]
        end
      else u :: code_points rest
  end.

Definition disallowed (codePoint : N) : bool :=
  is_ws codePoint || (codePoint <=? 31)%N || ((127 <=? codePoint) && (codePoint <=? 159))%N ||
  (codePoint =? 65279)%N.

Definition isValidNewModel (model : jsstr) : bool :=
  (0 <? length model)%nat && negb (includes (js ",") model) && negb (existsb disallowed (code_points model)).

(** Each model with its occurrence so far, from which the key of its row is made. *)
Fixpoint with_occurrences (occurrences : list (jsstr * nat)) (ms : list jsstr) : list (jsstr * nat) :=
  match ms with
  | [] => []
  | model :: rest =>
      let occurrence := default 0%nat (jm_get model occurrences) in
      (model, occurrence) :: with_occurrences (jm_set model (occurrence + 1)%nat occurrences) rest
  end.

Definition modelScopeListItems (stringify : jsstr * nat → jsstr) (ms : list jsstr) : list (jsstr * jsstr) :=
  map (λ item, (fst item, stringify item)) (with_occurrences [] ms).

Definition count_models (originalModels : list jsstr) : list (jsstr * nat) :=
  foldl (λ counts model, jm_set model (default 0%nat (jm_get model counts) + 1)%nat counts) [] originalModels.

(** The loop over the models of a draft: each uses up one of the original ones or is valid. *)
Fixpoint check_models (originalCounts : list (jsstr * nat)) (ms : list jsstr) : bool :=
  match ms with
  | [] => true
  | model :: rest =>
      let remaining := default 0%nat (jm_get model originalCounts) in
      if (0 <? remaining)%nat then check_models (jm_set model (remaining - 1)%nat originalCounts) rest
      else if negb (isValidNewModel model) then false
      else check_models originalCounts rest
  end.

Definition validateModelScopeDraft (draft : ModelScopeDraft) (originalModels : list jsstr) :
    option ModelScopeValidationError :=
  if bool_decide (mode draft = Restricted) && (length (d_models draft) =? 0)%nat then Some EmptyRestrictedScope
  else
    let savedModels := saved_models draft in
    if negb (length (new_Set savedModels) =? length savedModels)%nat then Some DuplicateModel
    else if negb (check_models (count_models originalModels) (d_models draft)) then Some InvalidNewModel
    else if 65535 <? Attachments.utf8_length (join (js ",") savedModels) then Some ScopeTooLarge
    else None.

(** The catalog offered under a search: the loop with what it has seen. *)
Definition catalog_step (lower : jsstr → jsstr) (selected : list jsstr) (normalizedSearch : jsstr)
    (result : list jsstr) (model : jsstr) : list jsstr :=
  if set_has result model || set_has (new_Set selected) model || negb (isValidNewModel model) ||
     (truthy normalizedSearch && negb (includes normalizedSearch (lower model)))
  then result else result ++ [model].

Definition modelScopeCatalog (lower : jsstr → jsstr) (catalog selected : list jsstr) (search : jsstr) :
    list jsstr :=
  foldl (catalog_step lower selected (lower (trim search))) [] catalog.

(** *** Lemmas *)

Lemma same_list_spec l r : same_list l r = true ↔ l = r.
Proof.
  unfold same_list. rewrite andb_true_iff, Nat.eqb_eq, forallb_forall. split.
  - intros [Hlen H]. apply list_eq_same_length with (length l); [done..|]. intros i x y Hi Hx Hy.
    specialize (H (i, x)). rewrite bool_decide_eq_true in H. rewrite H in Hy; [congruence|].
    apply list_elem_of_In, list_elem_of_lookup. exists i. apply lookup_zip_with_Some.
    exists i, x. split_and!; [done| |done]. apply lookup_seq. split; [lia|done].
  - intros ->. split; [done|]. intros [i x] Hin%list_elem_of_In%list_elem_of_lookup.
    destruct Hin as [j Hj]. apply lookup_zip_with_Some in Hj as (i' & x' & [= -> ->] & Hs & Hx).
    apply lookup_seq in Hs as [-> _]. by apply bool_decide_eq_true.
Qed.

Definition occurrences (m : jsstr) (ms : list jsstr) : nat := length (filter (λ x, x = m) ms).

Lemma occurrences_cons m x ms :
  occurrences m (x :: ms) = ((if decide (x = m) then 1 else 0) + occurrences m ms)%nat.
Proof. unfold occurrences. rewrite filter_cons. by case_decide. Qed.

Lemma count_models_get ms m : default 0%nat (jm_get m (count_models ms)) = occurrences m ms.
Proof.
  unfold count_models. induction ms as [|x ms IH] using rev_ind; [done|].
  rewrite foldl_app. simpl. rewrite jm_get_set. unfold occurrences in *. rewrite filter_app, length_app, filter_cons.
  destruct (decide (x = m)) as [->|Hx]; simpl; lia.
Qed.

Lemma check_models_spec counts ms :
  check_models counts ms = true ↔
  ∀ m, (occurrences m ms ≤ default 0%nat (jm_get m counts))%nat ∨ isValidNewModel m = true.
Proof.
  revert counts. induction ms as [|x ms IH]; intros counts; cbn [check_models].
  { split; [intros _ m; left; unfold occurrences; simpl; lia|done]. }
  destruct (Nat.ltb_spec 0 (default 0%nat (jm_get x counts))) as [Hr|Hr].
  - rewrite IH. apply forall_proper. intros m. rewrite jm_get_set, occurrences_cons.
    case_decide as Hm; [subst m|]; simpl; [|done]. split; (intros [?|?]; [left; lia|by right]).
  - destruct (isValidNewModel x) eqn:Ex; simpl.
    + rewrite IH. apply forall_proper. intros m. rewrite occurrences_cons.
      case_decide as Hm; [subst m|]; simpl; [|done]. split; intros _; by right.
    + split; [done|]. intros H. destruct (H x) as [Ho|?]; [|congruence].
      rewrite occurrences_cons, decide_True in Ho by done. lia.
Qed.

Lemma new_Set_full (l : list jsstr) : length (new_Set l) = length l ↔ NoDup l.
Proof.
  split.
  - intros Hl. apply NoDup_ListNoDup. eapply (List.NoDup_incl_NoDup (l := new_Set l)).
    + apply NoDup_ListNoDup, new_Set_NoDup.
    + lia.
    + intros x. rewrite <- !list_elem_of_In. by rewrite new_Set_elem.
  - intros Hl. apply Permutation_length, NoDup_Permutation; [apply new_Set_NoDup|done|apply new_Set_elem].
Qed.

(** A model that may be offered. *)
Definition offerable (lower : jsstr → jsstr) (selected : list jsstr) (needle m : jsstr) : Prop :=
  (m ∉ selected) ∧ isValidNewModel m = true ∧ (needle = [] ∨ includes needle (lower m) = true).

Lemma catalog_step_cases lower selected needle result x :
  (offerable lower selected needle x ∧ (x ∉ result) ∧
     catalog_step lower selected needle result x = result ++ [x]) ∨
  ((¬ offerable lower selected needle x ∨ x ∈ result) ∧ catalog_step lower selected needle result x = result).
Proof.
  unfold catalog_step, offerable. rewrite <- (new_Set_elem selected), <- !set_has_spec.
  destruct (set_has result x); [by right; split; [right|]|].
  destruct (set_has (new_Set selected) x); [by right; split; [left; intros [[] _]|]|].
  destruct (isValidNewModel x); [|by right; split; [left; intros (_ & ? & _)|]].
  destruct needle as [|u needle]; simpl; [left; split_and!; auto|].
  destruct (includes (u :: needle) (lower x)); simpl; [left; split_and!; auto|].
  right. split; [left; intros (_ & _ & [?|?]); done|done].
Qed.

Lemma catalog_spec lower selected needle catalog result :
  NoDup result →
  let r := foldl (catalog_step lower selected needle) result catalog in
  NoDup r ∧ ∀ m, m ∈ r ↔ m ∈ result ∨ (m ∈ catalog ∧ offerable lower selected needle m).
Proof.
  revert result. induction catalog as [|x catalog IH]; intros result Hnd; simpl.
  { split; [done|]. intros m. rewrite elem_of_nil. tauto. }
  destruct (catalog_step_cases lower selected needle result x) as [(Ho & Hn & ->)|[Hn ->]].
  - destruct (IH (result ++ [x])) as [H1 H2].
    { apply NoDup_app. split_and!; [done|set_solver|apply NoDup_singleton]. }
    split; [done|]. intros m. rewrite H2, elem_of_app, list_elem_of_singleton, elem_of_cons.
    split; [intros [[?| ->]|[? ?]]; auto|]. intros [?|[[->|?] ?]]; auto.
  - destruct (IH result Hnd) as [H1 H2]. split; [done|]. intros m. rewrite H2, elem_of_cons.
    split; [intros [?|[? ?]]; auto|]. intros [?|[[->|?] ?]]; [auto| |auto]. destruct Hn; [done|auto].
Qed.

Lemma with_occurrences_spec occ ms m n :
  (m, n) ∈ with_occurrences occ ms →
  (default 0%nat (jm_get m occ) ≤ n)%nat.
Proof.
  revert occ. induction ms as [|x ms IH]; intros occ; simpl; [set_solver|].
  intros [[= -> ->]|Hin]%elem_of_cons; [lia|]. apply IH in Hin. rewrite jm_get_set in Hin.
  case_decide; subst; simpl in *; lia.
Qed.

Lemma with_occurrences_NoDup occ ms : NoDup (with_occurrences occ ms).
Proof.
  revert occ. induction ms as [|x ms IH]; intros occ; simpl; [constructor|]. constructor; [|apply IH].
  intros Hin%with_occurrences_spec. rewrite jm_get_set_eq in Hin. simpl in Hin. lia.
Qed.

Lemma with_occurrences_models occ ms : map fst (with_occurrences occ ms) = ms.
Proof. revert occ. induction ms as [|x ms IH]; intros occ; simpl; [done|]. by rewrite IH. Qed.

(** A valid model has no comma, so that a list of them survives being joined by commas. *)
Lemma valid_no_comma m : isValidNewModel m = true → 44%N ∉ m.
Proof.
  unfold isValidNewModel. intros H Hin. split_bools. apply list_elem_of_split in Hin as (a & b & ->).
  assert (includes (js ",") (a ++ 44%N :: b) = true) by (apply includes_spec; by exists a, b). congruence.
Qed.

(** *** Properties *)

(** The scope of a key: a draft is accepted exactly when a restricted one names a model,
    what is saved has no duplicates and fits in 65535 bytes, and every model is valid or is
    one the key already had (as often as it had it). Opening the editor and saving without a
    change asks for the scope as it is; if all models are valid, the comma-separated text that
    is stored reads back as the list. *)
Theorem model_scope_exact (scope : ModelScope) (draft : ModelScopeDraft) (originalModels : list jsstr) :
  (validateModelScopeDraft draft originalModels = None ↔
     (mode draft = Restricted → d_models draft ≠ []) ∧ NoDup (saved_models draft) ∧
     (∀ m, isValidNewModel m = true ∨ occurrences m (d_models draft) ≤ occurrences m originalModels)%nat ∧
     Attachments.utf8_length (join (js ",") (saved_models draft)) ≤ 65535) ∧
  modelScopeMatchesCommand scope (modelScopeCommand scope (modelScopeDraft scope)) = true ∧
  (validateModelScopeDraft draft [] = None → saved_models draft ≠ [] →
     split_on 44%N (join (js ",") (saved_models draft)) = saved_models draft).
Proof.
  assert (∀ orig, validateModelScopeDraft draft orig = None ↔
     (mode draft = Restricted → d_models draft ≠ []) ∧ NoDup (saved_models draft) ∧
     (∀ m, isValidNewModel m = true ∨ occurrences m (d_models draft) ≤ occurrences m orig)%nat ∧
     Attachments.utf8_length (join (js ",") (saved_models draft)) ≤ 65535) as Hv.
  { intros orig. unfold validateModelScopeDraft.
    assert (check_models (count_models orig) (d_models draft) = true ↔ ∀ m, isValidNewModel m = true ∨
      (occurrences m (d_models draft) ≤ occurrences m orig)%nat) as Hc.
    { rewrite check_models_spec. apply forall_proper. intros m. rewrite count_models_get. tauto. }
    destruct (bool_decide_reflect (mode draft = Restricted)) as [Hm|Hm]; cbn [andb].
    - destruct (d_models draft) as [|x l] eqn:El; cbn [length Nat.eqb]; [naive_solver|]. rewrite <- El in *.
      rewrite <- new_Set_full. destruct (Nat.eqb_spec (length (new_Set (saved_models draft))) (length (saved_models draft)));
        cbn [negb]; [|naive_solver].
      destruct (check_models _ _); cbn [negb]; [|naive_solver].
      destruct (Z.ltb_spec 65535 (Attachments.utf8_length (join (js ",") (saved_models draft)))); [split; [done|lia]|].
      split; [|done]. intros _. split_and!; [by rewrite El|done|by apply Hc|done].
    - rewrite <- new_Set_full. destruct (Nat.eqb_spec (length (new_Set (saved_models draft))) (length (saved_models draft)));
        cbn [negb]; [|naive_solver].
      destruct (check_models _ _); cbn [negb]; [|naive_solver].
      destruct (Z.ltb_spec 65535 (Attachments.utf8_length (join (js ",") (saved_models draft)))); [split; [done|lia]|].
      split; [|done]. intros _. split_and!; [done..|by apply Hc|done]. }
  split_and!; [apply Hv| |].
  - unfold modelScopeMatchesCommand, modelScopeCommand, modelScopeDraft, saved_models.
    destruct (model_limits_enabled scope); simpl; [destruct (models scope) eqn:E; simpl|]; by apply same_list_spec.
  - intros (_ & _ & Hval & _)%Hv Hne. apply split_on_join; [done|]. apply Forall_forall. intros m Hin.
    apply valid_no_comma. destruct (Hval m) as [?|Ho]; [done|exfalso].
    assert (m ∈ d_models draft) as Hd by (unfold saved_models in Hin; by destruct (mode draft); [| |apply not_elem_of_nil in Hin]).
    assert (m ∈ filter (λ x, x = m) (d_models draft)) as Hf by (by apply list_elem_of_filter).
    unfold occurrences in Ho. simpl in Ho. destruct (filter _ (d_models draft)); [by apply not_elem_of_nil in Hf|simpl in Ho; lia].
Qed.

(** The catalog offered for a search, and the keys of the rows shown. *)
Theorem model_scope_catalog_exact (lower : jsstr → jsstr) (catalog selected : list jsstr) (search : jsstr)
    (stringify : jsstr * nat → jsstr) (ms : list jsstr) :
  let offered := modelScopeCatalog lower catalog selected search in
  (NoDup offered ∧ ∀ m, m ∈ offered ↔
     m ∈ catalog ∧ (m ∉ selected) ∧ isValidNewModel m = true ∧
     (lower (trim search) = [] ∨ includes (lower (trim search)) (lower m) = true)) ∧
  map fst (modelScopeListItems stringify ms) = ms ∧
  (Inj (=) (=) stringify → NoDup (map snd (modelScopeListItems stringify ms))).
Proof.
  intros offered. split_and!.
  - apply (catalog_spec lower selected (lower (trim search)) catalog []). constructor.
  - intros m. unfold offered, modelScopeCatalog.
    rewrite (proj2 (catalog_spec lower selected (lower (trim search)) catalog [] ltac:(constructor))). unfold offerable. rewrite elem_of_nil. tauto.
  - unfold modelScopeListItems. rewrite map_map. apply with_occurrences_models.
  - intros Hinj. unfold modelScopeListItems. rewrite map_map. simpl.
    apply (NoDup_fmap_2 stringify), with_occurrences_NoDup.
Qed.

End ModelScope.

(** ** Whether a key can serve a request *)

Module KeyCondition.

Inductive KeyCondition := Available | Disabled | Expired | Exhausted | Unknown.

Record KeyStateFields := mkFields {
  status : jsnum; expired_time : jsnum; unlimited_quota : bool; remain_quota : jsnum }.

Definition getKeyCondition (key : KeyStateFields) (nowSeconds : jsnum) : KeyCondition :=
  if num_eqb (status key) (num_of_Z 2) then Disabled
  else if num_eqb (status key) (num_of_Z 3) then Expired
  else if num_eqb (status key) (num_of_Z 4) then Exhausted
  else if negb (num_eqb (status key) (num_of_Z 1)) then Unknown
  else if negb (isSafeInteger (expired_time key)) then Unknown
  else if negb (unlimited_quota key) && negb (isSafeInteger (remain_quota key)) then Unknown
  else if negb (num_eqb (expired_time key) (num_of_Z (-1))) && num_le (expired_time key) nowSeconds then Expired
  else if negb (unlimited_quota key) && num_le (remain_quota key) (num_of_Z 0) then Exhausted
  else Available.

Lemma num_eqb_Z n z : num_eqb n (num_of_Z z) = true ↔ n = num_of_Z z.
Proof.
  destruct (num_of_Z_Fin z) as [q Hq]. rewrite Hq. destruct n; simpl; split; try done; rewrite bool_decide_eq_true; congruence.
Qed.

(** A key is available exactly when it is enabled, its numbers are safe integers, its end (if
    it has one) is not reached and it has quota or needs none; malformed numbers never make it
    available; and a key that is available was so at every earlier instant. *)
Theorem key_condition_exact (key : KeyStateFields) (now : jsnum) :
  (getKeyCondition key now = Available ↔
     status key = num_of_Z 1 ∧ isSafeInteger (expired_time key) = true ∧
     (expired_time key = num_of_Z (-1) ∨ num_le (expired_time key) now = false) ∧
     (unlimited_quota key = true ∨
        isSafeInteger (remain_quota key) = true ∧ num_le (remain_quota key) (num_of_Z 0) = false)) ∧
  (∀ before, num_le before now = true → getKeyCondition key now = Available →
     getKeyCondition key before = Available).
Proof.
  assert (∀ now, getKeyCondition key now = Available ↔
     status key = num_of_Z 1 ∧ isSafeInteger (expired_time key) = true ∧
     (expired_time key = num_of_Z (-1) ∨ num_le (expired_time key) now = false) ∧
     (unlimited_quota key = true ∨
        isSafeInteger (remain_quota key) = true ∧ num_le (remain_quota key) (num_of_Z 0) = false)) as H.
  { intros n. unfold getKeyCondition. destruct (num_eqb (status key) (num_of_Z 1)) eqn:E1.
    - apply num_eqb_Z in E1. rewrite E1.
      assert (∀ z, z ≠ 1 → num_eqb (num_of_Z 1) (num_of_Z z) = false) as Hne.
      { intros z Hz. destruct (num_eqb (num_of_Z 1) (num_of_Z z)) eqn:E; [|done]. apply num_eqb_Z, num_of_Z_inj in E. lia. }
      rewrite !Hne by lia. cbn [negb]. destruct (isSafeInteger (expired_time key)); cbn [negb]; [|intuition congruence].
      rewrite <- (num_eqb_Z (expired_time key)). destruct (unlimited_quota key), (isSafeInteger (remain_quota key)),
        (num_eqb (expired_time key) (num_of_Z (-1))), (num_le (expired_time key) n),
        (num_le (remain_quota key) (num_of_Z 0)); cbn [negb andb]; intuition congruence.
    - destruct (num_eqb _ (num_of_Z 2)); [split; [done|]|destruct (num_eqb _ (num_of_Z 3)); [split; [done|]|
        destruct (num_eqb _ (num_of_Z 4)); split; [done| |done|]]]; intros [Hs _]; apply num_eqb_Z in Hs; congruence. }
  split; [apply H|]. intros before Hb. rewrite !H. intros (? & ? & Ht & ?). split_and!; try done.
  destruct Ht as [?|Ht]; [by left|right]. destruct (num_le (expired_time key) before) eqn:E; [|done].
  rewrite (num_le_trans _ _ _ E Hb) in Ht. done.
Qed.

End KeyCondition.

(** ** Routing profiles *)

Module AccessProfile.

Record AccessProfileMetadata := mkProfile {
  id : jsstr; label : option jsstr; description : option jsstr;
  route_groups : option (list jsstr); model_allowlist : option (list jsstr);
  fallback_profiles : option (list jsstr); enabled : option bool }.

Record PreservedAccessProfileOption := mkPreserved {
  value : jsstr; p_label : jsstr; desc : jsstr; profileId : option jsstr }.

(** [a || b || c] of optional strings *)
Definition or_else (a : option jsstr) (b : jsstr) : jsstr := str_or (default [] a) b.

Definition normalizeAccessProfileId (group : option jsstr) (profile : option AccessProfileMetadata) : jsstr :=
  let rawId := or_else (id <$> profile) (or_else group (js "standard")) in
  if streq rawId (js "default") || streq rawId [] then js "standard"
  else if streq rawId (js "vip") then js "priority"
  else rawId.

Section translated.
Context (t : jsstr → jsstr).

Definition getAccessProfileLabel (group : option jsstr) (profile : option AccessProfileMetadata) : jsstr :=
  let i := normalizeAccessProfileId group profile in
  if streq i (js "standard") then t (js "Standard access") ++ js " (default)"
  else if streq i (js "priority") then t (js "Priority access") ++ js " (vip)"
  else if streq i (js "automatic") || streq i (js "auto") then t (js "Automatic routing") ++ js " (auto)"
  else or_else (profile ≫= label) (or_else group (t (js "Standard access"))).

Definition getAccessProfileDescription (group : option jsstr) (profile : option AccessProfileMetadata) : jsstr :=
  let i := normalizeAccessProfileId group profile in
  let configuredDescription := trim (default [] (profile ≫= description)) in
  if truthy configuredDescription then configuredDescription
  else if streq i (js "standard") then t (js "Uses the standard channel pool and billing rules.")
  else if streq i (js "priority") then t (js "Uses the priority channel pool when your account allows it.")
  else if streq i (js "automatic") || streq i (js "auto") then
    t (js "Tries eligible channel groups in order and can fail over when enabled.")
  else or_else (profile ≫= description) (t (js "Uses the channels assigned to this profile.")).

Definition listed (title : jsstr) (items : option (list jsstr)) : list jsstr :=
  match items with
  | Some (x :: l) => [t title ++ js ": " ++ join (js ", ") (x :: l)]
  | _ => []
  end.

(** The separator is a middle dot between spaces. *)
Definition dot : jsstr := [32; 183; 32]%N.

Definition getAccessProfilePolicyHint (profile : option AccessProfileMetadata) : jsstr :=
  match profile with
  | None => []
  | Some p =>
      join dot (listed (js "Routes") (route_groups p) ++ listed (js "Models") (model_allowlist p) ++
        listed (js "Fallback") (fallback_profiles p) ++
        match enabled p with Some false => [t (js "Disabled")] | _ => [] end)
  end.

Definition getPreservedAccessProfileOption (options : list jsstr) (group : option jsstr)
    (profile : option AccessProfileMetadata) : option PreservedAccessProfileOption :=
  let v := default [] group in
  if negb (truthy (trim v)) || existsb (λ option, streq option v) options then None
  else Some (mkPreserved v
    (getAccessProfileLabel (Some v) profile ++ dot ++ t (js "Existing key"))
    (join dot (List.filter truthy
       [getAccessProfileDescription (Some v) profile;
        t (js "Retained for compatibility; choose another profile only if you intend to change this key.")]))
    (id <$> profile)).
End translated.

(** Editing a key keeps its group selectable: it is among the options with the preserved one,
    and nothing else is added. *)
Theorem group_stays_selectable (t : jsstr → jsstr) (options : list jsstr) (group : jsstr)
    (profile : option AccessProfileMetadata) :
  let preserved := getPreservedAccessProfileOption t options (Some group) profile in
  (trim group ≠ [] → group ∈ options ++ option_list (value <$> preserved)) ∧
  (∀ o, preserved = Some o → value o = group ∧ (group ∉ options) ∧ profileId o = id <$> profile).
Proof.
  unfold getPreservedAccessProfileOption. simpl.
  assert (existsb (λ option, streq option group) options = true ↔ group ∈ options) as He.
  { rewrite existsb_exists. split.
    - intros (o & Hin & ->%streq_spec). by apply list_elem_of_In.
    - intros Hin. exists group. split; [by apply list_elem_of_In|apply streq_refl]. }
  destruct (truthy (trim group)) eqn:Et; cbn [negb orb].
  - destruct (existsb (λ option, streq option group) options) eqn:Ex.
    + split; [|done]. intros _. apply elem_of_app. left. by apply He.
    + split; [intros _; simpl; set_solver|]. intros o [= <-]. simpl. split_and!; [done| |done].
      intros Hin. apply He in Hin. congruence.
  - apply truthy_false in Et. split; [done|done].
Qed.

End AccessProfile.

(** ** The form of a key *)

Module KeyForm.

(** The double arithmetic of amounts. *)
Class Doubles := { fmul : jsnum → jsnum → jsnum; fdiv : jsnum → jsnum → jsnum; math_round : jsnum → jsnum }.

(** What IEEE 754 and [Math.round] say of it: a product or a quotient of ordinary size is
    within a relative error of 2^-53, and rounding finds an integer closer than a half. *)
Definition ordinary (x : Q) : Prop := (x == 0 \/ 1 # 10 ^ 40 <= x /\ x <= inject_Z (10 ^ 40))%Q.

Definition rounded (n : jsnum) (x : Q) : Prop :=
  ∃ c e, n = Fin c ∧ (- (1 # 2 ^ 53) <= e /\ e <= 1 # 2 ^ 53)%Q ∧ (this c == x * (1 + e))%Q.

Class Rounding `{Doubles} := {
  mul_rounds : ∀ a b : Qc, ordinary (this a * this b) → rounded (fmul (Fin a) (Fin b)) (this a * this b);
  div_rounds : ∀ a b : Qc, ~ (this b == 0)%Q → ordinary (this a / this b) →
    rounded (fdiv (Fin a) (Fin b)) (this a / this b);
  round_near : ∀ (x : Qc) (z : Z), (inject_Z z - (1 # 2) < this x /\ this x < inject_Z z + (1 # 2))%Q →
    math_round (Fin x) = num_of_Z z
}.

Inductive DisplayKind := KCurrency | KCustom | KTokens.

#[export] Instance DisplayKind_eq_dec : EqDecision DisplayKind.
Proof. solve_decision. Defined.

Record CurrencyDisplay := mkDisplay { kind : DisplayKind; exchangeRate : jsnum; quotaPerUnit : jsnum }.

Inductive AutoGroupsMode := Inherit | Custom.

(** Instants are time values: milliseconds, or NaN for an invalid date. *)
Record ApiKeyFormValues := mkForm {
  name : jsstr; remain_quota_dollars : option jsnum; expired_time : option jsnum; unlimited_quota : bool;
  model_limits : list jsstr; allow_ips : option jsstr; group : option jsstr; access_profile_id : option jsstr;
  auto_groups_mode : AutoGroupsMode; auto_groups : list jsstr; cross_group_retry : option bool;
  tokenCount : option jsnum }.

Record ApiKeyFormData := mkPayload {
  p_name : jsstr; p_remain_quota : jsnum; p_expired_time : jsnum; p_unlimited_quota : bool;
  p_model_limits_enabled : bool; p_model_limits : jsstr; p_allow_ips : jsstr; p_group : jsstr;
  p_access_profile_id : jsstr; p_auto_groups : list jsstr; p_cross_group_retry : bool }.

(** The fields of a key the form reads; the end is in seconds, -1 for none. *)
Record ApiKey := mkKey {
  k_name : jsstr; k_remain_quota : jsnum; k_unlimited_quota : bool; k_expired_time : Z;
  k_group : option jsstr; k_access_profile_id : option jsstr; k_access_profile : option jsstr;
  k_auto_groups : option (list jsstr); k_cross_group_retry : bool;
  k_model_limits : option jsstr; k_allow_ips : option jsstr }.

Definition DEFAULT_GROUP : jsstr := [].

(** The largest time value. *)
Definition MAX_TIME : Z := 8640000000000000.

(** [new Date(ms).getTime()] *)
Definition time_clip (ms : Z) : jsnum := if Z.abs ms <=? MAX_TIME then num_of_Z ms else NaN.

(** [Math.floor(time / 1000)] of a time value *)
Definition floor_seconds (time : jsnum) : jsnum :=
  match as_integer time with Some ms => num_of_Z (ms / 1000) | None => NaN end.

Definition or_str (s : option jsstr) (d : jsstr) : jsstr := str_or (default [] s) d.

Definition API_KEY_FORM_DEFAULT_VALUES : ApiKeyFormValues :=
  mkForm [] (Some (num_of_Z 10)) None true [] (Some []) (Some DEFAULT_GROUP) (Some (js "standard"))
    Inherit [] (Some true) (Some (num_of_Z 1)).

Definition getApiKeyFormDefaultValues (defaultUseAutoGroup : bool) : ApiKeyFormValues :=
  let d := API_KEY_FORM_DEFAULT_VALUES in
  mkForm (name d) (remain_quota_dollars d) (expired_time d) (unlimited_quota d) (model_limits d) (allow_ips d)
    (Some (if defaultUseAutoGroup then js "auto" else DEFAULT_GROUP))
    (Some (if defaultUseAutoGroup then js "automatic" else js "standard"))
    Inherit [] (Some defaultUseAutoGroup) (tokenCount d).

(** The issues the form adds to those of the types of its fields. *)
Inductive FormIssue := NoAutoGroup | TooManyAutoGroups (max : jsnum) | DuplicateAutoGroups | NegativeQuota.

Definition autoGroupLimit (maxAutoGroups : jsnum) : jsnum :=
  match as_integer maxAutoGroups with
  | Some z => if 0 <? z then maxAutoGroups else num_of_Z 5
  | None => num_of_Z 5
  end.

Definition is_auto (g : option jsstr) : bool := bool_decide (g = Some (js "auto")).

Definition form_issues (maxAutoGroups : jsnum) (data : ApiKeyFormValues) : list FormIssue :=
  let limit := autoGroupLimit maxAutoGroups in
  let auto_issues :=
    if is_auto (group data) then
      (match auto_groups_mode data, auto_groups data with Custom, [] => [NoAutoGroup] | _, _ => [] end) ++
      (if num_lt limit (num_of_Z (Z.of_nat (length (auto_groups data)))) then [TooManyAutoGroups limit] else []) ++
      (if negb (length (new_Set (auto_groups data)) =? length (auto_groups data))%nat
       then [DuplicateAutoGroups] else [])
    else [] in
  auto_issues ++
  if unlimited_quota data then []
  else match remain_quota_dollars data with
       | None => [NegativeQuota]
       | Some q => if num_lt q (num_of_Z 0) then [NegativeQuota] else []
       end.

Section doubles.
Context `{D : Doubles} (display : CurrencyDisplay).

Definition parseQuotaFromDollars (amount : jsnum) : jsnum :=
  if negb (isFinite amount) then num_of_Z 0
  else match kind display with
       | KTokens => math_round amount
       | _ =>
           let usdAmount := if num_lt (num_of_Z 0) (exchangeRate display)
                            then fdiv amount (exchangeRate display) else amount in
           math_round (fmul usdAmount (quotaPerUnit display))
       end.

Definition quotaUnitsToDollars (units : jsnum) : jsnum :=
  match kind display with
  | KTokens => units
  | _ => fmul (fdiv units (quotaPerUnit display)) (exchangeRate display)
  end.

(** [n || 0] *)
Definition num_or_zero (n : option jsnum) : jsnum :=
  match n with Some m => if value_truthy (Num m) then m else num_of_Z 0 | None => num_of_Z 0 end.

Definition transformFormDataToPayload (data : ApiKeyFormValues) : ApiKeyFormData :=
  mkPayload (name data)
    (if unlimited_quota data then num_of_Z 0 else parseQuotaFromDollars (num_or_zero (remain_quota_dollars data)))
    (match expired_time data with Some time => floor_seconds time | None => num_of_Z (-1) end)
    (unlimited_quota data)
    (0 <? length (model_limits data))%nat
    (join (js ",") (model_limits data))
    (or_str (allow_ips data) [])
    (or_str (group data) [])
    (or_str (access_profile_id data) (or_str (group data) (js "standard")))
    (match is_auto (group data), auto_groups_mode data with true, Custom => auto_groups data | _, _ => [] end)
    (if is_auto (group data) then default false (cross_group_retry data) else false).

(** [s ? s.split(',').filter(Boolean) : []] *)
Definition listed_models (s : option jsstr) : list jsstr :=
  if truthy (default [] s) then List.filter truthy (split_on 44%N (default [] s)) else [].

Definition transformApiKeyToFormDefaults (apiKey : ApiKey) (availableAutoGroups : list jsstr)
    (maxAutoGroups : Z) : ApiKeyFormValues :=
  let storedAutoGroups := default [] (k_auto_groups apiKey) in
  mkForm (k_name apiKey) (Some (quotaUnitsToDollars (k_remain_quota apiKey)))
    (if 0 <? k_expired_time apiKey then Some (time_clip (k_expired_time apiKey * 1000)) else None)
    (k_unlimited_quota apiKey)
    (listed_models (k_model_limits apiKey))
    (Some (or_str (k_allow_ips apiKey) []))
    (Some (or_str (k_group apiKey) DEFAULT_GROUP))
    (Some (or_str (k_access_profile_id apiKey)
             (or_str (k_access_profile apiKey) (or_str (k_group apiKey) (js "standard")))))
    (match storedAutoGroups with [] => Inherit | _ => Custom end)
    (take (Z.to_nat (Z.max 0 maxAutoGroups)) (List.filter (set_has (new_Set availableAutoGroups)) storedAutoGroups))
    (Some (k_cross_group_retry apiKey)) (Some (num_of_Z 1)).
End doubles.

(** *** Lemmas *)

Lemma or_str_Some s d : or_str (Some (or_str s [])) d = or_str s d.
Proof. unfold or_str, str_or. by destruct s as [[|]|]. Qed.

Lemma or_str_ne s d : d ≠ [] → or_str s d ≠ [].
Proof. intros Hd. unfold or_str, str_or. by destruct s as [[|]|]. Qed.

Lemma or_str_some s d : s ≠ [] → or_str (Some s) d = s.
Proof. by destruct s. Qed.

Lemma filter_truthy_idem l : List.filter truthy (List.filter truthy l) = List.filter truthy l.
Proof. induction l as [|x l IH]; simpl; [done|]. destruct (truthy x) eqn:E; simpl; rewrite ?E, ?IH; done. Qed.

(** The models of a comma-separated text survive being written and read again. *)
Lemma listed_models_join s : listed_models (Some (join (js ",") (listed_models s))) = listed_models s.
Proof.
  unfold listed_models at 2 3. destruct (truthy (default [] s)); [|done].
  set (ms := List.filter truthy (split_on 44%N (default [] s))).
  assert (Forall (λ p, 44%N ∉ p) ms) as Hfree.
  { apply Forall_forall. intros p Hp. apply list_elem_of_In, List.filter_In in Hp as [Hp _].
    apply list_elem_of_In in Hp. pose proof (split_free 44%N (default [] s)) as Hf.
    rewrite Forall_forall in Hf. by apply Hf. }
  unfold listed_models. simpl. destruct ms as [|m rest] eqn:Em; [done|]. rewrite <- Em in *.
  assert (truthy (join (js ",") ms) = true) as ->.
  { assert (truthy m = true) as Hm.
    { assert (In m ms) as Hin by (rewrite Em; by left). unfold ms in Hin. by apply List.filter_In in Hin as [_ ?]. }
    apply truthy_spec in Hm. rewrite Em. by destruct m, rest. }
  change (js ",") with [44%N]. rewrite (split_on_join 44%N ms); [apply filter_truthy_idem|congruence|done].
Qed.

Lemma floor_seconds_clip z : Z.abs (z * 1000) ≤ MAX_TIME → floor_seconds (time_clip (z * 1000)) = num_of_Z z.
Proof.
  intros Hz. unfold time_clip. destruct (Z.leb_spec (Z.abs (z * 1000)) MAX_TIME); [|lia].
  unfold floor_seconds. rewrite as_integer_Z. by rewrite Z.div_mul by lia.
Qed.

(** *** The quota of an unchanged form *)

Local Open Scope Q_scope.

Definition one_ulp (p : Q) : Prop := 1 - (1 # 2 ^ 53) <= p /\ p <= 1 + (1 # 2 ^ 53).

Lemma between_mul (a b lo hi lo' hi' : Q) :
  0 <= lo → 0 <= lo' → lo <= a /\ a <= hi → lo' <= b /\ b <= hi' → lo * lo' <= a * b /\ a * b <= hi * hi'.
Proof.
  intros H0 H0' [Ha Ha'] [Hb Hb']. assert (0 <= a) by lra.
  assert (0 <= b) by lra. split.
  - apply Qle_trans with (a * lo'); [by apply Qmult_le_compat_r|]. rewrite !(Qmult_comm a). by apply Qmult_le_compat_r.
  - apply Qle_trans with (hi * b); [by apply Qmult_le_compat_r|]. rewrite !(Qmult_comm hi).
    apply Qmult_le_compat_r; [done|]. by apply Qle_trans with a.
Qed.

(** Four operations that each err by at most 2^-53 err by at most 5 * 2^-53. *)
Lemma four_roundings (a b c d : Q) :
  one_ulp a → one_ulp b → one_ulp c → one_ulp d →
  1 - (5 # 2 ^ 53) <= a * b * (c * d) /\ a * b * (c * d) <= 1 + (5 # 2 ^ 53).
Proof.
  intros Ha Hb Hc Hd. set (lo := 1 - (1 # 2 ^ 53)) in *. set (hi := 1 + (1 # 2 ^ 53)) in *.
  assert (0 <= lo) as H0 by by vm_compute. assert (0 <= lo * lo) as H1 by by vm_compute.
  pose proof (between_mul a b lo hi lo hi H0 H0 Ha Hb) as Hab.
  pose proof (between_mul c d lo hi lo hi H0 H0 Hc Hd) as Hcd.
  destruct (between_mul _ _ _ _ _ _ H1 H1 Hab Hcd) as [Hl Hu]. split.
  - apply Qle_trans with (lo * lo * (lo * lo)); [by vm_compute|done].
  - apply Qle_trans with (hi * hi * (hi * hi)); [done|by vm_compute].
Qed.

Lemma rounded_ulp n x : rounded n x → ∃ c p, n = Fin c ∧ one_ulp p ∧ this c == x * p.
Proof.
  intros (c & e & -> & [He He'] & Hc). exists c, (1 + e). split_and!; [done| |done].
  unfold one_ulp. split; lra.
Qed.

(** A positive number of ordinary size, in the middle of the calculation. *)
Lemma ordinary_mul (a b lo hi lo' hi' : Q) :
  0 <= lo → 0 <= lo' → lo <= a /\ a <= hi → lo' <= b /\ b <= hi' →
  (1 # 10 ^ 40) <= lo * lo' → hi * hi' <= inject_Z (10 ^ 40) → ordinary (a * b).
Proof.
  intros H0 H0' Ha Hb Hl Hh. destruct (between_mul a b lo hi lo' hi' H0 H0' Ha Hb) as [H1 H2].
  right. split; eapply Qle_trans; eassumption.
Qed.

Lemma Qinv_antitone (a b : Q) : 0 < a → a <= b → / b <= / a.
Proof.
  intros H0 Hab. apply Qnot_lt_le. intros Hlt. assert (0 < b) by lra.
  apply Qinv_lt_contravar in Hlt; lra.
Qed.

Lemma between_inv (a lo hi : Q) : 0 < lo → lo <= a /\ a <= hi → / hi <= / a /\ / a <= / lo.
Proof. intros H0 [Hl Hh]. split; apply Qinv_antitone; lra. Qed.

(** One rounded operation on a number between bounds. *)
Lemma rounded_between n x lo hi :
  rounded n x → 0 <= lo → lo <= x /\ x <= hi →
  ∃ c p, n = Fin c ∧ one_ulp p ∧ this c == x * p ∧ (lo * (1 # 2) <= this c /\ this c <= hi * 2).
Proof.
  intros (c & p & -> & Hp & Hc)%rounded_ulp H0 Hx. exists c, p. split; [done|]. split; [done|]. split; [done|].
  rewrite Hc. apply between_mul; [done|by vm_compute|done|]. destruct Hp as [Hl Hu]. split.
  - eapply Qle_trans; [|exact Hl]. by vm_compute.
  - eapply Qle_trans; [exact Hu|]. by vm_compute.
Qed.

Lemma rounded_mul_between n (a b lo hi lo' hi' : Q) :
  (ordinary (a * b) → rounded n (a * b)) → lo <= a /\ a <= hi → lo' <= b /\ b <= hi' →
  0 <= lo → 0 <= lo' → 0 <= lo * lo' → (1 # 10 ^ 40) <= lo * lo' → hi * hi' <= inject_Z (10 ^ 40) →
  ∃ c p, n = Fin c ∧ one_ulp p ∧ this c == a * b * p ∧
    (lo * lo' * (1 # 2) <= this c /\ this c <= hi * hi' * 2).
Proof.
  intros Hn Ha Hb H0 H0' H1 Hl Hh. apply rounded_between; [|done|by apply between_mul].
  apply Hn. by apply (ordinary_mul a b lo hi lo' hi').
Qed.

(** The quota goes to the display amount and back within the error of four operations. *)
Lemma quota_error `{Rounding} (q per rate : Qc) :
  1 <= this q /\ this q <= inject_Z (10 ^ 14) → 1 <= this per /\ this per <= inject_Z (10 ^ 10) →
  (1 # 10 ^ 6) <= this rate /\ this rate <= inject_Z (10 ^ 6) →
  ∃ d c p, fmul (fdiv (Fin q) (Fin per)) (Fin rate) = Fin d ∧ ~ this d == 0 ∧
    fmul (fdiv (Fin d) (Fin rate)) (Fin per) = Fin c ∧
    1 - (5 # 2 ^ 53) <= p /\ p <= 1 + (5 # 2 ^ 53) ∧ this c == this q * p.
Proof.
  intros Hq Hp Hr.
  assert (0 < this per) as Hp1 by (eapply Qlt_le_trans; [|apply Hp]; by vm_compute).
  assert (0 < this rate) as Hr1 by (eapply Qlt_le_trans; [|apply Hr]; by vm_compute).
  assert (~ this per == 0) as Hp0 by lra. assert (~ this rate == 0) as Hr0 by lra.
  pose proof (between_inv _ 1 _ ltac:(by vm_compute) Hp) as Hip.
  pose proof (between_inv _ (1 # 10 ^ 6) _ ltac:(by vm_compute) Hr) as Hir.
  destruct (rounded_mul_between _ _ _ _ _ _ _ (div_rounds q per Hp0) Hq Hip) as (c1 & p1 & -> & H1 & E1 & R1);
    [by vm_compute..|].
  destruct (rounded_mul_between _ _ _ _ _ _ _ (mul_rounds c1 rate) R1 Hr) as (d & p2 & -> & H2 & E2 & R2);
    [by vm_compute..|].
  destruct (rounded_mul_between _ _ _ _ _ _ _ (div_rounds d rate Hr0) R2 Hir) as (c3 & p3 & E & H3 & E3 & R3);
    [by vm_compute..|].
  destruct (rounded_mul_between _ _ _ _ _ _ _ (mul_rounds c3 per) R3 Hp) as (c & p4 & E' & H4 & E4 & R4);
    [by vm_compute..|].
  exists d, c, (p1 * p2 * (p3 * p4)). rewrite E, E'. split; [done|]. split.
  { intros Hd. destruct R2 as [R2 _]. rewrite Hd in R2. revert R2. by vm_compute. }
  split; [done|]. destruct (four_roundings p1 p2 p3 p4 H1 H2 H3 H4) as [Hl Hu]. split; [done|]. split; [done|].
  rewrite E4, E3, E2, E1. field. by split.
Qed.

Local Close Scope Q_scope.

(** The rates amounts are displayed with. *)
Definition sensible_display (display : CurrencyDisplay) : Prop :=
  kind display = KTokens ∨ ∃ rate per, exchangeRate display = Fin rate ∧ quotaPerUnit display = Fin per ∧
    (1 # 10 ^ 6 <= this rate /\ this rate <= inject_Z (10 ^ 6))%Q ∧
    (1 <= this per /\ this per <= inject_Z (10 ^ 10))%Q.

Lemma Q2Qc_Z z : (this (Q2Qc (inject_Z z)) == inject_Z z)%Q.
Proof. apply Qred_correct. Qed.

Lemma num_of_Z_rational z : num_of_Z z = Fin (Q2Qc (inject_Z z)).
Proof. by with_strategy transparent [num_of_Z] unfold num_of_Z. Qed.

Lemma round_integer `{Rounding} z : math_round (num_of_Z z) = num_of_Z z.
Proof. rewrite (num_of_Z_rational z) at 1. apply round_near. rewrite !Q2Qc_Z. split; lra. Qed.

Lemma num_or_zero_Fin (d : Qc) : num_or_zero (Some (Fin d)) = Fin d.
Proof.
  unfold num_or_zero, value_truthy. rewrite bool_decide_false by done. cbn [negb andb]. unfold num_eqb.
  rewrite num_of_Z_rational. by destruct (bool_decide_reflect (Fin d = Fin (Q2Qc (inject_Z 0)))) as [[= ->]|].
Qed.

(** The zero of a positive rate. *)
Lemma zero_quota `{Rounding} (q per rate : Qc) :
  (this q == 0)%Q → (0 < this per)%Q → (0 < this rate)%Q →
  fmul (fdiv (Fin q) (Fin per)) (Fin rate) = num_of_Z 0 ∧
  fmul (fdiv (num_of_Z 0) (Fin rate)) (Fin per) = num_of_Z 0.
Proof.
  intros Hq Hp Hr.
  assert (∀ a b, (0 < this b)%Q → (this a == 0)%Q → ∃ c, fdiv (Fin a) (Fin b) = Fin c ∧ (this c == 0)%Q) as Hdiv.
  { intros a b Hb Ha. destruct (div_rounds a b) as (c & e & -> & _ & Hc); [lra|left|].
    - unfold Qdiv. rewrite Ha. lra.
    - exists c. split; [done|]. rewrite Hc. unfold Qdiv. rewrite Ha. lra. }
  assert (∀ a b, (this a == 0)%Q → fmul (Fin a) (Fin b) = num_of_Z 0) as Hmul.
  { intros a b Ha. destruct (mul_rounds a b) as (c & e & -> & _ & Hc); [left; rewrite Ha; lra|].
    rewrite num_of_Z_rational. f_equal. apply Qc_is_canon. rewrite Hc, Q2Qc_Z, Ha. change (inject_Z 0) with 0%Q. ring. }
  split.
  - destruct (Hdiv q per Hp Hq) as (c & -> & Hc). by apply Hmul.
  - destruct (Hdiv (Q2Qc (inject_Z 0)) rate Hr (Q2Qc_Z 0)) as (c & Hd & Hc).
    rewrite (num_of_Z_rational 0) at 1. rewrite Hd. by apply Hmul.
Qed.

(** An error of 5 * 2^-53 is less than a half on quotas of this size. *)
Lemma near_integer (q p : Q) :
  (1 <= q /\ q <= inject_Z (10 ^ 14))%Q → (1 - (5 # 2 ^ 53) <= p)%Q → (p <= 1 + (5 # 2 ^ 53))%Q →
  (q - (1 # 2) < q * p /\ q * p < q + (1 # 2))%Q.
Proof.
  intros [H1 Hq] Hl Hu. set (u := (5 # 2 ^ 53)%Q) in *.
  assert (q * u < 1 # 2)%Q as Hs.
  { apply Qle_lt_trans with (inject_Z (10 ^ 14) * u)%Q; [|by vm_compute].
    apply Qmult_le_compat_r; [done|by vm_compute]. }
  assert (q * (1 - u) <= q * p)%Q by (apply Qmult_le_l; lra).
  assert (q * p <= q * (1 + u))%Q by (apply Qmult_le_l; lra). split; lra.
Qed.

(** The remaining quota is displayed and read back without loss. *)
Lemma quota_roundtrip `{Rounding} (display : CurrencyDisplay) (q : Z) :
  sensible_display display → 0 ≤ q ≤ 10 ^ 14 →
  parseQuotaFromDollars display (num_or_zero (Some (quotaUnitsToDollars display (num_of_Z q)))) = num_of_Z q.
Proof.
  intros Hd Hq. unfold parseQuotaFromDollars, quotaUnitsToDollars.
  destruct (decide (kind display = KTokens)) as [->|Hk].
  { rewrite num_of_Z_rational, num_or_zero_Fin, <- num_of_Z_rational. cbn [isFinite negb].
    rewrite num_of_Z_rational at 1. apply round_integer. }
  destruct Hd as [?|(rate & per & -> & -> & Hr & Hp)]; [done|].
  assert (0 < this per)%Q as Hp1 by (eapply Qlt_le_trans; [|apply Hp]; by vm_compute).
  assert (0 < this rate)%Q as Hr1 by (eapply Qlt_le_trans; [|apply Hr]; by vm_compute).
  assert (num_lt (num_of_Z 0) (Fin rate) = true) as Hlt.
  { rewrite num_of_Z_rational. simpl. apply bool_decide_eq_true. unfold Qclt. by rewrite Q2Qc_Z. }
  rewrite Hlt.
  assert (∃ d, fmul (fdiv (Fin (Q2Qc (inject_Z q))) (Fin per)) (Fin rate) = Fin d ∧
    math_round (fmul (fdiv (Fin d) (Fin rate)) (Fin per)) = num_of_Z q) as (d & Hd & Hround).
  { destruct (decide (q = 0)) as [->|Hne].
    - destruct (zero_quota (Q2Qc (inject_Z 0)) per rate (Q2Qc_Z 0) Hp1 Hr1) as [-> H2].
      exists (Q2Qc (inject_Z 0)). rewrite <- num_of_Z_rational, H2. split; [done|]. apply round_integer.
    - assert (1 <= this (Q2Qc (inject_Z q)) /\ this (Q2Qc (inject_Z q)) <= inject_Z (10 ^ 14))%Q as Hq'.
      { rewrite !Q2Qc_Z. unfold Qle. simpl. lia. }
      destruct (quota_error (Q2Qc (inject_Z q)) per rate Hq' Hp Hr) as (d & c & p & H1 & _ & H2 & Hl & Hu & Hc).
      exists d. split; [done|]. rewrite H2. apply round_near. rewrite Hc, Q2Qc_Z in *. by apply near_integer. }
  rewrite <- num_of_Z_rational in Hd.
  destruct (kind display); [| |done]; rewrite Hd, num_or_zero_Fin; exact Hround.
Qed.

Lemma available_groups (available l : list jsstr) :
  List.filter (set_has (new_Set available)) l = filter (λ g, g ∈ available) l.
Proof.
  induction l as [|g l IH]; [done|]. rewrite filter_cons. simpl.
  destruct (set_has (new_Set available) g) eqn:E.
  - rewrite decide_True, IH; [done|]. by apply new_Set_elem, set_has_spec.
  - rewrite decide_False, IH; [done|]. intros Hg%new_Set_elem%set_has_spec. congruence.
Qed.

Lemma sent_groups `{Doubles} (display : CurrencyDisplay) (key : ApiKey) (available : list jsstr) (max : Z) :
  p_auto_groups (transformFormDataToPayload display (transformApiKeyToFormDefaults display key available max)) =
  if is_auto (Some (or_str (k_group key) []))
  then take (Z.to_nat max) (filter (λ g, g ∈ available) (default [] (k_auto_groups key))) else [].
Proof.
  unfold transformFormDataToPayload, transformApiKeyToFormDefaults.
  cbn [p_auto_groups group auto_groups_mode auto_groups]. unfold DEFAULT_GROUP.
  destruct (is_auto _); [|done]. rewrite available_groups.
  replace (Z.to_nat (Z.max 0 max)) with (Z.to_nat max) by lia.
  destruct (default [] (k_auto_groups key)); [by destruct (Z.to_nat max)|done].
Qed.

(** *** Properties *)

(** [C36] Editing a key without changing the form asks for the key as it is: its name, group,
    profile, addresses, end and listed models are sent back, and so is the remaining quota of
    a limited key of up to 10^14 units, through the rounded display amount; an unlimited key
    is sent without quota. The groups of an automatically routed key are sent in their order,
    less those no longer available and those beyond the limit, so that they are sent as they
    are when all are available and within it; if none is left, the form refuses to be saved
    instead of falling back to the global list. *)
Theorem key_form_roundtrip `{Rounding} (display : CurrencyDisplay) (key : ApiKey)
    (available : list jsstr) (max : Z) (limit : jsnum) :
  (k_expired_time key = -1 ∨ 0 < k_expired_time key ∧ k_expired_time key * 1000 ≤ MAX_TIME) →
  let form := transformApiKeyToFormDefaults display key available max in
  let payload := transformFormDataToPayload display form in
  let auto := is_auto (Some (or_str (k_group key) [])) in
  p_name payload = k_name key ∧ p_unlimited_quota payload = k_unlimited_quota key ∧
  p_expired_time payload = num_of_Z (k_expired_time key) ∧
  p_group payload = or_str (k_group key) [] ∧ p_allow_ips payload = or_str (k_allow_ips key) [] ∧
  p_access_profile_id payload = or_str (k_access_profile_id key)
    (or_str (k_access_profile key) (or_str (k_group key) (js "standard"))) ∧
  listed_models (Some (p_model_limits payload)) = listed_models (k_model_limits key) ∧
  (p_model_limits_enabled payload = true ↔ listed_models (k_model_limits key) ≠ []) ∧
  (k_unlimited_quota key = true → p_remain_quota payload = num_of_Z 0) ∧
  (∀ q, k_unlimited_quota key = false → sensible_display display → 0 ≤ q ≤ 10 ^ 14 →
     k_remain_quota key = num_of_Z q → p_remain_quota payload = num_of_Z q) ∧
  p_cross_group_retry payload = auto && k_cross_group_retry key ∧
  p_auto_groups payload =
    (if auto then take (Z.to_nat max) (filter (λ g, g ∈ available) (default [] (k_auto_groups key))) else []) ∧
  (auto = true → default [] (k_auto_groups key) ⊆ available →
     Z.of_nat (length (default [] (k_auto_groups key))) ≤ max →
     p_auto_groups payload = default [] (k_auto_groups key)) ∧
  (auto = true → default [] (k_auto_groups key) ≠ [] → p_auto_groups payload = [] →
     NoAutoGroup ∈ form_issues limit form).
Proof.
  intros Hexp form payload auto. split_and!; try done.
  - unfold payload, form, transformFormDataToPayload. cbn [expired_time transformApiKeyToFormDefaults p_expired_time].
    destruct Hexp as [->|[Hpos Hmax]]; [done|]. destruct (Z.ltb_spec 0 (k_expired_time key)); [|lia].
    apply floor_seconds_clip. lia.
  - apply or_str_Some.
  - apply or_str_Some.
  - unfold payload, form. cbn [transformFormDataToPayload transformApiKeyToFormDefaults p_access_profile_id access_profile_id group].
    apply or_str_some. by repeat apply or_str_ne.
  - apply listed_models_join.
  - unfold payload, form. cbn [transformFormDataToPayload transformApiKeyToFormDefaults p_model_limits_enabled model_limits].
    by destruct (listed_models (k_model_limits key)).
  - intros Hu. unfold payload. cbn [transformFormDataToPayload p_remain_quota].
    change (unlimited_quota form) with (k_unlimited_quota key). by rewrite Hu.
  - intros q Hu Hd Hq Hk. unfold payload. cbn [transformFormDataToPayload p_remain_quota].
    change (unlimited_quota form) with (k_unlimited_quota key). rewrite Hu.
    change (remain_quota_dollars form) with (Some (quotaUnitsToDollars display (k_remain_quota key))).
    rewrite Hk. by apply quota_roundtrip.
  - exact (sent_groups display key available max).
  - intros Ha Hall Hmax. unfold payload. rewrite (sent_groups display key available max). fold auto. rewrite Ha.
    rewrite filter_all by (apply Forall_forall; intros g Hg; by apply Hall). apply take_ge. lia.
  - intros Ha Hne. unfold payload, transformFormDataToPayload. cbn [p_auto_groups].
    unfold form_issues. change (is_auto (group form)) with auto. rewrite Ha.
    change (auto_groups_mode form) with (match default [] (k_auto_groups key) with [] => Inherit | _ => Custom end).
    destruct (default [] (k_auto_groups key)) as [|x l] eqn:E; [done|]. intros ->. left.
Qed.

(** Arithmetic without rounding. *)
Definition lift2 (f : Qc → Qc → Qc) (a b : jsnum) : jsnum :=
  match a, b with Fin p, Fin q => Fin (f p q) | _, _ => NaN end.

#[export] Instance exact_doubles : Doubles := {|
  fmul := lift2 Qcmult; fdiv := lift2 Qcdiv;
  math_round a := match a with Fin q => num_of_Z (Qfloor (Qplus (this q) (Qmake 1 2))) | _ => a end |}.

Lemma exact_rounded c : rounded (Fin c) (this c).
Proof.
  exists c, 0%Q. split; [done|]. split; [split; by vm_compute|]. ring.
Qed.

Lemma rounded_eq n x y : (x == y)%Q → rounded n x → rounded n y.
Proof. intros Hxy (c & e & -> & He & Hc). exists c, e. by rewrite <- Hxy. Qed.

#[export] Instance exact_rounding : Rounding.
Proof.
  split.
  - intros a b _. apply (rounded_eq _ (this (a * b)%Qc)); [apply Qred_correct|apply exact_rounded].
  - intros a b _ _. apply (rounded_eq _ (this (a / b)%Qc)); [|apply exact_rounded].
    simpl. rewrite !Qred_correct. done.
  - intros x z [Hl Hu]. set (y := (this x + (1 # 2))%Q).
    change (num_of_Z (Qfloor y) = num_of_Z z). f_equal.
    pose proof (Qfloor_le y) as H1. pose proof (Qlt_floor y) as H2.
    assert (inject_Z (Qfloor y) < inject_Z (z + 1))%Q as H3 by (rewrite inject_Z_plus; unfold y in *; change (inject_Z 1) with 1%Q; lra).
    assert (inject_Z z < inject_Z (Qfloor y + 1))%Q as H4 by (unfold y in *; lra).
    rewrite <- Zlt_Qlt in H3, H4. lia.
Defined.

Definition sample_key : ApiKey :=
  mkKey (js "k") (num_of_Z 123457) false 1700000000 (Some (js "auto")) None None
    (Some [js "vip"; js "gone"]) true (Some (js "m1,,m2")) None.

Lemma key_form_roundtrip_witness :
  let display := mkDisplay KCurrency (num_of_Z 1) (num_of_Z 500000) in
  let form := transformApiKeyToFormDefaults display sample_key [js "vip"] 5 in
  p_expired_time (transformFormDataToPayload display form) = num_of_Z 1700000000 ∧
  p_remain_quota (transformFormDataToPayload display form) = num_of_Z 123457.
Proof.
  intros display form.
  destruct (key_form_roundtrip display sample_key [js "vip"] 5 (num_of_Z 5))
    as (_ & _ & H & _ & _ & _ & _ & _ & _ & Hq & _).
  { right. vm_compute. split; [reflexivity|discriminate]. }
  split; [exact H|]. apply Hq; [done| |lia|done]. right.
  exists (Q2Qc (inject_Z 1)), (Q2Qc (inject_Z 500000)).
  split; [apply num_of_Z_rational|]. split; [apply num_of_Z_rational|]. split; split; by vm_compute.
Defined.

End KeyForm.
