(* ===== verification/Channels.v ===== *)
(** * Checks of the channel editor (web/src/features/channels/lib: model-mapping-validation.ts,
      status-code-risk-guard.ts, channel-field-update.ts, model-routes.ts,
      input-token-limits.ts, channel-routing.ts)

    What the editor of a channel accepts, warns about and saves. [JSON.parse] is a parameter
    that returns a value or throws; the fields of an object are listed in the order in which
    [Object.entries] does, with distinct names. *)
From S2P Require Import Prelude JsString JsMap JsValue.
Local Open Scope Z_scope.

(** The object a text holds: [None] when it is no JSON, [Some None] when it is another value. *)
Definition object_of (JSON_parse : jsstr → option value) (text : jsstr) :
    option (option (list (jsstr * value))) :=
  match JSON_parse text with
  | None => None
  | Some (Obj fields) => Some (Some fields)
  | Some _ => Some None
  end.

(** ** Model mappings *)

Module ModelMapping.

Definition normalizeModelName (model : jsstr) : jsstr := trim model.

Definition parseModelsString (modelsStr : jsstr) : list jsstr :=
  if truthy modelsStr then List.filter truthy (map trim (split_on 44%N modelsStr)) else [].

Definition formatModelsArray (models : list jsstr) : jsstr := join (js ",") (new_Set models).

Section mapping.
Context (JSON_parse : jsstr → option value).

Definition extractMappingSourceModels (modelMapping : jsstr) : list jsstr :=
  let trimmed := trim modelMapping in
  if negb (truthy trimmed) then []
  else match object_of JSON_parse trimmed with
       | Some (Some fields) => new_Set (List.filter truthy (map (λ kv, trim (fst kv)) fields))
       | _ => []
       end.

(** [typeof value === 'string' ? value.trim() : undefined] *)
Definition target_of (v : value) : option jsstr := match v with Str s => Some (trim s) | _ => None end.

Definition extractRedirectModels (modelMapping : jsstr) : list jsstr :=
  let trimmed := trim modelMapping in
  if negb (truthy trimmed) then []
  else match object_of JSON_parse trimmed with
       | Some (Some fields) => new_Set (List.filter truthy (omap (λ kv, target_of (snd kv)) fields))
       | _ => []
       end.

Definition hasModelConfigChanged (currentModels : list jsstr) (currentModelMapping : jsstr)
    (initialModels : list jsstr) (initialModelMapping : jsstr) : bool :=
  if (length initialModels =? 0)%nat && negb (truthy initialModelMapping) then true
  else if negb (length currentModels =? length initialModels)%nat then true
  else if existsb (λ '(a, b), negb (streq a b)) (zip currentModels initialModels) then true
  else negb (streq (trim currentModelMapping) (trim initialModelMapping)).

Definition findMissingModelsInMapping (modelMapping : jsstr) (currentModels : list jsstr) : list jsstr :=
  if negb (truthy modelMapping) || streq (trim modelMapping) [] then []
  else match object_of JSON_parse modelMapping with
       | Some (Some fields) =>
           let modelSet := new_Set (map normalizeModelName currentModels) in
           new_Set (List.filter (λ key, truthy key && negb (set_has modelSet key))
                      (map (λ kv, normalizeModelName (fst kv)) fields))
       | _ => []
       end.

Inductive MappingError := NotObject | ValuesNotStrings | NotJson.

(** [None]: valid *)
Definition validateModelMappingJson (modelMapping : jsstr) : option MappingError :=
  if negb (truthy modelMapping) || streq (trim modelMapping) [] then None
  else match object_of JSON_parse modelMapping with
       | None => Some NotJson
       | Some None => Some NotObject
       | Some (Some fields) =>
           if existsb (λ kv, match snd kv with Str _ => false | _ => true end) fields
           then Some ValuesNotStrings else None
       end.

Definition findExposedTargetModels (modelMapping : jsstr) (currentModels : list jsstr) : list jsstr :=
  let redirectModels := extractRedirectModels modelMapping in
  match redirectModels with
  | [] => []
  | _ =>
      let modelSet := new_Set (map normalizeModelName currentModels) in
      List.filter (λ model, set_has modelSet (normalizeModelName model)) redirectModels
  end.
End mapping.

Record Categories := mkCategories {
  normalizedCurrentModels : list jsstr; normalizedRedirectModels : list jsstr;
  classificationSet : list jsstr; redirectOnlySet : list jsstr }.

Definition categorizeModelsWithRedirect (currentModels redirectModels : list jsstr) : Categories :=
  let current := new_Set (List.filter truthy (map normalizeModelName currentModels)) in
  let redirect := new_Set (List.filter truthy (map normalizeModelName redirectModels)) in
  mkCategories current redirect (new_Set (current ++ redirect))
    (new_Set (List.filter (λ m, negb (set_has current m)) redirect)).

(** *** Lemmas *)

Lemma elem_of_filter_truthy (x : jsstr) l : x ∈ List.filter truthy l ↔ x ∈ l ∧ x ≠ [].
Proof. by rewrite list_elem_of_In, List.filter_In, <- list_elem_of_In, truthy_spec. Qed.

Lemma elem_of_map {A B} (f : A → B) l y : y ∈ map f l ↔ ∃ x, x ∈ l ∧ y = f x.
Proof. rewrite (list_elem_of_fmap f l y). naive_solver. Qed.

(** A text is read as blank by every function or by none. *)
Lemma blank_spec s : negb (truthy s) || streq (trim s) [] = true ↔ trim s = [].
Proof.
  rewrite orb_true_iff, negb_true_iff, truthy_false, streq_spec. split; [|auto]. intros [->|?]; done.
Qed.

Lemma parse_format ms : Forall (λ m, trim m = m ∧ m ≠ [] ∧ 44%N ∉ m) ms →
  parseModelsString (formatModelsArray ms) = new_Set ms.
Proof.
  intros Hms. assert (Forall list_item (new_Set ms)) as Hs.
  { rewrite Forall_forall in *. intros m Hm. apply Hms. by apply new_Set_elem. }
  etrans; [|exact (comma_list_join _ Hs)]. unfold parseModelsString, formatModelsArray.
  by destruct (join (js ",") (new_Set ms)).
Qed.

(** *** Properties *)

(** A model mapping against the list of models: the missing models are exactly the
    sources that are not listed, and listing them leaves none missing; the exposed targets are
    exactly the listed targets, and taking them off the list leaves none exposed; formatting
    a list of models and parsing it back gives the list without repetitions. *)
Theorem model_mapping_consistent (JSON_parse : jsstr → option value) (mapping : jsstr)
    (fields : list (jsstr * value)) (models : list jsstr) :
  trim mapping = mapping → mapping ≠ [] → JSON_parse mapping = Some (Obj fields) →
  let missing := findMissingModelsInMapping JSON_parse mapping models in
  let exposed := findExposedTargetModels JSON_parse mapping models in
  (∀ m, m ∈ missing ↔ m ≠ [] ∧ (∃ k v, (k, v) ∈ fields ∧ trim k = m) ∧ (m ∉ trim <$> models)) ∧
  findMissingModelsInMapping JSON_parse mapping (models ++ missing) = [] ∧
  (∀ m, m ∈ exposed ↔ m ≠ [] ∧ (∃ k s, (k, Str s) ∈ fields ∧ trim s = m) ∧ (m ∈ trim <$> models)) ∧
  findExposedTargetModels JSON_parse mapping (filter (λ m, trim m ∉ exposed) models) = [] ∧
  NoDup missing ∧
  (∀ ms, Forall (λ m, trim m = m ∧ m ≠ [] ∧ 44%N ∉ m) ms → parseModelsString (formatModelsArray ms) = new_Set ms).
Proof.
  intros Htrim Hne Hparse missing exposed.
  assert (negb (truthy mapping) || streq (trim mapping) [] = false) as Hb.
  { apply not_true_iff_false. rewrite blank_spec. congruence. }
  assert (object_of JSON_parse mapping = Some (Some fields)) as Ho by (unfold object_of; by rewrite Hparse).
  assert (∀ ms m, m ∈ findMissingModelsInMapping JSON_parse mapping ms ↔
    m ≠ [] ∧ (∃ k v, (k, v) ∈ fields ∧ trim k = m) ∧ (m ∉ trim <$> ms)) as Hmissing.
  { intros ms m. unfold findMissingModelsInMapping. rewrite Hb, Ho, new_Set_elem, list_elem_of_In, List.filter_In,
      <- list_elem_of_In, elem_of_map, andb_true_iff, negb_true_iff, truthy_spec.
    rewrite <- not_true_iff_false, set_has_spec, new_Set_elem. change (map normalizeModelName ms) with (trim <$> ms).
    unfold normalizeModelName. split.
    - intros (([k v] & Hin & ->) & ? & ?). split_and!; [done|eauto|done].
    - intros (? & (k & v & Hin & <-) & ?). split_and!; [by exists (k, v)|done..]. }
  assert (extractRedirectModels JSON_parse mapping = new_Set (List.filter truthy (omap (λ kv, target_of (snd kv)) fields))) as Hr.
  { unfold extractRedirectModels. rewrite Htrim, Ho. by destruct mapping. }
  assert (∀ ms m, m ∈ findExposedTargetModels JSON_parse mapping ms ↔
    m ≠ [] ∧ (∃ k s, (k, Str s) ∈ fields ∧ trim s = m) ∧ (m ∈ trim <$> ms)) as Hexposed.
  { intros ms m. unfold findExposedTargetModels. rewrite Hr.
    set (rs := new_Set _). assert (∀ x, x ∈ rs ↔ x ≠ [] ∧ ∃ k s, (k, Str s) ∈ fields ∧ trim s = x) as Hrs.
    { intros x. unfold rs. rewrite new_Set_elem, elem_of_filter_truthy, list_elem_of_omap. split.
      - intros [([k []] & Hin & [= <-]) ?]. split; [done|]. eauto.
      - intros (? & k & s & Hin & <-). split; [exists (k, Str s); done|done]. }
    transitivity (m ∈ List.filter (λ model, set_has (new_Set (map normalizeModelName ms)) (normalizeModelName model)) rs).
    { by destruct rs. }
    rewrite list_elem_of_In, List.filter_In, <- list_elem_of_In, Hrs, set_has_spec, new_Set_elem.
    change (map normalizeModelName ms) with (trim <$> ms). unfold normalizeModelName. split.
    - intros [[? (k & s & Hin & <-)] Ht]. rewrite trim_idemp in Ht. split_and!; [done|eauto|done].
    - intros (? & (k & s & Hin & <-) & Ht). rewrite trim_idemp. split_and!; eauto. }
  assert (∀ l : list jsstr, (∀ m, m ∉ l) → l = []) as Hnil.
  { intros [|x l] H; [done|]. exfalso. apply (H x). left. }
  split_and!.
  - apply Hmissing.
  - apply Hnil. intros m (Hm & Hk & Hn)%Hmissing. apply Hn. rewrite fmap_app, elem_of_app.
    destruct (decide (m ∈ trim <$> models)) as [?|Hni]; [by left|right]. apply list_elem_of_fmap. exists m.
    assert (trim m = m) as Ht by (destruct Hk as (k & v & _ & <-); apply trim_idemp).
    split; [done|]. by apply Hmissing.
  - apply Hexposed.
  - apply Hnil. intros m (Hm & Hk & Hin)%Hexposed. apply list_elem_of_fmap in Hin as (x & -> & Hin).
    apply list_elem_of_filter in Hin as [Hn Hin]. apply Hn, Hexposed. split_and!; [done..|]. apply list_elem_of_fmap. eauto.
  - unfold missing, findMissingModelsInMapping. rewrite Hb, Ho. apply new_Set_NoDup.
  - apply parse_format.
Qed.

Definition sample_parse (s : jsstr) : option value :=
  if streq s (js "{}") then Some (Obj []) else if streq s (js "M") then Some (Obj [(js "a", Str (js "b"))]) else None.

Lemma model_mapping_consistent_witness :
  findMissingModelsInMapping sample_parse (js "M")
    ([js "b"] ++ findMissingModelsInMapping sample_parse (js "M") [js "b"]) = [].
Proof.
  destruct (model_mapping_consistent sample_parse (js "M") [(js "a", Str (js "b"))] [js "b"]) as (_ & H & _);
    [reflexivity|discriminate|reflexivity|exact H].
Defined.

End ModelMapping.

(** ** Status code mappings *)

Module StatusCodeRisk.

Definition NON_REDIRECTABLE_STATUS_CODES : list Z := [504; 524].

(** [/^[1-5]\d{2}$/] *)
Definition status_pattern (s : jsstr) : bool :=
  match s with
  | [a; b; c] => ((49 <=? a) && (a <=? 53))%N && is_digit b && is_digit c
  | _ => false
  end.

Definition parseStatusCodeKey (rawKey : jsstr) : option Z :=
  let normalized := trim rawKey in
  if negb (status_pattern normalized) then None else Some (Z.of_N (parse_digits normalized)).

Definition in_range (code : Z) : option Z := if (100 <=? code) && (code <=? 599) then Some code else None.

Definition parseStatusCodeMappingTarget (rawValue : value) : option Z :=
  match rawValue with
  | Num n => match as_integer n with Some z => in_range z | None => None end
  | Str s =>
      let normalized := trim s in
      if negb (status_pattern normalized) then None else in_range (Z.of_N (parse_digits normalized))
  | _ => None
  end.

(** The order of strings by their units, which [sort()] uses. *)
Fixpoint unit_le (a b : jsstr) : bool :=
  match a, b with
  | [], _ => true
  | _, [] => false
  | x :: a', y :: b' => if (x =? y)%N then unit_le a' b' else (x <? y)%N
  end.

Section mapping.
Context (JSON_parse : jsstr → option value) (String : value → jsstr).

Definition mapping_entries (s : jsstr) : list (jsstr * value) :=
  if negb (truthy (trim s)) then []
  else match object_of JSON_parse s with Some (Some fields) => fields | _ => [] end.

(** The arrow is U+2192 between spaces. *)
Definition collectInvalidStatusCodeEntries (statusCodeMappingStr : jsstr) : list jsstr :=
  omap (λ '(rawKey, rawValue),
    match parseStatusCodeKey rawKey, parseStatusCodeMappingTarget rawValue with
    | Some _, Some _ => None
    | _, _ => Some (rawKey ++ [32; 8594; 32]%N ++ String rawValue)
    end) (mapping_entries statusCodeMappingStr).

Definition risky (entry : jsstr * value) : option jsstr :=
  match parseStatusCodeKey (fst entry), parseStatusCodeMappingTarget (snd entry) with
  | Some fromCode, Some toCode =>
      if negb (set_has NON_REDIRECTABLE_STATUS_CODES fromCode) then None
      else if fromCode =? toCode then None
      else Some (show_Z fromCode ++ js " -> " ++ show_Z toCode)
  | _, _ => None
  end.

Definition collectDisallowedStatusCodeRedirects (statusCodeMappingStr : jsstr) : list jsstr :=
  js_sort unit_le (new_Set (omap risky (mapping_entries statusCodeMappingStr))).

Definition collectNewDisallowedStatusCodeRedirects (originalStr currentStr : jsstr) : list jsstr :=
  let currentRisky := collectDisallowedStatusCodeRedirects currentStr in
  match currentRisky with
  | [] => []
  | _ =>
      let originalRiskySet := new_Set (collectDisallowedStatusCodeRedirects originalStr) in
      List.filter (λ mapping, negb (set_has originalRiskySet mapping)) currentRisky
  end.
End mapping.

Lemma unit_le_total a b : unit_le a b = true ∨ unit_le b a = true.
Proof.
  revert b. induction a as [|x a IH]; intros [|y b]; simpl; auto.
  rewrite (N.eqb_sym y x). destruct (N.eqb_spec x y); [apply IH|]. rewrite !N.ltb_lt. lia.
Qed.

(** The redirections that are warned about are exactly those that send 504 or 524 elsewhere,
    each once and in order, and the new ones those the original mapping does not have. *)
Theorem risky_redirects_exact (JSON_parse : jsstr → option value) (original current : jsstr) :
  let risky_now := collectDisallowedStatusCodeRedirects JSON_parse current in
  (∀ m, m ∈ risky_now ↔ ∃ k v f t, (k, v) ∈ mapping_entries JSON_parse current ∧
     parseStatusCodeKey k = Some f ∧ parseStatusCodeMappingTarget v = Some t ∧
     (f = 504 ∨ f = 524) ∧ f ≠ t ∧ m = show_Z f ++ js " -> " ++ show_Z t) ∧
  NoDup risky_now ∧ Sorted (λ a b, unit_le a b = true) risky_now ∧
  (∀ m, m ∈ collectNewDisallowedStatusCodeRedirects JSON_parse original current ↔
     m ∈ risky_now ∧ (m ∉ collectDisallowedStatusCodeRedirects JSON_parse original)).
Proof.
  intros risky_now. split_and!.
  - intros m. unfold risky_now, collectDisallowedStatusCodeRedirects.
    rewrite js_sort_elem_of, new_Set_elem, list_elem_of_omap. unfold risky. split.
    + intros ([k v] & Hin & Hr). simpl in Hr. destruct (parseStatusCodeKey k) as [f|] eqn:Ek; [|done].
      destruct (parseStatusCodeMappingTarget v) as [t|] eqn:Et; [|done].
      destruct (set_has NON_REDIRECTABLE_STATUS_CODES f) eqn:Es; cbn [negb] in Hr; [|done].
      destruct (Z.eqb_spec f t); [done|]. injection Hr as <-. apply set_has_spec in Es.
      exists k, v, f, t. split_and!; try done. unfold NON_REDIRECTABLE_STATUS_CODES in Es. set_solver.
    + intros (k & v & f & t & Hin & Hk & Ht & Hf & Hne & ->). exists (k, v). split; [done|]. simpl. rewrite Hk, Ht.
      assert (set_has NON_REDIRECTABLE_STATUS_CODES f = true) as ->
        by (apply set_has_spec; unfold NON_REDIRECTABLE_STATUS_CODES; set_solver).
      cbn [negb]. by destruct (Z.eqb_spec f t).
  - unfold risky_now, collectDisallowedStatusCodeRedirects. rewrite js_sort_perm. apply new_Set_NoDup.
  - apply js_sort_Sorted. intros a b Hf. destruct (unit_le_total a b); congruence.
  - intros m. unfold collectNewDisallowedStatusCodeRedirects. fold risky_now.
    transitivity (m ∈ List.filter (λ mapping, negb (set_has (new_Set
      (collectDisallowedStatusCodeRedirects JSON_parse original)) mapping)) risky_now).
    { by destruct risky_now. }
    rewrite list_elem_of_In, List.filter_In, <- list_elem_of_In, negb_true_iff, <- not_true_iff_false,
      set_has_spec, new_Set_elem. done.
Qed.

End StatusCodeRisk.

(** ** Updates of a field, delayed *)

Module FieldUpdate.

Definition CHANNEL_FIELD_UPDATE_DELAY_MS : Z := 800.

(** The variables of the scheduler, the browser's live timers, and the updates made so far. *)
Record State := mkState {
  timeoutId : option nat; pendingValue : option jsnum;
  live : list nat; nextId : nat; updates : list jsnum }.

Definition init : State := mkState None None [] 0 [].

Definition clearPendingTimer (s : State) : State :=
  match timeoutId s with
  | None => s
  | Some id => mkState None (pendingValue s) (List.filter (λ i, negb (i =? id)%nat) (live s)) (nextId s) (updates s)
  end.

Definition commitPendingValue (s : State) : State :=
  let s1 := clearPendingTimer s in
  match pendingValue s1 with
  | None => s1
  | Some v => mkState (timeoutId s1) None (live s1) (nextId s1) (updates s1 ++ [v])
  end.

Definition schedule (v : jsnum) (s : State) : State :=
  let s1 := clearPendingTimer s in
  mkState (Some (nextId s1)) (Some v) (live s1 ++ [nextId s1]) (S (nextId s1)) (updates s1).

Definition flush (s : State) : State := commitPendingValue s.

(** A live timer expires: the browser drops it and calls back. *)
Definition fire (id : nat) (s : State) : State :=
  commitPendingValue (mkState (timeoutId s) (pendingValue s)
    (List.filter (λ i, negb (i =? id)%nat) (live s)) (nextId s) (updates s)).

Inductive step : State → option jsnum → State → Prop :=
| step_schedule v s : step s (Some v) (schedule v s)
| step_flush s : step s None (flush s)
| step_fire id s : id ∈ live s → step s None (fire id s).

(** What the scheduler promises: a value replaces the pending one, and is handed over at the
    next flush or expiry. *)
Definition spec_step (st : option jsnum * list jsnum) (event : option jsnum) : option jsnum * list jsnum :=
  match event with
  | Some v => (Some v, snd st)
  | None => (None, snd st ++ option_list (fst st))
  end.

Inductive steps : State → list (option jsnum) → State → Prop :=
| steps_nil s : steps s [] s
| steps_snoc s es s' e s'' : steps s es s' → step s' e s'' → steps s (es ++ [e]) s''.

(** A timer is live exactly while a value is pending. *)
Definition inv (s : State) : Prop :=
  match timeoutId s with
  | Some id => live s = [id] ∧ (∃ v, pendingValue s = Some v) ∧ (id < nextId s)%nat
  | None => live s = [] ∧ pendingValue s = None
  end.

Lemma inv_schedule v s : inv s → inv (schedule v s).
Proof.
  unfold inv, schedule, clearPendingTimer. destruct (timeoutId s) as [id|] eqn:E; simpl.
  - intros (-> & _ & Hid). simpl. rewrite Nat.eqb_refl. simpl. split_and!; [done|eauto|lia].
  - intros [-> _]. simpl. split_and!; [done|eauto|lia].
Qed.

Lemma commit_pending s : inv s →
  let s' := commitPendingValue s in
  inv s' ∧ pendingValue s' = None ∧ updates s' = updates s ++ option_list (pendingValue s).
Proof.
  unfold inv, commitPendingValue, clearPendingTimer. destruct (timeoutId s) as [id|] eqn:E; simpl.
  - intros (Hl & [v Hv] & Hid). rewrite Hv, Hl. simpl. rewrite Nat.eqb_refl. done.
  - intros [Hl Hv]. rewrite Hv. simpl. rewrite E, app_nil_r. done.
Qed.

Lemma fire_commits s id : inv s → id ∈ live s → fire id s = commitPendingValue s.
Proof.
  unfold inv. intros Hinv Hin. destruct (timeoutId s) as [id'|] eqn:E; [|destruct Hinv as [Hl _]; rewrite Hl in Hin; set_solver].
  destruct Hinv as (Hl & _ & _). rewrite Hl in Hin. apply list_elem_of_singleton in Hin as ->.
  unfold fire, commitPendingValue, clearPendingTimer. simpl. rewrite E, Hl. simpl. by rewrite Nat.eqb_refl.
Qed.

Lemma step_refines s e s' : step s e s' → inv s →
  inv s' ∧ (pendingValue s', updates s') = spec_step (pendingValue s, updates s) e.
Proof.
  destruct 1 as [v s|s|id s Hin]; intros Hinv.
  - split; [by apply inv_schedule|]. unfold schedule, clearPendingTimer. by destruct (timeoutId s).
  - destruct (commit_pending s Hinv) as (? & Hp & Hu). unfold flush. rewrite Hp, Hu. done.
  - rewrite fire_commits by done. destruct (commit_pending s Hinv) as (? & Hp & Hu). rewrite Hp, Hu. done.
Qed.

(** [C40] Delayed updates: whatever the order of edits, flushes and expiries of the browser's
    timers, the values handed over are those of the specification (of the edits made between
    two hand-overs the last one, once), at most one timer is live, and while a value is
    pending one is, whose expiry hands over that value. *)
Theorem delayed_updates_refine (es : list (option jsnum)) (s : State) :
  steps init es s →
  (pendingValue s, updates s) = foldl spec_step (None, []) es ∧ (length (live s) ≤ 1)%nat ∧
  (∀ v, pendingValue s = Some v →
     ∃ id, live s = [id] ∧ updates (fire id s) = updates s ++ [v] ∧ live (fire id s) = []).
Proof.
  intros Hs. assert (inv s ∧ (pendingValue s, updates s) = foldl spec_step (None, []) es) as [Hinv Hspec].
  { remember init as s0. induction Hs as [s0|s0 es s' e s'' Hs IH Hstep]; subst; [done|].
    destruct IH as [Hinv Heq]; [done|]. destruct (step_refines _ _ _ Hstep Hinv) as [? Hr]. split; [done|].
    rewrite foldl_app. simpl. by rewrite <- Heq. }
  split; [done|]. pose proof Hinv as Hinv'. unfold inv in Hinv'. destruct (timeoutId s) as [id|] eqn:Et.
  - destruct Hinv' as (Hl & _ & _). rewrite Hl. split; [simpl; lia|]. intros v Hv. exists id. split; [done|].
    rewrite fire_commits by (done || (rewrite Hl; left)). destruct (commit_pending s Hinv) as (Hi & Hp & Hu).
    rewrite Hu, Hv. split; [done|]. unfold inv in Hi. destruct (timeoutId (commitPendingValue s)).
    + destruct Hi as (_ & [? ?] & _). congruence.
    + by destruct Hi.
  - destruct Hinv' as [-> Hv]. split; [simpl; lia|]. intros v Hv'. congruence.
Qed.

Lemma delayed_updates_refine_witness :
  (None, [num_of_Z 2]) = foldl spec_step (None, []) [Some (num_of_Z 1); Some (num_of_Z 2); None].
Proof.
  apply (delayed_updates_refine [Some (num_of_Z 1); Some (num_of_Z 2); None]
    (fire 1 (schedule (num_of_Z 2) (schedule (num_of_Z 1) init)))).
  apply (steps_snoc init [Some (num_of_Z 1); Some (num_of_Z 2)]
    (schedule (num_of_Z 2) (schedule (num_of_Z 1) init)) None).
  - apply (steps_snoc init [Some (num_of_Z 1)] (schedule (num_of_Z 1) init) (Some (num_of_Z 2))); [|constructor].
    apply (steps_snoc init [] init (Some (num_of_Z 1))); constructor.
  - apply step_fire. vm_compute. left.
Defined.

End FieldUpdate.

(** ** Routes of models *)

Module ModelRoutes.

Inductive MatchMode := Exact | Prefix.

#[export] Instance MatchMode_eq_dec : EqDecision MatchMode.
Proof. solve_decision. Defined.

Record ModelRoute := mkRoute {
  public_model : jsstr; upstream_model : jsstr; endpoint : jsstr; match_mode : MatchMode; priority : Z }.

Inductive RouteError := BadRoute | UnsupportedType | CodexChat | Conflict.

(** [value.trim() === value && !/[\r\n\t,]/.test(value)], between 1 and 255 units *)
Definition model_name_ok (s : jsstr) : bool :=
  (1 <=? length s)%nat && (length s <=? 255)%nat && streq (trim s) s &&
  negb (existsb (λ c, (c =? 13) || (c =? 10) || (c =? 9) || (c =? 44))%N s).

Definition name_of (v : value) : option jsstr :=
  match v with Str s => if model_name_ok s then Some s else None | _ => None end.

Definition endpoint_of (v : value) : option jsstr :=
  match v with
  | Str s => if set_has [[]; js "/v1/chat/completions"; js "/v1/responses"] s then Some s else None
  | _ => None
  end.

Definition match_of (v : value) : option MatchMode :=
  match v with
  | Str s => if streq s (js "exact") then Some Exact else if streq s (js "prefix") then Some Prefix else None
  | _ => None
  end.

(** An integer of the schema library is a safe one. *)
Definition priority_of (v : value) : option Z :=
  match v with Num n => if isSafeInteger n then as_integer n else None | _ => None end.

Definition modelRouteSchema (v : value) : option ModelRoute :=
  match v with
  | Obj _ =>
      match name_of (get v (js "public_model")), name_of (get v (js "upstream_model")),
            endpoint_of (get v (js "endpoint")), match_of (get v (js "match")), priority_of (get v (js "priority")) with
      | Some p, Some u, Some e, Some m, Some z => Some (mkRoute p u e m z)
      | _, _, _, _, _ => None
      end
  | _ => None
  end.

Fixpoint parse_all (l : list value) : option (list ModelRoute) :=
  match l with
  | [] => Some []
  | v :: rest =>
      match modelRouteSchema v, parse_all rest with Some r, Some rs => Some (r :: rs) | _, _ => None end
  end.

(** [z.array(modelRouteSchema).max(256).safeParse(v)] *)
Definition parse_routes (v : value) : option (list ModelRoute) :=
  match v with
  | Arr l => if (length l <=? 256)%nat then parse_all l else None
  | _ => None
  end.

Definition conflicts (other route : ModelRoute) : bool :=
  streq (public_model other) (public_model route) && bool_decide (match_mode other = match_mode route) &&
  streq (endpoint other) (endpoint route) && (priority other =? priority route) &&
  negb (streq (upstream_model other) (upstream_model route)).

(** The loop over the routes, with the ones before. *)
Fixpoint check_routes (type : Z) (before routes : list ModelRoute) : option RouteError :=
  match routes with
  | [] => None
  | route :: rest =>
      if (type =? 57) && streq (endpoint route) (js "/v1/chat/completions") then Some CodexChat
      else if existsb (λ other, conflicts other route) before then Some Conflict
      else check_routes type (before ++ [route]) rest
  end.

Definition validateModelRoutes (JSON_parse : jsstr → option value) (settings : option jsstr) (type : Z) :
    option RouteError :=
  match JSON_parse (str_or (default [] settings) (js "{}")) with
  | None => None
  | Some parsed =>
      match get parsed (js "model_routes") with
      | Undef => None
      | v =>
          match parse_routes v with
          | None => Some BadRoute
          | Some routes =>
              if (0 <? length routes)%nat && negb (type =? 1) && negb (type =? 57) then Some UnsupportedType
              else check_routes type [] routes
          end
      end
  end.

Lemma conflicts_spec o r : conflicts o r = true ↔
  public_model o = public_model r ∧ match_mode o = match_mode r ∧ endpoint o = endpoint r ∧
  priority o = priority r ∧ upstream_model o ≠ upstream_model r.
Proof.
  unfold conflicts. rewrite !andb_true_iff, !streq_spec, bool_decide_eq_true, Z.eqb_eq, negb_true_iff,
    <- not_true_iff_false, streq_spec. tauto.
Qed.

Lemma check_routes_spec type routes before :
  check_routes type before routes = None ↔
  (type = 57 → ∀ r, r ∈ routes → endpoint r ≠ js "/v1/chat/completions") ∧
  (∀ pre r post o, routes = pre ++ r :: post → o ∈ before ++ pre → conflicts o r = false).
Proof.
  revert before. induction routes as [|r routes IH]; intros before; cbn [check_routes].
  { split; [|done]. intros _. split; [set_solver|]. by intros [|]. }
  destruct ((type =? 57) && streq (endpoint r) (js "/v1/chat/completions")) eqn:E1.
  { apply andb_true_iff in E1 as [->%Z.eqb_eq E1%streq_spec]. split; [done|]. intros [H _].
    exfalso. by apply (H eq_refl r ltac:(left)). }
  assert (type = 57 → endpoint r ≠ js "/v1/chat/completions") as H1.
  { intros -> He. apply streq_spec in He. rewrite He in E1. done. }
  destruct (existsb (λ other, conflicts other r) before) eqn:E2.
  { apply existsb_exists in E2 as (o & Hin & Hc). split; [done|]. intros [_ H].
    rewrite (H [] r routes o) in Hc; [done..|]. rewrite app_nil_r. by apply list_elem_of_In. }
  rewrite IH. split; intros [Hc Hp].
  - split.
    + intros Ht r' [->|Hin]%elem_of_cons; [by apply H1|by apply Hc].
    + intros [|x pre] r' post o; simpl; intros [= <- Hr] Hin.
      * rewrite app_nil_r in Hin. apply not_true_iff_false. intros Hco. apply not_true_iff_false in E2. apply E2.
        apply existsb_exists. exists o. split; [by apply list_elem_of_In|done].
      * apply (Hp pre r' post o Hr). by rewrite <- app_assoc.
  - split; [intros Ht r' Hin; apply Hc; [done|by right]|].
    intros pre r' post o Hr Hin. rewrite <- app_assoc in Hin. apply (Hp (r :: pre) r' post o); [simpl; by rewrite Hr|done].
Qed.

(** The routes of a channel are accepted exactly when the settings hold none, or each is well
    formed, the channel type supports them, a Codex channel uses no chat endpoint, and routes
    with the same model, match, endpoint and priority agree on the upstream model. *)
Theorem model_routes_exact (JSON_parse : jsstr → option value) (settings : option jsstr) (type : Z)
    (parsed v : value) (routes : list ModelRoute) :
  JSON_parse (str_or (default [] settings) (js "{}")) = Some parsed →
  get parsed (js "model_routes") = v → v ≠ Undef → parse_routes v = Some routes →
  (validateModelRoutes JSON_parse settings type = None ↔
    (routes ≠ [] → type = 1 ∨ type = 57) ∧
    (type = 57 → ∀ r, r ∈ routes → endpoint r ≠ js "/v1/chat/completions") ∧
    (∀ i j o r, (i < j)%nat → routes !! i = Some o → routes !! j = Some r →
       public_model o = public_model r → match_mode o = match_mode r → endpoint o = endpoint r →
       priority o = priority r → upstream_model o = upstream_model r)).
Proof.
  intros Hp Hv Hu Hr. unfold validateModelRoutes. rewrite Hp, Hv.
  transitivity ((if (0 <? length routes)%nat && negb (type =? 1) && negb (type =? 57) then Some UnsupportedType
              else check_routes type [] routes) = None).
  { destruct v; try done; by rewrite Hr. }
  assert ((0 <? length routes)%nat && negb (type =? 1) && negb (type =? 57) = false ↔
    (routes ≠ [] → type = 1 ∨ type = 57)) as Ht.
  { destruct routes; [split; [done|done]|]. simpl. destruct (Z.eqb_spec type 1), (Z.eqb_spec type 57); simpl; split; auto; try done.
    intros H. destruct H; done. }
  destruct ((0 <? length routes)%nat && negb (type =? 1) && negb (type =? 57)); [split; [done|]; intros [H _]; apply Ht in H; done|].
  rewrite check_routes_spec. split.
  - intros [H1 H2]. split_and!; [by apply Ht|done|]. intros i j o r Hij Hi Hj Hm Hmm He Hpr.
    assert (conflicts o r = false) as Hc.
    { apply (H2 (take j routes) r (drop (S j) routes)); [symmetry; by apply take_drop_middle|].
      simpl. apply elem_of_take. eauto. }
    destruct (decide (upstream_model o = upstream_model r)) as [|Hne]; [done|].
    apply not_true_iff_false in Hc. destruct Hc. by apply conflicts_spec.
  - intros (_ & H1 & H2). split; [done|]. intros pre r post o -> Hin. simpl in Hin.
    apply not_true_iff_false. intros (? & ? & ? & ? & Hne)%conflicts_spec. apply Hne.
    apply list_elem_of_lookup in Hin as [i Hi]. pose proof (lookup_lt_Some _ _ _ Hi).
    apply (H2 i (length pre) o r); try done; [by apply lookup_app_l_Some|by apply list_lookup_middle].
Qed.

End ModelRoutes.

(** ** Limits of input tokens *)

Module InputLimits.

Inductive failure := SyntaxError | InvalidLimits.

Definition limit_ok (entry : jsstr * value) : bool :=
  let '(model, limit) := entry in
  truthy (trim model) && streq model (trim model) &&
  match limit with
  | Num n => isSafeInteger n && negb (num_lt n (num_of_Z 1)) && negb (num_lt (num_of_Z 2147483647) n)
  | _ => false
  end.

Definition parseInputTokenLimits (JSON_parse : jsstr → option value) (text : option jsstr) :
    result failure (list (jsstr * value)) :=
  if negb (truthy (trim (default [] text))) then Ok []
  else match object_of JSON_parse (default [] text) with
       | None => Throw SyntaxError
       | Some None => Throw InvalidLimits
       | Some (Some fields) => if forallb limit_ok fields then Ok fields else Throw InvalidLimits
       end.

Definition isValidInputTokenLimits (JSON_parse : jsstr → option value) (text : option jsstr) : bool :=
  match parseInputTokenLimits JSON_parse text with Ok _ => true | Throw _ => false end.

(** Accepted limits are 32-bit positive integers of trimmed, non-empty names. *)
Theorem input_limits_bounded (JSON_parse : jsstr → option value) (text : option jsstr)
    (limits : list (jsstr * value)) :
  parseInputTokenLimits JSON_parse text = Ok limits →
  ∀ model v, (model, v) ∈ limits →
    trim model = model ∧ model ≠ [] ∧ ∃ z, v = Num (num_of_Z z) ∧ 1 ≤ z ≤ 2 ^ 31 - 1.
Proof.
  unfold parseInputTokenLimits. destruct (negb _); [intros [= <-]; set_solver|].
  destruct (object_of _ _) as [[fields|]|]; [|done..]. destruct (forallb limit_ok fields) eqn:E; [|done].
  intros [= <-] model v Hin. rewrite forallb_forall in E. apply list_elem_of_In, E in Hin. unfold limit_ok in Hin.
  apply andb_true_iff in Hin as [[Ht Hs%streq_spec]%andb_true_iff Hv]. rewrite truthy_spec in Ht.
  split_and!; [done|congruence|]. destruct v as [| | |n| | |]; try done. unfold isSafeInteger in Hv.
  destruct (as_integer n) as [z|] eqn:En; [|done]. apply as_integer_Some in En as ->. exists z. split; [done|].
  rewrite !num_lt_Z in Hv. rewrite !andb_true_iff, !negb_true_iff, !bool_decide_eq_false in Hv. lia.
Qed.

End InputLimits.

(** ** Sorting and previewing *)

Module Routing.

Definition CHANNEL_SORTABLE_COLUMNS : list jsstr :=
  [js "id"; js "name"; js "priority"; js "weight"; js "balance"; js "response_time"; js "test_time"].

Definition isChannelSortDisabledInTagMode (columnId : jsstr) (tagMode : bool) : bool :=
  tagMode && (streq columnId (js "priority") || streq columnId (js "weight")).

(** A column with whether it is descending; the order is [true] for descending. *)
Definition getChannelSortParams (sorting : list (jsstr * bool)) (tagMode : bool) : option (jsstr * bool) :=
  match sorting with
  | [] => None
  | (id, desc) :: _ =>
      if negb (set_has CHANNEL_SORTABLE_COLUMNS id) ||
         (tagMode && (streq id (js "priority") || streq id (js "weight"))) then None
      else Some (id, desc)
  end.

Definition ROUTING_PREVIEW_ERROR_CODES : list jsstr :=
  [js "routing_preview_model_route_conflict"; js "routing_preview_invalid_params";
   js "routing_preview_auto_group_unsupported"; js "routing_preview_database_error";
   js "routing_preview_network_error"; js "routing_preview_request_failed"].

Definition normalizeRoutingPreviewErrorCode (v : value) : option jsstr :=
  match v with Str s => if set_has ROUTING_PREVIEW_ERROR_CODES s then Some s else None | _ => None end.

(** What was thrown: an error of the HTTP library, with the status and the code of the body of
    its response if there was one, or anything else. *)
Inductive thrown := Axios (response : option (Z * value)) | OtherError.

(** The first argument is the response with whether it succeeded and its code. *)
Definition resolveChannelRoutingPreviewErrorCode (error : option thrown) (response : option (bool * value)) :
    option jsstr :=
  let failed := js "routing_preview_request_failed" in
  match response with
  | Some (false, code) => Some (default failed (normalizeRoutingPreviewErrorCode code))
  | _ =>
      match error with
      | None => None
      | Some (Axios (Some (status, code))) =>
          match normalizeRoutingPreviewErrorCode code with
          | Some c => Some c
          | None =>
              if (status =? 401) || (status =? 403) then Some (js "routing_preview_permission_denied")
              else Some failed
          end
      | Some (Axios None) => Some (js "routing_preview_network_error")
      | Some OtherError => Some failed
      end
  end.

End Routing.
