(* ===== verification/ChannelForm.v ===== *)
(** * The form of a channel (web/src/features/channels/lib/channel-form.ts)

    The editor of a channel holds its values in one object; a schema says when they can be
    saved; a channel of the server is loaded into it, and it is written into the payload of a
    creation or an update. Two fields of a channel are JSON texts: [setting], written anew
    from the form, and [settings], which keeps what the form does not know.

    The values of the form, the channel and the payload are objects of the language, fields by
    name, because a stored text may hold anything: the schema is what makes the fields have
    their types. [Throw] is an exception of the builders. [JSON], [URL] and the cast of a
    parsed object to the type of a custom configuration are parameters. *)
From S2P Require Import Prelude JsString JsMap JsValue Json AdvancedCustom Channels.
Local Open Scope Z_scope.
Local Open Scope js_scope.

Module ChannelForm.
Import Json.

(** [new URL(s)], what the checks read of it *)
Record ParsedURL := mkURL { protocol : jsstr; host : jsstr; hostname : jsstr; port : jsstr }.

(** An object whose absent fields are not written. *)
Definition present (l : list (jsstr * option value)) : value :=
  Obj (omap (λ kv, pair (fst kv) <$> snd kv) l).

Definition auth_value (a : AdvancedCustom.AdvancedCustomRouteAuth) : value :=
  present [(js "type", Str <$> AdvancedCustom.a_type a); (js "name", Str <$> AdvancedCustom.a_name a);
           (js "value", Str <$> AdvancedCustom.a_value a)].

Definition route_value (r : AdvancedCustom.AdvancedCustomRoute) : value :=
  present [(js "incoming_path", Str <$> AdvancedCustom.incoming_path r);
           (js "upstream_path", Str <$> AdvancedCustom.upstream_path r);
           (js "converter", Str <$> AdvancedCustom.converter r);
           (js "models", (λ ms, Arr (map Str ms)) <$> AdvancedCustom.models r);
           (js "auth", auth_value <$> AdvancedCustom.auth r)].

Definition config_value (c : AdvancedCustom.AdvancedCustomConfig) : value :=
  present [(js "advanced_routes", (λ l, Arr (map route_value l)) <$> AdvancedCustom.advanced_routes c)].

Class Env := {
  env_json :: Json;
  new_URL : jsstr → option ParsedURL;                (* [None]: throws *)
  (** The object seen through the cast; [None]: normalizing it throws. *)
  as_config : value → option AdvancedCustom.AdvancedCustomConfig
}.

Class EnvLaws `{Env} : Prop := {
  env_laws :: JsonLaws;
  as_config_value : ∀ c, as_config (config_value c) = Some c
}.

(** ** Constants *)

Definition CHANNEL_TYPE_NEW_API : Z := 60.
Definition CHANNEL_TYPE_ADVANCED_CUSTOM : Z := 58.
Definition CHANNEL_STATUS_ENABLED : Z := 1.

Definition MODEL_FETCHABLE_TYPES : list Z :=
  [1; 4; 14; 17; 20; 23; 24; 25; 26; 27; 31; 34; 35; 40; 42; 43; 47; 48; 57; 58; 59; 60].
Definition FIELD_PASSTHROUGH_TYPES : list Z := [1; 14; 57; 58; 59; CHANNEL_TYPE_NEW_API].
Definition OPENAI_FIELD_PASSTHROUGH_TYPES : list Z := [1; 57; 58; 59; CHANNEL_TYPE_NEW_API].
Definition CLAUDE_FIELD_PASSTHROUGH_TYPES : list Z := [14; 58; 59; CHANNEL_TYPE_NEW_API].

Definition SUPPORTED_PROXY_PROTOCOLS : list jsstr :=
  [js "http:"; js "https:"; js "socks5:"; js "socks5h:"].

Definition HTTP_PROTOCOL_AUTO : jsstr := js "auto".
Definition HTTP_PROTOCOL_HTTP1 : jsstr := js "http1".
Definition MAX_HTTP2_CONNECTION_SHARDS : Z := 8.

Definition form := list (jsstr * value).

(** [formData.k] *)
Definition F (f : form) (k : string) : value := field f (js k).

Definition int (z : Z) : value := Num (num_of_Z z).

(** [v === z] *)
Definition is_num (v : value) (z : Z) : bool :=
  match v with Num n => num_eqb n (num_of_Z z) | _ => false end.

(** [types.has(v)], [types.includes(v)] *)
Definition has_type (types : list Z) (v : value) : bool := existsb (is_num v) types.

Definition is_str (v : value) (s : jsstr) : bool := match v with Str s' => streq s' s | _ => false end.

(** The text of an optional string field. *)
Definition text_of (v : value) : option jsstr := match v with Str s => Some s | _ => None end.

(** [value?.trim()] of an optional string, as a condition *)
Definition filled (v : option jsstr) : bool := truthy (trim (default [] v)).

Inductive TypeError := NotAFunction | NotAnObject | BadLimits (e : InputLimits.failure).

Section Form.
Context `{Env}.

(** [JSON] and [URL] for the custom routes. *)
#[local] Instance route_browser : AdvancedCustom.Browser := {|
  AdvancedCustom.JSON_parse s :=
    match JSON_parse s with
    | Some (Obj fs) => AdvancedCustom.JObject <$> as_config (Obj fs)
    | Some _ => Some AdvancedCustom.JOther
    | None => None
    end;
  AdvancedCustom.JSON_stringify c := JSON_pretty (config_value c);
  AdvancedCustom.URL s := (λ u, (protocol u, host u)) <$> new_URL s |}.

(** ** Checks of the fields *)

(** The units of [/[/?#]/] *)
Definition is_suffix_unit (c : N) : bool := ((c =? 47) || (c =? 63) || (c =? 35))%N.

(** The part of an authority from its first slash, question mark or hash. *)
Fixpoint url_suffix (s : jsstr) : option jsstr :=
  match s with
  | [] => None
  | c :: rest => if is_suffix_unit c then Some s else url_suffix rest
  end.

Definition isOptionalProxyURL (value : option jsstr) : bool :=
  let trimmedValue := trim (default [] value) in
  if negb (truthy trimmedValue) then true
  else
    match index_of (js "://") trimmedValue with
    | None | Some O => false
    | Some i =>
        let ok_suffix :=
          match url_suffix (drop (i + 3) trimmedValue) with
          | Some suffix => streq suffix (js "/")
          | None => true
          end in
        if negb ok_suffix then false
        else match new_URL trimmedValue with
             | Some u => set_has SUPPORTED_PROXY_PROTOCOLS (protocol u) && truthy (hostname u) &&
                         negb (streq (port u) (js "0"))
             | None => false
             end
    end.

(** No character that is no ASCII letter has one of [http1] as its lower case. *)
Definition normalizeHttpProtocol (v : value) : jsstr :=
  let normalized := map ascii_lower (trim (to_str (value_or v (Str [])))) in
  if streq normalized HTTP_PROTOCOL_HTTP1 then HTTP_PROTOCOL_HTTP1 else HTTP_PROTOCOL_AUTO.

Definition normalizeHttp2ConnectionShards (v : value) : value :=
  match v with
  | Undef | Null => int 1
  | _ =>
      if match v with Num NaN => true | _ => false end || is_num v 0 then int 1
      else if num_lt (to_num v) (num_of_Z 1) then int 1
      else if num_lt (num_of_Z MAX_HTTP2_CONNECTION_SHARDS) (to_num v) then int MAX_HTTP2_CONNECTION_SHARDS
      else v
  end.

(** [None]: throws; [Some Undef]: blank *)
Definition parseOptionalJson (v : option jsstr) : option value :=
  if negb (filled v) then Some Undef else JSON_parse (default [] v).

Definition isJsonObjectValue (v : value) : bool := match v with Obj _ => true | _ => false end.

Definition isOptionalJsonObject (v : option jsstr) : bool :=
  match parseOptionalJson v with
  | None => false
  | Some Undef => true
  | Some parsed => isJsonObjectValue parsed
  end.

Definition is_string (v : value) : bool := match v with Str _ => true | _ => false end.

Definition isOptionalModelMapping (v : option jsstr) : bool :=
  match parseOptionalJson v with
  | Some Undef => true
  | Some (Obj fields) => forallb (λ kv, is_string (snd kv)) fields
  | _ => false
  end.

Definition status_code (v : value) : bool :=
  match as_integer (to_num v) with Some z => (100 <=? z) && (z <=? 599) | None => false end.

Definition isOptionalStatusCodeMapping (v : option jsstr) : bool :=
  match parseOptionalJson v with
  | Some Undef => true
  | Some (Obj fields) => forallb (λ kv, status_code (Str (fst kv)) && status_code (snd kv)) fields
  | _ => false
  end.

Definition filled_field (parsed : value) (k : string) : bool :=
  match get parsed (js k) with Str s => truthy (trim s) | _ => false end.

Definition isCodexCredential (v : option jsstr) : bool :=
  match parseOptionalJson v with
  | Some Undef => true
  | Some parsed =>
      isJsonObjectValue parsed && filled_field parsed "access_token" && filled_field parsed "account_id"
  | None => false
  end.

Definition isVertexJsonKey (v : option jsstr) : bool :=
  match parseOptionalJson v with
  | Some Undef => true
  | Some (Arr l) => forallb isJsonObjectValue l
  | Some parsed => isJsonObjectValue parsed
  | None => false
  end.

(** ** The schema *)

Definition optional (check : value → bool) (v : value) : bool :=
  match v with Undef => true | _ => check v end.

(** [z.string().min(n)], [z.number()], [z.boolean()], [z.enum], [z.array(z.string()).min(1)] *)
Definition zstring (v : value) : bool := is_string v.
Definition zfilled (v : value) : bool := match v with Str s => truthy s | _ => false end.
Definition znumber (v : value) : bool := match v with Num (Fin _) => true | _ => false end.
Definition znonnegative (v : value) : bool :=
  match v with Num n => isFinite n && negb (num_lt n (num_of_Z 0)) | _ => false end.
Definition zint (v : value) : bool := match v with Num n => isSafeInteger n | _ => false end.
Definition zbool (v : value) : bool := match v with Bool _ => true | _ => false end.
Definition zenum (l : list string) (v : value) : bool :=
  match v with Str s => set_has (map js l) s | _ => false end.
Definition zgroups (v : value) : bool :=
  match v with Arr l => forallb is_string l && negb (bool_decide (l = [])) | _ => false end.

(** [z.string().optional().refine(check)] *)
Definition zrefined (check : option jsstr → bool) (v : value) : bool :=
  optional zstring v && check (text_of v).

Definition remark_ok (v : option jsstr) : bool := (length (default [] v) <=? 255)%nat.

Definition channelFormSchema_fields : list (string * (value → bool)) := [
  ("routing_config_digest", optional zstring);
  ("name", zfilled);
  ("type", znonnegative);
  ("base_url", optional zstring);
  ("key", zstring);
  ("openai_organization", optional zstring);
  ("models", zfilled);
  ("group", zgroups);
  ("model_mapping", zrefined isOptionalModelMapping);
  ("priority", optional znumber);
  ("weight", optional znumber);
  ("test_model", optional zstring);
  ("auto_ban", optional znumber);
  ("status", znumber);
  ("status_code_mapping", zrefined isOptionalStatusCodeMapping);
  ("tag", optional zstring);
  ("remark", zrefined remark_ok);
  ("setting", zrefined isOptionalJsonObject);
  ("param_override", zrefined isOptionalJsonObject);
  ("header_override", zrefined isOptionalJsonObject);
  ("settings", zrefined isOptionalJsonObject);
  ("advanced_custom", optional zstring);
  ("other", optional zstring);
  ("multi_key_mode", optional (zenum ["single"; "batch"; "multi_to_single"]));
  ("multi_key_type", optional (zenum ["random"; "polling"]));
  ("batch_add_set_key_prefix_2_name", optional zbool);
  ("key_mode", optional (zenum ["append"; "replace"]));
  ("force_format", optional zbool);
  ("thinking_to_content", optional zbool);
  ("proxy", zrefined isOptionalProxyURL);
  ("http_protocol", optional (zenum ["auto"; "http1"]));
  ("input_token_limits", zrefined (InputLimits.isValidInputTokenLimits JSON_parse));
  ("http2_connection_shards", optional zint);
  ("pass_through_body_enabled", optional zbool);
  ("system_prompt", optional zstring);
  ("system_prompt_override", optional zbool);
  ("is_enterprise_account", optional zbool);
  ("vertex_key_type", optional (zenum ["json"; "api_key"]));
  ("aws_key_type", optional (zenum ["ak_sk"; "api_key"]));
  ("azure_responses_version", optional zstring);
  ("allow_service_tier", optional zbool);
  ("disable_store", optional zbool);
  ("allow_safety_identifier", optional zbool);
  ("allow_include_obfuscation", optional zbool);
  ("allow_inference_geo", optional zbool);
  ("allow_speed", optional zbool);
  ("claude_beta_query", optional zbool);
  ("disable_task_polling_sleep", optional zbool);
  ("upstream_model_update_check_enabled", optional zbool);
  ("upstream_model_update_auto_sync_enabled", optional zbool);
  ("upstream_model_update_ignored_models", optional zstring) ]%string.

Inductive Message :=
| RouteMessage (e : ModelRoutes.RouteError)
| CustomMessage (m : jsstr)
| Text (m : string).

Definition issue (condition : bool) (path : string) (message : Message) : list (string * Message) :=
  if condition then [(path, message)] else [].

(** Blank or absent: [!data.k?.trim()] *)
Definition blank (f : form) (k : string) : bool := negb (filled (text_of (F f k))).

Definition type_number (f : form) : Z :=
  match F f "type" with Num n => default 0 (as_integer n) | _ => 0 end.

Definition custom_issues (f : form) : list (string * Message) :=
  let config := AdvancedCustom.parseAdvancedCustomConfig (text_of (F f "advanced_custom")) in
  match AdvancedCustom.validateAdvancedCustomConfig config with
  | Some e => [("advanced_custom"%string, CustomMessage (AdvancedCustom.message e))]
  | None => []
  end ++
  issue (AdvancedCustom.advancedCustomConfigUsesRelativeUpstreamPath config && blank f "base_url") "base_url"
    (Text "Base URL is required when an advanced route uses an upstream path") ++
  issue (is_true (F f "upstream_model_update_check_enabled") &&
         negb (AdvancedCustom.hasValidAdvancedCustomModelListRoute config))
    "upstream_model_update_check_enabled"
    (Text "OpenAI Models route is required to enable upstream model checks").

(** [data.multi_key_mode && data.multi_key_mode !== 'single'] *)
Definition several_keys (f : form) : bool :=
  value_truthy (F f "multi_key_mode") && negb (is_str (F f "multi_key_mode") (js "single")).

Definition key_issues (f : form) : list (string * Message) :=
  let key := text_of (F f "key") in
  (if is_num (F f "type") 57 then
     issue (several_keys f) "multi_key_mode" (Text "Codex channels do not support batch creation") ++
     issue (filled key && negb (isCodexCredential key)) "key"
       (Text "Codex credential must be a JSON object with access_token and account_id")
   else []) ++
  issue (is_num (F f "type") 41 && is_str (F f "vertex_key_type") (js "json") && filled key &&
         negb (isVertexJsonKey key)) "key" (Text "Vertex AI service account key must be valid JSON") ++
  issue (is_num (F f "type") 41 && is_str (F f "vertex_key_type") (js "api_key") && several_keys f)
    "multi_key_mode" (Text "Vertex AI API Key mode does not support batch creation").

Definition transport_issues (f : form) : list (string * Message) :=
  let http1 := streq (normalizeHttpProtocol (F f "http_protocol")) HTTP_PROTOCOL_HTTP1 in
  let shards := to_num (value_default (F f "http2_connection_shards") (int 1)) in
  issue (num_lt shards (num_of_Z 1) || num_lt (num_of_Z MAX_HTTP2_CONNECTION_SHARDS) shards)
    "http2_connection_shards" (Text "HTTP/2 connection shards must be between 1 and 8") ++
  issue (http1 && num_lt (num_of_Z 1) shards) "http2_connection_shards"
    (Text "HTTP/2 connection shards must be 1 when HTTP/1.1 is selected").

(** The checks of the whole form, in the order in which they report. *)
Definition superRefine (f : form) : list (string * Message) :=
  match ModelRoutes.validateModelRoutes JSON_parse (text_of (F f "settings")) (type_number f) with
  | Some e => [("settings"%string, RouteMessage e)]
  | None => []
  end ++
  issue (has_type [3; 8; 36; 45; CHANNEL_TYPE_NEW_API] (F f "type") && blank f "base_url") "base_url"
    (Text "Base URL is required for this channel type") ++
  (if is_num (F f "type") CHANNEL_TYPE_ADVANCED_CUSTOM then custom_issues f else []) ++
  issue (has_type [3; 18; 21; 39; 41; 49] (F f "type") && blank f "other") "other"
    (Text "This channel type requires additional configuration") ++
  key_issues f ++ transport_issues f.

(** [channelFormSchema.safeParse(f).success] *)
Definition accepted (f : form) : bool :=
  forallb (λ '(k, check), check (F f k)) channelFormSchema_fields && bool_decide (superRefine f = []).

(** ** Lists in texts *)

(** [text.split(',').map(trim).filter(length > 0)] *)
Definition parse_list (s : jsstr) : list jsstr :=
  if negb (truthy s) then [] else comma_list s.

Definition parseModels (models : jsstr) : list jsstr := parse_list models.
Definition parseGroups (groups : jsstr) : list jsstr := parse_list groups.
Definition formatModels (models : list jsstr) : jsstr := join (js ",") models.

(** [array.join(',')]: [null] and [undefined] are written as nothing. *)
Definition join_values (l : list value) : jsstr :=
  join (js ",") (map (λ v, match v with Undef | Null => [] | _ => to_str v end) l).

(** [groups.join(',')] *)
Definition formatGroups (v : value) : result TypeError value :=
  match v with Arr l => Ok (Str (join_values l)) | _ => Throw NotAFunction end.

(** [/\/+$/] removed *)
Fixpoint drop_slashes (s : jsstr) : jsstr :=
  match s with
  | c :: rest => if (c =? 47)%N then drop_slashes rest else s
  | [] => []
  end.
Definition strip_slashes (s : jsstr) : jsstr := rev (drop_slashes (rev s)).

Definition normalizeBaseUrl (v : value) : jsstr := strip_slashes (trim (to_str (value_or v (Str [])))).

(** ** Loading a channel *)

Definition key_value (k : string) (v : value) : jsstr * value := (js k, v).

Definition CHANNEL_FORM_DEFAULT_VALUES : form := [
  key_value "name" (Str []); key_value "type" (int 1); key_value "base_url" (Str []);
  key_value "key" (Str []); key_value "openai_organization" (Str []); key_value "models" (Str []);
  key_value "group" (Arr [Str (js "default")]); key_value "model_mapping" (Str []);
  key_value "priority" (int 0); key_value "weight" (int 0); key_value "test_model" (Str []);
  key_value "auto_ban" (int 1); key_value "status" (int CHANNEL_STATUS_ENABLED);
  key_value "status_code_mapping" (Str []); key_value "tag" (Str []); key_value "remark" (Str []);
  key_value "setting" (Str []); key_value "param_override" (Str []);
  key_value "header_override" (Str []); key_value "settings" (Str (js "{}"));
  key_value "other" (Str []); key_value "multi_key_mode" (Str (js "single"));
  key_value "multi_key_type" (Str (js "random"));
  key_value "batch_add_set_key_prefix_2_name" (Bool false); key_value "key_mode" (Str (js "append"));
  key_value "force_format" (Bool false); key_value "thinking_to_content" (Bool false);
  key_value "proxy" (Str []); key_value "http_protocol" (Str HTTP_PROTOCOL_AUTO);
  key_value "input_token_limits" (Str []); key_value "http2_connection_shards" (int 1);
  key_value "pass_through_body_enabled" (Bool false); key_value "system_prompt" (Str []);
  key_value "system_prompt_override" (Bool false); key_value "is_enterprise_account" (Bool false);
  key_value "vertex_key_type" (Str (js "json")); key_value "aws_key_type" (Str (js "ak_sk"));
  key_value "azure_responses_version" (Str []); key_value "allow_service_tier" (Bool false);
  key_value "disable_store" (Bool false); key_value "allow_safety_identifier" (Bool false);
  key_value "allow_include_obfuscation" (Bool false); key_value "allow_inference_geo" (Bool false);
  key_value "allow_speed" (Bool false); key_value "claude_beta_query" (Bool false);
  key_value "disable_task_polling_sleep" (Bool false);
  key_value "upstream_model_update_check_enabled" (Bool false);
  key_value "upstream_model_update_auto_sync_enabled" (Bool false);
  key_value "upstream_model_update_ignored_models" (Str []); key_value "advanced_custom" (Str []) ].

Definition or_false (v : value) : value := value_or v (Bool false).
Definition or_empty (v : value) : value := value_or v (Str []).
Definition strictly_true (v : value) : value := Bool (is_true v).

(** The fields of [setting]; [parsed] is what its text holds. *)
Definition extra_settings (parsed : value) : form :=
  let g k := get parsed (js k) in
  let proto := normalizeHttpProtocol (g "http_protocol"%string) in
  let shards := normalizeHttp2ConnectionShards (g "http2_connection_shards"%string) in
  [ key_value "force_format" (or_false (g "force_format"%string));
    key_value "thinking_to_content" (or_false (g "thinking_to_content"%string));
    key_value "proxy" (or_empty (g "proxy"%string));
    key_value "http_protocol" (Str proto);
    key_value "input_token_limits"
      match g "input_token_limits"%string with
      | Undef | Null => Str []
      | v => Str (JSON_pretty v)
      end;
    key_value "http2_connection_shards" (if streq proto HTTP_PROTOCOL_HTTP1 then int 1 else shards);
    key_value "pass_through_body_enabled" (or_false (g "pass_through_body_enabled"%string));
    key_value "system_prompt" (or_empty (g "system_prompt"%string));
    key_value "system_prompt_override" (or_false (g "system_prompt_override"%string)) ].

(** The fields of [settings]. *)
Definition type_settings (parsed : value) : form :=
  let g k := get parsed (js k) in
  [ key_value "is_enterprise_account" (strictly_true (g "openrouter_enterprise"%string));
    key_value "vertex_key_type" (value_or (g "vertex_key_type"%string) (Str (js "json")));
    key_value "azure_responses_version" (or_empty (g "azure_responses_version"%string));
    key_value "aws_key_type" (value_or (g "aws_key_type"%string) (Str (js "ak_sk")));
    key_value "allow_service_tier" (strictly_true (g "allow_service_tier"%string));
    key_value "disable_store" (strictly_true (g "disable_store"%string));
    key_value "allow_include_obfuscation" (strictly_true (g "allow_include_obfuscation"%string));
    key_value "allow_inference_geo" (strictly_true (g "allow_inference_geo"%string));
    key_value "allow_speed" (strictly_true (g "allow_speed"%string));
    key_value "claude_beta_query" (strictly_true (g "claude_beta_query"%string));
    key_value "disable_task_polling_sleep" (strictly_true (g "disable_task_polling_sleep"%string));
    key_value "allow_safety_identifier" (strictly_true (g "allow_safety_identifier"%string));
    key_value "upstream_model_update_check_enabled"
      (strictly_true (g "upstream_model_update_check_enabled"%string));
    key_value "upstream_model_update_auto_sync_enabled"
      (strictly_true (g "upstream_model_update_auto_sync_enabled"%string));
    key_value "upstream_model_update_ignored_models"
      match g "upstream_model_update_ignored_models"%string with
      | Arr l => Str (join_values l)
      | _ => Str []
      end;
    key_value "advanced_custom"
      (if value_truthy (g "advanced_custom"%string) then
         match as_config (g "advanced_custom"%string) with
         | Some c => Str (AdvancedCustom.stringifyAdvancedCustomConfig c)
         | None => Str []
         end
       else Str []) ].

(** What a text field of the channel holds; an absent, broken or [null] one reads as the
    empty object, whose fields are the defaults. *)
Definition parsed_text (v : value) : value :=
  if value_truthy v then
    match JSON_parse (to_str v) with Some Null | None => Obj [] | Some parsed => parsed end
  else Obj [].

(** The schema of a channel (types.ts) gives [channel_info] a default, so that its type requires
    it; [channel.channel_info.multi_key_mode], which would throw on a channel without one, is
    read as [undefined] here. *)
Definition transformChannelToFormDefaults (channel : form) : form :=
  let c k := F channel k in
  [ key_value "routing_config_digest" (c "routing_config_digest"%string);
    key_value "name" (or_empty (c "name"%string));
    key_value "type" (c "type"%string);
    key_value "base_url" (or_empty (c "base_url"%string));
    key_value "key" (Str []);
    key_value "openai_organization" (or_empty (c "openai_organization"%string));
    key_value "models" (or_empty (c "models"%string));
    key_value "group"
      (Arr (map Str (parseGroups (to_str (value_or (c "group"%string) (Str (js "default")))))));
    key_value "model_mapping" (or_empty (c "model_mapping"%string));
    key_value "priority" (value_or (c "priority"%string) (int 0));
    key_value "weight" (value_or (c "weight"%string) (int 0));
    key_value "test_model" (or_empty (c "test_model"%string));
    key_value "auto_ban" (value_default (c "auto_ban"%string) (int 1));
    key_value "status" (c "status"%string);
    key_value "status_code_mapping" (or_empty (c "status_code_mapping"%string));
    key_value "tag" (or_empty (c "tag"%string));
    key_value "remark" (or_empty (c "remark"%string));
    key_value "setting" (or_empty (c "setting"%string));
    key_value "param_override" (or_empty (c "param_override"%string));
    key_value "header_override" (or_empty (c "header_override"%string));
    key_value "settings" (value_or (c "settings"%string) (Str (js "{}")));
    key_value "other" (or_empty (c "other"%string));
    key_value "multi_key_mode" (Str (js "single"));
    key_value "multi_key_type"
      (value_or (get (c "channel_info"%string) (js "multi_key_mode")) (Str (js "random")));
    key_value "batch_add_set_key_prefix_2_name" (Bool false);
    key_value "key_mode" (Str (js "append")) ] ++
  extra_settings (parsed_text (c "setting"%string)) ++
  type_settings (parsed_text (c "settings"%string)).

(** ** Writing the texts *)

(** [value?.trim() || '']; a value that is no string has no [trim]. *)
Definition trim_or_empty (v : value) : result TypeError value :=
  match v with
  | Undef | Null => Ok (Str [])
  | Str s => Ok (Str (trim s))
  | _ => Throw NotAFunction
  end.

Definition input_limits (v : value) : result TypeError form :=
  match v with
  | Undef | Null | Str _ =>
      match InputLimits.parseInputTokenLimits JSON_parse (text_of v) with
      | Ok l => Ok l
      | Throw e => Throw (BadLimits e)
      end
  | _ => Throw NotAFunction
  end.

(** The object of [buildSettingJSON]. Omit defaults so unchanged channels keep equivalent JSON. *)
Definition setting_object (f : form) (proxy : value) (inputLimits : form) : form :=
  let http1 := streq (normalizeHttpProtocol (F f "http_protocol")) HTTP_PROTOCOL_HTTP1 in
  let limits := match inputLimits with [] => [] | _ => [key_value "input_token_limits" (Obj inputLimits)] end in
  let shards := if http1 then int 1 else normalizeHttp2ConnectionShards (F f "http2_connection_shards") in
  let transport :=
    if http1 then [key_value "http_protocol" (Str HTTP_PROTOCOL_HTTP1)]
    else if num_lt (num_of_Z 1) (to_num shards) then [key_value "http2_connection_shards" shards]
    else [] in
  [ key_value "force_format" (or_false (F f "force_format"));
    key_value "thinking_to_content" (or_false (F f "thinking_to_content"));
    key_value "proxy" proxy;
    key_value "pass_through_body_enabled" (or_false (F f "pass_through_body_enabled"));
    key_value "system_prompt" (or_empty (F f "system_prompt"));
    key_value "system_prompt_override" (or_false (F f "system_prompt_override")) ] ++ limits ++ transport.

Definition buildSettingJSON (f : form) : result TypeError jsstr :=
  try! proxy := trim_or_empty (F f "proxy") in
  try! inputLimits := input_limits (F f "input_token_limits") in
  Ok (JSON_stringify (Obj (setting_object f proxy inputLimits))).

(** [settingsObj.k = v] and [if ('k' in settingsObj) delete settingsObj.k] *)
Definition put (k : string) (v : value) (o : form) : form := jm_set (js k) v o.
Definition remove (k : string) (o : form) : form := jm_delete (js k) o.
Definition put_if (b : bool) (k : string) (v : value) (o : form) : form :=
  if b then put k v o else remove k o.

Definition ignored_models (v : value) : list jsstr :=
  new_Set (comma_list (to_str (value_or v (Str [])))).

(** The settings of the upstream model updates. *)
Definition update_settings (f : form) (o : form) : form :=
  let check := is_true (F f "upstream_model_update_check_enabled") in
  let o1 := put "upstream_model_update_check_enabled" (Bool check) o in
  let o2 := put "upstream_model_update_auto_sync_enabled"
    (Bool (is_true (F o1 "upstream_model_update_check_enabled") &&
           is_true (F f "upstream_model_update_auto_sync_enabled"))) o1 in
  let o3 := put "upstream_model_update_ignored_models"
    (Arr (map Str (ignored_models (F f "upstream_model_update_ignored_models")))) o2 in
  let o4 :=
    if negb match F o3 "upstream_model_update_last_detected_models" with Arr _ => true | _ => false end
       || negb (is_true (F o3 "upstream_model_update_check_enabled"))
    then put "upstream_model_update_last_detected_models" (Arr []) o3 else o3 in
  match F o4 "upstream_model_update_last_check_time" with
  | Num _ => o4
  | _ => put "upstream_model_update_last_check_time" (int 0) o4
  end.

(** The statements of [buildSettingsJSON] on the object. *)
Definition settings_object (f : form) (o : form) : form :=
  let ty := F f "type" in
  let flag k := strictly_true (F f k) in
  let openai := has_type OPENAI_FIELD_PASSTHROUGH_TYPES ty in
  let claude := has_type CLAUDE_FIELD_PASSTHROUGH_TYPES ty in
  let o := put_if (is_num ty 41) "vertex_key_type" (value_or (F f "vertex_key_type") (Str (js "json"))) o in
  let o := put_if (is_num ty 3 && value_truthy (F f "azure_responses_version"))
             "azure_responses_version" (F f "azure_responses_version") o in
  let o := put_if (is_num ty 20) "openrouter_enterprise" (flag "is_enterprise_account"%string) o in
  let o := put_if (is_num ty 33) "aws_key_type" (value_or (F f "aws_key_type") (Str (js "ak_sk"))) o in
  let o := put_if (has_type FIELD_PASSTHROUGH_TYPES ty) "allow_service_tier" (flag "allow_service_tier"%string) o in
  let o := put_if openai "disable_store" (flag "disable_store"%string) o in
  let o := put_if openai "allow_safety_identifier" (flag "allow_safety_identifier"%string) o in
  let o := put_if openai "allow_include_obfuscation" (flag "allow_include_obfuscation"%string) o in
  let o := put_if (openai || claude) "allow_inference_geo" (flag "allow_inference_geo"%string) o in
  let o := put_if claude "allow_speed" (flag "allow_speed"%string) o in
  let o := put_if (is_num ty 14) "claude_beta_query" (flag "claude_beta_query"%string) o in
  let o := put "disable_task_polling_sleep" (flag "disable_task_polling_sleep"%string) o in
  let o := if has_type MODEL_FETCHABLE_TYPES ty then update_settings f o else o in
  if is_num ty CHANNEL_TYPE_ADVANCED_CUSTOM then
    match AdvancedCustom.parseAdvancedCustomConfig (text_of (F f "advanced_custom")) with
    | Some config => put "advanced_custom" (config_value config) o
    | None => o
    end
  else remove "advanced_custom" o.

(** An array keeps its elements and loses the names put on it; anything else has none. *)
Definition buildSettingsJSON (f : form) : result TypeError jsstr :=
  let existing :=
    if value_truthy (F f "settings") && negb (is_str (F f "settings") (js "{}"))
    then default (Obj []) (JSON_parse (to_str (F f "settings"))) else Obj [] in
  match existing with
  | Obj o => Ok (JSON_stringify (Obj (settings_object f o)))
  | Arr l => Ok (JSON_stringify (Arr l))
  | _ => Throw NotAnObject
  end.

(** ** Payloads *)

Definition or_null (v : value) : value := value_or v Null.

(** Clean up empty strings to null for optional fields *)
Definition clean (o : form) : form :=
  map (λ kv, (fst kv, if is_str (snd kv) [] then Null else snd kv)) o.

Record CreatePayload := mkCreate {
  mode : value; multi_key_mode : value; batch_add_set_key_prefix_2_name : value; channel : form }.

Definition transformFormDataToCreatePayload (f : form) : result TypeError CreatePayload :=
  let mode := value_or (F f "multi_key_mode") (Str (js "single")) in
  try! groups := formatGroups (F f "group") in
  try! setting := buildSettingJSON f in
  try! settings := buildSettingsJSON f in
  let channel := [
    key_value "name" (F f "name"); key_value "type" (F f "type");
    key_value "base_url" (or_null (Str (normalizeBaseUrl (F f "base_url"))));
    key_value "key" (F f "key");
    key_value "openai_organization" (or_null (F f "openai_organization"));
    key_value "models" (F f "models"); key_value "group" groups;
    key_value "model_mapping" (or_null (F f "model_mapping"));
    key_value "priority" (or_null (F f "priority")); key_value "weight" (or_null (F f "weight"));
    key_value "test_model" (or_null (F f "test_model"));
    key_value "auto_ban" (value_default (F f "auto_ban") (int 1)); key_value "status" (F f "status");
    key_value "status_code_mapping" (or_null (F f "status_code_mapping"));
    key_value "tag" (or_null (F f "tag")); key_value "remark" (or_empty (F f "remark"));
    key_value "setting" (Str setting); key_value "param_override" (or_null (F f "param_override"));
    key_value "header_override" (or_null (F f "header_override"));
    key_value "settings" (Str settings); key_value "other" (or_empty (F f "other")) ] in
  Ok (mkCreate mode
        (if is_str mode (js "multi_to_single") then F f "multi_key_type" else Undef)
        (if is_str mode (js "batch") then F f "batch_add_set_key_prefix_2_name" else Undef)
        (clean channel)).

(** [if (formData.key && formData.key.trim()) payload.key = formData.key] *)
Definition key_entry (v : value) : result TypeError form :=
  if negb (value_truthy v) then Ok []
  else match v with
       | Str s => Ok (if truthy (trim s) then [key_value "key" (Str s)] else [])
       | _ => Throw NotAFunction
       end.

Definition update_payload (f : form) (channelId : Z) (groups : value) (setting settings : jsstr)
    (key : form) : form :=
  let payload := [
    key_value "expected_routing_config" (F f "routing_config_digest"); key_value "id" (int channelId);
    key_value "name" (F f "name"); key_value "type" (F f "type");
    key_value "base_url" (or_null (Str (normalizeBaseUrl (F f "base_url"))));
    key_value "openai_organization" (or_null (F f "openai_organization"));
    key_value "models" (F f "models"); key_value "group" groups;
    key_value "model_mapping" (or_null (F f "model_mapping"));
    key_value "priority" (value_default (F f "priority") (int 0));
    key_value "weight" (value_default (F f "weight") (int 0));
    key_value "test_model" (or_null (F f "test_model"));
    key_value "auto_ban" (value_default (F f "auto_ban") (int 1));
    key_value "status_code_mapping" (or_null (F f "status_code_mapping"));
    key_value "tag" (or_null (F f "tag")); key_value "remark" (or_empty (F f "remark"));
    key_value "setting" (Str setting); key_value "param_override" (or_null (F f "param_override"));
    key_value "header_override" (or_null (F f "header_override"));
    key_value "settings" (Str settings); key_value "other" (or_empty (F f "other")) ] ++ key in
  let text k p := put k (or_empty (F f k)) p in
  text "header_override"%string (text "param_override"%string (text "status_code_mapping"%string
    (text "model_mapping"%string (text "remark"%string (text "tag"%string (text "test_model"%string
    (text "openai_organization"%string
      (put "base_url" (Str (normalizeBaseUrl (F f "base_url"))) (clean payload))))))))).

Definition transformFormDataToUpdatePayload (f : form) (channelId : Z) : result TypeError form :=
  try! groups := formatGroups (F f "group") in
  try! setting := buildSettingJSON f in
  try! settings := buildSettingsJSON f in
  try! key := key_entry (F f "key") in
  Ok (update_payload f channelId groups setting settings key).

(** ** Validation helpers *)

Definition validateJSON (v : jsstr) : bool :=
  if negb (truthy v) || streq (trim v) [] then true
  else match JSON_parse v with Some _ => true | None => false end.

Definition validateModelMapping (v : jsstr) : bool :=
  if negb (truthy v) || streq (trim v) [] then true else validateJSON v.

(** ** Lemmas: fields *)

Lemma field_jm (o : form) k : field o k = default Undef (jm_get k o).
Proof.
  induction o as [|[k' v] o IH]; [done|]. simpl. unfold streq. rewrite IH.
  case_bool_decide; case_decide; done.
Qed.

Lemma js_inj a b : js a = js b → a = b.
Proof.
  revert b. induction a as [|c a IH]; intros [|d b]; simpl; try done.
  intros [= Hc Hs]. f_equal; [|by apply IH].
  unfold ch in Hc. apply (f_equal Ascii.ascii_of_N) in Hc. by rewrite !Ascii.ascii_N_embedding in Hc.
Qed.

Lemma field_put o k v k' : field (put k v o) k' = if decide (k' = js k) then v else field o k'.
Proof. unfold put. rewrite !field_jm, jm_get_set. repeat case_decide; simpl; congruence. Qed.

Lemma field_remove o k k' : field (remove k o) k' = if decide (k' = js k) then Undef else field o k'.
Proof. unfold remove. rewrite !field_jm, jm_get_delete. by case_decide. Qed.

(** What one statement does to the settings. *)
Inductive change := Set_ (v : value) | Remove | Keep.

Definition apply_change (o : form) (kc : string * change) : form :=
  match snd kc with Set_ v => put (fst kc) v o | Remove => remove (fst kc) o | Keep => o end.

(** What a name is left with. *)
Definition changed (o : form) (k : jsstr) (c : option change) : option value :=
  match c with Some (Set_ v) => Some v | Some Remove => None | _ => jm_get k o end.

Definition change_of (k : jsstr) (cs : list (string * change)) : option change :=
  jm_get k (map (λ kc, (js (fst kc), snd kc)) cs).

Lemma get_apply o kc k :
  jm_get k (apply_change o kc) = changed o k (if decide (k = js (fst kc)) then Some (snd kc) else None).
Proof.
  destruct kc as [k' []]; unfold apply_change, put, remove; cbn [fst snd].
  - rewrite jm_get_set. repeat case_decide; simpl; congruence.
  - rewrite jm_get_delete. by case_decide.
  - by case_decide.
Qed.

(** Statements on different names do not interfere. *)
Lemma get_changes cs o k :
  NoDup (map fst cs) → jm_get k (foldl apply_change o cs) = changed o k (change_of k cs).
Proof.
  unfold change_of. revert o. induction cs as [|[k' c] cs IH]; intros o Hnd; [done|].
  apply NoDup_cons in Hnd as [Hnin Hnd]. cbn [foldl map jm_get fst snd]. rewrite IH by done. clear IH Hnd.
  case_decide as E.
  - subst k. rewrite (proj2 (jm_get_None _ _)).
    + unfold changed at 1. rewrite get_apply. simpl. by rewrite decide_True.
    + intros Hin. apply Hnin. unfold jm_keys in Hin. rewrite map_map in Hin. cbn [fst] in Hin.
      apply list_elem_of_fmap in Hin as ([k2 c2] & E & Hin). apply js_inj in E. simpl in E. subst.
      by apply (list_elem_of_fmap_2 fst) in Hin.
  - unfold changed at 1. rewrite get_apply. simpl. by rewrite decide_False by congruence.
Qed.

Definition when (b : bool) (v : value) : change := if b then Set_ v else Remove.

(** ** The specification of the settings *)

Definition settings_changes (f o : form) : list (string * change) :=
  let ty := F f "type" in
  let flag k := strictly_true (F f k) in
  let openai := has_type OPENAI_FIELD_PASSTHROUGH_TYPES ty in
  let claude := has_type CLAUDE_FIELD_PASSTHROUGH_TYPES ty in
  let fetchable := has_type MODEL_FETCHABLE_TYPES ty in
  let check := is_true (F f "upstream_model_update_check_enabled") in
  let upstream (v : value) := if fetchable then Set_ v else Keep in
  [ ("vertex_key_type", when (is_num ty 41) (value_or (F f "vertex_key_type") (Str (js "json"))));
    ("azure_responses_version", when (is_num ty 3 && value_truthy (F f "azure_responses_version"))
       (F f "azure_responses_version"));
    ("openrouter_enterprise", when (is_num ty 20) (flag "is_enterprise_account"));
    ("aws_key_type", when (is_num ty 33) (value_or (F f "aws_key_type") (Str (js "ak_sk"))));
    ("allow_service_tier", when (has_type FIELD_PASSTHROUGH_TYPES ty) (flag "allow_service_tier"));
    ("disable_store", when openai (flag "disable_store"));
    ("allow_safety_identifier", when openai (flag "allow_safety_identifier"));
    ("allow_include_obfuscation", when openai (flag "allow_include_obfuscation"));
    ("allow_inference_geo", when (openai || claude) (flag "allow_inference_geo"));
    ("allow_speed", when claude (flag "allow_speed"));
    ("claude_beta_query", when (is_num ty 14) (flag "claude_beta_query"));
    ("disable_task_polling_sleep", Set_ (flag "disable_task_polling_sleep"));
    ("upstream_model_update_check_enabled", upstream (Bool check));
    ("upstream_model_update_auto_sync_enabled",
     upstream (Bool (check && is_true (F f "upstream_model_update_auto_sync_enabled"))));
    ("upstream_model_update_ignored_models",
     upstream (Arr (map Str (ignored_models (F f "upstream_model_update_ignored_models")))));
    ("upstream_model_update_last_detected_models",
     match F o "upstream_model_update_last_detected_models" with
     | Arr _ => if check then Keep else upstream (Arr [])
     | _ => upstream (Arr [])
     end);
    ("upstream_model_update_last_check_time",
     match F o "upstream_model_update_last_check_time" with Num _ => Keep | _ => upstream (int 0) end);
    ("advanced_custom",
     if is_num ty CHANNEL_TYPE_ADVANCED_CUSTOM then
       match AdvancedCustom.parseAdvancedCustomConfig (text_of (F f "advanced_custom")) with
       | Some config => Set_ (config_value config)
       | None => Keep
       end
     else Remove) ]%string.

Lemma put_if_when o b k v : put_if b k v o = apply_change o (k, when b v).
Proof. by destruct b. Qed.

Lemma F_put_eq o k v : F (put k v o) k = v.
Proof. unfold F. rewrite field_put. by rewrite decide_True. Qed.

Lemma F_put_ne o k v k' : k ≠ k' → F (put k v o) k' = F o k'.
Proof. intros Hk. unfold F. rewrite field_put, decide_False; [done|]. intros E. by apply js_inj in E. Qed.

Lemma F_apply_ne o kc k' : fst kc ≠ k' → F (apply_change o kc) k' = F o k'.
Proof.
  intros Hk. unfold F. rewrite !field_jm, get_apply, decide_False; [done|]. intros E. by apply js_inj in E.
Qed.

Lemma update_settings_changes f o o0 :
  F o "upstream_model_update_last_detected_models" = F o0 "upstream_model_update_last_detected_models" →
  F o "upstream_model_update_last_check_time" = F o0 "upstream_model_update_last_check_time" →
  has_type MODEL_FETCHABLE_TYPES (F f "type") = true →
  update_settings f o = foldl apply_change o (take 5 (drop 12 (settings_changes f o0))).
Proof.
  intros H1 H2 Hf. unfold update_settings, settings_changes. cbv zeta. rewrite Hf.
  cbn [drop take foldl]. rewrite !F_put_eq.
  set (check := is_true (F f "upstream_model_update_check_enabled")).
  set (o3 := put "upstream_model_update_ignored_models" _ _).
  change (apply_change _ ("upstream_model_update_ignored_models"%string, _)) with o3.
  assert (F o3 "upstream_model_update_check_enabled" = Bool check) as ->
    by (unfold o3; rewrite !F_put_ne by done; apply F_put_eq).
  assert (F o3 "upstream_model_update_last_detected_models" =
          F o0 "upstream_model_update_last_detected_models") as ->
    by (unfold o3; by rewrite !F_put_ne by done).
  assert (F o3 "upstream_model_update_last_check_time" = F o0 "upstream_model_update_last_check_time") as Ht
    by (unfold o3; by rewrite !F_put_ne by done).
  destruct (F o0 "upstream_model_update_last_detected_models"), check; cbn [negb orb is_true];
    rewrite ?F_put_ne, ?Ht by done; by destruct (F o0 "upstream_model_update_last_check_time").
Qed.

Lemma settings_object_changes f o : settings_object f o = foldl apply_change o (settings_changes f o).
Proof.
  unfold settings_object. cbv zeta. rewrite !put_if_when.
  assert (∀ o1 : form, (if is_num (F f "type") CHANNEL_TYPE_ADVANCED_CUSTOM then
    match AdvancedCustom.parseAdvancedCustomConfig (text_of (F f "advanced_custom")) with
    | Some config => put "advanced_custom" (config_value config) o1
    | None => o1
    end else remove "advanced_custom" o1) = foldl apply_change o1 (drop 17 (settings_changes f o))) as ->.
  { intros o1. unfold settings_changes. cbn [drop foldl].
    destruct (is_num _ _); [destruct (AdvancedCustom.parseAdvancedCustomConfig _)|]; done. }
  destruct (has_type MODEL_FETCHABLE_TYPES (F f "type")) eqn:Hf.
  - rewrite (update_settings_changes f _ o); [done|..|done].
    all: rewrite F_put_ne by done; rewrite !F_apply_ne by done; done.
  - unfold settings_changes. cbv zeta. rewrite Hf. cbn [drop foldl].
    destruct (F o "upstream_model_update_last_detected_models"),
      (F o "upstream_model_update_last_check_time"),
      (is_true (F f "upstream_model_update_check_enabled")); done.
Qed.

Lemma settings_names f o : NoDup (map fst (settings_changes f o)).
Proof. apply (bool_decide_unpack _). vm_compute. exact I. Qed.

Lemma settings_object_get f o k :
  jm_get k (settings_object f o) = changed o k (change_of k (settings_changes f o)).
Proof. rewrite settings_object_changes. apply get_changes, settings_names. Qed.

(** ** What the schema gives *)

Lemma accepted_check f k c :
  accepted f = true → jm_get k channelFormSchema_fields = Some c → c (F f k) = true.
Proof.
  intros Ha Hk. apply andb_true_iff in Ha as [Ha _]. rewrite forallb_forall in Ha.
  apply jm_get_Some_elem, list_elem_of_In in Hk. by apply (Ha (k, c)).
Qed.

Lemma optional_string v : optional zstring v = true → v = Undef ∨ ∃ s, v = Str s.
Proof. destruct v; try done; eauto. Qed.

Lemma refined_string check v : zrefined check v = true → (v = Undef ∨ ∃ s, v = Str s) ∧ check (text_of v) = true.
Proof. unfold zrefined. intros [Hv Hc]%andb_true_iff. split; [by apply optional_string|done]. Qed.

Lemma optional_bool v : optional zbool v = true → v = Undef ∨ ∃ b, v = Bool b.
Proof. destruct v; try done; eauto. Qed.

Lemma groups_strings v : zgroups v = true → ∃ gs, v = Arr (map Str gs) ∧ gs ≠ [].
Proof.
  destruct v as [| | | | |l|]; try done. simpl. intros [Hl Hn]%andb_true_iff.
  assert (∃ gs, l = map Str gs) as [gs ->].
  { clear Hn. induction l as [|x l IH]; [by exists []|]. simpl in Hl. apply andb_true_iff in Hl as [Hx Hl].
    destruct (IH Hl) as [gs ->]. destruct x as [| | | |s| |]; try done. by exists (s :: gs). }
  exists gs. split; [done|]. intros ->. by rewrite bool_decide_eq_true_2 in Hn.
Qed.

Lemma join_strings gs : join_values (map Str gs) = join (js ",") gs.
Proof. unfold join_values. f_equal. rewrite map_map. apply map_id. Qed.

Lemma accepted_groups f : accepted f = true → ∃ gs, F f "group" = Arr (map Str gs) ∧ gs ≠ [] ∧
  formatGroups (F f "group") = Ok (Str (join (js ",") gs)).
Proof.
  intros Ha. destruct (groups_strings (F f "group")) as (gs & Hg & Hn).
  { by apply (accepted_check f "group" zgroups). }
  exists gs. rewrite Hg. split_and!; [done..|]. simpl. by rewrite join_strings.
Qed.

Lemma accepted_limits f : accepted f = true → ∃ l, input_limits (F f "input_token_limits") = Ok l ∧
  InputLimits.parseInputTokenLimits JSON_parse (text_of (F f "input_token_limits")) = Ok l.
Proof.
  intros Ha. destruct (refined_string (InputLimits.isValidInputTokenLimits JSON_parse) (F f "input_token_limits"))
    as [Hv Hc]; [by apply (accepted_check f "input_token_limits")|].
  unfold InputLimits.isValidInputTokenLimits in Hc. unfold input_limits.
  destruct (InputLimits.parseInputTokenLimits _ _) as [l|]; [|done]. exists l.
  by destruct Hv as [->|[s ->] ].
Qed.

Lemma accepted_setting f : accepted f = true → ∃ proxy l,
  trim_or_empty (F f "proxy") = Ok (Str proxy) ∧
  InputLimits.parseInputTokenLimits JSON_parse (text_of (F f "input_token_limits")) = Ok l ∧
  buildSettingJSON f = Ok (JSON_stringify (Obj (setting_object f (Str proxy) l))).
Proof.
  intros Ha. unfold buildSettingJSON. destruct (accepted_limits f Ha) as (l & -> & Hl).
  destruct (refined_string isOptionalProxyURL (F f "proxy")) as [Hp _]; [by apply (accepted_check f "proxy")|].
  destruct Hp as [->|[s ->] ]; simpl; eauto.
Qed.

(** The object the settings start from. *)
Definition existing_settings (f : form) : form :=
  if value_truthy (F f "settings") && negb (is_str (F f "settings") (js "{}"))
  then match JSON_parse (to_str (F f "settings")) with Some (Obj o) => o | _ => [] end else [].

Section Laws.
Context {laws : EnvLaws}.

Lemma accepted_settings f : accepted f = true →
  buildSettingsJSON f = Ok (JSON_stringify (Obj (settings_object f (existing_settings f)))).
Proof.
  intros Ha. destruct (refined_string isOptionalJsonObject (F f "settings")) as [Hv Hc];
    [by apply (accepted_check f "settings")|].
  unfold buildSettingsJSON, existing_settings.
  destruct Hv as [Hv|[s Hv] ]; rewrite Hv in *; [done|].
  destruct (value_truthy (Str s) && _); [|done].
  unfold isOptionalJsonObject, parseOptionalJson in Hc. cbn [to_str text_of default id] in *.
  destruct (filled (Some s)) eqn:Hf; cbn [negb] in Hc.
  - pose proof (parse_defined s) as Hd. destruct (JSON_parse s) as [ [| | | | | |o]|]; done.
  - rewrite parse_blank; [done|]. unfold filled in Hf. by apply truthy_false in Hf.
Qed.

Lemma accepted_key f : accepted f = true → ∃ s, F f "key" = Str s ∧
  key_entry (F f "key") = Ok (if truthy (trim s) then [key_value "key" (Str s)] else []).
Proof.
  intros Ha. assert (zstring (F f "key") = true) as Hk by (by apply (accepted_check f "key")).
  destruct (F f "key") as [| | | |s| |]; try done. exists s. split; [done|].
  unfold key_entry. simpl. by destruct s.
Qed.

Lemma clean_text s : (if is_str (Str s) [] then Null else Str s) = or_null (Str s).
Proof. by destruct s. Qed.

Lemma clean_stringify v : v ≠ Undef →
  (if is_str (Str (JSON_stringify v)) [] then Null else Str (JSON_stringify v)) = Str (JSON_stringify v).
Proof.
  intros Hv. pose proof (stringify_nonblank v Hv) as Hn. simpl. unfold streq.
  case_bool_decide as E; [|done]. by rewrite E in Hn.
Qed.

(** What an update sends of the parts the form computes. *)
Lemma update_payload_parts f id gs v w key :
  v ≠ Undef → w ≠ Undef →
  let p := update_payload f id (Str gs) (JSON_stringify v) (JSON_stringify w) key in
  F p "group" = or_null (Str gs) ∧ F p "setting" = Str (JSON_stringify v) ∧
  F p "settings" = Str (JSON_stringify w).
Proof.
  intros Hv Hw p. split_and!.
  - transitivity (if is_str (Str gs) [] then Null else Str gs); [reflexivity|apply clean_text].
  - rewrite <-(clean_stringify v Hv). reflexivity.
  - rewrite <-(clean_stringify w Hw). reflexivity.
Qed.

(** ** The types of what is sent *)

Definition nullable (check : value → bool) (v : value) : bool := match v with Null => true | _ => check v end.

(** The fields of a creation: texts are filled or null. *)
Definition create_types : list (string * (value → bool)) := [
  ("name", zfilled); ("type", znonnegative); ("base_url", nullable zfilled); ("key", nullable zfilled);
  ("openai_organization", nullable zfilled); ("models", zfilled); ("group", nullable zfilled);
  ("model_mapping", nullable zfilled); ("priority", nullable znumber); ("weight", nullable znumber);
  ("test_model", nullable zfilled); ("auto_ban", znumber); ("status", znumber);
  ("status_code_mapping", nullable zfilled); ("tag", nullable zfilled); ("remark", nullable zfilled);
  ("setting", zfilled); ("param_override", nullable zfilled); ("header_override", nullable zfilled);
  ("settings", zfilled); ("other", nullable zfilled) ]%string.

(** The fields of an update: texts that can be taken back are sent empty. *)
Definition update_types : list (string * (value → bool)) := [
  ("expected_routing_config", nullable (optional zfilled)); ("id", znumber);
  ("name", zfilled); ("type", znonnegative); ("base_url", zstring); ("openai_organization", zstring);
  ("models", zfilled); ("group", nullable zfilled); ("model_mapping", zstring); ("priority", znumber);
  ("weight", znumber); ("test_model", zstring); ("auto_ban", znumber); ("status_code_mapping", zstring);
  ("tag", zstring); ("remark", zstring); ("setting", zfilled); ("param_override", zstring);
  ("header_override", zstring); ("settings", zfilled); ("other", nullable zfilled);
  ("key", optional zfilled) ]%string.

Definition well_typed (types : list (string * (value → bool))) (payload : form) : Prop :=
  Forall (λ '(k, check), check (F payload k) = true) types ∧ Forall (λ k, k ∈ map js (map fst types)) (jm_keys payload).

Definition cleaned (v : value) : value := if is_str v [] then Null else v.

Lemma text_or_null v : optional zstring v = true → nullable zfilled (cleaned (or_null v)) = true.
Proof. destruct v as [| | | |[|]| |]; done. Qed.

Lemma text_or_empty v : optional zstring v = true → nullable zfilled (cleaned (or_empty v)) = true.
Proof. destruct v as [| | | |[|]| |]; done. Qed.

Lemma text_kept v : optional zstring v = true → zstring (or_empty v) = true.
Proof. destruct v as [| | | |[|]| |]; done. Qed.

Lemma number_or_null v : optional znumber v = true → nullable znumber (cleaned (or_null v)) = true.
Proof.
  destruct v as [| | |n| | |]; try done. unfold or_null, value_or. intros Hn. by destruct (value_truthy (Num n)).
Qed.

Lemma number_default v z : optional znumber v = true → znumber (cleaned (value_default v (int z))) = true.
Proof. by destruct v. Qed.

Lemma number_kept v : znumber v = true → znumber (cleaned v) = true.
Proof. by destruct v. Qed.

Lemma type_kept v : znonnegative v = true → znonnegative (cleaned v) = true.
Proof. by destruct v. Qed.

Lemma filled_kept v : zfilled v = true → zfilled (cleaned v) = true.
Proof. destruct v as [| | | |[|]| |]; done. Qed.

Lemma string_cleaned v : zstring v = true → nullable zfilled (cleaned v) = true.
Proof. destruct v as [| | | |[|]| |]; done. Qed.

Lemma digest_cleaned v : optional zstring v = true → nullable (optional zfilled) (cleaned v) = true.
Proof. destruct v as [| | | |[|]| |]; done. Qed.

Lemma text_cleaned s : zfilled (cleaned (Str s)) = negb (streq s []).
Proof. by destruct s. Qed.

Lemma stringify_filled v : v ≠ Undef → zfilled (cleaned (Str (JSON_stringify v))) = true.
Proof.
  intros Hv. pose proof (stringify_nonblank v Hv) as Hn. rewrite text_cleaned. unfold streq.
  case_bool_decide as E; [|done]. by rewrite E in Hn.
Qed.

Lemma schema_text f k :
  accepted f = true →
  (∃ c, jm_get k channelFormSchema_fields = Some (zrefined c)) ∨
  jm_get k channelFormSchema_fields = Some (optional zstring) →
  optional zstring (F f k) = true.
Proof.
  intros Ha [[c Hk]|Hk]; [|by apply (accepted_check f k)].
  pose proof (accepted_check f k _ Ha Hk) as Hc. by apply andb_true_iff in Hc as [? _].
Qed.

Ltac schema_text Ha := apply (schema_text _ _ Ha); first [right; reflexivity|left; eexists; reflexivity].
Ltac schema_field Ha := apply (accepted_check _ _ _ Ha); reflexivity.

Lemma create_typed f c :
  accepted f = true → transformFormDataToCreatePayload f = Ok c → well_typed create_types (channel c).
Proof.
  intros Ha. destruct (accepted_groups f Ha) as (gs & Hg & _ & Hgs).
  destruct (accepted_setting f Ha) as (proxy & l & _ & _ & Ht). pose proof (accepted_settings f Ha) as Hs.
  unfold transformFormDataToCreatePayload. rewrite Hgs, Ht, Hs. cbn [result_bind]. intros [= <-].
  split; [|apply (bool_decide_unpack _); by vm_compute].
  repeat (apply Forall_cons; split); [..|by apply Forall_nil].
  - apply (filled_kept (F f "name")). schema_field Ha.
  - apply (type_kept (F f "type")). schema_field Ha.
  - by apply (text_or_null (Str (normalizeBaseUrl (F f "base_url")))).
  - apply (string_cleaned (F f "key")). schema_field Ha.
  - apply (text_or_null (F f "openai_organization")). schema_text Ha.
  - apply (filled_kept (F f "models")). schema_field Ha.
  - by apply (string_cleaned (Str (join (js ",") gs))).
  - apply (text_or_null (F f "model_mapping")). schema_text Ha.
  - apply (number_or_null (F f "priority")). schema_field Ha.
  - apply (number_or_null (F f "weight")). schema_field Ha.
  - apply (text_or_null (F f "test_model")). schema_text Ha.
  - apply (number_default (F f "auto_ban") 1). schema_field Ha.
  - apply (number_kept (F f "status")). schema_field Ha.
  - apply (text_or_null (F f "status_code_mapping")). schema_text Ha.
  - apply (text_or_null (F f "tag")). schema_text Ha.
  - apply (text_or_empty (F f "remark")). schema_text Ha.
  - by apply (stringify_filled (Obj (setting_object f (Str proxy) l))).
  - apply (text_or_null (F f "param_override")). schema_text Ha.
  - apply (text_or_null (F f "header_override")). schema_text Ha.
  - by apply (stringify_filled (Obj (settings_object f (existing_settings f)))).
  - apply (text_or_empty (F f "other")). schema_text Ha.
Qed.

Lemma update_typed f id p :
  accepted f = true → transformFormDataToUpdatePayload f id = Ok p → well_typed update_types p.
Proof.
  intros Ha. destruct (accepted_groups f Ha) as (gs & Hg & _ & Hgs).
  destruct (accepted_setting f Ha) as (proxy & l & _ & _ & Ht). pose proof (accepted_settings f Ha) as Hs.
  destruct (accepted_key f Ha) as (s & Hk & Hke).
  unfold transformFormDataToUpdatePayload. rewrite Hgs, Ht, Hs, Hke. cbn [result_bind]. intros [= <-].
  split; [|destruct (truthy (trim s)); apply (bool_decide_unpack _); by vm_compute].
  repeat (apply Forall_cons; split); [..|by apply Forall_nil].
  - apply (digest_cleaned (F f "routing_config_digest")). schema_text Ha.
  - done.
  - apply (filled_kept (F f "name")). schema_field Ha.
  - apply (type_kept (F f "type")). schema_field Ha.
  - done.
  - apply (text_kept (F f "openai_organization")). schema_text Ha.
  - apply (filled_kept (F f "models")). schema_field Ha.
  - by apply (string_cleaned (Str (join (js ",") gs))).
  - apply (text_kept (F f "model_mapping")). schema_text Ha.
  - apply (number_default (F f "priority") 0). schema_field Ha.
  - apply (number_default (F f "weight") 0). schema_field Ha.
  - apply (text_kept (F f "test_model")). schema_text Ha.
  - apply (number_default (F f "auto_ban") 1). schema_field Ha.
  - apply (text_kept (F f "status_code_mapping")). schema_text Ha.
  - apply (text_kept (F f "tag")). schema_text Ha.
  - apply (text_kept (F f "remark")). schema_text Ha.
  - by apply (stringify_filled (Obj (setting_object f (Str proxy) l))).
  - apply (text_kept (F f "param_override")). schema_text Ha.
  - apply (text_kept (F f "header_override")). schema_text Ha.
  - by apply (stringify_filled (Obj (settings_object f (existing_settings f)))).
  - apply (text_or_empty (F f "other")). schema_text Ha.
  - destruct s as [|c s]; [done|]. by destruct (truthy (trim (c :: s))).
Qed.

(** [C25] The schema makes saving safe: on a form it accepts neither payload throws, and both
    are well typed: they have only the fields of their tables, each of its type. In a creation
    every text is filled or null and every number finite; in an update the texts that can be
    taken back are strings, and the key is sent only when it is filled. The mode and the
    companions of a creation are of their enumerations. *)
Theorem accepted_form_saves (f : form) (id : Z) :
  accepted f = true →
  ∃ create update,
    transformFormDataToCreatePayload f = Ok create ∧
    transformFormDataToUpdatePayload f id = Ok update ∧
    well_typed create_types (channel create) ∧ well_typed update_types update ∧
    zenum ["single"; "batch"; "multi_to_single"]%string (mode create) = true ∧
    optional (zenum ["random"; "polling"]%string) (multi_key_mode create) = true ∧
    optional zbool (batch_add_set_key_prefix_2_name create) = true ∧
    (∃ gs fields o, F f "group" = Arr (map Str gs) ∧
       F update "group" = or_null (Str (join (js ",") gs)) ∧
       F update "setting" = Str (JSON_stringify (Obj fields)) ∧
       F update "settings" = Str (JSON_stringify (Obj (settings_object f o)))).
Proof.
  intros Ha. destruct (accepted_groups f Ha) as (gs & Hg & _ & Hgs).
  destruct (accepted_setting f Ha) as (proxy & l & _ & _ & Ht). pose proof (accepted_settings f Ha) as Hs.
  destruct (accepted_key f Ha) as (s & Hk & Hke).
  pose proof (create_typed f) as Hct. pose proof (update_typed f id) as Hut.
  unfold transformFormDataToCreatePayload, transformFormDataToUpdatePayload in *.
  rewrite Hgs, Ht, Hs, Hke in *. cbn [result_bind] in *. eexists _, _.
  split; [done|]. split; [done|]. split; [by apply Hct|]. split; [by apply Hut|]. cbn [mode multi_key_mode].
  assert (optional (zenum ["single"; "batch"; "multi_to_single"]%string) (F f "multi_key_mode") = true) as Hm
    by schema_field Ha.
  split; [by destruct (F f "multi_key_mode") as [| | | |[|]| |]|]. split.
  { destruct (is_str _ _); [schema_field Ha|done]. }
  split.
  { change (optional zbool (if is_str (value_or (F f "multi_key_mode") (Str (js "single"))) (js "batch")
      then F f "batch_add_set_key_prefix_2_name" else Undef) = true). clear Hct Hut. destruct (is_str _ _); [|done].
    by apply (accepted_check f "batch_add_set_key_prefix_2_name" (optional zbool)). }
  exists gs, (setting_object f (Str proxy) l), (existing_settings f).
  destruct (update_payload_parts f id (join (js ",") gs) (Obj (setting_object f (Str proxy) l))
    (Obj (settings_object f (existing_settings f)))
    (if truthy (trim s) then [key_value "key" (Str s)] else [])) as (H1 & H2 & H3); [done..|].
  by split_and!.
Qed.

(** [C24] What the settings of a saved channel hold, name by name: what the table of the
    form's type says, and for every name it does not list what the settings held before. *)
Theorem saved_settings_exact (f : form) :
  accepted f = true →
  ∃ o r, buildSettingsJSON f = Ok (JSON_stringify (Obj r)) ∧
    (∀ s, F f "settings" = Str s → trim s ≠ [] → JSON_parse s = Some (Obj o)) ∧
    (∀ k, jm_get k r = changed o k (change_of k (settings_changes f o))) ∧
    (∀ k, k ∉ map js (map fst (settings_changes f o)) → jm_get k r = jm_get k o).
Proof.
  intros Ha. exists (existing_settings f), (settings_object f (existing_settings f)).
  split_and!; [by apply accepted_settings| |apply settings_object_get|].
  - intros s Hs Hn. destruct (refined_string isOptionalJsonObject (F f "settings")) as [_ Hc];
      [by apply (accepted_check f "settings")|].
    unfold existing_settings. rewrite Hs in *. unfold isOptionalJsonObject, parseOptionalJson, filled in Hc.
    cbn [text_of default id] in Hc. apply truthy_spec in Hn as Hn'. rewrite Hn' in Hc. cbn [negb] in Hc.
    assert (value_truthy (Str s) = true) as -> by (destruct s; [by destruct Hn|done]). cbn [andb is_str].
    destruct (streq s (js "{}")) eqn:E; cbn [negb to_str].
    + apply streq_spec in E. subst s. apply parse_empty.
    + pose proof (parse_defined s) as Hd. destruct (JSON_parse s) as [ [| | | | | |o]|]; done.
  - intros k Hk. rewrite settings_object_get. unfold change_of.
    rewrite (proj2 (jm_get_None _ _)); [done|]. unfold jm_keys. rewrite map_map in *. exact Hk.
Qed.

(** An accepted form is sent; with its key exactly when it has one. *)
Lemma accepted_update f id : accepted f = true →
  ∃ s update, F f "key" = Str s ∧ transformFormDataToUpdatePayload f id = Ok update ∧
    jm_get (js "key") update = (if truthy (trim s) then Some (Str s) else None).
Proof.
  intros Ha. destruct (accepted_groups f Ha) as (gs & Hg & _ & Hgs).
  destruct (accepted_setting f Ha) as (proxy & l & _ & _ & Ht). pose proof (accepted_settings f Ha) as Hs.
  destruct (accepted_key f Ha) as (s & Hk & Hke). exists s.
  unfold transformFormDataToUpdatePayload. rewrite Hgs, Ht, Hs, Hke. cbn [result_bind].
  eexists. split_and!; [done..|]. destruct s as [|c s']; [reflexivity|].
  by destruct (truthy (trim (c :: s'))); reflexivity.
Qed.

Lemma accepted_create f : accepted f = true → ∃ create, transformFormDataToCreatePayload f = Ok create.
Proof.
  intros Ha. destruct (accepted_groups f Ha) as (gs & Hg & _ & Hgs).
  destruct (accepted_setting f Ha) as (proxy & l & _ & _ & Ht). pose proof (accepted_settings f Ha) as Hs.
  unfold transformFormDataToCreatePayload. rewrite Hgs, Ht, Hs. cbn [result_bind]. by eexists.
Qed.

(** The key of a channel: loading never shows one, an update sends the key exactly when
    the form holds one that is not blank, as it was typed, and saving a channel as it was
    loaded sends none, whatever the channel holds. *)
Theorem key_confined (f : form) (id : Z) :
  accepted f = true →
  (∃ s update, F f "key" = Str s ∧ transformFormDataToUpdatePayload f id = Ok update ∧
     jm_get (js "key") update = (if truthy (trim s) then Some (Str s) else None)) ∧
  (∀ channel update, F (transformChannelToFormDefaults channel) "key" = Str [] ∧
     (transformFormDataToUpdatePayload (transformChannelToFormDefaults channel) id = Ok update →
      jm_get (js "key") update = None)).
Proof.
  intros Ha. split; [by apply accepted_update|].
  intros channel update. split; [reflexivity|]. unfold transformFormDataToUpdatePayload.
  change (key_entry (F (transformChannelToFormDefaults channel) "key")) with (@Ok TypeError form []).
  intros He. apply result_bind_Ok_inv in He as (g & _ & He).
  apply result_bind_Ok_inv in He as (t1 & _ & He). apply result_bind_Ok_inv in He as (t2 & _ & He).
  cbn [result_bind] in He. injection He as <-. reflexivity.
Qed.

End Laws.

End Form.
End ChannelForm.
