(* ===== verification/ChannelReload.v ===== *)
(** * Saving a channel and loading it again (web/src/features/channels/lib/channel-form.ts)

    The two texts a channel keeps, [setting] and [settings], are fixed points: a channel that
    is saved, loaded into the form and saved again is saved as it was. And the transport
    options that are loaded and written are in range. *)
From Stdlib Require Import QArith Qcanon.
From S2P Require Import Prelude JsString JsMap JsValue Json AdvancedCustom Channels ChannelForm.
Local Open Scope Z_scope.

Module ChannelReload.
Import Json ChannelForm.

(** ** Objects that JSON holds *)

Lemma json_num_Z z : json_num (num_of_Z z) = true.
Proof.
  unfold json_num. with_strategy transparent [num_of_Z] unfold num_of_Z. cbn [this Q2Qc].
  assert (Qred (inject_Z z) = inject_Z z) as ->; [|done].
  apply Qred_identity. simpl. apply Z.gcd_1_r.
Qed.

Definition json_entry (kv : jsstr * value) : bool := negb (index_like (fst kv)) && json (snd kv).

Lemma json_obj o : json (Obj o) = true ↔ NoDup (jm_keys o) ∧ Forall (λ kv, json_entry kv = true) o.
Proof. simpl. by rewrite andb_true_iff, bool_decide_eq_true, forallb_Forall. Qed.

Lemma jm_set_Forall {K V} `{EqDecision K} (P : K * V → Prop) k v m :
  P (k, v) → Forall P m → Forall P (jm_set k v m).
Proof.
  intros Hp Hm. induction Hm as [|[k' v'] m Hx Hm IH]; simpl; [by constructor|].
  case_decide; [subst|]; by constructor.
Qed.

Lemma json_put o k v :
  json (Obj o) = true → index_like (js k) = false → json v = true → json (Obj (put k v o)) = true.
Proof.
  rewrite !json_obj. intros [Hn Hf] Hk Hv. split; [by apply jm_wf_set|].
  apply jm_set_Forall; [|done]. unfold json_entry. simpl. by rewrite Hk, Hv.
Qed.

Lemma json_remove o k : json (Obj o) = true → json (Obj (remove k o)) = true.
Proof.
  rewrite !json_obj. intros [Hn Hf]. split; [by apply jm_wf_filter|].
  apply Forall_forall. intros kv Hin. unfold remove, jm_delete in Hin.
  apply list_elem_of_filter in Hin as [_ Hin]. rewrite Forall_forall in Hf. by apply Hf.
Qed.

(** What a statement may put into the settings. *)
Definition json_change (kc : string * change) : Prop :=
  match snd kc with Set_ v => index_like (js (fst kc)) = false ∧ json v = true | _ => True end.

Lemma json_changes cs o :
  json (Obj o) = true → Forall json_change cs → json (Obj (foldl apply_change o cs)) = true.
Proof.
  intros Ho Hcs. revert o Ho. induction Hcs as [|[k c] cs Hc Hcs IH]; intros o Ho; [done|].
  simpl. apply IH. unfold apply_change, json_change in *. destruct c; simpl in *.
  - destruct Hc. by apply json_put.
  - by apply json_remove.
  - done.
Qed.

(** ** Statements that change nothing *)

Definition noop (o : form) (kc : string * change) : Prop :=
  match snd kc with
  | Set_ v => jm_get (js (fst kc)) o = Some v
  | Remove => jm_get (js (fst kc)) o = None
  | Keep => True
  end.

Lemma jm_set_same {K V} `{EqDecision K} (k : K) (v : V) m : jm_get k m = Some v → jm_set k v m = m.
Proof.
  induction m as [|[k' v'] m IH]; simpl; [done|]. case_decide; [by intros [= ->]|]. intros Hm. by rewrite IH.
Qed.

Lemma jm_delete_same {K V} `{EqDecision K} (k : K) (m : list (K * V)) : jm_get k m = None → jm_delete k m = m.
Proof.
  intros Hk. apply jm_get_None in Hk. apply filter_all, Forall_forall. intros [k' v] Hin E. simpl in E. subst k'. apply Hk.
  by apply (list_elem_of_fmap_2 fst) in Hin.
Qed.

Lemma noop_changes cs o : Forall (noop o) cs → foldl apply_change o cs = o.
Proof.
  induction 1 as [|[k c] cs Hc _ IH]; [done|]. simpl.
  assert (apply_change o (k, c) = o) as ->; [|done].
  unfold noop, apply_change, put, remove in *. destruct c; simpl in *;
    [by apply jm_set_same|by apply jm_delete_same|done].
Qed.

Section Reload.
Context `{Env} {laws : EnvLaws}.
#[local] Existing Instance route_browser.

(** ** The settings that are written *)

Lemma json_present l :
  NoDup (map fst l) → Forall (λ kv, index_like (fst kv) = false ∧ ∀ v, snd kv = Some v → json v = true) l →
  json (present l) = true.
Proof.
  intros Hn Hl. unfold present. apply json_obj. induction Hl as [|[k [v|]] l [Hk Hv] Hl IH]; simpl in *.
  - split; constructor.
  - apply NoDup_cons in Hn as [Hk' Hn]. destruct (IH Hn) as [H1 H2]. split.
    + constructor; [|done]. intros Hin. apply Hk'. unfold jm_keys in Hin.
      apply list_elem_of_fmap in Hin as ([k2 v2] & -> & Hin).
      apply list_elem_of_omap in Hin as ([k3 [v3|]] & Hin & E); simpl in E; [|done].
      injection E as -> ->. by apply (list_elem_of_fmap_2 fst) in Hin.
    + constructor; [|done]. unfold json_entry. simpl. rewrite Hk. by apply Hv.
  - apply NoDup_cons in Hn as [_ Hn]. by apply IH.
Qed.

Ltac present_ok :=
  apply json_present; [apply (bool_decide_unpack _); vm_compute; exact I|];
  repeat first [apply Forall_cons; split; [split; [reflexivity|cbn [snd]]|] | apply Forall_nil; exact I].

Lemma json_strings l : json (Arr (map Str l)) = true.
Proof. simpl. induction l; done. Qed.

Lemma json_auth a : json (auth_value a) = true.
Proof. unfold auth_value. present_ok; intros v Hv; apply fmap_Some in Hv as (x & _ & ->); done. Qed.

Lemma json_route r : json (route_value r) = true.
Proof.
  unfold route_value. present_ok; intros v Hv; apply fmap_Some in Hv as (x & _ & ->); try done;
    [apply json_strings|apply json_auth].
Qed.

Lemma json_config c : json (config_value c) = true.
Proof.
  unfold config_value. present_ok. intros v Hv. apply fmap_Some in Hv as (x & _ & ->). simpl.
  apply forallb_Forall, Forall_fmap, Forall_true, json_route.
Qed.

Lemma optional_enum l v : optional (zenum l) v = true → v = Undef ∨ ∃ s, v = Str s ∧ s ∈ map js l.
Proof. destruct v as [| | | |s| |]; try done; [by left|]. right. exists s. split; [done|]. by apply set_has_spec. Qed.

(** The fields that name a kind of key have a value. *)
Lemma enum_or l v d : optional (zenum l) v = true → Forall (λ s, js s ≠ []) l → js d ≠ [] →
  value_truthy (value_or v (Str (js d))) = true ∧ json (value_or v (Str (js d))) = true.
Proof.
  intros [->|(s & -> & Hs)]%optional_enum Hl Hd; unfold value_or; simpl.
  - apply truthy_spec in Hd. by rewrite Hd.
  - apply list_elem_of_fmap in Hs as (x & -> & Hx). rewrite Forall_forall in Hl.
    specialize (Hl x Hx). apply truthy_spec in Hl. by rewrite Hl.
Qed.

Lemma accepted_enum f k l :
  accepted f = true → jm_get k channelFormSchema_fields = Some (optional (zenum l)) →
  optional (zenum l) (F f k) = true.
Proof. intros Ha Hk. by apply (accepted_check f k). Qed.

Lemma accepted_vertex f : accepted f = true →
  value_truthy (value_or (F f "vertex_key_type") (Str (js "json"))) = true ∧
  json (value_or (F f "vertex_key_type") (Str (js "json"))) = true.
Proof.
  intros Ha. apply (enum_or ["json"; "api_key"]%string); [by apply accepted_enum|by repeat constructor|done].
Qed.

Lemma accepted_aws f : accepted f = true →
  value_truthy (value_or (F f "aws_key_type") (Str (js "ak_sk"))) = true ∧
  json (value_or (F f "aws_key_type") (Str (js "ak_sk"))) = true.
Proof.
  intros Ha. apply (enum_or ["ak_sk"; "api_key"]%string); [by apply accepted_enum|by repeat constructor|done].
Qed.

Lemma accepted_azure f : accepted f = true → json (F f "azure_responses_version") = true ∨
  value_truthy (F f "azure_responses_version") = false.
Proof.
  intros Ha. assert (optional zstring (F f "azure_responses_version") = true) as Hz by (by apply accepted_check).
  destruct (F f "azure_responses_version"); try done; auto.
Qed.

Lemma settings_json f o : accepted f = true → json (Obj o) = true → json (Obj (settings_object f o)) = true.
Proof.
  intros Ha Ho. rewrite settings_object_changes. apply json_changes; [done|].
  destruct (accepted_vertex f Ha) as [_ Hv]. destruct (accepted_aws f Ha) as [_ Hw].
  pose proof (accepted_azure f Ha) as Hz.
  assert (Hwhen : ∀ b k v, index_like (js k) = false → (b = true → json v = true) → json_change (k, when b v)).
  { intros [] k v Hk Hb; unfold json_change; simpl; auto. }
  assert (Hup : ∀ (b : bool) k v, index_like (js k) = false → json v = true →
    json_change (k, if b then Set_ v else Keep)) by (intros [] k v Hk Hb; unfold json_change; simpl; auto).
  unfold settings_changes. cbv zeta.
  repeat (apply Forall_cons; split); [..|apply Forall_nil; exact I].
  - by apply Hwhen.
  - apply Hwhen; [done|]. intros [_ Ht]%andb_true_iff. destruct Hz; congruence.
  - by apply Hwhen.
  - by apply Hwhen.
  - by apply Hwhen.
  - by apply Hwhen.
  - by apply Hwhen.
  - by apply Hwhen.
  - by apply Hwhen.
  - by apply Hwhen.
  - by apply Hwhen.
  - by split.
  - by apply Hup.
  - by apply Hup.
  - apply Hup; [done|apply json_strings].
  - destruct (F o _); try by apply Hup. destruct (is_true _); [done|by apply Hup].
  - destruct (F o _); try (apply Hup; [done|apply json_num_Z]). done.
  - destruct (is_num _ _); [|done]. destruct (AdvancedCustom.parseAdvancedCustomConfig _); [|done].
    split; [done|apply json_config].
Qed.

(** ** The settings that are read back *)

(** A custom channel that is accepted has a configuration. *)
Lemma accepted_custom f : accepted f = true → is_num (F f "type") CHANNEL_TYPE_ADVANCED_CUSTOM = true →
  ∃ c, AdvancedCustom.parseAdvancedCustomConfig (text_of (F f "advanced_custom")) =
       Some (AdvancedCustom.normalizeAdvancedCustomConfig c).
Proof.
  intros Ha Ht. apply andb_true_iff in Ha as [_ Ha%bool_decide_eq_true]. unfold superRefine in Ha.
  rewrite Ht in Ha. unfold custom_issues in Ha.
  destruct (AdvancedCustom.parseAdvancedCustomConfig _) as [config|] eqn:E.
  - unfold AdvancedCustom.parseAdvancedCustomConfig in E. destruct (negb _); [done|].
    destruct (AdvancedCustom.JSON_parse _) as [ [c|]|]; [|done..]. injection E as <-. by exists c.
  - simpl in Ha. by repeat (apply app_eq_nil in Ha as [? Ha]).
Qed.

(** Its text is read back. *)
Lemma custom_reread c : AdvancedCustom.parseAdvancedCustomConfig
    (Some (AdvancedCustom.stringifyAdvancedCustomConfig (AdvancedCustom.normalizeAdvancedCustomConfig c))) =
  Some (AdvancedCustom.normalizeAdvancedCustomConfig c).
Proof.
  unfold AdvancedCustom.parseAdvancedCustomConfig, AdvancedCustom.stringifyAdvancedCustomConfig. simpl.
  rewrite AdvancedCustom.normalize_config_idem. set (d := AdvancedCustom.normalizeAdvancedCustomConfig c).
  assert (config_value d ≠ Undef) as Hd by done.
  assert (truthy (trim (JSON_pretty (config_value d))) = true) as -> by apply truthy_spec, (pretty_nonblank _ Hd).
  simpl. rewrite parse_pretty by apply json_config. unfold config_value at 1, present at 1.
  change (Obj (omap _ _)) with (config_value d) at 1. rewrite as_config_value. simpl.
  unfold d. by rewrite AdvancedCustom.normalize_config_idem.
Qed.

Lemma ignored_reread v :
  ignored_models (Str (join_values (map Str (ignored_models v)))) = ignored_models v.
Proof.
  rewrite join_strings. set (l := ignored_models v).
  assert (Forall list_item l) as Hl.
  { apply Forall_forall. intros m Hm. unfold l, ignored_models in Hm. rewrite new_Set_elem in Hm.
    pose proof (comma_list_items (to_str (value_or v (Str [])))) as Hi. rewrite Forall_forall in Hi.
    exact (Hi m Hm). }
  unfold ignored_models at 1.
  assert (to_str (value_or (Str (join (js ",") l)) (Str [])) = join (js ",") l) as ->
    by (by destruct (join (js ",") l)).
  rewrite comma_list_join by done. apply new_Set_id, new_Set_NoDup.
Qed.

Lemma value_or_truthy v d : value_truthy v = true → value_or v d = v.
Proof. unfold value_or. by intros ->. Qed.

(** What the form reads of the settings it wrote: [g] is the form loaded from them. *)
Section Settings.
Context (f o g : form).
Context (Ha : accepted f = true).
Context (Htype : F g "type" = F f "type").
Context (Hread : Forall (λ kv, field g (fst kv) = snd kv) (type_settings (Obj (settings_object f o)))).

Lemma written k c : change_of (js k) (settings_changes f o) = Some c →
  jm_get (js k) (settings_object f o) = changed o (js k) (Some c).
Proof. intros Hc. by rewrite settings_object_get, Hc. Qed.

Lemma read k n v : type_settings (Obj (settings_object f o)) !! n = Some (js k, v) → F g k = v.
Proof. intros Hn. eapply (Forall_lookup_1 _ _ n _ Hread) in Hn. exact Hn. Qed.

Lemma get_field k : get (Obj (settings_object f o)) k = default Undef (jm_get k (settings_object f o)).
Proof. apply field_jm. Qed.

Lemma noop_flag b k k' n v :
  change_of (js k) (settings_changes f o) = Some (when b (strictly_true v)) →
  type_settings (Obj (settings_object f o)) !! n =
    Some (js k', strictly_true (get (Obj (settings_object f o)) (js k))) →
  noop (settings_object f o) (k, when b (strictly_true (F g k'))).
Proof.
  intros Hc Hn. apply written in Hc. rewrite (read _ _ _ Hn), get_field, Hc.
  destruct b; unfold noop; simpl; by rewrite Hc.
Qed.

Lemma noop_choice b k k' n v d :
  value_truthy (value_or v d) = true →
  change_of (js k) (settings_changes f o) = Some (when b (value_or v d)) →
  type_settings (Obj (settings_object f o)) !! n =
    Some (js k', value_or (get (Obj (settings_object f o)) (js k)) d) →
  noop (settings_object f o) (k, when b (value_or (F g k') d)).
Proof.
  intros Hv Hc Hn. apply written in Hc. rewrite (read _ _ _ Hn), get_field, Hc.
  destruct b; unfold noop; simpl; rewrite Hc; [|done]. simpl.
  by rewrite !(value_or_truthy (value_or v d)).
Qed.

Let r := settings_object f o.

Lemma noop_azure : noop r ("azure_responses_version"%string,
  when (is_num (F g "type") 3 && value_truthy (F g "azure_responses_version")) (F g "azure_responses_version")).
Proof.
  assert (jm_get (js "azure_responses_version") r = changed o (js "azure_responses_version") (Some
    (when (is_num (F f "type") 3 && value_truthy (F f "azure_responses_version")) (F f "azure_responses_version"))))
    as Hr by (by apply written).
  assert (F g "azure_responses_version" = or_empty (get (Obj r) (js "azure_responses_version"))) as Hg
    by (by apply (read _ 2)).
  rewrite Hg, Htype, get_field. fold r. rewrite Hr.
  destruct (is_num (F f "type") 3); [|by unfold noop; simpl; rewrite Hr].
  destruct (value_truthy (F f "azure_responses_version")) eqn:E; cbn [andb when changed default or_empty].
  - unfold id, or_empty. rewrite (value_or_truthy _ _ E), E. unfold noop. simpl. by rewrite Hr.
  - unfold noop. simpl. by rewrite Hr.
Qed.

Let fetchable := has_type MODEL_FETCHABLE_TYPES (F f "type").
Let check := is_true (F f "upstream_model_update_check_enabled").

Lemma read_check : is_true (F g "upstream_model_update_check_enabled") =
  is_true (field r (js "upstream_model_update_check_enabled")).
Proof.
  by rewrite (read "upstream_model_update_check_enabled" 12
    (strictly_true (get (Obj r) (js "upstream_model_update_check_enabled")))).
Qed.

Lemma upstream_written k v :
  change_of (js k) (settings_changes f o) = Some (if fetchable then Set_ v else Keep) →
  fetchable = true → jm_get (js k) r = Some v.
Proof. intros Hc Hf. apply written in Hc. fold r in Hc. by rewrite Hc, Hf. Qed.

Lemma check_same : fetchable = true → is_true (F g "upstream_model_update_check_enabled") = check.
Proof.
  intros Hf. rewrite read_check, field_jm. by rewrite (upstream_written _ (Bool check)).
Qed.

Lemma noop_upstream k v :
  (fetchable = true → jm_get (js k) r = Some v) → noop r (k, if fetchable then Set_ v else Keep).
Proof. intros Hv. unfold noop. destruct fetchable; simpl; auto. Qed.

Lemma noop_auto_sync : noop r ("upstream_model_update_auto_sync_enabled"%string,
  if fetchable then Set_ (Bool (is_true (F g "upstream_model_update_check_enabled") &&
    is_true (F g "upstream_model_update_auto_sync_enabled"))) else Keep).
Proof.
  apply noop_upstream. intros Hf.
  assert (jm_get (js "upstream_model_update_auto_sync_enabled") r =
    Some (Bool (check && is_true (F f "upstream_model_update_auto_sync_enabled")))) as Hr
    by (by apply upstream_written).
  rewrite check_same by done. rewrite (read "upstream_model_update_auto_sync_enabled" 13
    (strictly_true (get (Obj r) (js "upstream_model_update_auto_sync_enabled")))) by done.
  rewrite get_field. fold r. rewrite Hr. simpl. by destruct check.
Qed.

Lemma noop_ignored : noop r ("upstream_model_update_ignored_models"%string,
  if fetchable then Set_ (Arr (map Str (ignored_models (F g "upstream_model_update_ignored_models")))) else Keep).
Proof.
  apply noop_upstream. intros Hf.
  assert (jm_get (js "upstream_model_update_ignored_models") r =
    Some (Arr (map Str (ignored_models (F f "upstream_model_update_ignored_models"))))) as Hr
    by (by apply upstream_written).
  rewrite (read "upstream_model_update_ignored_models" 14
    match get (Obj r) (js "upstream_model_update_ignored_models") with
      | Arr l => Str (join_values l) | _ => Str [] end) by done.
  rewrite get_field. fold r. rewrite Hr. cbn [default id]. by rewrite ignored_reread.
Qed.

Lemma noop_detected : noop r ("upstream_model_update_last_detected_models"%string,
  match F r "upstream_model_update_last_detected_models" with
  | Arr _ => if is_true (F g "upstream_model_update_check_enabled") then Keep
             else if fetchable then Set_ (Arr []) else Keep
  | _ => if fetchable then Set_ (Arr []) else Keep
  end).
Proof.
  unfold F at 1. rewrite field_jm. destruct fetchable eqn:Hf.
  2: unfold noop; by destruct (default Undef _), (is_true (F g "upstream_model_update_check_enabled")).
  rewrite check_same by done.
  assert (jm_get (js "upstream_model_update_last_detected_models") r =
    changed o (js "upstream_model_update_last_detected_models") (Some
     (match F o "upstream_model_update_last_detected_models" with
      | Arr _ => if check then Keep else if fetchable then Set_ (Arr []) else Keep
      | _ => if fetchable then Set_ (Arr []) else Keep end))) as Hr by (by apply written).
  rewrite Hf in Hr.
  destruct (F o "upstream_model_update_last_detected_models") as [| | | | |l|] eqn:Eo.
  6: destruct check; [|by rewrite Hr; simpl; unfold noop; simpl; rewrite Hr].
  6: { unfold F in Eo. rewrite field_jm in Eo. rewrite Hr. simpl. by rewrite Eo. }
  all: rewrite Hr; simpl; destruct check; unfold noop; simpl; by rewrite ?Hr.
Qed.

Lemma noop_time : noop r ("upstream_model_update_last_check_time"%string,
  match F r "upstream_model_update_last_check_time" with
  | Num _ => Keep | _ => if fetchable then Set_ (int 0) else Keep end).
Proof.
  unfold F. rewrite field_jm. destruct fetchable eqn:Hf; [|unfold noop; by destruct (default Undef _)].
  assert (jm_get (js "upstream_model_update_last_check_time") r =
    changed o (js "upstream_model_update_last_check_time") (Some
     (match F o "upstream_model_update_last_check_time" with
      | Num _ => Keep | _ => if fetchable then Set_ (int 0) else Keep end))) as Hr by (by apply written).
  rewrite Hf in Hr. destruct (F o "upstream_model_update_last_check_time") eqn:Eo.
  4: unfold F in Eo; rewrite field_jm in Eo; rewrite Hr; simpl; by rewrite Eo.
  all: rewrite Hr; done.
Qed.

Lemma noop_custom : noop r ("advanced_custom"%string,
  if is_num (F f "type") CHANNEL_TYPE_ADVANCED_CUSTOM then
    match AdvancedCustom.parseAdvancedCustomConfig (text_of (F g "advanced_custom")) with
    | Some config => Set_ (config_value config)
    | None => Keep
    end
  else Remove).
Proof.
  destruct (is_num (F f "type") CHANNEL_TYPE_ADVANCED_CUSTOM) eqn:Ht.
  - destruct (accepted_custom f Ha Ht) as [c Hc].
    assert (jm_get (js "advanced_custom") r =
      Some (config_value (AdvancedCustom.normalizeAdvancedCustomConfig c))) as Hr.
    { unfold r. rewrite settings_object_get. unfold settings_changes. rewrite Hc, Ht. reflexivity. }
    rewrite (read "advanced_custom" 15 (if value_truthy (get (Obj r) (js "advanced_custom")) then
       match as_config (get (Obj r) (js "advanced_custom")) with
       | Some c => Str (AdvancedCustom.stringifyAdvancedCustomConfig c) | None => Str [] end
     else Str [])) by done.
    rewrite get_field. fold r. rewrite Hr. cbn [default id value_truthy config_value present].
    change (Obj (omap _ _)) with (config_value (AdvancedCustom.normalizeAdvancedCustomConfig c)).
    rewrite as_config_value. cbn [text_of]. rewrite custom_reread. exact Hr.
  - unfold noop, r. simpl. rewrite settings_object_get. unfold settings_changes. rewrite Ht. reflexivity.
Qed.

Lemma settings_reread : settings_object g r = r.
Proof.
  rewrite settings_object_changes. apply noop_changes. unfold settings_changes. cbv zeta. rewrite Htype.
  destruct (accepted_vertex f Ha) as [Hv _]. destruct (accepted_aws f Ha) as [Hw _].
  repeat (apply Forall_cons; split); [..|apply Forall_nil; exact I].
  - by eapply (noop_choice _ _ _ 1).
  - pose proof noop_azure as Hz. by rewrite Htype in Hz.
  - by eapply (noop_flag _ _ _ 0).
  - by eapply (noop_choice _ _ _ 3).
  - by eapply (noop_flag _ _ _ 4).
  - by eapply (noop_flag _ _ _ 5).
  - by eapply (noop_flag _ _ _ 11).
  - by eapply (noop_flag _ _ _ 6).
  - by eapply (noop_flag _ _ _ 7).
  - by eapply (noop_flag _ _ _ 8).
  - by eapply (noop_flag _ _ _ 9).
  - by eapply (noop_flag true _ _ 10).
  - apply noop_upstream. intros Hf. rewrite check_same by done. by apply upstream_written.
  - apply noop_auto_sync.
  - apply noop_ignored.
  - apply noop_detected.
  - apply noop_time.
  - apply noop_custom.
Qed.

End Settings.

(** ** The setting that is read back *)

Lemma value_or_idem v d : value_or (value_or v d) d = value_or v d.
Proof. unfold value_or. destruct (value_truthy v) eqn:E; [by rewrite E|]. by destruct (value_truthy d). Qed.

Lemma shards_default : normalizeHttp2ConnectionShards Undef = int 1.
Proof. done. Qed.

Lemma shards_cases v : let n := normalizeHttp2ConnectionShards v in
  n = int 1 ∨ n = int 8 ∨
  n = v ∧ num_lt (to_num v) (num_of_Z 1) = false ∧ num_lt (num_of_Z 8) (to_num v) = false.
Proof.
  assert (v = Undef ∨ v = Null ∨ ∃ special : bool, normalizeHttp2ConnectionShards v =
    if special then int 1 else if num_lt (to_num v) (num_of_Z 1) then int 1
    else if num_lt (num_of_Z 8) (to_num v) then int 8 else v) as [->|[->|[special ->] ] ].
  { destruct v; eauto; right; right; eexists; reflexivity. }
  1,2: by left.
  destruct special; [by left|]. destruct (num_lt (to_num v) (num_of_Z 1)); [by left|].
  destruct (num_lt (num_of_Z 8) (to_num v)); auto.
Qed.

(** Numbers of connections stay in range and are not changed again. *)
Lemma shards_range v :
  let n := to_num (normalizeHttp2ConnectionShards v) in
  num_lt n (num_of_Z 1) = false ∧ num_lt (num_of_Z MAX_HTTP2_CONNECTION_SHARDS) n = false.
Proof.
  cbv zeta. unfold MAX_HTTP2_CONNECTION_SHARDS.
  destruct (shards_cases v) as [E|[E|(E & H1 & H2)] ]; rewrite E; [..|done]; simpl;
    rewrite !num_lt_Z; split; apply bool_decide_eq_false; lia.
Qed.

Lemma shards_idem v :
  normalizeHttp2ConnectionShards (normalizeHttp2ConnectionShards v) = normalizeHttp2ConnectionShards v.
Proof. destruct (shards_cases v) as [E|[E|(E & _)] ]; rewrite E; [by vm_compute..|done]. Qed.

Lemma protocol_idem v : normalizeHttpProtocol (Str (normalizeHttpProtocol v)) = normalizeHttpProtocol v.
Proof. unfold normalizeHttpProtocol at 2 3. by destruct (streq _ _). Qed.

Section Setting.
Context (f g : form) (proxy : jsstr) (l : form).
Context (Hproxy : trim_or_empty (F f "proxy") = Ok (Str proxy)).
Context (Hlimits : InputLimits.parseInputTokenLimits JSON_parse (text_of (F f "input_token_limits")) = Ok l).
Context (Hjson : json (Obj l) = true).
Let o := setting_object f (Str proxy) l.
Context (Hread : Forall (λ kv, field g (fst kv) = snd kv) (extra_settings (Obj o))).

Lemma read_setting k n v : extra_settings (Obj o) !! n = Some (js k, v) → F g k = v.
Proof. intros Hn. eapply (Forall_lookup_1 _ _ n _ Hread) in Hn. exact Hn. Qed.

Let http1 := streq (normalizeHttpProtocol (F f "http_protocol")) HTTP_PROTOCOL_HTTP1.
Let shards := normalizeHttp2ConnectionShards (F f "http2_connection_shards").

Lemma get_limits : get (Obj o) (js "input_token_limits") = match l with [] => Undef | _ => Obj l end.
Proof.
  clear g Hproxy Hlimits Hjson Hread. unfold o, setting_object. fold http1 shards. destruct l; [|done]. destruct http1; [done|].
  by destruct (num_lt _ _).
Qed.

Lemma get_protocol : get (Obj o) (js "http_protocol") = if http1 then Str HTTP_PROTOCOL_HTTP1 else Undef.
Proof. clear g Hproxy Hlimits Hjson Hread. unfold o, setting_object. fold http1 shards. destruct l, http1; try done; by destruct (num_lt _ _). Qed.

Lemma get_shards : get (Obj o) (js "http2_connection_shards") =
  if negb http1 && num_lt (num_of_Z 1) (to_num shards) then shards else Undef.
Proof. clear g Hproxy Hlimits Hjson Hread. unfold o, setting_object. fold http1 shards. destruct l, http1; try done; by destruct (num_lt _ _). Qed.

Lemma proxy_reread : trim_or_empty (F g "proxy") = Ok (Str proxy).
Proof.
  rewrite (read_setting "proxy" 2 (or_empty (Str proxy))) by done.
  assert (trim proxy = proxy) as Ht.
  { destruct (F f "proxy"); simpl in Hproxy; try done; injection Hproxy as <-; [done..|apply trim_idemp]. }
  destruct proxy; [done|]. simpl. by rewrite Ht.
Qed.

Lemma limits_reread : input_limits (F g "input_token_limits") = Ok l.
Proof.
  rewrite (read_setting "input_token_limits" 4 match get (Obj o) (js "input_token_limits") with
    | Undef | Null => Str [] | v => Str (JSON_pretty v) end) by done.
  rewrite get_limits. destruct l as [|kv l'] eqn:El; [done|]. rewrite <-El in *.
  unfold input_limits, InputLimits.parseInputTokenLimits. cbn [text_of default id].
  assert (Obj l ≠ Undef) as Hd by done.
  assert (truthy (trim (JSON_pretty (Obj l))) = true) as -> by apply truthy_spec, (pretty_nonblank _ Hd).
  unfold object_of. rewrite parse_pretty by done. cbn [negb].
  unfold InputLimits.parseInputTokenLimits in Hlimits.
  destruct (negb _); [by injection Hlimits as E; rewrite <-E in El|].
  destruct (object_of _ _) as [ [fields|]|]; [|done..].
  destruct (forallb InputLimits.limit_ok fields) eqn:Hf; [|done]. injection Hlimits as <-. by rewrite Hf.
Qed.

Lemma http1_reread : streq (normalizeHttpProtocol (F g "http_protocol")) HTTP_PROTOCOL_HTTP1 = http1.
Proof.
  rewrite (read_setting "http_protocol" 3 (Str (normalizeHttpProtocol (get (Obj o) (js "http_protocol"))))) by done.
  rewrite protocol_idem, get_protocol. by destruct http1.
Qed.

Lemma shards_reread : http1 = false →
  normalizeHttp2ConnectionShards (F g "http2_connection_shards") =
    (if num_lt (num_of_Z 1) (to_num shards) then shards else int 1).
Proof.
  intros Hh. rewrite (read_setting "http2_connection_shards" 5
    (if streq (normalizeHttpProtocol (get (Obj o) (js "http_protocol"))) HTTP_PROTOCOL_HTTP1 then int 1
     else normalizeHttp2ConnectionShards (get (Obj o) (js "http2_connection_shards")))) by done.
  rewrite get_protocol, get_shards, Hh. simpl. rewrite shards_idem.
  destruct (num_lt _ _); [apply shards_idem|done].
Qed.

Lemma setting_reread : setting_object g (Str proxy) l = o.
Proof.
  unfold setting_object. rewrite http1_reread.
  rewrite (read_setting "force_format" 0 (or_false (or_false (F f "force_format")))) by done.
  rewrite (read_setting "thinking_to_content" 1 (or_false (or_false (F f "thinking_to_content")))) by done.
  rewrite (read_setting "pass_through_body_enabled" 6 (or_false (or_false (F f "pass_through_body_enabled")))) by done.
  rewrite (read_setting "system_prompt" 7 (or_empty (or_empty (F f "system_prompt")))) by done.
  rewrite (read_setting "system_prompt_override" 8 (or_false (or_false (F f "system_prompt_override")))) by done.
  unfold or_false, or_empty. rewrite !value_or_idem. unfold o, setting_object. fold http1 shards.
  destruct http1 eqn:Hh; [done|]. rewrite shards_reread by done.
  destruct (num_lt (num_of_Z 1) (to_num shards)) eqn:E; [by rewrite E|].
  cbn [to_num int]. by rewrite num_lt_irrefl.
Qed.

End Setting.

Lemma bool_or_json v : optional zbool v = true → json (or_false v) = true.
Proof. destruct v as [| |[]| | | |]; done. Qed.

Lemma text_or_json v : optional zstring v = true → json (or_empty v) = true.
Proof. destruct v as [| | | |[]| |]; done. Qed.

Lemma shards_json v : optional zint v = true → json (normalizeHttp2ConnectionShards v) = true.
Proof.
  intros Hv. destruct (shards_cases v) as [E|[E|(E & _)] ]; rewrite E; [apply json_num_Z..|].
  destruct v as [| | |n| | |]; try done. simpl in Hv. unfold isSafeInteger in Hv.
  destruct (as_integer n) as [z|] eqn:En; [|done]. apply as_integer_Some in En as ->. apply json_num_Z.
Qed.

(** The names of the setting. *)
Definition base_names : list string :=
  ["force_format"; "thinking_to_content"; "proxy"; "pass_through_body_enabled"; "system_prompt";
   "system_prompt_override"]%string.

Lemma setting_names f proxy l : ∃ a b,
  a ∈ [[]; ["input_token_limits"]]%string ∧ b ∈ [[]; ["http_protocol"]; ["http2_connection_shards"]]%string ∧
  jm_keys (setting_object f proxy l) = map js (base_names ++ a ++ b).
Proof.
  unfold setting_object.
  set (limits := match l with [] => [] | _ => _ end). set (transport := if streq _ _ then _ else _).
  exists (if decide (l = []) then [] else ["input_token_limits"%string]).
  exists (if streq (normalizeHttpProtocol (F f "http_protocol")) HTTP_PROTOCOL_HTTP1 then ["http_protocol"%string]
    else match transport with [] => [] | _ => ["http2_connection_shards"%string] end).
  split_and!.
  - case_decide; [by left|by right; left].
  - destruct (streq _ _); [by right; left|]. destruct transport; [by left|by right; right; left].
  - unfold limits, transport. destruct (streq _ _); [|destruct (num_lt _ _)]; by destruct l.
Qed.

Lemma setting_nodup f proxy l : NoDup (jm_keys (setting_object f proxy l)).
Proof.
  destruct (setting_names f proxy l) as (a & b & Ha & Hb & ->).
  assert (forallb (λ a, forallb (λ b, bool_decide (NoDup (map js (base_names ++ a ++ b))))
    [[]; ["http_protocol"]; ["http2_connection_shards"]]%string) [[]; ["input_token_limits"]]%string = true) as Hall
    by (vm_compute; reflexivity).
  rewrite forallb_forall in Hall. apply list_elem_of_In in Ha, Hb. specialize (Hall a Ha).
  rewrite forallb_forall in Hall. by apply (bool_decide_eq_true_1 _), Hall.
Qed.

Lemma setting_json f proxy l :
  accepted f = true → json (Obj l) = true → json (Obj (setting_object f (Str proxy) l)) = true.
Proof.
  intros Ha Hl.
  assert (Hb : ∀ k, jm_get k channelFormSchema_fields = Some (optional zbool) → json (or_false (F f k)) = true)
    by (intros k Hk; apply bool_or_json; by apply (accepted_check f k)).
  assert (json (or_empty (F f "system_prompt")) = true) as Hs
    by (apply text_or_json; by apply (accepted_check f "system_prompt")).
  assert (json (normalizeHttp2ConnectionShards (F f "http2_connection_shards")) = true) as Hn
    by (apply shards_json; by apply (accepted_check f "http2_connection_shards")).
  apply json_obj. split; [apply setting_nodup|]. unfold setting_object.
  apply Forall_app; split; [|apply Forall_app; split].
  - repeat (apply Forall_cons; split); [..|apply Forall_nil; exact I]; unfold json_entry; cbn [fst snd key_value];
      first [exact Hs | by apply Hb | done].
  - destruct l; [constructor|]. apply Forall_singleton, andb_true_iff. split; [done|exact Hl].
  - destruct (streq _ _); [by apply Forall_singleton|]. destruct (num_lt _ _); [|constructor].
    apply Forall_singleton, andb_true_iff. split; [done|exact Hn].
Qed.

(** A text that was written is read as its object. *)
Lemma parsed_written v : json v = true → v ≠ Null → parsed_text (Str (JSON_stringify v)) = v.
Proof.
  intros Hv Hn. unfold parsed_text. cbn [value_truthy to_str].
  assert (v ≠ Undef) as Hd by (by intros ->). pose proof (stringify_nonblank v Hd) as Hb.
  assert (truthy (JSON_stringify v) = true) as -> by (by destruct (JSON_stringify v)).
  rewrite parse_stringify by done. by destruct v.
Qed.

Lemma loaded_settings c : let g := transformChannelToFormDefaults c in
  Forall (λ kv, field g (fst kv) = snd kv) (extra_settings (parsed_text (F c "setting"))) ∧
  Forall (λ kv, field g (fst kv) = snd kv) (type_settings (parsed_text (F c "settings"))).
Proof. split; repeat (apply Forall_cons; split; [reflexivity|]); by apply Forall_nil. Qed.

(** The fields that are texts of the channel itself. *)
Definition text_fields : list string :=
  ["name"; "openai_organization"; "models"; "model_mapping"; "test_model"; "status_code_mapping";
   "tag"; "remark"; "param_override"; "header_override"; "other"]%string.

Lemma loaded_text c k : k ∈ text_fields → F (transformChannelToFormDefaults c) k = or_empty (F c k).
Proof. intros Hk. repeat (apply elem_of_cons in Hk as [->|Hk]; [reflexivity|]). by apply elem_of_nil in Hk. Qed.

Lemma or_empty_clean v : or_empty (if is_str v [] then Null else v) = or_empty v.
Proof. by destruct v as [| | | |[]| |]. Qed.

Lemma or_empty_null v : or_empty (if is_str (or_empty v) [] then Null else or_empty v) = or_empty v.
Proof. rewrite or_empty_clean. unfold or_empty. by rewrite value_or_idem. Qed.

Lemma sent_text f id gs t1 t2 key k : k ∈ text_fields →
  or_empty (F (update_payload f id gs t1 t2 key) k) = or_empty (F f k).
Proof.
  intros Hk. repeat (apply elem_of_cons in Hk as [->|Hk];
    [first [exact (value_or_idem _ _) | exact (or_empty_clean _) | exact (or_empty_null _)]|]).
  by apply elem_of_nil in Hk.
Qed.

Lemma payload_type f id gs t1 t2 key : accepted f = true →
  F (update_payload f id gs t1 t2 key) "type" = F f "type".
Proof.
  intros Ha. assert (znonnegative (F f "type") = true) as Ht by (by apply (accepted_check f "type")).
  transitivity (if is_str (F f "type") [] then Null else F f "type"); [reflexivity|].
  by destruct (F f "type").
Qed.

Lemma stringify_or v d : v ≠ Undef → value_or (Str (JSON_stringify v)) d = Str (JSON_stringify v).
Proof.
  intros Hv. apply value_or_truthy. pose proof (stringify_nonblank v Hv). simpl. by destruct (JSON_stringify v).
Qed.

Lemma settings_text_reread f o g :
  let r := settings_object f o in
  accepted f = true → json (Obj r) = true → F g "type" = F f "type" →
  Forall (λ kv, field g (fst kv) = snd kv) (type_settings (Obj r)) →
  F g "settings" = Str (JSON_stringify (Obj r)) →
  buildSettingsJSON g = Ok (JSON_stringify (Obj r)).
Proof.
  intros r Ha Hj Ht Hread Hs. assert (settings_object g r = r) as Hr by (by apply settings_reread).
  unfold buildSettingsJSON. rewrite Hs. cbn [to_str is_str].
  assert (Obj r ≠ Undef) as Hd by done. pose proof (stringify_nonblank _ Hd) as Hn.
  assert (value_truthy (Str (JSON_stringify (Obj r))) = true) as ->
    by (simpl; by destruct (JSON_stringify (Obj r))).
  destruct (streq (JSON_stringify (Obj r)) (js "{}")) eqn:E; cbn [andb negb].
  - apply streq_spec in E. pose proof (parse_stringify _ Hj) as Hp. rewrite E, parse_empty in Hp.
    injection Hp as Hp. by rewrite Hp, Hr.
  - rewrite parse_stringify by done. cbn [default id]. by rewrite Hr.
Qed.

Lemma map_Str_inj l k : map Str l = map Str k → l = k.
Proof.
  revert k. induction l as [|x l IH]; intros [|y k]; try done. simpl. intros [= -> E]. f_equal. by apply IH.
Qed.

Lemma loaded_groups c gs : gs ≠ [] → Forall list_item gs → F c "group" = or_null (Str (join (js ",") gs)) →
  F (transformChannelToFormDefaults c) "group" = Arr (map Str gs).
Proof.
  intros Hn Hi Hc.
  change (Arr (map Str (parseGroups (to_str (value_or (F c "group") (Str (js "default")))))) = Arr (map Str gs)).
  do 2 f_equal. rewrite Hc.
  assert (join (js ",") gs ≠ []) as Hj.
  { destruct Hi as [|x gs (_ & Hx & _) _]; [done|]. by destruct x, gs. }
  transitivity (comma_list (join (js ",") gs)); [|by apply comma_list_join].
  by destruct (join (js ",") gs).
Qed.

Ltac base_field := apply elem_of_app; left; repeat first [by left | right].

(** The other fields an update sends from the form. *)
Definition number_fields : list (string * Z) := [("priority", 0); ("weight", 0); ("auto_ban", 1)]%string.

Lemma sent_number f id gs t1 t2 key k z : accepted f = true → (k, z) ∈ number_fields →
  F (update_payload f id gs t1 t2 key) k = value_default (F f k) (int z).
Proof.
  intros Ha Hk. assert (optional znumber (F f k) = true) as Hn.
  { repeat (apply elem_of_cons in Hk as [ [= -> ->]|Hk]; [apply (accepted_check f _ _ Ha); reflexivity|]). by apply elem_of_nil in Hk. }
  transitivity (cleaned (value_default (F f k) (int z))).
  { repeat (apply elem_of_cons in Hk as [ [= -> ->]|Hk]; [reflexivity|]). by apply elem_of_nil in Hk. }
  by destruct (F f k).
Qed.

Lemma number_or_zero v : znumber v = true → value_or v (int 0) = v.
Proof.
  destruct v as [| | |n| | |]; try done. intros Hn. unfold value_or, value_truthy, num_eqb.
  destruct n as [| | |q]; try done. cbn [bool_decide negb andb].
  with_strategy transparent [num_of_Z] unfold num_of_Z, int.
  rewrite bool_decide_false by done. cbn [negb andb]. case_bool_decide as E; [|done]. cbn [negb].
  with_strategy transparent [num_of_Z] unfold num_of_Z. by rewrite E.
Qed.

Lemma default_number f k z : accepted f = true → (k, z) ∈ number_fields →
  znumber (value_default (F f k) (int z)) = true.
Proof.
  intros Ha Hk. assert (optional znumber (F f k) = true) as Hn.
  { repeat (apply elem_of_cons in Hk as [ [= -> ->]|Hk]; [apply (accepted_check f _ _ Ha); reflexivity|]). by apply elem_of_nil in Hk. }
  by destruct (F f k).
Qed.

Lemma loaded_number f c id gs t1 t2 key k z : accepted f = true → (k, z) ∈ number_fields →
  F c k = F (update_payload f id gs t1 t2 key) k →
  F (transformChannelToFormDefaults c) k = value_default (F f k) (int z).
Proof.
  intros Ha Hk Hc. rewrite (sent_number f id gs t1 t2 key k z Ha Hk) in Hc.
  pose proof (default_number f k z Ha Hk) as Hn. pose proof (number_or_zero _ Hn) as Hz. revert Hn Hz. rewrite <- Hc.
  intros Hn Hz.
  repeat (apply elem_of_cons in Hk as [ [= -> ->]|Hk];
    [first [exact Hz|change (value_default (F c "auto_ban") (int 1) = F c "auto_ban"); by destruct (F c "auto_ban")]|]).
  by apply elem_of_nil in Hk.
Qed.

Lemma resent_text f g id gs t1 t2 key key' k : accepted f = true → k ∈ text_fields →
  (∀ k, k ∈ text_fields → F g k = or_empty (F f k)) →
  F (update_payload g id gs t1 t2 key') k = F (update_payload f id gs t1 t2 key) k.
Proof.
  intros Ha Hk Hg. specialize (Hg k Hk).
  assert (or_empty (or_empty (F f k)) = or_empty (F f k)) as Hi by apply value_or_idem.
  assert (zfilled (F f k) = true → or_empty (F f k) = F f k) as Hf by (destruct (F f k) as [| | | |[|]| |]; done).
  repeat (apply elem_of_cons in Hk as [->|Hk];
    [first [ change (or_empty (F g k) = or_empty (F f k)); by rewrite Hg, Hi
           | match goal with |- F _ ?k = _ => change (cleaned (F g k) = cleaned (F f k)) end;
             rewrite Hg, Hf by (apply (accepted_check f _ _ Ha); reflexivity); done
           | match goal with |- F _ ?k = _ => change (or_empty (F g k) = or_empty (F f k)) end; by rewrite Hg, Hi
           | match goal with |- F _ ?k = _ => change (cleaned (or_empty (F g k)) = cleaned (or_empty (F f k))) end;
             by rewrite Hg, Hi ]|]).
  apply elem_of_nil in Hk. destruct Hk.
Qed.

Lemma sent_base f id gs t1 t2 key : F (update_payload f id gs t1 t2 key) "base_url" = Str (normalizeBaseUrl (F f "base_url")).
Proof. reflexivity. Qed.

(** A form that shows the type, the texts and the numbers of another sends the same. *)
Lemma resent_payload f g id gs t1 t2 key key' : accepted f = true → F g "type" = F f "type" →
  (∀ k, k ∈ text_fields → F g k = or_empty (F f k)) →
  (∀ k z, (k, z) ∈ number_fields → F g k = value_default (F f k) (int z)) →
  ∀ k, k ∈ ["id"; "type"; "setting"; "settings"; "group"; "priority"; "weight"; "auto_ban"]%string ++ text_fields →
    F (update_payload g id gs t1 t2 key') k = F (update_payload f id gs t1 t2 key) k.
Proof.
  intros Ha Ht Hg Hn k [Hk|Hk]%elem_of_app; [|by apply resent_text].
  assert (∀ z, (k, z) ∈ number_fields → cleaned (value_default (F g k) (int z)) = cleaned (value_default (F f k) (int z))) as Hnum.
  { intros z Hz. rewrite (Hn k z Hz). pose proof (default_number f k z Ha Hz) as Hd.
    by destruct (value_default (F f k) (int z)). }
  repeat (apply elem_of_cons in Hk as [->|Hk];
    [first [ reflexivity
           | change (cleaned (F g "type") = cleaned (F f "type")); by rewrite Ht
           | apply (Hnum 0); by repeat first [by left | right]
           | apply (Hnum 1); by repeat first [by left | right] ]|]).
  apply elem_of_nil in Hk. destruct Hk.
Qed.


(** The transport of a channel: whatever number of connections the form or the stored
    channel holds, what is written and what is shown lies between 1 and 8, HTTP/1.1 goes with
    one connection and its number is not written, and a number is written only when it is
    not the default. *)
Theorem transport_bounds (f : form) (proxy : jsstr) (l channel : form) :
  let o := setting_object f (Str proxy) l in
  let g := transformChannelToFormDefaults channel in
  (field o (js "http_protocol") = Str HTTP_PROTOCOL_HTTP1 ∧ field o (js "http2_connection_shards") = Undef ∨
   field o (js "http_protocol") = Undef ∧
   (field o (js "http2_connection_shards") = Undef ∨
    let n := to_num (field o (js "http2_connection_shards")) in
    num_lt (num_of_Z 1) n = true ∧ num_lt (num_of_Z 8) n = false)) ∧
  (F g "http_protocol" = Str HTTP_PROTOCOL_HTTP1 ∧ F g "http2_connection_shards" = int 1 ∨
   F g "http_protocol" = Str HTTP_PROTOCOL_AUTO ∧
   let n := to_num (F g "http2_connection_shards") in
   num_lt n (num_of_Z 1) = false ∧ num_lt (num_of_Z 8) n = false).
Proof.
  intros o g. split.
  - change (field o (js "http_protocol")) with (get (Obj o) (js "http_protocol")).
    change (field o (js "http2_connection_shards")) with (get (Obj o) (js "http2_connection_shards")).
    unfold o. rewrite get_protocol, get_shards. destruct (streq _ _); [by left|right]. split; [done|].
    destruct (negb false && _) eqn:E; [right|by left]. split; [done|]. apply shards_range.
  - set (p := parsed_text (F channel "setting")).
    change (F g "http_protocol") with (Str (normalizeHttpProtocol (get p (js "http_protocol")))).
    change (F g "http2_connection_shards") with
      (if streq (normalizeHttpProtocol (get p (js "http_protocol"))) HTTP_PROTOCOL_HTTP1 then int 1
       else normalizeHttp2ConnectionShards (get p (js "http2_connection_shards"))).
    unfold normalizeHttpProtocol. destruct (streq (map _ _) _); [by left|right].
    split; [done|]. apply shards_range.
Qed.

End Reload.

(** ** A channel to which the statements apply *)

(** The cast of an object of the declared shape. *)
Definition text_field (v : value) (k : string) : option jsstr := text_of (get v (js k)).

Definition read_auth (v : value) : AdvancedCustom.AdvancedCustomRouteAuth :=
  AdvancedCustom.mkAuth (text_field v "type") (text_field v "name") (text_field v "value").

Definition read_route (v : value) : AdvancedCustom.AdvancedCustomRoute :=
  AdvancedCustom.mkRoute (text_field v "incoming_path") (text_field v "upstream_path")
    (text_field v "converter")
    match get v (js "models") with Arr l => Some (omap text_of l) | _ => None end
    match get v (js "auth") with Obj fs => Some (read_auth (Obj fs)) | _ => None end.

Definition read_config (v : value) : option AdvancedCustom.AdvancedCustomConfig :=
  Some (AdvancedCustom.mkConfig
    match get v (js "advanced_routes") with Arr l => Some (map read_route l) | _ => None end).

Lemma read_auth_value a : read_auth (auth_value a) = a.
Proof. by destruct a as [ [] [] [] ]. Qed.

Lemma read_texts l : omap text_of (map Str l) = l.
Proof. induction l as [|x l IH]; [done|]. exact (f_equal (cons x) IH). Qed.

Lemma read_route_value r : read_route (route_value r) = r.
Proof.
  destruct r as [ip up co ms au]. unfold read_route.
  assert (get (route_value (AdvancedCustom.mkRoute ip up co ms au)) (js "models") =
    default Undef ((λ l, Arr (map Str l)) <$> ms)) as -> by (by destruct ip, up, co, ms, au).
  assert (get (route_value (AdvancedCustom.mkRoute ip up co ms au)) (js "auth") =
    default Undef (auth_value <$> au)) as -> by (by destruct ip, up, co, ms, au).
  f_equal; [by destruct ip, up, co, ms, au..| |].
  - destruct ms as [l|]; [|done]. exact (f_equal Some (read_texts l)).
  - destruct au as [a|]; [|done]. cbn [fmap option_fmap option_map default id].
    destruct (auth_value a) eqn:E; try done. by rewrite <-E, read_auth_value.
Qed.

Lemma read_config_value c : read_config (config_value c) = Some c.
Proof.
  destruct c as [ [l|]]; [|done]. unfold read_config. simpl. do 3 f_equal. rewrite map_map.
  etrans; [apply map_ext, read_route_value|apply map_id].
Qed.

#[local] Instance sample_env : Env :=
  {| env_json := sample_json; new_URL _ := None; as_config := read_config |}.
#[local] Instance sample_env_laws : EnvLaws.
Proof. split; [apply sample_json_laws|apply read_config_value]. Qed.

(** An OpenAI channel over six connections, whose settings hold a name the form does not
    know. *)
Definition sample_form : form :=
  put "http2_connection_shards" (int 6) (put "allow_service_tier" (Bool true)
    (put "settings" (Str (JSON_stringify (Obj [(js "note", Str (js "kept"))])))
      (put "name" (Str (js "main")) (put "models" (Str (js "gpt-4o,o1")) CHANNEL_FORM_DEFAULT_VALUES)))).

Lemma sample_accepted : accepted sample_form = true.
Proof. vm_compute. reflexivity. Qed.

Lemma accepted_form_saves_witness :
  accepted sample_form = true ∧ ∃ create, transformFormDataToCreatePayload sample_form = Ok create.
Proof.
  split; [exact sample_accepted|].
  destruct (accepted_form_saves sample_form 7 sample_accepted) as (create & update & H & _). by exists create.
Defined.

Lemma saved_settings_exact_witness :
  ∃ r, buildSettingsJSON sample_form = Ok (JSON_stringify (Obj r)) ∧
    jm_get (js "note") r = Some (Str (js "kept")) ∧
    jm_get (js "allow_service_tier") r = Some (Bool true) ∧ jm_get (js "vertex_key_type") r = None.
Proof.
  destruct (saved_settings_exact sample_form sample_accepted) as (o & r & Hr & Ho & Hk & _).
  exists r. split; [exact Hr|]. rewrite !Hk.
  assert (Some (Obj o) = Some (Obj [(js "note", Str (js "kept"))])) as E.
  { etrans; [symmetry; apply (Ho (JSON_stringify (Obj [(js "note", Str (js "kept"))])))|].
    - reflexivity.
    - apply sample_nonblank.
    - apply sample_read_text. discriminate. }
  injection E as ->. done.
Defined.

Lemma key_confined_witness :
  ∃ update, transformFormDataToUpdatePayload sample_form 7 = Ok update ∧ jm_get (js "key") update = None.
Proof.
  destruct (key_confined sample_form 7 sample_accepted) as [(s & update & Hs & Hu & Hk) _].
  exists update. split; [exact Hu|]. rewrite Hk. injection Hs as <-. reflexivity.
Defined.


End ChannelReload.
