(* ===== verification/ChannelSave.v ===== *)
(** * Saving a channel
      (web/src/features/channels/hooks/use-channel-mutate-form.ts, lib/channel-actions.ts,
      lib/channel-form-errors.ts, components/dialogs/copy-channel-dialog.tsx,
      web/src/lib/admin-permissions.ts)

    The hook that sends the channel form of [ChannelForm] to the server, and the keys that
    name a creation, so that a repeated request does not create a second channel.

    A mutation is a request under way: several may be, and they are answered in any order. *)
From S2P Require Import Prelude JsString JsMap JsValue Json AuthSession ChannelForm ChannelReload.
Local Open Scope js_scope.

(** ** Keys of operations *)

Module OperationKey.

(** The browser's random numbers: [randomUUID] when there is one, else 16 random bytes, of
    the [n]-th call. They do not repeat within the number of calls a page makes, [calls]. *)
Class Crypto := {
  randomUUID : option (nat → jsstr);
  getRandomValues : nat → list N;
  calls : nat
}.

Class CryptoLaws `{Crypto} : Prop := {
  uuid_distinct : ∀ uuid m n, m < calls → n < calls → randomUUID = Some uuid → uuid m = uuid n → m = n;
  uuid_nonempty : ∀ uuid n, randomUUID = Some uuid → uuid n ≠ [];
  random_bytes : ∀ n, length (getRandomValues n) = 16%nat ∧ Forall (λ b, b < 256)%N (getRandomValues n);
  random_distinct : ∀ m n, m < calls → n < calls → getRandomValues m = getRandomValues n → m = n
}.

Definition hex_unit (d : N) : N := if (d <? 10)%N then (48 + d)%N else (87 + d)%N.

(** [value.toString(16)] of a byte *)
Definition toString16 (b : N) : jsstr :=
  if (b <? 16)%N then [hex_unit b] else [hex_unit (b / 16); hex_unit (b mod 16)].

Definition padStart (s : jsstr) (n : nat) : jsstr := replicate (n - length s) 48%N ++ s.

Record ChannelOperationAttempt := mkAttempt { fingerprint : jsstr; operationKey : jsstr }.

Section Keys.
Context `{Crypto}.

(** The key of the [n]-th call. *)
Definition createChannelOperationKey (n : nat) : jsstr :=
  match randomUUID with
  | Some uuid => uuid n
  | None => concat (map (λ b, padStart (toString16 b) 2) (getRandomValues n))
  end.

(** With the number of keys made so far. *)
Definition resolveChannelOperationAttempt (previous : option ChannelOperationAttempt) (text : jsstr) (n : nat) :
    ChannelOperationAttempt * nat :=
  match previous with
  | Some a =>
      if streq (fingerprint a) text then (a, n)
      else (mkAttempt text (createChannelOperationKey n), S n)
  | None => (mkAttempt text (createChannelOperationKey n), S n)
  end.

(** *** What a component does with its reference *)

(** A request was sent with a key for a text; or the reference was cleared. *)
Inductive Use := Sent (text key : jsstr) | Cleared.

Record Ref := mkRef { current : option ChannelOperationAttempt; draws : nat; uses : list Use }.

Definition no_uses : Ref := mkRef None 0 [].

(** [ref.current = resolveChannelOperationAttempt(ref.current, text)], before a request. *)
Definition use (text : jsstr) (r : Ref) : Ref :=
  let '(a, n) := resolveChannelOperationAttempt (current r) text (draws r) in
  mkRef (Some a) n (uses r ++ [Sent text (operationKey a)]).

(** [ref.current = null] *)
Definition clear (r : Ref) : Ref := mkRef None (draws r) (uses r ++ [Cleared]).

Section Laws.
Context {laws : CryptoLaws}.

Lemma hex_unit_inj a b : (a < 16)%N → (b < 16)%N → hex_unit a = hex_unit b → a = b.
Proof. unfold hex_unit. repeat case_match; rewrite ?N.ltb_lt, ?N.ltb_ge in *; lia. Qed.

Lemma padded_byte b : (b < 256)%N → padStart (toString16 b) 2 = [hex_unit (b / 16); hex_unit (b mod 16)].
Proof.
  intros Hb. unfold toString16. destruct (N.ltb_spec b 16) as [Hl|]; [|done].
  by rewrite N.div_small, N.mod_small.
Qed.

Lemma hex_bytes_inj l l' : Forall (λ b, b < 256)%N l → Forall (λ b, b < 256)%N l' →
  concat (map (λ b, padStart (toString16 b) 2) l) = concat (map (λ b, padStart (toString16 b) 2) l') → l = l'.
Proof.
  intros Hl. revert l'. induction Hl as [|b l Hb _ IH]; intros l' Hl'; destruct Hl' as [|b' l' Hb' Hl'];
    cbn [map concat]; rewrite ?padded_byte by done; [done|done|done|].
  intros [= Hh Hd Ht]. f_equal; [|by apply IH].
  apply hex_unit_inj in Hh, Hd; try (apply N.mod_lt; lia); try (apply N.Div0.div_lt_upper_bound; lia).
  rewrite (N.div_mod b 16), (N.div_mod b' 16) by lia. by rewrite Hh, Hd.
Qed.

Lemma keys_distinct m n : m < calls → n < calls →
  createChannelOperationKey m = createChannelOperationKey n → m = n.
Proof.
  intros Hm Hn. unfold createChannelOperationKey. destruct randomUUID as [uuid|] eqn:E; [by apply uuid_distinct|].
  intros Hk. apply random_distinct, hex_bytes_inj; [done..|apply random_bytes|apply random_bytes|done].
Qed.

Lemma key_nonempty n : createChannelOperationKey n ≠ [].
Proof.
  unfold createChannelOperationKey. destruct randomUUID as [uuid|] eqn:E; [by eapply uuid_nonempty|].
  destruct (random_bytes n) as [Hl Hb]. destruct (getRandomValues n) as [|b l]; [done|].
  inversion_clear Hb. cbn [map concat]. by rewrite padded_byte.
Qed.

(** The attempt the last use left. *)
Definition attempt_after (l : list Use) : option ChannelOperationAttempt :=
  match last l with Some (Sent text k) => Some (mkAttempt text k) | _ => None end.

(** Every use from [i] to [j] sends [text]. *)
Definition all_send (l : list Use) (text : jsstr) (i j : nat) : Prop :=
  ∀ m, i ≤ m ≤ j → ∃ k, l !! m = Some (Sent text k).

Record tracks (r : Ref) : Prop := {
  track_current : current r = attempt_after (uses r);
  track_drawn : ∀ i text k, uses r !! i = Some (Sent text k) →
    ∃ n, n < draws r ∧ k = createChannelOperationKey n;
  track_keys : ∀ i j text text' k k', i < j →
    uses r !! i = Some (Sent text k) → uses r !! j = Some (Sent text' k') →
    (k = k' ↔ all_send (uses r) text i j)
}.

Lemma tracks_init : tracks no_uses.
Proof. split; [done|by intros i ? ? ?|by intros i ? ? ? ? ? ? ?]. Qed.

Lemma all_send_app l u text i j : j < length l → all_send (l ++ [u]) text i j ↔ all_send l text i j.
Proof.
  intros Hj. unfold all_send. split; intros Hs m Hm; specialize (Hs m Hm);
    by rewrite lookup_app_l in * by lia.
Qed.

Lemma tracks_clear r : tracks r → tracks (clear r).
Proof.
  intros [Hc Hd Hk]. split; simpl.
  - unfold attempt_after. by rewrite last_snoc.
  - intros i text k [Hi|[? Hi] ]%lookup_snoc_Some; [|done]. destruct Hi as [_ Hi]. by apply (Hd i text).
  - intros i j text text' k k' Hij Hi Hj. apply lookup_snoc_Some in Hi as [ [_ Hi]|[_ ?] ]; [|done].
    apply lookup_snoc_Some in Hj as [ [Hl Hj]|[_ ?] ]; [|done].
    rewrite all_send_app by done. by apply (Hk i j text text').
Qed.

(** A new key belongs to no earlier use; a kept one to the uses just before. *)
Lemma use_key r text : tracks r → draws r < calls →
  let '(a, n) := resolveChannelOperationAttempt (current r) text (draws r) in
  fingerprint a = text ∧ draws r ≤ n ∧ (∃ m, m < n ∧ operationKey a = createChannelOperationKey m) ∧
  ∀ i text0 k0, uses r !! i = Some (Sent text0 k0) →
    (k0 = operationKey a ↔ text0 = text ∧ all_send (uses r) text i (pred (length (uses r)))).
Proof.
  intros [Hc Hd Hk] Hcalls. unfold resolveChannelOperationAttempt. rewrite Hc. unfold attempt_after.
  assert (Hfresh : ∀ i text0 k0, uses r !! i = Some (Sent text0 k0) → k0 ≠ createChannelOperationKey (draws r)).
  { intros i text0 k0 Hi ->. destruct (Hd _ _ _ Hi) as (n & Hn & He). apply keys_distinct in He; lia. }
  rewrite last_lookup. destruct (uses r !! pred (length (uses r))) as [ [tl kl|]|] eqn:El.
  - cbn [fingerprint]. destruct (streq tl text) eqn:Et.
    + apply streq_spec in Et as ->. cbn [operationKey fingerprint]. split_and!; [done|done|by eapply Hd|].
      intros i text0 k0 Hi. assert (i < length (uses r)) as Hlt by (by eapply lookup_lt_Some).
      assert (i = pred (length (uses r)) ∨ i < pred (length (uses r))) as [->|Hlast] by lia.
      { rewrite El in Hi. injection Hi as -> ->. split; [|done]. intros _. split; [done|].
        intros m Hm. assert (m = pred (length (uses r))) as -> by lia. by exists k0. }
      rewrite (Hk i _ text0 text k0 kl Hlast Hi El). split; [|by intros [-> ?] ].
      intros Hs. assert (text0 = text) as ->; [|done].
      destruct (Hs (pred (length (uses r)))) as [k Hk']; [lia|]. rewrite El in Hk'. by injection Hk'.
    + cbn [operationKey fingerprint]. split_and!; [done|lia|exists (draws r); split; [lia|done]|].
      intros i text0 k0 Hi. split; [intros ->; by apply Hfresh in Hi|]. intros [-> Hs]. exfalso.
      apply lookup_lt_Some in Hi as Hlt. destruct (Hs (pred (length (uses r)))) as [k Hk']; [lia|].
      rewrite El in Hk'. injection Hk' as -> ->. by rewrite (proj2 (streq_spec _ _)) in Et.
  - cbn [operationKey fingerprint]. split_and!; [done|lia|exists (draws r); split; [lia|done]|].
    intros i text0 k0 Hi. split; [intros ->; by apply Hfresh in Hi|]. intros [-> Hs]. exfalso.
    apply lookup_lt_Some in Hi as Hlt. destruct (Hs (pred (length (uses r)))) as [k Hk']; [lia|]. congruence.
  - cbn [operationKey fingerprint]. split_and!; [done|lia|exists (draws r); split; [lia|done]|].
    intros i text0 k0 Hi. apply lookup_lt_Some in Hi. apply lookup_ge_None in El. lia.
Qed.

Lemma draws_use text r : draws (use text r) ≤ S (draws r).
Proof.
  unfold use, resolveChannelOperationAttempt. destruct (current r) as [a|]; [|done].
  destruct (streq _ _); simpl; lia.
Qed.

Lemma tracks_use text r : tracks r → draws r < calls → tracks (use text r).
Proof.
  intros Ht Hcalls. pose proof (use_key r text Ht Hcalls) as Hu. destruct Ht as [Hc Hd Hk]. unfold use.
  destruct (resolveChannelOperationAttempt _ _ _) as [a n]. destruct Hu as (Hf & Hn & Hdraw & Hkey).
  split; simpl.
  - unfold attempt_after. rewrite last_snoc. destruct a as [f k]. simpl in *. by subst.
  - intros i t k [ [_ Hi]|[_ Hi] ]%lookup_snoc_Some.
    + destruct (Hd _ _ _ Hi) as (m & ? & ?). exists m. split; [lia|done].
    + injection Hi as <- <-. done.
  - intros i j t t' k k' Hij Hi Hj. apply lookup_snoc_Some in Hj as [ [Hl Hj]|[-> Hj] ].
    + rewrite lookup_app_l in Hi by lia. rewrite all_send_app by done. by apply (Hk i j t t').
    + rewrite lookup_app_l in Hi by done. injection Hj as <- <-. rewrite (Hkey i t k Hi). split.
      * intros [-> Hs] m Hm. destruct (decide (m = length (uses r))) as [->|Hne].
        { exists (operationKey a). by rewrite lookup_app_r, Nat.sub_diag by done. }
        destruct (Hs m) as [k0 Hk0]; [lia|]. exists k0. by rewrite lookup_app_l by lia.
      * intros Hs. assert (t = text) as ->.
        { destruct (Hs (length (uses r))) as [k0 Hk0]; [lia|].
          rewrite lookup_app_r, Nat.sub_diag in Hk0 by done. by injection Hk0. }
        split; [done|]. intros m Hm. destruct (Hs m) as [k0 Hk0]; [lia|]. exists k0.
        by rewrite lookup_app_l in Hk0 by lia.
Qed.

End Laws.
End Keys.
End OperationKey.

(** ** The form *)

Module ChannelSave.
Import Json ChannelForm OperationKey.

(** *** Permissions *)

Definition SUPER_ADMIN : jsnum := num_of_Z 100.

(** [user.permissions?.admin_permissions?.[resource]?.[action] === true] *)
Definition hasPermission (user : option Auth.AuthUser) (resource action : jsstr) : bool :=
  match user with
  | None => false
  | Some u =>
      if num_eqb (Auth.role u) SUPER_ADMIN then true
      else is_true (get (get (get (get (Auth.user_object u) (js "permissions")) (js "admin_permissions"))
             resource) action)
  end.

Definition SENSITIVE_UPDATE_FIELDS : list jsstr := map js
  ["type"; "key"; "base_url"; "openai_organization"; "param_override"; "header_override"; "setting";
   "settings"; "other"]%string.

(** *** Data *)

Record Props := mkProps { isEditing : bool; currentRow : option Z; isMultiKeyChannel : bool }.

(** What is thrown: an error of the engine or of the payload, one the hook makes, or what
    the request rejected with, which may be an [Error] and may be axios's. *)
Inductive Thrown :=
| Fault (e : TypeError)
| NewError (message : jsstr)
| RequestFailed (isError isAxiosError : bool) (error : value).

Inductive Text := Plain (s : jsstr) | FaultText (e : TypeError).

Inductive Toast := SuccessToast (s : jsstr) | WarningToast (s : jsstr) | ErrorToast (x : Text).

Inductive Kind := Updating | Creating.

Inductive Entry :=
| UpdateRequest (id : Z) (body : form)
| CreateRequest (headers : form) (payload : CreatePayload)
| Toasted (x : Toast)
| Saved (k : Kind) (response : value).                        (* [props.onSuccess(response)] *)

(** [settled]: [None] while the request is under way, then whether it succeeded. *)
Record Mutation := mkMutation { m_kind : Kind; m_settled : option bool }.

Record World := mkWorld { createOperationRef : Ref; mutations : list Mutation; log : list Entry }.

Definition init : World := mkWorld no_uses [] [].

Inductive Answer := Body (r : value) | Failed (isError isAxiosError : bool) (error : value).

Class I18n := { t : jsstr → jsstr }.

Definition UPDATE_FAILED : jsstr := js "Failed to update channel".
Definition CREATE_FAILED : jsstr := js "Failed to create channel".
Definition ROUTING_CHANGED : jsstr := js
  "Routing configuration changed. Close and reopen the channel, review the latest settings, then apply your changes.".

(** What [JSON.stringify] makes of [undefined]: a field is left out, an item is [null]. *)
Fixpoint omit_undefined (v : value) : value :=
  match v with
  | Obj fs =>
      Obj ((fix go (fs : list (jsstr * value)) := match fs with
            | [] => []
            | (k, x) :: rest => match x with Undef => go rest | _ => (k, omit_undefined x) :: go rest end
            end) fs)
  | Arr l => Arr (map (λ x, match x with Undef => Null | _ => omit_undefined x end) l)
  | _ => v
  end.

Section Hook.
Context `{Env} `{Crypto} `{I18n}.

(** *** Errors *)

Definition getErrorMessage (x : Thrown) : option Text :=
  match x with
  | Fault e => Some (FaultText e)
  | NewError m => Some (Plain m)
  | RequestFailed isError _ error =>
      match isError, get error (js "message") with
      | true, Str m => Some (Plain m)
      | _, own =>
          if negb (Auth.isRecord error) then None
          else
            let response := get error (js "response") in
            let data := get response (js "data") in
            match Auth.isRecord response && Auth.isRecord data, get data (js "message") with
            | true, Str m => Some (Plain m)
            | _, _ => Plain <$> text_of own
            end
      end
  end.

Definition isModelRouteConfigChanged (x : Thrown) : bool :=
  match x with
  | RequestFailed _ isAxiosError error =>
      let response := get error (js "response") in
      isAxiosError && is_num (get response (js "status")) 409 &&
      is_str (get (get response (js "data")) (js "code")) (js "model_route_config_changed")
  | _ => false
  end.

(** [getErrorMessage(error) || t(...)] *)
Definition shown (x : option Text) (fallback : jsstr) : Text :=
  match x with
  | Some (Plain s) => Plain (str_or s fallback)
  | Some e => e
  | None => Plain fallback
  end.

Definition onError (x : Thrown) : Toast :=
  if isModelRouteConfigChanged x then ErrorToast (Plain (t ROUTING_CHANGED))
  else ErrorToast (shown (getErrorMessage x) (t CREATE_FAILED)).

Definition notifyChannelMutationSuccess (response : value) (message : jsstr) : Toast :=
  if value_truthy (get response (js "cache_pending")) then WarningToast message else SuccessToast message.

(** *** Requests *)

(** [data.key?.trim()] *)
Definition key_text (v : value) : result TypeError jsstr :=
  match v with
  | Undef | Null => Ok []
  | Str s => Ok (trim s)
  | _ => Throw NotAFunction
  end.

Definition update_data (canEditSensitive : bool) (p : Props) (f : form) (id : Z) : result TypeError form :=
  try! payload := transformFormDataToUpdatePayload f id in
  try! key := key_text (F f "key") in
  let payload := if truthy key then payload else remove "key" payload in
  let payload :=
    if canEditSensitive then payload
    else foldl (λ o k, jm_delete k o) payload SENSITIVE_UPDATE_FIELDS in
  Ok (if canEditSensitive && isMultiKeyChannel p && truthy key && value_truthy (F f "key_mode")
      then put "key_mode" (F f "key_mode") payload else payload).

(** [{ ...a, ...b }] *)
Definition spread (a b : form) : form := foldl (λ o kv, jm_set (fst kv) (snd kv) o) a b.

(** The body of [updateChannel] *)
Definition update_body (id : Z) (data : form) : form := spread [key_value "id" (int id)] data.

(** The headers of [createChannel] *)
Definition create_headers (operationKey : jsstr) : form :=
  if truthy operationKey then [key_value "Idempotency-Key" (Str operationKey)] else [].

Definition create_value (p : CreatePayload) : value :=
  Obj [key_value "mode" (mode p); key_value "multi_key_mode" (multi_key_mode p);
       key_value "batch_add_set_key_prefix_2_name" (batch_add_set_key_prefix_2_name p);
       key_value "channel" (Obj (channel p))].

(** [JSON.stringify(payload)]: the fingerprint of a creation, and the body axios sends. *)
Definition create_text (p : CreatePayload) : jsstr := JSON_stringify (omit_undefined (create_value p)).

(** *** The mutation *)

Definition record (e : list Entry) (w : World) : World :=
  mkWorld (createOperationRef w) (mutations w) (log w ++ e).
Definition begin (k : Kind) (s : option bool) (w : World) : World :=
  mkWorld (createOperationRef w) (mutations w ++ [mkMutation k s]) (log w).
Definition settle (i : nat) (s : bool) (w : World) : World :=
  mkWorld (createOperationRef w) (alter (λ m, mkMutation (m_kind m) (Some s)) i (mutations w)) (log w).
Definition set_ref (r : Ref) (w : World) : World := mkWorld r (mutations w) (log w).

(** [mutationFn] until its request. *)
Definition submit (user : option Auth.AuthUser) (p : Props) (f : form) (w : World) : World :=
  let canEditSensitive := hasPermission user (js "channel") (js "sensitive_write") in
  match isEditing p, currentRow p with
  | true, Some id =>
      match update_data canEditSensitive p f id with
      | Ok data => record [UpdateRequest id (update_body id data)] (begin Updating None w)
      | Throw e => record [Toasted (onError (Fault e))] (begin Updating (Some false) w)
      end
  | _, _ =>
      match transformFormDataToCreatePayload f with
      | Ok payload =>
          let r := use (create_text payload) (createOperationRef w) in
          record [CreateRequest (create_headers (default [] (operationKey <$> current r))) payload]
            (begin Creating None (set_ref r w))
      | Throw e => record [Toasted (onError (Fault e))] (begin Creating (Some false) w)
      end
  end.

Definition fail (i : nat) (x : Thrown) (w : World) : World := record [Toasted (onError x)] (settle i false w).

Definition succeed (i : nat) (k : Kind) (r : value) (w : World) : World :=
  match k with
  | Updating =>
      record [Toasted (notifyChannelMutationSuccess r (t (js "Channel updated successfully"))); Saved k r] (settle i true w)
  | Creating =>
      record [Toasted (notifyChannelMutationSuccess r (t (js "Channel created successfully"))); Saved k r]
        (settle i true (set_ref (clear (createOperationRef w)) w))
  end.

Definition failed_text (k : Kind) : jsstr := t (match k with Updating => UPDATE_FAILED | Creating => CREATE_FAILED end).

(** [mutationFn] after its request, with [onSuccess] and [onError]. *)
Definition answered (i : nat) (k : Kind) (a : Answer) (w : World) : World :=
  match a with
  | Failed isError isAxiosError error => fail i (RequestFailed isError isAxiosError error) w
  | Body Undef | Body Null => fail i (Fault NotAnObject) w
  | Body r =>
      if negb (value_truthy (get r (js "success")))
      then fail i (NewError (to_str (value_or (get r (js "message")) (Str (failed_text k))))) w
      else succeed i k r w
  end.

Inductive Event := Submit (user : option Auth.AuthUser) (p : Props) (f : form) | Answered (i : nat) (a : Answer).

Definition step (w : World) (e : Event) : World :=
  match e with
  | Submit user p f => submit user p f w
  | Answered i a =>
      match mutations w !! i with
      | Some (mkMutation k None) => answered i k a w
      | _ => w
      end
  end.

Definition run (es : list Event) : World := foldl step init es.

(** *** Lemmas: what is sent *)

Lemma spread_get k a b : jm_wf b →
  jm_get k (spread a b) = match jm_get k b with Some v => Some v | None => jm_get k a end.
Proof.
  revert a. induction b as [|[k' v] b IH]; intros a Hb; [done|].
  apply NoDup_cons in Hb as [Hk Hb]. cbn [spread foldl]. change (foldl _ ?a b) with (spread a b).
  rewrite (IH _ Hb). cbn [jm_get fst snd] in *. rewrite jm_get_set. case_decide as Hd.
  - subst k'. apply jm_get_None in Hk. cbn [fst] in Hk. by rewrite Hk; repeat case_decide.
  - destruct (jm_get k b); [done|]. by repeat case_decide.
Qed.

Lemma delete_all_get k ks (o : form) :
  jm_get k (foldl (λ o k, jm_delete k o) o ks) = if decide (k ∈ ks) then None else jm_get k o.
Proof.
  revert o. induction ks as [|k' ks IH]; intros o; simpl; [done|].
  rewrite IH, jm_get_delete. destruct (decide (k = k')) as [->|Hne].
  - rewrite (decide_True (P := k' ∈ k' :: ks)) by (by left). by destruct (decide (k' ∈ ks)).
  - destruct (decide (k ∈ ks)); [by rewrite decide_True by (by right)|].
    rewrite decide_False; [done|]. by intros [?|?]%elem_of_cons.
Qed.

Lemma delete_all_wf ks (o : form) : jm_wf o → jm_wf (foldl (λ o k, jm_delete k o) o ks).
Proof. revert o. induction ks as [|k ks IH]; intros o Ho; [done|]. by apply IH, jm_wf_filter. Qed.

Lemma clean_keys (o : form) : jm_keys (clean o) = jm_keys o.
Proof. unfold jm_keys, clean. by rewrite map_map. Qed.

Lemma key_entry_cases v l : key_entry v = Ok l → l = [] ∨ ∃ s, l = [key_value "key" (Str s)].
Proof.
  unfold key_entry. destruct (negb _); [intros [= <-]; by left|]. destruct v; try done.
  destruct (truthy (trim s)); intros [= <-]; [right; by exists s|by left].
Qed.

Lemma update_payload_shape f id u : transformFormDataToUpdatePayload f id = Ok u →
  jm_wf u ∧ jm_get (js "key_mode") u = None ∧ jm_get (js "id") u = Some (int id).
Proof.
  intros He. apply result_bind_Ok_inv in He as (g & _ & He). apply result_bind_Ok_inv in He as (t1 & _ & He).
  apply result_bind_Ok_inv in He as (t2 & _ & He). apply result_bind_Ok_inv in He as (key & Hk & He).
  injection He as <-. split_and!; [| |reflexivity].
  - unfold update_payload, put. repeat apply jm_wf_set. unfold jm_wf. rewrite clean_keys.
    apply key_entry_cases in Hk as [->|[s ->] ]; by apply (bool_decide_unpack _).
  - by apply key_entry_cases in Hk as [->|[s ->] ].
Qed.

(** Which fields of the payload are sent, and with what. *)
Lemma update_data_get can p f id u s data : F f "key" = Str s →
  transformFormDataToUpdatePayload f id = Ok u → jm_get (js "key") u = (if truthy (trim s) then Some (Str s) else None) →
  update_data can p f id = Ok data →
  jm_wf data ∧ ∀ k, jm_get k data =
    if decide (k = js "key_mode")
    then if can && isMultiKeyChannel p && truthy (trim s) && value_truthy (F f "key_mode")
         then Some (F f "key_mode") else None
    else if can || negb (set_has SENSITIVE_UPDATE_FIELDS k) then jm_get k u else None.
Proof.
  intros Hs Hu Hkey. unfold update_data. rewrite Hu, Hs. cbn [result_bind key_text].
  destruct (update_payload_shape _ _ _ Hu) as (Hwf & Hmode & _).
  set (u1 := if truthy (trim s) then u else remove "key" u).
  assert (jm_wf u1 ∧ ∀ k, jm_get k u1 = jm_get k u) as [Hw1 Hg1].
  { unfold u1, remove. destruct (truthy (trim s)); [done|]. split; [by apply jm_wf_filter|].
    intros k. rewrite jm_get_delete. by destruct (decide (k = js "key")) as [->|]. }
  clearbody u1. generalize SENSITIVE_UPDATE_FIELDS as fields. intros fields [= <-].
  destruct can; cbn [andb orb].
  - destruct (isMultiKeyChannel p && truthy (trim s) && value_truthy (F f "key_mode")).
    + split; [by apply jm_wf_set|]. intros k. unfold put. rewrite jm_get_set, Hg1.
      by destruct (decide (k = js "key_mode")) as [->|Hne]; [rewrite !decide_True|rewrite !decide_False by congruence].
    + split; [done|]. intros k. rewrite Hg1. by destruct (decide (k = js "key_mode")) as [->|].
  - split; [by apply delete_all_wf|]. intros k. rewrite delete_all_get, Hg1. unfold set_has.
    destruct (decide (k = js "key_mode")) as [->|]; [by rewrite Hmode; case_decide|].
    by destruct (decide (k ∈ fields)); [rewrite bool_decide_true|rewrite bool_decide_false].
Qed.

Section Laws.
Context {laws : EnvLaws} {random : CryptoLaws}.

(** [C15] What saving an edited channel sends: one request, whose body holds the fields of
    the update payload as they are, except that without the permission for sensitive changes
    none of the sensitive ones is sent, and that the way keys are merged goes along only
    with a new key, of a channel with several keys, and with that permission. *)
Theorem update_withholds_sensitive (user : option Auth.AuthUser) (p : Props) (f : form) (id : Z) (w : World) :
  accepted f = true → isEditing p = true → currentRow p = Some id →
  let can := hasPermission user (js "channel") (js "sensitive_write") in
  ∃ s payload body, F f "key" = Str s ∧ transformFormDataToUpdatePayload f id = Ok payload ∧
    log (step w (Submit user p f)) = log w ++ [UpdateRequest id body] ∧
    createOperationRef (step w (Submit user p f)) = createOperationRef w ∧
    jm_get (js "key") payload = (if truthy (trim s) then Some (Str s) else None) ∧
    ∀ k, jm_get k body =
      if decide (k = js "key_mode")
      then if can && isMultiKeyChannel p && truthy (trim s) && value_truthy (F f "key_mode")
           then Some (F f "key_mode") else None
      else if can || negb (set_has SENSITIVE_UPDATE_FIELDS k) then jm_get k payload else None.
Proof.
  intros Ha He Hc can. destruct (accepted_update f id Ha) as (s & u & Hs & Hu & Hk).
  destruct (update_payload_shape _ _ _ Hu) as (_ & _ & Hid).
  assert (∃ data, update_data can p f id = Ok data) as [data Hd].
  { unfold update_data. rewrite Hu, Hs. cbn [result_bind key_text]. by eexists. }
  destruct (update_data_get can p f id u s data Hs Hu Hk Hd) as [Hwf Hg].
  exists s, u, (update_body id data).
  assert (step w (Submit user p f) = record [UpdateRequest id (update_body id data)] (begin Updating None w)) as ->.
  { unfold step, submit. rewrite He, Hc. fold can. by rewrite Hd. }
  split_and!; try done. intros k. unfold update_body. rewrite spread_get by done. rewrite Hg.
  unfold key_value. cbn [jm_get].
  destruct (decide (k = js "key_mode")) as [->|Hne]; [by destruct (_ && _)|].
  destruct (decide (js "id" = k)) as [<-|Hi]; [by rewrite Hid, orb_true_r|].
  destruct (can || _); [|done]. by destruct (jm_get k u).
Qed.

(** *** Creations *)

(** The key a request carries. *)
Definition sent_key (headers : form) : jsstr :=
  match jm_get (js "Idempotency-Key") headers with Some (Str k) => k | _ => [] end.

(** What the log says of creations: requests, and creations confirmed. *)
Definition creation_use (e : Entry) : option Use :=
  match e with
  | CreateRequest headers payload => Some (Sent (create_text payload) (sent_key headers))
  | Saved Creating _ => Some Cleared
  | _ => None
  end.

Definition creations (l : list Entry) : list Use := omap creation_use l.

Lemma sent_key_headers k : sent_key (create_headers k) = k.
Proof. unfold create_headers. destruct (truthy k) eqn:E; [done|]. by apply truthy_false in E as ->. Qed.

Definition creations_tracked (w : World) : Prop :=
  tracks (createOperationRef w) ∧ uses (createOperationRef w) = creations (log w).

Lemma tracked_record e w : omap creation_use e = [] → creations_tracked w → creations_tracked (record e w).
Proof.
  intros He [Ht Hu]. split; [done|]. simpl. unfold creations. by rewrite omap_app, He, app_nil_r.
Qed.

Lemma tracked_submit user p f w : draws (createOperationRef w) < calls → creations_tracked w →
  creations_tracked (submit user p f w).
Proof.
  intros Hcalls Hw. unfold submit.
  assert (∀ k s e, creations_tracked (record [Toasted e] (begin k s w))) as Herr by (intros; by apply tracked_record).
  assert (creations_tracked (match transformFormDataToCreatePayload f with
    | Ok payload =>
        let r := use (create_text payload) (createOperationRef w) in
        record [CreateRequest (create_headers (default [] (operationKey <$> current r))) payload]
          (begin Creating None (set_ref r w))
    | Throw e => record [Toasted (onError (Fault e))] (begin Creating (Some false) w) end)) as Hcreate.
  { destruct (transformFormDataToCreatePayload f) as [payload|e]; [|apply Herr]. destruct Hw as [Ht Hu]. split; simpl.
    - by apply tracks_use.
    - unfold creations. rewrite omap_app. cbn [omap list_omap creation_use]. rewrite sent_key_headers.
      change (omap creation_use (log w)) with (creations (log w)). rewrite <-Hu. unfold use.
      by destruct (resolveChannelOperationAttempt _ _ _). }
  destruct (isEditing p), (currentRow p) as [id|]; try exact Hcreate.
  destruct (update_data _ _ _ _); [by apply tracked_record|apply Herr].
Qed.

Lemma tracked_answered i k a w : creations_tracked w → creations_tracked (answered i k a w).
Proof.
  intros Hw. assert (∀ x, creations_tracked (fail i x w)) as Hf by (intros; by apply tracked_record).
  assert (∀ r, creations_tracked (succeed i k r w)) as Hs.
  { intros r. destruct k; simpl; [by apply (tracked_record _ (settle i true w))|]. destruct Hw as [Ht Hu].
    split; simpl; [by apply tracks_clear|]. unfold creations. rewrite omap_app. simpl. by rewrite Hu. }
  unfold answered. destruct a as [r|]; [|done]. by destruct r; try destruct (negb _).
Qed.

Lemma draws_step w e : draws (createOperationRef (step w e)) ≤ S (draws (createOperationRef w)).
Proof.
  destruct e as [user p f|i a]; simpl.
  - unfold submit. pose proof (draws_use) as Hu. repeat case_match; simpl; first [lia|apply Hu].
  - destruct (mutations w !! i) as [ [k [|] ]|]; [lia| |lia]. unfold answered, succeed, fail.
    repeat case_match; simpl; lia.
Qed.

Lemma tracked_run es : length es ≤ calls → creations_tracked (run es).
Proof.
  unfold run. assert (creations_tracked init) as Hi by (split; [apply tracks_init|done]).
  intros Hl. assert (draws (createOperationRef init) + length es ≤ calls) as Hd by done. revert Hi Hd. clear Hl.
  generalize init. induction es as [|e es IH]; intros w Hw Hd; [done|]. simpl in Hd.
  apply IH; [|pose proof (draws_step w e); lia].
  destruct e as [user p f|i a]; simpl; [apply tracked_submit; [lia|done]|].
  destruct (mutations w !! i) as [ [k [|] ]|]; [done| |done]. by apply tracked_answered.
Qed.

(** [C14] Creations are named so that repeating one is safe: however submissions and answers
    interleave, every request to create a channel carries a key, and two carry the same key
    exactly when everything from one to the other sends the same channel, with no creation
    confirmed in between. So a retry repeats the key of what it retries, while a changed
    form, and the same form after a success, are new creations. *)
Theorem creations_named (es : list Event) (i : nat) (text key : jsstr) :
  let l := creations (log (run es)) in
  length es ≤ calls → l !! i = Some (Sent text key) →
  key ≠ [] ∧
  ∀ j text' key', i < j → l !! j = Some (Sent text' key') →
    (key = key' ↔ ∀ m, i ≤ m ≤ j → ∃ k, l !! m = Some (Sent text k)).
Proof.
  intros l Hes Hi. destruct (tracked_run es Hes) as [ [_ Hd Hk] Hu]. unfold l in *. rewrite <-Hu in *. split.
  - destruct (Hd _ _ _ Hi) as (n & _ & ->). apply key_nonempty.
  - intros j text' key' Hij Hj. by apply (Hk i j text text').
Qed.

(** Every save ends once: the answer to a request under way settles it, further answers
    to it do nothing, and other requests are as they were. It succeeds exactly when the
    server says so, and is then announced once and handed on; else exactly one error is
    shown, and the key of a creation is kept for its retry. *)
Theorem save_settles_once (w : World) (i : nat) (k : Kind) (a : Answer) :
  mutations w !! i = Some (mkMutation k None) →
  let w' := step w (Answered i a) in
  ∃ ok, mutations w' !! i = Some (mkMutation k (Some ok)) ∧
    (∀ j, j ≠ i → mutations w' !! j = mutations w !! j) ∧
    (∀ b, step w' (Answered i b) = w') ∧
    (ok = true ↔ ∃ r, a = Body r ∧ value_truthy (get r (js "success")) = true) ∧
    if ok
    then ∃ r s, a = Body r ∧ (log w' = log w ++ [Toasted (SuccessToast s); Saved k r] ∨
           log w' = log w ++ [Toasted (WarningToast s); Saved k r])
    else (∃ x, log w' = log w ++ [Toasted (ErrorToast x)]) ∧ createOperationRef w' = createOperationRef w.
Proof.
  intros Hi w'.
  assert (Hset : ∀ v ok, mutations v = mutations (settle i ok w) →
    mutations v !! i = Some (mkMutation k (Some ok)) ∧ (∀ j, j ≠ i → mutations v !! j = mutations w !! j) ∧
    ∀ b, step v (Answered i b) = v).
  { intros v ok Hv. assert (mutations v !! i = Some (mkMutation k (Some ok))) as Hvi.
    { rewrite Hv. simpl. by rewrite list_lookup_alter_eq, Hi. }
    split_and!; [done| |].
    - intros j Hj. rewrite Hv. simpl. by rewrite list_lookup_alter_ne.
    - intros b. unfold step. by rewrite Hvi. }
  assert (Herr : ∀ x, ∃ y, onError x = ErrorToast y) by (intros x; unfold onError; case_match; by eexists).
  assert (w' = answered i k a w) as -> by (unfold w', step; by rewrite Hi).
  assert ((∃ x, answered i k a w = fail i x w ∧ ¬ (∃ r, a = Body r ∧ value_truthy (get r (js "success")) = true)) ∨
    ∃ r, a = Body r ∧ value_truthy (get r (js "success")) = true ∧ answered i k a w = succeed i k r w) as
    [(x & -> & Hno)|(r & -> & Hr & ->)].
  { unfold answered. destruct a as [r|]; [|left; eexists; split; [done|by intros (? & ? & ?)] ].
    destruct (value_truthy (get r (js "success"))) eqn:E.
    - right. exists r. split_and!; [done..|]. by destruct r.
    - left. cbn [negb]. destruct r; eexists; (split; [done|]); intros (r' & [= <-] & ?); congruence. }
  - exists false. destruct (Hset (fail i x w) false eq_refl) as (? & ? & ?). split_and!; try done.
    destruct (Herr x) as [y Hy]. exists y. simpl. by rewrite Hy.
  - exists true. destruct (Hset (succeed i k r w) true) as (? & ? & ?); [by destruct k|]. split_and!; try done.
    + split; [intros _; by exists r|done].
    + unfold succeed, notifyChannelMutationSuccess. destruct k, (value_truthy (get r (js "cache_pending")));
        exists r; eexists; (split; [done|]); simpl; first [by left|by right].
Qed.

(** A creation that fails and is repeated, and repeated again after its success. *)
Definition saves (user : option Auth.AuthUser) (p : Props) (f : form) : list Event :=
  [Submit user p f; Answered 0 (Failed true true (Obj [])); Submit user p f;
   Answered 1 (Body (Obj [(js "success", Bool true)])); Submit user p f].

Lemma step_create user p f payload w : isEditing p = false →
  transformFormDataToCreatePayload f = Ok payload →
  step w (Submit user p f) =
  let r := use (create_text payload) (createOperationRef w) in
  record [CreateRequest (create_headers (default [] (operationKey <$> current r))) payload]
    (begin Creating None (set_ref r w)).
Proof. intros He Hp. unfold step, submit. by rewrite He, Hp. Qed.

Lemma use_again text key n l :
  use text (mkRef (Some (mkAttempt text key)) n l) = mkRef (Some (mkAttempt text key)) n (l ++ [Sent text key]).
Proof. unfold use. simpl. by rewrite (proj2 (streq_spec text text)). Qed.

Lemma saves_creations user p f payload : 5 ≤ calls → isEditing p = false →
  transformFormDataToCreatePayload f = Ok payload →
  let text := create_text payload in
  creations (log (run (saves user p f))) =
  [Sent text (createChannelOperationKey 0); Sent text (createChannelOperationKey 0); Cleared;
   Sent text (createChannelOperationKey 1)].
Proof.
  intros Hc He Hp text. destruct (tracked_run (saves user p f) Hc) as [_ <-].
  unfold run, saves. cbn [foldl]. rewrite !(step_create user p f payload) by done. fold text.
  cbn -[streq]. rewrite use_again. reflexivity.
Qed.

(** The message of a refusal is not shown: axios's errors are [Error]s, with a message of
    their own. *)
Lemma server_message_hidden m data isAxios error :
  get error (js "message") = Str m → m ≠ [] → get (get error (js "response")) (js "data") = data →
  isModelRouteConfigChanged (RequestFailed true isAxios error) = false →
  onError (RequestFailed true isAxios error) = ErrorToast (Plain m).
Proof.
  intros Hm Hne _ Hc. unfold onError. rewrite Hc. cbn [getErrorMessage]. rewrite Hm. cbn [shown].
  unfold str_or. by rewrite (proj2 (truthy_spec m)).
Qed.

End Laws.

End Hook.
End ChannelSave.

(** ** The dialog that copies a channel *)

Module CopyDialog.
Import Json ChannelForm OperationKey ChannelSave.

(** [CopyRequest]: with the query and the headers; [Forgotten]: the reference is cleared. *)
Inductive Entry :=
| CopyRequest (id : Z) (suffix : jsstr) (reset_balance : bool) (headers : form)
| Forgotten
| Toasted (x : Toast)
| Invalidated
| OpenChange (open : bool).

Record Dialog := mkDialog {
  suffix : jsstr; resetBalance : bool; isCopying : bool; operationRef : Ref; log : list Entry }.

Definition COPY_SUFFIX : jsstr := js "_copy".

Definition mounted : Dialog := mkDialog COPY_SUFFIX true false no_uses [].

Section Dialog.
Context `{Json} `{Crypto} `{I18n}.

Definition copy_text (id : Z) (suffix : jsstr) (resetBalance : bool) : jsstr :=
  JSON_stringify (Obj [key_value "channelId" (int id); key_value "suffix" (Str suffix);
                       key_value "resetBalance" (Bool resetBalance)]).

Definition record (e : list Entry) (d : Dialog) : Dialog :=
  mkDialog (suffix d) (resetBalance d) (isCopying d) (operationRef d) (log d ++ e).
Definition setSuffix (s : jsstr) (d : Dialog) : Dialog :=
  mkDialog s (resetBalance d) (isCopying d) (operationRef d) (log d).
Definition setResetBalance (b : bool) (d : Dialog) : Dialog :=
  mkDialog (suffix d) b (isCopying d) (operationRef d) (log d).
Definition setIsCopying (b : bool) (d : Dialog) : Dialog :=
  mkDialog (suffix d) (resetBalance d) b (operationRef d) (log d).
Definition forget (d : Dialog) : Dialog :=
  record [Forgotten] (mkDialog (suffix d) (resetBalance d) (isCopying d) (clear (operationRef d)) (log d)).

(** [handleCopy] until its request. *)
Definition handleCopy (id : Z) (d : Dialog) : Dialog :=
  let r := use (copy_text id (suffix d) (resetBalance d)) (operationRef d) in
  let key := default [] (operationKey <$> current r) in
  record [CopyRequest id (suffix d) (resetBalance d) (create_headers key)]
    (mkDialog (suffix d) (resetBalance d) true r (log d)).

(** [handleCopyChannel] after its request, and the end of [handleCopy]. *)
Definition copied (a : Answer) (d : Dialog) : Dialog :=
  let failed := Plain (t (js "Failed to copy channel")) in
  setIsCopying false
    match a with
    | Failed _ _ _ | Body Undef | Body Null => record [Toasted (ErrorToast failed)] d
    | Body r =>
        if value_truthy (get r (js "success"))
        then
          setResetBalance true (setSuffix COPY_SUFFIX (forget (record
            [Toasted (notifyChannelMutationSuccess r (t (js "Channel copied successfully"))); Invalidated;
             OpenChange false] d)))
        else record [Toasted (ErrorToast (Plain (to_str (value_or (get r (js "message"))
               (Str (t (js "Failed to copy channel")))))))] d
    end.

(** The buttons and the inputs are disabled while a copy is made; closing the window is not,
    and forgets the operation, which the button [Cancel] does not. *)
Inductive Event :=
| SetSuffix (s : jsstr)
| SetResetBalance (b : bool)
| Copy (id : Z)
| Cancel
| Close (open : bool)
| Copied (a : Answer).

Definition step (d : Dialog) (e : Event) : Dialog :=
  match e with
  | Close open => record [OpenChange open] (if open then d else forget d)
  | Copied a => if isCopying d then copied a d else d
  | SetSuffix s => if isCopying d then d else setSuffix s d
  | SetResetBalance b => if isCopying d then d else setResetBalance b d
  | Copy id => if isCopying d then d else handleCopy id d
  | Cancel => if isCopying d then d else record [OpenChange false] d
  end.

Definition run (es : list Event) : Dialog := foldl step mounted es.

(** *** Lemmas *)

Definition copy_use (e : Entry) : option Use :=
  match e with
  | CopyRequest id suffix reset headers => Some (Sent (copy_text id suffix reset) (sent_key headers))
  | Forgotten => Some Cleared
  | _ => None
  end.

Section Laws.
Context {laws : JsonLaws} {random : CryptoLaws}.

Definition copies_tracked (d : Dialog) : Prop :=
  tracks (operationRef d) ∧ uses (operationRef d) = omap copy_use (log d).

Lemma copies_record e d : omap copy_use e = [] → copies_tracked d → copies_tracked (record e d).
Proof. intros He [Ht Hu]. split; [done|]. simpl. by rewrite omap_app, He, app_nil_r. Qed.

Lemma copies_forget d : copies_tracked d → copies_tracked (forget d).
Proof.
  intros [Ht Hu]. split; simpl; [by apply tracks_clear|]. rewrite omap_app. simpl. by rewrite Hu.
Qed.

Lemma copies_same d d' : operationRef d' = operationRef d → log d' = log d → copies_tracked d → copies_tracked d'.
Proof. unfold copies_tracked. by intros -> ->. Qed.

Lemma copies_copied a d : copies_tracked d → copies_tracked (copied a d).
Proof.
  intros Hd. unfold copied. eapply copies_same; [done..|].
  assert (∀ x, copies_tracked (record [Toasted x] d)) as Hr by (intros; by apply copies_record).
  destruct a as [r|]; [|apply Hr]. assert (∀ x : value, copies_tracked
    (if value_truthy (get r (js "success"))
     then setResetBalance true (setSuffix COPY_SUFFIX (forget (record
       [Toasted (notifyChannelMutationSuccess r (t (js "Channel copied successfully"))); Invalidated; OpenChange false] d)))
     else record [Toasted (ErrorToast (Plain (to_str x)))] d)) as Hs.
  { intros x. destruct (value_truthy _); [|apply Hr].
    apply (copies_same (forget (record [Toasted (notifyChannelMutationSuccess r (t (js "Channel copied successfully")));
      Invalidated; OpenChange false] d))); [done..|]. by apply copies_forget, copies_record. }
  destruct r; first [apply Hr|apply Hs].
Qed.

Lemma copies_step d e : draws (operationRef d) < calls → copies_tracked d →
  copies_tracked (step d e) ∧ draws (operationRef (step d e)) ≤ S (draws (operationRef d)).
Proof.
  intros Hc Hd. destruct e as [s|b|id| |open|a]; simpl; try (destruct (isCopying d); [split; [done|lia]|]); simpl.
  - split; [by apply (copies_same d)|lia].
  - split; [by apply (copies_same d)|lia].
  - split; [|apply draws_use]. destruct Hd as [Ht Hu]. split; simpl; [by apply tracks_use|]. rewrite omap_app.
    cbn [omap list_omap copy_use]. rewrite sent_key_headers, <-Hu. unfold use.
    by destruct (resolveChannelOperationAttempt _ _ _).
  - split; [by apply copies_record|lia].
  - split; [|destruct open; simpl; lia]. apply copies_record; [done|]. destruct open; [done|]. by apply copies_forget.
  - destruct (isCopying d); [|split; [done|lia] ]. split; [by apply copies_copied|].
    unfold copied. repeat case_match; simpl; lia.
Qed.

Lemma copies_run es : length es ≤ calls → copies_tracked (run es).
Proof.
  unfold run. assert (copies_tracked mounted) as Hi by (split; [apply tracks_init|done]).
  intros Hl. assert (draws (operationRef mounted) + length es ≤ calls) as Hd by done. revert Hi Hd. clear Hl.
  generalize mounted. induction es as [|e es IH]; intros d Ht Hd; [done|]. simpl in Hd.
  destruct (copies_step d e) as [? ?]; [lia|done|]. apply IH; [done|lia].
Qed.

Lemma copy_text_inj id s b id' s' b' : copy_text id s b = copy_text id' s' b' → id = id' ∧ s = s' ∧ b = b'.
Proof.
  assert (∀ z x y, json (Obj [key_value "channelId" (int z); key_value "suffix" (Str x);
    key_value "resetBalance" (Bool y)]) = true) as Hj.
  { intros z x y. cbn [json forallb key_value fst snd int]. rewrite ChannelReload.json_num_Z. reflexivity. }
  intros He. apply (f_equal JSON_parse) in He. unfold copy_text in He. rewrite !parse_stringify in He by apply Hj.
  apply (inj Some) in He.
  assert (num_of_Z id = num_of_Z id') as Hid
    by exact (f_equal (λ v, match v with Obj ((_, Num n) :: _) => n | _ => NaN end) He).
  apply num_of_Z_inj in Hid. split; [done|]. subst id'. by injection He.
Qed.

(** Copies are named like creations: two requests of the dialog carry the same key
    exactly when every request from one to the other copies the same channel with the same
    suffix and balance, and the operation was not forgotten in between, by a success or by
    closing the window. *)
Theorem copies_named (es : list Event) (i j : nat) (id id' : Z) (s s' key key' : jsstr) (b b' : bool) :
  let l := omap copy_use (log (run es)) in
  length es ≤ calls → i < j → l !! i = Some (Sent (copy_text id s b) key) → l !! j = Some (Sent (copy_text id' s' b') key') →
  key ≠ [] ∧
  (key = key' ↔ ∀ m, i ≤ m ≤ j → ∃ k, l !! m = Some (Sent (copy_text id s b) k)) ∧
  (key = key' → id = id' ∧ s = s' ∧ b = b').
Proof.
  intros l Hes Hij Hi Hj. destruct (copies_run es Hes) as [ [_ Hd Hk] Hu]. unfold l in *. rewrite <-Hu in *.
  specialize (Hk _ _ _ _ _ _ Hij Hi Hj). split_and!.
  - destruct (Hd _ _ _ Hi) as (n & _ & ->). apply key_nonempty.
  - exact Hk.
  - intros Heq. apply copy_text_inj. destruct (proj1 Hk Heq j) as [k Hm]; [lia|]. rewrite Hj in Hm. congruence.
Qed.

End Laws.
End Dialog.
End CopyDialog.

(** ** Concrete saves *)

Module SavedSamples.
Import Json ChannelForm OperationKey ChannelSave ChannelReload.
#[local] Existing Instance sample_json.
#[local] Existing Instance sample_json_laws.
#[local] Existing Instance sample_env.
#[local] Existing Instance sample_env_laws.

(** A browser without [randomUUID], for 256 calls. *)
#[local] Instance sample_crypto : Crypto :=
  {| randomUUID := None; getRandomValues n := N.of_nat n mod 256 :: replicate 15 0%N; calls := 256 |}%N.

#[local] Instance sample_crypto_laws : CryptoLaws.
Proof.
  split; [done|done|..].
  - intros n. split; [done|]. simpl. repeat constructor; try lia. apply N.mod_lt. lia.
  - intros m n Hm Hn [= He]. cbn [calls sample_crypto] in *. rewrite !N.mod_small in He by lia. lia.
Qed.

#[local] Instance sample_i18n : I18n := {| t := id |}.

Definition operator : Auth.AuthUser := Auth.mkUser (num_of_Z 7) (js "ops") (num_of_Z 10) (Obj []).

Definition editing : Props := mkProps true (Some 7%Z) true.
Definition creating : Props := mkProps false None false.

Lemma update_withholds_sensitive_witness :
  ∃ body, log (step init (Submit (Some operator) editing sample_form)) = [UpdateRequest 7 body] ∧
    jm_get (js "base_url") body = None ∧ jm_get (js "settings") body = None ∧ jm_get (js "key_mode") body = None ∧
    jm_get (js "models") body = Some (Str (js "gpt-4o,o1")).
Proof.
  destruct (update_withholds_sensitive (Some operator) editing sample_form 7 init) as
    (s & payload & body & _ & Hp & Hl & _ & _ & Hb); [exact sample_accepted|done..|].
  exists body. split; [exact Hl|]. rewrite !Hb. split_and!; try reflexivity.
  apply (f_equal (λ r, match r with Ok u => jm_get (js "models") u | Throw _ => None end)) in Hp.
  symmetry in Hp. etrans; [|etrans; [exact Hp|reflexivity] ]. reflexivity.
Defined.

Definition sample_saves : list Event := saves (Some operator) creating sample_form.

Lemma creations_named_witness :
  ∃ text k k', creations (log (run sample_saves)) = [Sent text k; Sent text k; Cleared; Sent text k'] ∧ k ≠ k'.
Proof.
  destruct (accepted_create sample_form sample_accepted) as [payload Hp].
  pose proof (saves_creations (Some operator) creating sample_form payload ltac:(apply Nat.leb_le; reflexivity) eq_refl Hp) as E. cbv zeta in E.
  fold sample_saves in E.
  destruct (creations_named sample_saves 0 (create_text payload) (createChannelOperationKey 0)) as [_ Hk];
    [apply Nat.leb_le; reflexivity|by rewrite E|].
  eexists _, _, _. split; [exact E|]. intros Hkk.
  destruct (Hk 3 (create_text payload) (createChannelOperationKey 1) ltac:(lia) ltac:(by rewrite E)) as [Hall _].
  destruct (Hall Hkk 2) as [? Hc]; [lia|]. by rewrite E in Hc.
Defined.

Lemma save_settles_once_witness :
  let w := run (take 1 sample_saves) in
  mutations (step w (Answered 0 (Failed true true (Obj [])))) !! 0 = Some (mkMutation Creating (Some false)).
Proof.
  intros w. destruct (save_settles_once w 0 Creating (Failed true true (Obj []))) as (ok & H1 & _ & _ & Hok & _);
    [by vm_compute|].
  destruct ok; [|exact H1]. destruct (proj1 Hok eq_refl) as (r & [=] & _).
Defined.

(** A copy that fails and is repeated. *)
Lemma copies_named_witness :
  let es := [CopyDialog.Copy 3; CopyDialog.Copied (Failed true true (Obj [])); CopyDialog.Cancel; CopyDialog.Copy 3] in
  let text := CopyDialog.copy_text 3 CopyDialog.COPY_SUFFIX true in
  ∃ k, omap CopyDialog.copy_use (CopyDialog.log (CopyDialog.run es)) = [Sent text k; Sent text k].
Proof.
  intros es text.
  assert (omap CopyDialog.copy_use (CopyDialog.log (CopyDialog.run es)) =
    [Sent text (createChannelOperationKey 0); Sent text (createChannelOperationKey 0)]) as E.
  { assert (streq text text = true) as Hs by (by apply streq_spec). revert Hs. unfold es, text.
    cbv -[CopyDialog.copy_text streq createChannelOperationKey]. intros ->. reflexivity. }
  destruct (CopyDialog.copies_named es 0 1 3 3 CopyDialog.COPY_SUFFIX CopyDialog.COPY_SUFFIX
    (createChannelOperationKey 0) (createChannelOperationKey 0) true true) as (_ & Hk & _);
    [apply Nat.leb_le; reflexivity|lia|by rewrite E..|].
  destruct (proj1 Hk eq_refl 1) as [k Hm]; [lia|]. rewrite E in Hm. injection Hm as <-. by eexists.
Defined.

End SavedSamples.
