(* ===== verification/ParamOverride.v ===== *)
(** * The editor of parameter overrides
      (web/src/features/channels/components/dialogs/param-override-editor-dialog.tsx)

    A channel may rewrite the requests it forwards. The rules are kept as a JSON text, an
    object with [operations], and edited either as a list of operations with conditions, or
    as text. The model follows the dialog: reading a text into the editor's state, the
    operations on the list, the drafts of the modes with a structured value, the checks, and
    writing the text.

    An identifier is the number [nextLocalId] puts at the end of it: it grows with every
    call, so two identifiers of a page are never equal. Functions that make identifiers take
    the next number and return the one after. *)
From S2P Require Import Prelude JsString JsMap JsValue Json.
Local Open Scope js_scope.

Module ParamOverride.
Import Json.

(** ** Data *)

Record ParamOverrideCondition := mkCondition {
  c_id : nat; c_path : jsstr; c_mode : jsstr; c_value_text : jsstr; c_invert : bool;
  c_pass_missing_key : bool }.

Record ParamOverrideOperation := mkOperation {
  o_id : nat; o_description : jsstr; o_path : jsstr; o_mode : jsstr; o_from : jsstr; o_to : jsstr;
  o_value_text : jsstr; o_keep_origin : bool; o_logic : jsstr; o_conditions : list ParamOverrideCondition }.

(** ** Constants *)

Definition OPERATION_MODE_OPTIONS : list (jsstr * jsstr) := map (λ lv, (js (fst lv), js (snd lv))) [
  ("Set Field", "set"); ("Delete Field", "delete"); ("Append to End", "append");
  ("Prepend to Start", "prepend"); ("Copy Field", "copy"); ("Move Field", "move");
  ("String Replace", "replace"); ("Regex Replace", "regex_replace"); ("Trim Prefix", "trim_prefix");
  ("Trim Suffix", "trim_suffix"); ("Ensure Prefix", "ensure_prefix"); ("Ensure Suffix", "ensure_suffix");
  ("Trim Space", "trim_space"); ("To Lowercase", "to_lower"); ("To Uppercase", "to_upper");
  ("Return Custom Error", "return_error"); ("Prune Object Items", "prune_objects");
  ("Pass Through Headers", "pass_headers"); ("Sync Fields", "sync_fields");
  ("Set Request Header", "set_header"); ("Delete Request Header", "delete_header");
  ("Copy Request Header", "copy_header"); ("Move Request Header", "move_header")]%string.

Definition OPERATION_MODE_VALUES : list jsstr := map snd OPERATION_MODE_OPTIONS.

Definition CONDITION_MODE_OPTIONS : list (jsstr * jsstr) := map (λ lv, (js (fst lv), js (snd lv))) [
  ("Exact Match", "full"); ("Prefix", "prefix"); ("Suffix", "suffix"); ("Contains", "contains");
  ("Greater Than", "gt"); ("Greater Than or Equal", "gte"); ("Less Than", "lt");
  ("Less Than or Equal", "lte")]%string.

Definition CONDITION_MODE_VALUES : list jsstr := map snd CONDITION_MODE_OPTIONS.

Record Meta := mkMeta {
  m_path : bool; m_pathOptional : bool; m_value : bool; m_from : bool; m_to : bool; m_keepOrigin : bool;
  m_pathAlias : bool }.

Definition MODE_META : list (jsstr * Meta) := map (λ kv, (js (fst kv), snd kv)) [
  ("delete", mkMeta true false false false false false false);
  ("set", mkMeta true false true false false true false);
  ("append", mkMeta true false true false false true false);
  ("prepend", mkMeta true false true false false true false);
  ("copy", mkMeta false false false true true false false);
  ("move", mkMeta false false false true true false false);
  ("replace", mkMeta true false false true false false false);
  ("regex_replace", mkMeta true false false true false false false);
  ("trim_prefix", mkMeta true false true false false false false);
  ("trim_suffix", mkMeta true false true false false false false);
  ("ensure_prefix", mkMeta true false true false false false false);
  ("ensure_suffix", mkMeta true false true false false false false);
  ("trim_space", mkMeta true false false false false false false);
  ("to_lower", mkMeta true false false false false false false);
  ("to_upper", mkMeta true false false false false false false);
  ("return_error", mkMeta false false true false false false false);
  ("prune_objects", mkMeta false true true false false false false);
  ("pass_headers", mkMeta false false true false false true false);
  ("sync_fields", mkMeta false false false true true false false);
  ("set_header", mkMeta true false true false false true false);
  ("delete_header", mkMeta true false false false false false false);
  ("copy_header", mkMeta false false false true true true true);
  ("move_header", mkMeta false false false true true true true)]%string.

Definition VALUE_REQUIRED_MODES : list jsstr := map js
  ["trim_prefix"; "trim_suffix"; "ensure_prefix"; "ensure_suffix"; "set_header"; "return_error";
   "prune_objects"; "pass_headers"]%string.

Definition FROM_REQUIRED_MODES : list jsstr := map js
  ["copy"; "move"; "replace"; "regex_replace"; "copy_header"; "move_header"; "sync_fields"]%string.

Definition TO_REQUIRED_MODES : list jsstr := map js
  ["copy"; "move"; "copy_header"; "move_header"; "sync_fields"]%string.

(** [MODE_META[mode] || MODE_META.set] *)
Definition meta_of (mode : jsstr) : Meta :=
  default (mkMeta true false true false false true false) (jm_get mode MODE_META).

Section Editor.
Context `{Json}.

(** ** Values in texts *)

Definition toValueText (v : value) : jsstr :=
  match v with Undef => [] | Str s => s | _ => JSON_stringify v end.

Definition parseLooseValue (valueText : jsstr) : value :=
  let raw := trim valueText in
  if streq raw [] then Str []
  else match JSON_parse raw with Some v => v | None => Str raw end.

Definition verifyJSON (text : jsstr) : bool :=
  match JSON_parse text with Some _ => true | None => false end.

(** ** Reading operations *)

Definition text_or_empty (v : value) : jsstr := match v with Str s => s | _ => [] end.

Definition mode_or (modes : list jsstr) (fallback : jsstr) (v : value) : jsstr :=
  match v with Str s => if set_has modes s then s else fallback | _ => fallback end.

(** [None]: the value is [null], whose fields cannot be read. *)
Definition normalizeCondition (seed : nat) (v : value) : option (ParamOverrideCondition * nat) :=
  match v with
  | Null => None
  | _ =>
      Some (mkCondition seed (text_or_empty (get v (js "path")))
              (mode_or CONDITION_MODE_VALUES (js "full") (get v (js "mode")))
              (toValueText (get v (js "value"))) (is_true (get v (js "invert")))
              (is_true (get v (js "pass_missing_key"))), S seed)
  end.

Definition createDefaultCondition (seed : nat) : ParamOverrideCondition :=
  mkCondition seed [] (js "full") [] false false.

(** [items.map(f)] for an [f] that makes identifiers *)
Fixpoint map_fresh {A B} (f : nat → A → option (B * nat)) (seed : nat) (l : list A) : option (list B * nat) :=
  match l with
  | [] => Some ([], seed)
  | x :: rest =>
      match f seed x with
      | Some (y, seed1) =>
          match map_fresh f seed1 rest with Some (ys, seed2) => Some (y :: ys, seed2) | None => None end
      | None => None
      end
  end.

Definition ascii_upper (u : N) : N := if ((97 <=? u) && (u <=? 122))%N then (u - 32)%N else u.

(** [String(v || fallback).toUpperCase() === word]: no character that is no ASCII letter has one
    of [AND] or [OR] as its upper case. *)
Definition upper_is (word : string) (fallback : string) (v : value) : bool :=
  streq (map ascii_upper (to_str (value_or v (Str (js fallback))))) (js word).

Definition normalizeOperation (seed : nat) (v : value) : option (ParamOverrideOperation * nat) :=
  match v with
  | Null => None
  | _ =>
      let conditions :=
        match get v (js "conditions") with
        | Arr l => map_fresh normalizeCondition (S seed) l
        | _ => Some ([], S seed)
        end in
      match conditions with
      | Some (cs, seed') =>
          Some (mkOperation seed (text_or_empty (get v (js "description"))) (text_or_empty (get v (js "path")))
                  (mode_or OPERATION_MODE_VALUES (js "set") (get v (js "mode")))
                  (text_or_empty (get v (js "from"))) (text_or_empty (get v (js "to")))
                  (toValueText (get v (js "value"))) (is_true (get v (js "keep_origin")))
                  (if upper_is "AND" "OR" (get v (js "logic")) then js "AND" else js "OR") cs, seed')
      | None => None
      end
  end.

Definition createDefaultOperation (seed : nat) : ParamOverrideOperation :=
  mkOperation seed [] [] (js "set") [] [] [] false (js "OR") [].

(** ** Order *)

Inductive Position := Before | After.

Fixpoint find_index {A} (p : A → bool) (l : list A) : option nat :=
  match l with
  | [] => None
  | x :: rest => if p x then Some O else S <$> find_index p rest
  end.

Definition has_id (id : nat) (op : ParamOverrideOperation) : bool := (o_id op =? id)%nat.

Definition reorderOperations (ops : list ParamOverrideOperation) (sourceId targetId : nat) (position : Position) :
    list ParamOverrideOperation :=
  if (sourceId =? targetId)%nat then ops
  else
    match find_index (has_id sourceId) ops with
    | None => ops
    | Some srcIdx =>
        match ops !! srcIdx with
        | None => ops
        | Some moved =>
            let next := take srcIdx ops ++ drop (S srcIdx) ops in
            match find_index (has_id targetId) next with
            | None => ops
            | Some i =>
                let insertIdx := match position with After => S i | Before => i end in
                take insertIdx next ++ moved :: drop insertIdx next
            end
        end
    end.

(** ** Checks *)

Definition blank (s : jsstr) : bool := negb (truthy (trim s)).

Definition isOperationBlank (op : ParamOverrideOperation) : bool :=
  let hasCondition := existsb (λ c, negb (blank (c_path c)) || negb (blank (c_value_text c)) ||
    negb (streq (c_mode c) (js "full")) || c_invert c || c_pass_missing_key c) (o_conditions op) in
  streq (o_mode op) (js "set") && blank (o_path op) && blank (o_from op) && blank (o_to op) &&
  blank (o_value_text op) && negb (o_keep_origin op) && negb hasCondition.

(** [String(i ?? '').trim()] of each, without the empty ones *)
Definition trimmed_items (l : list value) : list jsstr :=
  List.filter truthy (map (λ v, trim (to_str (value_default v (Str [])))) l).

Definition parsePassHeaderNames (v : value) : list jsstr :=
  match v with
  | Arr l => trimmed_items l
  | Obj _ =>
      match get v (js "headers") with
      | Arr l => trimmed_items l
      | _ =>
          match get v (js "header") with
          | Undef => []
          | h => trimmed_items [h]
          end
      end
  | Str s => comma_list s
  | _ => []
  end.

Inductive ValidationMessage :=
| MissingPath | MissingSource | MissingTarget | MissingValue | NoErrorMessage | NoConditions
| NoHeaderNames | BadHeaderNames.

(** [payload && typeof payload === 'object' && !Array.isArray(payload)] and its message is blank *)
Definition error_without_message (raw : jsstr) : bool :=
  match JSON_parse raw with
  | Some (Obj fs) => blank (to_str (value_or (get (Obj fs) (js "message")) (Str [])))
  | _ => false
  end.

(** [operation.mode || 'set'] *)
Definition mode_of (op : ParamOverrideOperation) : jsstr := str_or (o_mode op) (js "set").

Definition validateOperation (op : ParamOverrideOperation) : option ValidationMessage :=
  let mode := mode_of op in
  let meta := meta_of mode in
  let pathValue := trim (o_path op) in
  let alias := m_pathAlias meta && truthy pathValue in
  let raw := trim (o_value_text op) in
  if m_path meta && negb (truthy pathValue) then Some MissingPath
  else if set_has FROM_REQUIRED_MODES mode && blank (o_from op) && negb alias then Some MissingSource
  else if set_has TO_REQUIRED_MODES mode && blank (o_to op) && negb alias then Some MissingTarget
  else if set_has VALUE_REQUIRED_MODES mode && streq raw [] then Some MissingValue
  else if streq mode (js "return_error") && negb (truthy raw) then Some MissingValue
  else if streq mode (js "return_error") && error_without_message raw then Some NoErrorMessage
  else if streq mode (js "prune_objects") && negb (truthy raw) then Some NoConditions
  else if streq mode (js "pass_headers") && negb (truthy raw) then Some NoHeaderNames
  else if streq mode (js "pass_headers") &&
          match parsePassHeaderNames (parseLooseValue raw) with [] => true | _ => false end
  then Some BadHeaderNames
  else None.

(** The first message, with its line. *)
Fixpoint validate_from (line : nat) (ops : list ParamOverrideOperation) : option (nat * ValidationMessage) :=
  match ops with
  | [] => None
  | op :: rest =>
      match validateOperation op with
      | Some m => Some (line, m)
      | None => validate_from (S line) rest
      end
  end.

Definition validateOperations (ops : list ParamOverrideOperation) : option (nat * ValidationMessage) :=
  validate_from 1 ops.

(** ** Writing *)

Definition entry (b : bool) (k : string) (v : value) : list (jsstr * value) := if b then [(js k, v)] else [].

Definition buildConditionPayload (c : ParamOverrideCondition) : option value :=
  let path := trim (c_path c) in
  if negb (truthy path) then None
  else Some (Obj ([(js "path", Str path); (js "mode", Str (str_or (c_mode c) (js "full")));
                   (js "value", parseLooseValue (c_value_text c))] ++
                  entry (c_invert c) "invert" (Bool true) ++
                  entry (c_pass_missing_key c) "pass_missing_key" (Bool true))).

(** The alias: an empty source or target of a header operation is its path. *)
Definition or_alias (alias : bool) (text path : jsstr) : jsstr :=
  if alias && negb (truthy text) && truthy path then path else text.

(** The payload of an operation. Names are written in this order; the ones the alias fills are
    written before. *)
Definition operation_payload (op : ParamOverrideOperation) : value :=
  let mode := mode_of op in
  let meta := meta_of mode in
  let pathValue := trim (o_path op) in
  let fromValue := or_alias (m_pathAlias meta) (trim (o_from op)) pathValue in
  let toValue := or_alias (m_pathAlias meta) (trim (o_to op)) pathValue in
  let conditions := omap buildConditionPayload (o_conditions op) in
  Obj ([(js "mode", Str mode)] ++
       entry (negb (blank (o_description op))) "description" (Str (trim (o_description op))) ++
       entry (m_path meta || m_pathOptional meta && truthy pathValue) "path" (Str pathValue) ++
       entry (m_value meta) "value" (parseLooseValue (o_value_text op)) ++
       entry (m_keepOrigin meta && o_keep_origin op) "keep_origin" (Bool true) ++
       entry (m_from meta || m_pathAlias meta && truthy pathValue) "from" (Str fromValue) ++
       entry (m_to meta || truthy (trim (o_to op)) || m_pathAlias meta && truthy pathValue) "to" (Str toValue) ++
       match conditions with
       | [] => []
       | _ => [(js "conditions", Arr conditions);
               (js "logic", Str (if streq (o_logic op) (js "AND") then js "AND" else js "OR"))]
       end).

Definition operations_value (ops : list ParamOverrideOperation) : value :=
  Obj [(js "operations", Arr (map operation_payload ops))].

Definition buildOperationsJson (sourceOperations : list ParamOverrideOperation) (validate : bool) :
    result (nat * ValidationMessage) jsstr :=
  let filteredOps := List.filter (λ o, negb (isOperationBlank o)) sourceOperations in
  match filteredOps with
  | [] => Ok []
  | _ =>
      match (if validate then validateOperations filteredOps else None) with
      | Some m => Throw m
      | None => Ok (JSON_pretty (operations_value filteredOps))
      end
  end.

(** ** Targets of a synchronization *)

Definition parseSyncTargetSpec (spec : jsstr) : jsstr * jsstr :=
  let raw := trim spec in
  if negb (truthy raw) then (js "json", [])
  else match index_of (js ":") raw with
       | None => (js "json", raw)
       | Some idx =>
           let prefix := map ascii_lower (trim (take idx raw)) in
           let key := trim (drop (S idx) raw) in
           if streq prefix (js "header") then (js "header", key) else (js "json", key)
       end.

Definition buildSyncTargetSpec (type key : jsstr) : jsstr :=
  let normalizedType := if streq type (js "header") then js "header" else js "json" in
  let normalizedKey := trim key in
  if negb (truthy normalizedKey) then [] else normalizedType ++ js ":" ++ normalizedKey.

(** ** Drafts of errors *)

Record ReturnErrorDraft := mkErrorDraft {
  d_message : jsstr; d_statusCode : jsnum; d_code : jsstr; d_type : jsstr; d_skipRetry : bool;
  d_simpleMode : bool }.

Definition default_error : ReturnErrorDraft := mkErrorDraft [] (num_of_Z 400) [] [] true true.

(** [Number(v)] *)
Definition number_of (v : value) : jsnum := match v with Undef => NaN | _ => to_num v end.

(** A status between 100 and 599, or 400. *)
Definition status_or_400 (n : jsnum) : jsnum :=
  match as_integer n with
  | Some z => if ((100 <=? z) && (z <=? 599))%Z then n else num_of_Z 400
  | None => num_of_Z 400
  end.

(** [String(v || '').trim()] *)
Definition trimmed_text (v : value) : jsstr := trim (to_str (value_or v (Str []))).

Definition parseReturnErrorDraft (valueText : jsstr) : ReturnErrorDraft :=
  let raw := trim valueText in
  if negb (truthy raw) then default_error
  else match JSON_parse raw with
       | Some (Obj fs) =>
           let parsed := Obj fs in
           let statusRaw := match get parsed (js "status_code") with
                            | Undef => get parsed (js "status") | v => v end in
           mkErrorDraft (trimmed_text (value_or (get parsed (js "message")) (get parsed (js "msg"))))
             (status_or_400 (number_of statusRaw))
             (trimmed_text (get parsed (js "code"))) (trimmed_text (get parsed (js "type")))
             (match get parsed (js "skip_retry") with Bool false => false | _ => true end) false
       | _ => mkErrorDraft raw (num_of_Z 400) [] [] true true
       end.

Definition error_payload (draft : ReturnErrorDraft) : value :=
  let code := trim (d_code draft) in
  let type := trim (d_type draft) in
  Obj ([(js "message", Str (trim (d_message draft)));
        (js "status_code", Num (status_or_400 (d_statusCode draft)))] ++
       entry (truthy code) "code" (Str code) ++ entry (truthy type) "type" (Str type) ++
       entry (negb (d_skipRetry draft)) "skip_retry" (Bool false)).

Definition buildReturnErrorValueText (draft : ReturnErrorDraft) : jsstr :=
  if d_simpleMode draft then trim (d_message draft) else JSON_stringify (error_payload draft).

(** ** Drafts of prunings: a rule has the fields of a condition *)

Record PruneObjectsDraft := mkPrune {
  p_simpleMode : bool; p_typeText : jsstr; p_logic : jsstr; p_recursive : bool;
  p_rules : list ParamOverrideCondition }.

Definition default_prune : PruneObjectsDraft := mkPrune true [] (js "AND") true [].

Definition normalizePruneRule (seed : nat) (v : value) : option (ParamOverrideCondition * nat) :=
  normalizeCondition seed v.

(** The rules of an object of expected values. *)
Definition field_rules (seed : nat) (fs : list (jsstr * value)) : list ParamOverrideCondition * nat :=
  default ([], seed) (map_fresh (λ n kv, normalizePruneRule n
    (Obj [(js "path", Str (fst kv)); (js "mode", Str (js "full")); (js "value", snd kv)])) seed fs).

(** The items that are objects or arrays. *)
Definition object_items (l : list value) : list value :=
  List.filter (λ v, match v with Obj _ | Arr _ => true | _ => false end) l.

Definition is_defined (v : value) : bool := match v with Undef => false | _ => true end.

Definition parsePruneObjectsDraft (seed : nat) (valueText : jsstr) : PruneObjectsDraft * nat :=
  let raw := trim valueText in
  if negb (truthy raw) then (default_prune, seed)
  else match JSON_parse raw with
       | None => (mkPrune true raw (js "AND") true [], seed)
       | Some (Str s) => (mkPrune true (trim s) (js "AND") true [], seed)
       | Some (Obj fs) =>
           let parsed := Obj fs in
           let '(where_rules, seed1) :=
             match get parsed (js "where") with Obj w => field_rules seed w | _ => ([], seed) end in
           let '(condition_rules, seed2) :=
             match get parsed (js "conditions") with
             | Arr l => default ([], seed1) (map_fresh normalizePruneRule seed1 (object_items l))
             | Obj c => field_rules seed1 c
             | _ => ([], seed1)
             end in
           let typeText := match get parsed (js "type") with Undef => [] | v => trim (to_str v) end in
           let logic := if upper_is "OR" "AND" (get parsed (js "logic")) then js "OR" else js "AND" in
           let recursive := match get parsed (js "recursive") with Bool false => false | _ => true end in
           let advanced := is_defined (get parsed (js "logic")) || is_defined (get parsed (js "recursive")) ||
             is_defined (get parsed (js "where")) || is_defined (get parsed (js "conditions")) in
           (mkPrune (negb advanced) typeText logic recursive (where_rules ++ condition_rules), seed2)
       | Some v => (mkPrune true (trim (to_str (value_default v (Str [])))) (js "AND") true [], seed)
       end.

Definition rule_payload (rule : ParamOverrideCondition) : option value :=
  let path := trim (c_path rule) in
  if negb (truthy path) then None
  else
    Some (Obj ([(js "path", Str path);
                (js "mode", Str (if set_has CONDITION_MODE_VALUES (c_mode rule) then c_mode rule else js "full"))] ++
               entry (negb (blank (c_value_text rule))) "value" (parseLooseValue (c_value_text rule)) ++
               entry (c_invert rule) "invert" (Bool true) ++
               entry (c_pass_missing_key rule) "pass_missing_key" (Bool true))).

Definition buildPruneObjectsValueText (draft : PruneObjectsDraft) : jsstr :=
  let typeText := trim (p_typeText draft) in
  if p_simpleMode draft then typeText
  else
    let conditions := omap rule_payload (p_rules draft) in
    match truthy typeText, conditions with
    | false, [] => JSON_stringify (Obj [(js "logic", Str (js "AND"))])
    | _, _ =>
        JSON_stringify (Obj (
          entry (truthy typeText) "type" (Str typeText) ++
          entry (upper_is "OR" "AND" (Str (p_logic draft))) "logic" (Str (js "OR")) ++
          entry (negb (p_recursive draft)) "recursive" (Bool false) ++
          match conditions with [] => [] | _ => [(js "conditions", Arr conditions)] end))
    end.

(** ** The state of the dialog *)

Inductive EditMode := Visual | JsonMode.
Inductive VisualMode := OperationsMode | LegacyMode.

#[export] Instance EditMode_eq_dec : EqDecision EditMode.
Proof. solve_decision. Defined.
#[export] Instance VisualMode_eq_dec : EqDecision VisualMode.
Proof. solve_decision. Defined.

Inductive EditorError :=
| InvalidRule (line : nat) (m : ValidationMessage)
| InvalidJson                                       (* Invalid JSON format *)
| NotValidJson                                      (* Parameter override must be valid JSON format *)
| NotLegacyObject                                   (* Legacy format must be a JSON object *)
| NotJsonObject                                     (* Parameter override must be a valid JSON object *)
| CannotAppend                                      (* Current legacy JSON is invalid, cannot append *)
| JsonFormatError.

Record EditorState := mkEditor {
  editMode : EditMode; visualMode : VisualMode; legacyValue : jsstr;
  operations : list ParamOverrideOperation; jsonText : jsstr; jsonError : option EditorError;
  selectedOperationId : option nat; draggedOperationId : option nat;
  dragOver : option nat; dragOverPosition : Position; templatePresetKey : jsstr;
  localIdSeed : nat; toasts : list EditorError; saved : option jsstr }.

(** The operations of a parsed text; an empty list gives the default one. *)
Definition read_operations (seed : nat) (l : list value) : option (list ParamOverrideOperation * nat) :=
  match l with
  | [] => Some ([createDefaultOperation seed], S seed)
  | _ => map_fresh normalizeOperation seed l
  end.

(** What a text gives the editor. *)
Record InitialState := mkInitial {
  i_editMode : EditMode; i_visualMode : VisualMode; i_legacyValue : jsstr;
  i_operations : list ParamOverrideOperation; i_jsonText : jsstr; i_jsonError : option EditorError }.

(** [None]: an operation or a condition is [null], and reading it throws. *)
Definition parseInitialState (seed : nat) (rawValue : jsstr) : option (InitialState * nat) :=
  let trimmed := trim rawValue in
  let fresh := [createDefaultOperation seed] in
  if negb (truthy trimmed) then Some (mkInitial Visual OperationsMode [] fresh [] None, S seed)
  else match JSON_parse trimmed with
       | None => Some (mkInitial JsonMode OperationsMode [] fresh rawValue (Some InvalidJson), S seed)
       | Some parsed =>
           let pretty := JSON_pretty parsed in
           match parsed with
           | Obj fs =>
               match get parsed (js "operations") with
               | Arr l =>
                   match read_operations seed l with
                   | Some (ops, seed') => Some (mkInitial Visual OperationsMode [] ops pretty None, seed')
                   | None => None
                   end
               | _ => Some (mkInitial Visual LegacyMode pretty fresh pretty None, S seed)
               end
           | _ => Some (mkInitial JsonMode OperationsMode [] fresh pretty None, S seed)
           end
       end.

Definition first_id (ops : list ParamOverrideOperation) : option nat := o_id <$> head ops.

Definition open_dialog (seed : nat) (text : jsstr) : option EditorState :=
  match parseInitialState seed text with
  | Some (i, seed') =>
      Some (mkEditor (i_editMode i) (i_visualMode i) (i_legacyValue i) (i_operations i) (i_jsonText i)
              (i_jsonError i) (first_id (i_operations i)) None None Before
              (match i_visualMode i with LegacyMode => js "legacy_default" | OperationsMode => js "operations_default" end)
              seed' [] None)
  | None => None
  end.

(** Setters. *)
Definition set_operations (l : list ParamOverrideOperation) (e : EditorState) : EditorState :=
  mkEditor (editMode e) (visualMode e) (legacyValue e) l (jsonText e) (jsonError e) (selectedOperationId e)
    (draggedOperationId e) (dragOver e) (dragOverPosition e) (templatePresetKey e) (localIdSeed e) (toasts e) (saved e).
Definition select (id : option nat) (e : EditorState) : EditorState :=
  mkEditor (editMode e) (visualMode e) (legacyValue e) (operations e) (jsonText e) (jsonError e) id
    (draggedOperationId e) (dragOver e) (dragOverPosition e) (templatePresetKey e) (localIdSeed e) (toasts e) (saved e).
Definition set_seed (n : nat) (e : EditorState) : EditorState :=
  mkEditor (editMode e) (visualMode e) (legacyValue e) (operations e) (jsonText e) (jsonError e)
    (selectedOperationId e) (draggedOperationId e) (dragOver e) (dragOverPosition e) (templatePresetKey e) n
    (toasts e) (saved e).
Definition set_mode (m : EditMode) (v : VisualMode) (legacy : jsstr) (e : EditorState) : EditorState :=
  mkEditor m v legacy (operations e) (jsonText e) (jsonError e) (selectedOperationId e)
    (draggedOperationId e) (dragOver e) (dragOverPosition e) (templatePresetKey e) (localIdSeed e) (toasts e) (saved e).
Definition set_json (text : jsstr) (err : option EditorError) (e : EditorState) : EditorState :=
  mkEditor (editMode e) (visualMode e) (legacyValue e) (operations e) text err (selectedOperationId e)
    (draggedOperationId e) (dragOver e) (dragOverPosition e) (templatePresetKey e) (localIdSeed e) (toasts e) (saved e).
Definition set_preset (k : jsstr) (e : EditorState) : EditorState :=
  mkEditor (editMode e) (visualMode e) (legacyValue e) (operations e) (jsonText e) (jsonError e)
    (selectedOperationId e) (draggedOperationId e) (dragOver e) (dragOverPosition e) k (localIdSeed e)
    (toasts e) (saved e).
Definition set_drag (d o : option nat) (p : Position) (e : EditorState) : EditorState :=
  mkEditor (editMode e) (visualMode e) (legacyValue e) (operations e) (jsonText e) (jsonError e)
    (selectedOperationId e) d o p (templatePresetKey e) (localIdSeed e) (toasts e) (saved e).
Definition toast (err : EditorError) (e : EditorState) : EditorState :=
  mkEditor (editMode e) (visualMode e) (legacyValue e) (operations e) (jsonText e) (jsonError e)
    (selectedOperationId e) (draggedOperationId e) (dragOver e) (dragOverPosition e) (templatePresetKey e)
    (localIdSeed e) (toasts e ++ [err]) (saved e).
Definition save (text : jsstr) (e : EditorState) : EditorState :=
  mkEditor (editMode e) (visualMode e) (legacyValue e) (operations e) (jsonText e) (jsonError e)
    (selectedOperationId e) (draggedOperationId e) (dragOver e) (dragOverPosition e) (templatePresetKey e)
    (localIdSeed e) (toasts e) (Some text).

(** The effect that keeps [selectedOperationId] valid. *)
Definition keep_selection (e : EditorState) : EditorState :=
  match operations e with
  | [] => select None e
  | op :: _ =>
      match selectedOperationId e with
      | Some id => if existsb (has_id id) (operations e) then e else select (Some (o_id op)) e
      | None => select (Some (o_id op)) e
      end
  end.

(** ** Operations on the list *)

Definition map_op (id : nat) (f : ParamOverrideOperation → ParamOverrideOperation) (e : EditorState) : EditorState :=
  set_operations (map (λ o, if has_id id o then f o else o) (operations e)) e.

(** The fields the editor changes. *)
Inductive OperationPatch :=
| PDescription (s : jsstr) | PPath (s : jsstr) | PMode (s : jsstr) | PFrom (s : jsstr) | PTo (s : jsstr)
| PValueText (s : jsstr) | PKeepOrigin (b : bool) | PLogic (s : jsstr).

Definition patch_operation (p : OperationPatch) (o : ParamOverrideOperation) : ParamOverrideOperation :=
  let 'mkOperation id d pa m f t v k l cs := o in
  match p with
  | PDescription s => mkOperation id s pa m f t v k l cs
  | PPath s => mkOperation id d s m f t v k l cs
  | PMode s => mkOperation id d pa s f t v k l cs
  | PFrom s => mkOperation id d pa m s t v k l cs
  | PTo s => mkOperation id d pa m f s v k l cs
  | PValueText s => mkOperation id d pa m f t s k l cs
  | PKeepOrigin b => mkOperation id d pa m f t v b l cs
  | PLogic s => mkOperation id d pa m f t v k s cs
  end.

Definition updateOperation (id : nat) (p : OperationPatch) (e : EditorState) : EditorState :=
  map_op id (patch_operation p) e.

Definition addOperation (e : EditorState) : EditorState :=
  let created := createDefaultOperation (localIdSeed e) in
  select (Some (o_id created)) (set_seed (S (localIdSeed e)) (set_operations (operations e ++ [created]) e)).

Definition condition_value (c : ParamOverrideCondition) : value :=
  Obj [(js "path", Str (c_path c)); (js "mode", Str (c_mode c)); (js "value", parseLooseValue (c_value_text c));
       (js "invert", Bool (c_invert c)); (js "pass_missing_key", Bool (c_pass_missing_key c))].

Definition duplicate_value (source : ParamOverrideOperation) : value :=
  Obj [(js "description", Str (o_description source)); (js "path", Str (o_path source));
       (js "mode", Str (o_mode source)); (js "value", parseLooseValue (o_value_text source));
       (js "keep_origin", Bool (o_keep_origin source)); (js "from", Str (o_from source));
       (js "to", Str (o_to source)); (js "logic", Str (o_logic source));
       (js "conditions", Arr (map condition_value (o_conditions source)))].

Definition duplicateOperation (id : nat) (e : EditorState) : EditorState :=
  match find_index (has_id id) (operations e) with
  | None => e
  | Some idx =>
      match operations e !! idx with
      | None => e
      | Some source =>
          match normalizeOperation (localIdSeed e) (duplicate_value source) with
          | Some (cloned, seed') =>
              select (Some (o_id cloned)) (set_seed seed'
                (set_operations (take (S idx) (operations e) ++ cloned :: drop (S idx) (operations e)) e))
          | None => e
          end
      end
  end.

Definition removeOperation (id : nat) (e : EditorState) : EditorState :=
  if (length (operations e) <=? 1)%nat
  then set_seed (S (localIdSeed e)) (set_operations [createDefaultOperation (localIdSeed e)] e)
  else set_operations (List.filter (λ o, negb (has_id id o)) (operations e)) e.

Definition set_conditions (f : list ParamOverrideCondition → list ParamOverrideCondition)
    (o : ParamOverrideOperation) : ParamOverrideOperation :=
  let 'mkOperation id d pa m fr t v k l cs := o in mkOperation id d pa m fr t v k l (f cs).

Definition addCondition (id : nat) (e : EditorState) : EditorState :=
  let created := createDefaultCondition (localIdSeed e) in
  set_seed (S (localIdSeed e)) (map_op id (set_conditions (λ cs, cs ++ [created])) e).

Inductive ConditionPatch :=
| CPath (s : jsstr) | CMode (s : jsstr) | CValueText (s : jsstr) | CInvert (b : bool) | CPassMissing (b : bool).

Definition patch_condition (p : ConditionPatch) (c : ParamOverrideCondition) : ParamOverrideCondition :=
  let 'mkCondition id pa m v i ps := c in
  match p with
  | CPath s => mkCondition id s m v i ps
  | CMode s => mkCondition id pa s v i ps
  | CValueText s => mkCondition id pa m s i ps
  | CInvert b => mkCondition id pa m v b ps
  | CPassMissing b => mkCondition id pa m v i b
  end.

Definition patch_rules (ruleId : nat) (p : ConditionPatch) (rules : list ParamOverrideCondition) :
    list ParamOverrideCondition :=
  map (λ c, if (c_id c =? ruleId)%nat then patch_condition p c else c) rules.

Definition drop_rule (ruleId : nat) (rules : list ParamOverrideCondition) : list ParamOverrideCondition :=
  List.filter (λ c, negb (c_id c =? ruleId)%nat) rules.

Definition updateCondition (id conditionId : nat) (p : ConditionPatch) (e : EditorState) : EditorState :=
  map_op id (set_conditions (patch_rules conditionId p)) e.

Definition removeCondition (id conditionId : nat) (e : EditorState) : EditorState :=
  map_op id (set_conditions (drop_rule conditionId)) e.

Definition updateReturnErrorDraft (id : nat) (patch : ReturnErrorDraft → ReturnErrorDraft) (e : EditorState) :
    EditorState :=
  map_op id (λ o, patch_operation
    (PValueText (buildReturnErrorValueText (patch (parseReturnErrorDraft (o_value_text o))))) o) e.

(** The draft is read anew, with new identifiers for its rules; [updater] may make one more. *)
Definition update_prune (updater : PruneObjectsDraft → nat → PruneObjectsDraft * nat) (seed : nat)
    (o : ParamOverrideOperation) : ParamOverrideOperation * nat :=
  let '(draft, seed') := parsePruneObjectsDraft seed (o_value_text o) in
  let '(next, seed'') := updater draft seed' in
  (patch_operation (PValueText (buildPruneObjectsValueText next)) o, seed'').

Fixpoint update_prunes (id : nat) (updater : PruneObjectsDraft → nat → PruneObjectsDraft * nat) (seed : nat)
    (ops : list ParamOverrideOperation) : list ParamOverrideOperation * nat :=
  match ops with
  | [] => ([], seed)
  | o :: rest =>
      let '(o', seed1) := if has_id id o then update_prune updater seed o else (o, seed) in
      let '(rest', seed2) := update_prunes id updater seed1 rest in
      (o' :: rest', seed2)
  end.

Definition updatePruneObjectsDraft (id : nat) (updater : PruneObjectsDraft → nat → PruneObjectsDraft * nat)
    (e : EditorState) : EditorState :=
  let '(ops, seed) := update_prunes id updater (localIdSeed e) (operations e) in
  set_seed seed (set_operations ops e).

Definition addPruneRule (id : nat) (e : EditorState) : EditorState :=
  updatePruneObjectsDraft id (λ d seed,
    (mkPrune false (p_typeText d) (p_logic d) (p_recursive d) (p_rules d ++ [createDefaultCondition seed]),
     S seed)) e.

Definition set_rules (f : list ParamOverrideCondition → list ParamOverrideCondition) (d : PruneObjectsDraft) :
    PruneObjectsDraft :=
  mkPrune (p_simpleMode d) (p_typeText d) (p_logic d) (p_recursive d) (f (p_rules d)).

Definition updatePruneRule (id ruleId : nat) (p : ConditionPatch) (e : EditorState) : EditorState :=
  updatePruneObjectsDraft id (λ d seed, (set_rules (patch_rules ruleId p) d, seed)) e.

Definition removePruneRule (id ruleId : nat) (e : EditorState) : EditorState :=
  updatePruneObjectsDraft id (λ d seed, (set_rules (drop_rule ruleId) d, seed)) e.

(** The draft the dialog shows of an operation: read when it is rendered. *)
Definition render_prune (id : nat) (e : EditorState) : option PruneObjectsDraft * EditorState :=
  match List.find (has_id id) (operations e) with
  | Some o =>
      let '(draft, seed) := parsePruneObjectsDraft (localIdSeed e) (o_value_text o) in
      (Some draft, set_seed seed e)
  | None => (None, e)
  end.

(** Dragging an operation. *)
Definition handleDragStart (id : nat) (e : EditorState) : EditorState :=
  select (Some id) (set_drag (Some id) (dragOver e) (dragOverPosition e) e).

Definition handleDragOver (id : nat) (p : Position) (e : EditorState) : EditorState :=
  match draggedOperationId e with
  | Some d => if (d =? id)%nat then e else set_drag (Some d) (Some id) p e
  | None => e
  end.

(** [data]: the identifier the drag carries *)
Definition handleDrop (id : nat) (data : option nat) (e : EditorState) : EditorState :=
  let position := if bool_decide (dragOver e = Some id) then dragOverPosition e else Before in
  let source := match draggedOperationId e with Some d => Some d | None => data end in
  set_drag None None Before
    match source with
    | Some sourceId =>
        if (sourceId =? id)%nat then e
        else select (Some sourceId)
               (set_operations (reorderOperations (operations e) sourceId id position) e)
    | None => e
    end.

(** ** Changing the mode *)

Definition rule_error (m : nat * ValidationMessage) : EditorError := InvalidRule (fst m) (snd m).

Definition buildVisualJson (e : EditorState) : result EditorError jsstr :=
  match visualMode e with
  | LegacyMode =>
      let trimmed := trim (legacyValue e) in
      if negb (truthy trimmed) then Ok []
      else match JSON_parse trimmed with
           | None => Throw NotValidJson
           | Some (Obj fs) => Ok (JSON_pretty (Obj fs))
           | Some _ => Throw NotLegacyObject
           end
  | OperationsMode =>
      match buildOperationsJson (operations e) true with
      | Ok text => Ok text
      | Throw m => Throw (rule_error m)
      end
  end.

Definition switchToJsonMode (e : EditorState) : EditorState :=
  match editMode e with
  | JsonMode => e
  | Visual =>
      let e1 :=
        match buildVisualJson e with
        | Ok text => set_json text None e
        | Throw err =>
            let text := match visualMode e with
                        | LegacyMode => legacyValue e
                        | OperationsMode =>
                            match buildOperationsJson (operations e) false with Ok t => t | Throw _ => [] end
                        end in
            set_json text (Some err) (toast err e)
        end in
      set_mode JsonMode (visualMode e1) (legacyValue e1) e1
  end.

Definition fresh_operation (e : EditorState) : ParamOverrideOperation := createDefaultOperation (localIdSeed e).

(** The default operation alone, selected. *)
Definition start_over (e : EditorState) : EditorState :=
  select (Some (localIdSeed e)) (set_seed (S (localIdSeed e)) (set_operations [fresh_operation e] e)).

(** [None]: reading an operation throws. *)
Definition switchToVisualMode (e : EditorState) : option EditorState :=
  match editMode e with
  | Visual => Some e
  | JsonMode =>
      let trimmed := trim (jsonText e) in
      if negb (truthy trimmed) then
        Some (set_json (jsonText e) None (set_mode Visual OperationsMode [] (start_over e)))
      else match JSON_parse trimmed with
           | None => Some (toast NotValidJson e)
           | Some (Obj fs) =>
               match get (Obj fs) (js "operations") with
               | Arr l =>
                   match read_operations (localIdSeed e) l with
                   | Some (ops, seed') =>
                       Some (set_preset (js "operations_default") (set_json (jsonText e) None
                         (set_mode Visual OperationsMode [] (select (first_id ops)
                           (set_seed seed' (set_operations ops e))))))
                   | None => None
                   end
               | _ =>
                   Some (set_preset (js "legacy_default") (set_json (jsonText e) None
                     (set_mode Visual LegacyMode (JSON_pretty (Obj fs)) (start_over e))))
               end
           | Some _ => Some (toast NotJsonObject e)
           end
  end.

Definition resetEditorState (e : EditorState) : EditorState :=
  set_preset (js "operations_default") (set_json [] None (set_mode Visual OperationsMode [] (start_over e))).

Definition handleJsonChange (text : jsstr) (e : EditorState) : EditorState :=
  let trimmed := trim text in
  set_json text (if negb (truthy trimmed) || verifyJSON trimmed then None else Some JsonFormatError) e.

(** [onSave(result)], or a message. *)
Definition handleSave (e : EditorState) : EditorState :=
  let outcome :=
    match editMode e with
    | JsonMode =>
        let trimmed := trim (jsonText e) in
        if negb (truthy trimmed) then Ok []
        else match JSON_parse trimmed with
             | None => Throw NotValidJson
             | Some v => Ok (JSON_pretty v)
             end
    | Visual => buildVisualJson e
    end in
  match outcome with Ok text => save text e | Throw err => toast err e end.

(** ** Templates *)

Inductive PresetKind := OperationsPreset | LegacyPreset.

(** [preset]: the kind and the payload of the chosen template *)
Definition fillTemplate (append : bool) (preset : PresetKind * value) (e : EditorState) : option EditorState :=
  let '(kind, payload) := preset in
  match kind with
  | LegacyPreset =>
      let legacy (v : value) (e : EditorState) : EditorState :=
        let text := JSON_pretty v in
        set_json text None (set_mode Visual LegacyMode text
          (set_seed (S (localIdSeed e)) (set_operations [fresh_operation e] e))) in
      if append && bool_decide (visualMode e = LegacyMode) then
        let trimmed := trim (legacyValue e) in
        match (if truthy trimmed then JSON_parse trimmed else Some (Obj [])) with
        | None => Some (toast CannotAppend e)
        | Some current =>
            match payload, current with
            | Obj p, Obj c => Some (legacy (Obj (foldl (λ o kv, jm_set (fst kv) (snd kv) o) p c)) e)
            | Obj p, (Null | Bool _ | Num _) => Some (legacy (Obj p) e)
            | _, _ => None                            (* a string or an array spreads its indices *)
            end
        end
      else Some (legacy payload e)
  | OperationsPreset =>
      match get payload (js "operations") with
      | Arr l =>
          match map_fresh normalizeOperation (localIdSeed e) l with
          | None => None
          | Some (ops, seed') =>
              if append then
                let existing := match visualMode e with
                                | OperationsMode => List.filter (λ o, negb (isOperationBlank o)) (operations e)
                                | LegacyMode => []
                                end in
                let nextOps := existing ++ ops in
                Some (set_json [] None (set_mode Visual OperationsMode []
                  (select (first_id nextOps) (set_seed seed' (set_operations nextOps e)))))
              else
                let '(finalOps, seed'') :=
                  match ops with [] => ([createDefaultOperation seed'], S seed') | _ => (ops, seed') end in
                Some (set_json (JSON_pretty (Obj [(js "operations", Arr l)])) None
                  (set_mode Visual OperationsMode (legacyValue e)
                    (select (first_id finalOps) (set_seed seed'' (set_operations finalOps e)))))
          end
      | _ => None
      end
  end.

(** ** Lemmas: values in texts *)

Section Laws.
Context {laws : JsonLaws}.

(** A value that is no string is read back; a string is when it is trimmed and no JSON. *)
Lemma loose_json v : json v = true → is_defined v = true → (∀ s, v ≠ Str s) →
  parseLooseValue (toValueText v) = v.
Proof.
  intros Hj Hd Hs. assert (v ≠ Undef) as Hu by (by intros ->).
  assert (toValueText v = JSON_stringify v) as -> by (destruct v as [| | | |s| |]; try done; by destruct (Hs s)).
  unfold parseLooseValue. rewrite stringify_trimmed by done.
  destruct (streq _ []) eqn:E; [|by rewrite parse_stringify].
  apply streq_spec in E. pose proof (stringify_nonblank v Hu) as Hn. by rewrite E in Hn.
Qed.

Lemma loose_string s : parseLooseValue s = Str s ↔
  trim s = s ∧ JSON_parse s = None ∨ JSON_parse (trim s) = Some (Str s).
Proof.
  unfold parseLooseValue. destruct (streq (trim s) []) eqn:E.
  - apply streq_spec in E. rewrite E. rewrite (parse_blank []) by done. split.
    + intros [= <-]. left. split; [done|by apply parse_blank].
    + intros [ [Hs _]|?]; [by rewrite <-Hs|done].
  - destruct (JSON_parse (trim s)) as [v|] eqn:Ep.
    + split; [intros ->; auto|]. intros [ [Hs Hn]|[= ->] ]; [|done]. congruence.
    + split; [intros [= Hs]; left; rewrite Hs in *; auto|]. intros [ [-> _]|?]; done.
Qed.

(** What is saved for a value that was opened. *)
Lemma opened_value v : json v = true →
  parseLooseValue (toValueText v) = v ↔
  (∀ s, v = Str s → trim s = s ∧ JSON_parse s = None ∨ JSON_parse (trim s) = Some (Str s)).
Proof.
  intros Hj. destruct v as [| | | |s| |]; [done|..].
  4: { simpl. rewrite loose_string. split; [by intros Hs s' [= <-]|]. intros Hs. by apply Hs. }
  all: split; [done|]; intros _; by apply loose_json.
Qed.

(** A text whose value is read back, and is not blank unless the text is. *)
Definition stable_text (s : jsstr) : Prop :=
  json (parseLooseValue s) = true ∧ parseLooseValue (toValueText (parseLooseValue s)) = parseLooseValue s ∧
  (trim (toValueText (parseLooseValue s)) = [] → trim s = []).

(** ** Lemmas: operations that are saved and opened *)

Definition condition_ok (c : ParamOverrideCondition) : Prop := c_mode c ∈ CONDITION_MODE_VALUES.

Definition stable_condition (c : ParamOverrideCondition) : Prop := condition_ok c ∧ stable_text (c_value_text c).

Definition stable_operation (op : ParamOverrideOperation) : Prop :=
  o_mode op ∈ OPERATION_MODE_VALUES ∧ Forall stable_condition (o_conditions op) ∧ stable_text (o_value_text op).

(** What an opened condition holds. *)
Definition reopened_condition (seed : nat) (c : ParamOverrideCondition) : ParamOverrideCondition :=
  mkCondition seed (trim (c_path c)) (c_mode c) (toValueText (parseLooseValue (c_value_text c))) (c_invert c)
    (c_pass_missing_key c).

Lemma mode_kept modes d s : s ∈ modes → mode_or modes d (Str s) = s.
Proof. intros Hs. simpl. apply set_has_spec in Hs. by rewrite Hs. Qed.

Lemma mode_nonempty (modes : list jsstr) (s : jsstr) : ([] : jsstr) ∉ modes → s ∈ modes → str_or s (js "full") = s ∧ str_or s (js "set") = s.
Proof. intros Hn Hs. by destruct s. Qed.

Lemma condition_reopen seed c p : condition_ok c → buildConditionPayload c = Some p →
  normalizeCondition seed p = Some (reopened_condition seed c, S seed).
Proof.
  unfold condition_ok, buildConditionPayload. intros Hm.
  destruct (negb (truthy (trim (c_path c)))); [done|]. intros [= <-].
  destruct (mode_nonempty CONDITION_MODE_VALUES (c_mode c)) as [Hs _];
    [by apply (bool_decide_unpack _); vm_compute|done|].
  rewrite Hs. unfold reopened_condition. unfold normalizeCondition.
  set (v := Obj _). assert (get v (js "mode") = Str (c_mode c)) as -> by done.
  rewrite mode_kept by done. by destruct (c_invert c), (c_pass_missing_key c).
Qed.

Lemma condition_reopened_payload seed c p : stable_condition c → buildConditionPayload c = Some p →
  buildConditionPayload (reopened_condition seed c) = Some p.
Proof.
  intros (_ & Hj & Hs & _). unfold buildConditionPayload. simpl. rewrite trim_idemp, Hs. done.
Qed.

Fixpoint reopened_conditions (seed : nat) (cs : list ParamOverrideCondition) : list ParamOverrideCondition :=
  match cs with
  | [] => []
  | c :: rest =>
      match buildConditionPayload c with
      | Some _ => reopened_condition seed c :: reopened_conditions (S seed) rest
      | None => reopened_conditions seed rest
      end
  end.

Lemma omap_cons {A B} (f : A → option B) x l :
  omap f (x :: l) = match f x with Some y => y :: omap f l | None => omap f l end.
Proof. done. Qed.

Lemma conditions_reopen seed cs : Forall stable_condition cs →
  ∃ seed', (seed ≤ seed')%nat ∧
  map_fresh normalizeCondition seed (omap buildConditionPayload cs) = Some (reopened_conditions seed cs, seed').
Proof.
  intros Hcs. revert seed. induction Hcs as [|c cs [Hc Ht] _ IH]; intros seed; [by exists seed|].
  rewrite omap_cons. cbn [reopened_conditions].
  destruct (buildConditionPayload c) as [p|] eqn:E; [|apply IH].
  destruct (IH (S seed)) as (seed' & Hle & Hm). exists seed'. split; [lia|]. cbn [map_fresh].
  by rewrite (condition_reopen seed c p), Hm.
Qed.

Lemma conditions_reopened_payload seed cs : Forall stable_condition cs →
  omap buildConditionPayload (reopened_conditions seed cs) = omap buildConditionPayload cs.
Proof.
  intros Hcs. revert seed. induction Hcs as [|c cs Hc _ IH]; intros seed; [done|].
  rewrite omap_cons. cbn [reopened_conditions].
  destruct (buildConditionPayload c) as [p|] eqn:E; [|apply IH].
  rewrite omap_cons, (condition_reopened_payload seed c p) by done. f_equal. apply IH.
Qed.

(** The names of a payload, one by one. *)
Lemma payload_fields (m d p v k f t : value) (b1 b2 b3 b4 b5 b6 : bool) (cl : list (jsstr * value)) (c l : value) :
  cl = [] ∧ c = Undef ∧ l = Undef ∨ cl = [(js "conditions", c); (js "logic", l)] →
  let o := Obj ([(js "mode", m)] ++ entry b1 "description" d ++ entry b2 "path" p ++ entry b3 "value" v ++
    entry b4 "keep_origin" k ++ entry b5 "from" f ++ entry b6 "to" t ++ cl) in
  get o (js "mode") = m ∧ get o (js "description") = (if b1 then d else Undef) ∧
  get o (js "path") = (if b2 then p else Undef) ∧ get o (js "value") = (if b3 then v else Undef) ∧
  get o (js "keep_origin") = (if b4 then k else Undef) ∧ get o (js "from") = (if b5 then f else Undef) ∧
  get o (js "to") = (if b6 then t else Undef) ∧ get o (js "conditions") = c ∧ get o (js "logic") = l.
Proof. intros [(-> & -> & ->)| ->]; destruct b1, b2, b3, b4, b5, b6; by vm_compute. Qed.

(** What the payload of an operation says, and what it is opened as. *)
Definition path_out (m : Meta) (path : jsstr) : jsstr :=
  if m_path m || m_pathOptional m && truthy (trim path) then trim path else [].

Definition from_out (m : Meta) (from path : jsstr) : jsstr :=
  if m_from m || m_pathAlias m && truthy (trim path) then or_alias (m_pathAlias m) (trim from) (trim path) else [].

Definition to_out (m : Meta) (to path : jsstr) : jsstr :=
  if m_to m || truthy (trim to) || m_pathAlias m && truthy (trim path)
  then or_alias (m_pathAlias m) (trim to) (trim path) else [].

Definition written_path (op : ParamOverrideOperation) : jsstr := path_out (meta_of (mode_of op)) (o_path op).
Definition written_from (op : ParamOverrideOperation) : jsstr :=
  from_out (meta_of (mode_of op)) (o_from op) (o_path op).
Definition written_to (op : ParamOverrideOperation) : jsstr := to_out (meta_of (mode_of op)) (o_to op) (o_path op).

Definition written_logic (op : ParamOverrideOperation) : jsstr :=
  match omap buildConditionPayload (o_conditions op) with
  | [] => js "OR"
  | _ => if streq (o_logic op) (js "AND") then js "AND" else js "OR"
  end.

Definition reopened_operation (seed : nat) (op : ParamOverrideOperation) : ParamOverrideOperation :=
  let meta := meta_of (mode_of op) in
  mkOperation seed (trim (o_description op)) (written_path op) (o_mode op) (written_from op) (written_to op)
    (if m_value meta then toValueText (parseLooseValue (o_value_text op)) else [])
    (m_keepOrigin meta && o_keep_origin op) (written_logic op) (reopened_conditions (S seed) (o_conditions op)).

Lemma operation_mode op : o_mode op ∈ OPERATION_MODE_VALUES → mode_of op = o_mode op.
Proof.
  intros Hm. unfold mode_of. apply (mode_nonempty OPERATION_MODE_VALUES); [|done].
  by apply (bool_decide_unpack _); vm_compute.
Qed.

Lemma text_of_entry (b : bool) s : text_or_empty (if b then Str s else Undef) = if b then s else [].
Proof. by destruct b. Qed.

Lemma operation_reopen seed op : stable_operation op →
  ∃ seed', (seed < seed')%nat ∧ normalizeOperation seed (operation_payload op) = Some (reopened_operation seed op, seed').
Proof.
  intros (Hm & Hc & Hv). destruct (conditions_reopen (S seed) (o_conditions op) Hc) as (seed' & Hle & Hf).
  exists seed'. split; [lia|].
  unfold operation_payload. set (mode := mode_of op). set (meta := meta_of mode).
  set (cl := match omap buildConditionPayload (o_conditions op) with [] => [] | _ => _ end).
  set (cv := match omap buildConditionPayload (o_conditions op) with [] => Undef | l => Arr l end).
  set (lv := match omap buildConditionPayload (o_conditions op) with [] => Undef | _ => Str (written_logic op) end).
  assert (cl = [] ∧ cv = Undef ∧ lv = Undef ∨ cl = [(js "conditions", cv); (js "logic", lv)]) as Hcl.
  { unfold cl, cv, lv, written_logic. destruct (omap buildConditionPayload (o_conditions op)); auto. }
  destruct (payload_fields (Str mode) (Str (trim (o_description op))) (Str (trim (o_path op)))
    (parseLooseValue (o_value_text op)) (Bool true)
    (Str (or_alias (m_pathAlias meta) (trim (o_from op)) (trim (o_path op))))
    (Str (or_alias (m_pathAlias meta) (trim (o_to op)) (trim (o_path op))))
    (negb (blank (o_description op))) (m_path meta || m_pathOptional meta && truthy (trim (o_path op)))
    (m_value meta) (m_keepOrigin meta && o_keep_origin op)
    (m_from meta || m_pathAlias meta && truthy (trim (o_path op)))
    (m_to meta || truthy (trim (o_to op)) || m_pathAlias meta && truthy (trim (o_path op))) cl cv lv Hcl)
    as (G1 & G2 & G3 & G4 & G5 & G6 & G7 & G8 & G9).
  unfold normalizeOperation. rewrite G1, G2, G3, G4, G5, G6, G7, G8, G9. clear G1 G2 G3 G4 G5 G6 G7 G8 G9.
  assert (match cv with Arr l => map_fresh normalizeCondition (S seed) l | _ => Some ([], S seed) end =
    Some (reopened_conditions (S seed) (o_conditions op), seed')) as ->.
  { unfold cv. destruct (omap buildConditionPayload (o_conditions op)); done. }
  unfold mode. rewrite operation_mode, mode_kept by done. rewrite !text_of_entry.
  unfold reopened_operation, written_path, written_from, written_to, meta, mode.
  rewrite !operation_mode by done. do 2 f_equal. f_equal.
  - unfold blank. by destruct (trim (o_description op)).
  - by destruct (m_value (meta_of (o_mode op))).
  - by destruct (m_keepOrigin (meta_of (o_mode op)) && o_keep_origin op).
  - unfold lv, written_logic. destruct (omap buildConditionPayload (o_conditions op)); [done|].
    by destruct (streq (o_logic op) (js "AND")).
Qed.

(** Where a path stands for a missing header, both headers are written and the path is not. *)
Lemma meta_alias mode : let m := meta_of mode in
  m_pathAlias m = true → m_from m = true ∧ m_to m = true ∧ m_path m = false ∧ m_pathOptional m = false.
Proof.
  assert (∀ m, m ∈ map snd MODE_META → m_pathAlias m = true →
    m_from m = true ∧ m_to m = true ∧ m_path m = false ∧ m_pathOptional m = false) as Hall.
  { intros m Hm. repeat (apply elem_of_cons in Hm as [->|Hm]; [done|]). by apply elem_of_nil in Hm. }
  unfold meta_of. destruct (jm_get mode MODE_META) as [m|] eqn:E; [|done]. apply Hall.
  apply jm_get_Some_elem in E. by apply (list_elem_of_fmap_2 snd) in E.
Qed.

Lemma or_alias_trim b x y : trim (or_alias b (trim x) (trim y)) = or_alias b (trim x) (trim y).
Proof. unfold or_alias. case_match; apply trim_idemp. Qed.

(** Writing what was written changes nothing. *)
Lemma texts_rewritten mode path from to : let m := meta_of mode in
  let p := path_out m path in
  path_out m p = p ∧ from_out m (from_out m from path) p = from_out m from path ∧
  to_out m (to_out m to path) p = to_out m to path ∧
  (m_from m || m_pathAlias m && truthy (trim p) = m_from m || m_pathAlias m && truthy (trim path)) ∧
  (m_to m || truthy (trim (to_out m to path)) || m_pathAlias m && truthy (trim p) =
   m_to m || truthy (trim to) || m_pathAlias m && truthy (trim path)).
Proof.
  intros m p. pose proof (meta_alias mode) as Ha. fold m in Ha.
  assert (path_out m p = p) as Hp.
  { unfold p, path_out. destruct (m_path m) eqn:E1; simpl; [apply trim_idemp|].
    destruct (m_pathOptional m) eqn:E2; simpl; [|done].
    destruct (truthy (trim path)) eqn:E3; [by rewrite trim_idemp, E3|done]. }
  split; [exact Hp|]. destruct (m_pathAlias m) eqn:Eal.
  - destruct (Ha Eal) as (Ef & Et & E1 & E2).
    assert (p = []) as -> by (unfold p, path_out; by rewrite E1, E2).
    assert (∀ x, or_alias true x [] = x) as Ho by (intros x; unfold or_alias; by rewrite andb_false_r).
    unfold from_out, to_out. rewrite Ef, Et, Eal. cbn [orb]. change (trim []) with ([] : jsstr).
    by rewrite !or_alias_trim, !Ho.
  - unfold from_out, to_out. rewrite Eal. simpl. rewrite !orb_false_r. unfold or_alias. simpl.
    destruct (m_from m), (m_to m); simpl; rewrite ?trim_idemp; try done;
      destruct (truthy (trim to)) eqn:E3; rewrite ?trim_idemp, ?E3; done.
Qed.

Lemma path_rewritten m path :
  m_path m || m_pathOptional m && truthy (trim (path_out m path)) =
  m_path m || m_pathOptional m && truthy (trim path).
Proof.
  unfold path_out. destruct (m_path m); [done|]. simpl. destruct (m_pathOptional m); [|done]. simpl.
  destruct (truthy (trim path)) eqn:E; [by rewrite trim_idemp|done].
Qed.

(** The payload in terms of the texts written. *)
Definition payload_of (mode d : jsstr) (m : Meta) (p f t : jsstr) (bp bf bt : bool) (v : value) (keep : bool)
    (cs : list value) (logic : jsstr) : value :=
  Obj ([(js "mode", Str mode)] ++ entry (truthy d) "description" (Str d) ++ entry bp "path" (Str p) ++
       entry (m_value m) "value" v ++ entry (m_keepOrigin m && keep) "keep_origin" (Bool true) ++
       entry bf "from" (Str f) ++ entry bt "to" (Str t) ++
       match cs with [] => [] | _ => [(js "conditions", Arr cs); (js "logic", Str logic)] end).

Definition writes_path (op : ParamOverrideOperation) : bool :=
  let m := meta_of (mode_of op) in m_path m || m_pathOptional m && truthy (trim (o_path op)).
Definition writes_from (op : ParamOverrideOperation) : bool :=
  let m := meta_of (mode_of op) in m_from m || m_pathAlias m && truthy (trim (o_path op)).
Definition writes_to (op : ParamOverrideOperation) : bool :=
  let m := meta_of (mode_of op) in
  m_to m || truthy (trim (o_to op)) || m_pathAlias m && truthy (trim (o_path op)).

Lemma payload_written op : operation_payload op =
  payload_of (mode_of op) (trim (o_description op)) (meta_of (mode_of op)) (written_path op) (written_from op)
    (written_to op) (writes_path op) (writes_from op) (writes_to op) (parseLooseValue (o_value_text op))
    (o_keep_origin op) (omap buildConditionPayload (o_conditions op)) (written_logic op).
Proof.
  unfold operation_payload, payload_of, written_path, written_from, written_to, path_out, from_out, to_out,
    writes_path, writes_from, writes_to, blank, written_logic. rewrite negb_involutive.
  destruct (m_path _ || _), (m_from _ || _), (m_to _ || _ || _);
    by destruct (omap buildConditionPayload (o_conditions op)).
Qed.

Lemma payload_reopened seed op : stable_operation op →
  operation_payload (reopened_operation seed op) = operation_payload op.
Proof.
  intros (Hm & Hc & Hj & Hv & _). rewrite !payload_written.
  assert (mode_of (reopened_operation seed op) = mode_of op) as Hmode by (by rewrite !operation_mode).
  destruct (texts_rewritten (mode_of op) (o_path op) (o_from op) (o_to op)) as (H1 & H2 & H3 & H4 & H5).
  pose proof (path_rewritten (meta_of (mode_of op)) (o_path op)) as H6.
  unfold written_path, written_from, written_to, writes_path, writes_from, writes_to. rewrite Hmode.
  change (o_path (reopened_operation seed op)) with (path_out (meta_of (mode_of op)) (o_path op)).
  change (o_from (reopened_operation seed op)) with (from_out (meta_of (mode_of op)) (o_from op) (o_path op)).
  change (o_to (reopened_operation seed op)) with (to_out (meta_of (mode_of op)) (o_to op) (o_path op)).
  change (o_description (reopened_operation seed op)) with (trim (o_description op)).
  change (o_keep_origin (reopened_operation seed op)) with
    (m_keepOrigin (meta_of (mode_of op)) && o_keep_origin op).
  change (o_value_text (reopened_operation seed op)) with
    (if m_value (meta_of (mode_of op)) then toValueText (parseLooseValue (o_value_text op)) else []).
  rewrite H1, H2, H3, H4, H5, H6, trim_idemp. unfold written_logic.
  change (o_conditions (reopened_operation seed op)) with (reopened_conditions (S seed) (o_conditions op)).
  change (o_logic (reopened_operation seed op)) with (written_logic op).
  rewrite conditions_reopened_payload by done. unfold payload_of, written_logic.
  destruct (m_keepOrigin _); simpl; rewrite ?Hv;
    destruct (m_value (meta_of (mode_of op))), (omap buildConditionPayload (o_conditions op)); simpl; rewrite ?Hv; try done;
    by destruct (streq (o_logic op) (js "AND")).
Qed.

(** What a mode requires it also writes. *)
Definition mode_consistent (mode : jsstr) : bool :=
  let m := meta_of mode in
  implb (set_has FROM_REQUIRED_MODES mode) (m_from m) && implb (set_has TO_REQUIRED_MODES mode) (m_to m) &&
  implb (set_has VALUE_REQUIRED_MODES mode) (m_value m) &&
  implb (streq mode (js "return_error") || streq mode (js "prune_objects") || streq mode (js "pass_headers"))
    (set_has VALUE_REQUIRED_MODES mode) &&
  implb (streq mode (js "set")) (m_path m).

Lemma modes_consistent mode : mode ∈ OPERATION_MODE_VALUES → mode_consistent mode = true.
Proof.
  intros Hm. assert (forallb mode_consistent OPERATION_MODE_VALUES = true) as Hall by (by vm_compute).
  rewrite forallb_forall in Hall. by apply Hall, list_elem_of_In.
Qed.

Lemma mode_facts mode : mode ∈ OPERATION_MODE_VALUES →
  (set_has FROM_REQUIRED_MODES mode = true → m_from (meta_of mode) = true) ∧
  (set_has TO_REQUIRED_MODES mode = true → m_to (meta_of mode) = true) ∧
  (set_has VALUE_REQUIRED_MODES mode = true → m_value (meta_of mode) = true) ∧
  (streq mode (js "return_error") = true ∨ streq mode (js "prune_objects") = true ∨
   streq mode (js "pass_headers") = true → set_has VALUE_REQUIRED_MODES mode = true) ∧
  (streq mode (js "set") = true → m_path (meta_of mode) = true).
Proof.
  intros Hm. apply modes_consistent in Hm. unfold mode_consistent in Hm.
  apply andb_true_iff in Hm as [Hm H5]. apply andb_true_iff in Hm as [Hm H4].
  apply andb_true_iff in Hm as [Hm H3]. apply andb_true_iff in Hm as [H1 H2].
  split_and!.
  - intros E. by rewrite E in H1.
  - intros E. by rewrite E in H2.
  - intros E. by rewrite E in H3.
  - intros E. assert (∀ a b c, a = true ∨ b = true ∨ c = true → a || b || c = true) as Ho
      by (intros [] [] []; naive_solver). by rewrite (Ho _ _ _ E) in H4.
  - intros E. by rewrite E in H5.
Qed.

Lemma loose_trim s : parseLooseValue (trim s) = parseLooseValue s.
Proof. unfold parseLooseValue. by rewrite trim_idemp. Qed.

(** A custom error keeps its message. *)
Lemma error_reopened s : stable_text s → trim s ≠ [] →
  error_without_message (trim (toValueText (parseLooseValue s))) = true → error_without_message (trim s) = true.
Proof.
  intros (Hj & Hs & _) Hn. unfold parseLooseValue in *.
  destruct (streq (trim s) []) eqn:E; [by apply streq_spec in E|].
  unfold error_without_message. destruct (JSON_parse (trim s)) as [v|] eqn:Ep.
  - destruct v as [| | | |str| |fs]; simpl in *; try (rewrite stringify_trimmed, parse_stringify by done; done).
    + by destruct (parse_defined (trim s)).
    + destruct (streq (trim str) []); [injection Hs as <-; by rewrite (parse_blank []) by done|].
      destruct (JSON_parse (trim str)); [by simplify_eq|done].
  - simpl. rewrite trim_idemp, Ep. done.
Qed.

Lemma nonblank_alias al x y : negb (truthy (trim x)) && negb (al && truthy (trim y)) = false →
  truthy (or_alias al (trim x) (trim y)) = true.
Proof.
  unfold or_alias. destruct (truthy (trim x)) eqn:E; simpl; [by rewrite andb_false_r|].
  destruct al; simpl; [|done]. by destruct (truthy (trim y)) eqn:E2.
Qed.

(** A rule that passes the checks. *)
Definition passes (op : ParamOverrideOperation) : Prop :=
  let mode := mode_of op in
  let m := meta_of mode in
  let alias := m_pathAlias m && truthy (trim (o_path op)) in
  let raw := trim (o_value_text op) in
  (m_path m = true → trim (o_path op) ≠ []) ∧
  (set_has FROM_REQUIRED_MODES mode = true → blank (o_from op) && negb alias = false) ∧
  (set_has TO_REQUIRED_MODES mode = true → blank (o_to op) && negb alias = false) ∧
  (set_has VALUE_REQUIRED_MODES mode = true → raw ≠ []) ∧
  (mode = js "return_error" → raw ≠ [] ∧ error_without_message raw = false) ∧
  (mode = js "prune_objects" → raw ≠ []) ∧
  (mode = js "pass_headers" → raw ≠ [] ∧ parsePassHeaderNames (parseLooseValue raw) ≠ []).

Lemma when_none {A} (b : bool) (m : A) k : (if b then Some m else k) = None ↔ b = false ∧ k = None.
Proof. destruct b; naive_solver. Qed.

Lemma and_false (a b : bool) : a && b = false ↔ (a = true → b = false).
Proof. destruct a, b; naive_solver. Qed.

Lemma negb_truthy_false s : negb (truthy s) = false ↔ s ≠ [].
Proof. by rewrite negb_false_iff, truthy_spec. Qed.

Lemma validate_passes op : validateOperation op = None ↔ passes op.
Proof.
  unfold validateOperation, passes. rewrite !when_none.
  rewrite <-!andb_assoc, !(and_false (m_path _)), !(and_false (set_has _ _)), !(and_false (streq _ _)).
  rewrite !negb_truthy_false, !streq_spec.
  assert (streq (trim (o_value_text op)) [] = false ↔ trim (o_value_text op) ≠ []) as ->
    by (rewrite <-not_true_iff_false, streq_spec; done).
  assert (∀ l : list jsstr, match l with [] => true | _ => false end = false ↔ l ≠ []) as Hl
    by (intros []; naive_solver).
  rewrite Hl. naive_solver.
Qed.

Lemma passes_reopened seed op : stable_operation op → passes op → passes (reopened_operation seed op).
Proof.
  intros (Hm & Hc & Ht) (P1 & P2 & P3 & P4 & P5 & P6 & P7).
  destruct (mode_facts (mode_of op)) as (F1 & F2 & F3 & F4 & F5); [by rewrite operation_mode|].
  pose proof (meta_alias (mode_of op)) as Hal. cbv zeta in Hal. pose proof Ht as (_ & Hs & Hblank).
  unfold passes. assert (mode_of (reopened_operation seed op) = mode_of op) as -> by (by rewrite !operation_mode).
  set (m := meta_of (mode_of op)) in *. set (raw := trim (o_value_text (reopened_operation seed op))).
  assert (Hraw : set_has VALUE_REQUIRED_MODES (mode_of op) = true →
    o_value_text (reopened_operation seed op) = toValueText (parseLooseValue (o_value_text op)))
    by (intros Hv; simpl; fold m; by rewrite (F3 Hv)).
  assert (Hne : set_has VALUE_REQUIRED_MODES (mode_of op) = true → raw ≠ []).
  { intros Hv E. unfold raw in E. rewrite (Hraw Hv) in E. by apply (P4 Hv), Hblank. }
  assert (Hmode : ∀ k, streq (mode_of op) k = true ↔ mode_of op = k) by (intros k; apply streq_spec).
  split_and!.
  - intros Hp. simpl. unfold written_path, path_out. fold m. rewrite Hp. simpl. rewrite trim_idemp. by apply P1.
  - intros Hf. specialize (P2 Hf). simpl. unfold written_from, from_out. fold m. rewrite (F1 Hf). simpl.
    unfold blank in *. rewrite or_alias_trim, nonblank_alias by done. done.
  - intros Hf. specialize (P3 Hf). simpl. unfold written_to, to_out. fold m. rewrite (F2 Hf). simpl.
    unfold blank in *. rewrite or_alias_trim, nonblank_alias by done. done.
  - done.
  - intros E. assert (set_has VALUE_REQUIRED_MODES (mode_of op) = true) as Hv
      by (apply F4; left; by apply Hmode). split; [by apply Hne|]. destruct (P5 E) as [Hn He].
    apply not_true_iff_false. intros He'. unfold raw in He'. rewrite (Hraw Hv) in He'.
    apply error_reopened in He'; [congruence|done..].
  - intros E. apply Hne, F4. right. left. by apply Hmode.
  - intros E. assert (set_has VALUE_REQUIRED_MODES (mode_of op) = true) as Hv
      by (apply F4; right; right; by apply Hmode). split; [by apply Hne|]. destruct (P7 E) as [_ Hh].
    unfold raw. rewrite (Hraw Hv), loose_trim, Hs. by rewrite loose_trim in Hh.
Qed.

Lemma passing_not_blank op : o_mode op ∈ OPERATION_MODE_VALUES → passes op → isOperationBlank op = false.
Proof.
  intros Hm (P1 & _). unfold isOperationBlank. destruct (streq (o_mode op) (js "set")) eqn:E; [|done].
  destruct (mode_facts (mode_of op)) as (_ & _ & _ & _ & F5); [by rewrite operation_mode|].
  assert (trim (o_path op) ≠ []) as Hp by (apply P1, F5; by rewrite operation_mode).
  apply truthy_spec in Hp. unfold blank at 1. by rewrite Hp.
Qed.

(** ** Lemmas: what is written is JSON *)

Definition json_entries (l : list (jsstr * value)) : Prop :=
  Forall (λ kv, negb (index_like (fst kv)) && json (snd kv) = true) l.

Lemma json_entry b k v : index_like (js k) = false → (b = true → json v = true) → json_entries (entry b k v).
Proof. intros Hk Hv. destruct b; [|constructor]. repeat constructor. simpl. rewrite Hk. by apply Hv. Qed.

Lemma json_fields l : NoDup (map fst l) → json_entries l → json (Obj l) = true.
Proof.
  intros Hn Hl. simpl. apply andb_true_iff. split; [by apply bool_decide_eq_true|]. by apply forallb_Forall.
Qed.

Lemma json_condition c p : stable_condition c → buildConditionPayload c = Some p → json p = true.
Proof.
  intros (_ & Hj & _) Hp. unfold buildConditionPayload in Hp.
  destruct (negb (truthy (trim (c_path c)))); [done|]. injection Hp as <-. apply json_fields.
  - destruct (c_invert c), (c_pass_missing_key c); apply (bool_decide_unpack _); by vm_compute.
  - unfold json_entries. repeat (apply Forall_cons; split); [done|done|simpl; by rewrite Hj|].
    apply Forall_app; split; by apply json_entry.
Qed.

Lemma json_conditions cs : Forall stable_condition cs →
  forallb json (omap buildConditionPayload cs) = true.
Proof.
  induction 1 as [|c cs Hc _ IH]; [done|]. rewrite omap_cons.
  destruct (buildConditionPayload c) as [p|] eqn:E; [|done]. simpl. by rewrite (json_condition c p), IH.
Qed.

Lemma json_payload op : stable_operation op → json (operation_payload op) = true.
Proof.
  intros (Hm & Hc & Hj & _). rewrite payload_written. unfold payload_of. apply json_conditions in Hc.
  apply json_fields.
  - destruct (truthy (trim (o_description op))), (writes_path op), (m_value _), (m_keepOrigin _ && _),
      (writes_from op), (writes_to op), (omap buildConditionPayload (o_conditions op));
      apply (bool_decide_unpack _); by vm_compute.
  - unfold json_entries. repeat (apply Forall_app; split); try (by apply json_entry).
    + by repeat constructor.
    + destruct (omap buildConditionPayload (o_conditions op)) as [|p ps]; [constructor|].
      repeat (apply Forall_cons; split); [..|by apply Forall_nil]; [|done]. simpl. exact Hc.
Qed.

Lemma json_operations ops : Forall stable_operation ops → json (operations_value ops) = true.
Proof.
  intros Hops. assert (forallb json (map operation_payload ops) = true) as Hj.
  { induction Hops as [|op ops Ho _ IH]; [done|]. cbn [map forallb]. by rewrite json_payload, IH. }
  apply json_fields; [apply NoDup_singleton|]. apply Forall_singleton. exact Hj.
Qed.

Lemma operations_reopen ops seed : Forall stable_operation ops →
  ∃ ops' seed', map_fresh normalizeOperation seed (map operation_payload ops) = Some (ops', seed') ∧
    Forall2 (λ op op', ∃ n, op' = reopened_operation n op) ops ops'.
Proof.
  intros Hops. revert seed. induction Hops as [|op ops Ho _ IH]; intros seed; [by exists [], seed|].
  destruct (operation_reopen seed op Ho) as (seed1 & _ & H1). destruct (IH seed1) as (ops' & seed2 & H2 & Hf).
  exists (reopened_operation seed op :: ops'), seed2. cbn [map map_fresh]. rewrite H1, H2.
  split; [done|]. constructor; [by eexists|done].
Qed.

Lemma validate_from_None n ops : validate_from n ops = None ↔ Forall passes ops.
Proof.
  revert n. induction ops as [|op ops IH]; intros n; simpl; [by split|].
  rewrite Forall_cons, <-validate_passes, <-(IH (S n)). destruct (validateOperation op); naive_solver.
Qed.

(** A list of rules that is written whole, checks included. *)
Lemma build_passing ops : ops ≠ [] → Forall (λ o, o_mode o ∈ OPERATION_MODE_VALUES) ops → Forall passes ops →
  buildOperationsJson ops true = Ok (JSON_pretty (operations_value ops)).
Proof.
  intros Hn Hm Hp. unfold buildOperationsJson.
  assert (List.filter (λ o, negb (isOperationBlank o)) ops = ops) as ->.
  { rewrite filter_bool. apply filter_all. apply Forall_forall. intros op Hin.
    rewrite Forall_forall in Hm, Hp. by rewrite passing_not_blank by auto. }
  apply (validate_from_None 1) in Hp. unfold validateOperations. rewrite Hp. by destruct ops.
Qed.

Lemma build_Ok ops text : buildOperationsJson ops true = Ok text → text ≠ [] →
  let kept := List.filter (λ o, negb (isOperationBlank o)) ops in
  kept ≠ [] ∧ Forall passes kept ∧ text = JSON_pretty (operations_value kept).
Proof.
  unfold buildOperationsJson, validateOperations.
  destruct (List.filter _ ops) as [|op kept] eqn:E; [by intros [= <-]|].
  destruct (validate_from 1 (op :: kept)) eqn:Ev; [done|]. intros [= <-] _.
  split_and!; [done|by apply validate_from_None in Ev|done].
Qed.

(** The text of a value, as typed: anything that is no JSON, or JSON that is no string (its
    numbers finite and no key an array index, which [JSON.parse] would move), or a quoted string
    that is not blank, not padded and not itself JSON. *)
Definition plain_text (s : jsstr) : Prop :=
  ∀ v, JSON_parse (trim s) = Some v →
    json v = true ∧ ∀ str, v = Str str → trim str = str ∧ str ≠ [] ∧ JSON_parse str = None.

Definition plain_condition (c : ParamOverrideCondition) : Prop :=
  c_mode c ∈ CONDITION_MODE_VALUES ∧ plain_text (c_value_text c).

Definition plain_operation (op : ParamOverrideOperation) : Prop :=
  o_mode op ∈ OPERATION_MODE_VALUES ∧ Forall plain_condition (o_conditions op) ∧ plain_text (o_value_text op).

(** The value read from such a text is written as a text that is read as the same value. *)
Lemma plain_stable s : plain_text s → stable_text s.
Proof.
  intros Hp. unfold stable_text. unfold parseLooseValue at 1 3 4 5.
  destruct (streq (trim s) []) eqn:E; [apply streq_spec in E; by rewrite E|].
  assert (trim s ≠ []) as Hne by (intros H0; by rewrite H0 in E).
  destruct (JSON_parse (trim s)) as [v|] eqn:Ep.
  - destruct (Hp v Ep) as [Hj Hs].
    assert (v ≠ Undef) as Hu by (intros ->; by apply (parse_defined (trim s))).
    split_and!; [done| |].
    + apply opened_value; [done|]. intros str ->. destruct (Hs str eq_refl) as (Ht & _ & Hn). by left.
    + intros Hb. exfalso. destruct v as [| | | |str| |]; simpl in Hb; [done|..]; try (by apply stringify_nonblank in Hb).
      destruct (Hs str eq_refl) as (Ht & Hn & _). congruence.
  - simpl. split_and!; [done| |by rewrite trim_idemp].
    apply loose_string. left. by rewrite trim_idemp.
Qed.

Lemma plain_stable_operation op : plain_operation op → stable_operation op.
Proof.
  intros (Hm & Hc & Ht). split_and!; [done| |by apply plain_stable].
  eapply Forall_impl; [exact Hc|]. intros c [Hcm Hct]. split; [exact Hcm|by apply plain_stable].
Qed.

(** [C26] Rules that are saved open as they were: a text the editor saved is opened as rules
    again, with the same payloads, which pass the checks and are saved as the same text. The
    texts of their values are plain: no JSON, JSON that is no string, or a quoted string that
    is not blank, not padded and not itself JSON (such a string is opened as another value). *)
Theorem override_reopens (ops : list ParamOverrideOperation) (text : jsstr) (seed : nat) :
  Forall plain_operation (List.filter (λ o, negb (isOperationBlank o)) ops) →
  buildOperationsJson ops true = Ok text → text ≠ [] →
  ∃ ops' seed',
    parseInitialState seed text = Some (mkInitial Visual OperationsMode [] ops' text None, seed') ∧
    map operation_payload ops' = map operation_payload (List.filter (λ o, negb (isOperationBlank o)) ops) ∧
    buildOperationsJson ops' true = Ok text.
Proof.
  intros Hpl Hb Hne. destruct (build_Ok _ _ Hb Hne) as (Hk & Hp & ->).
  pose proof (Forall_impl _ _ _ Hpl plain_stable_operation) as Hst. clear Hpl.
  set (kept := List.filter _ ops) in *. assert (operations_value kept ≠ Undef) as Hd by done.
  destruct (operations_reopen kept seed Hst) as (ops' & seed' & Hr & Hf). exists ops', seed'.
  assert (map operation_payload ops' = map operation_payload kept) as Hmap.
  { clear Hb Hne Hk Hp Hr Hd. clearbody kept. induction Hf as [|op op' l l' [n ->] _ IH]; [done|].
    inversion_clear Hst. cbn [map]. rewrite payload_reopened by done. f_equal. by apply IH. }
  assert (ops' ≠ []) as Hn' by (intros ->; by inversion Hf; congruence).
  split_and!; [|done|].
  - unfold parseInitialState. rewrite pretty_trimmed by done.
    assert (truthy (JSON_pretty (operations_value kept)) = true) as -> by (by apply truthy_spec).
    cbn [negb]. rewrite parse_pretty by (by apply json_operations).
    change (get (operations_value kept) (js "operations")) with (Arr (map operation_payload kept)).
    unfold operations_value at 1. unfold read_operations. destruct kept as [|op kept']; [done|].
    cbn [map] in *. by rewrite Hr.
  - rewrite build_passing; [unfold operations_value; by rewrite Hmap|done|..].
    + clear -Hf Hst. induction Hf as [|op op' l l' [n ->] _ IH]; [done|].
      inversion_clear Hst as [|? ? Ho]. constructor; [apply Ho|by apply IH].
    + clear -Hf Hst Hp laws. induction Hf as [|op op' l l' [n ->] _ IH]; [done|].
      inversion_clear Hst. inversion_clear Hp. constructor; [by apply passes_reopened|by apply IH].
Qed.

(** The value in the payload of an operation. *)
Lemma payload_value op : m_value (meta_of (mode_of op)) = true →
  get (operation_payload op) (js "value") = parseLooseValue (o_value_text op).
Proof.
  intros Hv. rewrite payload_written. unfold payload_of.
  destruct (payload_fields (Str (mode_of op)) (Str (trim (o_description op))) (Str (written_path op))
    (parseLooseValue (o_value_text op)) (Bool true) (Str (written_from op)) (Str (written_to op))
    (truthy (trim (o_description op))) (writes_path op) (m_value (meta_of (mode_of op)))
    (m_keepOrigin (meta_of (mode_of op)) && o_keep_origin op) (writes_from op) (writes_to op)
    (match omap buildConditionPayload (o_conditions op) with [] => [] | _ =>
       [(js "conditions", Arr (omap buildConditionPayload (o_conditions op))); (js "logic", Str (written_logic op))] end)
    (match omap buildConditionPayload (o_conditions op) with [] => Undef | _ =>
       Arr (omap buildConditionPayload (o_conditions op)) end)
    (match omap buildConditionPayload (o_conditions op) with [] => Undef | _ => Str (written_logic op) end))
    as (_ & _ & _ & G & _).
  { destruct (omap buildConditionPayload (o_conditions op)); auto. }
  rewrite G. by rewrite Hv.
Qed.

Lemma normalized_operation seed seed' v op : normalizeOperation seed v = Some (op, seed') →
  o_mode op ∈ OPERATION_MODE_VALUES ∧ o_value_text op = toValueText (get v (js "value")) ∧
  o_mode op = mode_or OPERATION_MODE_VALUES (js "set") (get v (js "mode")).
Proof.
  assert (Hmode : ∀ w, mode_or OPERATION_MODE_VALUES (js "set") w ∈ OPERATION_MODE_VALUES).
  { intros w. unfold mode_or. destruct w; try by left.
    destruct (set_has OPERATION_MODE_VALUES s) eqn:E; [by apply set_has_spec|by left]. }
  unfold normalizeOperation. destruct v; try done.
  all: destruct (match get _ (js "conditions") with Arr _ => _ | _ => _ end) as [ [cs next]|]; [|done];
    intros [= <- <-]; split_and!; [first [apply Hmode|exact (Hmode Undef)]|done|done].
Qed.

(** What becomes of the value of a rule that is opened and saved without being touched:
    it is the value it was exactly when it is no string, or a trimmed string that is not itself
    JSON. A string such as [true] or [8], or one with spaces around it, is saved as another
    value; and a copy of a rule is saved with the value of its original exactly then. *)
Theorem opened_value_saved (seed seed' : nat) (v : value) (op : ParamOverrideOperation) :
  normalizeOperation seed v = Some (op, seed') →
  m_value (meta_of (o_mode op)) = true →
  json (get v (js "value")) = true →
  let unchanged (w : value) :=
    ∀ s, w = Str s → trim s = s ∧ JSON_parse s = None ∨ JSON_parse (trim s) = Some (Str s) in
  (get (operation_payload op) (js "value") = get v (js "value") ↔ unchanged (get v (js "value"))) ∧
  (∀ n n' copy, normalizeOperation n (duplicate_value op) = Some (copy, n') →
     json (get (operation_payload op) (js "value")) = true →
     get (operation_payload copy) (js "value") = get (operation_payload op) (js "value") ↔
     unchanged (get (operation_payload op) (js "value"))).
Proof.
  intros Hop Hm Hj unchanged. destruct (normalized_operation _ _ _ _ Hop) as (Hmode & Ht & _).
  assert (mode_of op = o_mode op) as Hmo by (by apply operation_mode).
  assert (get (operation_payload op) (js "value") = parseLooseValue (o_value_text op)) as Hp
    by (apply payload_value; by rewrite Hmo).
  split; [rewrite Hp, Ht; by apply opened_value|].
  intros n n' copy Hcopy Hj'. destruct (normalized_operation _ _ _ _ Hcopy) as (Hmode' & Ht' & Hm').
  change (get (duplicate_value op) (js "mode")) with (Str (o_mode op)) in Hm'. rewrite mode_kept in Hm' by done.
  rewrite payload_value by (rewrite operation_mode by done; by rewrite Hm').
  rewrite Ht', Hp. rewrite Hp in Hj'.
  change (get (duplicate_value op) (js "value")) with (parseLooseValue (o_value_text op)).
  by apply opened_value.
Qed.

End Laws.

End Editor.

(** ** Concrete rules *)

#[local] Existing Instance sample_json.
#[local] Existing Instance sample_json_laws.

(** A rule with a condition, and a blank one that is not saved. *)
Definition sample_rules : list ParamOverrideOperation :=
  [mkOperation 1 [] (js "temperature") (js "set") [] [] (JSON_stringify (Bool true)) true (js "AND")
     [mkCondition 2 (js "model") (js "prefix") (js "gpt") false true];
   createDefaultOperation 3].

Lemma override_reopens_witness :
  ∃ text ops' seed',
    buildOperationsJson sample_rules true = Ok text ∧
    parseInitialState 9 text = Some (mkInitial Visual OperationsMode [] ops' text None, seed') ∧
    buildOperationsJson ops' true = Ok text.
Proof.
  destruct (buildOperationsJson sample_rules true) as [text|] eqn:E; [|by vm_compute in E].
  destruct (override_reopens sample_rules text 9) as (ops' & seed' & Hp & _ & Hb).
  - apply Forall_singleton. split_and!; [by vm_compute; left| |].
    + apply Forall_singleton. split; [apply (bool_decide_unpack _); by vm_compute|]. intros v Hv.
      by vm_compute in Hv.
    + intros v Hv. vm_compute in Hv. injection Hv as <-. done.
  - exact E.
  - intros ->. by vm_compute in E.
  - exists text, ops', seed'. done.
Defined.

(** A string that is itself JSON does not come back. *)
Lemma opened_value_saved_witness :
  let v s := Obj [(js "mode", Str (js "set")); (js "path", Str (js "user")); (js "value", Str s)] in
  ∃ op1 op2, normalizeOperation 0 (v (js "gpt")) = Some (op1, 1) ∧
    get (operation_payload op1) (js "value") = Str (js "gpt") ∧
    normalizeOperation 0 (v (js "{}")) = Some (op2, 1) ∧
    get (operation_payload op2) (js "value") ≠ Str (js "{}").
Proof.
  intros v.
  destruct (normalizeOperation 0 (v (js "gpt"))) as [ [op1 n1]|] eqn:E1; [|done].
  destruct (normalizeOperation 0 (v (js "{}"))) as [ [op2 n2]|] eqn:E2; [|done].
  exists op1, op2. vm_compute in E1, E2. injection E1 as <- <-. injection E2 as <- <-.
  split_and!; [done| |done|].
  - apply (opened_value_saved 0 1 (v (js "gpt"))); [done..|]. intros s [= <-]. by left.
  - intros Hs. destruct (opened_value_saved 0 1 (v (js "{}")) _ eq_refl eq_refl eq_refl) as [ [Hv _] _].
    destruct (Hv Hs _ eq_refl) as [ [_ Hn]|Hn]; by vm_compute in Hn.
Defined.

End ParamOverride.
