(* ===== verification/OverrideEditor.v ===== *)
(** * The dialog of parameter overrides as a state machine
      (web/src/features/channels/components/dialogs/param-override-editor-dialog.tsx)

    The events of the dialog of [ParamOverride], an invariant of its state, the order of the
    rules, and what the editing of the rules of a pruning does. *)
From S2P Require Import Prelude JsString JsMap JsValue Json ParamOverride.

Module OverrideEditor.
Import Json ParamOverride.

Section Machine.
Context `{Json}.

(** ** Events *)

Inductive Event :=
| EUpdate (id : nat) (p : OperationPatch)
| EAdd
| EDuplicate (id : nat)
| ERemove (id : nat)
| EAddCondition (id : nat)
| EUpdateCondition (id c : nat) (p : ConditionPatch)
| ERemoveCondition (id c : nat)
| EErrorDraft (id : nat) (patch : ReturnErrorDraft → ReturnErrorDraft)
| EPruneDraft (id : nat) (patch : PruneObjectsDraft → PruneObjectsDraft)
| EAddPruneRule (id : nat)
| EUpdatePruneRule (id rule : nat) (p : ConditionPatch)
| ERemovePruneRule (id rule : nat)
| ERenderPrune (id : nat)
| EDragStart (id : nat)
| EDragOver (id : nat) (p : Position)
| EDrop (id : nat) (data : option nat)
| EToJson
| EToVisual
| EFill (append : bool) (preset : PresetKind * value)
| EReset
| ELegacyChange (text : jsstr)
| EJsonChange (text : jsstr)
| ESave.

(** [None]: the handler throws. The effect on the selection runs after it. *)
Definition handle (e : EditorState) (ev : Event) : option EditorState :=
  match ev with
  | EUpdate id p => Some (updateOperation id p e)
  | EAdd => Some (addOperation e)
  | EDuplicate id => Some (duplicateOperation id e)
  | ERemove id => Some (removeOperation id e)
  | EAddCondition id => Some (addCondition id e)
  | EUpdateCondition id c p => Some (updateCondition id c p e)
  | ERemoveCondition id c => Some (removeCondition id c e)
  | EErrorDraft id patch => Some (updateReturnErrorDraft id patch e)
  | EPruneDraft id patch => Some (updatePruneObjectsDraft id (λ d n, (patch d, n)) e)
  | EAddPruneRule id => Some (addPruneRule id e)
  | EUpdatePruneRule id rule p => Some (updatePruneRule id rule p e)
  | ERemovePruneRule id rule => Some (removePruneRule id rule e)
  | ERenderPrune id => Some (snd (render_prune id e))
  | EDragStart id => Some (handleDragStart id e)
  | EDragOver id p => Some (handleDragOver id p e)
  | EDrop id data => Some (handleDrop id data e)
  | EToJson => Some (switchToJsonMode e)
  | EToVisual => switchToVisualMode e
  | EFill append preset => fillTemplate append preset e
  | EReset => Some (resetEditorState e)
  | ELegacyChange text => Some (set_mode (editMode e) (visualMode e) text e)
  | EJsonChange text => Some (handleJsonChange text e)
  | ESave => Some (handleSave e)
  end.

Definition step (e : EditorState) (ev : Event) : option EditorState := keep_selection <$> handle e ev.

Fixpoint run (e : EditorState) (es : list Event) : option EditorState :=
  match es with
  | [] => Some e
  | ev :: rest => step e ev ≫= λ e', run e' rest
  end.

(** The editor offers the modes and the logic from lists, and templates have rules. *)
Definition wf_event (ev : Event) : Prop :=
  match ev with
  | EUpdate _ (PMode s) => s ∈ OPERATION_MODE_VALUES
  | EUpdate _ (PLogic s) => s = js "AND" ∨ s = js "OR"
  | EUpdateCondition _ _ (CMode s) => s ∈ CONDITION_MODE_VALUES
  | EFill _ (OperationsPreset, payload) =>
      ∃ v l, get payload (js "operations") = Arr (v :: l)
  | _ => True
  end.

(** ** The invariant *)

(** A condition of a page whose next identifier is [n]. *)
Definition cond_ok (n : nat) (c : ParamOverrideCondition) : Prop :=
  c_id c < n ∧ c_mode c ∈ CONDITION_MODE_VALUES.

Definition op_ok (n : nat) (o : ParamOverrideOperation) : Prop :=
  o_id o < n ∧ o_mode o ∈ OPERATION_MODE_VALUES ∧ (o_logic o = js "AND" ∨ o_logic o = js "OR") ∧
  Forall (cond_ok n) (o_conditions o) ∧ NoDup (map c_id (o_conditions o)).

Definition ops_ok (n : nat) (l : list ParamOverrideOperation) : Prop :=
  NoDup (map o_id l) ∧ Forall (op_ok n) l.

Definition inv (e : EditorState) : Prop :=
  operations e ≠ [] ∧ ops_ok (localIdSeed e) (operations e).

Definition selection_ok (e : EditorState) : Prop :=
  ∃ id, selectedOperationId e = Some id ∧ id ∈ map o_id (operations e).

Lemma cond_ok_mono n n' c : n ≤ n' → cond_ok n c → cond_ok n' c.
Proof. unfold cond_ok. intros ? [? ?]. split; [lia|done]. Qed.

Lemma op_ok_mono n n' o : n ≤ n' → op_ok n o → op_ok n' o.
Proof.
  unfold op_ok. intros ? (? & ? & ? & Hc & ?). split_and!; try done; [lia|].
  eapply Forall_impl; [exact Hc|]. intros c. by apply cond_ok_mono.
Qed.

Lemma ops_ok_mono n n' l : n ≤ n' → ops_ok n l → ops_ok n' l.
Proof. intros Hn [H1 H2]. split; [done|]. eapply Forall_impl; [exact H2|]. intros o. by apply op_ok_mono. Qed.

(** Reading a list numbers what it reads. *)
Lemma map_fresh_ok {A B} (id : B → nat) (ok : nat → B → Prop) (f : nat → A → option (B * nat)) :
  (∀ n n' y, n ≤ n' → ok n y → ok n' y) →
  (∀ n x y n', f n x = Some (y, n') → id y = n ∧ n < n' ∧ ok n' y) →
  ∀ l n ys n', map_fresh f n l = Some (ys, n') →
    n ≤ n' ∧ NoDup (map id ys) ∧ Forall (λ y, n ≤ id y < n') ys ∧ Forall (ok n') ys.
Proof.
  intros Hmono Hf l. induction l as [|x l IH]; intros n ys n'; simpl.
  - intros [= <- <-]. split_and!; [done|constructor..].
  - destruct (f n x) as [ [y n1]|] eqn:E1; [|done]. destruct (map_fresh f n1 l) as [ [ys1 n2]|] eqn:E2; [|done].
    intros [= <- <-]. destruct (Hf _ _ _ _ E1) as (Hy & Hlt & Hok).
    destruct (IH _ _ _ E2) as (Hle & Hnd & Hid & Hall). simpl. split_and!.
    + lia.
    + constructor; [|done]. intros Hin. apply list_elem_of_fmap in Hin as (z & Ez & Hz).
      rewrite Forall_forall in Hid. specialize (Hid z Hz). lia.
    + constructor; [lia|]. eapply Forall_impl; [exact Hid|]. intros z Hz. simpl in Hz. lia.
    + constructor; [|done]. by eapply Hmono.
Qed.

Lemma mode_or_in modes d v : d ∈ modes → mode_or modes d v ∈ modes.
Proof.
  intros Hd. unfold mode_or. destruct v; try done. destruct (set_has modes s) eqn:E; [by apply set_has_spec|done].
Qed.

Lemma normalizeCondition_ok n v c n' :
  normalizeCondition n v = Some (c, n') → c_id c = n ∧ n < n' ∧ cond_ok n' c.
Proof.
  assert (Hm : ∀ w, mode_or CONDITION_MODE_VALUES (js "full") w ∈ CONDITION_MODE_VALUES)
    by (intros w; apply mode_or_in; by left).
  unfold normalizeCondition. destruct v; try done.
  all: intros [= <- <-]; unfold cond_ok; simpl; split_and!; try lia.
  all: first [apply (Hm Undef) | apply Hm].
Qed.

Lemma normalizeOperation_ok n v o n' :
  normalizeOperation n v = Some (o, n') → o_id o = n ∧ n < n' ∧ op_ok n' o.
Proof.
  assert (Hm : ∀ w, mode_or OPERATION_MODE_VALUES (js "set") w ∈ OPERATION_MODE_VALUES)
    by (intros w; apply mode_or_in; by left).
  assert (Hl : ∀ b : bool, (if b then js "AND" else js "OR") = js "AND" ∨ (if b then js "AND" else js "OR") = js "OR")
    by (intros []; auto).
  intros E. assert (v ≠ Null) as Hv by (by intros ->).
  assert (∃ cs, o_id o = n ∧ o_conditions o = cs ∧ o_mode o ∈ OPERATION_MODE_VALUES ∧
    (o_logic o = js "AND" ∨ o_logic o = js "OR") ∧
    match get v (js "conditions") with
    | Arr l => map_fresh normalizeCondition (S n) l | _ => Some ([], S n) end = Some (cs, n')) as
    (cs & Hid & Hcs & Hmode & Hlogic & Hc).
  { unfold normalizeOperation in E. destruct v; try done.
    all: destruct (match get _ (js "conditions") with Arr _ => _ | _ => _ end) as [ [cs m]|] eqn:Ec; [|done];
      injection E as <- <-; exists cs; split_and!; try done; try apply Hl; try apply Hm.
    all: first [exact (Hm Undef)|by right]. }
  assert (S n ≤ n' ∧ NoDup (map c_id cs) ∧ Forall (cond_ok n') cs) as (Hle & Hnd & Hall).
  { destruct (get v (js "conditions")); try (injection Hc as <- <-; split_and!; [done|constructor..]).
    destruct (map_fresh_ok c_id cond_ok normalizeCondition cond_ok_mono normalizeCondition_ok _ _ _ _ Hc)
      as (? & ? & _ & ?). done. }
  unfold op_ok. rewrite Hid, Hcs. split_and!; try done; lia.
Qed.

Lemma default_op_ok n : op_ok (S n) (createDefaultOperation n).
Proof. unfold op_ok. simpl. split_and!; [lia|by left|by right|constructor..]. Qed.

Lemma default_ops_ok n : ops_ok (S n) [createDefaultOperation n].
Proof. split; [apply NoDup_singleton|]. apply Forall_singleton, default_op_ok. Qed.

Lemma read_operations_ok n l ops n' : read_operations n l = Some (ops, n') →
  n < n' ∧ ops ≠ [] ∧ ops_ok n' ops.
Proof.
  unfold read_operations. destruct l as [|v l].
  - intros [= <- <-]. split_and!; [lia|done|apply default_ops_ok].
  - intros E. assert (ops ≠ [] ∧ n < n') as [Hne Hlt].
    { simpl in E. destruct (normalizeOperation n v) as [ [o n1]|] eqn:E1; [|done].
      destruct (map_fresh normalizeOperation n1 l) as [ [os n2]|] eqn:E2; [|done]. injection E as <- <-.
      split; [done|]. apply normalizeOperation_ok in E1 as (_ & ? & _).
      apply (map_fresh_ok o_id op_ok normalizeOperation op_ok_mono normalizeOperation_ok) in E2 as (? & _). lia. }
    apply (map_fresh_ok o_id op_ok normalizeOperation op_ok_mono normalizeOperation_ok) in E as (? & ? & _ & ?).
    by split_and!.
Qed.

(** ** Every handler keeps the invariant *)

(** Changing one rule by a function that keeps its identifier. *)
Lemma map_op_ok n id f e : localIdSeed e ≤ n → inv e →
  (∀ o, op_ok n o → has_id id o = true → op_ok n (f o) ∧ o_id (f o) = o_id o) →
  let e' := map_op id f e in operations e' ≠ [] ∧ ops_ok n (operations e').
Proof.
  intros Hn [Hne Hok] Hf. apply (ops_ok_mono _ n) in Hok as [Hnd Hall]; [|done].
  unfold map_op. simpl. split; [by destruct (operations e)|].
  assert (map o_id (map (λ o, if has_id id o then f o else o) (operations e)) = map o_id (operations e)) as Hids.
  { rewrite map_map. apply map_ext_in. intros o Hin. destruct (has_id id o) eqn:E; [|done].
    apply Hf; [|done]. rewrite Forall_forall in Hall. by apply Hall, list_elem_of_In. }
  split; [by rewrite Hids|]. apply Forall_fmap. eapply Forall_impl; [exact Hall|].
  intros o Ho. simpl. destruct (has_id id o) eqn:E; [by apply Hf|done].
Qed.

Lemma patch_ok n p o : wf_event (EUpdate 0 p) → op_ok n o →
  op_ok n (patch_operation p o) ∧ o_id (patch_operation p o) = o_id o.
Proof. destruct o. unfold op_ok. simpl. intros Hp (? & ? & ? & ? & ?). by destruct p. Qed.

Lemma conditions_ok n f o :
  (∀ cs, Forall (cond_ok n) cs → NoDup (map c_id cs) → Forall (cond_ok n) (f cs) ∧ NoDup (map c_id (f cs))) →
  op_ok n o → op_ok n (set_conditions f o) ∧ o_id (set_conditions f o) = o_id o.
Proof.
  intros Hf. destruct o as [id d pa m fr t v k l cs]. unfold op_ok. simpl. intros (? & ? & ? & Hc & Hn).
  destruct (Hf cs Hc Hn). done.
Qed.

Lemma patch_rules_ok n c p cs : wf_event (EUpdateCondition 0 0 p) →
  Forall (cond_ok n) cs → NoDup (map c_id cs) →
  Forall (cond_ok n) (patch_rules c p cs) ∧ NoDup (map c_id (patch_rules c p cs)).
Proof.
  intros Hp Hc Hn. unfold patch_rules. split.
  - apply Forall_fmap. eapply Forall_impl; [exact Hc|]. intros x Hx. simpl. destruct (c_id x =? c); [|done].
    destruct x. unfold cond_ok in *. simpl in *. by destruct p; destruct Hx.
  - rewrite map_map. erewrite map_ext; [exact Hn|]. intros x. destruct (c_id x =? c); [|done].
    by destruct x, p.
Qed.

Lemma sublist_NoDup_map {A} (f : A → nat) p l : NoDup (map f l) → NoDup (map f (List.filter p l)).
Proof.
  induction l as [|x l IH]; simpl; [done|]. intros [Hx Hl]%NoDup_cons. destruct (p x); simpl; [|by apply IH].
  constructor; [|by apply IH]. intros Hin. apply Hx. apply list_elem_of_fmap in Hin as (y & -> & Hy).
  apply elem_of_filter_bool in Hy as [_ Hy]. by apply (list_elem_of_fmap_2 f).
Qed.

Lemma filter_Forall {A} (P : A → Prop) p l : Forall P l → Forall P (List.filter p l).
Proof. induction 1; simpl; [done|]. case_match; auto. Qed.

Lemma drop_rule_ok n c cs : Forall (cond_ok n) cs → NoDup (map c_id cs) →
  Forall (cond_ok n) (drop_rule c cs) ∧ NoDup (map c_id (drop_rule c cs)).
Proof. intros Hc Hn. split; [by apply filter_Forall|by apply sublist_NoDup_map]. Qed.

(** Inserting a rule with a new identifier. *)
Lemma insert_ok n n' l1 l2 o : n ≤ n' → ops_ok n (l1 ++ l2) → op_ok n' o → n ≤ o_id o →
  ops_ok n' (l1 ++ o :: l2).
Proof.
  intros Hn [Hnd Hall] Ho Hid. split.
  - rewrite map_app in *. simpl. rewrite <-Permutation_middle. constructor; [|done].
    intros Hin. rewrite <-map_app in Hin. apply list_elem_of_fmap in Hin as (x & Hx & Hin).
    rewrite Forall_forall in Hall. destruct (Hall x Hin) as [? _]. lia.
  - apply Forall_app in Hall as [H1 H2]. apply Forall_app. split; [|constructor; [done|]].
    + eapply Forall_impl; [exact H1|]. intros x. by apply op_ok_mono.
    + eapply Forall_impl; [exact H2|]. intros x. by apply op_ok_mono.
Qed.

(** The rules of a pruning are numbered anew whenever they are read. *)
Lemma field_rules_ids n fs : let '(rules, n') := field_rules n fs in
  n ≤ n' ∧ Forall (λ r, n ≤ c_id r < n') rules.
Proof.
  unfold field_rules.
  match goal with |- context [map_fresh ?f n fs] => destruct (map_fresh f n fs) as [ [rules n']|] eqn:E end; simpl;
    [|split; [done|constructor]].
  apply (map_fresh_ok c_id cond_ok) in E as (? & _ & ? & _); [done|apply cond_ok_mono|].
  intros m x y m'. apply normalizeCondition_ok.
Qed.

Lemma prune_ids n text : let '(draft, n') := parsePruneObjectsDraft n text in
  n ≤ n' ∧ Forall (λ r, n ≤ c_id r < n') (p_rules draft).
Proof.
  unfold parsePruneObjectsDraft. destruct (negb _); [split; [done|constructor]|].
  destruct (JSON_parse (trim text)) as [ [| | | | | |fs]|]; try (split; [done|constructor]).
  assert (∀ v m, let '(rules, m') := match v with Obj w => field_rules m w | _ => ([], m) end in
    m ≤ m' ∧ Forall (λ r, m ≤ c_id r < m') rules) as Hw.
  { intros v m. pose proof (field_rules_ids m) as Hf. destruct v; try (split; [done|constructor]). apply Hf. }
  pose proof (Hw (get (Obj fs) (js "where")) n) as H1.
  destruct (match get (Obj fs) (js "where") with Obj _ => _ | _ => _ end) as [wr n1]. destruct H1 as [H1 H1'].
  assert (let '(rules, m') := match get (Obj fs) (js "conditions") with
    | Arr l => default ([], n1) (map_fresh normalizePruneRule n1 (object_items l))
    | Obj c => field_rules n1 c | _ => ([], n1) end in
    n1 ≤ m' ∧ Forall (λ r, n1 ≤ c_id r < m') rules) as H2.
  { pose proof (field_rules_ids n1) as Hf.
    destruct (get (Obj fs) (js "conditions")) as [| | | | |l|c]; try (split; [done|constructor]); [|apply Hf].
    destruct (map_fresh normalizePruneRule n1 (object_items l)) as [ [rules n']|] eqn:E; simpl;
      [|split; [done|constructor]].
    apply (map_fresh_ok c_id cond_ok) in E as (? & _ & ? & _); [done|apply cond_ok_mono|].
    intros m x y m'. apply normalizeCondition_ok. }
  destruct (match get (Obj fs) (js "conditions") with Arr _ => _ | Obj _ => _ | _ => _ end) as [cr n2].
  destruct H2 as [H2 H2']. simpl. split; [lia|]. apply Forall_app. split.
  - eapply Forall_impl; [exact H1'|]. intros r Hr. simpl in Hr. lia.
  - eapply Forall_impl; [exact H2'|]. intros r Hr. simpl in Hr. lia.
Qed.

(** Only the text of the value changes. *)
Definition same_but_value (o o' : ParamOverrideOperation) : Prop :=
  o' = o ∨ ∃ t, o' = patch_operation (PValueText t) o.

Definition growing (updater : PruneObjectsDraft → nat → PruneObjectsDraft * nat) : Prop :=
  ∀ d n, n ≤ snd (updater d n).

Lemma update_prunes_same id updater n ops : growing updater →
  let '(ops', n') := update_prunes id updater n ops in
  n ≤ n' ∧ Forall2 same_but_value ops ops'.
Proof.
  intros Hu. revert n. induction ops as [|o ops IH]; intros n; simpl; [by split|].
  assert (let '(o', n1) := if has_id id o then update_prune updater n o else (o, n) in
    n ≤ n1 ∧ same_but_value o o') as Ho.
  { destruct (has_id id o); [|split; [done|by left]]. unfold update_prune.
    pose proof (prune_ids n (o_value_text o)) as Hp.
    destruct (parsePruneObjectsDraft n (o_value_text o)) as [d n1]. destruct Hp as [Hp _].
    pose proof (Hu d n1) as Hg. destruct (updater d n1) as [d' n2]. simpl in Hg.
    split; [lia|]. right. by eexists. }
  destruct (if has_id id o then update_prune updater n o else (o, n)) as [o' n1]. destruct Ho as [H1 H2].
  specialize (IH n1). destruct (update_prunes id updater n1 ops) as [ops' n2]. destruct IH as [H3 H4].
  split; [lia|]. by constructor.
Qed.

Lemma same_but_value_ok n ops ops' : Forall2 same_but_value ops ops' → ops_ok n ops → ops_ok n ops'.
Proof.
  intros Hf [Hnd Hall]. assert (map o_id ops' = map o_id ops) as Hids.
  { clear Hnd Hall. induction Hf as [|o o' l l' Ho _ IH]; [done|]. simpl. rewrite IH. f_equal.
    destruct Ho as [->|[t ->] ]; [done|by destruct o]. }
  split; [by rewrite Hids|]. clear Hnd Hids. induction Hf as [|o o' l l' Ho _ IH]; [done|].
  inversion_clear Hall as [|? ? Hok Hl]. constructor; [|by apply IH].
  destruct Ho as [->|[t ->] ]; [done|]. by apply patch_ok.
Qed.

Lemma update_prune_inv id updater e : growing updater → inv e → inv (updatePruneObjectsDraft id updater e).
Proof.
  intros Hu [Hne Hok]. unfold updatePruneObjectsDraft.
  pose proof (update_prunes_same id updater (localIdSeed e) (operations e) Hu) as Hs.
  destruct (update_prunes id updater (localIdSeed e) (operations e)) as [ops n]. destruct Hs as [Hn Hf].
  split; simpl.
  - intros ->. apply Forall2_length in Hf. by destruct (operations e).
  - eapply same_but_value_ok; [exact Hf|]. by eapply ops_ok_mono.
Qed.

(** ** The order of the rules *)

Lemma find_index_Some {A} (p : A → bool) l i : find_index p l = Some i →
  ∃ l1 x l2, l = l1 ++ x :: l2 ∧ length l1 = i ∧ p x = true ∧ Forall (λ y, p y = false) l1.
Proof.
  revert i. induction l as [|x l IH]; intros i; simpl; [done|]. destruct (p x) eqn:E.
  - intros [= <-]. by exists [], x, l.
  - intros Hi. apply fmap_Some in Hi as (j & Hj & ->). destruct (IH j Hj) as (l1 & y & l2 & -> & <- & Hy & Hl).
    exists (x :: l1), y, l2. split_and!; [done..|]. by constructor.
Qed.

Lemma find_index_None {A} (p : A → bool) l : find_index p l = None → Forall (λ y, p y = false) l.
Proof.
  induction l as [|x l IH]; simpl; [done|]. destruct (p x) eqn:E; [done|].
  intros Hi. apply fmap_None in Hi. constructor; [done|by apply IH].
Qed.

Lemma has_id_spec id o : has_id id o = true ↔ o_id o = id.
Proof. unfold has_id. apply Nat.eqb_eq. Qed.

(** Taking a rule out of the list. *)
Lemma without_rule id l1 (o : ParamOverrideOperation) l2 : NoDup (map o_id (l1 ++ o :: l2)) → o_id o = id →
  List.filter (λ x, negb (has_id id x)) (l1 ++ o :: l2) = l1 ++ l2.
Proof.
  intros Hnd Ho. rewrite map_app in Hnd. simpl in Hnd. rewrite <-Permutation_middle in Hnd.
  apply NoDup_cons in Hnd as [Hnin _]. rewrite <-map_app in Hnin.
  assert (Forall (λ x, has_id id x = false) (l1 ++ l2)) as Hf.
  { apply Forall_forall. intros x Hx. apply not_true_iff_false. intros E%has_id_spec.
    apply Hnin. rewrite Ho, <-E. by apply (list_elem_of_fmap_2 o_id). }
  apply Forall_app in Hf as [H1 H2]. rewrite List.filter_app. simpl.
  rewrite (proj2 (has_id_spec id o)) by done. simpl.
  assert (∀ l, Forall (λ x, has_id id x = false) l → List.filter (λ x, negb (has_id id x)) l = l) as Hall.
  { induction 1 as [|x l Hx _ IH]; [done|]. simpl. by rewrite Hx, IH. }
  by rewrite !Hall.
Qed.

Lemma absent_id id ops : Forall (λ o, has_id id o = false) ops → id ∉ map o_id ops.
Proof.
  intros Hf Hin. apply list_elem_of_fmap in Hin as (o & -> & Ho). rewrite Forall_forall in Hf.
  specialize (Hf o Ho). unfold has_id in Hf. by rewrite Nat.eqb_refl in Hf.
Qed.

Lemma reorder_cases ops s t pos : NoDup (map o_id ops) →
  reorderOperations ops s t pos = ops ∧ (s = t ∨ s ∉ map o_id ops ∨ t ∉ map o_id ops) ∨
  ∃ moved target a b, o_id moved = s ∧ o_id target = t ∧ moved ∈ ops ∧
    List.filter (λ o, negb (has_id s o)) ops = a ++ target :: b ∧
    ops ≡ₚ moved :: a ++ target :: b ∧
    reorderOperations ops s t pos =
      match pos with Before => a ++ moved :: target :: b | After => a ++ target :: moved :: b end.
Proof.
  intros Hnd. unfold reorderOperations. destruct (Nat.eqb_spec s t) as [->|Hst]; [by left; auto|].
  destruct (find_index (has_id s) ops) as [i|] eqn:Ei;
    [|apply find_index_None, absent_id in Ei; by left; auto].
  apply find_index_Some in Ei as (l1 & moved & l2 & -> & <- & Hm%has_id_spec & _).
  rewrite list_lookup_middle by done.
  assert (take (length l1) (l1 ++ moved :: l2) ++ drop (S (length l1)) (l1 ++ moved :: l2) = l1 ++ l2) as ->.
  { rewrite take_app_length. f_equal. replace (S (length l1)) with (length l1 + 1) by lia.
    by rewrite drop_app_add. }
  destruct (find_index (has_id t) (l1 ++ l2)) as [j|] eqn:Ej; [right|left].
  2: { split; [done|]. right. right. apply find_index_None in Ej. apply absent_id.
       apply Forall_app in Ej as [E1 E2]. apply Forall_app. split; [done|]. constructor; [|done].
       apply not_true_iff_false. intros Ht%has_id_spec. congruence. }
  apply find_index_Some in Ej as (a & target & b & Hab & <- & Ht%has_id_spec & _).
  exists moved, target, a, b. split_and!; [done|done| |by rewrite without_rule| |].
  - apply elem_of_app. right. by left.
  - rewrite <-Hab. by rewrite Permutation_middle.
  - rewrite Hab. destruct pos.
    + by rewrite take_app_length, drop_app_length.
    + replace (S (length a)) with (length (a ++ [target])) by (rewrite length_app; simpl; lia).
      replace (a ++ target :: b) with ((a ++ [target]) ++ b) by (by rewrite <-app_assoc).
      by rewrite take_app_length, drop_app_length, <-app_assoc.
Qed.

Lemma reorder_perm ops s t pos : NoDup (map o_id ops) → reorderOperations ops s t pos ≡ₚ ops.
Proof.
  intros Hnd. destruct (reorder_cases ops s t pos Hnd)
    as [ [-> _]|(moved & target & a & b & _ & _ & _ & _ & Hp & ->)]; [done|]. rewrite Hp. destruct pos.
  - by rewrite <-Permutation_middle.
  - rewrite (Permutation_middle a (target :: b) moved). apply Permutation_app_head, perm_swap.
Qed.

Lemma ops_ok_perm n l l' : l ≡ₚ l' → ops_ok n l → ops_ok n l'.
Proof. intros Hp [H1 H2]. split; [by rewrite <-Hp|by rewrite <-Hp]. Qed.

(** ** The invariant holds *)

Lemma editor_inv_same e e' : operations e' = operations e → localIdSeed e' = localIdSeed e → inv e → inv e'.
Proof. unfold inv. by intros -> ->. Qed.

Lemma inv_start_over e : inv (start_over e).
Proof. split; [done|]. apply default_ops_ok. Qed.

Lemma inv_add e : inv e → inv (addOperation e).
Proof.
  intros [Hne Hok]. split; simpl; [by destruct (operations e)|].
  apply (insert_ok (localIdSeed e)); [lia|by rewrite app_nil_r|apply default_op_ok|simpl; lia].
Qed.

Lemma inv_duplicate id e : inv e → inv (duplicateOperation id e).
Proof.
  intros [Hne Hok]. unfold duplicateOperation. destruct (find_index _ _) as [i|]; [|done].
  destruct (operations e !! i) as [source|]; [|done].
  destruct (normalizeOperation _ _) as [ [cloned n]|] eqn:E; [|done].
  apply normalizeOperation_ok in E as (Hid & Hlt & Ho). split; simpl; [by destruct (take (S i) (operations e))|].
  apply (insert_ok (localIdSeed e)); [lia|by rewrite take_drop|done|lia].
Qed.

Lemma filter_length_lt {A} (p : A → bool) l : List.filter p l = [] → Forall (λ x, p x = false) l.
Proof. induction l as [|x l IH]; simpl; [done|]. destruct (p x) eqn:E; [done|]. intros Hl. constructor; auto. Qed.

Lemma inv_remove id e : inv e → inv (removeOperation id e).
Proof.
  intros [Hne [Hnd Hall] ]. unfold removeOperation. destruct (Nat.leb_spec (length (operations e)) 1) as [|Hl].
  { split; [done|apply default_ops_ok]. }
  split; simpl; [|split; [by apply sublist_NoDup_map|by apply filter_Forall] ].
  intros Hf%filter_length_lt. destruct (operations e) as [|o1 [|o2 rest] ]; simpl in Hl; [lia|lia|].
  inversion_clear Hf as [|? ? E1 Hf']. inversion_clear Hf' as [|? ? E2 _].
  apply negb_false_iff, has_id_spec in E1, E2. simpl in Hnd. apply NoDup_cons in Hnd as [Hn _].
  apply Hn. rewrite E1, <-E2. by left.
Qed.

Lemma inv_map_op id f e : inv e →
  (∀ o, op_ok (localIdSeed e) o → op_ok (localIdSeed e) (f o) ∧ o_id (f o) = o_id o) → inv (map_op id f e).
Proof. intros Hi Hf. apply map_op_ok; [done|done|]. intros o Ho _. by apply Hf. Qed.

Lemma inv_add_condition id e : inv e → inv (addCondition id e).
Proof.
  intros Hi. unfold addCondition, inv. cbn [set_seed localIdSeed operations].
  destruct Hi as [Hne [Hnd Hall] ]. unfold map_op. simpl. split; [by destruct (operations e)|].
  assert (∀ o, op_ok (localIdSeed e) o → op_ok (S (localIdSeed e))
    (set_conditions (λ cs, cs ++ [createDefaultCondition (localIdSeed e)]) o) ∧
    o_id (set_conditions (λ cs, cs ++ [createDefaultCondition (localIdSeed e)]) o) = o_id o) as Hs.
  { intros [oid d pa m fr t v k l cs] (H1 & H2 & H3 & H4 & H5). unfold op_ok in *. simpl in *.
    split_and!; try done; [lia|..].
    - apply Forall_app. split; [|apply Forall_singleton; split; [simpl; lia|by left] ].
      eapply Forall_impl; [exact H4|]. intros c. apply cond_ok_mono. lia.
    - rewrite map_app. simpl. apply NoDup_app. split_and!; [done| |apply NoDup_singleton].
      intros x Hx ->%list_elem_of_singleton. apply list_elem_of_fmap in Hx as (c & Ec & Hc).
      rewrite Forall_forall in H4. destruct (H4 c Hc) as [? _]. simpl in Ec. lia. }
  split.
  - rewrite map_map. erewrite map_ext_in; [exact Hnd|]. intros o Hin. destruct (has_id id o); [|done].
    apply Hs. rewrite Forall_forall in Hall. by apply Hall, list_elem_of_In.
  - apply Forall_fmap. eapply Forall_impl; [exact Hall|]. intros o Ho. simpl.
    destruct (has_id id o); [by apply Hs|]. apply (op_ok_mono (localIdSeed e)); [lia|done].
Qed.

Lemma inv_drop id data e : inv e → inv (handleDrop id data e).
Proof.
  intros [Hne Hok]. unfold handleDrop.
  destruct (match draggedOperationId e with Some d => Some d | None => data end) as [s|]; [|by split].
  destruct (s =? id); [by split|].
  set (pos := if bool_decide _ then _ else _).
  assert (reorderOperations (operations e) s id pos ≡ₚ operations e) as Hp by (apply reorder_perm, Hok).
  split; simpl; [|by eapply ops_ok_perm].
  intros E. rewrite E in Hp. apply Permutation_nil in Hp. done.
Qed.

Lemma inv_to_json e : inv e → inv (switchToJsonMode e).
Proof.
  intros Hi. unfold switchToJsonMode. destruct (editMode e); [|done].
  destruct (buildVisualJson e); by apply (editor_inv_same e).
Qed.

Lemma inv_to_visual e e' : inv e → switchToVisualMode e = Some e' → inv e'.
Proof.
  intros Hi. unfold switchToVisualMode. destruct (editMode e); [by intros [= <-]|].
  destruct (negb _). { intros [= <-]. by apply (editor_inv_same (start_over e)), inv_start_over. }
  destruct (JSON_parse _) as [ [| | | | | |fs]|]; try (intros [= <-]; by apply (editor_inv_same e)).
  destruct (get (Obj fs) (js "operations")) as [| | | | |l|];
    try (intros [= <-]; by apply (editor_inv_same (start_over e)), inv_start_over).
  destruct (read_operations (localIdSeed e) l) as [ [ops n]|] eqn:E; [|done]. intros [= <-].
  by apply read_operations_ok in E as (_ & ? & ?).
Qed.

Lemma inv_fill append preset e e' : wf_event (EFill append preset) → inv e →
  fillTemplate append preset e = Some e' → inv e'.
Proof.
  intros Hwf Hi. destruct preset as [ [|] payload]; unfold fillTemplate.
  - destruct Hwf as (v & l & Hl). rewrite Hl.
    destruct (map_fresh normalizeOperation (localIdSeed e) (v :: l)) as [ [ops n]|] eqn:E; [|done].
    assert (read_operations (localIdSeed e) (v :: l) = Some (ops, n)) as Hr by done.
    apply read_operations_ok in Hr as (Hlt & Hne & Hok).
    apply (map_fresh_ok o_id op_ok normalizeOperation op_ok_mono normalizeOperation_ok) in E as (_ & _ & Hid & _).
    destruct append; [|by destruct ops; [done|]; intros [= <-] ].
    intros [= <-]. split; simpl.
    { destruct (visualMode e); [|done]. by destruct (List.filter _ (operations e)). }
    assert (∀ l, ops_ok (localIdSeed e) l → ops_ok n (l ++ ops)) as Happ.
    { intros l' [Hnd' Hall']. destruct Hok as [Hnd Hall]. split.
      - rewrite map_app. apply NoDup_app. split_and!; [done| |done]. intros x Hx Hx'.
        apply list_elem_of_fmap in Hx as (o & -> & Ho). apply list_elem_of_fmap in Hx' as (o' & Eo & Ho').
        rewrite Forall_forall in Hall', Hid. destruct (Hall' o Ho) as [? _]. specialize (Hid o' Ho'). lia.
      - apply Forall_app. split; [|done]. eapply Forall_impl; [exact Hall'|]. intros o. apply op_ok_mono. lia. }
    apply Happ. destruct (visualMode e); [|by split; constructor]. destruct Hi as [_ [H1 H2] ].
    split; [by apply sublist_NoDup_map|by apply filter_Forall].
  - destruct (append && _); [|intros [= <-]; split; [done|apply default_ops_ok] ].
    destruct (if truthy _ then _ else _) as [cur|]; [|intros [= <-]; by apply (editor_inv_same e)].
    destruct payload, cur; try done; intros [= <-]; (split; [done|apply default_ops_ok]).
Qed.

Lemma inv_render id e : inv e → inv (snd (render_prune id e)).
Proof.
  intros [Hne Hok]. unfold render_prune. destruct (List.find _ _) as [o|]; [|by split].
  pose proof (prune_ids (localIdSeed e) (o_value_text o)) as Hp.
  destruct (parsePruneObjectsDraft _ _) as [d n]. destruct Hp as [Hn _]. split; [done|]. by eapply ops_ok_mono.
Qed.

Lemma inv_handle e ev e' : wf_event ev → inv e → handle e ev = Some e' → inv e'.
Proof.
  intros Hwf Hi. destruct ev; simpl; try (intros [= <-]).
  - apply inv_map_op; [done|]. intros o. by apply patch_ok.
  - by apply inv_add.
  - by apply inv_duplicate.
  - by apply inv_remove.
  - by apply inv_add_condition.
  - apply inv_map_op; [done|]. intros o. apply conditions_ok. intros cs. by apply patch_rules_ok.
  - apply inv_map_op; [done|]. intros o. apply conditions_ok. intros cs. by apply drop_rule_ok.
  - apply inv_map_op; [done|]. intros o. by apply patch_ok.
  - by apply update_prune_inv; [intros d n; simpl|].
  - by apply update_prune_inv; [intros d n; simpl; lia|].
  - by apply update_prune_inv; [intros d n; simpl|].
  - by apply update_prune_inv; [intros d n; simpl|].
  - by apply inv_render.
  - by apply (editor_inv_same e).
  - unfold handleDragOver. destruct (draggedOperationId e); [|done]. case_match; [done|by apply (editor_inv_same e)].
  - by apply inv_drop.
  - by apply inv_to_json.
  - by apply inv_to_visual.
  - by apply inv_fill.
  - apply (editor_inv_same (start_over e)); [done..|apply inv_start_over].
  - by apply (editor_inv_same e).
  - by apply (editor_inv_same e).
  - unfold handleSave. repeat case_match; by apply (editor_inv_same e).
Qed.

Lemma keep_selection_ok e : inv e → inv (keep_selection e) ∧ selection_ok (keep_selection e).
Proof.
  intros Hi. unfold keep_selection. destruct (operations e) as [|op rest] eqn:E; [by destruct Hi|].
  assert (inv (select (Some (o_id op)) e) ∧ selection_ok (select (Some (o_id op)) e)) as Hfirst.
  { split; [by apply (editor_inv_same e)|]. exists (o_id op). split; [done|]. simpl. rewrite E. by left. }
  destruct (selectedOperationId e) as [id|] eqn:Es; [|done].
  destruct (existsb (has_id id) (op :: rest)) eqn:Ex; [|done].
  split; [done|]. exists id. split; [done|]. rewrite E. apply existsb_exists in Ex as (o & Ho & Hid).
  apply has_id_spec in Hid as <-. by apply (list_elem_of_fmap_2 o_id), list_elem_of_In.
Qed.

Lemma run_ok es e e' : Forall wf_event es → inv e → selection_ok e → run e es = Some e' → inv e' ∧ selection_ok e'.
Proof.
  intros Hes. revert e. induction Hes as [|ev es Hev _ IH]; intros e Hi Hs; simpl; [by intros [= <-]|].
  unfold step. destruct (handle e ev) as [e1|] eqn:E; [|done]. simpl.
  apply inv_handle in E; [|done..]. destruct (keep_selection_ok e1 E) as [? ?]. by apply IH.
Qed.

Lemma open_ok n text e : open_dialog n text = Some e → inv e ∧ selection_ok e.
Proof.
  unfold open_dialog. destruct (parseInitialState n text) as [ [i n']|] eqn:E; [|done]. intros [= <-].
  assert (i_operations i ≠ [] ∧ ops_ok n' (i_operations i)) as [Hne Hok].
  { unfold parseInitialState in E. destruct (negb _). { injection E as <- <-. split; [done|apply default_ops_ok]. }
    destruct (JSON_parse _) as [ [| | | | | |fs]|];
      try (injection E as <- <-; split; [done|apply default_ops_ok]).
    destruct (get (Obj fs) _) as [| | | | |l|]; try (injection E as <- <-; split; [done|apply default_ops_ok]).
    destruct (read_operations n l) as [ [ops m]|] eqn:Er; [|done]. injection E as <- <-.
    by apply read_operations_ok in Er as (_ & ? & ?). }
  split; [by split|]. unfold selection_ok, first_id. simpl. destruct (i_operations i) as [|o rest]; [done|].
  exists (o_id o). split; [done|]. by left.
Qed.

(** [C27] The dialog stays well formed: whatever is opened and whatever the user then does,
    there is always a rule, the identifiers of rules are distinct, those of the conditions of
    a rule too, all were handed out before, modes and logics are known ones, and a rule of
    the list is selected. *)
Theorem editor_well_formed (n : nat) (text : jsstr) (es : list Event) (e0 e : EditorState) :
  open_dialog n text = Some e0 → Forall wf_event es → run e0 es = Some e →
  operations e ≠ [] ∧ NoDup (map o_id (operations e)) ∧
  Forall (λ o, o_id o < localIdSeed e ∧ o_mode o ∈ OPERATION_MODE_VALUES ∧
    (o_logic o = js "AND" ∨ o_logic o = js "OR") ∧
    Forall (λ c, c_id c < localIdSeed e ∧ c_mode c ∈ CONDITION_MODE_VALUES) (o_conditions o) ∧
    NoDup (map c_id (o_conditions o))) (operations e) ∧
  ∃ id, selectedOperationId e = Some id ∧ id ∈ map o_id (operations e).
Proof.
  intros Ho Hes Hr. destruct (open_ok _ _ _ Ho) as [Hi Hs].
  destruct (run_ok es e0 e Hes Hi Hs Hr) as [ [Hne [Hnd Hall] ] Hsel]. done.
Qed.

(** Dragging a rule: the rules are the same ones; when both rules are in the list, the
    moved one comes to stand next to the target, on the side asked for, and the others keep
    their order; otherwise nothing moves. *)
Theorem drag_moves_one (ops : list ParamOverrideOperation) (source target : nat) (pos : Position) :
  NoDup (map o_id ops) → source ≠ target → source ∈ map o_id ops → target ∈ map o_id ops →
  let ops' := reorderOperations ops source target pos in
  ops' ≡ₚ ops ∧
  ∃ moved t a b, o_id moved = source ∧ o_id t = target ∧
    List.filter (λ o, negb (has_id source o)) ops = a ++ t :: b ∧
    ops' = match pos with Before => a ++ moved :: t :: b | After => a ++ t :: moved :: b end.
Proof.
  intros Hnd Hne Hs Ht. split; [by apply reorder_perm|].
  destruct (reorder_cases ops source target pos Hnd)
    as [ [_ Hno]|(moved & t & a & b & ? & ? & _ & ? & _ & ?)]; [naive_solver|]. by exists moved, t, a, b.
Qed.

(** ** Rules of a pruning *)

Lemma patch_rules_absent id p rules : Forall (λ r, id < c_id r) rules → patch_rules id p rules = rules.
Proof.
  induction 1 as [|r rules Hr _ IH]; [done|]. simpl. rewrite IH.
  by rewrite (proj2 (Nat.eqb_neq _ _)) by lia.
Qed.

Lemma drop_rule_absent id rules : Forall (λ r, id < c_id r) rules → drop_rule id rules = rules.
Proof.
  induction 1 as [|r rules Hr _ IH]; [done|]. simpl.
  rewrite (proj2 (Nat.eqb_neq _ _)) by lia. simpl. by rewrite IH.
Qed.

Lemma update_prunes_ext id u u' n ops :
  (∀ m text, n ≤ m → let '(d, m') := parsePruneObjectsDraft m text in u d m' = u' d m') →
  (growing u) →
  update_prunes id u n ops = update_prunes id u' n ops.
Proof.
  intros He Hg. revert n He. induction ops as [|o ops IH]; intros n He; simpl; [done|].
  assert (update_prune u n o = update_prune u' n o) as Ho.
  { unfold update_prune. specialize (He n (o_value_text o) ltac:(lia)).
    destruct (parsePruneObjectsDraft n (o_value_text o)) as [d m]. by rewrite He. }
  rewrite Ho. pose proof (update_prunes_same id u n [o] Hg) as Hn. simpl in Hn. rewrite Ho in Hn.
  destruct (if has_id id o then update_prune u' n o else (o, n)) as [o' n1]. destruct Hn as [Hn _].
  rewrite IH; [done|]. intros m text Hm. apply He. lia.
Qed.

(** The rules of a pruning cannot be edited: the rules the dialog shows get new numbers
    whenever they are read, so a rule that is changed or removed is not found, and all that
    happens is that the text is read and written again; and a rule that is added, having no
    path yet, is dropped before it is shown. *)
Theorem prune_rule_edits_lost (id : nat) (e e1 : EditorState) (draft : PruneObjectsDraft) (rule : ParamOverrideCondition)
    (p : ConditionPatch) :
  render_prune id e = (Some draft, e1) → rule ∈ p_rules draft →
  updatePruneRule id (c_id rule) p e1 = updatePruneObjectsDraft id pair e1 ∧
  removePruneRule id (c_id rule) e1 = updatePruneObjectsDraft id pair e1 ∧
  (∀ d seed, buildPruneObjectsValueText
     (mkPrune false (p_typeText d) (p_logic d) (p_recursive d) (p_rules d ++ [createDefaultCondition seed])) =
   buildPruneObjectsValueText (mkPrune false (p_typeText d) (p_logic d) (p_recursive d) (p_rules d))).
Proof.
  intros Hr Hin. unfold render_prune in Hr. destruct (List.find _ _) as [o|]; [|done].
  pose proof (prune_ids (localIdSeed e) (o_value_text o)) as Hp.
  destruct (parsePruneObjectsDraft _ _) as [d n]. injection Hr as <- <-. destruct Hp as [Hn Hids].
  rewrite Forall_forall in Hids. specialize (Hids rule Hin).
  assert (Hfresh : ∀ m text, n ≤ m → let '(d', m') := parsePruneObjectsDraft m text in
    Forall (λ r, c_id rule < c_id r) (p_rules d')).
  { intros m text Hm. pose proof (prune_ids m text) as Hp. destruct (parsePruneObjectsDraft m text) as [d' m'].
    destruct Hp as [_ Hp]. eapply Forall_impl; [exact Hp|]. intros r Hr. simpl in *. lia. }
  assert (Hset : ∀ f d', f (p_rules d') = p_rules d' → set_rules f d' = d')
    by (intros f [] Hf; unfold set_rules; simpl in *; by rewrite Hf).
  unfold updatePruneRule, removePruneRule, updatePruneObjectsDraft. simpl. split_and!.
  - rewrite (update_prunes_ext _ _ pair); [done| |by intros d' m; simpl].
    intros m text Hm. specialize (Hfresh m text Hm). destruct (parsePruneObjectsDraft m text) as [d' m'].
    rewrite Hset; [done|]. by apply patch_rules_absent.
  - rewrite (update_prunes_ext _ _ pair); [done| |by intros d' m; simpl].
    intros m text Hm. specialize (Hfresh m text Hm). destruct (parsePruneObjectsDraft m text) as [d' m'].
    rewrite Hset; [done|]. by apply drop_rule_absent.
  - intros d' seed. unfold buildPruneObjectsValueText. simpl.
    assert (omap rule_payload (p_rules d' ++ [createDefaultCondition seed]) = omap rule_payload (p_rules d')) as ->;
      [|done].
    rewrite omap_app. change (omap rule_payload [createDefaultCondition seed]) with ([] : list value).
    apply app_nil_r.
Qed.

End Machine.

(** ** A session of the dialog *)

#[local] Existing Instance sample_json.
#[local] Existing Instance sample_json_laws.

(** The dialog opens empty; a rule is added, copied, dragged and given a condition. *)
Definition sample_session : list Event :=
  [EAdd; EUpdate 1 (PPath (js "temperature")); EDuplicate 1; EDragStart 2; EDragOver 0 Before; EDrop 0 None;
   EAddCondition 1; ERemove 0; EToJson; EToVisual; ESave].

Lemma editor_well_formed_witness :
  ∃ e0 e, open_dialog 0 [] = Some e0 ∧ run e0 sample_session = Some e ∧ NoDup (map o_id (operations e)).
Proof.
  destruct (open_dialog 0 []) as [e0|] eqn:E0; [|by vm_compute in E0].
  destruct (run e0 sample_session) as [e|] eqn:E; [|vm_compute in E0; injection E0 as <-; by vm_compute in E].
  exists e0, e. split_and!; [done..|].
  apply (editor_well_formed 0 [] sample_session e0 e); [done| |done]. by repeat constructor.
Defined.

Lemma drag_moves_one_witness :
  let ops := map createDefaultOperation [0; 1; 2; 3] in
  reorderOperations ops 3 1 Before ≡ₚ ops ∧ map o_id (reorderOperations ops 3 1 Before) = [0; 3; 1; 2].
Proof.
  intros ops. split; [|done].
  apply (drag_moves_one ops 3 1 Before); [|done|..].
  - by apply (bool_decide_unpack (NoDup [0; 1; 2; 3])).
  - by apply (bool_decide_unpack (3 ∈ [0; 1; 2; 3])).
  - by apply (bool_decide_unpack (1 ∈ [0; 1; 2; 3])).
Defined.

(** A pruning with one rule: the edit of its path is lost. *)
Definition sample_pruning : EditorState :=
  let text := JSON_stringify (Obj [(js "conditions", Arr [Obj [(js "path", Str (js "role"))] ])]) in
  let op := mkOperation 0 [] [] (js "prune_objects") [] [] text false (js "OR") [] in
  mkEditor Visual OperationsMode [] [op] [] None (Some 0) None None Before [] 1 [] None.

Lemma prune_rule_edits_lost_witness :
  ∃ draft rule e1, render_prune 0 sample_pruning = (Some draft, e1) ∧ p_rules draft = [rule] ∧
    updatePruneRule 0 (c_id rule) (CPath (js "name")) e1 = updatePruneObjectsDraft 0 pair e1.
Proof.
  destruct (render_prune 0 sample_pruning) as [ [draft|] e1] eqn:E; [|by vm_compute in E].
  destruct (p_rules draft) as [|rule [|] ] eqn:Er; try by (vm_compute in E; injection E as <- _).
  exists draft, rule, e1. split_and!; [done..|].
  apply (prune_rule_edits_lost 0 sample_pruning e1 draft rule (CPath (js "name"))); [exact E|].
  rewrite Er. by left.
Defined.

End OverrideEditor.
