(* ===== verification/QuotaHistory.v ===== *)
(** * The history of a channel's quota (web/src/features/channels/lib/quota-history.ts)

    The server sends observations of the upstream account's quota in display buckets; the
    client orders them, breaks the line where the observations are not continuous, and
    summarises. Counts are whole numbers; the position of a break, a millisecond before its
    point, is double arithmetic and a parameter, and so is the reading of dates. *)
From Stdlib Require Import QArith Qround Qcanon.
From S2P Require Import Prelude JsString JsMap JsValue.
Local Open Scope Z_scope.

Module QuotaHistory.

(** ** Data *)

Inductive QuotaHistoryMetric := Available | Used | Total | Consumption | RatePerMinute.

Inductive ChannelQuotaHistoryRange := R1h | R6h | R24h | R7d | R30d | R90d | RCustom.

Record ChannelQuotaHistoryPoint := mkPoint {
  timestamp : jsnum; observed_at : option jsnum; status : jsstr;
  available : option jsnum; used : option jsnum; total : option jsnum;
  consumption : option jsnum; rate_per_minute : option jsnum;
  reset_at : option jsnum; error_code : option jsstr;
  success_count : option Z; failed_count : option Z; unsupported_count : option Z;
  reset : bool; continuity_break : bool; gap : bool; recovery : bool; baseline_change : bool;
  observed_seconds : option jsnum; interval_count : option jsnum }.

Record MetricSummary := mkMetricSummary {
  ms_start : option jsnum; ms_end : option jsnum; ms_change : option jsnum;
  ms_minimum : option jsnum; ms_maximum : option jsnum }.

Record ConsumptionSummary := mkConsumption {
  cs_observed : option jsnum; cs_reset_boundaries : option Z; cs_recovery_count : option Z;
  cs_interrupted_count : option Z; cs_observed_seconds : option jsnum; cs_average_rate : option jsnum;
  cs_peak_rate : option jsnum; cs_peak_observed_at : option jsnum; cs_gap_count : option Z;
  cs_baseline_change_count : option Z }.

Record HistorySummary := mkHistorySummary {
  hs_available : option MetricSummary; hs_used : option MetricSummary; hs_total : option MetricSummary;
  hs_consumption : option ConsumptionSummary }.

Record DataQuality := mkQuality {
  q_success_count : Z; q_error_count : Z; q_unsupported_count : option Z; q_invalid_count : Z;
  q_reset_boundaries : Z }.

Record Current := mkCurrent {
  c_available : option jsnum; c_used : option jsnum; c_total : option jsnum;
  c_observed_at : jsnum; c_status : jsstr; c_error_code : option jsstr }.

(** [current]: absent, or present with [null] or a value. *)
Record ChannelQuotaHistoryData := mkData {
  d_start : jsnum; d_end : jsnum; points_ : list ChannelQuotaHistoryPoint;
  summary_ : option HistorySummary; data_quality : option DataQuality;
  current : option (option Current);
  truncated_ : option bool; complete : option bool; source_complete : option bool;
  points_complete : option bool }.

Record QuotaHistoryTrendPoint := mkTrendPoint {
  t_timestamp : jsnum; observedAt : jsnum; t_value : option jsnum; t_status : jsstr;
  resetAt : option jsnum; errorCode : option jsstr; isResetBoundary : bool; hasContinuityBreak : bool;
  observedSeconds : option jsnum; intervalCount : option jsnum }.

Record QuotaHistoryTrendSummary := mkTrendSummary {
  s_metric : QuotaHistoryMetric; s_start : option jsnum; s_end : option jsnum; s_change : option jsnum;
  s_minimum : option jsnum; s_maximum : option jsnum; s_observedConsumption : option jsnum;
  s_averageRate : option jsnum; s_peakRate : option jsnum; s_peakObservedAt : option jsnum;
  s_observedSeconds : jsnum; s_valueCount : nat; s_isLatestResetSegment : bool }.

Record QuotaHistoryTrendLatest := mkLatest {
  l_observedAt : option jsnum; l_status : option jsstr; l_value : option jsnum; l_errorCode : option jsstr }.

Record QuotaHistoryTrendCoverage := mkCoverage {
  requestedStart : option jsnum; requestedEnd : option jsnum; observedStart : option jsnum;
  observedEnd : option jsnum; successCount : Z; failedCount : Z; unsupportedCount : Z; invalidCount : Z;
  interruptedCount : Z; recoveryCount : Z; resetBoundaries : Z; gapCount : Z; baselineChangeCount : Z;
  truncated : bool }.

Record QuotaHistoryTrend := mkTrend {
  metric : QuotaHistoryMetric; points : list QuotaHistoryTrendPoint; latest : QuotaHistoryTrendLatest;
  latestPlotted : option (jsnum * jsnum); summary : QuotaHistoryTrendSummary;
  coverage : QuotaHistoryTrendCoverage; hasIncompleteData : bool }.

(** ** Durations *)

Definition quotaAnalysisDurationOptions : list Z :=
  [60; 5 * 60; 15 * 60; 30 * 60; 60 * 60; 6 * 60 * 60; 24 * 60 * 60; 7 * 24 * 60 * 60; 30 * 24 * 60 * 60;
   90 * 24 * 60 * 60].

Definition math_floor (a : jsnum) : jsnum :=
  match a with Fin q => num_of_Z (Qfloor (this q)) | _ => a end.

Definition boundedQuotaDuration (v maximum : jsnum) : jsnum :=
  math_max (num_of_Z 1) (math_min (math_floor v) (math_floor maximum)).

Definition quotaDurationOptions (maximum selected : jsnum) : list jsnum :=
  let bounded := boundedQuotaDuration selected maximum in
  js_sort num_le (List.filter (λ seconds, num_le seconds maximum)
    (new_Set (map num_of_Z quotaAnalysisDurationOptions ++ [bounded]))).

(** The dates of a custom range are time values: whole milliseconds, or NaN. *)
Definition quotaHistoryRangeSeconds (Date_ : jsstr → jsnum) (range : ChannelQuotaHistoryRange)
    (customRange : option (jsstr * jsstr)) : Z :=
  match range with
  | R1h => 60 * 60
  | R6h => 6 * 60 * 60
  | R24h => 24 * 60 * 60
  | R7d => 7 * 24 * 60 * 60
  | R30d => 30 * 24 * 60 * 60
  | R90d => 90 * 24 * 60 * 60
  | RCustom =>
      match customRange with
      | None => 60 * 60
      | Some (s, e) =>
          match as_integer (Date_ s), as_integer (Date_ e) with
          | Some start, Some end_ => if end_ <=? start then 60 * 60 else Z.max 1 ((end_ - start) / 1000)
          | _, _ => 60 * 60
          end
      end
  end.

Inductive ETAOutcome := DepletesBeforeReset | ResetBeforeDepletion | StableOrNoObservedConsumption | InsufficientData.
Inductive ETAStatus := Depletion | Reset | Stable | Insufficient.

Definition quotaETAStatus (eta : option ETAOutcome) : ETAStatus :=
  match eta with
  | Some DepletesBeforeReset => Depletion
  | Some ResetBeforeDepletion => Reset
  | Some StableOrNoObservedConsumption => Stable
  | _ => Insufficient
  end.

Inductive Timing := Future (seconds : jsnum) | Passed | Unavailable.

Definition quotaPredictionTiming (subtract : jsnum → jsnum → jsnum) (eventAt analysisAsOf : option jsnum) : Timing :=
  match eventAt, analysisAsOf with
  | Some e, Some a =>
      if negb (isFinite e) || negb (isFinite a) then Unavailable
      else if num_le e a then Passed else Future (subtract e a)
  | _, _ => Unavailable
  end.

(** ** The trend *)

Definition numberOrNull (v : option jsnum) : option jsnum :=
  match v with Some n => if isFinite n then Some n else None | None => None end.

Definition isIntervalMetric (m : QuotaHistoryMetric) : bool :=
  match m with Consumption | RatePerMinute => true | _ => false end.

Definition point_metric (m : QuotaHistoryMetric) (p : ChannelQuotaHistoryPoint) : option jsnum :=
  match m with
  | Available => available p | Used => used p | Total => total p
  | Consumption => consumption p | RatePerMinute => rate_per_minute p
  end.

(** Timestamps come from a JSON response, so they are finite. *)
Definition by_timestamp (a b : ChannelQuotaHistoryPoint) : bool := num_le (timestamp a) (timestamp b).

Definition hasBreak (p : ChannelQuotaHistoryPoint) : bool :=
  continuity_break p || reset p || gap p || recovery p || baseline_change p.

Definition is_success (s : jsstr) : bool := streq s (js "success").

Section trend.
Context (just_before : jsnum → jsnum).

Definition gap_point (p : ChannelQuotaHistoryPoint) : QuotaHistoryTrendPoint :=
  mkTrendPoint (just_before (timestamp p)) (default (timestamp p) (observed_at p)) None (js "gap")
    None None false true None None.

Definition trend_point (m : QuotaHistoryMetric) (p : ChannelQuotaHistoryPoint) : QuotaHistoryTrendPoint :=
  mkTrendPoint (timestamp p) (default (timestamp p) (observed_at p))
    (if isIntervalMetric m || is_success (status p) then numberOrNull (point_metric m p) else None)
    (status p) (reset_at p) (error_code p) (reset p) (hasBreak p) (observed_seconds p) (interval_count p).

Definition push_point (m : QuotaHistoryMetric) (acc : list QuotaHistoryTrendPoint) (p : ChannelQuotaHistoryPoint) :
    list QuotaHistoryTrendPoint :=
  (if hasBreak p && (0 <? length acc)%nat then acc ++ [gap_point p] else acc) ++ [trend_point m p].

Definition trend_points (m : QuotaHistoryMetric) (rawPoints : list ChannelQuotaHistoryPoint) :
    list QuotaHistoryTrendPoint :=
  foldl (push_point m) [] rawPoints.

(** [point[field] ?? Number(point.status === status)], summed *)
Definition count_status (st : jsstr) (field : ChannelQuotaHistoryPoint → option Z)
    (rawPoints : list ChannelQuotaHistoryPoint) : Z :=
  foldl (λ sum p, sum + default (if streq (status p) st then 1 else 0) (field p)) 0 rawPoints.

Definition is_false (b : option bool) : bool := match b with Some false => true | _ => false end.

Definition build_coverage (data : ChannelQuotaHistoryData) (rawPoints : list ChannelQuotaHistoryPoint) :
    QuotaHistoryTrendCoverage :=
  let lastRaw := last rawPoints in
  let cons := summary_ data ≫= hs_consumption in
  let quality := data_quality data in
  mkCoverage (numberOrNull (Some (d_start data))) (numberOrNull (Some (d_end data)))
    ((λ p, default (timestamp p) (observed_at p)) <$> head rawPoints)
    ((λ p, default (timestamp p) (observed_at p)) <$> lastRaw)
    (default (count_status (js "success") success_count rawPoints) (q_success_count <$> quality))
    (default (count_status (js "error") failed_count rawPoints) (q_error_count <$> quality))
    (default (count_status (js "unsupported") unsupported_count rawPoints) (quality ≫= q_unsupported_count))
    (default 0 (q_invalid_count <$> quality))
    (default 0 (cons ≫= cs_interrupted_count))
    (default 0 (cons ≫= cs_recovery_count))
    (default (default (Z.of_nat (length (List.filter reset rawPoints))) (cons ≫= cs_reset_boundaries))
       (q_reset_boundaries <$> quality))
    (default 0 (cons ≫= cs_gap_count))
    (default 0 (cons ≫= cs_baseline_change_count))
    (default false (truncated_ data) || is_false (complete data) || is_false (source_complete data) ||
     is_false (points_complete data)).

(** The value and status of the latest observation, and where they come from. *)
Definition build_latest (data : ChannelQuotaHistoryData) (m : QuotaHistoryMetric)
    (lastRaw : option ChannelQuotaHistoryPoint) : QuotaHistoryTrendLatest :=
  match current data with
  | Some c =>
      let st := default (js "unavailable") (c_status <$> c) in
      let v := match c with
               | Some cur =>
                   if negb (isIntervalMetric m) && is_success st then
                     numberOrNull (match m with Available => c_available cur | Used => c_used cur | _ => c_total cur end)
                   else None
               | None => None
               end in
      mkLatest (c_observed_at <$> c) (Some st) v (c ≫= c_error_code)
  | None =>
      let st := status <$> lastRaw in
      let v := match lastRaw with
               | Some p => if negb (isIntervalMetric m) && is_success (status p)
                           then numberOrNull (point_metric m p) else None
               | None => None
               end in
      mkLatest ((λ p, default (timestamp p) (observed_at p)) <$> lastRaw) st v (lastRaw ≫= error_code)
  end.

Definition metric_summary (data : ChannelQuotaHistoryData) (m : QuotaHistoryMetric) : option MetricSummary :=
  match m with
  | Available => summary_ data ≫= hs_available
  | Used => summary_ data ≫= hs_used
  | Total => summary_ data ≫= hs_total
  | _ => None
  end.

Definition plotted (p : QuotaHistoryTrendPoint) : bool :=
  match t_value p with Some v => isFinite v | None => false end.

Definition buildQuotaHistoryTrend (data : ChannelQuotaHistoryData) (m : QuotaHistoryMetric) : QuotaHistoryTrend :=
  let rawPoints := js_sort by_timestamp (points_ data) in
  let pts := trend_points m rawPoints in
  let cov := build_coverage data rawPoints in
  let ms := metric_summary data m in
  let cons := summary_ data ≫= hs_consumption in
  mkTrend m pts (build_latest data m (last rawPoints))
    (match List.find plotted (rev pts) with
     | Some p => (λ v, (t_timestamp p, v)) <$> t_value p
     | None => None
     end)
    (mkTrendSummary m (numberOrNull (ms ≫= ms_start)) (numberOrNull (ms ≫= ms_end)) (numberOrNull (ms ≫= ms_change))
       (numberOrNull (ms ≫= ms_minimum)) (numberOrNull (ms ≫= ms_maximum))
       (numberOrNull (cons ≫= cs_observed)) (numberOrNull (cons ≫= cs_average_rate))
       (numberOrNull (cons ≫= cs_peak_rate)) (numberOrNull (cons ≫= cs_peak_observed_at))
       (default (num_of_Z 0) (cons ≫= cs_observed_seconds))
       (length (List.filter plotted pts))
       (negb (isIntervalMetric m) && (0 <? resetBoundaries cov)))
    cov
    ((0 <? failedCount cov) || (0 <? unsupportedCount cov) || (0 <? invalidCount cov) ||
     (0 <? interruptedCount cov) || (0 <? recoveryCount cov) || (0 <? gapCount cov) ||
     (0 <? baselineChangeCount cov) || truncated cov).
End trend.

(** ** Labels and keys *)

Definition quotaWindowLabel (t : jsstr → jsstr) (window : option jsstr) : jsstr :=
  let win s := bool_decide (window = Some (js s)) in
  if win "weekly" then t (js "Weekly window")
  else if win "five_hour" || win "5h" then t (js "5-hour window")
  else if win "primary" then t (js "Primary window")
  else if win "secondary" then t (js "Secondary window")
  else if win "daily" then t (js "Daily window")
  else if negb (truthy (default [] window)) || win "none" then t (js "Quota")
  else t (js "Other quota window").

Definition series_id_ok (s : jsstr) : bool :=
  (length s =? 64)%nat && forallb (λ c, ((48 <=? c) && (c <=? 57) || (97 <=? c) && (c <=? 102))%N) s.

Definition quotaSeriesKey (channel_id : Z) (series_id metric_type source window_type plan_type unit currency : option jsstr)
    (window_seconds : option Z) : jsstr :=
  match series_id with
  | Some s => if truthy s && series_id_ok s then s else
      join (js "|") [show_Z channel_id; default [] metric_type; default [] source; default [] window_type;
        default [] plan_type; default [] unit; default [] currency; default [] (show_Z <$> window_seconds)]
  | None =>
      join (js "|") [show_Z channel_id; default [] metric_type; default [] source; default [] window_type;
        default [] plan_type; default [] unit; default [] currency; default [] (show_Z <$> window_seconds)]
  end.

(** ** Lemmas *)

Section sorted_on.
Context {A : Type} (le : A → A → bool) (P : A → Prop).
Context (total_on : ∀ x y, P x → P y → le x y = false → le y x = true).

Lemma sort_insert_Sorted_on x l : P x → Forall P l →
  Sorted (λ a b, le a b = true) l → Sorted (λ a b, le a b = true) (sort_insert le x l).
Proof.
  intros Hx Hl Hs. induction Hs as [|y l Hs IH Hhd]; simpl; [by repeat constructor|].
  inversion_clear Hl. destruct (le x y) eqn:E; [by repeat constructor|].
  constructor; [by apply IH|]. destruct l as [|z l]; simpl; [by auto|].
  destruct (le x z); constructor; auto. by inversion Hhd.
Qed.

Lemma js_sort_Sorted_on l : Forall P l → Sorted (λ a b, le a b = true) (js_sort le l).
Proof.
  induction 1 as [|x l Hx Hl IH]; simpl; [constructor|]. apply sort_insert_Sorted_on; [done| |done].
  by rewrite js_sort_perm.
Qed.
End sorted_on.

Lemma num_le_total_on x y : x ≠ NaN → y ≠ NaN → num_le x y = false → num_le y x = true.
Proof.
  destruct x, y; simpl; try done. intros _ _. rewrite bool_decide_eq_false, bool_decide_eq_true.
  intros H. apply Qclt_le_weak, Qcnot_le_lt, H.
Qed.

Section laws.
Context (just_before : jsnum → jsnum) (m : QuotaHistoryMetric).

(** The points drawn for a raw point that is not the first. *)
Definition drawn (p : ChannelQuotaHistoryPoint) : list QuotaHistoryTrendPoint :=
  (if hasBreak p then [gap_point just_before p] else []) ++ [trend_point m p].

Lemma trend_points_cons p raw :
  trend_points just_before m (p :: raw) = trend_point m p :: mjoin (drawn <$> raw).
Proof.
  unfold trend_points. simpl. unfold push_point at 2. simpl. rewrite andb_false_r. simpl.
  assert (∀ acc, acc ≠ [] → foldl (push_point just_before m) acc raw = acc ++ mjoin (drawn <$> raw)) as H;
    [|by rewrite H].
  induction raw as [|q raw IH]; intros acc Hacc; simpl; [by rewrite app_nil_r|].
  rewrite IH by (unfold push_point; destruct (_ && _); intros [? ?]%app_eq_nil; done).
  unfold push_point, drawn. destruct acc as [|a acc]; [done|]. cbn [length Nat.ltb Nat.leb]. rewrite andb_true_r.
  destruct (hasBreak q); simpl; by rewrite <- !app_assoc.
Qed.

Definition connected (p q : QuotaHistoryTrendPoint) : Prop :=
  t_value p ≠ None → t_value q ≠ None → hasContinuityBreak q = false.

Lemma connected_drawn raw a : Sorted connected (a :: mjoin (drawn <$> raw)).
Proof.
  revert a. induction raw as [|q raw IH]; intros a; simpl; [repeat constructor|].
  unfold drawn. destruct (hasBreak q) eqn:Eb; simpl.
  - constructor; [|by constructor; intros _ []]. constructor; [apply IH|]. constructor. by intros [].
  - constructor; [apply IH|]. constructor. intros _ _. exact Eb.
Qed.

Lemma plotted_drawn raw :
  List.filter plotted (mjoin (drawn <$> raw)) = List.filter plotted (map (trend_point m) raw).
Proof.
  induction raw as [|q raw IH]; [done|].
  change (mjoin (drawn <$> q :: raw)) with (drawn q ++ mjoin (drawn <$> raw)).
  rewrite List.filter_app, IH. unfold drawn.
  by destruct (hasBreak q); simpl; destruct (plotted (trend_point m q)).
Qed.
End laws.

(** ** Properties *)

(** The chart is faithful to the observations: they are drawn in the order of time, each
    as one point with its own value, and plotted only if the observation succeeded (or the
    metric is one of intervals); no line is drawn into an observation that is not continuous
    with the one before; what is counted and what is shown as the last plotted value are those
    of the observations. *)
Theorem quota_trend_faithful (just_before : jsnum → jsnum) (data : ChannelQuotaHistoryData) (m : QuotaHistoryMetric) :
  Forall (λ p, timestamp p ≠ NaN) (points_ data) →
  let trend := buildQuotaHistoryTrend just_before data m in
  ∃ raw, raw ≡ₚ points_ data ∧ Sorted (λ a b, num_le (timestamp a) (timestamp b) = true) raw ∧
    List.filter plotted (points trend) = List.filter plotted (map (trend_point m) raw) ∧
    Sorted connected (points trend) ∧
    (∀ p, p ∈ points trend → t_value p = None ∨ ∃ q, q ∈ points_ data ∧ p = trend_point m q) ∧
    s_valueCount (summary trend) = length (List.filter plotted (map (trend_point m) raw)) ∧
    latestPlotted trend =
      (last (List.filter plotted (map (trend_point m) raw)) ≫= λ p, (λ v, (t_timestamp p, v)) <$> t_value p).
Proof.
  intros Hnan trend. exists (js_sort by_timestamp (points_ data)). set (raw := js_sort by_timestamp (points_ data)).
  assert (List.filter plotted (trend_points just_before m raw) = List.filter plotted (map (trend_point m) raw)) as Hf.
  { destruct raw as [|p raw']; [done|]. rewrite trend_points_cons. simpl. rewrite plotted_drawn.
    by destruct (plotted (trend_point m p)). }
  split_and!.
  - apply js_sort_perm.
  - apply (js_sort_Sorted_on by_timestamp (λ p, timestamp p ≠ NaN)); [|done].
    intros x y. apply num_le_total_on.
  - exact Hf.
  - cbn [points trend buildQuotaHistoryTrend]. fold raw. destruct raw as [|p raw']; [constructor|].
    rewrite trend_points_cons. apply connected_drawn.
  - cbn [points trend buildQuotaHistoryTrend]. fold raw. intros p Hp.
    assert (∀ q, q ∈ raw → q ∈ points_ data) as Hraw by (intros q; unfold raw; by rewrite js_sort_elem_of).
    destruct raw as [|q0 raw']; [set_solver|]. rewrite trend_points_cons in Hp.
    apply elem_of_cons in Hp as [->|Hp]; [right; exists q0; split; [apply Hraw; left|done]|].
    apply list_elem_of_join in Hp as (l & Hp & Hl). apply list_elem_of_fmap in Hl as (q & -> & Hq).
    unfold drawn in Hp. apply elem_of_app in Hp as [Hp|Hp%list_elem_of_singleton]; [|right; exists q; split; [apply Hraw; by right|done]].
    destruct (hasBreak q); [|set_solver]. apply list_elem_of_singleton in Hp as ->. by left.
  - cbn [summary s_valueCount trend buildQuotaHistoryTrend]. fold raw. by rewrite Hf.
  - cbn [latestPlotted trend buildQuotaHistoryTrend]. fold raw.
    rewrite <- Hf. generalize (trend_points just_before m raw). intros pts.
    assert (List.find plotted (rev pts) = last (List.filter plotted pts)) as ->; [|by destruct (last _)].
    induction pts as [|p pts IH] using rev_ind; [done|]. rewrite rev_app_distr, List.filter_app. simpl.
    destruct (plotted p); simpl; [by rewrite last_snoc|]. by rewrite app_nil_r.
Qed.

Definition sample_point (t : Z) (v : Z) (broken : bool) : ChannelQuotaHistoryPoint :=
  mkPoint (num_of_Z t) None (js "success") (Some (num_of_Z v)) None None None None None None None None None
    false broken false false false None None.

Definition sample_data : ChannelQuotaHistoryData :=
  mkData (num_of_Z 0) (num_of_Z 9) [sample_point 2 5 true; sample_point 1 7 false] None None None None None None None.

Lemma quota_trend_faithful_witness :
  Sorted connected (points (buildQuotaHistoryTrend (λ t, t) sample_data Available)).
Proof.
  destruct (quota_trend_faithful (λ t, t) sample_data Available) as (raw & _ & _ & _ & H & _); [|exact H].
  repeat constructor; intros Hn; destruct (num_of_Z_Fin 2), (num_of_Z_Fin 1); simpl in Hn; congruence.
Defined.

(** The durations offered for an analysis fit the range, in order, with the one selected. *)
Theorem quota_durations_bounded (maximum selected : Z) :
  1 ≤ maximum →
  let offered := quotaDurationOptions (num_of_Z maximum) (num_of_Z selected) in
  (∀ d, d ∈ offered → num_le d (num_of_Z maximum) = true) ∧
  boundedQuotaDuration (num_of_Z selected) (num_of_Z maximum) = num_of_Z (Z.max 1 (Z.min selected maximum)) ∧
  num_of_Z (Z.max 1 (Z.min selected maximum)) ∈ offered ∧ NoDup offered.
Proof.
  intros Hmax offered.
  assert (∀ z, math_floor (num_of_Z z) = num_of_Z z) as Hfl.
  { intros z. Transparent num_of_Z. unfold math_floor, num_of_Z at 1. f_equal. simpl.
    rewrite Qfloor_comp with (y := inject_Z z) by apply Qred_correct. apply Qfloor_Z. Opaque num_of_Z. }
  assert (boundedQuotaDuration (num_of_Z selected) (num_of_Z maximum) = num_of_Z (Z.max 1 (Z.min selected maximum))) as Hb.
  { unfold boundedQuotaDuration. by rewrite !Hfl, math_min_Z, math_max_Z. }
  unfold offered, quotaDurationOptions. rewrite Hb. split_and!.
  - intros d. rewrite js_sort_elem_of, list_elem_of_In, List.filter_In. by intros [_ ?].
  - done.
  - rewrite js_sort_elem_of, list_elem_of_In, List.filter_In, <- list_elem_of_In, new_Set_elem, num_le_Z.
    split; [apply elem_of_app; right; by left|]. apply bool_decide_eq_true. lia.
  - rewrite js_sort_perm. apply NoDup_ListNoDup, List.NoDup_filter, NoDup_ListNoDup, new_Set_NoDup.
Qed.

End QuotaHistory.
