(* ===== verification/Overview.v ===== *)
(** * The overview's flow board (web/src/features/dashboard/lib/overview-flow.ts, with
      isRequestFailure of web/src/features/usage-logs/lib/request-facts.ts and the windows of
      web/src/features/personal-upstream/window-state.ts)

    Keys and connections with the requests of a sample of call records. Identifiers, instants
    and counts are whole numbers. What the browser computes on doubles (the complement of a
    percentage, the mean of two durations) and its local time are parameters. *)
From S2P Require Import Prelude JsString JsMap JsValue.
Local Open Scope Z_scope.

Module Overview.

(** ** Data *)

(** The fields of a call record the overview reads. *)
Record UsageLog := mkLog {
  user_id : Z; created_at : Z; type : Z; content : jsstr; token_id : Z; token_name : jsstr;
  channel : Z; other : jsstr }.

Record FlowTraffic := mkTraffic { requests : Z; failures : Z }.

Record FlowKeyNode := mkKeyNode {
  id : Z; name : jsstr; status : option Z; own : bool; n_requests : option Z; n_failures : option Z }.

Record Key := mkKey { k_id : Z; k_name : jsstr; k_status : Z }.

Inductive FlowSelection := SKey (i : Z) | SConnection (i : Z).

Record HourBucket := mkBucket { start : Z; count : Z; covered : bool }.

Record ChannelQuotaChangeItem := mkItem {
  channel_id : Z; metric_type : option jsstr; unit : option jsstr; i_status : option jsstr;
  current_available : option jsnum; observed_at : option jsnum }.

Definition FLOW_NODE_LIMIT : nat := 6.
Definition HOUR_SECONDS : Z := 60 * 60.
Definition HOURS : nat := 24.

Definition selectionFromSearch (key connection : option Z) : option FlowSelection :=
  match key, connection with
  | Some k, _ => Some (SKey k)
  | None, Some c => Some (SConnection c)
  | None, None => None
  end.

(** ** Failures *)

Definition REVIEW_CONTENTS : list jsstr := [js "usage_settlement_pending"; js "usage_pending_review"].

(** The text is a quoted name, a colon and true. *)
Definition preflight_text : jsstr := 34%N :: js "preflight_rejected" ++ 34%N :: js ":true".

Section failures.
Context (JSON_parse : jsstr → option value).

Definition isRequestFailure (log : UsageLog) : bool :=
  if negb (type log =? 5) || set_has REVIEW_CONTENTS (content log) then false
  else match JSON_parse (str_or (other log) (js "null")) with
       | Some v => negb (value_truthy v && is_object_type v && is_true (get v (js "preflight_rejected")))
       | None => negb (includes preflight_text (other log))
       end.

(** ** Traffic *)

Definition attributed (i : Z) : bool := negb ((MAX_SAFE <? Z.abs i) || (i <=? 0)).

Definition add_request (entry : FlowTraffic) (row : UsageLog) : FlowTraffic :=
  mkTraffic (requests entry + 1) (if isRequestFailure row then failures entry + 1 else failures entry).

Definition trafficBy (rows : list UsageLog) (identity : UsageLog → Z) : list (Z * FlowTraffic) :=
  foldl (λ traffic row,
    let i := identity row in
    if negb (attributed i) then traffic
    else jm_set i (add_request (default (mkTraffic 0 0) (jm_get i traffic)) row) traffic) [] rows.

(** The nodes of the viewer's keys. *)
Definition own_nodes (keys : list Key) (traffic : option (list (Z * FlowTraffic))) : list (Z * FlowKeyNode) :=
  foldl (λ nodes key,
    let counts := traffic ≫= jm_get (k_id key) in
    jm_set (k_id key)
      (mkKeyNode (k_id key) (k_name key) (Some (k_status key)) true
         ((λ _, default 0 (requests <$> counts)) <$> traffic)
         ((λ _, default 0 (failures <$> counts)) <$> traffic)) nodes) [] keys.

(** The nodes of keys that only the records name. *)
Definition add_seen (traffic : option (list (Z * FlowTraffic))) (viewerId : option Z)
    (nodes : list (Z * FlowKeyNode)) (row : UsageLog) : list (Z * FlowKeyNode) :=
  match traffic ≫= jm_get (token_id row) with
  | None => nodes
  | Some counts =>
      if bool_decide (token_id row ∈ jm_keys nodes) then nodes
      else jm_set (token_id row)
             (mkKeyNode (token_id row) (token_name row) None (bool_decide (Some (user_id row) = viewerId))
                (Some (requests counts)) (Some (failures counts))) nodes
  end.

Definition by_requests (a b : FlowKeyNode) : bool :=
  let d := default 0 (n_requests b) - default 0 (n_requests a) in
  if d =? 0 then id a - id b <=? 0 else d <=? 0.

Definition buildKeyNodes (keys : list Key) (rows : option (list UsageLog)) (viewerId : option Z) :
    list FlowKeyNode :=
  let traffic := (λ r, trafficBy r token_id) <$> rows in
  let nodes := foldl (add_seen traffic viewerId) (own_nodes keys traffic) (default [] rows) in
  js_sort by_requests (jm_values nodes).
End failures.

(** ** Folding a column *)

Fixpoint find_id {T} (get_id : T → Z) (selectedId : option Z) (nodes : list T) : option (nat * T) :=
  match nodes with
  | [] => None
  | n :: rest =>
      if bool_decide (Some (get_id n) = selectedId) then Some (0%nat, n)
      else (λ '(i, x), (S i, x)) <$> find_id get_id selectedId rest
  end.

Definition visibleNodes {T} (get_id : T → Z) (nodes : list T) (selectedId : option Z) (limit : nat) : list T :=
  if (length nodes <=? limit)%nat then nodes
  else
    let shown := take limit nodes in
    match find_id get_id selectedId nodes with
    | Some (i, selected) => if (i <? limit)%nat then shown else <[(limit - 1)%nat := selected]> shown
    | None => shown
    end.

(** ** Hours *)

(** [local_hour now] is the start of the local hour of an instant. *)
Definition hourlyBuckets (local_hour : Z → Z) (rows : list UsageLog) (nowSeconds coverageStart : Z) :
    list HourBucket :=
  let current := local_hour nowSeconds in
  let start_of index := current - (Z.of_nat HOURS - 1 - Z.of_nat index) * HOUR_SECONDS in
  let buckets := map (λ index, mkBucket (start_of index) 0 (coverageStart <? start_of index + HOUR_SECONDS)) (seq 0 HOURS) in
  foldl (λ bs row,
    let index := (created_at row - start_of 0%nat) / HOUR_SECONDS in
    if (0 <=? index) && (index <? Z.of_nat HOURS)
    then alter (λ b, mkBucket (start b) (count b + 1) (covered b)) (Z.to_nat index) bs
    else bs) buckets rows.

(** ** Durations and windows *)

Definition medianSeconds (mean : jsnum → jsnum → jsnum) (values : list jsnum) : option jsnum :=
  let known := js_sort num_le (List.filter (λ v, isFinite v && num_lt (num_of_Z 0) v) values) in
  match known with
  | [] => None
  | _ =>
      let middle := (length known / 2)%nat in
      if (length known mod 2 =? 1)%nat then known !! middle
      else match known !! (middle - 1)%nat, known !! middle with
           | Some a, Some b => Some (mean a b)
           | _, _ => None
           end
  end.

Section windows.
Context (complement : jsnum → jsnum).

Definition is_str (o : option jsstr) (s : jsstr) : bool := bool_decide (o = Some s).

Definition nativeWindowUsage (item : ChannelQuotaChangeItem) : option jsnum :=
  if negb (is_str (unit item) (js "percent")) || negb (is_str (metric_type item) (js "codex_rate_limit")) ||
     negb (is_str (i_status item) (js "success")) then None
  else match current_available item with
       | Some remaining =>
           if negb (isFinite remaining) || num_lt remaining (num_of_Z 0) || num_lt (num_of_Z 100) remaining then None
           else Some (complement remaining)
       | None => None
       end.

Inductive Freshness := Fresh | Stale | UnknownAge.
Inductive WindowState := WAvailable | WStale | WUnverified | WError | WUnsupported | WUnavailable.

(** The age of a sample is a difference of whole seconds. *)
Definition nativeWindowFreshness (item : ChannelQuotaChangeItem) (nowSeconds : Z) : Freshness :=
  match observed_at item with
  | Some n =>
      match as_integer n with
      | Some t =>
          if negb (isSafeInteger n) || (t <=? 0) || (nowSeconds <? t) then UnknownAge
          else if 300 <? nowSeconds - t then Stale else Fresh
      | None => UnknownAge
      end
  | None => UnknownAge
  end.

Definition nativeWindowState (item : ChannelQuotaChangeItem) (nowSeconds : Z) : WindowState :=
  if is_str (i_status item) (js "error") then WError
  else if is_str (i_status item) (js "unsupported") then WUnsupported
  else match nativeWindowUsage item with
       | None => WUnavailable
       | Some _ =>
           match nativeWindowFreshness item nowSeconds with
           | Fresh => WAvailable
           | Stale => WStale
           | UnknownAge => WUnverified
           end
       end.

(** [nativeWindowUsage(item) ?? -1] *)
Definition usage_score (item : ChannelQuotaChangeItem) : jsnum := default (num_of_Z (-1)) (nativeWindowUsage item).

Definition tighter (windows : list (Z * ChannelQuotaChangeItem)) (item : ChannelQuotaChangeItem) :
    list (Z * ChannelQuotaChangeItem) :=
  if negb (is_str (metric_type item) (js "codex_rate_limit")) || negb (is_str (unit item) (js "percent")) then windows
  else match jm_get (channel_id item) windows with
       | Some cur => if num_lt (usage_score cur) (usage_score item) then jm_set (channel_id item) item windows else windows
       | None => jm_set (channel_id item) item windows
       end.

Definition tightestWindowByConnection (items : list ChannelQuotaChangeItem) : list (Z * ChannelQuotaChangeItem) :=
  foldl tighter [] items.
End windows.

(** ** Lemmas *)

Section counts.
Context (JSON_parse : jsstr → option value).

Definition of_id (identity : UsageLog → Z) (i : Z) (rows : list UsageLog) : list UsageLog :=
  filter (λ r, identity r = i) rows.

Definition failed (rows : list UsageLog) : list UsageLog := filter (λ r, isRequestFailure JSON_parse r = true) rows.

(** The counts of an identifier among the records. *)
Definition counts_of (identity : UsageLog → Z) (i : Z) (rows : list UsageLog) : FlowTraffic :=
  if attributed i then mkTraffic (Z.of_nat (length (of_id identity i rows)))
                        (Z.of_nat (length (failed (of_id identity i rows))))
  else mkTraffic 0 0.

Lemma traffic_get rows identity i :
  jm_get i (trafficBy JSON_parse rows identity) =
  if decide (attributed i = true ∧ of_id identity i rows ≠ []) then Some (counts_of identity i rows) else None.
Proof.
  unfold trafficBy. induction rows as [|r rows IH] using rev_ind; [by rewrite decide_False by naive_solver|].
  rewrite foldl_app. simpl. set (m := foldl _ [] rows) in *.
  assert (of_id identity i (rows ++ [r]) = of_id identity i rows ++ (if decide (identity r = i) then [r] else [])) as Hof.
  { unfold of_id. rewrite filter_app, filter_cons. by case_decide. }
  unfold counts_of in *. rewrite Hof.
  destruct (attributed (identity r)) eqn:Ea; cbn [negb].
  - rewrite jm_get_set. destruct (decide (identity r = i)) as [<-|Hn].
    + rewrite IH, Ea. rewrite (decide_True (P := _ ∧ of_id identity (identity r) rows ++ [r] ≠ [])) by (split; [done|by intros [? ?]%app_eq_nil]).
      f_equal. unfold failed, add_request. rewrite filter_app, !length_app, filter_cons.
      destruct (of_id identity (identity r) rows) as [|x l] eqn:El.
      * rewrite decide_False by naive_solver. simpl.
        destruct (isRequestFailure JSON_parse r); [rewrite decide_True by done|rewrite decide_False by done]; done.
      * rewrite decide_True by done. cbn [from_option Datatypes.id requests failures].
        destruct (isRequestFailure JSON_parse r); [rewrite (decide_True (P := true = true)) by done|
          rewrite (decide_False (P := false = true)) by done]; rewrite filter_nil; cbn [length]; f_equal; lia.
    + rewrite app_nil_r. exact IH.
  - destruct (decide (identity r = i)) as [<-|Hn]; [|by rewrite app_nil_r].
    rewrite IH. rewrite !decide_False by (rewrite Ea; naive_solver). done.
Qed.

(** A node that shows the counts of its identifier. *)
Definition node_ok (rows : list UsageLog) (e : Z * FlowKeyNode) : Prop :=
  id e.2 = e.1 ∧ n_requests e.2 = Some (requests (counts_of token_id e.1 rows)) ∧
  n_failures e.2 = Some (failures (counts_of token_id e.1 rows)).

Lemma jm_set_forall {V} (P : Z * V → Prop) k v m : Forall P m → P (k, v) → Forall P (jm_set k v m).
Proof. induction 1 as [|[k' v'] m H1 H2 IH]; simpl; [by constructor|]. intros Hp. case_decide; constructor; auto. by subst. Qed.

Lemma own_nodes_ok keys rows :
  let nodes := own_nodes keys (Some (trafficBy JSON_parse rows token_id)) in
  jm_wf nodes ∧ Forall (node_ok rows) nodes ∧ ∀ i, i ∈ jm_keys nodes ↔ ∃ k, k ∈ keys ∧ k_id k = i.
Proof.
  unfold own_nodes. induction keys as [|k keys IH] using rev_ind; [split_and!; [apply jm_wf_nil|constructor|set_solver]|].
  cbv zeta in *. rewrite foldl_app. simpl. destruct IH as (Hwf & Hok & Hk). split_and!; [by apply jm_wf_set| |].
  - apply jm_set_forall; [done|]. unfold node_ok. simpl. rewrite traffic_get. unfold counts_of.
    case_decide as Hd; simpl; [by destruct Hd as [-> _]|].
    destruct (attributed (k_id k)) eqn:Ea; [|done].
    destruct (of_id token_id (k_id k) rows) eqn:El; [done|naive_solver].
  - intros i. rewrite jm_keys_set. setoid_rewrite elem_of_app. setoid_rewrite list_elem_of_singleton.
    case_decide as Hd; rewrite ?elem_of_app, ?list_elem_of_singleton, Hk; [apply Hk in Hd|]; naive_solver.
Qed.

Lemma seen_nodes_ok keys rows viewer done :
  (∀ r, r ∈ done → r ∈ rows) →
  let traffic := Some (trafficBy JSON_parse rows token_id) in
  let nodes := foldl (add_seen traffic viewer) (own_nodes keys traffic) done in
  jm_wf nodes ∧ Forall (node_ok rows) nodes ∧
  ∀ i, i ∈ jm_keys nodes ↔ (∃ k, k ∈ keys ∧ k_id k = i) ∨ (attributed i = true ∧ ∃ r, r ∈ done ∧ token_id r = i).
Proof.
  intros Hsub. cbv zeta. induction done as [|r done IH] using rev_ind.
  { destruct (own_nodes_ok keys rows) as (? & ? & Hk). split_and!; [done..|]. intros i. simpl. rewrite Hk. set_solver. }
  destruct IH as (Hwf & Hok & Hk); [intros x Hx; apply Hsub; set_solver|].
  rewrite foldl_app. simpl. set (m := foldl _ _ done) in *. unfold add_seen. simpl.
  rewrite traffic_get. case_decide as Hd.
  - case_bool_decide as Hb.
    + split_and!; [done..|]. intros i. rewrite Hk. apply Hk in Hb. set_solver.
    + split_and!; [by apply jm_wf_set|apply jm_set_forall; [done|]; by split_and!|].
      intros i. rewrite jm_keys_set, decide_False by done. destruct Hd as [Ha _]. rewrite elem_of_app, Hk. set_solver.
  - assert (attributed (token_id r) ≠ true) as Ha.
    { intros Ha. apply Hd. split; [done|]. assert (r ∈ of_id token_id (token_id r) rows) as Hr.
      { apply list_elem_of_filter. split; [done|]. apply Hsub. set_solver. }
      intros Hn. rewrite Hn in Hr. set_solver. }
    split_and!; [done..|]. intros i. rewrite Hk. set_solver.
Qed.
End counts.

Lemma sumZ_one {A} (l : list A) : sumZ (λ _, 1) l = Z.of_nat (length l).
Proof. induction l as [|x l IH]; [done|]. rewrite sumZ_cons, IH. simpl. lia. Qed.

Lemma by_requests_total a b : by_requests a b = false → by_requests b a = true.
Proof.
  unfold by_requests. destruct (Z.eqb_spec (default 0 (n_requests b) - default 0 (n_requests a)) 0),
    (Z.eqb_spec (default 0 (n_requests a) - default 0 (n_requests b)) 0); rewrite Z.leb_gt, Z.leb_le; lia.
Qed.

(** ** Properties *)

(** The nodes of keys account for the sampled requests: each key of the viewer and each
    key named by a record appears once, with exactly the requests and failures of its
    records; together they hold every record with a usable identifier; the busiest come
    first. *)
Theorem key_nodes_account (JSON_parse : jsstr → option value) (keys : list Key) (rows : list UsageLog)
    (viewerId : option Z) :
  let nodes := buildKeyNodes JSON_parse keys (Some rows) viewerId in
  NoDup (id <$> nodes) ∧
  (∀ i, i ∈ id <$> nodes ↔ (∃ k, k ∈ keys ∧ k_id k = i) ∨
     (attributed i = true ∧ ∃ r, r ∈ rows ∧ token_id r = i)) ∧
  (∀ n, n ∈ nodes →
     n_requests n = Some (requests (counts_of JSON_parse token_id (id n) rows)) ∧
     n_failures n = Some (failures (counts_of JSON_parse token_id (id n) rows))) ∧
  sumZ (λ n, default 0 (n_requests n)) nodes =
    Z.of_nat (length (filter (λ r, attributed (token_id r) = true) rows)) ∧
  Sorted (λ a b, by_requests a b = true) nodes.
Proof.
  intros nodes. set (m := foldl (add_seen (Some (trafficBy JSON_parse rows token_id)) viewerId)
    (own_nodes keys (Some (trafficBy JSON_parse rows token_id))) rows).
  destruct (seen_nodes_ok JSON_parse keys rows viewerId rows ltac:(done)) as (Hwf & Hok & Hk). fold m in Hwf, Hok, Hk.
  assert (nodes ≡ₚ jm_values m) as Hperm by apply js_sort_perm.
  assert (id <$> jm_values m = jm_keys m) as Hids.
  { revert Hok. generalize m. clear. intros l Hok. induction Hok as [|e l He _ IH]; [done|].
    apply (f_equal2 cons); [apply He|exact IH]. }
  assert (∀ n, n ∈ nodes → node_ok JSON_parse rows (id n, n)) as Hn.
  { intros n. rewrite Hperm. unfold jm_values. intros ([i n'] & -> & Hin)%list_elem_of_fmap.
    rewrite Forall_forall in Hok. pose proof (Hok _ Hin) as He. destruct He as (Hi & ? & ?). simpl in *. by rewrite Hi. }
  split_and!.
  - rewrite Hperm, Hids. exact Hwf.
  - intros i. rewrite Hperm, Hids. apply Hk.
  - intros n Hin. by destruct (Hn n Hin) as (_ & ? & ?).
  - transitivity (sumZ (λ i, sumZ (λ _, 1) (filter (λ r, token_id r = i) (filter (λ r, attributed (token_id r) = true) rows))) (id <$> nodes)).
    + change (id <$> nodes) with (map id nodes). rewrite sumZ_map. apply sumZ_ext. intros n Hin.
      destruct (Hn n Hin) as (_ & Hq & _). cbn [fst snd] in Hq. rewrite Hq. simpl. unfold counts_of.
      rewrite list_filter_filter. destruct (attributed (id n)) eqn:Ea; simpl.
      * rewrite sumZ_one. unfold of_id. f_equal. f_equal. apply list_filter_iff. intros r.
        split; [intros ->; by rewrite Ea|by intros [? _]].
      * rewrite (list_filter_iff _ (λ _, False)); [clear; by induction rows|].
        intros r. split; [intros [-> ?]; congruence|done].
    + rewrite sumZ_groups; [by rewrite sumZ_one|by rewrite Hperm, Hids|].
      intros r [Ha Hr]%list_elem_of_filter. rewrite Hperm, Hids. apply Hk. right. eauto.
  - apply js_sort_Sorted, by_requests_total.
Qed.

(** *** Folding, hours and windows *)

Lemma find_id_Some {T} (get_id : T → Z) sel nodes i n :
  find_id get_id sel nodes = Some (i, n) → nodes !! i = Some n ∧ Some (get_id n) = sel.
Proof.
  revert i. induction nodes as [|x nodes IH]; intros i; simpl; [done|].
  case_bool_decide as Hx; [intros [= <- <-]; done|].
  destruct (find_id get_id sel nodes) as [[j y]|]; [|done]. simpl. intros [= <- <-]. by apply IH.
Qed.

Lemma find_id_None {T} (get_id : T → Z) sel nodes :
  find_id get_id sel nodes = None → ∀ n, n ∈ nodes → Some (get_id n) ≠ sel.
Proof.
  induction nodes as [|x nodes IH]; simpl; [set_solver|]. case_bool_decide as Hx; [done|].
  destruct (find_id get_id sel nodes) as [[j y]|]; [done|]. intros _ n [->|Hn]%elem_of_cons; [done|by apply IH].
Qed.

Lemma NoDup_insert_new {A} (l : list A) i x : NoDup l → x ∉ l → NoDup (<[i:=x]> l).
Proof.
  intros Hnd Hx. apply NoDup_alt. intros a b y Ha Hb.
  destruct (decide (a = i)) as [->|Hai], (decide (b = i)) as [->|Hbi]; [done|..].
  - rewrite list_lookup_insert_ne in Hb by done. apply list_lookup_insert_Some in Ha as [(_ & -> & _)|[? _]]; [|done].
    destruct Hx. by eapply list_elem_of_lookup_2.
  - rewrite list_lookup_insert_ne in Ha by done. apply list_lookup_insert_Some in Hb as [(_ & -> & _)|[? _]]; [|done].
    destruct Hx. by eapply list_elem_of_lookup_2.
  - rewrite list_lookup_insert_ne in Ha, Hb by done. by eapply NoDup_lookup.
Qed.

(** The column shows at most the limit, all nodes from the list, the first ones but the last
    slot unchanged, and the selected node whenever the list has it. *)
Theorem visible_nodes_keep_selection {T} (get_id : T → Z) (nodes : list T) (selectedId : option Z) (limit : nat) :
  (1 ≤ limit)%nat →
  let shown := visibleNodes get_id nodes selectedId limit in
  length shown = Nat.min limit (length nodes) ∧
  take (limit - 1) shown = take (limit - 1) nodes ∧
  (∀ n, n ∈ shown → n ∈ nodes) ∧
  ((∃ n, n ∈ nodes ∧ Some (get_id n) = selectedId) → ∃ n, n ∈ shown ∧ Some (get_id n) = selectedId) ∧
  (NoDup (get_id <$> nodes) → NoDup (get_id <$> shown)).
Proof.
  intros Hl. unfold visibleNodes. destruct (Nat.leb_spec (length nodes) limit) as [Hle|Hgt].
  { cbv zeta. split_and!; [lia|done..]. }
  cbv zeta. destruct (find_id get_id selectedId nodes) as [[i n]|] eqn:Ef.
  - apply find_id_Some in Ef as [Hi Hs]. destruct (Nat.ltb_spec i limit) as [Hil|Hil].
    + split_and!; [rewrite length_take; lia|rewrite take_take; f_equal; lia|intros x; by apply subseteq_take| |].
      * intros _. exists n. split; [|done]. apply elem_of_take. eauto.
      * intros Hnd. rewrite fmap_take. by eapply sublist_NoDup, sublist_take.
    + assert (length (take limit nodes) = limit) as Ht by (rewrite length_take; lia).
      split_and!.
      * rewrite length_insert, Ht. lia.
      * rewrite take_insert_ge by lia. rewrite take_take. f_equal. lia.
      * intros x Hx. apply list_elem_of_lookup in Hx as [j Hj].
        destruct (decide (j = limit - 1)%nat) as [->|Hne].
        -- rewrite list_lookup_insert_eq in Hj by lia. injection Hj as <-. by eapply list_elem_of_lookup_2.
        -- rewrite list_lookup_insert_ne in Hj by done. apply list_elem_of_lookup_2 in Hj. by apply subseteq_take in Hj.
      * intros _. exists n. split; [|done]. apply list_elem_of_lookup. exists (limit - 1)%nat.
        apply list_lookup_insert_eq. lia.
      * intros Hnd. rewrite list_fmap_insert, fmap_take. apply NoDup_insert_new; [|].
        -- by eapply sublist_NoDup, sublist_take.
        -- intros Hin. apply elem_of_take in Hin as (j & Hj & Hjl).
           assert ((get_id <$> nodes) !! i = Some (get_id n)) as Hi' by (by rewrite list_lookup_fmap, Hi).
           pose proof (NoDup_lookup _ _ _ _ Hnd Hj Hi'). lia.
  - split_and!; [rewrite length_take; lia|rewrite take_take; f_equal; lia|intros x; by apply subseteq_take| |].
    + intros (n & Hn & Hs). destruct (find_id_None _ _ _ Ef n Hn Hs).
    + intros Hnd. rewrite fmap_take. by eapply sublist_NoDup, sublist_take.
Qed.

Lemma alter_count_lookup (bs : list HourBucket) j i b :
  alter (λ b, mkBucket (start b) (count b + 1) (covered b)) j bs !! i = Some b →
  ∃ b', bs !! i = Some b' ∧ start b = start b' ∧ covered b = covered b' ∧
    count b = count b' + (if decide (i = j) then 1 else 0).
Proof.
  destruct (decide (i = j)) as [->|Hn].
  - rewrite list_lookup_alter_eq. destruct (bs !! j) as [b'|]; [|done]. intros [= <-]. by exists b'.
  - rewrite list_lookup_alter_ne by done. intros Hb. exists b. split_and!; [done..|lia].
Qed.

(** Each of the 24 hours counts exactly the records made in it, and is covered exactly when
    it ends after the sample begins. *)
Theorem hourly_buckets_exact (local_hour : Z → Z) (rows : list UsageLog) (now coverageStart : Z) :
  let buckets := hourlyBuckets local_hour rows now coverageStart in
  length buckets = HOURS ∧
  ∀ i b, buckets !! i = Some b →
    start b = local_hour now - (23 - Z.of_nat i) * HOUR_SECONDS ∧
    count b = Z.of_nat (length (filter (λ r, start b ≤ created_at r < start b + HOUR_SECONDS) rows)) ∧
    covered b = (coverageStart <? start b + HOUR_SECONDS).
Proof.
  unfold hourlyBuckets. cbv zeta. set (cur := local_hour now).
  induction rows as [|r rows IH] using rev_ind.
  { cbn [foldl]. split; [by rewrite length_map, length_seq|]. intros i b Hb.
    change (((λ k : nat, mkBucket (cur - (Z.of_nat HOURS - 1 - Z.of_nat k) * HOUR_SECONDS) 0
      (coverageStart <? cur - (Z.of_nat HOURS - 1 - Z.of_nat k) * HOUR_SECONDS + HOUR_SECONDS))
      <$> seq 0 HOURS) !! i = Some b) in Hb.
    apply list_lookup_fmap_Some in Hb as (k & -> & [-> _]%lookup_seq).
    cbn [start count covered filter list_filter length]. by split_and!. }
  rewrite foldl_app. cbn [foldl]. destruct IH as [IHl IH].
  match goal with |- context [foldl ?f ?b rows] => set (bs := foldl f b rows) in * end.
  set (index := (created_at r - (cur - (Z.of_nat HOURS - 1 - Z.of_nat 0) * HOUR_SECONDS)) / HOUR_SECONDS).
  assert (∀ i b', bs !! i = Some b' →
    (start b' ≤ created_at r < start b' + HOUR_SECONDS ↔ index = Z.of_nat i)) as Hidx.
  { intros i b' Hb'. destruct (IH i b' Hb') as [-> _]. unfold index, HOUR_SECONDS, HOURS.
    replace (Z.of_nat 24 - 1 - Z.of_nat 0) with 23 by done. change (60 * 60) with 3600.
    pose proof (Z.div_mod (created_at r - (cur - 23 * 3600)) 3600 ltac:(lia)).
    pose proof (Z.mod_pos_bound (created_at r - (cur - 23 * 3600)) 3600 ltac:(lia)). clearbody cur. split; [|lia].
    intros ?. apply Z.le_antisymm; lia. }
  destruct ((0 <=? index) && (index <? Z.of_nat HOURS)) eqn:Ei.
  - rewrite length_alter. split; [done|]. intros i b Hb.
    apply alter_count_lookup in Hb as (b' & Hb' & Hst & Hcov & Hcnt). destruct (IH i b' Hb') as (H1 & H2 & H3).
    rewrite Hst, Hcov, Hcnt, H2, filter_app, length_app, filter_cons, filter_nil. split_and!; [done| |done].
    apply andb_true_iff in Ei as [Ei%Z.leb_le _]. pose proof (Hidx i b' Hb') as Hx.
    destruct (decide (i = Z.to_nat index)) as [->|Hn];
      [rewrite decide_True by (apply Hx; lia)|rewrite decide_False by (rewrite Hx; lia)]; simpl; lia.
  - split; [done|]. intros i b Hb. destruct (IH i b Hb) as (H1 & H2 & H3). split_and!; [done| |done].
    rewrite H2, filter_app, length_app, filter_cons, filter_nil. rewrite decide_False; [simpl; lia|].
    rewrite (Hidx i b Hb). pose proof (lookup_lt_Some _ _ _ Hb) as Hlt. intros Hi.
    apply andb_false_iff in Ei as [Ei%Z.leb_gt|Ei%Z.ltb_ge]; unfold HOURS in *; lia.
Qed.

Definition windowed (item : ChannelQuotaChangeItem) : bool :=
  is_str (metric_type item) (js "codex_rate_limit") && is_str (unit item) (js "percent").

(** The window kept for a connection is one of its saved windows, and none of them is more
    used; a connection with a window has one kept. *)
Theorem tightest_window_exact (complement : jsnum → jsnum) (items : list ChannelQuotaChangeItem) (c : Z) :
  (∀ w, jm_get c (tightestWindowByConnection complement items) = Some w →
     w ∈ items ∧ windowed w = true ∧ channel_id w = c ∧
     ∀ x, x ∈ items → windowed x = true → channel_id x = c →
       num_lt (usage_score complement w) (usage_score complement x) = false) ∧
  ((∃ x, x ∈ items ∧ windowed x = true ∧ channel_id x = c) →
     ∃ w, jm_get c (tightestWindowByConnection complement items) = Some w).
Proof.
  unfold tightestWindowByConnection. induction items as [|x items IH] using rev_ind.
  { simpl. split; [done|]. intros (x & Hx & _). set_solver. }
  rewrite foldl_app. simpl. set (m := foldl _ [] items) in *. destruct IH as [IH1 IH2].
  unfold tighter. destruct (windowed x) eqn:Ew; unfold windowed in Ew.
  - apply andb_true_iff in Ew as Ew'. destruct Ew' as [E1 E2]. rewrite E1, E2. cbn [negb orb].
    assert (∀ y w, y ∈ items ++ [x] → windowed y = true → channel_id y = c →
      (∀ z, z ∈ items → windowed z = true → channel_id z = c → num_lt (usage_score complement w) (usage_score complement z) = false) →
      (channel_id x = c → num_lt (usage_score complement w) (usage_score complement x) = false) →
      num_lt (usage_score complement w) (usage_score complement y) = false) as Hcase.
    { intros y w [Hy|Hy%list_elem_of_singleton]%elem_of_app Hw Hc H1 H2; [by apply H1|]. subst y. by apply H2. }
    destruct (decide (channel_id x = c)) as [<-|Hne].
    + destruct (jm_get (channel_id x) m) as [cur|] eqn:Eg.
      * destruct (IH1 cur eq_refl) as (Hin & Hwd & Hch & Hmax).
        destruct (num_lt (usage_score complement cur) (usage_score complement x)) eqn:El.
        -- rewrite jm_get_set_eq. split; [|eauto]. intros w [= <-]. split_and!; [set_solver|exact Ew|done|].
           intros y Hy Hw Hc. apply (Hcase y x Hy Hw Hc); [|intros _; apply num_lt_irrefl].
           intros z Hz Hzw Hzc. destruct (num_lt (usage_score complement x) (usage_score complement z)) eqn:Exz; [|done].
           pose proof (num_lt_trans _ _ _ El Exz). rewrite Hmax in H; done.
        -- rewrite Eg. split; [|eauto]. intros w [= <-]. split_and!; [set_solver|done..|].
           intros y Hy Hw Hc. by apply (Hcase y cur Hy Hw Hc).
      * rewrite jm_get_set_eq. split; [|eauto]. intros w [= <-]. split_and!; [set_solver|exact Ew|done|].
        intros y Hy Hw Hc. apply (Hcase y x Hy Hw Hc); [|intros _; apply num_lt_irrefl].
        intros z Hz Hzw Hzc. destruct IH2 as [w' Hw']; [by exists z|done].
    + assert (jm_get c (match jm_get (channel_id x) m with
        | Some cur => if num_lt (usage_score complement cur) (usage_score complement x) then jm_set (channel_id x) x m else m
        | None => jm_set (channel_id x) x m end) = jm_get c m) as ->.
      { destruct (jm_get (channel_id x) m); [destruct (num_lt _ _)|]; try done; by rewrite jm_get_set_ne. }
      split.
      * intros w Hw. destruct (IH1 w Hw) as (? & ? & ? & Hmax). split_and!; [set_solver|done..|].
        intros y Hy Hwy Hc. apply (Hcase y w Hy Hwy Hc Hmax). done.
      * intros (y & [Hy|Hy%list_elem_of_singleton]%elem_of_app & ? & ?); [by apply IH2; exists y|by subst].
  - assert (negb (is_str (metric_type x) (js "codex_rate_limit")) || negb (is_str (unit x) (js "percent")) = true) as ->.
    { destruct (is_str (metric_type x) _), (is_str (unit x) _); done. }
    split.
    + intros w Hw. destruct (IH1 w Hw) as (? & ? & ? & Hmax). split_and!; [set_solver|done..|].
      intros y [Hy|Hy%list_elem_of_singleton]%elem_of_app Hwy Hc; [by apply Hmax|]. subst y.
      unfold windowed in Hwy. congruence.
    + intros (y & [Hy|Hy%list_elem_of_singleton]%elem_of_app & Hwy & ?); [by apply IH2; exists y|]. subst y.
      unfold windowed in Hwy. congruence.
Qed.

End Overview.
