(* ===== verification/Regex.v ===== *)
(** * Regular expressions of the language

    The patterns of the console's parsers, as terms: classes of code units, sequences,
    alternatives, the greedy quantifiers [*] and [?], numbered groups, [$] and [\b]. [run] is
    the matcher of the language specification: it explores the alternatives in order and
    backtracks through continuations, so the result is the first match in priority order. [matches] says what
    the patterns mean, without an order; [run_sound] and [run_complete] relate the two, which
    also shows that the fuel of a starred pattern (the length of what is left) is enough.
    A group inside a repeated pattern would be reset at each turn; no pattern here has one. *)
From S2P Require Import Prelude JsString.
Local Open Scope N_scope.

(** ** Patterns *)

Inductive re :=
| Empty
| Class (p : N → bool)
| Seq (a b : re)
| Alt (a b : re)
| Star (r : re)
| Opt (r : re)
| Group (n : nat) (r : re)
| End
| WordB.

Definition chr (c : N) : re := Class (N.eqb c).

Fixpoint lit (w : jsstr) : re :=
  match w with
  | [] => Empty
  | [c] => chr c
  | c :: w' => Seq (chr c) (lit w')
  end.

Definition ws : re := Star (Class is_ws).
Definition plus (p : N → bool) : re := Seq (Class p) (Star (Class p)).

(** [r1|r2|...] and [r1r2...] *)
Fixpoint alts (rs : list re) (last : re) : re :=
  match rs with
  | [] => last
  | r :: rs' => Alt r (alts rs' last)
  end.

Definition seqs (rs : list re) (last : re) : re := foldr Seq last rs.

(** ** The matcher *)

(** A position in the input: the unit before it, what follows, and the groups set so far. *)
Record pos := At { prev : option N; rest : jsstr; caps : list (nat * jsstr) }.

Definition cap (n : nat) (cs : list (nat * jsstr)) : option jsstr :=
  snd <$> List.find (λ e, (fst e =? n)%nat) cs.

Definition capture (n : nat) (x y : pos) : pos :=
  At (prev y) (rest y) ((n, take (length (rest x) - length (rest y)) (rest x)) :: caps y).

Definition is_word (c : N) : bool :=
  ((48 <=? c) && (c <=? 57)) || ((65 <=? c) && (c <=? 90)) || ((97 <=? c) && (c <=? 122)) || (c =? 95).

Definition word_at (o : option N) : bool := match o with Some c => is_word c | None => false end.

Definition shorter (y x : pos) : bool := (length (rest y) <? length (rest x))%nat.

(** Patterns that cannot match the empty text. *)
Fixpoint consumes (r : re) : bool :=
  match r with
  | Class _ => true
  | Seq a b => consumes a || consumes b
  | Alt a b => consumes a && consumes b
  | Group _ r => consumes r
  | _ => false
  end.

(** A turn of a repeated pattern that takes nothing is not taken. *)
Definition progress (r : re) (y x : pos) : bool := consumes r || shorter y x.

Section run.
Context {A : Type}.

Fixpoint star_loop (r : re) (turn : (pos → option A) → pos → option A) (k : pos → option A) (fuel : nat) (x : pos) :
    option A :=
  match fuel with
  | O => None
  | S f =>
      match turn (λ y, if progress r y x then star_loop r turn k f y else None) x with
      | Some a => Some a
      | None => k x
      end
  end.

Fixpoint run (r : re) (k : pos → option A) (x : pos) {struct r} : option A :=
  match r with
  | Empty => k x
  | Class p =>
      match rest x with
      | c :: t => if p c then k (At (Some c) t (caps x)) else None
      | [] => None
      end
  | Seq a b => run a (run b k) x
  | Alt a b => match run a k x with Some v => Some v | None => run b k x end
  | Star r => star_loop r (run r) k (S (length (rest x))) x
  | Opt r => match run r (λ y, if progress r y x then k y else None) x with Some v => Some v | None => k x end
  | Group n r => run r (λ y, k (capture n x y)) x
  | End => match rest x with [] => k x | _ => None end
  | WordB => if xorb (word_at (prev x)) (word_at (head (rest x))) then k x else None
  end.
End run.

(** [s.match(/^.../)] *)
Definition match_at (r : re) (x : pos) : option pos := run r Some x.

Definition start_of (s : jsstr) : pos := At None s [].

(** [re.exec(s)] from a position on: the first position at which the pattern matches. *)
Fixpoint exec_from (r : re) (pr : option N) (s : jsstr) : option pos :=
  match match_at r (At pr s []) with
  | Some y => Some y
  | None =>
      match s with
      | [] => None
      | c :: t => exec_from r (Some c) t
      end
  end.

(** The groups of the successive results of [re.exec(s)] with the flag [g], until there is none; [None]
    when the fuel runs out, as the loop of the source would not end on empty matches. *)
Fixpoint exec_all (r : re) (fuel : nat) (pr : option N) (s : jsstr) : option (list (list (nat * jsstr))) :=
  match fuel with
  | O => None
  | S f =>
      match exec_from r pr s with
      | None => Some []
      | Some y => cons (caps y) <$> exec_all r f (prev y) (rest y)
      end
  end.

Definition matchAll (r : re) (s : jsstr) : option (list (list (nat * jsstr))) :=
  exec_all r (S (length s)) None s.

(** ** What patterns mean *)

Inductive matches : re → pos → pos → Prop :=
| M_empty x : matches Empty x x
| M_class p pr c t cs : p c = true → matches (Class p) (At pr (c :: t) cs) (At (Some c) t cs)
| M_seq a b x y z : matches a x y → matches b y z → matches (Seq a b) x z
| M_alt_l a b x y : matches a x y → matches (Alt a b) x y
| M_alt_r a b x y : matches b x y → matches (Alt a b) x y
| M_star_nil r x : matches (Star r) x x
| M_star_cons r x y z :
    matches r x y → shorter y x = true → matches (Star r) y z → matches (Star r) x z
| M_opt_none r x : matches (Opt r) x x
| M_opt_some r x y : matches r x y → shorter y x = true → matches (Opt r) x y
| M_group n r x y : matches r x y → matches (Group n r) x (capture n x y)
| M_end pr cs : matches End (At pr [] cs) (At pr [] cs)
| M_wordb x : xorb (word_at (prev x)) (word_at (head (rest x))) = true → matches WordB x x.

Create HintDb regex.
#[export] Hint Constructors matches : regex.

Lemma matches_length r x y :
  matches r x y →
  (length (rest y) ≤ length (rest x))%nat ∧ (consumes r = true → (length (rest y) < length (rest x))%nat).
Proof.
  induction 1; simpl in *; rewrite ?orb_true_iff, ?andb_true_iff; unfold shorter in *; rewrite ?Nat.ltb_lt in *;
    split; try done; try lia; intros [? | ?] || intros [? ?] || intros ?; intuition lia.
Qed.

Lemma progress_matches r x y : matches r x y → progress r y x = shorter y x.
Proof.
  intros [_ H]%matches_length. unfold progress, shorter. destruct (consumes r); [|done].
  symmetry. by apply Nat.ltb_lt, H.
Qed.

Lemma star_loop_sound {A} r (k : pos → option A) fuel x a :
  (∀ (k' : pos → option A) x' a', run r k' x' = Some a' → ∃ y, matches r x' y ∧ k' y = Some a') →
  star_loop r (run r) k fuel x = Some a → ∃ y, matches (Star r) x y ∧ k y = Some a.
Proof.
  intros IH. revert x. induction fuel as [|f IHf]; intros x; simpl; [done|].
  destruct (run r _ x) as [v|] eqn:E; [|eauto with regex].
  intros [= <-]. apply IH in E as (y & Hy & E). rewrite (progress_matches _ _ _ Hy) in E. destruct (shorter y x) eqn:Hs; [|done].
  apply IHf in E as (z & Hz & Hk). eauto with regex.
Qed.

(** A result comes from a match. *)
Lemma run_sound {A} r : ∀ (k : pos → option A) x a,
  run r k x = Some a → ∃ y, matches r x y ∧ k y = Some a.
Proof.
  induction r as [|p|a IHa b IHb|a IHa b IHb|r IH|r IH|n r IH| |]; intros k x v; cbn [run].
  - eauto with regex.
  - destruct x as [pr [|c t] cs]; simpl; [done|]. destruct (p c) eqn:E; [|done]. eauto with regex.
  - intros (y & Hy & (z & Hz & Hk)%IHb)%IHa. eauto with regex.
  - destruct (run a k x) as [w|] eqn:E.
    + intros [= <-]. apply IHa in E as (y & ? & ?). eauto with regex.
    + intros (y & ? & ?)%IHb. eauto with regex.
  - apply star_loop_sound, IH.
  - destruct (run r _ x) as [w|] eqn:E; [|eauto with regex].
    intros [= <-]. apply IH in E as (y & Hy & E). rewrite (progress_matches _ _ _ Hy) in E. destruct (shorter y x) eqn:Hs; [|done]. eauto with regex.
  - intros (y & Hy & Hk)%IH. eauto with regex.
  - destruct x as [pr [|] cs]; simpl; [eauto with regex|done].
  - destruct (xorb _ _) eqn:E; [eauto with regex|done].
Qed.

Lemma star_loop_complete {A} r (k : pos → option A) :
  (∀ (k' : pos → option A) x' y, matches r x' y → k' y ≠ None → run r k' x' ≠ None) →
  ∀ x y, matches (Star r) x y → k y ≠ None →
  ∀ fuel, (length (rest x) < fuel)%nat → star_loop r (run r) k fuel x ≠ None.
Proof.
  intros IH x y Hm Hk. remember (Star r) as s eqn:Es. revert Es.
  induction Hm as [| | | | |r' x|r' x y z Hy _ Hs _ IHz| | | | |]; intros Es [|f] Hf; try done; try lia; simplify_eq; simpl.
  - destruct (run r _ x); done.
  - destruct (run r _ x) as [v|] eqn:E; [done|].
    destruct (IH (λ y, if progress r y x then star_loop r (run r) k f y else None) x y Hy); [|done].
    cbv beta. rewrite (progress_matches _ _ _ Hy), Hs. apply IHz; [done|done|]. unfold shorter in Hs. rewrite Nat.ltb_lt in Hs. lia.
Qed.

(** A match is found: some result is returned whenever a match with an accepted end exists. *)
Lemma run_complete {A} r : ∀ (k : pos → option A) x y,
  matches r x y → k y ≠ None → run r k x ≠ None.
Proof.
  induction r as [|p|a IHa b IHb|a IHa b IHb|r IH|r IH|n r IH| |]; intros k x y Hm Hk.
  - by inversion Hm; subst.
  - inversion Hm as [|? ? ? ? ? Hp| | | | | | | | | |]; subst. simpl. by rewrite Hp.
  - inversion Hm as [| |? ? ? z ? H1 H2| | | | | | | | |]; subst. simpl. by eapply IHa, IHb.
  - simpl. destruct (run a k x) eqn:E; [done|].
    inversion Hm as [| | |? ? ? ? H|? ? ? ? H| | | | | | |]; subst; [by destruct (IHa k x y H Hk)|by eapply IHb].
  - cbn [run]. eapply star_loop_complete; [exact IH|done..|lia].
  - simpl. destruct (run r _ x) eqn:E; [done|].
    inversion Hm as [| | | | | | | |? ? ? H Hs| | |]; subst; [done|].
    destruct (IH (λ y, if progress r y x then k y else None) x y H); [|done]. by rewrite (progress_matches _ _ _ H), Hs.
  - inversion Hm; subst. simpl. by eapply IH.
  - by inversion Hm; subst.
  - inversion Hm as [| | | | | | | | | | |? Hw]; subst. simpl. by rewrite Hw.
Qed.

Lemma match_at_shorter r x y :
  consumes r = true → match_at r x = Some y → (length (rest y) < length (rest x))%nat.
Proof.
  unfold match_at. intros Hc (z & Hz & [= <-])%run_sound. by apply (matches_length r x z).
Qed.

Lemma exec_from_shorter r pr s y :
  consumes r = true → exec_from r pr s = Some y → (length (rest y) < length s)%nat.
Proof.
  intros Hc. revert pr. induction s as [|c t IH]; intros pr; simpl;
    destruct (match_at r _) as [z|] eqn:E; try done;
    try (intros [= <-]; by apply match_at_shorter in E).
  intros H%IH. lia.
Qed.

(** The loop over the results of [exec] ends. *)
Lemma exec_all_total r fuel pr s :
  consumes r = true → (length s < fuel)%nat → ∃ l, exec_all r fuel pr s = Some l.
Proof.
  intros Hc. revert pr s. induction fuel as [|f IH]; intros pr s Hf; [lia|]. simpl.
  destruct (exec_from r pr s) as [y|] eqn:E; [|eauto]. apply exec_from_shorter in E; [|done].
  destruct (IH (prev y) (rest y)) as [l ->]; [lia|]. simpl. eauto.
Qed.

(** ** Texts on which the first choice is the right one *)

Definition prev_of (pr : option N) (u : jsstr) : option N := foldl (λ _ c, Some c) pr u.

Definition no_start (p : N → bool) (t : jsstr) : Prop :=
  match t with c :: _ => p c = false | [] => True end.

Section success.
Context {A : Type}.
Implicit Types (k : pos → option A).

Lemma run_lit w k pr t cs : run (lit w) k (At pr (w ++ t) cs) = k (At (prev_of pr w) t cs).
Proof.
  revert pr. induction w as [|c [|d w] IH]; intros pr; [done| |]; simpl; rewrite N.eqb_refl; [done|].
  apply (IH (Some c)).
Qed.

Lemma star_loop_run p u k pr t cs fuel :
  Forall (λ c, p c = true) u → no_start p t → (length u < fuel)%nat →
  k (At (prev_of pr u) t cs) ≠ None →
  star_loop (Class p) (run (Class p)) k fuel (At pr (u ++ t) cs) = k (At (prev_of pr u) t cs).
Proof.
  intros Hu Ht. revert pr fuel. induction Hu as [|c u Hc Hu IH]; intros pr [|f] Hf Hk; try (simpl in Hf; lia); simpl.
  - destruct t as [|d t]; [done|]. simpl in Ht. by rewrite Ht.
  - rewrite Hc. simpl in Hk, Hf.
    rewrite IH by (done || lia). by destruct (k _).
Qed.

(** A run of a class is taken whole when what follows it then succeeds. *)
Lemma run_star p u k pr t cs a :
  Forall (λ c, p c = true) u → no_start p t → k (At (prev_of pr u) t cs) = Some a →
  run (Star (Class p)) k (At pr (u ++ t) cs) = Some a.
Proof.
  intros Hu Ht Hk. change (star_loop (Class p) (run (Class p)) k (S (length (u ++ t))) (At pr (u ++ t) cs) = Some a).
  rewrite star_loop_run; [done..|rewrite length_app; lia|by rewrite Hk].
Qed.

Lemma run_plus p u k pr t cs a :
  u ≠ [] → Forall (λ c, p c = true) u → no_start p t → k (At (prev_of pr u) t cs) = Some a →
  run (plus p) k (At pr (u ++ t) cs) = Some a.
Proof.
  intros Hne Hu Ht Hk. destruct Hu as [|c u Hc Hu]; [done|]. unfold plus. cbn [run rest app caps]. rewrite Hc.
  by apply (run_star p u).
Qed.

Lemma capture_app n pr pr' u t cs cs' :
  capture n (At pr (u ++ t) cs) (At pr' t cs') = At pr' t ((n, u) :: cs').
Proof.
  unfold capture. simpl. rewrite length_app. replace (length u + length t - length t)%nat with (length u) by lia.
  by rewrite take_app_length.
Qed.

Lemma run_group_star n p u k pr t cs a :
  Forall (λ c, p c = true) u → no_start p t → k (At (prev_of pr u) t ((n, u) :: cs)) = Some a →
  run (Group n (Star (Class p))) k (At pr (u ++ t) cs) = Some a.
Proof. intros Hu Ht Hk. cbn [run]. apply (run_star p u); [done..|]. by rewrite capture_app. Qed.

Lemma run_group_plus n p u k pr t cs a :
  u ≠ [] → Forall (λ c, p c = true) u → no_start p t → k (At (prev_of pr u) t ((n, u) :: cs)) = Some a →
  run (Group n (plus p)) k (At pr (u ++ t) cs) = Some a.
Proof. intros Hne Hu Ht Hk. cbn [run]. apply (run_plus p u); [done..|]. by rewrite capture_app. Qed.

(** Optional white space before something else: one blank, or none. *)
Lemma run_ws_blank k pr t cs a :
  no_start is_ws t → k (At (Some 32) t cs) = Some a → run ws k (At pr (32 :: t) cs) = Some a.
Proof. intros Ht Hk. apply (run_star is_ws [32]); [by repeat constructor|done|done]. Qed.

Lemma run_ws_none k pr t cs a :
  no_start is_ws t → k (At pr t cs) = Some a → run ws k (At pr t cs) = Some a.
Proof. intros Ht Hk. by apply (run_star is_ws []). Qed.

Lemma run_opt r k x a :
  consumes r = true → run r k x = Some a → run (Opt r) k x = Some a.
Proof. intros Hc H. cbn [run]. unfold progress. rewrite Hc. cbn [orb]. change (λ y, k y) with k. by rewrite H. Qed.

Lemma run_ws_stop k pr t cs : no_start is_ws t → run ws k (At pr t cs) = k (At pr t cs).
Proof. intros Ht. destruct t as [|c t]; [done|]. simpl in Ht. unfold ws. simpl. by rewrite Ht. Qed.

Lemma run_ws_one k pr t cs :
  no_start is_ws t →
  run ws k (At pr (32 :: t) cs) =
  match k (At (Some 32) t cs) with Some a => Some a | None => k (At pr (32 :: t) cs) end.
Proof. intros Ht. destruct t as [|c t]; [done|]. simpl in Ht. unfold ws. simpl. by rewrite Ht. Qed.

Lemma run_lit_other c w k pr d t cs : c ≠ d → run (lit (c :: w)) k (At pr (d :: t) cs) = None.
Proof. intros H. destruct w; simpl; by rewrite (proj2 (N.eqb_neq c d)). Qed.

Lemma run_wordb k x : xorb (word_at (prev x)) (word_at (head (rest x))) = true → run WordB k x = k x.
Proof. intros H. cbn [run]. by rewrite H. Qed.

(** One more turn of a repeated pattern. *)
Lemma star_loop_turn r k f x a :
  consumes r = true → run r (star_loop r (run r) k f) x = Some a → star_loop r (run r) k (S f) x = Some a.
Proof.
  intros Hc H. cbn [star_loop]. unfold progress. rewrite Hc. cbn [orb].
  change (λ y, star_loop r (run r) k f y) with (star_loop r (run r) k f). by rewrite H.
Qed.

Lemma run_alt_l a b k x v : run a k x = Some v → run (Alt a b) k x = Some v.
Proof. intros H. cbn [run]. by rewrite H. Qed.

Lemma run_alt_r a b k x : run a k x = None → run (Alt a b) k x = run b k x.
Proof. intros H. cbn [run]. by rewrite H. Qed.

Lemma run_opt_skip r k x : (∀ k', run r k' x = None) → run (Opt r) k x = k x.
Proof. intros H. cbn [run]. by rewrite H. Qed.
End success.

Lemma exec_from_here r pr s y : match_at r (At pr s []) = Some y → exec_from r pr s = Some y.
Proof. intros H. destruct s; simpl; by rewrite H. Qed.

Lemma exec_from_next r pr c s :
  match_at r (At pr (c :: s) []) = None → exec_from r pr (c :: s) = exec_from r (Some c) s.
Proof. intros H. simpl. by rewrite H. Qed.
