(* ===== verification/BillingExpr.v ===== *)
(** * Request rules of billing expressions
      (web/src/features/pricing/lib/billing-expr.ts)

    A billing expression is a price, times factors [(condition ? multiplier : 1)] that
    depend on the request. The editor builds the factors from rule groups and reads them
    back; both directions are modelled, with the regular expressions written out as the
    deterministic scanners they amount to. [JSON.parse] is a parameter; [JSON.stringify]
    of a string is written out. *)
From S2P Require Import Prelude JsString JsValue.
Local Open Scope N_scope.
Local Open Scope js_scope.

Module Billing.

(** [JSON.parse] of a literal that the patterns accept may still throw. *)
Abbreviation throws := (result unit).

(** ** Constants *)

Definition MATCH_EQ : jsstr := js "eq".
Definition MATCH_CONTAINS : jsstr := js "contains".
Definition MATCH_GT : jsstr := js "gt".
Definition MATCH_GTE : jsstr := js "gte".
Definition MATCH_LT : jsstr := js "lt".
Definition MATCH_LTE : jsstr := js "lte".
Definition MATCH_EXISTS : jsstr := js "exists".
Definition MATCH_RANGE : jsstr := js "range".

Inductive TimeFunc := Hour | Minute | Weekday | Month | Day.

#[export] Instance TimeFunc_eq_dec : EqDecision TimeFunc.
Proof. solve_decision. Defined.

Definition TIME_FUNCS : list TimeFunc := [Hour; Minute; Weekday; Month; Day].

Definition time_name (f : TimeFunc) : jsstr :=
  match f with
  | Hour => js "hour" | Minute => js "minute" | Weekday => js "weekday" | Month => js "month"
  | Day => js "day"
  end.

Inductive PHSource := Param | Header.

#[export] Instance PHSource_eq_dec : EqDecision PHSource.
Proof. solve_decision. Defined.

Inductive RequestCondition :=
| TimeCondition (timeFunc : TimeFunc) (timezone mode value rangeStart rangeEnd : jsstr)
| ParamHeaderCondition (source : PHSource) (path mode value : jsstr).

(** The two further properties of a group are only set for traces of the server. *)
Record RequestRuleGroup := mkGroup { conditions : list RequestCondition; multiplier : jsstr }.

(** ** Scanners *)

Definition strip (p s : jsstr) : option jsstr :=
  if starts_with p s then Some (drop (length p) s) else None.

Fixpoint span (p : N → bool) (s : jsstr) : jsstr * jsstr :=
  match s with
  | u :: rest => if p u then let (a, b) := span p rest in (u :: a, b) else ([], s)
  | [] => ([], [])
  end.

(** One or more units other than a double quote, followed by a double quote. *)
Definition until_quote (s : jsstr) : option (jsstr * jsstr) :=
  let (a, b) := span (λ u, negb (u =? 34)) s in
  match a, b with
  | _ :: _, _ :: rest => Some (a, rest)
  | _, _ => None
  end.

(** [[\d.eE+-]] *)
Definition is_num_char (u : N) : bool :=
  is_digit u || (u =? 46) || (u =? 101) || (u =? 69) || (u =? 43) || (u =? 45).

(** [([\d.eE+-]+)] up to the end. *)
Definition num_to_end (s : jsstr) : option jsstr :=
  if truthy s && forallb is_num_char s then Some s else None.

(** [NUMERIC_LITERAL_REGEX] *)
Definition exponent_ok (s : jsstr) : bool :=
  match s with
  | [] => true
  | u :: rest =>
      ((u =? 101) || (u =? 69)) &&
      is_digits (match rest with
                 | v :: rest' => if (v =? 43) || (v =? 45) then rest' else rest
                 | [] => rest
                 end)
  end.

Definition is_numeric_literal (text : jsstr) : bool :=
  let s := match text with u :: rest => if u =? 45 then rest else text | [] => text end in
  let (ds, s1) := span is_digit s in
  match ds with
  | _ :: _ =>
      let s2 := match s1 with u :: rest => if u =? 46 then rest else s1 | [] => s1 end in
      exponent_ok (span is_digit s2).2
  | [] =>
      match s1 with
      | u :: rest =>
          (u =? 46) && truthy (span is_digit rest).1 && exponent_ok (span is_digit rest).2
      | [] => false
      end
  end.

Definition is_line_terminator (u : N) : bool :=
  (u =? 10) || (u =? 13) || (u =? 8232) || (u =? 8233).

(** A string literal after its opening quote, up to the closing one: units other than
    quotes and backslashes, and escapes [\\.]. *)
Fixpoint literal_body (s : jsstr) : option (jsstr * jsstr) :=
  match s with
  | [] => None
  | u :: rest =>
      if u =? 34 then Some ([], rest)
      else if u =? 92 then
        match rest with
        | v :: rest' =>
            if is_line_terminator v then None
            else match literal_body rest' with Some (a, b) => Some (u :: v :: a, b) | None => None end
        | [] => None
        end
      else match literal_body rest with Some (a, b) => Some (u :: a, b) | None => None end
  end.

(** A string literal followed by [)] and the end: the literal with its quotes. *)
Definition literal_then_close (s : jsstr) : option jsstr :=
  match strip [34] s with
  | Some r =>
      match literal_body r with
      | Some (body, [41]) => Some (34 :: body ++ [34])
      | _ => None
      end
  | None => None
  end.

(** ** Splitting at the top level *)

Definition depth_after (u : N) (depth : Z) : Z :=
  if u =? 40 then (depth + 1)%Z else if u =? 41 then (depth - 1)%Z else depth.

(** The loop of [splitTopLevelMultiply] and [splitTopLevelAnd]; [cur] is
    [expr.slice(start, index)], [skip] the characters of a separator still to pass. *)
Fixpoint split_go (sep s : jsstr) (depth : Z) (cur : jsstr) (skip : nat) : list jsstr :=
  match s with
  | [] => [cur]
  | u :: rest =>
      match skip with
      | S k => split_go sep rest (depth_after u depth) cur k
      | O =>
          let depth' := depth_after u depth in
          if (depth' =? 0)%Z && starts_with sep s
          then cur :: split_go sep rest depth' [] (length sep - 1)
          else split_go sep rest depth' (cur ++ [u]) O
      end
  end.

Definition split_top (sep expr : jsstr) : list jsstr :=
  List.filter truthy (map trim (split_go sep expr 0 [] 0)).

Definition splitTopLevelMultiply (expr : jsstr) : list jsstr := split_top (js " * ") expr.
Definition splitTopLevelAnd (expr : jsstr) : list jsstr := split_top (js " && ") expr.

(** ** Parsing *)

Section parsing.
Context (JSON_parse : jsstr → option value) (to_string : value → jsstr).

(** [parseExprLiteral], its result as [String] makes of it; [None]: [null]. *)
Definition parseExprLiteral (raw : jsstr) : option jsstr :=
  let text := trim raw in
  if streq text (js "true") || streq text (js "false") then Some text
  else if is_numeric_literal text then Some text
  else match JSON_parse text with
       | Some Null | None => None
       | Some v => Some (to_string v)
       end.

Definition time_funcs_prefix (s : jsstr) : option (TimeFunc * jsstr) :=
  match List.find (λ f, starts_with (time_name f ++ js "(") s) TIME_FUNCS with
  | Some f => Some (f, drop (length (time_name f)) s)
  | None => None
  end.

(** The name of a time function and its quoted argument in parentheses. *)
Definition time_call (s : jsstr) : option (TimeFunc * jsstr * jsstr) :=
  match time_funcs_prefix s with
  | None => None
  | Some (f, s1) =>
      match strip (40 :: [34]) s1 with
      | None => None
      | Some s2 =>
          match until_quote s2 with
          | Some (tz, s3) =>
              match strip [41] s3 with Some s4 => Some (f, tz, s4) | None => None end
          | None => None
          end
      end
  end.

(** The overnight range [f(tz) >= a || f(tz) < b]. *)
Definition time_range (s : jsstr) : option RequestCondition :=
  match time_call s with
  | None => None
  | Some (f, tz, s1) =>
      match strip (js " >= ") s1 with
      | None => None
      | Some s2 =>
          let (a, s3) := span is_num_char s2 in
          match strip (js " || " ++ time_name f ++ 40 :: 34 :: tz ++ 34 :: 41 :: js " < ") s3 with
          | None => None
          | Some s4 =>
              match num_to_end s4 with
              | Some b =>
                  if truthy a then Some (TimeCondition f tz MATCH_RANGE [] a b) else None
              | None => None
              end
          end
      end
  end.

Definition time_compare (s : jsstr) : option RequestCondition :=
  match time_call s with
  | None => None
  | Some (f, tz, s1) =>
      let with_op (op mode : jsstr) :=
        match strip (32 :: op ++ [32]) s1 with
        | Some s2 =>
            match num_to_end s2 with
            | Some v => Some (TimeCondition f tz mode v [] [])
            | None => None
            end
        | None => None
        end in
      match with_op (js "==") MATCH_EQ with
      | Some c => Some c
      | None =>
          match with_op (js ">=") MATCH_GTE with
          | Some c => Some c
          | None => with_op (js "<") MATCH_LT
          end
      end
  end.

(** The range inside one pair of parentheses. *)
Definition time_range_parens (expr : jsstr) : option RequestCondition :=
  match strip [40] expr with
  | Some s =>
      match last s with
      | Some 41 => time_range (removelast s)
      | _ => None
      end
  | None => None
  end.

Definition tryParseTimeCondition (expr : jsstr) : option RequestCondition :=
  match time_range expr with
  | Some c => Some c
  | None =>
      match time_range_parens expr with
      | Some c => Some c
      | None => time_compare expr
      end
  end.

(** A call of [name] with one quoted argument. *)
Definition call_path (name s : jsstr) : option (jsstr * jsstr) :=
  match strip (name ++ 40 :: [34]) s with
  | None => None
  | Some s1 =>
      match until_quote s1 with
      | Some (path, s2) => match strip [41] s2 with Some s3 => Some (path, s3) | None => None end
      | None => None
      end
  end.

Definition source_name (src : PHSource) : jsstr :=
  match src with Param => js "param" | Header => js "header" end.

Definition parse_header_exists (expr : jsstr) : option RequestCondition :=
  match call_path (js "header") expr with
  | Some (path, s) =>
      if streq s (js " != " ++ [34; 34])
      then Some (ParamHeaderCondition Header path MATCH_EXISTS []) else None
  | None => None
  end.

Definition parse_param_exists (expr : jsstr) : option RequestCondition :=
  match call_path (js "param") expr with
  | Some (path, s) =>
      if streq s (js " != nil")
      then Some (ParamHeaderCondition Param path MATCH_EXISTS []) else None
  | None => None
  end.

(** The value [JSON.parse] makes of a matched literal; it may throw. *)
Definition json_string (lit : jsstr) : throws jsstr :=
  match JSON_parse lit with Some v => Ok (to_string v) | None => Throw tt end.

Definition contains_condition (src : PHSource) (path lit : jsstr) :
    throws (option RequestCondition) :=
  try! v := json_string lit in Ok (Some (ParamHeaderCondition src path MATCH_CONTAINS v)).

(** [None] when the pattern does not match; else what the branch does. *)
Definition parse_header_contains (expr : jsstr) : option (throws (option RequestCondition)) :=
  match strip (js "has(") expr with
  | None => None
  | Some s =>
      match call_path (js "header") s with
      | Some (path, s1) =>
          match strip (js ", ") s1 with
          | Some s2 =>
contains_condition Header path <$> literal_then_close s2
          | None => None
          end
      | None => None
      end
  end.

Definition parse_param_contains (expr : jsstr) : option (throws (option RequestCondition)) :=
  match call_path (js "param") expr with
  | None => None
  | Some (path, s) =>
      match strip (js " != nil && has(") s with
      | None => None
      | Some s1 =>
          match call_path (js "param") s1 with
          | Some (path', s2) =>
              match strip (js ", ") s2 with
              | Some s3 =>
                  match literal_then_close s3 with
                  | Some lit =>
                      if streq path path' then Some (contains_condition Param path lit) else None
                  | None => None
                  end
              | None => None
              end
          | None => None
          end
      end
  end.

(** The operators in an order in which the longer one of a common prefix fails first. *)
Definition compare_op (s : jsstr) : option (jsstr * jsstr) :=
  match strip (js " > ") s with
  | Some r => Some (MATCH_GT, r)
  | None =>
      match strip (js " >= ") s with
      | Some r => Some (MATCH_GTE, r)
      | None =>
          match strip (js " < ") s with
          | Some r => Some (MATCH_LT, r)
          | None =>
              match strip (js " <= ") s with Some r => Some (MATCH_LTE, r) | None => None end
          end
      end
  end.

Definition parse_param_compare (expr : jsstr) : option RequestCondition :=
  match call_path (js "param") expr with
  | None => None
  | Some (path, s) =>
      match strip (js " != nil && ") s with
      | None => None
      | Some s1 =>
          match call_path (js "param") s1 with
          | Some (path', s2) =>
              match compare_op s2 with
              | Some (mode, r) =>
                  match num_to_end r with
                  | Some v =>
                      if streq path path' then Some (ParamHeaderCondition Param path mode v) else None
                  | None => None
                  end
              | None => None
              end
          | None => None
          end
      end
  end.

(** A call of the source, then [ == (.+)]: the path and the literal. *)
Definition parse_eq (src : PHSource) (expr : jsstr) : option (jsstr * jsstr) :=
  match call_path (source_name src) expr with
  | Some (path, s) =>
      match strip (js " == ") s with
      | Some lit =>
          if truthy lit && negb (existsb is_line_terminator lit) then Some (path, lit) else None
      | None => None
      end
  | None => None
  end.

Definition eq_condition (src : PHSource) (path lit : jsstr) : option RequestCondition :=
  ParamHeaderCondition src path MATCH_EQ <$> parseExprLiteral lit.

(** [tryParseRequestCondition] after the two containment patterns. *)
Definition parse_compare_or_eq (expr : jsstr) : option RequestCondition :=
  match parse_param_compare expr with
  | Some c => Some c
  | None =>
      match parse_eq Param expr with
      | Some (path, lit) => eq_condition Param path lit
      | None =>
          match parse_eq Header expr with
          | Some (path, lit) => eq_condition Header path lit
          | None => None
          end
      end
  end.

Definition tryParseRequestCondition (expr : jsstr) : throws (option RequestCondition) :=
  match tryParseTimeCondition expr with
  | Some c => Ok (Some c)
  | None =>
  match parse_header_exists expr with
  | Some c => Ok (Some c)
  | None =>
  match parse_param_exists expr with
  | Some c => Ok (Some c)
  | None =>
  match parse_header_contains expr with
  | Some r => r
  | None =>
  match parse_param_contains expr with
  | Some r => r
  | None => Ok (parse_compare_or_eq expr)
  end end end end end.

(** The loops that parse each part and give up at the first that does not parse. *)
Fixpoint parse_all {A} (f : jsstr → throws (option A)) (parts : list jsstr) :
    throws (option (list A)) :=
  match parts with
  | [] => Ok (Some [])
  | p :: rest =>
      try! r := f p in
      match r with
      | None => Ok None
      | Some a => try! l := parse_all f rest in Ok (cons a <$> l)
      end
  end.

Definition tryParseRequestConditions (conditionStr : jsstr) :
    throws (option (list RequestCondition)) :=
  try! cs := parse_all (λ p, tryParseRequestCondition (trim p)) (splitTopLevelAnd conditionStr) in
  Ok (match cs with Some (c :: cs') => Some (c :: cs') | _ => None end).

(** [^\((.+) \? ([\d.eE+-]+) : 1\)$]: the condition and the multiplier. The multiplier is
    the longest run of its characters before [ : 1)], as a space precedes it. *)
Definition match_factor (part : jsstr) : option (jsstr * jsstr) :=
  match strip [40] part with
  | None => None
  | Some s =>
      match strip (rev (js " : 1)")) (rev s) with
      | None => None
      | Some r =>
          let (m, r1) := span is_num_char r in
          match strip (js " ? ") r1 with
          | Some (x :: c) => if truthy m then Some (rev (x :: c), rev m) else None
          | _ => None
          end
      end
  end.

Definition tryParseRuleGroupFactor (part : jsstr) : throws (option RequestRuleGroup) :=
  match match_factor part with
  | None => Ok None
  | Some (c, m) => try! cs := tryParseRequestConditions c in Ok ((λ cs, mkGroup cs m) <$> cs)
  end.

Definition tryParseRequestRuleExpr (expr : jsstr) : throws (option (list RequestRuleGroup)) :=
  let trimmed := trim expr in
  if negb (truthy trimmed) then Ok (Some [])
  else parse_all tryParseRuleGroupFactor (splitTopLevelMultiply trimmed).

(** ** Combining and splitting *)

(** The loop of [hasFullOuterParens] from depth [depth]. *)
Fixpoint outer_go (s : jsstr) (depth : Z) : bool :=
  match s with
  | [] => (depth =? 0)%Z
  | u :: rest =>
      let depth' := depth_after u depth in
      if (depth' =? 0)%Z && truthy rest then false else outer_go rest depth'
  end.

Definition hasFullOuterParens (expr : jsstr) : bool :=
  starts_with [40] expr && ends_with [41] expr && outer_go expr 0.

(** [unwrapOuterParens]: each round removes two characters. *)
Fixpoint unwrap_go (fuel : nat) (current : jsstr) : jsstr :=
  match fuel with
  | O => current
  | S f =>
      if hasFullOuterParens current then unwrap_go f (trim (removelast (drop 1 current))) else current
  end.

Definition unwrapOuterParens (expr : jsstr) : jsstr := unwrap_go (length expr) (trim expr).

Definition is_rule_part (part : jsstr) : throws bool :=
  try! parsed := tryParseRequestRuleExpr part in
  Ok (match parsed with Some (_ :: _) => true | _ => false end).

(** The [forEach] loop: the rule parts and the base parts, in order. *)
Fixpoint sort_parts (parts : list jsstr) : throws (list jsstr * list jsstr) :=
  match parts with
  | [] => Ok ([], [])
  | p :: rest =>
      try! b := is_rule_part p in
      try! r := sort_parts rest in
      Ok (if b : bool then (p :: r.1, r.2) else (r.1, p :: r.2))
  end.

(** The billing expression and the request rules. *)
Definition splitBillingExprAndRequestRules (expr : jsstr) : throws (jsstr * jsstr) :=
  let trimmed := trim expr in
  if negb (truthy trimmed) then Ok ([], [])
  else
    let parts := splitTopLevelMultiply trimmed in
    if (length parts <=? 1)%nat then Ok (trimmed, [])
    else
      try! r := sort_parts parts in
      Ok (match r with
          | (_ :: _, [base]) => (unwrapOuterParens base, join (js " * ") r.1)
          | _ => (trimmed, [])
          end).

Definition combineBillingExpr (baseExpr requestRuleExpr : jsstr) : jsstr :=
  let base := trim baseExpr in
  let rules := trim requestRuleExpr in
  if negb (truthy base) then []
  else if negb (truthy rules) then base
  else 40 :: base ++ 41 :: js " * " ++ rules.
End parsing.

(** ** Building *)

Definition hex_digit (n : N) : N := if n <? 10 then 48 + n else 87 + n.

Definition unicode_escape (u : N) : jsstr :=
  [92; 117; hex_digit (u / 4096); hex_digit (u / 256 mod 16); hex_digit (u / 16 mod 16);
   hex_digit (u mod 16)].

Definition is_high (u : N) : bool := (55296 <=? u) && (u <=? 56319).
Definition is_low (u : N) : bool := (56320 <=? u) && (u <=? 57343).

Definition quote_unit (u : N) : jsstr :=
  if u =? 34 then [92; 34] else if u =? 92 then [92; 92]
  else if u =? 8 then [92; 98] else if u =? 12 then [92; 102] else if u =? 10 then [92; 110]
  else if u =? 13 then [92; 114] else if u =? 9 then [92; 116]
  else if u <? 32 then unicode_escape u else [u].

(** The body of [JSON.stringify(s)]; lone surrogates are escaped. *)
Fixpoint quote_body (s : jsstr) : jsstr :=
  match s with
  | [] => []
  | u :: rest =>
      if is_high u then
        match rest with
        | v :: rest' =>
            if is_low v then u :: v :: quote_body rest' else unicode_escape u ++ quote_body rest
        | [] => unicode_escape u
        end
      else if is_low u then unicode_escape u ++ quote_body rest
      else quote_unit u ++ quote_body rest
  end.

Definition json_quote (s : jsstr) : jsstr := 34 :: quote_body s ++ [34].

Definition buildExprLiteral (mode v : jsstr) : jsstr :=
  let text := trim v in
  if streq mode MATCH_CONTAINS then json_quote text
  else if streq text (js "true") || streq text (js "false") then text
  else if is_numeric_literal text then text
  else json_quote text.

(** The values of [getRequestRuleMatchOptions] for each source. *)
Definition time_modes : list jsstr := [MATCH_EQ; MATCH_GTE; MATCH_LT; MATCH_RANGE].
Definition header_modes : list jsstr := [MATCH_EQ; MATCH_CONTAINS; MATCH_EXISTS].
Definition param_modes : list jsstr := header_modes ++ [MATCH_GT; MATCH_GTE; MATCH_LT; MATCH_LTE].

(** [normalizeCondition] on a complete condition. *)
Definition normalizeCondition (c : RequestCondition) : RequestCondition :=
  match c with
  | TimeCondition f tz mode v a b =>
      TimeCondition f (str_or tz (js "Asia/Shanghai"))
        (if existsb (λ m, streq m mode) time_modes then mode else MATCH_GTE) v a b
  | ParamHeaderCondition src path mode v =>
      ParamHeaderCondition src path
        (if existsb (λ m, streq m mode)
              (match src with Header => header_modes | Param => param_modes end)
         then mode else MATCH_EQ) v
  end.

Definition buildTimeConditionExpr (f : TimeFunc) (tz mode v a b : jsstr) : jsstr :=
  let fn := time_name f ++ 40 :: json_quote tz ++ [41] in
  if streq mode MATCH_RANGE then
    if negb (is_numeric_literal (trim a)) || negb (is_numeric_literal (trim b)) then []
    else fn ++ js " >= " ++ trim a ++ js " || " ++ fn ++ js " < " ++ trim b
  else if negb (is_numeric_literal (trim v)) then []
  else
    let op := if streq mode MATCH_GTE then js ">=" else if streq mode MATCH_LT then js "<"
              else js "==" in
    fn ++ 32 :: op ++ 32 :: trim v.

Definition param_op (mode : jsstr) : option jsstr :=
  if streq mode MATCH_GT then Some (js ">") else if streq mode MATCH_GTE then Some (js ">=")
  else if streq mode MATCH_LT then Some (js "<") else if streq mode MATCH_LTE then Some (js "<=")
  else None.

Definition buildRequestConditionExpr (cond : RequestCondition) : jsstr :=
  match normalizeCondition cond with
  | TimeCondition f tz mode v a b => buildTimeConditionExpr f tz mode v a b
  | ParamHeaderCondition src path0 mode v =>
      let path := trim path0 in
      if negb (truthy path) then []
      else
        let sourceExpr := source_name src ++ 40 :: json_quote path ++ [41] in
        if streq mode MATCH_EXISTS then
          match src with
          | Header => sourceExpr ++ js " != " ++ [34; 34]
          | Param => sourceExpr ++ js " != nil"
          end
        else if streq mode MATCH_CONTAINS then
          match src with
          | Header => js "has(" ++ sourceExpr ++ js ", " ++ buildExprLiteral mode v ++ [41]
          | Param => sourceExpr ++ js " != nil && has(" ++ sourceExpr ++ js ", " ++
                     buildExprLiteral mode v ++ [41]
          end
        else
          match param_op mode with
          | Some op =>
              if negb (is_numeric_literal (trim v)) then []
              else sourceExpr ++ js " != nil && " ++ sourceExpr ++ 32 :: op ++ 32 :: trim v
          | None => sourceExpr ++ js " == " ++ buildExprLiteral mode v
          end
  end.

Definition buildRuleGroupFactor (g : RequestRuleGroup) : jsstr :=
  let m := trim (multiplier g) in
  if negb (is_numeric_literal m) then []
  else
    match List.filter truthy (map buildRequestConditionExpr (conditions g)) with
    | [] => []
    | condExprs =>
        let combined :=
          match condExprs with
          | [e] => e
          | _ => join (js " && ")
                   (map (λ e, if includes (js " || ") e then 40 :: e ++ [41] else e) condExprs)
          end in
        40 :: combined ++ js " ? " ++ m ++ js " : 1)"
    end.

Definition buildRequestRuleExpr (groups : list RequestRuleGroup) : jsstr :=
  join (js " * ") (List.filter truthy (map buildRuleGroupFactor groups)).

(** ** What the editor can write and read back *)

(** Code units that the syntax carries unchanged: no quotes, backslashes, parentheses,
    ampersands, bars, controls, line separators or surrogates. *)
Definition is_plain (u : N) : bool :=
  (32 <=? u) && negb (existsb (N.eqb u) [34; 38; 40; 41; 92; 124]) &&
  negb (is_line_terminator u) && negb (is_high u) && negb (is_low u).

Definition plain (s : jsstr) : bool := forallb is_plain s.

Definition is_trimmed (s : jsstr) : bool := streq (trim s) s.

(** Complete conditions of the forms that are built without [&&]. *)
Definition supported (c : RequestCondition) : bool :=
  match c with
  | TimeCondition f tz mode v a b =>
      plain tz && truthy tz &&
      (if streq mode MATCH_RANGE
       then negb (truthy v) && is_numeric_literal a && is_numeric_literal b
       else existsb (streq mode) [MATCH_EQ; MATCH_GTE; MATCH_LT] && is_numeric_literal v &&
            negb (truthy a) && negb (truthy b))
  | ParamHeaderCondition src path mode v =>
      plain path && truthy path && is_trimmed path && plain v && is_trimmed v &&
      (streq mode MATCH_EQ || streq mode MATCH_EXISTS && negb (truthy v) ||
       streq mode MATCH_CONTAINS && bool_decide (src = Header))
  end.

Definition supported_group (g : RequestRuleGroup) : bool :=
  negb (bool_decide (conditions g = [])) && forallb supported (conditions g) &&
  is_numeric_literal (multiplier g).

(** ** Scanner lemmas *)

Lemma strip_app p s : strip p (p ++ s) = Some s.
Proof.
  unfold strip. assert (starts_with p (p ++ s) = true) as -> by (apply starts_with_spec; eauto).
  by rewrite drop_app_length.
Qed.

Lemma span_app p a b :
  forallb p a = true → match b with u :: _ => p u = false | [] => True end →
  span p (a ++ b) = (a, b).
Proof.
  intros Ha Hb. induction a as [|u a IH]; simpl in *.
  - destruct b; simpl; [done|]. by rewrite Hb.
  - apply andb_true_iff in Ha as [-> Ha]. by rewrite IH.
Qed.

Lemma span_all p a : forallb p a = true → span p a = (a, []).
Proof. intros. rewrite <- (app_nil_r a) at 1. by apply span_app. Qed.

Lemma span_eq p s : s = (span p s).1 ++ (span p s).2.
Proof. induction s as [|u s IH]; simpl; [done|]. destruct (p u), (span p s); simpl in *; congruence. Qed.

Lemma span_fst p s : forallb p (span p s).1 = true.
Proof.
  induction s as [|u s IH]; simpl; [done|]. destruct (p u) eqn:E; [|done].
  destruct (span p s); simpl in *. by rewrite E.
Qed.

Lemma plain_neq c s :
  plain s = true → is_plain c = false → forallb (λ u, negb (u =? c)) s = true.
Proof.
  unfold plain. intros Hs Hc. induction s as [|u s IH]; simpl in *; [done|]. split_bools.
  rewrite IH by done. rewrite andb_true_r. apply negb_true_iff, N.eqb_neq. congruence.
Qed.

Lemma plain_not_in c s : plain s = true → is_plain c = false → c ∉ s.
Proof.
  unfold plain. rewrite forallb_Forall, Forall_forall. intros Hs Hc Hin%Hs. congruence.
Qed.

Lemma until_quote_plain s r :
  plain s = true → truthy s = true → until_quote (s ++ 34 :: r) = Some (s, r).
Proof.
  intros Hs Ht. unfold until_quote. rewrite span_app; [|by apply plain_neq|done].
  by destruct s.
Qed.

Lemma literal_body_plain s r : plain s = true → literal_body (s ++ 34 :: r) = Some (s, r).
Proof.
  unfold plain. induction s as [|u s IH]; simpl; intros H; split_bools; [done|].
  assert (u ≠ 34 ∧ u ≠ 92) as [? ?] by (split; intros ->; done).
  rewrite !(proj2 (N.eqb_neq _ _)) by done. by rewrite IH.
Qed.

Lemma quote_body_plain s : plain s = true → quote_body s = s.
Proof.
  unfold plain. induction s as [|u s IH]; simpl; intros H; [done|]. split_bools.
  match goal with Hp : is_plain u = true |- _ => rename Hp into Hu end.
  pose proof Hu as Hu'. unfold is_plain in Hu'. split_bools.
  repeat match goal with Hx : _ = false |- _ => rewrite Hx end.
  rewrite IH by done. unfold quote_unit.
  assert (32 <= u) by (by apply N.leb_le).
  assert (u ≠ 34 ∧ u ≠ 92) as [? ?] by (split; intros ->; done).
  rewrite !(proj2 (N.eqb_neq _ _)) by (done || lia).
  by rewrite (proj2 (N.ltb_ge _ _)).
Qed.

Lemma json_quote_plain s : plain s = true → json_quote s = 34 :: s ++ [34].
Proof. intros. unfold json_quote. by rewrite quote_body_plain. Qed.

(** ** Numeric literals *)

Lemma forallb_impl {A} (p q : A → bool) l :
  (∀ x, p x = true → q x = true) → forallb p l = true → forallb q l = true.
Proof. rewrite !forallb_Forall. intros ? ?. eapply Forall_impl; eauto. Qed.

Lemma digit_num u : is_digit u = true → is_num_char u = true.
Proof. unfold is_num_char. by intros ->. Qed.

Lemma digits_num s : forallb is_digit s = true → forallb is_num_char s = true.
Proof. apply forallb_impl, digit_num. Qed.

Lemma span_digits_num s :
  forallb is_num_char (span is_digit s).2 = true → forallb is_num_char s = true.
Proof.
  intros H. rewrite (span_eq is_digit s). rewrite forallb_app, H, andb_true_r.
  apply digits_num, span_fst.
Qed.

Lemma exponent_num s : exponent_ok s = true → forallb is_num_char s = true.
Proof.
  destruct s as [|u s]; simpl; [done|]. intros [Hu Hs]%andb_true_iff.
  assert (is_num_char u = true) as ->.
  { apply orb_true_iff in Hu as [->%N.eqb_eq| ->%N.eqb_eq]; done. }
  unfold is_digits in Hs. simpl. destruct s as [|v s]; [done|].
  destruct ((v =? 43) || (v =? 45)) eqn:E; split_bools; [|by apply digits_num].
  simpl. apply andb_true_iff; split; [|by apply digits_num].
  apply orb_true_iff in E as [->%N.eqb_eq| ->%N.eqb_eq]; done.
Qed.

Lemma numeric_unsigned s :
  (let (ds, s1) := span is_digit s in
   match ds with
   | _ :: _ => exponent_ok (span is_digit
       (match s1 with u :: rest => if u =? 46 then rest else s1 | [] => s1 end)).2
   | [] => match s1 with
           | u :: rest =>
               (u =? 46) && truthy (span is_digit rest).1 && exponent_ok (span is_digit rest).2
           | [] => false
           end
   end) = true → forallb is_num_char s = true ∧ s ≠ [].
Proof.
  intros H. split; [|by intros ->]. apply span_digits_num.
  destruct (span is_digit s) as [[|d ds] [|u s1]]; simpl in *; try done; split_bools.
  - assert (u = 46) as -> by (by apply N.eqb_eq). apply span_digits_num. by apply exponent_num.
  - destruct (u =? 46) eqn:E.
    + apply N.eqb_eq in E as ->. apply span_digits_num. by apply exponent_num.
    + by apply (span_digits_num (u :: s1)), exponent_num.
Qed.

(** A numeric literal is a non-empty run of the characters [[\d.eE+-]]. *)
Lemma numeric_chars s : is_numeric_literal s = true → forallb is_num_char s = true ∧ s ≠ [].
Proof.
  unfold is_numeric_literal. destruct s as [|u s]; [done|].
  destruct (u =? 45) eqn:E; [|apply numeric_unsigned].
  intros [H _]%numeric_unsigned. apply N.eqb_eq in E as ->. done.
Qed.

Lemma num_char_cases u :
  is_num_char u = true → u ∈ [43; 45; 46; 48; 49; 50; 51; 52; 53; 54; 55; 56; 57; 69; 101].
Proof.
  unfold is_num_char, is_digit. rewrite !orb_true_iff, andb_true_iff, !N.leb_le, !N.eqb_eq.
  intros H. rewrite !elem_of_cons. lia.
Qed.

(** Decide a property of the fifteen characters by computing it. *)
Lemma num_char_dec (P : N → bool) u :
  forallb P [43; 45; 46; 48; 49; 50; 51; 52; 53; 54; 55; 56; 57; 69; 101] = true →
  is_num_char u = true → P u = true.
Proof.
  rewrite forallb_Forall, Forall_forall. intros H Hu. by apply H, num_char_cases.
Qed.

Lemma num_chars_dec (P : N → bool) s :
  forallb P [43; 45; 46; 48; 49; 50; 51; 52; 53; 54; 55; 56; 57; 69; 101] = true →
  forallb is_num_char s = true → forallb P s = true.
Proof. intros H. apply forallb_impl. intros u. by apply num_char_dec. Qed.

Lemma numeric_trim s : is_numeric_literal s = true → trim s = s.
Proof.
  intros [H _]%numeric_chars. apply trim_no_ws.
  eapply (num_chars_dec (λ u, negb (is_ws u))), forallb_Forall in H; [|done].
  eapply Forall_impl; [done|]. intros u ?. by apply negb_true_iff.
Qed.

Lemma numeric_to_end s : is_numeric_literal s = true → num_to_end s = Some s.
Proof.
  intros [H Hne]%numeric_chars. unfold num_to_end. rewrite H. by destruct s.
Qed.

(** ** Parentheses and the splitting loop *)

Definition run_depth (s : jsstr) (d : Z) : Z := foldl (λ d u, depth_after u d) d s.

(** The depth after each unit of [s] is at least [k]. *)
Fixpoint stays (k : Z) (s : jsstr) (d : Z) : Prop :=
  match s with
  | [] => True
  | u :: r => (k ≤ depth_after u d)%Z ∧ stays k r (depth_after u d)
  end.

(** A text whose parentheses nest. *)
Definition nested (s : jsstr) : Prop := ∀ d, run_depth s d = d ∧ stays d s d.

Lemma run_depth_app a b d : run_depth (a ++ b) d = run_depth b (run_depth a d).
Proof. apply foldl_app. Qed.

Lemma stays_app k a b d : stays k (a ++ b) d ↔ stays k a d ∧ stays k b (run_depth a d).
Proof. revert d. induction a as [|u a IH]; intros d; simpl; [naive_solver|]. rewrite IH. naive_solver. Qed.

Lemma stays_le k k' s d : (k' ≤ k)%Z → stays k s d → stays k' s d.
Proof. intros Hk. revert d. induction s; simpl; naive_solver lia. Qed.

Lemma nested_app a b : nested a → nested b → nested (a ++ b).
Proof.
  intros Ha Hb d. rewrite run_depth_app, stays_app. destruct (Ha d) as [-> ?]. destruct (Hb d). done.
Qed.

Lemma nested_parens a : nested a → nested (40 :: a ++ [41]).
Proof.
  intros Ha d. destruct (Ha (d + 1)%Z) as [Hr Hs].
  change (run_depth (40 :: a ++ [41]) d) with (run_depth (a ++ [41]) (d + 1)%Z).
  change (stays d (40 :: a ++ [41]) d) with
    ((d ≤ d + 1)%Z ∧ stays d (a ++ [41]) (d + 1)%Z).
  rewrite run_depth_app, stays_app, Hr. cbn. split; [lia|].
  repeat split; try lia. eapply stays_le; [|done]. lia.
Qed.

Definition no_parens (s : jsstr) : bool := forallb (λ u, negb (u =? 40) && negb (u =? 41)) s.

Lemma nested_free s : no_parens s = true → nested s.
Proof.
  intros H d. induction s as [|u s IH]; simpl in *; [done|]. split_bools.
  unfold run_depth in *. simpl. unfold depth_after.
  repeat match goal with Hx : _ = false |- _ => rewrite Hx end.
  destruct (IH ltac:(done)). repeat split; [done|lia|done].
Qed.

Lemma nested_plain s : plain s = true → nested s.
Proof.
  intros H. apply nested_free. eapply forallb_impl; [|done].
  intros u Hu. apply andb_true_iff; split; apply negb_true_iff, N.eqb_neq; by intros ->.
Qed.

Lemma nested_numeric s : is_numeric_literal s = true → nested s.
Proof. intros [H _]%numeric_chars. apply nested_free. revert H. by apply num_chars_dec. Qed.

(** No cut inside a text when the depth never is zero at a unit that begins the separator. *)
Lemma split_go_text sep p s d cur :
  (∀ a b, p = a ++ b → b ≠ [] →
    run_depth (a ++ take 1 b) d ≠ 0%Z ∨ starts_with sep (b ++ s) = false) →
  split_go sep (p ++ s) d cur 0 = split_go sep s (run_depth p d) (cur ++ p) 0.
Proof.
  revert d cur. induction p as [|u p IH]; intros d cur H; [by rewrite app_nil_r|].
  cbn [app split_go]. 
  assert ((depth_after u d =? 0)%Z && starts_with sep (u :: p ++ s) = false) as ->.
  { destruct (H [] (u :: p) eq_refl ltac:(done)) as [Hd|Hs].
    - apply andb_false_iff; left. by apply Z.eqb_neq.
    - rewrite app_comm_cons, Hs. apply andb_false_r. }
  rewrite IH.
  - by rewrite <- app_assoc.
  - intros a b -> Hb. exact (H (u :: a) b eq_refl Hb).
Qed.

Lemma split_go_skip sep p s d cur : 
  no_parens p = true → split_go sep (p ++ s) d cur (length p) = split_go sep s d cur 0.
Proof.
  intros H. induction p as [|u p IH]; simpl in *; [done|]. split_bools.
  unfold depth_after. repeat match goal with Hx : _ = false |- _ => rewrite Hx end. by apply IH.
Qed.

Lemma split_go_sep c sep s cur :
  no_parens (c :: sep) = true →
  split_go (c :: sep) ((c :: sep) ++ s) 0 cur 0 = cur :: split_go (c :: sep) s 0 [] 0.
Proof.
  intros H. assert (depth_after c 0 = 0%Z) as Hd.
  { simpl in H. split_bools. unfold depth_after.
    repeat match goal with Hx : _ = false |- _ => rewrite Hx end. done. }
  assert (starts_with (c :: sep) ((c :: sep) ++ s) = true) as Hs
    by (apply starts_with_spec; eauto).
  cbn [app split_go] in *. rewrite Hd, Hs. simpl. f_equal.
  rewrite Nat.sub_0_r. apply split_go_skip. simpl in H. split_bools. done.
Qed.

(** A text in which the loop does not cut, whether it ends the input or a separator follows. *)
Definition uncut (sep p : jsstr) : Prop :=
  run_depth p 0 = 0%Z ∧
  ∀ s a b, s = [] ∨ (∃ r, s = sep ++ r) → p = a ++ b → b ≠ [] →
    run_depth (a ++ take 1 b) 0 ≠ 0%Z ∨ starts_with sep (b ++ s) = false.

Lemma split_go_join c sep ps :
  no_parens (c :: sep) = true → ps ≠ [] → Forall (uncut (c :: sep)) ps →
  split_go (c :: sep) (join (c :: sep) ps) 0 [] 0 = ps.
Proof.
  intros Hsep Hne Hps. induction Hps as [|p ps [Hd Hcut] Hps IH]; [done|].
  destruct ps as [|q ps].
  - simpl join. rewrite <- (app_nil_r p) at 1. rewrite split_go_text; [done|].
    intros a b. apply Hcut. auto.
  - change (join (c :: sep) (p :: q :: ps)) with (p ++ (c :: sep) ++ join (c :: sep) (q :: ps)).
    rewrite split_go_text, Hd, split_go_sep, IH by (done || intros a b; apply Hcut; eauto).
    done.
Qed.

Lemma split_top_join c sep ps :
  no_parens (c :: sep) = true → ps ≠ [] →
  Forall (uncut (c :: sep)) ps → Forall (λ p, trim p = p) ps → Forall (λ p, truthy p = true) ps →
  split_top (c :: sep) (join (c :: sep) ps) = ps.
Proof.
  intros Hsep Hne Hps Ht Hb. unfold split_top.
  rewrite split_go_join, map_fix by done. clear -Hb.
  induction Hb as [|p ps Hp _ IH]; simpl; [done|]. by rewrite Hp, IH.
Qed.

(** [lacks c s]: [c] does not occur in [s]. *)
Definition lacks (c : N) (s : jsstr) : bool := forallb (λ u, negb (u =? c)) s.

Lemma lacks_app c a b : lacks c (a ++ b) = lacks c a && lacks c b.
Proof. apply forallb_app. Qed.

Lemma lacks_cons c u a : lacks c (u :: a) = negb (u =? c) && lacks c a.
Proof. done. Qed.

Lemma lacks_plain c s : is_plain c = false → plain s = true → lacks c s = true.
Proof. intros. by apply plain_neq. Qed.

Lemma lacks_numeric c s : is_num_char c = false → is_numeric_literal s = true → lacks c s = true.
Proof.
  intros Hc [H _]%numeric_chars. eapply forallb_impl; [|done].
  intros u Hu. apply negb_true_iff, N.eqb_neq. congruence.
Qed.

Lemma lacks_quote c s :
  is_plain c = false → c ≠ 34 → plain s = true → lacks c (json_quote s) = true.
Proof.
  intros Hc Hq Hs. rewrite json_quote_plain, lacks_cons, lacks_app, (lacks_plain c s) by done.
  rewrite lacks_cons. assert ((34 =? c) = false) as -> by (apply N.eqb_neq; congruence). done.
Qed.

Lemma nested_quote s : plain s = true → nested (json_quote s).
Proof.
  intros Hs. rewrite json_quote_plain by done.
  apply (nested_app [34]); [by apply nested_free|].
  apply nested_app; [by apply nested_plain|by apply nested_free].
Qed.

(** The condition separator cannot begin inside a text without ampersands. *)
Lemma uncut_and p : nested p → lacks 38 p = true → uncut (js " && ") p.
Proof.
  intros Hn Hl. split; [apply Hn|]. intros s a b Hs -> Hb. right.
  rewrite lacks_app in Hl. split_bools.
  destruct b as [|u [|v b]]; [done| |].
  - destruct Hs as [->|[r ->]]; cbn; by destruct u as [|q]; repeat (done || destruct q as [q|q|]).
  - change ((32 =? u) && ((38 =? v) && starts_with (js "& ") (b ++ s)) = false).
    rewrite !lacks_cons in *. split_bools. rewrite (N.eqb_sym 38 v).
    match goal with Hx : (v =? 38) = false |- _ => rewrite Hx end. apply andb_false_r.
Qed.

Lemma stays_prefix k s d a b :
  stays k s d → s = a ++ b → b ≠ [] → (k ≤ run_depth (a ++ take 1 b) d)%Z.
Proof.
  intros Hs -> Hb. apply stays_app in Hs as [_ Hs]. rewrite run_depth_app.
  destruct b; [done|]. apply Hs.
Qed.

(** A factor in parentheses is not cut. *)
Lemma uncut_multiply body : nested body → uncut (js " * ") (40 :: body ++ [41]).
Proof.
  intros Hn. split; [by apply nested_parens|]. intros s a b Hs Hab Hb.
  destruct a as [|u a]; [left; simpl in Hab; by subst b|].
  injection Hab as <- Hab. destruct (exists_last Hb) as (b' & x & ->).
  rewrite app_assoc in Hab. apply app_inj_tail in Hab as [Hab <-].
  destruct b' as [|v b']; [by right|]. left.
  pose proof (stays_prefix 1 body 1 a (v :: b') ltac:(apply Hn) Hab ltac:(done)) as Hk.
  change (take 1 (v :: b')) with [v] in Hk. change (run_depth (a ++ [v]) 1 ≠ 0%Z). lia.
Qed.

(** ** Texts that [trim] leaves alone *)

Definition starts_ok (s : jsstr) : bool :=
  match s with u :: _ => negb (is_ws u) | [] => false end.

Definition ends_ok (s : jsstr) : bool :=
  match last s with Some u => negb (is_ws u) | None => false end.

Lemma starts_ok_app a b : starts_ok a = true → starts_ok (a ++ b) = true.
Proof. by destruct a. Qed.

Lemma ends_ok_app a b : ends_ok b = true → ends_ok (a ++ b) = true.
Proof. unfold ends_ok. destruct b as [|u b]; [done|]. by rewrite last_app_cons. Qed.

Lemma ends_ok_cons u b : ends_ok b = true → ends_ok (u :: b) = true.
Proof. apply (ends_ok_app [u]). Qed.

Lemma trim_ok s : starts_ok s = true → ends_ok s = true → trim s = s.
Proof.
  destruct s as [|u s]; [done|]. intros Hu%negb_true_iff He.
  unfold trim. cbn [trim_start]. rewrite Hu. unfold ends_ok in He.
  destruct (last (u :: s)) as [v|] eqn:E; [|done]. apply last_Some in E as [l ->].
  apply trim_end_snoc. by apply negb_true_iff.
Qed.

Lemma numeric_ends s : is_numeric_literal s = true → ends_ok s = true.
Proof.
  intros [H Hne]%numeric_chars. destruct (exists_last Hne) as (l & v & ->).
  rewrite forallb_app in H. simpl in H. split_bools.
  apply ends_ok_app. unfold ends_ok. simpl. by apply (num_char_dec (λ u, negb (is_ws u))).
Qed.

(** ** Reading one condition back *)

(** Evaluate the scanners of fixed texts: each fails, or leaves [v]. *)
Ltac skim v :=
  cbv zeta;
  repeat (match goal with
  | |- context [strip ?p ?t] =>
      first [change (strip p t) with (@None jsstr) | change (strip p t) with (Some v)]
  end; cbv beta iota).

Lemma quote_app s r : plain s = true → json_quote s ++ r = 34 :: s ++ 34 :: r.
Proof. intros. rewrite json_quote_plain by done. simpl. by rewrite <- app_assoc. Qed.

Lemma call_path_plain name path r :
  plain path = true → truthy path = true →
  call_path name (name ++ 40 :: json_quote path ++ 41 :: r) = Some (path, r).
Proof.
  intros Hp Ht. unfold call_path. rewrite quote_app by done.
  change (40 :: 34 :: path ++ 34 :: 41 :: r) with ([40; 34] ++ path ++ 34 :: 41 :: r).
  rewrite (app_assoc name), strip_app, until_quote_plain by done. done.
Qed.

Lemma time_call_plain f tz r :
  plain tz = true → truthy tz = true →
  time_call (time_name f ++ 40 :: json_quote tz ++ 41 :: r) = Some (f, tz, r).
Proof.
  intros Hp Ht. unfold time_call.
  assert (∀ t, time_funcs_prefix (time_name f ++ 40 :: t) = Some (f, 40 :: t)) as ->
    by (intros t; by destruct f).
  rewrite quote_app by done. change (40 :: 34 :: tz ++ 34 :: 41 :: r) with
    ([40; 34] ++ tz ++ 34 :: 41 :: r).
  rewrite strip_app, until_quote_plain by done. done.
Qed.

(** The text of [fn(tz)] followed by [r]. *)
Definition call_text (name arg r : jsstr) : jsstr := name ++ 40 :: json_quote arg ++ 41 :: r.

Lemma call_text_app name arg r :
  (name ++ 40 :: json_quote arg ++ [41]) ++ r = call_text name arg r.
Proof. unfold call_text. by rewrite <- app_assoc, <- app_comm_cons, <- app_assoc. Qed.

Definition time_text (f : TimeFunc) (tz op v : jsstr) : jsstr :=
  call_text (time_name f) tz (32 :: op ++ 32 :: v).

Definition range_text (f : TimeFunc) (tz a b : jsstr) : jsstr :=
  call_text (time_name f) tz (js " >= " ++ a ++ js " || " ++
    call_text (time_name f) tz (js " < " ++ b)).

Lemma time_range_text f tz a b :
  plain tz = true → truthy tz = true → is_numeric_literal a = true → is_numeric_literal b = true →
  time_range (range_text f tz a b) = Some (TimeCondition f tz MATCH_RANGE [] a b).
Proof.
  intros Hp Ht Ha Hb. unfold time_range, range_text, call_text. rewrite time_call_plain by done.
  rewrite strip_app. destruct (numeric_chars a Ha) as [Hna Hne].
  rewrite span_app by (done || by destruct f).
  rewrite quote_app by done.
  replace (js " || " ++ time_name f ++ 40 :: 34 :: tz ++ 34 :: 41 :: js " < " ++ b) with
    ((js " || " ++ time_name f ++ 40 :: 34 :: tz ++ 34 :: 41 :: js " < ") ++ b)
    by (rewrite <- !app_assoc; simpl; by rewrite <- !app_assoc).
  rewrite strip_app, numeric_to_end by done. by destruct a.
Qed.

(** The comparison operators of a time condition. *)
Definition time_op (mode : jsstr) : jsstr :=
  if streq mode MATCH_GTE then js ">=" else if streq mode MATCH_LT then js "<" else js "==".

Lemma time_compare_text f tz mode v :
  plain tz = true → truthy tz = true → is_numeric_literal v = true →
  existsb (streq mode) [MATCH_EQ; MATCH_GTE; MATCH_LT] = true →
  tryParseTimeCondition (time_text f tz (time_op mode) v) = Some (TimeCondition f tz mode v [] []).
Proof.
  intros Hp Ht Hv Hm. unfold tryParseTimeCondition.
  assert (time_range_parens (time_text f tz (time_op mode) v) = None) as -> by (by destruct f).
  unfold time_range, time_compare, time_text, call_text. rewrite time_call_plain by done.
  simpl in Hm. rewrite !orb_true_iff, !streq_spec in Hm.
  destruct (numeric_chars v Hv) as [Hn Hne].
  destruct Hm as [->|[->|[->|[=]]]];
    skim v; rewrite ?span_all, ?numeric_to_end by done; skim v; done.
Qed.

(** ** The texts of conditions *)

Lemma nested_call name arg r :
  no_parens name = true → plain arg = true → nested r → nested (call_text name arg r).
Proof.
  intros Hn Ha Hr. rewrite <- call_text_app. apply nested_app; [|done].
  apply nested_app; [by apply nested_free|]. by apply nested_parens, nested_quote.
Qed.

Lemma lacks_call c name arg r :
  is_plain c = false → c ∉ [34; 40; 41] → lacks c name = true → plain arg = true →
  lacks c r = true → lacks c (call_text name arg r) = true.
Proof.
  intros Hc Hin Hn Ha Hr. rewrite !not_elem_of_cons in Hin. destruct Hin as (? & ? & ? & _).
  unfold call_text. rewrite lacks_app, lacks_cons, lacks_app, lacks_cons, Hn, Hr, lacks_quote by done.
  by rewrite !(proj2 (N.eqb_neq _ _)) by congruence.
Qed.

Lemma ends_call name arg r : ends_ok r = true → ends_ok (call_text name arg r) = true.
Proof. intros. rewrite <- call_text_app. by apply ends_ok_app. Qed.

Lemma starts_time f arg r : starts_ok (call_text (time_name f) arg r) = true.
Proof. by destruct f. Qed.

Lemma starts_source src arg r : starts_ok (call_text (source_name src) arg r) = true.
Proof. by destruct src. Qed.

Lemma no_bars e : lacks 124 e = true → includes (js " || ") e = false.
Proof.
  intros He. destruct (includes _ e) eqn:E; [|done].
  apply includes_spec in E as (a & b & ->). rewrite !lacks_app in He. split_bools.
  match goal with Hx : lacks 124 (js " || ") = true |- _ => discriminate Hx end.
Qed.

(** The literal of an equality: plain text, in quotes or not. *)
Lemma literal_text mode v :
  plain v = true → is_trimmed v = true →
  buildExprLiteral mode v = json_quote v ∨
  (buildExprLiteral mode v = v ∧ (v = js "true" ∨ v = js "false" ∨ is_numeric_literal v = true)).
Proof.
  intros Hp Ht%streq_spec. unfold buildExprLiteral. rewrite Ht.
  destruct (streq mode _); [by left|].
  destruct (streq v (js "true")) eqn:E1; [apply streq_spec in E1; auto|].
  destruct (streq v (js "false")) eqn:E2; [apply streq_spec in E2; auto|].
  destruct (is_numeric_literal v) eqn:E3; auto.
Qed.

Lemma plain_no_terminator s : plain s = true → existsb is_line_terminator s = false.
Proof.
  intros Hs. induction s as [|u s IH]; simpl in *; [done|]. split_bools.
  rewrite IH by done. unfold is_plain in *. split_bools. apply orb_false_iff; done.
Qed.

Lemma quote_no_terminator s : plain s = true → existsb is_line_terminator (json_quote s) = false.
Proof.
  intros Hs. rewrite json_quote_plain by done. simpl. rewrite existsb_app.
  by rewrite plain_no_terminator.
Qed.

Lemma literal_facts mode v :
  plain v = true → is_trimmed v = true →
  let lit := buildExprLiteral mode v in
  nested lit ∧ lacks 38 lit = true ∧ lacks 124 lit = true ∧ ends_ok lit = true ∧
  truthy lit = true ∧ existsb is_line_terminator lit = false.
Proof.
  intros Hp Ht. destruct (literal_text mode v Hp Ht) as [->|[-> Hv]].
  - split_and!; eauto using nested_quote, quote_no_terminator; try by apply lacks_quote.
    rewrite json_quote_plain by done. by apply (ends_ok_app (34 :: v)).
  - pose proof (plain_no_terminator v Hp). destruct Hv as [->|[->|Hv]].
    1-2: split_and!; try done; by apply nested_free.
    split_and!; eauto using nested_plain, lacks_plain, numeric_ends. by destruct v.
Qed.

(** What the round trip needs of [JSON.parse] and [String]. *)
Definition reads_strings (JSON_parse : jsstr → option value) (to_string : value → jsstr) : Prop :=
  (∀ s, plain s = true → JSON_parse (34 :: s ++ [34]) = Some (Str s)) ∧
  (∀ s, to_string (Str s) = s).

Section reading.
Context (JSON_parse : jsstr → option value) (to_string : value → jsstr).
Hypothesis Hjson : reads_strings JSON_parse to_string.

Abbreviation parse_condition := (tryParseRequestCondition JSON_parse to_string).

Lemma json_parse_quote s : plain s = true → JSON_parse (json_quote s) = Some (Str s).
Proof. intros. rewrite json_quote_plain by done. by apply Hjson. Qed.

Lemma not_time src path r : tryParseTimeCondition (call_text (source_name src) path r) = None.
Proof. by destruct src. Qed.

Lemma read_literal v :
  plain v = true → is_trimmed v = true →
  parseExprLiteral JSON_parse to_string (buildExprLiteral MATCH_EQ v) = Some v.
Proof.
  intros Hp Ht%streq_spec. unfold buildExprLiteral, parseExprLiteral. rewrite Ht.
  change (streq MATCH_EQ MATCH_CONTAINS) with false. cbv iota.
  destruct (streq v (js "true") || streq v (js "false")) eqn:Eb; [by rewrite Ht, Eb|].
  destruct (is_numeric_literal v) eqn:En; [by rewrite Ht, Eb, En|].
  assert (trim (json_quote v) = json_quote v) as ->.
  { rewrite json_quote_plain by done. apply trim_ok; [done|]. by apply (ends_ok_app (34 :: v)). }
  rewrite json_parse_quote by done. unfold json_quote at 1 2 3.
  assert (∀ w, streq (34 :: w) (js "true") || streq (34 :: w) (js "false") = false) as ->.
  { intros w. unfold streq. by rewrite !bool_decide_eq_false_2. }
  simpl. f_equal. apply Hjson.
Qed.

Lemma read_header_exists path :
  plain path = true → truthy path = true →
  parse_condition (call_text (source_name Header) path (js " != " ++ [34; 34])) =
  Ok (Some (ParamHeaderCondition Header path MATCH_EXISTS [])).
Proof.
  intros Hp Ht. unfold tryParseRequestCondition. rewrite not_time.
  unfold parse_header_exists, call_text. by rewrite call_path_plain.
Qed.

Lemma read_param_exists path :
  plain path = true → truthy path = true →
  parse_condition (call_text (source_name Param) path (js " != nil")) =
  Ok (Some (ParamHeaderCondition Param path MATCH_EXISTS [])).
Proof.
  intros Hp Ht. unfold tryParseRequestCondition. rewrite not_time.
  unfold parse_param_exists, call_text. by rewrite call_path_plain.
Qed.

Lemma read_header_contains path v :
  plain path = true → truthy path = true → plain v = true →
  parse_condition (js "has(" ++ call_text (source_name Header) path (js ", " ++ json_quote v ++ [41])) =
  Ok (Some (ParamHeaderCondition Header path MATCH_CONTAINS v)).
Proof.
  intros Hp Ht Hv.
  assert (∀ t, tryParseTimeCondition (js "has(" ++ t) = None ∧
    parse_header_exists (js "has(" ++ t) = None ∧ parse_param_exists (js "has(" ++ t) = None)
    as Hno by done.
  destruct (Hno (call_text (source_name Header) path (js ", " ++ json_quote v ++ [41])))
    as (Ht1 & Ht2 & Ht3).
  assert (parse_header_contains JSON_parse to_string
    (js "has(" ++ call_text (source_name Header) path (js ", " ++ json_quote v ++ [41])) =
    Some (Ok (Some (ParamHeaderCondition Header path MATCH_CONTAINS v)))) as Hc.
  { unfold parse_header_contains, call_text.
    rewrite strip_app, call_path_plain, strip_app, quote_app by done.
    unfold literal_then_close. change (strip [34] (34 :: v ++ 34 :: [41])) with (Some (v ++ 34 :: [41])).
    cbv iota. rewrite literal_body_plain by done. simpl.
    unfold contains_condition, json_string. rewrite (proj1 Hjson) by done.
    simpl. by rewrite (proj2 Hjson). }
  unfold tryParseRequestCondition. by rewrite Ht1, Ht2, Ht3, Hc.
Qed.

(** An equality is not taken for an existence test. *)
Lemma not_exists_text lit : streq (js " == " ++ lit) (js " != nil") = false ∧
  streq (js " == " ++ lit) (js " != " ++ [34; 34]) = false.
Proof. split; by apply bool_decide_eq_false_2. Qed.

Lemma read_eq src path lit :
  plain path = true → truthy path = true → truthy lit = true →
  existsb is_line_terminator lit = false →
  parse_condition (call_text (source_name src) path (js " == " ++ lit)) =
  Ok (ParamHeaderCondition src path MATCH_EQ <$> parseExprLiteral JSON_parse to_string lit).
Proof.
  intros Hp Ht Hl Hn. unfold tryParseRequestCondition. rewrite not_time.
  destruct (not_exists_text lit) as [Hx Hx'].
  unfold parse_header_exists, parse_param_exists, parse_param_contains, parse_compare_or_eq,
    parse_param_compare, parse_eq, call_text, eq_condition.
  destruct src; cbn [source_name];
    rewrite !call_path_plain by done; rewrite ?Hx, ?Hx', ?strip_app, ?Hl, ?Hn; done.
Qed.

(** What the parser needs of the text [e] of a condition. *)
Record reads_as (e : jsstr) (c : RequestCondition) : Prop := {
  reads_starts : starts_ok e = true;
  reads_ends : ends_ok e = true;
  reads_nested : nested e;
  reads_amp : lacks 38 e = true;
  reads_parse : parse_condition e = Ok (Some c);
  reads_parens : includes (js " || ") e = true → parse_condition (40 :: e ++ [41]) = Ok (Some c)
}.

Lemma reads_no_bars e c :
  starts_ok e = true → ends_ok e = true → nested e → lacks 38 e = true → lacks 124 e = true →
  parse_condition e = Ok (Some c) → reads_as e c.
Proof. intros. split; try done. rewrite no_bars by done. done. Qed.

Lemma reads_range f tz a b :
  plain tz = true → truthy tz = true → is_numeric_literal a = true → is_numeric_literal b = true →
  reads_as (range_text f tz a b) (TimeCondition f tz MATCH_RANGE [] a b).
Proof.
  intros Hp Ht Ha Hb. unfold range_text. split.
  - apply starts_time.
  - apply ends_call, ends_ok_app, ends_ok_app, ends_ok_app, ends_call, ends_ok_app.
    by apply numeric_ends.
  - apply nested_call; [by destruct f|done|]. apply nested_app; [by apply nested_free|].
    apply nested_app; [by apply nested_numeric|]. apply nested_app; [by apply nested_free|].
    apply nested_call; [by destruct f|done|].
    apply nested_app; [by apply nested_free|by apply nested_numeric].
  - apply lacks_call; [done|set_solver|by destruct f|done|]. rewrite !lacks_app.
    rewrite (lacks_numeric 38 a) by done. change (lacks 38 (js _)) with true. cbn [andb].
    apply lacks_call; [done|set_solver|by destruct f|done|].
    by rewrite lacks_app, (lacks_numeric 38 b).
  - unfold tryParseRequestCondition, tryParseTimeCondition.
    pose proof (time_range_text f tz a b Hp Ht Ha Hb) as Hr. unfold range_text in Hr. by rewrite Hr.
  - intros _. unfold tryParseRequestCondition, tryParseTimeCondition.
    pose proof (time_range_text f tz a b Hp Ht Ha Hb) as Hr. unfold range_text in Hr.
    generalize dependent (call_text (time_name f) tz (js " >= " ++ a ++ js " || " ++
      call_text (time_name f) tz (js " < " ++ b))). intros e Hr.
    change (time_range (40 :: e ++ [41])) with (@None RequestCondition).
    unfold time_range_parens. change (strip [40] (40 :: e ++ [41])) with (Some (e ++ [41])).
    cbv iota. by rewrite last_snoc, removelast_last, Hr.
Qed.

Lemma reads_compare f tz mode v :
  plain tz = true → truthy tz = true → is_numeric_literal v = true →
  existsb (streq mode) [MATCH_EQ; MATCH_GTE; MATCH_LT] = true →
  reads_as (time_text f tz (time_op mode) v) (TimeCondition f tz mode v [] []).
Proof.
  intros Hp Ht Hv Hm.
  assert (∃ op, time_op mode = op ∧ no_parens op = true ∧ lacks 38 op = true ∧ lacks 124 op = true)
    as (op & Eop & Ho1 & Ho2 & Ho3).
  { exists (time_op mode). unfold time_op. by repeat case_match. }
  apply reads_no_bars.
  - apply starts_time.
  - apply ends_call, ends_ok_cons, ends_ok_app, ends_ok_cons. by apply numeric_ends.
  - apply nested_call; [by destruct f|done|]. rewrite Eop.
    apply (nested_app [32]); [by apply nested_free|]. apply nested_app; [by apply nested_free|].
    apply (nested_app [32]); [by apply nested_free|]. by apply nested_numeric.
  - apply lacks_call; [done|set_solver|by destruct f|done|].
    by rewrite lacks_cons, lacks_app, lacks_cons, Eop, Ho2, (lacks_numeric 38).
  - apply lacks_call; [done|set_solver|by destruct f|done|].
    by rewrite lacks_cons, lacks_app, lacks_cons, Eop, Ho3, (lacks_numeric 124).
  - unfold tryParseRequestCondition. by rewrite time_compare_text.
Qed.

Lemma reads_source src path r c :
  plain path = true → nested r → ends_ok r = true → lacks 38 r = true → lacks 124 r = true →
  parse_condition (call_text (source_name src) path r) = Ok (Some c) →
  reads_as (call_text (source_name src) path r) c.
Proof.
  clear Hjson. intros Hp Hr He H38 H124 Hc. apply reads_no_bars; try done.
  - apply starts_source.
  - by apply ends_call.
  - apply nested_call; [by destruct src|done|done].
  - apply lacks_call; [done|set_solver|by destruct src|done|done].
  - apply lacks_call; [done|set_solver|by destruct src|done|done].
Qed.

Lemma reads_has path v :
  plain path = true → truthy path = true → plain v = true →
  reads_as (js "has(" ++ call_text (source_name Header) path (js ", " ++ json_quote v ++ [41]))
    (ParamHeaderCondition Header path MATCH_CONTAINS v).
Proof.
  intros Hp Ht Hv. apply reads_no_bars; [done| | | | |by apply read_header_contains].
  - apply ends_ok_app, ends_call, ends_ok_app. by apply ends_ok_app.
  - replace (js "has(" ++ _) with
      (js "has" ++ (40 :: call_text (source_name Header) path (js ", " ++ json_quote v) ++ [41])).
    + apply nested_app; [by apply nested_free|]. apply nested_parens, nested_call; [done..|].
      apply nested_app; [by apply nested_free|by apply nested_quote].
    + rewrite <- !call_text_app, <- !app_assoc. done.
  - rewrite lacks_app. apply (lacks_call _ (js "header")); [done|set_solver|done|done|].
    by rewrite !lacks_app, lacks_quote.
  - rewrite lacks_app. apply (lacks_call _ (js "header")); [done|set_solver|done|done|].
    by rewrite !lacks_app, lacks_quote.
Qed.

Lemma mode_cases mode ms : existsb (streq mode) ms = true → mode ∈ ms.
Proof. intros (m & Hm & ->%streq_spec)%existsb_exists. by apply list_elem_of_In. Qed.

Lemma supported_time f tz mode v a b :
  supported (TimeCondition f tz mode v a b) = true →
  reads_as (buildRequestConditionExpr (TimeCondition f tz mode v a b))
    (TimeCondition f tz mode v a b).
Proof.
  intros H. cbn [supported] in H. split_bools.
  unfold buildRequestConditionExpr, normalizeCondition, buildTimeConditionExpr, str_or.
  match goal with Ht : truthy tz = true |- _ => rewrite Ht end.
  destruct (streq mode MATCH_RANGE) eqn:Em.
  - apply streq_spec in Em as ->. split_bools. assert (v = []) as -> by (by destruct v).
    assert (existsb (λ m, streq m MATCH_RANGE) time_modes = true) as -> by done.
    rewrite streq_refl, !numeric_trim by done. cbn iota.
    repeat match goal with Hn : is_numeric_literal _ = true |- _ => rewrite Hn; revert Hn end.
    intros. cbn [negb orb]. rewrite !call_text_app. by apply reads_range.
  - split_bools. assert (a = [] ∧ b = []) as [-> ->] by (by destruct a, b).
    assert (existsb (λ m, streq m mode) time_modes = true) as ->.
    { match goal with He : existsb _ _ = true |- _ => apply mode_cases in He as Hin end.
      rewrite !elem_of_cons in Hin. destruct Hin as [->|[->|[->|[]%elem_of_nil]]]; done. }
    rewrite Em, numeric_trim by done.
    match goal with Hn : is_numeric_literal v = true |- _ => rewrite Hn; revert Hn end.
    intros. cbn [negb]. rewrite call_text_app. by apply reads_compare.
Qed.

Lemma supported_source src path mode v :
  supported (ParamHeaderCondition src path mode v) = true →
  reads_as (buildRequestConditionExpr (ParamHeaderCondition src path mode v))
    (ParamHeaderCondition src path mode v).
Proof.
  intros H. cbn [supported] in H. split_bools.
  assert (trim path = path) as Hpath by (by apply streq_spec).
  assert (trim v = v) as Hval by (by apply streq_spec).
  match goal with Hm : _ || _ = true |- _ => rename Hm into Hmode end.
  rewrite !orb_true_iff, !andb_true_iff, !streq_spec in Hmode.
  unfold buildRequestConditionExpr, normalizeCondition. rewrite Hpath.
  match goal with Ht : truthy path = true |- _ => rewrite Ht; rename Ht into Htp end.
  cbn [negb]. destruct Hmode as [[->|[-> Hv]]|[-> Hs]].
  - destruct (literal_facts MATCH_EQ v) as (Hn & H38 & H124 & He & Ht & Hl); [done..|].
    assert (reads_as (call_text (source_name src) path (js " == " ++ buildExprLiteral MATCH_EQ v))
              (ParamHeaderCondition src path MATCH_EQ v)) as Hr.
    { apply reads_source; [done| |by apply ends_ok_app|done|done|].
      - apply nested_app; [by apply nested_free|done].
      - rewrite read_eq by done. by rewrite read_literal. }
    assert (existsb (λ m, streq m MATCH_EQ)
      (match src with Header => header_modes | Param => param_modes end) = true) as ->
      by (by destruct src).
    change (streq MATCH_EQ MATCH_EXISTS) with false. change (streq MATCH_EQ MATCH_CONTAINS) with false.
    change (param_op MATCH_EQ) with (@None jsstr). cbv iota. by rewrite call_text_app.
  - apply negb_true_iff, truthy_false in Hv as ->.
    assert (existsb (λ m, streq m MATCH_EXISTS)
      (match src with Header => header_modes | Param => param_modes end) = true) as ->
      by (by destruct src).
    change (streq MATCH_EXISTS MATCH_EXISTS) with true. cbv iota. destruct src; cbv iota;
      rewrite call_text_app;
      (apply reads_source; [done|by apply nested_free|done|done|done|]).
    + by apply read_param_exists.
    + by apply read_header_exists.
  - apply bool_decide_eq_true in Hs as ->.
    change (existsb _ header_modes) with true. cbv iota.
    change (streq MATCH_CONTAINS MATCH_EXISTS) with false.
    change (streq MATCH_CONTAINS MATCH_CONTAINS) with true. cbv iota.
    unfold buildExprLiteral. rewrite Hval, call_text_app. by apply reads_has.
Qed.

Lemma supported_reads c : supported c = true → reads_as (buildRequestConditionExpr c) c.
Proof. destruct c; [apply supported_time|apply supported_source]. Qed.

(** ** Reading a factor back *)

Lemma parse_all_ok {A} (f : jsstr → throws (option A)) ps xs :
  Forall2 (λ p x, f p = Ok (Some x)) ps xs → parse_all f ps = Ok (Some xs).
Proof. induction 1 as [|p x ps xs Hp _ IH]; simpl; [done|]. by rewrite Hp, IH. Qed.

(** The text of one condition among several. *)
Definition wrap (e : jsstr) : jsstr := if includes (js " || ") e then 40 :: e ++ [41] else e.

(** A part that the condition loop reads as [c]. *)
Record part_of (p : jsstr) (c : RequestCondition) : Prop := {
  part_starts : starts_ok p = true;
  part_ends : ends_ok p = true;
  part_nested : nested p;
  part_amp : lacks 38 p = true;
  part_parse : parse_condition p = Ok (Some c)
}.

Lemma reads_part e c : reads_as e c → part_of e c.
Proof. by intros []. Qed.

Lemma reads_wrap e c : reads_as e c → part_of (wrap e) c.
Proof.
  intros H. unfold wrap. destruct (includes _ e) eqn:E; [|by apply reads_part].
  destruct H as [H1 H2 H3 H4 H5 H6]. split; [done| | | |by apply H6].
  - by apply (ends_ok_app (40 :: e)).
  - by apply nested_parens.
  - by rewrite lacks_cons, lacks_app, H4.
Qed.

Lemma join_nested sep ps : nested sep → Forall nested ps → nested (join sep ps).
Proof.
  intros Hs. induction 1 as [|p ps Hp Hps IH]; [by apply nested_free|].
  destruct ps; [done|]. by apply nested_app, nested_app.
Qed.

Lemma join_starts sep p ps : starts_ok p = true → starts_ok (join sep (p :: ps)) = true.
Proof. destruct ps; [done|]. apply starts_ok_app. Qed.

Lemma starts_truthy s : starts_ok s = true → truthy s = true.
Proof. by destruct s. Qed.

Lemma parts_read ps cs :
  cs ≠ [] → Forall2 part_of ps cs →
  tryParseRequestConditions JSON_parse to_string (join (js " && ") ps) = Ok (Some cs).
Proof.
  intros Hne H. assert (Forall (λ p, ∃ c, part_of p c) ps) as Hps by (by eapply Forall2_Forall_l, Forall_true; eauto).
  assert (splitTopLevelAnd (join (js " && ") ps) = ps) as Hsplit.
  { apply split_top_join; [done|by destruct H| | |].
    - eapply Forall_impl; [exact Hps|]. intros p [c []]. by apply uncut_and.
    - eapply Forall_impl; [exact Hps|]. intros p [c []]. by apply trim_ok.
    - eapply Forall_impl; [exact Hps|]. intros p [c []]. by apply starts_truthy. }
  unfold tryParseRequestConditions. rewrite Hsplit, (parse_all_ok _ _ cs).
  - by destruct cs.
  - eapply Forall2_impl; [exact H|]. intros p c []. by rewrite trim_ok.
Qed.

Lemma match_factor_text c m :
  starts_ok c = true → is_numeric_literal m = true →
  match_factor (40 :: c ++ js " ? " ++ m ++ js " : 1)") = Some (c, m).
Proof.
  intros Hc Hm. destruct (numeric_chars m Hm) as [Hn Hne]. unfold match_factor.
  change (strip [40] (40 :: ?x)) with (Some x). cbv iota.
  rewrite !rev_app_distr, <- !app_assoc, strip_app.
  rewrite span_app; [|by rewrite forallb_Forall in *; apply Forall_rev|done].
  change (rev (js " ? ")) with (js " ? "). rewrite strip_app.
  destruct (rev c) as [|x r] eqn:E.
  { apply (f_equal (@rev N)) in E. rewrite rev_involutive in E. by subst. }
  rewrite <- E, !rev_involutive. 
  assert (truthy (rev m) = true) as ->; [|done].
  apply truthy_spec. intros Em. apply (f_equal (@rev N)) in Em. by rewrite rev_involutive in Em.
Qed.

(** A factor that the rule loop reads as the group [g]. *)
Record factor_of (f : jsstr) (g : RequestRuleGroup) : Prop := {
  factor_starts : starts_ok f = true;
  factor_ends : ends_ok f = true;
  factor_uncut : uncut (js " * ") f;
  factor_parse : tryParseRuleGroupFactor JSON_parse to_string f = Ok (Some g)
}.

Lemma combined_factor ps g :
  conditions g ≠ [] → Forall2 part_of ps (conditions g) → is_numeric_literal (multiplier g) = true →
  factor_of (40 :: join (js " && ") ps ++ js " ? " ++ multiplier g ++ js " : 1)") g.
Proof.
  intros Hne Hps Hm. pose proof (parts_read ps _ Hne Hps) as Hread.
  assert (starts_ok (join (js " && ") ps) = true) as Hstart.
  { destruct Hps as [|p c ps cs Hp _]; [done|]. by apply join_starts, Hp. }
  assert (nested (join (js " && ") ps)) as Hn.
  { apply join_nested; [by apply nested_free|]. clear -Hps.
    induction Hps as [|p c ps cs Hp _ IH]; constructor; [apply Hp|done]. }
  split.
  - done.
  - by apply ends_ok_cons, ends_ok_app, ends_ok_app, ends_ok_app.
  - replace (40 :: _) with
      (40 :: (join (js " && ") ps ++ js " ? " ++ multiplier g ++ js " : 1") ++ [41])
      by (by rewrite <- !app_assoc).
    apply uncut_multiply, nested_app; [done|]. apply nested_app; [by apply nested_free|].
    apply nested_app; [by apply nested_numeric|by apply nested_free].
  - unfold tryParseRuleGroupFactor. rewrite match_factor_text, Hread by done. by destruct g.
Qed.

Lemma filter_truthy (ps : list jsstr) :
  Forall (λ p, truthy p = true) ps → List.filter truthy ps = ps.
Proof. induction 1 as [|p ps Hp _ IH]; simpl; [done|]. by rewrite Hp, IH. Qed.

Lemma supported_texts cs :
  forallb supported cs = true → Forall2 reads_as (map buildRequestConditionExpr cs) cs.
Proof.
  induction cs as [|c cs IH]; simpl; intros H; constructor; split_bools.
  - by apply supported_reads.
  - by apply IH.
Qed.

Lemma reads_truthy es cs : Forall2 reads_as es cs → Forall (λ e, truthy e = true) es.
Proof. induction 1 as [|e c es cs He _ IH]; constructor; [apply starts_truthy, He|done]. Qed.

Lemma group_factor g : supported_group g = true → factor_of (buildRuleGroupFactor g) g.
Proof.
  unfold supported_group. intros H. split_bools.
  assert (conditions g ≠ []) as Hne by (by eapply bool_decide_eq_false_1).
  pose proof (supported_texts _ ltac:(eassumption)) as Hr.
  unfold buildRuleGroupFactor. rewrite numeric_trim by done.
  match goal with Hm : is_numeric_literal _ = true |- _ => rewrite Hm; rename Hm into Hnum end.
  cbn [negb]. rewrite filter_truthy by (by eapply reads_truthy).
  destruct (map buildRequestConditionExpr (conditions g)) as [|e [|e' es]] eqn:E.
  - by apply map_eq_nil in E.
  - apply (combined_factor [e]); [done| |done].
    eapply Forall2_impl; [exact Hr|]. intros ??. apply reads_part.
  - apply (combined_factor (map wrap (e :: e' :: es))); [done| |done].
    apply Forall2_fmap_l. eapply Forall2_impl; [exact Hr|]. intros ??. apply reads_wrap.
Qed.

(** ** Reading a product of factors back *)

Lemma join_ends sep ps : ps ≠ [] → Forall (λ p, ends_ok p = true) ps → ends_ok (join sep ps) = true.
Proof.
  intros Hne H. induction H as [|p ps Hp Hps IH]; [done|].
  destruct ps; [done|]. by apply ends_ok_app, ends_ok_app, IH.
Qed.

Lemma group_factors gs :
  forallb supported_group gs = true → Forall2 factor_of (map buildRuleGroupFactor gs) gs.
Proof.
  induction gs as [|g gs IH]; simpl; intros H; constructor; split_bools.
  - by apply group_factor.
  - by apply IH.
Qed.

Lemma split_product ps :
  ps ≠ [] → Forall (uncut (js " * ")) ps → Forall (λ p, starts_ok p = true) ps →
  Forall (λ p, ends_ok p = true) ps →
  trim (join (js " * ") ps) = join (js " * ") ps ∧ splitTopLevelMultiply (join (js " * ") ps) = ps ∧
  truthy (join (js " * ") ps) = true.
Proof.
  intros Hne Hu Hs He. destruct ps as [|p ps]; [done|].
  assert (starts_ok (join (js " * ") (p :: ps)) = true) as Hst
    by (apply join_starts; by inversion Hs).
  split_and!; [apply trim_ok; [done|by apply join_ends]| |by apply starts_truthy].
  apply split_top_join; [done..| |].
  - clear -Hs He. revert Hs He. generalize (p :: ps). intros l Hs. induction Hs; intros He; constructor;
      inversion He; subst; eauto using trim_ok.
  - eapply Forall_impl; [exact Hs|]. intros q. apply starts_truthy.
Qed.

Lemma factors_forall fs gs :
  Forall2 factor_of fs gs →
  Forall (uncut (js " * ")) fs ∧ Forall (λ p, starts_ok p = true) fs ∧
  Forall (λ p, ends_ok p = true) fs.
Proof.
  induction 1 as [|f g fs gs [] _ IH]; [by repeat constructor|].
  destruct IH as (? & ? & ?). by split_and!; constructor.
Qed.

Lemma product_read fs gs :
  Forall2 factor_of fs gs →
  tryParseRequestRuleExpr JSON_parse to_string (join (js " * ") fs) = Ok (Some gs).
Proof.
  intros H. destruct (factors_forall _ _ H) as (Hu & Hs & He).
  destruct (decide (fs = [])) as [->|Hne]; [by inversion H|].
  destruct (split_product fs Hne Hu Hs He) as (Ht & Hsplit & Htr).
  unfold tryParseRequestRuleExpr. rewrite Ht, Htr, Hsplit. cbn [negb].
  apply parse_all_ok. eapply Forall2_impl; [exact H|]. by intros f g [].
Qed.

Lemma built_factors gs :
  forallb supported_group gs = true →
  buildRequestRuleExpr gs = join (js " * ") (map buildRuleGroupFactor gs).
Proof.
  intros H%group_factors. unfold buildRequestRuleExpr. f_equal. apply filter_truthy.
  destruct (factors_forall _ _ H) as (_ & Hs & _).
  eapply Forall_impl; [exact Hs|]. intros p. apply starts_truthy.
Qed.

(** ** Conditions written with two conjuncts *)

Lemma not_call_compare path r :
  plain path = true → truthy path = true →
  strip (js " != nil && has(") r = None → strip (js " != nil && ") r = None →
  strip (js " == ") r = None → streq r (js " != nil") = false →
  parse_condition (call_text (source_name Param) path r) = Ok None.
Proof.
  clear Hjson. intros Hp Ht H1 H2 H3 H4. unfold tryParseRequestCondition. rewrite not_time.
  unfold parse_header_exists, parse_param_exists, parse_param_contains, parse_compare_or_eq,
    parse_param_compare, parse_eq, call_text.
  cbn [source_name]. rewrite !call_path_plain by done. by rewrite H1, H2, H3, H4.
Qed.

(** The two conjuncts are parsed apart, and the second alone is no condition. *)
Lemma second_conjunct_lost path e m :
  plain path = true → truthy path = true → is_numeric_literal m = true →
  starts_ok e = true → ends_ok e = true → nested e → lacks 38 e = true →
  parse_condition e = Ok None →
  tryParseRequestRuleExpr JSON_parse to_string
    (40 :: (call_text (source_name Param) path (js " != nil") ++ js " && " ++ e) ++
     js " ? " ++ m ++ js " : 1)") = Ok None.
Proof.
  clear Hjson. intros Hp Ht Hm Hs He Hn Hl Hnone. set (a := call_text _ path _).
  assert (reads_as a (ParamHeaderCondition Param path MATCH_EXISTS [])) as [Ha1 Ha2 Ha3 Ha4 Ha5 _].
  { apply reads_source; [done|by apply nested_free|done|done|done|by apply read_param_exists]. }
  set (f := 40 :: _). assert (starts_ok f = true ∧ ends_ok f = true ∧ uncut (js " * ") f)
    as (Hf1 & Hf2 & Hf3).
  { split_and!; [done|by apply ends_ok_cons, ends_ok_app, ends_ok_app, ends_ok_app|].
    replace f with (40 :: ((a ++ js " && " ++ e) ++ js " ? " ++ m ++ js " : 1") ++ [41])
      by (unfold f; by rewrite <- !app_assoc).
    apply uncut_multiply, nested_app; [apply nested_app; [done|]; by apply nested_app, Hn; apply nested_free|].
    apply nested_app; [by apply nested_free|].
    apply nested_app; [by apply nested_numeric|by apply nested_free]. }
  destruct (split_product [f]) as (Htr & Hsplit & Hb); [done|by apply Forall_singleton..|].
  cbn [join] in *. unfold tryParseRequestRuleExpr. rewrite Htr, Hb, Hsplit. cbn [negb parse_all].
  unfold tryParseRuleGroupFactor, f. rewrite match_factor_text by (by rewrite ?starts_ok_app).
  assert (splitTopLevelAnd (a ++ js " && " ++ e) = [a; e]) as Hand.
  { apply (split_top_join 32 (js "&& ") [a; e]); [done|done|..].
    - apply Forall_cons_2, Forall_singleton; by apply uncut_and.
    - apply Forall_cons_2, Forall_singleton; by apply trim_ok.
    - apply Forall_cons_2, Forall_singleton; by apply starts_truthy. }
  unfold tryParseRequestConditions. rewrite Hand. cbn [parse_all].
  rewrite (trim_ok a), Ha5, (trim_ok e) by done. simpl. by rewrite Hnone.
Qed.

Lemma compare_conjuncts path mode v :
  plain path = true → truthy path = true → trim path = path →
  mode ∈ [MATCH_GT; MATCH_GTE; MATCH_LT; MATCH_LTE] → is_numeric_literal v = true →
  ∃ e, buildRequestConditionExpr (ParamHeaderCondition Param path mode v) =
    call_text (source_name Param) path (js " != nil") ++ js " && " ++ e ∧
    starts_ok e = true ∧ ends_ok e = true ∧ nested e ∧ lacks 38 e = true ∧
    parse_condition e = Ok None.
Proof.
  clear Hjson. intros Hp Ht Htr Hin Hv.
  assert (∃ op, param_op mode = Some op ∧
    normalizeCondition (ParamHeaderCondition Param path mode v) = ParamHeaderCondition Param path mode v ∧
    streq mode MATCH_EXISTS = false ∧ streq mode MATCH_CONTAINS = false ∧
    op ∈ [js ">"; js ">="; js "<"; js "<="]) as (op & Hop & Hnorm & Hm1 & Hm2 & Hcases).
  { rewrite !elem_of_cons in Hin. destruct Hin as [->|[->|[->|[->|[]%elem_of_nil]]]];
      eexists; (split_and!; [done..|set_solver]). }
  exists (call_text (source_name Param) path (32 :: op ++ 32 :: v)).
  unfold buildRequestConditionExpr. rewrite Hnorm, Htr, Ht, Hm1, Hm2, Hop, numeric_trim, Hv by done.
  cbn [negb]. split; [by rewrite call_text_app, <- !call_text_app, <- !app_assoc|].
  assert (no_parens op = true ∧ lacks 38 op = true) as [Ho1 Ho2].
  { rewrite !elem_of_cons in Hcases. by destruct Hcases as [->|[->|[->|[->|[]%elem_of_nil]]]]. }
  split_and!.
  - apply starts_source.
  - apply ends_call, ends_ok_cons, ends_ok_app, ends_ok_cons. by apply numeric_ends.
  - apply nested_call; [done..|].
    apply (nested_app [32]); [by apply nested_free|]. apply nested_app; [by apply nested_free|].
    apply (nested_app [32]); [by apply nested_free|]. by apply nested_numeric.
  - apply lacks_call; [done|set_solver|done|done|].
    by rewrite lacks_cons, lacks_app, lacks_cons, Ho2, (lacks_numeric 38).
  - rewrite !elem_of_cons in Hcases.
    destruct Hcases as [->|[->|[->|[->|[]%elem_of_nil]]]]; apply not_call_compare; try done;
      by apply bool_decide_eq_false_2.
Qed.

Lemma contains_conjuncts path v :
  plain path = true → truthy path = true → trim path = path → plain v = true → is_trimmed v = true →
  ∃ e, buildRequestConditionExpr (ParamHeaderCondition Param path MATCH_CONTAINS v) =
    call_text (source_name Param) path (js " != nil") ++ js " && " ++ e ∧
    starts_ok e = true ∧ ends_ok e = true ∧ nested e ∧ lacks 38 e = true ∧
    parse_condition e = Ok None.
Proof.
  clear Hjson. intros Hp Ht Htr Hv Hvt%streq_spec.
  exists (js "has" ++ (40 :: call_text (source_name Param) path (js ", " ++ json_quote v) ++ [41])).
  split_and!; [|done| | | |].
  - unfold buildRequestConditionExpr, normalizeCondition. change (existsb _ param_modes) with true.
    cbv iota. rewrite Htr, Ht. cbn [negb]. change (streq MATCH_CONTAINS MATCH_EXISTS) with false.
    change (streq MATCH_CONTAINS MATCH_CONTAINS) with true. cbv iota.
    unfold buildExprLiteral. rewrite Hvt. rewrite <- !call_text_app, <- !app_assoc. done.
  - apply ends_ok_app, ends_ok_cons. by apply ends_ok_app.
  - apply nested_app; [by apply nested_free|]. apply nested_parens, nested_call; [done..|].
    apply nested_app; [by apply nested_free|by apply nested_quote].
  - rewrite lacks_app, lacks_cons, lacks_app, lacks_call; [done..|set_solver|done|done|].
    by rewrite lacks_app, lacks_quote.
  - done.
Qed.

(** ** Splitting a combined expression *)

Lemma outer_go_snoc body d :
  (1 ≤ d)%Z → stays 1 body d → run_depth body d = 1%Z → outer_go (body ++ [41]) d = true.
Proof.
  revert d. induction body as [|u r IH]; intros d Hd Hs Hr; [by cbn in *; subst d|].
  destruct Hs as [Hk Hs]. cbn [app outer_go].
  assert ((depth_after u d =? 0)%Z = false) as -> by (apply Z.eqb_neq; lia). by apply IH.
Qed.

Lemma hasFullOuterParens_parens body : nested body → hasFullOuterParens (40 :: body ++ [41]) = true.
Proof.
  intros Hn. unfold hasFullOuterParens, ends_with. cbn [starts_with].
  rewrite app_comm_cons, rev_app_distr. cbn [rev app starts_with N.eqb Pos.eqb andb].
  cbn [outer_go app]. change (depth_after 40 0) with 1%Z. cbn [Z.eqb andb].
  destruct (Hn 1%Z) as [Hr Hs]. by apply outer_go_snoc.
Qed.

Lemma unwrap_parens base :
  nested base → trim base = base → hasFullOuterParens base = false →
  unwrapOuterParens (40 :: base ++ [41]) = base.
Proof.
  intros Hn Ht Hf. unfold unwrapOuterParens.
  rewrite trim_bounded by done. cbn [length unwrap_go].
  rewrite hasFullOuterParens_parens by done.
  change (drop 1 (40 :: base ++ [41])) with (base ++ [41]). rewrite removelast_last, Ht.
  destruct (length (base ++ [41])); [done|]. cbn [unwrap_go]. by rewrite Hf.
Qed.

(** The length of the text is enough rounds: what is left has no outer parentheses. *)
Lemma removelast_length_le {A} (l : list A) : (length (removelast l) ≤ length l)%nat.
Proof. induction l as [|x [|y l] IH]; simpl in *; lia. Qed.

Lemma unwrap_go_done f s : (length s ≤ f)%nat → hasFullOuterParens (unwrap_go f s) = false.
Proof.
  revert s. induction f as [|f IH]; intros s Hs; [by destruct s; [|simpl in *; lia]|].
  cbn [unwrap_go]. destruct (hasFullOuterParens s) eqn:E; [|done]. apply IH.
  pose proof (trim_length (removelast (drop 1 s))) as H1.
  pose proof (removelast_length_le (drop 1 s)) as H2. rewrite length_drop in H2.
  destruct s; [done|]. simpl in *. lia.
Qed.

Lemma unwrapOuterParens_done s : hasFullOuterParens (unwrapOuterParens s) = false.
Proof. apply unwrap_go_done, trim_length. Qed.

Lemma factor_is_rule f g : factor_of f g → is_rule_part JSON_parse to_string f = Ok true.
Proof.
  intros H. unfold is_rule_part. change f with (join (js " * ") [f]).
  by rewrite (product_read [f] [g]) by (constructor; [done|constructor]).
Qed.

Lemma sort_factors fs gs :
  Forall2 factor_of fs gs → sort_parts JSON_parse to_string fs = Ok (fs, []).
Proof.
  induction 1 as [|f g fs gs Hf _ IH]; simpl; [done|]. by rewrite (factor_is_rule f g), IH.
Qed.

End reading.

(** ** Properties *)

(** [JSON.parse] of string literals without escapes, and [String] of strings. *)
Definition simple_JSON_parse (text : jsstr) : option value :=
  match strip [34] text with
  | Some r => match literal_body r with Some (b, []) => Some (Str b) | _ => None end
  | None => None
  end.

Definition simple_String (v : value) : jsstr := match v with Str s => s | _ => [] end.

Lemma simple_reads_strings : reads_strings simple_JSON_parse simple_String.
Proof.
  split; [|done]. intros s Hs. unfold simple_JSON_parse.
  change (strip [34] (34 :: s ++ [34])) with (Some (s ++ [34])). cbv iota.
  by rewrite (literal_body_plain s []).
Qed.

(** Reading request rules back: for rule groups whose conditions are time comparisons and
    ranges, header tests, or parameter existence and equality, over plain trimmed texts, the
    product of factors that [buildRequestRuleExpr] writes is parsed by
    [tryParseRequestRuleExpr] to the same groups, in order, without throwing. *)
Theorem request_rules_roundtrip (JSON_parse : jsstr → option value) (to_string : value → jsstr)
    (gs : list RequestRuleGroup) :
  reads_strings JSON_parse to_string →
  forallb supported_group gs = true →
  tryParseRequestRuleExpr JSON_parse to_string (buildRequestRuleExpr gs) = Ok (Some gs).
Proof.
  intros Hj H. rewrite (built_factors JSON_parse to_string Hj) by done.
  apply product_read. by apply group_factors.
Qed.

Lemma request_rules_roundtrip_witness :
  let g := mkGroup [TimeCondition Hour (js "UTC") MATCH_RANGE [] (js "22") (js "6");
                    ParamHeaderCondition Header (js "x-tier") MATCH_CONTAINS (js "pro plan");
                    ParamHeaderCondition Param (js "service_tier") MATCH_EQ (js "fast")] (js "1.5") in
  tryParseRequestRuleExpr simple_JSON_parse simple_String (buildRequestRuleExpr [g; g]) =
  Ok (Some [g; g]).
Proof.
  intros g. apply (request_rules_roundtrip simple_JSON_parse simple_String [g; g]).
  - apply simple_reads_strings.
  - vm_compute. reflexivity.
Defined.

(** Splitting a combined expression: the price text and the request rules that
    [combineBillingExpr] joins are what [splitBillingExprAndRequestRules] gives back, when the
    price text is trimmed, its parentheses nest without enclosing it whole, it is not itself a
    rule factor, and there is at least one (supported) rule. *)
Theorem combined_expr_splits (JSON_parse : jsstr → option value) (to_string : value → jsstr)
    (base : jsstr) (gs : list RequestRuleGroup) :
  reads_strings JSON_parse to_string →
  forallb supported_group gs = true → gs ≠ [] →
  trim base = base → base ≠ [] → nested base → hasFullOuterParens base = false →
  is_rule_part JSON_parse to_string (40 :: base ++ [41]) = Ok false →
  splitBillingExprAndRequestRules JSON_parse to_string
    (combineBillingExpr base (buildRequestRuleExpr gs)) = Ok (base, buildRequestRuleExpr gs).
Proof.
  intros Hj Hgs Hne Ht Hb Hn Hf Hrule. rewrite (built_factors JSON_parse to_string Hj) by done.
  pose proof (group_factors JSON_parse to_string Hj gs Hgs) as Hfs.
  destruct (factors_forall _ _ _ _ Hfs) as (Hu & Hs & He).
  assert (map buildRuleGroupFactor gs ≠ []) as Hne' by (by destruct gs).
  generalize dependent (map buildRuleGroupFactor gs). intros fs Hfs Hu Hs He Hne'.
  destruct (split_product fs Hne' Hu Hs He) as (Htf & _ & Htrf).
  destruct (split_product ((40 :: base ++ [41]) :: fs)) as (Htp & Hsplit & Htr); [done|..].
  { constructor; [by apply uncut_multiply|done]. }
  { by constructor. }
  { constructor; [by apply (ends_ok_app (40 :: base))|done]. }
  assert (combineBillingExpr base (join (js " * ") fs) =
          join (js " * ") ((40 :: base ++ [41]) :: fs)) as ->.
  { unfold combineBillingExpr. rewrite Ht, Htf, Htrf. destruct base; [done|].
    destruct fs; [done|]. simpl. by rewrite <- app_assoc. }
  unfold splitBillingExprAndRequestRules. rewrite Htp, Htr, Hsplit. destruct fs as [|f fs]; [done|].
  cbn [negb length Nat.leb sort_parts]. rewrite Hrule.
  pose proof (sort_factors _ _ _ _ Hfs) as Hsort. cbn [sort_parts] in Hsort. 
  simpl result_bind at 1. rewrite Hsort. simpl. by rewrite unwrap_parens.
Qed.

Lemma combined_expr_splits_witness :
  let g := mkGroup [ParamHeaderCondition Param (js "stream") MATCH_EQ (js "true")] (js "2") in
  let base := js "(p * 2 + c * 3) + (cr * 1)" in
  splitBillingExprAndRequestRules simple_JSON_parse simple_String
    (combineBillingExpr base (buildRequestRuleExpr [g])) = Ok (base, buildRequestRuleExpr [g]).
Proof.
  intros g base.
  apply (combined_expr_splits simple_JSON_parse simple_String base [g]).
  - apply simple_reads_strings.
  - vm_compute. reflexivity.
  - discriminate.
  - vm_compute. reflexivity.
  - discriminate.
  - apply (nested_app (js "(p * 2 + c * 3)")).
    + apply (nested_parens (js "p * 2 + c * 3")), nested_free. reflexivity.
    + apply (nested_app (js " + ")); [apply nested_free; reflexivity|].
      apply (nested_parens (js "cr * 1")), nested_free. reflexivity.
  - vm_compute. reflexivity.
  - vm_compute. reflexivity.
Defined.

(** Parameter comparisons are not read back: a rule group with one condition that compares
    a parameter with a number, or asks whether it contains a text, is written with two
    conjuncts; the parser cuts the text at the conjunction before it tries the patterns that
    expect both, so that it rejects what the editor has written. *)
Theorem param_comparison_not_read (JSON_parse : jsstr → option value) (to_string : value → jsstr)
    (path mode v m : jsstr) :
  plain path = true → truthy path = true → is_trimmed path = true → is_numeric_literal m = true →
  (mode ∈ [MATCH_GT; MATCH_GTE; MATCH_LT; MATCH_LTE] ∧ is_numeric_literal v = true ∨
   mode = MATCH_CONTAINS ∧ plain v = true ∧ is_trimmed v = true) →
  tryParseRequestRuleExpr JSON_parse to_string
    (buildRequestRuleExpr [mkGroup [ParamHeaderCondition Param path mode v] m]) = Ok None.
Proof.
  intros Hp Ht Htr Hm Hmode. apply streq_spec in Htr.
  assert (∃ e, buildRequestConditionExpr (ParamHeaderCondition Param path mode v) =
      call_text (source_name Param) path (js " != nil") ++ js " && " ++ e ∧
      starts_ok e = true ∧ ends_ok e = true ∧ nested e ∧ lacks 38 e = true ∧
      tryParseRequestCondition JSON_parse to_string e = Ok None)
    as (e & He & H1 & H2 & H3 & H4 & H5).
  { destruct Hmode as [[Hin Hv]|(-> & Hv & Hvt)].
    - by apply compare_conjuncts.
    - by apply contains_conjuncts. }
  pose proof (second_conjunct_lost JSON_parse to_string path e m Hp Ht Hm H1 H2 H3 H4 H5) as Hlost.
  unfold buildRequestRuleExpr, buildRuleGroupFactor. cbn [map multiplier conditions].
  rewrite numeric_trim, Hm, He by done. cbn [negb].
  assert (truthy (call_text (source_name Param) path (js " != nil") ++ js " && " ++ e) = true)
    as Htruthy by done.
  cbn [List.filter]. rewrite Htruthy. exact Hlost.
Qed.

Lemma param_comparison_not_read_witness :
  tryParseRequestRuleExpr simple_JSON_parse simple_String
    (buildRequestRuleExpr
       [mkGroup [ParamHeaderCondition Param (js "max_tokens") MATCH_GT (js "1000")] (js "2")]) =
  Ok None.
Proof.
  apply (param_comparison_not_read simple_JSON_parse simple_String
           (js "max_tokens") MATCH_GT (js "1000") (js "2")); try (vm_compute; reflexivity).
  left. split; [left|vm_compute; reflexivity].
Defined.

End Billing.
