(* ===== verification/TierExpr.v ===== *)
(** * Tiered prices of billing expressions
      (web/src/features/pricing/lib/tier-expr.ts, with the variables and the tier parser of
      web/src/features/pricing/lib/billing-expr.ts)

    A price is a chain of conditional tiers, [cond ? tier("a", p * 1 + c * 2) : tier(...)].
    The editor writes it from a list of tiers and reads it back; the pricing page reads it
    with a more tolerant pattern. The regular expressions are terms of Regex.v, built the way
    the source concatenates them. Printing and reading of numbers ([String], [Number]) are
    those of the language, on doubles: parameters here. *)
From S2P Require Import Prelude JsString JsMap JsValue Regex BillingExpr.
Local Open Scope N_scope.
Local Open Scope js_scope.

Module Tiers.

(** ** Variables *)

Inductive TierField :=
| input_unit_cost | output_unit_cost | cache_read_unit_cost | cache_create_unit_cost
| cache_create_1h_unit_cost | image_unit_cost | image_output_unit_cost
| audio_input_unit_cost | audio_output_unit_cost.

#[export] Instance TierField_eq_dec : EqDecision TierField.
Proof. solve_decision. Defined.

Definition TIER_FIELDS : list TierField :=
  [input_unit_cost; output_unit_cost; cache_read_unit_cost; cache_create_unit_cost;
   cache_create_1h_unit_cost; image_unit_cost; image_output_unit_cost;
   audio_input_unit_cost; audio_output_unit_cost].

#[export] Instance TierField_finite : finite.Finite TierField.
Proof. refine (finite.Build_Finite _ _ TIER_FIELDS _ _); [by apply (bool_decide_unpack _)|intros []; by apply (bool_decide_unpack _)]. Defined.

Inductive Side := InputSide | OutputSide | ConditionSide.

Record BillingVar := mkVar {
  key : jsstr; field : option jsstr; tierField : option TierField; label_ : jsstr; shortLabel : jsstr;
  side : Side; isBase : bool; isConditionOnly : bool; group : option jsstr }.

Definition BILLING_VARS : list BillingVar :=
  [mkVar (js "p") (Some (js "inputPrice")) (Some input_unit_cost) (js "Input price") (js "Input") InputSide true false None;
   mkVar (js "c") (Some (js "outputPrice")) (Some output_unit_cost) (js "Completion price") (js "Output") OutputSide true false None;
   mkVar (js "len") None None (js "Input length") (js "Length") ConditionSide false true None;
   mkVar (js "cr") (Some (js "cacheReadPrice")) (Some cache_read_unit_cost) (js "Cache read price") (js "Cache Read")
     InputSide false false (Some (js "cache"));
   mkVar (js "cc") (Some (js "cacheCreatePrice")) (Some cache_create_unit_cost) (js "Cache create price") (js "Cache Write")
     InputSide false false (Some (js "cache"));
   mkVar (js "cc1h") (Some (js "cacheCreate1hPrice")) (Some cache_create_1h_unit_cost) (js "Cache create (1h) price")
     (js "Cache Write (1h)") InputSide false false (Some (js "cache"));
   mkVar (js "img") (Some (js "imagePrice")) (Some image_unit_cost) (js "Image input price") (js "Image In")
     InputSide false false (Some (js "media"));
   mkVar (js "img_o") (Some (js "imageOutputPrice")) (Some image_output_unit_cost) (js "Image output price") (js "Image Out")
     OutputSide false false (Some (js "media"));
   mkVar (js "ai") (Some (js "audioInputPrice")) (Some audio_input_unit_cost) (js "Audio input price") (js "Audio In")
     InputSide false false (Some (js "media"));
   mkVar (js "ao") (Some (js "audioOutputPrice")) (Some audio_output_unit_cost) (js "Audio output price") (js "Audio Out")
     OutputSide false false (Some (js "media"))].

Definition BILLING_PRICING_VARS : list BillingVar := List.filter (λ v, negb (isConditionOnly v)) BILLING_VARS.

Definition BILLING_CONDITION_VARS : list jsstr :=
  map key (List.filter (λ v, isBase v || isConditionOnly v) BILLING_VARS).

Definition BILLING_EXTRA_VARS : list BillingVar :=
  List.filter (λ v, negb (isBase v) && negb (isConditionOnly v)) BILLING_VARS.

(** Every extra variable has a field. *)
Definition BILLING_CACHE_VAR_MAP : list (TierField * jsstr) :=
  omap (λ v, (λ f, (f, key v)) <$> tierField v) BILLING_EXTRA_VARS.

Definition BILLING_VAR_KEY_TO_FIELD : list (jsstr * jsstr) :=
  omap (λ v, (λ f, (key v, f)) <$> field v) BILLING_PRICING_VARS.

(** ** Tiers *)

Inductive CacheMode := Timed | Generic.
Inductive CondVar := VarP | VarC | VarLen.
Inductive CondOp := OpLt | OpLe | OpGt | OpGe.

(** [number | string] *)
Inductive CondValue := CNum (n : jsnum) | CStr (s : jsstr).

#[export] Instance CondVar_eq_dec : EqDecision CondVar.
Proof. solve_decision. Defined.
#[export] Instance CondOp_eq_dec : EqDecision CondOp.
Proof. solve_decision. Defined.

Record TierConditionInput := mkCond { var : CondVar; op : CondOp; cvalue : CondValue }.

(** A tier is an object whose properties may be missing: its price properties are a map. *)
Record VisualTier := mkTier {
  label : option jsstr; conditions : option (list TierConditionInput); cache_mode : option CacheMode;
  costs : gmap TierField jsnum }.

Abbreviation VisualConfig := (list VisualTier).

(** [Number(x) || 0] *)
Definition or0 (x : option jsnum) : jsnum :=
  match x with
  | Some n => if value_truthy (Num n) then n else num_of_Z 0
  | None => num_of_Z 0
  end.

Definition getTierCacheMode (tier : VisualTier) : CacheMode :=
  match cache_mode tier with
  | Some m => m
  | None =>
      match costs tier !! cache_create_1h_unit_cost with
      | Some n => if num_lt (num_of_Z 0) n then Timed else Generic
      | None => Generic
      end
  end.

(** The properties before the spread are overridden by those the tier has, those after it override them. *)
Definition normalizeVisualTier (tier : VisualTier) : VisualTier :=
  let before : gmap TierField jsnum :=
    {[ input_unit_cost := or0 (costs tier !! input_unit_cost);
       output_unit_cost := or0 (costs tier !! output_unit_cost) ]} in
  mkTier (Some (default [] (label tier))) (Some (default [] (conditions tier)))
    (Some (default (getTierCacheMode tier) (cache_mode tier)))
    (foldl (λ m f, <[f := or0 (costs tier !! f)]> m) (costs tier ∪ before)
       [cache_read_unit_cost; cache_create_unit_cost; cache_create_1h_unit_cost; image_unit_cost;
        image_output_unit_cost; audio_input_unit_cost; audio_output_unit_cost]).

Definition createDefaultVisualConfig : VisualConfig :=
  [normalizeVisualTier (mkTier (Some (js "base")) (Some []) (Some Generic)
     {[ input_unit_cost := num_of_Z 0; output_unit_cost := num_of_Z 0 ]})].

(** [None] is [null] or [undefined]. *)
Definition normalizeVisualConfig (config : option VisualConfig) : VisualConfig :=
  match config with
  | None | Some [] => createDefaultVisualConfig
  | Some tiers => map normalizeVisualTier tiers
  end.

(** ** Patterns *)

Definition quote : re := chr 34.
Definition digit : N → bool := is_digit.

(** [[\d.eE+]] *)
Definition is_cond_char (u : N) : bool :=
  is_digit u || (u =? 46) || (u =? 101) || (u =? 69) || (u =? 43).

Definition var_text (v : CondVar) : jsstr :=
  match v with VarP => js "p" | VarC => js "c" | VarLen => js "len" end.
Definition op_text (o : CondOp) : jsstr :=
  match o with OpLt => js "<" | OpLe => js "<=" | OpGt => js ">" | OpGe => js ">=" end.

Definition var_re : re := alts [lit (js "p"); lit (js "c")] (lit (js "len")).
Definition op_re : re := alts [lit (js "<"); lit (js "<="); lit (js ">")] (lit (js ">=")).

Definition condAtom : re := seqs [var_re; ws; op_re; ws] (plus is_cond_char).

(** The separator of conditions, [\s*&&\s*] *)
Definition and_re : re := seqs [ws; lit (js "&&")] ws.

Definition condGroup : re := Group 1 (Seq condAtom (Star (Seq and_re condAtom))).

Definition num_group (n : nat) : re := Group n (plus Billing.is_num_char).

(** One optional summand; [n] is the number of its group. *)
Definition extra_re (n : nat) (v : jsstr) : re :=
  Opt (seqs [ws; lit (js "+"); ws; lit v; ws; lit (js "*"); ws] (num_group n)).

Fixpoint optCacheStr (n : nat) (vars : list jsstr) (last : re) : re :=
  match vars with
  | [] => last
  | v :: vars' => Seq (extra_re n v) (optCacheStr (S n) vars' last)
  end.

(** [bodyPat] followed by [last]; its groups start at [n]. *)
Definition bodyPat (n : nat) (last : re) : re :=
  seqs [lit (js "p"); ws; lit (js "*"); ws; num_group n; ws; lit (js "+"); ws; lit (js "c"); ws; lit (js "*"); ws;
        num_group (S n)]
    (optCacheStr (S (S n)) (map snd BILLING_CACHE_VAR_MAP) last).

(** The call, the label between quotes as group [n], the comma and blanks. *)
Definition tier_head (n : nat) : list re :=
  [lit (js "tier("); quote; Group n (Star (Class (λ c, negb (c =? 34)))); quote; lit (js ","); ws].

Definition singleRe : re := seqs (tier_head 1) (bodyPat 2 (Seq (lit (js ")")) End)).

Definition cond_prefix : re := Opt (seqs [condGroup; ws; lit (js "?")] ws).

Definition tierRe : re := Seq cond_prefix (seqs (tier_head 2) (bodyPat 3 (lit (js ")")))).

(** A version [v1:] and the rest, as groups 1 and 2. *)
Definition version_re : re :=
  seqs [lit (js "v"); Group 1 (plus digit); lit (js ":"); Group 2 (Star (Class (λ _, true)))] End.

(** One whole condition: variable, operator and number as groups 1, 2 and 3. *)
Definition condition_re : re :=
  seqs [Group 1 var_re; ws; Group 2 op_re; ws; Group 3 (plus is_cond_char)] End.

(** [s.split(re)] for a pattern that matches no empty text; [cur] holds the current piece, reversed. *)
Fixpoint split_re (r : re) (fuel : nat) (cur : jsstr) (pr : option N) (s : jsstr) : list jsstr :=
  match fuel with
  | O => [rev cur]
  | S f =>
      match s with
      | [] => [rev cur]
      | c :: t =>
          match match_at r (At pr s []) with
          | Some y => rev cur :: split_re r f [] (prev y) (rest y)
          | None => split_re r f (c :: cur) (Some c) t
          end
      end
  end.

Section numbers.
Context (Number_ : jsstr → jsnum) (String_ : jsnum → jsstr).

(** ** Writing *)

Definition value_text (v : CondValue) : jsstr := match v with CNum n => String_ n | CStr s => s end.

Definition has_value (c : TierConditionInput) : bool :=
  match cvalue c with CNum _ => true | CStr s => truthy s end.

Definition cond_text (c : TierConditionInput) : jsstr :=
  var_text (var c) ++ js " " ++ op_text (op c) ++ js " " ++ value_text (cvalue c).

Definition buildConditionStr (conditions : list TierConditionInput) : jsstr :=
  join (js " && ") (map cond_text (List.filter has_value conditions)).

Definition buildTierBodyExpr (tier : VisualTier) : jsstr :=
  let ic := or0 (costs tier !! input_unit_cost) in
  let oc := or0 (costs tier !! output_unit_cost) in
  join (js " + ")
    ((js "p * " ++ String_ ic) :: (js "c * " ++ String_ oc) ::
     omap (λ cv, let v := or0 (costs tier !! fst cv) in
                 if num_eqb v (num_of_Z 0) then None else Some (snd cv ++ js " * " ++ String_ v))
       BILLING_CACHE_VAR_MAP).

Definition tier_body (lbl : jsstr) (tier : VisualTier) : jsstr :=
  js "tier(" ++ [34] ++ lbl ++ [34] ++ js ", " ++ buildTierBodyExpr tier ++ js ")".

(** [tier_${i + 1}] *)
Definition tier_name (i : nat) : jsstr := js "tier_" ++ show_Z (Z.of_nat (S i)).

Definition generateExprFromVisualConfig (config : option VisualConfig) : jsstr :=
  match config with
  | None | Some [] => js "p * 0 + c * 0"
  | Some [tier] =>
      let body := tier_body (str_or (default [] (label tier)) (js "default")) tier in
      let cond := buildConditionStr (default [] (conditions tier)) in
      if truthy cond then cond ++ js " ? " ++ body ++ js " : p * 0 + c * 0" else body
  | Some tiers =>
      join (js " : ") (imap (λ i tier,
        let body := tier_body (str_or (default [] (label tier)) (tier_name i)) tier in
        let cond := buildConditionStr (default [] (conditions tier)) in
        if (i <? length tiers - 1)%nat && truthy cond then cond ++ js " ? " ++ body else body) tiers)
  end.

(** ** Reading *)

Definition parse_var (s : jsstr) : option CondVar :=
  if streq s (js "p") then Some VarP else if streq s (js "c") then Some VarC
  else if streq s (js "len") then Some VarLen else None.

Definition parse_op (s : jsstr) : option CondOp :=
  if streq s (js "<") then Some OpLt else if streq s (js "<=") then Some OpLe
  else if streq s (js ">") then Some OpGt else if streq s (js ">=") then Some OpGe else None.

Definition parse_condition (cp : jsstr) : option TierConditionInput :=
  match match_at condition_re (start_of (trim cp)) with
  | Some y =>
      match cap 1 (caps y) ≫= parse_var, cap 2 (caps y) ≫= parse_op, cap 3 (caps y) with
      | Some v, Some o, Some n => Some (mkCond v o (CNum (Number_ n)))
      | _, _, _ => None
      end
  | None => None
  end.

Definition parse_conditions (condStr : jsstr) : list TierConditionInput :=
  if truthy condStr then omap parse_condition (split_re and_re (S (length condStr)) [] None condStr) else [].

(** The tier of a match whose prices start at group [n]. *)
Definition matched_tier (n : nat) (conds : list TierConditionInput) (lbl : jsstr) (cs : list (nat * jsstr)) : VisualTier :=
  let number i := Number_ (default [] (cap i cs)) in
  mkTier (Some lbl) (Some conds) None
    (foldl (λ m e, match cap (S (S n) + fst e) cs with Some v => <[snd e := Number_ v]> m | None => m end)
       {[ input_unit_cost := number n; output_unit_cost := number (S n) ]}
       (imap (λ i cv, (i, fst cv)) BILLING_CACHE_VAR_MAP)).

Definition strip_version (exprStr : jsstr) : jsstr :=
  match match_at version_re (start_of exprStr) with
  | Some y => default [] (cap 2 (caps y))
  | None => exprStr
  end.

(** [s.replaceAll(/\s+/g, '')] *)
Definition without_ws (s : jsstr) : jsstr := List.filter (λ c, negb (is_ws c)) s.

(** The loop over the matches of [tierRe], which ends by [exec_all_total]. *)
Definition read_tiers (body : jsstr) : list VisualTier :=
  map (λ m, normalizeVisualTier
    (matched_tier 3 (parse_conditions (default [] (cap 1 m))) (default [] (cap 2 m)) m))
    (default [] (matchAll tierRe body)).

Definition tryParseVisualConfig (exprStr : option jsstr) : option VisualConfig :=
  if negb (truthy (default [] exprStr)) then None
  else
    let body := strip_version (default [] exprStr) in
    match match_at singleRe (start_of body) with
    | Some simple =>
        Some (normalizeVisualConfig
          (Some [normalizeVisualTier (matched_tier 2 [] (default [] (cap 1 (caps simple))) (caps simple))]))
    | None =>
        match read_tiers body with
        | [] => None
        | tiers =>
            let cfg := normalizeVisualConfig (Some tiers) in
            if streq (without_ws (generateExprFromVisualConfig (Some cfg))) (without_ws body) then Some cfg else None
        end
    end.
End numbers.

(** ** Lemmas *)

(** *** Prices *)

Lemma or0_idem x : or0 (Some (or0 x)) = or0 x.
Proof. destruct x as [n|]; [|done]. unfold or0. by destruct (value_truthy (Num n)) eqn:E; [rewrite E|]. Qed.

(** The price of a tier in a field, a missing one being 0. *)
Definition price (t : VisualTier) (f : TierField) : jsnum := or0 (costs t !! f).

Definition all_costs (g : TierField → jsnum) : gmap TierField jsnum :=
  list_to_map (map (λ f, (f, g f)) TIER_FIELDS).

Lemma all_costs_lookup g f : all_costs g !! f = Some (g f).
Proof. by destruct f. Qed.

Lemma opt_insert_lookup {A} (o : option A) (h : A → jsnum) (f g : TierField) (m : gmap TierField jsnum) :
  (match o with Some v => <[g := h v]> m | None => m end) !! f =
  if decide (g = f) then match o with Some v => Some (h v) | None => m !! f end else m !! f.
Proof. destruct o; [by rewrite lookup_insert|by destruct (decide _)]. Qed.

Lemma normalize_costs t f :
  costs (normalizeVisualTier t) !! f =
  Some (match f with
        | input_unit_cost | output_unit_cost => default (num_of_Z 0) (costs t !! f)
        | _ => price t f
        end).
Proof.
  unfold normalizeVisualTier. cbn [costs foldl]. rewrite !lookup_insert, lookup_union.
  destruct f; simpl; try done; rewrite ?lookup_insert; by destruct (costs t !! _).
Qed.

Lemma normalize_idem t : normalizeVisualTier (normalizeVisualTier t) = normalizeVisualTier t.
Proof.
  assert (costs (normalizeVisualTier (normalizeVisualTier t)) = costs (normalizeVisualTier t)) as E.
  { apply map_eq. intros f. destruct f; rewrite normalize_costs; unfold price; rewrite normalize_costs; unfold price;
      by rewrite ?or0_idem. }
  unfold normalizeVisualTier at 1 3. f_equal. exact E.
Qed.

(** *** Texts of tiers and the groups of their matches *)

Lemma join_cons sep x l : join sep (x :: l) = x ++ concat (map (app sep) l).
Proof.
  revert x. induction l as [|y l IH]; intros x; [simpl; by rewrite app_nil_r|].
  change (join sep (x :: y :: l)) with (x ++ sep ++ join sep (y :: l)). rewrite IH. cbn [map concat]. by rewrite <- !app_assoc.
Qed.

(** One step of a match on a text that starts with the unit the pattern asks for. *)
Create HintDb starts.
#[export] Hint Extern 0 (no_start _ _) => reflexivity : starts.

Ltac eat :=
  lazymatch goal with
  | |- run (seqs (?r :: ?rs) ?l) ?k ?x = ?a => change (run r (run (seqs rs l) k) x = a)
  | |- run (seqs [] ?l) ?k ?x = ?a => change (run l k x = a)
  | |- run (Seq ?r ?l) ?k ?x = ?a => change (run r (run l k) x = a)
  | |- run (lit ?w) ?k (At ?pr (?c :: ?t) ?cs) = ?a => change (k (At (Some c) t cs) = a); cbv beta
  | |- run quote ?k (At ?pr (?c :: ?t) ?cs) = ?a => change (k (At (Some c) t cs) = a); cbv beta
  | |- run ws ?k (At ?pr (32 :: ?t) ?cs) = ?a => apply run_ws_blank; [eauto with starts|]
  | |- run ws ?k (At ?pr ?t ?cs) = ?a => apply run_ws_none; [eauto with starts|]
  | |- run (num_group ?n) ?k (At ?pr (?u ++ ?t) ?cs) = ?a => apply run_group_plus; [try done..|]
  end.

Section texts.
Context (Number_ : jsstr → jsnum) (String_ : jsnum → jsstr).

(** A number that is printed with digits, points, exponents and signs, and read back. *)
Definition plain (n : jsnum) : Prop :=
  String_ n ≠ [] ∧ Forall (λ c, Billing.is_num_char c = true) (String_ n) ∧ Number_ (String_ n) = n.

(** The condition's number is printed without a minus, and reading and printing it gives the same text. *)
Definition plain_condition (c : TierConditionInput) : Prop :=
  has_value c = true →
  value_text String_ (cvalue c) ≠ [] ∧
  Forall (λ u, is_cond_char u = true) (value_text String_ (cvalue c)) ∧
  String_ (Number_ (value_text String_ (cvalue c))) = value_text String_ (cvalue c).

Definition plain_tier (t : VisualTier) : Prop :=
  (34 ∉ default [] (label t)) ∧ Forall plain_condition (default [] (conditions t)) ∧ ∀ f, plain (price t f).

Definition is_zero (n : jsnum) : bool := num_eqb n (num_of_Z 0).

Definition extras_text (t : VisualTier) (vs : list (TierField * jsstr)) : jsstr :=
  concat (map (λ cv, if is_zero (price t (fst cv)) then []
                     else js " + " ++ snd cv ++ js " * " ++ String_ (price t (fst cv))) vs).

Lemma body_text t :
  buildTierBodyExpr String_ t =
  js "p * " ++ String_ (price t input_unit_cost) ++ js " + c * " ++ String_ (price t output_unit_cost) ++
  extras_text t BILLING_CACHE_VAR_MAP.
Proof.
  unfold buildTierBodyExpr. rewrite join_cons. cbn [map concat]. rewrite <- !app_assoc.
  change (js " + " ++ js "c * " ++ ?x) with (js " + c * " ++ x).
  do 4 f_equal. unfold extras_text. induction BILLING_CACHE_VAR_MAP as [|cv vs IH]; [done|].
  cbn [map omap list_omap concat]. unfold is_zero at 1, price at 1. fold (price t (fst cv)).
  destruct (num_eqb _ _); [exact IH|]. cbn [map concat]. rewrite IH. by rewrite <- !app_assoc.
Qed.

(** The groups that the summands of a body set. *)
Fixpoint extras_caps (t : VisualTier) (n : nat) (vs : list (TierField * jsstr)) (cs : list (nat * jsstr)) :
    list (nat * jsstr) :=
  match vs with
  | [] => cs
  | cv :: vs' =>
      extras_caps t (S n) vs'
        (if is_zero (price t (fst cv)) then cs else (n, String_ (price t (fst cv))) :: cs)
  end.

Lemma cap_cons n e cs : cap n (e :: cs) = if (fst e =? n)%nat then Some (snd e) else cap n cs.
Proof. unfold cap. simpl. by destruct (fst e =? n)%nat. Qed.

Lemma cap_extras_lt t vs : ∀ n cs j, (j < n)%nat → cap j (extras_caps t n vs cs) = cap j cs.
Proof.
  induction vs as [|cv vs IH]; intros n cs j Hj; simpl; [done|]. rewrite IH by lia.
  destruct (is_zero _); [done|]. rewrite cap_cons. simpl. by rewrite (proj2 (Nat.eqb_neq n j)) by lia.
Qed.

Lemma cap_extras t vs : ∀ n cs i cv,
  vs !! i = Some cv → (∀ j, n ≤ j → cap j cs = None)%nat →
  cap (n + i) (extras_caps t n vs cs) =
    if is_zero (price t (fst cv)) then None else Some (String_ (price t (fst cv))).
Proof.
  induction vs as [|cv' vs IH]; intros n cs [|i] cv Hi Hcs; simplify_eq/=.
  - rewrite Nat.add_0_r, cap_extras_lt by lia. destruct (is_zero _); [by apply Hcs|].
    rewrite cap_cons. simpl. by rewrite Nat.eqb_refl.
  - replace (n + S i)%nat with (S n + i)%nat by lia. apply IH; [done|]. intros j Hj.
    destruct (is_zero _); [apply Hcs; lia|]. rewrite cap_cons. simpl.
    rewrite (proj2 (Nat.eqb_neq n j)) by lia. apply Hcs. lia.
Qed.

(** *** Matching the text of a body *)

Lemma num_char_ws c : Billing.is_num_char c = true → is_ws c = false.
Proof.
  unfold Billing.is_num_char, is_ws, is_digit. rewrite !orb_true_iff, andb_true_iff, !N.leb_le, !N.eqb_eq.
  intros H. rewrite !orb_false_iff, !andb_false_iff, !N.leb_gt, !N.eqb_neq. lia.
Qed.

Lemma no_start_app p u t : u ≠ [] → Forall (λ c, p c = false) u → no_start p (u ++ t).
Proof. intros Hne Hu. by destruct Hu. Qed.

Lemma plain_no_ws n t : plain n → no_start is_ws (String_ n ++ t).
Proof.
  intros (Hne & Hf & _). apply no_start_app; [done|]. eapply Forall_impl; [exact Hf|]. apply num_char_ws.
Qed.

Hint Resolve plain_no_ws : starts.

(** Two summands in the order of the variables are told apart by their names. *)
Definition clash (v w : jsstr) : Prop :=
  ∀ n (k : pos → option pos) pr t cs,
    run (seqs [ws; lit (js "+"); ws; lit v; ws; lit (js "*"); ws] (num_group n)) k
      (At pr (js " + " ++ w ++ js " * " ++ t) cs) = None.

Lemma names_clash : ForallOrdPairs clash (map snd BILLING_CACHE_VAR_MAP).
Proof.
  change (map snd BILLING_CACHE_VAR_MAP) with
    [js "cr"; js "cc"; js "cc1h"; js "img"; js "img_o"; js "ai"; js "ao"].
  repeat first [apply FOP_cons | apply FOP_nil | apply Forall_cons_2 | apply Forall_nil_2];
    intros n k pr t cs; reflexivity.
Qed.

(** A variable's name: not empty, without white space. *)
Definition name_ok (v : jsstr) : Prop := v ≠ [] ∧ Forall (λ c, is_ws c = false) v.

Lemma names_ok : Forall name_ok (map snd BILLING_CACHE_VAR_MAP).
Proof. repeat (apply Forall_cons_2 || apply Forall_nil_2); split; try done; by repeat constructor. Qed.

Lemma extras_head t vs r :
  let text := extras_text t vs ++ 41 :: r in
  text = 41 :: r ∨ ∃ w u, w ∈ map snd vs ∧ text = js " + " ++ w ++ js " * " ++ u.
Proof.
  cbv zeta. induction vs as [|cv vs IH]; [by left|]. unfold extras_text. cbn [map concat].
  destruct (is_zero _).
  - destruct IH as [IH | (w & u & Hw & IH)]; [by left|]. right. exists w, u. split; [by right|exact IH].
  - right. exists (snd cv). eexists. split; [left|]. by rewrite <- !app_assoc.
Qed.

Lemma run_extras t last vs : ∀ n (k : pos → option pos) pr r cs a,
  (∀ f, plain (price t f)) → ForallOrdPairs clash (map snd vs) → Forall name_ok (map snd vs) →
  (∀ pr', run last k (At pr' (41 :: r) (extras_caps t n vs cs)) = Some a) →
  run (optCacheStr n (map snd vs) last) k (At pr (extras_text t vs ++ 41 :: r) cs) = Some a.
Proof.
  induction vs as [|cv vs IH]; intros n k pr r cs a Hp Hc Hnm Hk; [apply Hk|].
  inversion Hc as [|? ? Hclash Hc']; subst. apply Forall_cons in Hnm as [[Hn1 Hn2] Hnm]. cbn [map optCacheStr]. eat. unfold extra_re. cbn [extras_caps] in Hk.
  unfold extras_text. cbn [map concat]. destruct (is_zero (price t (fst cv))) eqn:Ez; cbn [app].
  - change (concat _) with (extras_text t vs). rewrite run_opt_skip; [by apply IH|].
    intros k'. destruct (extras_head t vs r) as [-> | (w & u & Hw & ->)]; [done|].
    rewrite Forall_forall in Hclash. by apply Hclash.
  - apply run_opt; [done|]. rewrite <- !app_assoc. change (concat _) with (extras_text t vs).
    destruct (Hp (fst cv)) as (Hne & Hf & _).
    assert (no_start Billing.is_num_char (extras_text t vs ++ 41 :: r)) as Hns.
    { by destruct (extras_head t vs r) as [-> | (w & u & _ & ->)]. }
    change (js " + " ++ ?y) with (32 :: 43 :: 32 :: y). repeat eat; [by apply no_start_app|].
    rewrite run_lit. change (js " * " ++ ?y) with (32 :: 42 :: 32 :: y). repeat eat. by apply IH.
Qed.

(** The groups a body sets: its two prices, then its extra summands. *)
Definition body_caps (n : nat) (t : VisualTier) (cs : list (nat * jsstr)) : list (nat * jsstr) :=
  extras_caps t (S (S n)) BILLING_CACHE_VAR_MAP
    ((S n, String_ (price t output_unit_cost)) :: (n, String_ (price t input_unit_cost)) :: cs).

Lemma run_body n last (k : pos → option pos) pr t r cs a :
  (∀ f, plain (price t f)) →
  (∀ pr', run last k (At pr' (41 :: r) (body_caps n t cs)) = Some a) →
  run (bodyPat n last) k (At pr (buildTierBodyExpr String_ t ++ 41 :: r) cs) = Some a.
Proof.
  intros Hp Hk. rewrite body_text, <- !app_assoc. unfold bodyPat.
  destruct (Hp input_unit_cost) as (Hn1 & Hf1 & _), (Hp output_unit_cost) as (Hn2 & Hf2 & _).
  change (js "p * " ++ ?y) with (112 :: 32 :: 42 :: 32 :: y).
  change (js " + c * " ++ ?y) with (32 :: 43 :: 32 :: 99 :: 32 :: 42 :: 32 :: y).
  repeat eat.
  - by destruct (extras_head t BILLING_CACHE_VAR_MAP r) as [-> | (w & u & _ & ->)].
  - apply run_extras; [done|apply names_clash|apply names_ok|exact Hk].
Qed.

Lemma run_head n R (k : pos → option pos) pr lbl x cs a :
  (34 ∉ lbl) → no_start is_ws x → run R k (At (Some 32) x ((n, lbl) :: cs)) = Some a →
  run (seqs (tier_head n) R) k (At pr (js "tier(" ++ [34] ++ lbl ++ [34] ++ js ", " ++ x) cs) = Some a.
Proof.
  intros Hl Hx Hk. unfold tier_head. eat. rewrite run_lit. cbn [app]. repeat eat. apply run_group_star; [|done|].
  { apply Forall_forall. intros c Hc. apply negb_true_iff, N.eqb_neq. by intros ->. }
  change (js ", " ++ ?y) with (44 :: 32 :: y). do 4 eat. eat. apply run_ws_blank; [done|]. exact Hk.
Qed.

Lemma run_call n last (k : pos → option pos) pr lbl t r cs a :
  (34 ∉ lbl) → (∀ f, plain (price t f)) →
  (∀ pr', run last k (At pr' (41 :: r) (body_caps (S n) t ((n, lbl) :: cs))) = Some a) →
  run (seqs (tier_head n) (bodyPat (S n) last)) k (At pr (tier_body String_ lbl t ++ r) cs) = Some a.
Proof.
  intros Hl Hp Hk. unfold tier_body. rewrite <- !app_assoc. apply run_head; [done|by rewrite body_text|].
  by apply run_body.
Qed.

(** *** Matching conditions *)

Lemma cond_char_ws c : is_cond_char c = true → is_ws c = false.
Proof.
  intros H. apply num_char_ws. unfold Billing.is_num_char, is_cond_char in *. rewrite !orb_true_iff in *. tauto.
Qed.

Lemma run_var (k : pos → option pos) pr v t cs a :
  (∀ pr', k (At pr' t cs) = Some a) → run var_re k (At pr (var_text v ++ t) cs) = Some a.
Proof.
  intros Hk. unfold var_re, alts. destruct v.
  - apply run_alt_l, Hk.
  - rewrite run_alt_r by done. apply run_alt_l, Hk.
  - rewrite !run_alt_r by done. apply Hk.
Qed.

(** The shorter operator is tried first, and given up before an equals sign. *)
Lemma run_op (k : pos → option pos) pr o t cs a :
  (∀ pr', k (At pr' t cs) = Some a) → (∀ pr' t', k (At pr' (61 :: t') cs) = None) →
  run op_re k (At pr (op_text o ++ t) cs) = Some a.
Proof.
  intros Hk He. unfold op_re, alts. destruct o.
  - apply run_alt_l, Hk.
  - rewrite run_alt_r by apply He. apply run_alt_l, Hk.
  - rewrite !run_alt_r by done. apply run_alt_l, Hk.
  - rewrite !run_alt_r by (done || apply He). apply Hk.
Qed.

Lemma run_cond_atom (k : pos → option pos) pr c t cs a :
  plain_condition c → has_value c = true → no_start is_cond_char t →
  (∀ pr', k (At pr' t cs) = Some a) →
  run condAtom k (At pr (cond_text String_ c ++ t) cs) = Some a.
Proof.
  intros Hc Hv Ht Hk. destruct (Hc Hv) as (Hne & Hf & _). unfold cond_text. rewrite <- !app_assoc.
  assert (no_start is_ws (value_text String_ (cvalue c) ++ t)) as Hns.
  { apply no_start_app; [done|]. eapply Forall_impl; [exact Hf|]. apply cond_char_ws. }
  unfold condAtom. eat. apply run_var. intros pr1. eat. apply run_ws_blank; [by destruct (op c)|].
  eat. apply run_op; [|done]. intros pr2. eat. apply run_ws_blank; [done|]. eat.
  by apply run_plus.
Qed.

Definition and_text (c : TierConditionInput) : jsstr := js " && " ++ cond_text String_ c.

Lemma cond_text_head c t : ∃ u s, cond_text String_ c ++ t = u :: s ∧ is_ws u = false ∧ u ≠ 38.
Proof. unfold cond_text. destruct (var c); eexists _, _; (split; [reflexivity|done]). Qed.

Lemma ands_no_start p l t :
  p 32 = false → no_start p t → no_start p (concat (map and_text l) ++ t).
Proof. intros Hp Ht. by destruct l. Qed.

Lemma run_ands (k : pos → option pos) l t cs a : ∀ pr fuel,
  Forall plain_condition l → Forall (λ c, has_value c = true) l →
  (length l < fuel)%nat → no_start is_cond_char t →
  (∀ (k' : pos → option pos) pr', run (Seq and_re condAtom) k' (At pr' t cs) = None) →
  (∀ pr', k (At pr' t cs) = Some a) →
  star_loop (Seq and_re condAtom) (run (Seq and_re condAtom)) k fuel (At pr (concat (map and_text l) ++ t) cs) = Some a.
Proof.
  induction l as [|c l IH]; intros pr [|f] Hp Hv Hf Ht Hfail Hk; try (simpl in Hf; lia).
  { cbn [star_loop map concat app]. rewrite Hfail. apply Hk. }
  apply Forall_cons in Hp as [Hpc Hp], Hv as [Hvc Hv]. apply star_loop_turn; [done|].
  cbn [map concat]. unfold and_text at 1. rewrite <- !app_assoc. eat. unfold and_re at 1.
  change (js " && " ++ ?y) with (32 :: js "&&" ++ 32 :: y). do 3 eat. rewrite run_lit. eat.
  destruct (cond_text_head c (concat (map and_text l) ++ t)) as (u & s' & E & Hu & _).
  apply run_ws_blank; [by rewrite E|].
  apply run_cond_atom; [done|done|by apply ands_no_start|]. intros pr'. apply IH; try done. simpl in Hf. lia.
Qed.

Lemma cond_join c l : join (js " && ") (map (cond_text String_) (c :: l)) = cond_text String_ c ++ concat (map and_text l).
Proof. cbn [map]. rewrite join_cons. f_equal. by rewrite map_map. Qed.

Lemma length_ands l : (length l ≤ length (concat (map and_text l)))%nat.
Proof. induction l as [|c l IH]; [done|]. cbn [map concat length]. rewrite length_app. simpl. lia. Qed.

(** The conditions that are written. *)
Definition shown (t : VisualTier) : list TierConditionInput := List.filter has_value (default [] (conditions t)).

Lemma shown_ok t : plain_tier t → Forall plain_condition (shown t) ∧ Forall (λ c, has_value c = true) (shown t).
Proof.
  intros (_ & Hc & _). rewrite !Forall_forall in *. split; intros c [Hin Hv]%list_elem_of_In%filter_In; [|done].
  by apply Hc, list_elem_of_In.
Qed.

(** Conditions followed by a question mark, as group 1. *)
Lemma run_cond_group (k : pos → option pos) pr l t cs a :
  l ≠ [] → Forall plain_condition l → Forall (λ c, has_value c = true) l →
  (∀ pr', k (At pr' (js " ? " ++ t) ((1%nat, join (js " && ") (map (cond_text String_) l)) :: cs)) = Some a) →
  run condGroup k (At pr (join (js " && ") (map (cond_text String_) l) ++ js " ? " ++ t) cs) = Some a.
Proof.
  intros Hne Hp Hv Hk. destruct l as [|c l]; [done|]. apply Forall_cons in Hp as [Hpc Hp], Hv as [Hvc Hv].
  unfold condGroup. set (text := join _ _) in *.
  change (run (Seq condAtom (Star (Seq and_re condAtom)))
    (λ y, k (capture 1 (At pr (text ++ js " ? " ++ t) cs) y)) (At pr (text ++ js " ? " ++ t) cs) = Some a).
  set (k1 := λ y, _). unfold text. rewrite cond_join, <- app_assoc. eat.
  apply run_cond_atom; [done|done|by apply ands_no_start|]. intros pr1.
  change (star_loop (Seq and_re condAtom) (run (Seq and_re condAtom)) k1
    (S (length (concat (map and_text l) ++ js " ? " ++ t))) (At pr1 (concat (map and_text l) ++ js " ? " ++ t) cs) = Some a).
  apply run_ands; try done.
  - rewrite length_app. pose proof (length_ands l). lia.
  - intros pr2. unfold k1. rewrite capture_app. apply Hk.
Qed.

(** What precedes the call of a tier. *)
Definition cond_part (l : list TierConditionInput) : jsstr :=
  if truthy (join (js " && ") (map (cond_text String_) l))
  then join (js " && ") (map (cond_text String_) l) ++ js " ? " else [].

Definition cond_caps (l : list TierConditionInput) : list (nat * jsstr) :=
  match l with [] => [] | _ => [(1%nat, join (js " && ") (map (cond_text String_) l))] end.

Lemma cond_part_cons c l :
  cond_part (c :: l) = join (js " && ") (map (cond_text String_) (c :: l)) ++ js " ? ".
Proof. unfold cond_part. rewrite cond_join. by destruct (var c) eqn:E; unfold cond_text; rewrite E. Qed.

(** The optional conditions before something that starts with a letter [t]. *)
Lemma run_prefix R (k : pos → option pos) pr l x a :
  Forall plain_condition l → Forall (λ c, has_value c = true) l →
  (∀ pr', run R k (At pr' (116 :: x) (cond_caps l)) = Some a) →
  run (Seq cond_prefix R) k (At pr (cond_part l ++ 116 :: x) []) = Some a.
Proof.
  intros Hp Hv Hk. eat. destruct l as [|c l].
  - unfold cond_prefix. rewrite run_opt_skip; [apply Hk|done].
  - rewrite cond_part_cons, <- app_assoc. apply run_opt; [done|]. eat.
    apply run_cond_group; [done..|]. intros pr1.
    change (js " ? " ++ ?y) with (32 :: 63 :: 32 :: y). repeat eat. apply Hk.
Qed.

Lemma match_tier pr l lbl t r :
  Forall plain_condition l → Forall (λ c, has_value c = true) l →
  (34 ∉ lbl) → (∀ f, plain (price t f)) →
  match_at tierRe (At pr (cond_part l ++ tier_body String_ lbl t ++ r) []) =
  Some (At (Some 41) r (body_caps 3 t ((2%nat, lbl) :: cond_caps l))).
Proof. intros Hp Hv Hl Ht. apply run_prefix; [done|done|]. intros pr'. by apply run_call. Qed.

(** The text of one tier alone. *)
Lemma match_single lbl t :
  (34 ∉ lbl) → (∀ f, plain (price t f)) →
  match_at singleRe (start_of (tier_body String_ lbl t)) =
  Some (At (Some 41) [] (body_caps 2 t [(1%nat, lbl)])).
Proof.
  intros Hl Ht. unfold match_at, singleRe, start_of. rewrite <- (app_nil_r (tier_body _ _ _)). by apply run_call.
Qed.

(** *** Reading conditions back *)

Definition canon_cond (c : TierConditionInput) : TierConditionInput :=
  mkCond (var c) (op c) (CNum (Number_ (value_text String_ (cvalue c)))).

(** No separator starts at a unit that is neither white space nor an ampersand. *)
Lemma no_and_here pr c t : is_ws c = false → c ≠ 38 → match_at and_re (At pr (c :: t) []) = None.
Proof.
  intros Hw Hc. unfold match_at, and_re. do 1 eat. rewrite run_ws_stop by done. eat. by apply (run_lit_other 38 [38]).
Qed.

Lemma no_and_blank pr c t : is_ws c = false → c ≠ 38 → match_at and_re (At pr (32 :: c :: t) []) = None.
Proof.
  intros Hw Hc. unfold match_at, and_re. do 1 eat. rewrite run_ws_one by done.
  change (run (seqs [lit (js "&&")] ws) ?k ?x) with (run (lit (38 :: [38])) (run ws k) x).
  by rewrite !run_lit_other.
Qed.

(** The positions of a text at which no separator starts. *)
Fixpoint no_and (s t : jsstr) : Prop :=
  match s with
  | [] => True
  | c :: s' => (∀ pr, match_at and_re (At pr (c :: s' ++ t) []) = None) ∧ no_and s' t
  end.

Lemma no_and_app s s' t : no_and s (s' ++ t) → no_and s' t → no_and (s ++ s') t.
Proof.
  induction s as [|c s IH]; simpl; [done|]. intros [H1 H2] H3. split; [|by apply IH]. by rewrite <- app_assoc.
Qed.

Lemma no_and_digits s t : Forall (λ c, is_cond_char c = true) s → no_and s t.
Proof.
  induction 1 as [|c s Hc Hs IH]; simpl; [done|]. split; [|done]. intros pr.
  apply no_and_here; [by apply cond_char_ws|]. by intros ->.
Qed.

Lemma no_and_cond c t : plain_condition c → has_value c = true → no_and (cond_text String_ c) t.
Proof.
  intros Hc Hv. destruct (Hc Hv) as (Hne & Hf & _). unfold cond_text. set (u := value_text String_ (cvalue c)) in *.
  apply no_and_app; [by destruct (var c); repeat split|]. rewrite app_assoc. apply no_and_app.
  { destruct (op c); repeat split. }
  apply (no_and_app (js " ")); [|by apply no_and_digits].
  destruct Hf as [|d u' Hd Hu]; [done|]. split; [|done]. intros pr. apply no_and_blank; [by apply cond_char_ws|].
  by intros ->.
Qed.

Lemma split_skip s : ∀ fuel cur pr t, no_and s t → (length s ≤ fuel)%nat →
  split_re and_re fuel cur pr (s ++ t) = split_re and_re (fuel - length s) (rev s ++ cur) (prev_of pr s) t.
Proof.
  induction s as [|c s IH]; intros fuel cur pr t Hs Hf; cbn [app length rev]; [by rewrite Nat.sub_0_r|].
  destruct fuel as [|f]; [simpl in Hf; lia|]. destruct Hs as [H1 H2]. cbn [split_re]. rewrite H1, IH by (simpl in Hf; done || lia).
  by rewrite <- app_assoc.
Qed.

Lemma split_conditions c l : ∀ fuel pr,
  Forall plain_condition (c :: l) → Forall (λ c, has_value c = true) (c :: l) →
  (length (cond_text String_ c ++ concat (map and_text l)) < fuel)%nat →
  split_re and_re fuel [] pr (cond_text String_ c ++ concat (map and_text l)) = map (cond_text String_) (c :: l).
Proof.
  revert c. induction l as [|d l IH]; intros c fuel pr Hp Hv Hf; apply Forall_cons in Hp as [Hpc Hp], Hv as [Hvc Hv];
    rewrite length_app in Hf; rewrite split_skip by (try apply no_and_cond; done || lia);
    rewrite app_nil_r; cbn [map concat] in *.
  - destruct (fuel - _)%nat; cbn [split_re]; by rewrite rev_involutive.
  - destruct (fuel - _)%nat as [|f] eqn:Ef; [lia|]. unfold and_text at 1 in Hf. rewrite !length_app in Hf. simpl in Hf.
    unfold and_text at 1. rewrite <- app_assoc. change (js " && " ++ ?y) with (32 :: 38 :: 38 :: 32 :: y).
    destruct (cond_text_head d (concat (map and_text l))) as (u & s' & E & Hu & _).
    assert (match_at and_re (At (prev_of pr (cond_text String_ c)) (32 :: 38 :: 38 :: 32 :: cond_text String_ d ++ concat (map and_text l)) [])
      = Some (At (Some 32) (cond_text String_ d ++ concat (map and_text l)) [])) as Hm.
    { unfold match_at, and_re. do 2 eat. eat. change (38 :: 38 :: ?y) with (js "&&" ++ y). rewrite run_lit.
      apply run_ws_blank; [by rewrite E|done]. }
    cbn [split_re]. rewrite Hm, rev_involutive. f_equal. cbn [prev rest]. apply IH; [done|done|]. rewrite !length_app. lia.
Qed.

Lemma trim_cond c : plain_condition c → has_value c = true → trim (cond_text String_ c) = cond_text String_ c.
Proof.
  intros Hc Hv. destruct (Hc Hv) as (Hne & Hf & _). unfold cond_text.
  destruct (exists_last Hne) as (u & d & E). rewrite E in *. apply Forall_app in Hf as [_ [Hd _]%Forall_cons].
  rewrite !app_assoc. destruct (var c); apply trim_bounded; try done; by apply cond_char_ws.
Qed.

Lemma match_condition c :
  plain_condition c → has_value c = true →
  ∃ pr, match_at condition_re (start_of (cond_text String_ c)) =
    Some (At pr [] [(3%nat, value_text String_ (cvalue c)); (2%nat, op_text (op c)); (1%nat, var_text (var c))]).
Proof.
  intros Hc Hv. destruct (Hc Hv) as (Hne & Hf & _). eexists. unfold cond_text, match_at, start_of.
  set (u := value_text String_ (cvalue c)) in *.
  assert (no_start is_ws u) as Hns.
  { destruct Hf as [|d u' Hd Hu]; [done|]. by apply cond_char_ws. }
  unfold condition_re. eat. cbn [run]. apply run_var. intros pr1. rewrite capture_app.
  eat. apply run_ws_blank; [by destruct (op c)|]. eat. cbn [run]. apply run_op; [|done].
  intros pr2. rewrite capture_app. eat. apply run_ws_blank; [done|]. eat.
  rewrite <- (app_nil_r u) at 1. by apply run_group_plus.
Qed.

Lemma parse_condition_text c :
  plain_condition c → has_value c = true → parse_condition Number_ (cond_text String_ c) = Some (canon_cond c).
Proof.
  intros Hc Hv. unfold parse_condition. rewrite trim_cond by done.
  destruct (match_condition c Hc Hv) as [pr ->]. cbn [caps cap List.find fst snd fmap option_fmap option_map Nat.eqb].
  unfold canon_cond. by destruct (var c), (op c).
Qed.

Lemma parse_conditions_text l :
  Forall plain_condition l → Forall (λ c, has_value c = true) l →
  parse_conditions Number_ (join (js " && ") (map (cond_text String_) l)) = map canon_cond l.
Proof.
  intros Hp Hv. destruct l as [|c l]; [done|]. unfold parse_conditions.
  assert (truthy (join (js " && ") (map (cond_text String_) (c :: l))) = true) as ->.
  { rewrite cond_join. destruct (cond_text_head c (concat (map and_text l))) as (u & s & -> & _). done. }
  rewrite cond_join, split_conditions by (done || lia). clear -Hp Hv.
  induction (c :: l) as [|d l' IH]; [done|]. apply Forall_cons in Hp as [Hpc Hp], Hv as [Hvc Hv]. simpl.
  rewrite parse_condition_text by done. f_equal. by apply IH.
Qed.

(** *** Reading tiers back *)

Definition canon_tier (lbl : jsstr) (conds : list TierConditionInput) (t : VisualTier) : VisualTier :=
  mkTier (Some lbl) (Some conds)
    (Some (if num_lt (num_of_Z 0) (price t cache_create_1h_unit_cost) then Timed else Generic)) (all_costs (price t)).

Lemma is_zero_true v : is_zero v = true → v = num_of_Z 0.
Proof. unfold is_zero, num_eqb. destruct v; try done; by intros ?%bool_decide_eq_true. Qed.

Lemma matched_costs n lbl conds t cs f :
  (∀ f, plain (price t f)) → (∀ j, n ≤ j → cap j cs = None)%nat →
  costs (matched_tier Number_ n conds lbl (body_caps n t cs)) !! f =
  match f with
  | input_unit_cost | output_unit_cost => Some (price t f)
  | _ => if is_zero (price t f) then None else Some (price t f)
  end.
Proof.
  intros Hp Hcs. unfold matched_tier. cbn [costs].
  set (cs' := body_caps n t cs). set (read := λ g, if is_zero (price t g) then None else Some (String_ (price t g))).
  assert (cap n cs' = Some (String_ (price t input_unit_cost))) as E1.
  { unfold cs', body_caps. rewrite cap_extras_lt, !cap_cons by lia. cbn [fst snd].
    by rewrite (proj2 (Nat.eqb_neq (S n) n)), Nat.eqb_refl by lia. }
  assert (cap (S n) cs' = Some (String_ (price t output_unit_cost))) as E2.
  { unfold cs', body_caps. rewrite cap_extras_lt, !cap_cons by lia. cbn [fst snd]. by rewrite Nat.eqb_refl. }
  assert (∀ i cv, BILLING_CACHE_VAR_MAP !! i = Some cv → cap (S (S n) + i) cs' = read (fst cv)) as E3.
  { intros i cv Hi. unfold cs', body_caps. apply cap_extras; [done|]. intros j Hj. rewrite !cap_cons. cbn [fst].
    rewrite (proj2 (Nat.eqb_neq (S n) j)), (proj2 (Nat.eqb_neq n j)) by lia. apply Hcs. lia. }
  rewrite E1, E2. clear E1 E2. clearbody cs'.
  change (imap _ BILLING_CACHE_VAR_MAP) with
    [(0%nat, cache_read_unit_cost); (1%nat, cache_create_unit_cost); (2%nat, cache_create_1h_unit_cost);
     (3%nat, image_unit_cost); (4%nat, image_output_unit_cost); (5%nat, audio_input_unit_cost); (6%nat, audio_output_unit_cost)].
  cbn [foldl fst snd]. rewrite !opt_insert_lookup.
  rewrite (E3 0%nat _ eq_refl), (E3 1%nat _ eq_refl), (E3 2%nat _ eq_refl), (E3 3%nat _ eq_refl),
    (E3 4%nat _ eq_refl), (E3 5%nat _ eq_refl), (E3 6%nat _ eq_refl).
  destruct f; repeat (rewrite decide_False by done || rewrite decide_True by done); unfold read.
  all: try (destruct (is_zero _); [done|]; by rewrite (proj2 (proj2 (Hp _)))).
  all: rewrite ?lookup_insert_ne, ?lookup_insert_eq, ?lookup_singleton_eq by done;
    cbn [default from_option]; unfold id; by rewrite (proj2 (proj2 (Hp _))).
Qed.

Lemma matched_canon n lbl conds t cs :
  (∀ f, plain (price t f)) → (∀ j, n ≤ j → cap j cs = None)%nat →
  normalizeVisualTier (matched_tier Number_ n conds lbl (body_caps n t cs)) = canon_tier lbl conds t.
Proof.
  intros Hp Hcs. set (m := matched_tier _ _ _ _ _).
  assert (∀ f, price m f = price t f) as Hprice.
  { intros f. unfold price at 1, m. rewrite matched_costs by done.
    destruct f; try apply or0_idem; destruct (is_zero (price t _)) eqn:E; try apply or0_idem;
      by rewrite (is_zero_true _ E). }
  assert (costs (normalizeVisualTier m) = all_costs (price t)) as Hcosts.
  { apply map_eq. intros f. rewrite normalize_costs, all_costs_lookup, Hprice. unfold m.
    destruct f; rewrite ?matched_costs by done; done. }
  assert (getTierCacheMode m = if num_lt (num_of_Z 0) (price t cache_create_1h_unit_cost) then Timed else Generic) as Hmode.
  { unfold getTierCacheMode. change (cache_mode m) with (@None CacheMode). cbv iota. unfold m. rewrite matched_costs by done.
    destruct (is_zero _) eqn:E; [|done]. by rewrite (is_zero_true _ E). }
  unfold canon_tier. rewrite <- Hcosts, <- Hmode. reflexivity.
Qed.

(** A tier as it is written: its conditions, its label and its prices. *)
Definition segment : Type := list TierConditionInput * jsstr * VisualTier.

Definition seg_text (s : segment) : jsstr :=
  let '(l, lbl, t) := s in cond_part l ++ tier_body String_ lbl t.

Definition seg_ok (s : segment) : Prop :=
  let '(l, lbl, t) := s in
  Forall plain_condition l ∧ Forall (λ c, has_value c = true) l ∧ (34 ∉ lbl) ∧ lbl ≠ [] ∧ ∀ f, plain (price t f).

Definition seg_tier (s : segment) : VisualTier := let '(l, lbl, t) := s in canon_tier lbl (map canon_cond l) t.

Definition seg_caps (s : segment) : list (nat * jsstr) :=
  let '(l, lbl, t) := s in body_caps 3 t ((2%nat, lbl) :: cond_caps l).

(** A pattern that reads a segment up to its closing parenthesis, and starts at no separator. *)
Definition reads (R : re) (C : segment → list (nat * jsstr)) : Prop :=
  (∀ pr s r, seg_ok s → match_at R (At pr (seg_text s ++ r) []) = Some (At (Some 41) r (C s))) ∧
  ∀ pr c t, c = 32 ∨ c = 58 → match_at R (At pr (c :: t) []) = None.

Lemma exec_segments R C r segs : reads R C → ∀ fuel,
  Forall seg_ok segs → (length segs < fuel)%nat → exec_from R (Some 41) r = None →
  exec_all R fuel (Some 41) (concat (map (λ s, js " : " ++ seg_text s) segs) ++ r) = Some (map C segs).
Proof.
  intros [HR Hskip]. induction segs as [|s segs IH]; intros [|f] Hok Hf Hr; try (simpl in Hf; lia); cbn [exec_all map concat app].
  { by rewrite Hr. }
  apply Forall_cons in Hok as [Hs Hok]. rewrite <- !app_assoc.
  change (js " : " ++ ?y) with (32 :: 58 :: 32 :: y). rewrite !exec_from_next by (apply Hskip; tauto).
  rewrite (exec_from_here _ _ _ _ (HR _ s _ Hs)). cbn [prev rest caps].
  rewrite IH; [done|done|simpl in Hf; lia|done].
Qed.

Lemma exec_text R C r s segs :
  reads R C → Forall seg_ok (s :: segs) → exec_from R (Some 41) r = None →
  matchAll R (seg_text s ++ concat (map (λ s, js " : " ++ seg_text s) segs) ++ r) = Some (map C (s :: segs)).
Proof.
  intros HR Hok Hr. unfold matchAll. set (fuel := S _). pose proof Hok as Hok'. apply Forall_cons in Hok as [Hs Hok].
  assert (length segs < pred fuel)%nat as Hf.
  { unfold fuel. destruct s as [[l lbl] t]. cbn [seg_text]. rewrite !length_app. unfold tier_body. rewrite !length_app.
    change (length (js "tier(")) with 5%nat. cbn [pred].
    assert (length segs ≤ length (concat (map (λ s, js " : " ++ seg_text s) segs)))%nat; [|lia].
    clear. induction segs as [|s' segs IH]; [done|]. cbn [map concat length]. rewrite !length_app.
    change (length (js " : ")) with 3%nat. lia. }
  destruct fuel as [|f] eqn:Ef; [done|]. cbn [exec_all map].
  rewrite (exec_from_here _ _ _ _ (proj1 HR _ s _ Hs)). cbn [prev rest caps].
  by rewrite (exec_segments R C).
Qed.

Lemma tierRe_reads : reads tierRe seg_caps.
Proof.
  split.
  - intros pr [[l lbl] t] r (Hp & Hv & Hl & _ & Ht). cbn [seg_text seg_caps]. rewrite <- app_assoc. by apply match_tier.
  - intros pr c t [-> | ->]; reflexivity.
Qed.

Lemma read_segment s :
  seg_ok s →
  normalizeVisualTier (matched_tier Number_ 3 (parse_conditions Number_ (default [] (cap 1 (seg_caps s))))
    (default [] (cap 2 (seg_caps s))) (seg_caps s)) = seg_tier s.
Proof.
  destruct s as [[l lbl] t]. intros (Hp & Hv & Hl & _ & Ht). cbn [seg_caps seg_tier].
  assert (∀ j cs, (j < 3)%nat → cap j (body_caps 3 t cs) = cap j cs) as Hcap.
  { intros j cs Hj. unfold body_caps. rewrite cap_extras_lt, !cap_cons by lia. cbn [fst].
    by rewrite (proj2 (Nat.eqb_neq 4 j)), (proj2 (Nat.eqb_neq 3 j)) by lia. }
  rewrite !Hcap by lia. rewrite matched_canon; [|done|].
  - destruct l as [|c l]; [done|]. cbn [cond_caps cap_cons]. rewrite !cap_cons. cbn [fst snd Nat.eqb default from_option].
    unfold id. by rewrite parse_conditions_text.
  - intros j Hj. rewrite cap_cons. cbn [fst]. rewrite (proj2 (Nat.eqb_neq 2 j)) by lia.
    destruct l; [done|]. cbn [cond_caps]. rewrite cap_cons. cbn [fst]. by rewrite (proj2 (Nat.eqb_neq 1 j)) by lia.
Qed.

Lemma canon_price lbl conds t f : price (canon_tier lbl conds t) f = price t f.
Proof. unfold price at 1, canon_tier. cbn [costs]. rewrite all_costs_lookup. apply or0_idem. Qed.

Lemma canon_normal lbl conds t : normalizeVisualTier (canon_tier lbl conds t) = canon_tier lbl conds t.
Proof.
  assert (costs (normalizeVisualTier (canon_tier lbl conds t)) = all_costs (price t)) as E.
  { apply map_eq. intros f. rewrite normalize_costs, all_costs_lookup, canon_price. unfold canon_tier.
    destruct f; cbn [costs]; rewrite ?all_costs_lookup; done. }
  unfold canon_tier at 2. rewrite <- E. reflexivity.
Qed.

(** *** Whole configurations *)

Definition segments (cfg : VisualConfig) : list segment :=
  match cfg with
  | [t] => [(shown t, str_or (default [] (label t)) (js "default"), t)]
  | _ =>
      imap (λ i t, (if (i <? length cfg - 1)%nat then shown t else [],
                    str_or (default [] (label t)) (tier_name i), t)) cfg
  end.

(** What a lone conditional tier is followed by. *)
Definition tail_text (segs : list segment) : jsstr :=
  match segs with
  | [(_ :: _, _, _)] => js " : p * 0 + c * 0"
  | _ => []
  end.

Lemma cond_part_nil l : truthy (join (js " && ") (map (cond_text String_) l)) = false → l = [].
Proof.
  destruct l as [|c l]; [done|]. rewrite cond_join. destruct (cond_text_head c (concat (map and_text l))) as (u & s & -> & _).
  done.
Qed.

Lemma generate_text cfg :
  cfg ≠ [] →
  generateExprFromVisualConfig String_ (Some cfg) = join (js " : ") (map seg_text (segments cfg)) ++ tail_text (segments cfg).
Proof.
  intros Hne. destruct cfg as [|t [|t' cfg]]; [done| |].
  - cbn [generateExprFromVisualConfig segments map seg_text join].
    change (buildConditionStr String_ (default [] (conditions t))) with (join (js " && ") (map (cond_text String_) (shown t))).
    unfold cond_part, tail_text. destruct (truthy _) eqn:E.
    + destruct (shown t); [done|]. by rewrite <- !app_assoc.
    + apply cond_part_nil in E as ->. by rewrite app_nil_r.
  - assert (tail_text (segments (t :: t' :: cfg)) = []) as -> by (simpl; by destruct (shown t)).
    rewrite app_nil_r. unfold generateExprFromVisualConfig, segments. f_equal.
    change (map seg_text ?x) with (seg_text <$> x). rewrite fmap_imap. apply imap_ext. intros i x _. cbn [compose seg_text].
    change (buildConditionStr String_ (default [] (conditions x))) with (join (js " && ") (map (cond_text String_) (shown x))).
    unfold compose, seg_text, cond_part. destruct (i <? _)%nat; cbn [andb map join truthy app]; [|done].
    destruct (truthy _); [by rewrite <- app_assoc|done].
Qed.

(** The configuration a text stands for: every tier named, its cache mode derived from its prices, missing
    prices 0, and no condition on the last of several tiers. *)
Definition canonical (cfg : VisualConfig) : VisualConfig := map seg_tier (segments cfg).

(** Several tiers: all but the last one have a condition. *)
Definition guarded (cfg : VisualConfig) : Prop :=
  ∀ i t, cfg !! i = Some t → (S i < length cfg)%nat → shown t ≠ [].

Lemma tier_name_ok i : (34 ∉ tier_name i) ∧ tier_name i ≠ [].
Proof.
  split; [|done]. unfold tier_name. rewrite elem_of_app. intros [H | H%show_Z_digit]; [|done|lia].
  revert H. apply (bool_decide_unpack _). by vm_compute.
Qed.

Lemma segments_ok cfg : Forall plain_tier cfg → Forall seg_ok (segments cfg).
Proof.
  intros Hp. assert (∀ t l d, plain_tier t → (34 ∉ d) → d ≠ [] → l = shown t ∨ l = [] →
    seg_ok (l, str_or (default [] (label t)) d, t)) as Hone.
  { intros t l d Ht Hd1 Hd2 Hl. destruct (shown_ok t Ht) as [Hs1 Hs2]. destruct Ht as (Hlbl & _ & Hc).
    split_and!; [by destruct Hl as [-> | ->]|by destruct Hl as [-> | ->]| | |done];
      unfold str_or; destruct (truthy _) eqn:E; try done. by apply truthy_spec. }
  assert (∀ g, Forall seg_ok (imap (λ i t, (if g i : bool then shown t else [], str_or (default [] (label t)) (tier_name i), t)) cfg)) as Hall.
  { intros g. apply Forall_lookup. intros i s. rewrite list_lookup_imap. intros (t & Hi & ->)%fmap_Some.
    destruct (tier_name_ok i). apply Hone; [by eapply Forall_lookup_1|done|done|]. destruct (g i); auto. }
  destruct cfg as [|t [|t' cfg]]; [done| |apply Hall].
  apply Forall_cons in Hp as [Ht _]. apply Forall_singleton, Hone; [done| |done|by left].
  apply (bool_decide_unpack _). by vm_compute.
Qed.

Lemma cond_text_canon l :
  Forall plain_condition l → Forall (λ c, has_value c = true) l →
  map (cond_text String_) (map canon_cond l) = map (cond_text String_) l.
Proof.
  intros Hp Hv. rewrite map_map. induction Hp as [|c l Hc Hp IH]; [done|]. apply Forall_cons in Hv as [Hvc Hv]. simpl.
  rewrite IH by done. f_equal. destruct (Hc Hvc) as (_ & _ & E). unfold cond_text, canon_cond. simpl. by rewrite E.
Qed.

Lemma shown_canon lbl l t : shown (canon_tier lbl (map canon_cond l) t) = map canon_cond l.
Proof. unfold shown. simpl. induction l as [|c l IH]; [done|]. simpl. by rewrite IH. Qed.

Lemma body_canon lbl' lbl conds t : tier_body String_ lbl' (canon_tier lbl conds t) = tier_body String_ lbl' t.
Proof.
  assert (∀ vs, extras_text (canon_tier lbl conds t) vs = extras_text t vs) as E.
  { intros vs. unfold extras_text. f_equal. apply map_ext. intros cv. by rewrite canon_price. }
  unfold tier_body. by rewrite !body_text, !canon_price, E.
Qed.

Lemma seg_text_canon s l' lbl' :
  seg_ok s → l' = map canon_cond (fst (fst s)) → lbl' = snd (fst s) → seg_text (l', lbl', seg_tier s) = seg_text s.
Proof.
  destruct s as [[l lbl] t]. intros (Hp & Hv & _) -> ->. simpl. rewrite body_canon. f_equal.
  unfold cond_part. by rewrite cond_text_canon.
Qed.

(** The segments of several tiers; [b] says which have their conditions written. *)
Definition multi (b : nat → bool) (cfg : VisualConfig) : list segment :=
  imap (λ i t, (if b i then shown t else [], str_or (default [] (label t)) (tier_name i), t)) cfg.

Lemma str_or_named a d : a ≠ [] → str_or a d = a.
Proof. intros H. unfold str_or. by rewrite (proj2 (truthy_spec a)). Qed.

Lemma multi_canon b cfg :
  Forall seg_ok (multi b cfg) → map seg_text (multi b (map seg_tier (multi b cfg))) = map seg_text (multi b cfg).
Proof.
  intros Hok. apply list_eq. intros i. unfold multi at 1.
  change (map ?f ?x) with (f <$> x). rewrite !list_lookup_fmap, list_lookup_imap, list_lookup_fmap.
  destruct (multi b cfg !! i) as [[[l lbl] t]|] eqn:E; [|done]. cbn [fmap option_fmap option_map]. f_equal.
  pose proof (Forall_lookup_1 _ _ _ _ Hok E) as Hs. unfold multi in E. rewrite list_lookup_imap in E.
  apply fmap_Some in E as (t0 & Ht0 & [= -> -> ->]). apply seg_text_canon; [done| |].
  - cbn [seg_tier fst]. destruct (b i); [|done]. apply shown_canon.
  - cbn [seg_tier fst snd label canon_tier default from_option]. apply str_or_named. destruct Hs as (_ & _ & _ & H & _). exact H.
Qed.

Lemma generate_canonical cfg :
  cfg ≠ [] → Forall plain_tier cfg →
  generateExprFromVisualConfig String_ (Some (canonical cfg)) = generateExprFromVisualConfig String_ (Some cfg).
Proof.
  intros Hne Hp. pose proof (segments_ok cfg Hp) as Hok. rewrite !generate_text; [|done|].
  2: { unfold canonical. destruct cfg as [|t [|t' cfg]]; [done|simpl; done|simpl; done]. }
  destruct cfg as [|t [|t' cfg]]; [done| |].
  - unfold canonical. cbn [segments map] in *. apply Forall_cons in Hok as [Hs _]. cbn [seg_tier segments map].
    set (s := (_, _, _)) in *. change (canon_tier _ _ t) with (seg_tier s).
    assert (shown (seg_tier s) = map canon_cond (shown t)) as E by apply shown_canon. rewrite E.
    assert (str_or (default [] (label (seg_tier s))) (js "default") = snd (fst s)) as ->.
    { apply str_or_named. by destruct Hs as (_ & _ & _ & H & _). }
    cbn [join]. rewrite seg_text_canon by done. f_equal. simpl. by destruct (shown t).
  - change (segments (canonical (t :: t' :: cfg))) with
      (multi (λ i, (i <? length (canonical (t :: t' :: cfg)) - 1)%nat) (canonical (t :: t' :: cfg))).
    assert (length (canonical (t :: t' :: cfg)) = length (t :: t' :: cfg)) as ->.
    { unfold canonical. rewrite length_map. cbn [segments]. by rewrite length_imap. }
    change (segments (t :: t' :: cfg)) with (multi (λ i, (i <? length (t :: t' :: cfg) - 1)%nat) (t :: t' :: cfg)) in *.
    unfold canonical. change (segments (t :: t' :: cfg)) with (multi (λ i, (i <? length (t :: t' :: cfg) - 1)%nat) (t :: t' :: cfg)).
    rewrite multi_canon by done. f_equal.
    cbn [multi imap]. by destruct (shown t).
Qed.

(** Reading a text that starts with the conditions of a tier. *)
Lemma read_conditional c l lbl t segs r :
  Forall seg_ok ((c :: l, lbl, t) :: segs) → exec_from tierRe (Some 41) r = None →
  let text := seg_text (c :: l, lbl, t) ++ concat (map (λ s, js " : " ++ seg_text s) segs) ++ r in
  let cfg := map seg_tier ((c :: l, lbl, t) :: segs) in
  tryParseVisualConfig Number_ String_ (Some text) =
    if streq (without_ws (generateExprFromVisualConfig String_ (Some cfg))) (without_ws text) then Some cfg else None.
Proof.
  intros Hok Hr text cfg. unfold tryParseVisualConfig. cbn [default from_option]. unfold id.
  assert (∃ u w, text = u :: w ∧ u ≠ 118 ∧ u ≠ 116) as (u & w & E & Hv & Ht).
  { unfold text. cbn [seg_text]. rewrite cond_part_cons, cond_join, <- !app_assoc. unfold cond_text.
    destruct (var c); eexists _, _; (split; [reflexivity|done]). }
  assert (truthy text = true) as -> by (by rewrite E). cbn [negb].
  assert (strip_version text = text) as ->.
  { unfold strip_version. enough (match_at version_re (start_of text) = None) as -> by done.
    unfold match_at, version_re. rewrite E. eat. by apply (run_lit_other 118 []). }
  assert (match_at singleRe (start_of text) = None) as ->.
  { unfold match_at, singleRe, tier_head. rewrite E. eat. by apply (run_lit_other 116 (js "ier(")). }
  assert (read_tiers Number_ text = cfg) as ->.
  { unfold read_tiers, text. rewrite (exec_text tierRe seg_caps) by (done || apply tierRe_reads). cbn [default from_option]. unfold id. rewrite map_map.
    apply map_ext_in. intros s' Hs'%list_elem_of_In. apply read_segment. rewrite Forall_forall in Hok. by apply Hok. }
  assert (normalizeVisualConfig (Some cfg) = cfg) as Hn.
  { unfold cfg. cbn [map normalizeVisualConfig]. f_equal; [apply canon_normal|].
    rewrite map_map. apply map_ext. intros [[l' lbl'] t']. apply canon_normal. }
  assert (cfg ≠ []) as Hne by done. clearbody cfg. destruct cfg as [|t0 cfg]; [done|]. cbv zeta. by rewrite Hn.
Qed.

Lemma read_alone lbl t :
  (34 ∉ lbl) → (∀ f, plain (price t f)) →
  tryParseVisualConfig Number_ String_ (Some (tier_body String_ lbl t)) = Some [canon_tier lbl [] t].
Proof.
  intros Hl Hp. unfold tryParseVisualConfig. cbn [default from_option]. unfold id.
  assert (truthy (tier_body String_ lbl t) = true) as -> by done. cbn [negb].
  assert (strip_version (tier_body String_ lbl t) = tier_body String_ lbl t) as -> by done.
  rewrite match_single by done. cbn [caps normalizeVisualConfig map]. rewrite normalize_idem, matched_canon; [|done|].
  - do 3 f_equal. unfold body_caps. rewrite cap_extras_lt, !cap_cons by lia. done.
  - intros j Hj. rewrite cap_cons. cbn [fst]. by rewrite (proj2 (Nat.eqb_neq 1 j)) by lia.
Qed.
End texts.

#[export] Hint Resolve plain_no_ws : starts.

(** ** Properties *)

Lemma editor_reads_back (Number_ : jsstr → jsnum) (String_ : jsnum → jsstr) (cfg : VisualConfig) :
  cfg ≠ [] → Forall (plain_tier Number_ String_) cfg → guarded cfg →
  let text := generateExprFromVisualConfig String_ (Some cfg) in
  tryParseVisualConfig Number_ String_ (Some text) = Some (canonical Number_ String_ cfg) ∧
  generateExprFromVisualConfig String_ (Some (canonical Number_ String_ cfg)) = text.
Proof.
  intros Hne Hp Hg text. split; [|by apply generate_canonical]. unfold text.
  pose proof (segments_ok Number_ String_ cfg Hp) as Hok. pose proof (generate_canonical Number_ String_ cfg Hne Hp) as Hgen.
  unfold canonical in *. pose proof (generate_text String_ cfg Hne) as Ht. rewrite Ht in Hgen |- *. clear Ht.
  assert (cfg = [] ∨ (∃ t, cfg = [t] ∧ shown t = []) ∨ ∃ c l lbl t segs, segments cfg = (c :: l, lbl, t) :: segs) as Hcase.
  { destruct cfg as [|t [|t' cfg]]; [by left|..]; right.
    - destruct (shown t) as [|c l] eqn:E; [left; eauto|]. right. cbn [segments]. rewrite E. by eexists _, _, _, _, _.
    - right. cbn [segments]. destruct (shown t) as [|c l] eqn:E; [by destruct (Hg 0%nat t); simpl; try done; lia|].
      cbn [imap]. rewrite E. simpl. by eexists _, _, _, _, _. }
  destruct Hcase as [-> | [(t & -> & Es) | (c & l & lbl & t & segs & E)]]; [done| |].
  - cbn [segments map join tail_text] in *. rewrite Es in *. rewrite app_nil_r in *.
    apply Forall_cons in Hok as [(_ & _ & Hl & _ & Hpr) _]. by apply read_alone.
  - rewrite E in *. cbn [map] in *. rewrite join_cons in *. rewrite map_map in *. rewrite <- app_assoc in *.
    rewrite (read_conditional Number_ String_ c l lbl t segs); [|done|by destruct segs].
    cbn [map]. rewrite Hgen. by rewrite streq_refl.
Qed.

(** The editor reads back what it wrote: a configuration with printable prices, quote-free labels and a
    condition on every tier but the last is written as an expression that parses to the same tiers, each named,
    with its written conditions and all its prices; and that configuration is written as the same text. *)
Theorem visual_config_roundtrip (Number_ : jsstr → jsnum) (String_ : jsnum → jsstr) (cfg : VisualConfig) :
  cfg ≠ [] → Forall (plain_tier Number_ String_) cfg → guarded cfg →
  let text := generateExprFromVisualConfig String_ (Some cfg) in
  tryParseVisualConfig Number_ String_ (Some text) = Some (canonical Number_ String_ cfg) ∧
  generateExprFromVisualConfig String_ (Some (canonical Number_ String_ cfg)) = text.
Proof. apply editor_reads_back. Qed.

(** A lone tier is accepted without comparing its text with what it would be written as, so a price that is no
    number is taken for 0. *)
Lemma malformed_price_zeroed (Number_ : jsstr → jsnum) (String_ : jsnum → jsstr) :
  Number_ (js "1.2.3") = NaN → Number_ (js "2") = num_of_Z 2 →
  String_ (num_of_Z 0) = js "0" → String_ (num_of_Z 2) = js "2" →
  let call body := js "tier(" ++ [34] ++ js "a" ++ [34] ++ js ", " ++ body ++ js ")" in
  ∃ cfg, tryParseVisualConfig Number_ String_ (Some (call (js "p * 1.2.3 + c * 2"))) = Some cfg ∧
    generateExprFromVisualConfig String_ (Some cfg) = call (js "p * 0 + c * 2").
Proof.
  intros H1 H2 H3 H4 call. unfold tryParseVisualConfig.
  assert (match_at singleRe (start_of (call (js "p * 1.2.3 + c * 2"))) =
    Some (At (Some 41) [] [(3%nat, js "2"); (2%nat, js "1.2.3"); (1%nat, js "a")])) as E by (by vm_compute).
  cbn [default from_option]. unfold id. change (strip_version ?x) with x. rewrite E. eexists. split; [reflexivity|].
  cbn [caps normalizeVisualConfig map]. rewrite normalize_idem. set (t := normalizeVisualTier _).
  assert (∀ f, costs t !! f = Some (match f with input_unit_cost => NaN | output_unit_cost => num_of_Z 2 | _ => num_of_Z 0 end)) as Hc.
  { intros f. unfold t. rewrite normalize_costs. unfold price, matched_tier.
    cbn [costs cap List.find fst snd Nat.eqb fmap option_fmap option_map default from_option imap foldl Nat.add].
    unfold id. rewrite H1, H2. by destruct f. }
  assert (∀ f, price t f = match f with output_unit_cost => num_of_Z 2 | _ => num_of_Z 0 end) as Hp.
  { intros f. unfold price. rewrite Hc. by destruct f. }
  cbn [generateExprFromVisualConfig]. change (conditions t) with (Some (@nil TierConditionInput)).
  change (label t) with (Some (js "a")). cbn [default from_option buildConditionStr List.filter map join truthy].
  unfold tier_body, call. rewrite body_text, !Hp, H3, H4.
  assert (extras_text String_ t BILLING_CACHE_VAR_MAP = []) as ->; [|done].
  unfold extras_text.
  assert (∀ vs, Forall (λ cv, fst cv ≠ output_unit_cost) vs → concat (map (λ cv, if is_zero (price t (fst cv)) then []
    else js " + " ++ snd cv ++ js " * " ++ String_ (price t (fst cv))) vs) = []) as Hx.
  { induction 1 as [|cv vs Hcv _ IH]; [done|]. cbn [map concat]. rewrite IH, Hp. by destruct (fst cv). }
  apply Hx. apply (bool_decide_unpack _). by vm_compute.
Qed.

(** *** A concrete reading and printing of numbers *)

Definition sample_String (n : jsnum) : jsstr :=
  match as_integer n with Some z => show_N (Z.to_N z) | None => js "NaN" end.

Definition sample_Number (s : jsstr) : jsnum := if is_digits s then num_of_Z (Z.of_N (parse_digits s)) else NaN.

Lemma sample_reads n : sample_Number (show_N n) = num_of_Z (Z.of_N n).
Proof. unfold sample_Number. by rewrite is_digits_show_N, parse_show_N. Qed.

Lemma sample_prints n : sample_String (num_of_Z (Z.of_N n)) = show_N n.
Proof. unfold sample_String. by rewrite as_integer_Z, N2Z.id. Qed.

Lemma sample_plain n : plain sample_Number sample_String (num_of_Z (Z.of_N n)).
Proof.
  unfold plain. rewrite sample_prints. split_and!; [apply show_N_nonempty| |apply sample_reads].
  eapply Forall_impl; [apply show_N_digits|]. intros c Hc. unfold Billing.is_num_char. by rewrite Hc.
Qed.

Lemma or0_integer n : or0 (Some (num_of_Z (Z.of_N n))) = num_of_Z (Z.of_N n).
Proof.
  unfold or0. destruct (value_truthy _) eqn:E; [done|]. cbn [value_truthy] in E.
  apply andb_false_iff in E as [E | E%negb_false_iff]; [done|]. symmetry. by apply bool_decide_eq_true in E.
Qed.

Lemma sample_condition v o n : plain_condition sample_Number sample_String (mkCond v o (CNum (num_of_Z (Z.of_N n)))).
Proof.
  intros _. cbn [cvalue value_text]. rewrite sample_prints, sample_reads, sample_prints.
  split_and!; [apply show_N_nonempty| |done].
  eapply Forall_impl; [apply show_N_digits|]. intros c Hc. unfold is_cond_char. by rewrite Hc.
Qed.

Definition sample_costs (f : TierField) : N :=
  match f with input_unit_cost => 3 | output_unit_cost => 15 | cache_create_1h_unit_cost => 6 | _ => 0 end.

(** A long-context price in two tiers, the second one without a name. *)
Definition sample_config : VisualConfig :=
  [mkTier (Some (js "standard")) (Some [mkCond VarLen OpLe (CNum (num_of_Z (Z.of_N 200000)))]) None
     (all_costs (λ f, num_of_Z (Z.of_N (sample_costs f))));
   mkTier None None (Some Generic) (all_costs (λ f, num_of_Z (Z.of_N (2 * sample_costs f))))].

Lemma sample_config_ok : Forall (plain_tier sample_Number sample_String) sample_config.
Proof.
  repeat apply Forall_cons_2; try apply Forall_nil_2; (split; [|split]).
  - apply (bool_decide_unpack _). by vm_compute.
  - apply Forall_singleton, sample_condition.
  - intros f. unfold price. cbn [costs]. rewrite all_costs_lookup, or0_integer. apply sample_plain.
  - apply not_elem_of_nil.
  - constructor.
  - intros f. unfold price. cbn [costs]. rewrite all_costs_lookup, or0_integer. apply sample_plain.
Qed.

Lemma visual_config_roundtrip_witness :
  let text := generateExprFromVisualConfig sample_String (Some sample_config) in
  tryParseVisualConfig sample_Number sample_String (Some text) = Some (canonical sample_Number sample_String sample_config) ∧
  generateExprFromVisualConfig sample_String (Some (canonical sample_Number sample_String sample_config)) = text.
Proof.
  apply (visual_config_roundtrip sample_Number sample_String sample_config).
  - discriminate.
  - apply sample_config_ok.
  - intros [|[|i]] t Ht Hi; [by injection Ht as <-|simpl in Hi; lia|done].
Defined.

End Tiers.
