(* ===== verification/TierView.v ===== *)
(** * Tiered prices on the pricing page
      (parseTiersFromExpr of web/src/features/pricing/lib/billing-expr.ts and
      web/src/features/pricing/lib/dynamic-price.ts)

    The pricing page reads the tiers of an expression with a pattern of its own, more tolerant
    than the editor's. The theorem shows that on what the editor writes the two agree: the page
    shows the tiers, conditions and prices that were entered. *)
From S2P Require Import Prelude JsString JsMap JsValue Regex BillingExpr TierExpr.
Local Open Scope N_scope.
Local Open Scope js_scope.
Import Tiers.

Module TierView.

(** ** Patterns *)

Definition key_re : re :=
  match map key BILLING_PRICING_VARS with
  | [] => Empty
  | k :: ks => alts (removelast (map lit (k :: ks))) (lit (List.last ks k))
  end.

Definition BILLING_VAR_REGEX : re :=
  seqs [WordB; Group 1 key_re; ws; lit (js "*"); ws] (num_group 2).

Definition not_close (c : N) : bool := negb (c =? 41).

Definition tierRe : re :=
  Seq cond_prefix (seqs (tier_head 2) (Seq (Group 3 (plus not_close)) (lit (js ")")))).

(** ** Reading *)

(** The price fields in the order of the variables. *)
Record ParsedTier := mkParsed {
  p_label : jsstr; p_conditions : list TierConditionInput; prices : list (jsstr * jsnum) }.

Section numbers.
Context (Number_ : jsstr → jsnum).

(** The first coefficient of each variable. *)
Definition coefficients (bodyStr : jsstr) : list (jsstr * jsnum) :=
  foldl (λ coeffs m,
    let v := default [] (cap 1 m) in
    if bool_decide (v ∈ jm_keys coeffs) then coeffs
    else jm_set v (Number_ (default [] (cap 2 m))) coeffs)
    [] (default [] (matchAll BILLING_VAR_REGEX bodyStr)).

Definition parseTierBody (bodyStr : jsstr) : list (jsstr * jsnum) :=
  map (λ vf, (snd vf, or0 (jm_get (fst vf) (coefficients bodyStr)))) BILLING_VAR_KEY_TO_FIELD.

Definition parseTiersFromExpr (exprStr : jsstr) : list ParsedTier :=
  if negb (truthy exprStr) then []
  else
    map (λ m, mkParsed (default [] (cap 2 m)) (parse_conditions Number_ (default [] (cap 1 m)))
                (parseTierBody (default [] (cap 3 m))))
      (default [] (matchAll tierRe (strip_version exprStr))).
End numbers.

(** Both loops end. *)
Lemma view_loops_end body :
  (∃ l, matchAll tierRe body = Some l) ∧ ∃ l, matchAll BILLING_VAR_REGEX body = Some l.
Proof. split; apply exec_all_total; (done || lia). Qed.

(** ** Matching the summands of a body *)

Section texts.
Context (Number_ : jsstr → jsnum) (String_ : jsnum → jsstr).

Definition summand (e : jsstr * jsnum) : jsstr := fst e ++ js " * " ++ String_ (snd e).

Definition summands (t : VisualTier) : list (jsstr * jsnum) :=
  (js "p", price t input_unit_cost) :: (js "c", price t output_unit_cost) ::
  omap (λ cv, if is_zero (price t (fst cv)) then None else Some (snd cv, price t (fst cv))) BILLING_CACHE_VAR_MAP.

Lemma body_summands t : buildTierBodyExpr String_ t = join (js " + ") (map summand (summands t)).
Proof.
  unfold buildTierBodyExpr, summands. cbn [map]. do 3 f_equal. induction BILLING_CACHE_VAR_MAP as [|cv vs IH]; [done|].
  cbn [omap list_omap]. change (num_eqb (or0 (costs t !! fst cv)) (num_of_Z 0)) with (is_zero (price t (fst cv))).
  destruct (is_zero _); [exact IH|]. cbn [map]. by rewrite IH.
Qed.

Definition keys : list jsstr := map key BILLING_PRICING_VARS.

Lemma match_summand pr w v t :
  w ∈ keys → word_at pr = false → plain Number_ String_ v → no_start Billing.is_num_char t →
  ∃ pr', match_at BILLING_VAR_REGEX (At pr (summand (w, v) ++ t) []) = Some (At pr' t [(2%nat, String_ v); (1%nat, w)]).
Proof.
  intros Hw Hpr Hp Ht. exists (prev_of (Some 32) (String_ v)). pose proof Hp as (Hne & Hf & _). unfold match_at, BILLING_VAR_REGEX, summand. cbn [fst snd].
  rewrite <- !app_assoc. change (js " * " ++ ?y) with (32 :: 42 :: 32 :: y).
  assert (∀ pr cs, run (seqs [ws; lit (js "*"); ws] (num_group 2)) Some (At pr (32 :: 42 :: 32 :: String_ v ++ t) cs) =
    Some (At (prev_of (Some 32) (String_ v)) t ((2%nat, String_ v) :: cs))) as Hrest.
  { intros pr1 cs. repeat eat. done. }
  set (r := 32 :: 42 :: 32 :: String_ v ++ t) in *.
  assert (word_at (head (w ++ r)) = true) as Hc.
  { repeat (apply elem_of_cons in Hw as [-> | Hw]; [done|]). by apply not_elem_of_nil in Hw. }
  eat. rewrite run_wordb by (simpl; by rewrite Hpr, Hc). eat.
  change (run key_re (λ y, run (seqs [ws; lit (js "*"); ws] (num_group 2)) Some (capture 1 (At pr (w ++ r) []) y))
    (At pr (w ++ r) []) = Some (At (prev_of (Some 32) (String_ v)) t [(2%nat, String_ v); (1%nat, w)])).
  set (k := λ y, _). assert (∀ pr', k (At pr' r []) =
    Some (At (prev_of (Some 32) (String_ v)) t [(2%nat, String_ v); (1%nat, w)])) as Hk.
  { intros pr'. unfold k. rewrite capture_app. apply Hrest. }
  change key_re with (alts [lit (js "p"); lit (js "c"); lit (js "cr"); lit (js "cc"); lit (js "cc1h"); lit (js "img");
    lit (js "img_o"); lit (js "ai")] (lit (js "ao"))). unfold alts.
  repeat (apply elem_of_cons in Hw as [Hw | Hw];
    [subst w; repeat (rewrite run_alt_r by reflexivity);
     (apply run_alt_l, Hk || apply Hk)|]).
  by apply not_elem_of_nil in Hw.
Qed.

(** No variable starts at a unit that is not a letter. *)
Lemma no_summand pr c t :
  c = 32 ∨ c = 43 → match_at BILLING_VAR_REGEX (At pr (c :: t) []) = None.
Proof.
  intros Hc. unfold match_at, BILLING_VAR_REGEX. eat. cbn [run]. destruct (xorb _ _); [|done]. by destruct Hc as [-> | ->].
Qed.

Definition summand_ok (e : jsstr * jsnum) : Prop := fst e ∈ keys ∧ plain Number_ String_ (snd e).

Definition summand_caps (e : jsstr * jsnum) : list (nat * jsstr) := [(2%nat, String_ (snd e)); (1%nat, fst e)].

Lemma exec_summands l : ∀ fuel pr,
  Forall summand_ok l → (length l < fuel)%nat →
  exec_all BILLING_VAR_REGEX fuel pr (concat (map (λ e, js " + " ++ summand e) l)) = Some (map summand_caps l).
Proof.
  induction l as [|[w v] l IH]; intros [|f] pr Hok Hf; try (simpl in Hf; lia); cbn [exec_all map concat].
  { assert (exec_from BILLING_VAR_REGEX pr [] = None) as ->; [|done]. cbn [exec_from].
    enough (match_at BILLING_VAR_REGEX (At pr [] []) = None) as -> by done.
    unfold match_at, BILLING_VAR_REGEX. eat. cbn [run]. by destruct (xorb _ _). }
  apply Forall_cons in Hok as [[Hw Hv] Hok]. rewrite <- !app_assoc.
  change (js " + " ++ ?y) with (32 :: 43 :: 32 :: y). rewrite !exec_from_next by (apply no_summand; tauto).
  destruct (match_summand (Some 32) w v (concat (map (λ e, js " + " ++ summand e) l))) as [pr' Hm]; [done..| |].
  { by destruct l. }
  rewrite (exec_from_here _ _ _ _ Hm). cbn [prev rest caps].
  rewrite IH; [done|done|simpl in Hf; lia].
Qed.

Lemma match_summands e l :
  Forall summand_ok (e :: l) →
  matchAll BILLING_VAR_REGEX (join (js " + ") (map summand (e :: l))) = Some (map summand_caps (e :: l)).
Proof.
  intros Hok. cbn [map]. rewrite join_cons, map_map. destruct e as [w v]. unfold matchAll. set (fuel := length _).
  assert (length l < fuel)%nat as Hf.
  { unfold fuel, summand. rewrite !length_app. change (length (js " * ")) with 3%nat.
    assert (length l ≤ length (concat (map (λ x, js " + " ++ (fst x ++ js " * " ++ String_ (snd x))) l)))%nat; [|lia].
    clear. induction l as [|x l IH]; [done|]. cbn [map concat length]. rewrite !length_app.
    change (length (js " + ")) with 3%nat. lia. }
  apply Forall_cons in Hok as [[Hw Hv] Hok]. cbn [exec_all].
  destruct (match_summand None w v (concat (map (λ x, js " + " ++ summand x) l))) as [pr' Hm]; [done..|by destruct l|].
  rewrite (exec_from_here _ _ _ _ Hm). cbn [prev rest caps]. by rewrite exec_summands.
Qed.

(** The coefficients are the summands when no variable occurs twice. *)
Lemma coefficients_fold l : ∀ acc,
  Forall summand_ok l → NoDup (jm_keys (acc ++ l)) →
  foldl (λ coeffs m, let v := default [] (cap 1 m) in
    if bool_decide (v ∈ jm_keys coeffs) then coeffs else jm_set v (Number_ (default [] (cap 2 m))) coeffs)
    acc (map summand_caps l) = acc ++ l.
Proof.
  induction l as [|[w v] l IH]; intros acc Hok Hnd; cbn [map foldl]; [by rewrite app_nil_r|].
  apply Forall_cons in Hok as [[_ (_ & _ & Hv)] Hok].
  change (cap 1 (summand_caps (w, v))) with (Some w). change (cap 2 (summand_caps (w, v))) with (Some (String_ v)).
  cbn [default from_option]. unfold id. cbn [snd] in Hv. rewrite Hv.
  assert (w ∉ jm_keys acc) as Hw.
  { unfold jm_keys in *. rewrite map_app in Hnd. apply NoDup_app in Hnd as (_ & Hd & _). intros Hin. by apply (Hd w Hin); left. }
  rewrite bool_decide_false by done.
  assert (jm_set w v acc = acc ++ [(w, v)]) as ->.
  { clear -Hw. induction acc as [|[k x] acc IH]; [done|]. simpl in *. apply not_elem_of_cons in Hw as [Hk Hw].
    rewrite decide_False by done. by rewrite IH. }
  rewrite IH; [by rewrite <- app_assoc|done|by rewrite <- app_assoc].
Qed.

Definition extra_summands (t : VisualTier) (vs : list (TierField * jsstr)) : list (jsstr * jsnum) :=
  omap (λ cv, if is_zero (price t (fst cv)) then None else Some (snd cv, price t (fst cv))) vs.

Lemma extra_keys t vs : jm_keys (extra_summands t vs) `sublist_of` map snd vs.
Proof.
  induction vs as [|cv vs IH]; [done|]. unfold extra_summands. cbn [omap list_omap map].
  destruct (is_zero _); [by apply sublist_cons|by apply sublist_skip].
Qed.

Lemma extra_get t vs f w :
  NoDup (map snd vs) → (f, w) ∈ vs →
  jm_get w (extra_summands t vs) = if is_zero (price t f) then None else Some (price t f).
Proof.
  induction vs as [|[g u] vs IH]; intros Hnd Hin; [by apply not_elem_of_nil in Hin|].
  cbn [map] in Hnd. apply NoDup_cons in Hnd as [Hu Hnd]. cbn [snd] in Hu.
  unfold extra_summands. cbn [omap list_omap fst snd]. apply elem_of_cons in Hin as [[= -> ->] | Hin].
  - destruct (is_zero _) eqn:E; [|cbn [jm_get]; by rewrite decide_True].
    apply jm_get_None. intros Hk. apply Hu. by eapply elem_of_sublist, extra_keys.
  - assert (u ≠ w) by (intros ->; apply Hu; change w with (snd (f, w)); by apply list_elem_of_fmap_2).
    destruct (is_zero (price t g)); [by apply IH|]. cbn [jm_get]. rewrite decide_False by done. by apply IH.
Qed.

Lemma names_NoDup : NoDup (js "p" :: js "c" :: map snd BILLING_CACHE_VAR_MAP).
Proof. apply (bool_decide_unpack _). by vm_compute. Qed.

Lemma summands_ok t :
  (∀ f, plain Number_ String_ (price t f)) → Forall summand_ok (summands t) ∧ NoDup (jm_keys (summands t)).
Proof.
  intros Hp. split.
  - unfold summands. repeat (apply Forall_cons_2; [split; [apply (bool_decide_unpack _); by vm_compute|apply Hp]|]).
    apply Forall_forall. intros [w v] Hin. apply list_elem_of_omap in Hin as ([f u] & Hf & E). cbn [fst snd] in E.
    destruct (is_zero _); [done|]. injection E as <- <-. split; [|apply Hp].
    assert (Forall (λ cv, snd cv ∈ keys) BILLING_CACHE_VAR_MAP) as Hall by (apply (bool_decide_unpack _); by vm_compute).
    by apply (proj1 (Forall_forall _ _) Hall _ Hf).
  - eapply sublist_NoDup; [apply names_NoDup|]. unfold summands. cbn [jm_keys map fst].
    do 2 apply sublist_skip. apply extra_keys.
Qed.

(** The prices of a tier in the order of the page. *)
Definition shown_prices (t : VisualTier) : list (jsstr * jsnum) :=
  omap (λ v, f ← field v; (λ tf, (f, price t tf)) <$> tierField v) BILLING_PRICING_VARS.

Lemma parse_body t :
  (∀ f, plain Number_ String_ (price t f)) →
  parseTierBody Number_ (buildTierBodyExpr String_ t) = shown_prices t.
Proof.
  intros Hp. destruct (summands_ok t Hp) as [Hok Hnd].
  assert (coefficients Number_ (buildTierBodyExpr String_ t) = summands t) as E.
  { unfold coefficients. rewrite body_summands. unfold summands in *. rewrite match_summands by done.
    by apply (coefficients_fold _ []). }
  unfold parseTierBody. rewrite E. clear E.
  assert (∀ f w, (f, w) ∈ BILLING_CACHE_VAR_MAP → or0 (jm_get w (summands t)) = price t f) as Hx.
  { intros f w Hin. pose proof names_NoDup as Hn. apply NoDup_cons in Hn as [H1 [H2 Hn]%NoDup_cons].
    assert (w ∈ map snd BILLING_CACHE_VAR_MAP) as Hw by (change w with (snd (f, w)); by apply list_elem_of_fmap_2).
    unfold summands. cbn [jm_get]. rewrite !decide_False; [|intros <-; by apply H2|intros <-; apply H1; by right].
    change (omap _ BILLING_CACHE_VAR_MAP) with (extra_summands t BILLING_CACHE_VAR_MAP). rewrite (extra_get t _ f w) by done.
    destruct (is_zero _) eqn:Ez; [by rewrite (is_zero_true _ Ez)|apply or0_idem]. }
  change (shown_prices t) with
    [(js "inputPrice", price t input_unit_cost); (js "outputPrice", price t output_unit_cost);
     (js "cacheReadPrice", price t cache_read_unit_cost); (js "cacheCreatePrice", price t cache_create_unit_cost);
     (js "cacheCreate1hPrice", price t cache_create_1h_unit_cost); (js "imagePrice", price t image_unit_cost);
     (js "imageOutputPrice", price t image_output_unit_cost); (js "audioInputPrice", price t audio_input_unit_cost);
     (js "audioOutputPrice", price t audio_output_unit_cost)].
  change BILLING_VAR_KEY_TO_FIELD with
    [(js "p", js "inputPrice"); (js "c", js "outputPrice"); (js "cr", js "cacheReadPrice"); (js "cc", js "cacheCreatePrice");
     (js "cc1h", js "cacheCreate1hPrice"); (js "img", js "imagePrice"); (js "img_o", js "imageOutputPrice");
     (js "ai", js "audioInputPrice"); (js "ao", js "audioOutputPrice")].
  cbn [map fst snd].
  change (jm_get (js "p") (summands t)) with (Some (price t input_unit_cost)).
  change (jm_get (js "c") (summands t)) with (Some (price t output_unit_cost)).
  unfold price at 1 2. rewrite !or0_idem. repeat f_equal; apply Hx; apply (bool_decide_unpack _); by vm_compute.
Qed.

(** ** Matching tiers *)

Lemma num_char_close c : Billing.is_num_char c = true → not_close c = true.
Proof. intros H. unfold not_close. apply negb_true_iff, N.eqb_neq. by intros ->. Qed.

Lemma body_closes t :
  (∀ f, plain Number_ String_ (price t f)) →
  buildTierBodyExpr String_ t ≠ [] ∧ Forall (λ c, not_close c = true) (buildTierBodyExpr String_ t).
Proof.
  intros Hp. destruct (summands_ok t Hp) as [Hok _]. rewrite body_summands. split; [done|].
  assert (∀ e, summand_ok e → Forall (λ c, not_close c = true) (summand e)) as Hone.
  { intros [w v] [Hw (_ & Hv & _)]. unfold summand. rewrite !Forall_app. split_and!.
    - assert (Forall (λ k, Forall (λ c, not_close c = true) k) keys) as Hk by (apply (bool_decide_unpack _); by vm_compute).
      by apply (proj1 (Forall_forall _ _) Hk).
    - by apply (bool_decide_unpack _).
    - eapply Forall_impl; [exact Hv|]. apply num_char_close. }
  destruct (summands t) as [|e l]; [constructor|]. apply Forall_cons in Hok as [He Hok]. cbn [map]. rewrite join_cons.
  apply Forall_app. split; [by apply Hone|]. induction Hok as [|e' l He' Hl IH]; [constructor|]. cbn [map concat].
  rewrite !Forall_app. split_and!; [by apply (bool_decide_unpack _)|by apply Hone|done].
Qed.

Definition view_caps (s : segment) : list (nat * jsstr) :=
  let '(l, lbl, t) := s in (3%nat, buildTierBodyExpr String_ t) :: (2%nat, lbl) :: cond_caps String_ l.

Lemma view_reads : reads Number_ String_ tierRe view_caps.
Proof.
  split; [|intros pr c t [-> | ->]; reflexivity].
  intros pr [[l lbl] t] r (Hp & Hv & Hl & _ & Ht). destruct (body_closes t Ht) as [Hne Hf].
  unfold match_at, tierRe. cbn [seg_text view_caps]. rewrite <- app_assoc. apply (run_prefix Number_); [done|done|].
  intros pr'. lazymatch goal with |- run _ _ (At _ ?y _) = _ => change y with (tier_body String_ lbl t ++ r) end.
  unfold tier_body. rewrite <- !app_assoc. apply run_head; [done|by rewrite body_text|]. eat.
  by apply run_group_plus.
Qed.

(** What the page shows of a tier. *)
Definition shown_tier (t : VisualTier) : ParsedTier :=
  mkParsed (default [] (label t)) (default [] (conditions t)) (shown_prices t).

Lemma shown_prices_ext t t' : (∀ f, price t f = price t' f) → shown_prices t = shown_prices t'.
Proof.
  intros H. unfold shown_prices. induction BILLING_PRICING_VARS as [|v vs IH]; [done|]. cbn [omap list_omap].
  destruct (field v) as [f|], (tierField v) as [tf|]; cbn; rewrite ?IH; try done. by rewrite H.
Qed.

Lemma shown_segment s :
  seg_ok Number_ String_ s →
  mkParsed (default [] (cap 2 (view_caps s))) (parse_conditions Number_ (default [] (cap 1 (view_caps s))))
    (parseTierBody Number_ (default [] (cap 3 (view_caps s)))) = shown_tier (seg_tier Number_ String_ s).
Proof.
  destruct s as [[l lbl] t]. intros (Hp & Hv & _ & _ & Ht). unfold shown_tier. cbn [seg_tier canon_tier label conditions].
  change (cap 2 (view_caps (l, lbl, t))) with (Some lbl).
  change (cap 3 (view_caps (l, lbl, t))) with (Some (buildTierBodyExpr String_ t)).
  cbn [default from_option]. unfold id. rewrite parse_body by done. f_equal.
  - destruct l as [|c l]; [done|]. change (cap 1 _) with (Some (join (js " && ") (map (cond_text String_) (c :: l)))).
    cbn [default from_option]. unfold id. by apply parse_conditions_text.
  - apply shown_prices_ext. intros f. by rewrite canon_price.
Qed.
End texts.

(** ** Properties *)

Lemma page_reads (Number_ : jsstr → jsnum) (String_ : jsnum → jsstr) (cfg : VisualConfig) :
  cfg ≠ [] → Forall (plain_tier Number_ String_) cfg →
  parseTiersFromExpr Number_ (generateExprFromVisualConfig String_ (Some cfg)) =
  map shown_tier (canonical Number_ String_ cfg).
Proof.
  intros Hne Hp. pose proof (segments_ok Number_ String_ cfg Hp) as Hok. rewrite generate_text by done.
  unfold canonical. destruct (segments cfg) as [|s segs] eqn:E.
  { by destruct cfg as [|t [|t' cfg]]. }
  cbn [map]. rewrite join_cons, map_map, <- app_assoc. unfold parseTiersFromExpr.
  set (text := seg_text String_ s ++ _). assert (truthy text = true ∧ strip_version text = text) as [-> ->].
  { unfold text. destruct s as [[[|c l] lbl] t]; [done|]. cbn [seg_text]. rewrite cond_part_cons, cond_join, <- !app_assoc.
    unfold cond_text. by destruct (var c). }
  cbn [negb]. unfold text.
  rewrite (exec_text Number_ String_ tierRe (view_caps String_)); [|apply view_reads|done|].
  - change (default [] (Some ?l)) with l. rewrite map_map. change (shown_tier (seg_tier Number_ String_ s) :: ?l) with
      (map shown_tier (map (seg_tier Number_ String_) (s :: segs))). rewrite map_map. apply map_ext_in.
    intros s' Hs'%list_elem_of_In. apply shown_segment. rewrite Forall_forall in Hok. by apply Hok.
  - by destruct s as [[[|c l] lbl] t], segs.
Qed.

(** The pricing page shows what the editor wrote: of the expression of a configuration with printable prices
    and quote-free labels it reads the same tiers, with their names, their written conditions and every price. *)
Theorem page_agrees_with_editor (Number_ : jsstr → jsnum) (String_ : jsnum → jsstr) (cfg : VisualConfig) :
  cfg ≠ [] → Forall (plain_tier Number_ String_) cfg →
  parseTiersFromExpr Number_ (generateExprFromVisualConfig String_ (Some cfg)) =
  map shown_tier (canonical Number_ String_ cfg).
Proof. apply page_reads. Qed.

Lemma page_agrees_with_editor_witness :
  parseTiersFromExpr sample_Number (generateExprFromVisualConfig sample_String (Some sample_config)) =
  map shown_tier (canonical sample_Number sample_String sample_config).
Proof.
  apply (page_agrees_with_editor sample_Number sample_String sample_config); [discriminate|apply sample_config_ok].
Defined.

End TierView.

(** ** Prices of a model (dynamic-price.ts, model-helpers.ts) *)

Module DynamicPrice.
Import TierView.

(** The fields of a model that its price depends on. *)
Record PricingModel := mkModel {
  billing_mode : jsstr; billing_expr : jsstr; enable_groups : list jsstr; group_ratio : list (jsstr * jsnum) }.

Definition FILTER_ALL : jsstr := js "all".
Definition EXCLUDED_GROUPS : list jsstr := [[]; js "auto"].

Definition isDynamicPricingModel (model : PricingModel) : bool :=
  streq (billing_mode model) (js "tiered_expr") && truthy (billing_expr model).

Definition getAvailableGroups (model : PricingModel) (usableGroup : list jsstr) : list jsstr :=
  List.filter (λ g, bool_decide (g ∈ enable_groups model))
    (List.filter (λ g, negb (bool_decide (g ∈ EXCLUDED_GROUPS))) usableGroup).

Definition finite_ratio (o : option jsnum) : option jsnum :=
  match o with Some n => if isFinite n then Some n else None | None => None end.

Definition getConfiguredGroupRatio (groupRatio : list (jsstr * jsnum)) (group : jsstr) : jsnum :=
  default (num_of_Z 1) (finite_ratio (jm_get group groupRatio)).

(** The loop over the groups of a model. *)
Definition min_ratio (groupRatio : list (jsstr * jsnum)) (groups : list jsstr) : jsnum :=
  foldl (λ minRatio group,
    match jm_get group groupRatio with
    | Some ratio => if isFinite ratio && num_lt ratio minRatio then ratio else minRatio
    | None => minRatio
    end) PosInf groups.

Definition getDisplayGroupRatio (model : PricingModel) (selectedGroup : option jsstr) : jsnum :=
  let selected := default [] selectedGroup in
  if truthy selected && negb (streq selected FILTER_ALL) && bool_decide (selected ∈ enable_groups model)
  then getConfiguredGroupRatio (group_ratio model) selected
  else if (length (enable_groups model) =? 0)%nat then num_of_Z 1
  else
    let m := min_ratio (group_ratio model) (enable_groups model) in
    if bool_decide (m = PosInf) then num_of_Z 1 else m.

Record DynamicPriceEntry := mkEntry {
  e_key : jsstr; e_field : jsstr; e_label : jsstr; e_shortLabel : jsstr; e_value : jsnum; formatted : jsstr;
  variable : BillingVar }.

Definition PRIMARY_DYNAMIC_FIELDS : list jsstr := [js "inputPrice"; js "outputPrice"].

Definition is_primary (e : DynamicPriceEntry) : bool := bool_decide (e_field e ∈ PRIMARY_DYNAMIC_FIELDS).

(** The comparison of two entries is at most 0. *)
Definition primary_first (a b : DynamicPriceEntry) : bool := is_primary a || negb (is_primary b).

Section pricing.
Context (JSON_parse : jsstr → option value) (to_string : value → jsstr) (Number_ : jsstr → jsnum)
  (formatDynamicUnitPrice : jsnum → jsstr).

Definition entry_of (tier : ParsedTier) (v : BillingVar) : option DynamicPriceEntry :=
  match field v with
  | None => None
  | Some f =>
      let value := default NaN (jm_get f (prices tier)) in
      if negb (isFinite value) || num_le value (num_of_Z 0) then None
      else Some (mkEntry (key v) f (label_ v) (shortLabel v) value (formatDynamicUnitPrice value) v)
  end.

Definition getDynamicPriceEntries (tier : option ParsedTier) : list DynamicPriceEntry :=
  match tier with
  | None => []
  | Some t => js_sort primary_first (omap (entry_of t) BILLING_PRICING_VARS)
  end.

Definition getDynamicPricingTiers (model : PricingModel) : Billing.throws (list ParsedTier) :=
  if negb (isDynamicPricingModel model) then Ok []
  else
    try! r := Billing.splitBillingExprAndRequestRules JSON_parse to_string (billing_expr model) in
    Ok (parseTiersFromExpr Number_ r.1).

Definition hasDynamicRequestRules (model : PricingModel) : Billing.throws bool :=
  if negb (isDynamicPricingModel model) then Ok false
  else
    try! r := Billing.splitBillingExprAndRequestRules JSON_parse to_string (billing_expr model) in
    try! groups := Billing.tryParseRequestRuleExpr JSON_parse to_string r.2 in
    Ok (match groups with Some (_ :: _) => true | _ => false end).

Record DynamicPricingSummary := mkSummary {
  tiers : list ParsedTier; tier : option ParsedTier; tierCount : nat; hasRequestRules : bool;
  isSpecialExpression : bool; rawExpression : jsstr; entries : list DynamicPriceEntry;
  primaryEntries : list DynamicPriceEntry; secondaryEntries : list DynamicPriceEntry }.

Definition getDynamicPricingSummary (model : PricingModel) : Billing.throws (option DynamicPricingSummary) :=
  if negb (isDynamicPricingModel model) then Ok None
  else
    try! ts := getDynamicPricingTiers model in
    try! rules := hasDynamicRequestRules model in
    let first := head ts in
    let es := getDynamicPriceEntries first in
    Ok (Some (mkSummary ts first (length ts) rules
      (truthy (trim (billing_expr model)) && (length ts =? 0)%nat) (billing_expr model)
      es (List.filter is_primary es) (List.filter (λ e, negb (is_primary e)) es))).
End pricing.


(** ** Properties *)

Lemma omap_sorted {A B} (R : A → A → Prop) (S : B → B → Prop) (g : A → option B) l :
  StronglySorted R l → (∀ a b x y, R a b → g a = Some x → g b = Some y → S x y) → StronglySorted S (omap g l).
Proof.
  intros Hs HRS. induction Hs as [|a l Hs IH Ha]; [constructor|]. cbn [omap list_omap]. destruct (g a) as [x|] eqn:Ex; [|exact IH].
  constructor; [exact IH|]. apply Forall_forall. intros y (b & Hb & Ey)%list_elem_of_omap.
  rewrite Forall_forall in Ha. eauto.
Qed.

(** The variables have the two primary prices first. *)
Definition primary_var (v : BillingVar) : bool :=
  match field v with Some f => bool_decide (f ∈ PRIMARY_DYNAMIC_FIELDS) | None => false end.

Lemma vars_sorted : StronglySorted (λ v w, primary_var v || negb (primary_var w) = true) BILLING_PRICING_VARS.
Proof. apply Sorted_StronglySorted; [|by repeat constructor]. intros v w u. destruct (primary_var v), (primary_var w); simpl; by try intros _ ->. Qed.

(** The entries of a tier are its positive finite prices, in the order of the variables, the primary ones first. *)
Theorem price_entries_exact (format : jsnum → jsstr) (t : ParsedTier) :
  getDynamicPriceEntries format (Some t) = omap (entry_of format t) BILLING_PRICING_VARS ∧
  ∀ e, e ∈ getDynamicPriceEntries format (Some t) ↔
    ∃ v f n, v ∈ BILLING_PRICING_VARS ∧ field v = Some f ∧ jm_get f (prices t) = Some n ∧
      isFinite n = true ∧ num_lt (num_of_Z 0) n = true ∧
      e = mkEntry (key v) f (label_ v) (shortLabel v) n (format n) v.
Proof.
  assert (getDynamicPriceEntries format (Some t) = omap (entry_of format t) BILLING_PRICING_VARS) as E.
  { apply js_sort_id, StronglySorted_Sorted. eapply omap_sorted; [apply vars_sorted|].
    intros v w x y Hvw Hx Hy. unfold primary_first, is_primary, primary_var, entry_of in *.
    destruct (field v), (field w); try done. repeat (destruct (negb _ || _); [done|]). simplify_eq. exact Hvw. }
  split; [done|]. intros e. rewrite E, list_elem_of_omap. unfold entry_of. split.
  - intros (v & Hv & He). destruct (field v) as [f|] eqn:Ef; [|done].
    destruct (jm_get f (prices t)) as [n|] eqn:En; [|done]. cbn [default from_option] in He. unfold id in He.
    destruct (isFinite n) eqn:Hf; [|done]. cbn [negb orb] in He. destruct (num_le n (num_of_Z 0)) eqn:Hle; [done|].
    simplify_eq. exists v, f, n. split_and!; try done. destruct n as [| | |q]; try done. simpl in *.
    apply bool_decide_eq_false in Hle. apply bool_decide_eq_true. by apply Qcanon.Qcnot_le_lt.
  - intros (v & f & n & Hv & Hf & Hn & Hfin & Hlt & ->). exists v. split; [done|]. rewrite Hf, Hn. cbn [default from_option].
    unfold id. rewrite Hfin. cbn [negb orb]. destruct (num_le n (num_of_Z 0)) eqn:Hle; [|done]. exfalso.
    destruct n as [| | |q]; try done. simpl in *. apply bool_decide_eq_true in Hle, Hlt.
    by apply (Qcanon.Qclt_not_le _ _ Hlt).
Qed.

(** Groups of a list whose ratio is a finite number. *)
Definition offered (ratios : list (jsstr * jsnum)) (groups : list jsstr) (n : jsnum) : Prop :=
  ∃ g, g ∈ groups ∧ jm_get g ratios = Some n ∧ isFinite n = true.

Lemma offered_snoc ratios groups g n :
  offered ratios (groups ++ [g]) n ↔ offered ratios groups n ∨ (jm_get g ratios = Some n ∧ isFinite n = true).
Proof.
  unfold offered. split.
  - intros (g' & [Hg | Hg%list_elem_of_singleton]%elem_of_app & Hn); [left; eauto|subst; by right].
  - intros [(g' & Hg & Hn) | Hn]; [exists g'|exists g]; (split; [apply elem_of_app|done]); [by left|right; by left].
Qed.

Lemma min_ratio_spec ratios groups :
  let m := min_ratio ratios groups in
  (m = PosInf ∧ ∀ n, ¬ offered ratios groups n) ∨
  (offered ratios groups m ∧ ∀ n, offered ratios groups n → num_lt n m = false).
Proof.
  unfold min_ratio. induction groups as [|g groups IH] using rev_ind; cbv zeta in *.
  { left. split; [done|]. intros n (g & Hg & _). by apply not_elem_of_nil in Hg. }
  rewrite foldl_app. cbn [foldl]. set (m := foldl _ _ groups) in *. setoid_rewrite offered_snoc.
  destruct (jm_get g ratios) as [r|] eqn:Eg.
  2: { destruct IH as [[-> H] | [H1 H2]]; [left|right]; (split; [tauto|]); intros n; [intros [? | [? _]]; [by eapply H|done]|].
       intros [? | [? _]]; [by apply H2|done]. }
  destruct (isFinite r) eqn:Hr; cbn [andb].
  - right. destruct IH as [[Hm H] | [H1 H2]].
    + rewrite Hm. assert (num_lt r PosInf = true) as -> by (by destruct r). split; [by right|].
      intros n [Hn | [[= <-] _]]; [by destruct (H n)|apply num_lt_irrefl].
    + destruct (num_lt r m) eqn:Hlt.
      * split; [by right|]. intros n [Hn | [[= <-] _]]; [|apply num_lt_irrefl].
        destruct (num_lt n r) eqn:En; [|done].
        pose proof (num_lt_trans _ _ _ En Hlt) as Hc. by rewrite (H2 n Hn) in Hc.
      * split; [by left|]. intros n [Hn | [[= <-] _]]; [by apply H2|done].
  - destruct IH as [[-> H] | [H1 H2]]; [left|right]; (split; [tauto|]); intros n.
    + intros [Hn | [[= <-] Hf]]; [by eapply H|congruence].
    + intros [Hn | [[= <-] Hf]]; [by apply H2|congruence].
Qed.

(** Without a selected group the ratio is that of the cheapest group of the model with a finite ratio, or 1. *)
Theorem display_ratio_best (model : PricingModel) (selected : option jsstr) :
  selected = None ∨ selected = Some FILTER_ALL →
  let ratio := getDisplayGroupRatio model selected in
  let offered := offered (group_ratio model) (enable_groups model) in
  (offered ratio ∧ ∀ n, offered n → num_lt n ratio = false) ∨ (ratio = num_of_Z 1 ∧ ∀ n, ¬ offered n).
Proof.
  intros Hsel ratio off. unfold ratio, getDisplayGroupRatio.
  assert (truthy (default [] selected) && negb (streq (default [] selected) FILTER_ALL) = false) as -> by (by destruct Hsel as [-> | ->]).
  cbn [andb]. destruct (Nat.eqb_spec (length (enable_groups model)) 0) as [Hl|Hl].
  { right. split; [done|]. apply length_zero_iff_nil in Hl. unfold off. rewrite Hl. intros n (g & Hg & _). by apply not_elem_of_nil in Hg. }
  destruct (min_ratio_spec (group_ratio model) (enable_groups model)) as [[Hm H] | [(g & Hg & Hn & Hf) H]]; cbv zeta.
  - right. rewrite Hm. by rewrite bool_decide_true.
  - left. rewrite bool_decide_false; [|intros E; by rewrite E in Hf]. split; [by exists g|done].
Qed.

End DynamicPrice.
