(* ===== verification/BillingEditor.v ===== *)
(** * The pricing editor as a whole
      (web/src/features/pricing/lib/billing-expr.ts, tier-expr.ts and dynamic-price.ts together)

    The editor saves one text: the tiers, times the factors of the request rules. Loading it
    splits the text, parses the tiers and parses the rules; the pricing page splits it too.
    The theorem composes the parts: what is saved is what is loaded and shown. *)
From S2P Require Import Prelude JsString JsMap JsValue Regex BillingExpr TierExpr TierView.
Local Open Scope N_scope.
Local Open Scope js_scope.
Import Billing Tiers TierView DynamicPrice.

Module BillingEditor.

(** ** Texts that the splitting loop does not cut *)

(** No blank before an asterisk at depth 0, from depth [d] on. *)
Fixpoint safe (s : jsstr) (d : Z) : Prop :=
  match s with
  | [] => True
  | u :: r => (depth_after u d ≠ 0%Z ∨ u ≠ 32 ∨ head r ≠ Some 42) ∧ safe r (depth_after u d)
  end.

Lemma safe_app a b d : safe a d → safe b (run_depth a d) → head b ≠ Some 42 → safe (a ++ b) d.
Proof.
  revert d. induction a as [|u a IH]; intros d Ha Hb Hh; [exact Hb|]. destruct Ha as [Hu Ha]. split; [|by apply IH].
  destruct a as [|v a]; [|exact Hu]. destruct Hu as [Hu | [Hu | _]]; [by left|by right; left|by right; right].
Qed.

Lemma safe_starless s d : 42 ∉ s → safe s d.
Proof.
  revert d. induction s as [|u s IH]; intros d Hs; [done|]. apply not_elem_of_cons in Hs as [_ Hs]. split; [|by apply IH].
  right. right. destruct s as [|v s]; [done|]. apply not_elem_of_cons in Hs as [Hv _]. simpl. congruence.
Qed.

(** Deeper than 0 nothing is cut. *)
Lemma safe_deep s d : stays 1 s d → safe s d.
Proof. revert d. induction s as [|u s IH]; intros d; [done|]. intros [Hu Hs]. split; [left; lia|by apply IH]. Qed.

Definition smooth (s : jsstr) : Prop := nested s ∧ safe s 0 ∧ head s ≠ Some 42.

Lemma smooth_app a b : smooth a → smooth b → smooth (a ++ b).
Proof.
  intros (Ha1 & Ha2 & Ha3) (Hb1 & Hb2 & Hb3). split; [by apply nested_app|]. split.
  - apply safe_app; [done| |done]. by rewrite (proj1 (Ha1 0%Z)).
  - destruct a; [exact Hb3|exact Ha3].
Qed.

Lemma smooth_free s : no_parens s = true → 42 ∉ s → smooth s.
Proof.
  intros Hp Hs. split; [by apply nested_free|]. split; [by apply safe_starless|].
  destruct s as [|u s]; [done|]. apply not_elem_of_cons in Hs as [Hu _]. simpl. congruence.
Qed.

Lemma smooth_lit s : forallb (λ u, negb (u =? 40) && negb (u =? 41) && negb (u =? 42)) s = true → smooth s.
Proof.
  intros H. apply smooth_free.
  - eapply forallb_impl; [|exact H]. intros u [Hu _]%andb_true_iff. exact Hu.
  - intros Hin. rewrite forallb_forall in H. apply list_elem_of_In, H in Hin. done.
Qed.

Lemma smooth_parens s : nested s → smooth (40 :: s ++ [41]).
Proof.
  intros Hn. split; [by apply nested_parens|]. split; [|done].
  split; [by left|]. change (depth_after 40 0) with 1%Z. destruct (Hn 1%Z) as [Hr Hs].
  apply safe_app; [by apply safe_deep| |done]. rewrite Hr. by split; [right; left|].
Qed.

Lemma smooth_uncut s : smooth s → uncut (js " * ") s.
Proof.
  intros (Hn & Hs & _). split; [apply Hn|]. intros t a b Ht -> Hb.
  assert (∀ d, safe (a ++ b) d → safe b (run_depth a d)) as Hskip.
  { clear. induction a as [|u a IH]; intros d; [done|]. intros [_ H]. by apply IH. }
  apply Hskip in Hs. destruct b as [|u b]; [done|]. destruct Hs as [Hu _]. rewrite run_depth_app.
  change (run_depth (take 1 (u :: b)) (run_depth a 0)) with (depth_after u (run_depth a 0)).
  destruct Hu as [Hu | Hu]; [by left|right]. change (js " * ") with [32; 42; 32].
  destruct (N.eq_dec u 32) as [->|Hne]; [|cbn [starts_with app]; by rewrite (proj2 (N.eqb_neq 32 u)) by congruence].
  destruct Hu as [Hu | Hu]; [done|]. destruct b as [|v b].
  - by destruct Ht as [-> | [r ->]].
  - cbn [starts_with app]. by rewrite (proj2 (N.eqb_neq 42 v)), andb_false_r by (simpl in Hu; congruence).
Qed.

(** A text that is no product and does not start with a parenthesis is no rule. *)
Lemma not_rule JSON_parse to_string s :
  smooth s → starts_ok s = true → ends_ok s = true → head s ≠ Some 40 →
  is_rule_part JSON_parse to_string s = Ok false.
Proof.
  intros Hs H1 H2 Hh. unfold is_rule_part, tryParseRequestRuleExpr.
  destruct (split_product [s]) as (Ht & Hsp & Htr); [done|by apply Forall_singleton, smooth_uncut|by apply Forall_singleton..|].
  cbn [join] in *. rewrite Ht, Htr, Hsp. cbn [negb parse_all]. unfold tryParseRuleGroupFactor, match_factor.
  enough (strip [40] s = None) as -> by done. unfold strip. destruct s as [|u s]; [done|]. cbn [starts_with].
  by rewrite (proj2 (N.eqb_neq 40 u)) by (simpl in Hh; congruence).
Qed.

(** ** The text of a price *)

Section texts.
Context (Number_ : jsstr → jsnum) (String_ : jsnum → jsstr).

Lemma num_smooth s : Forall (λ c, Billing.is_num_char c = true) s → no_parens s = true ∧ 42 ∉ s.
Proof.
  intros Hs. split.
  - apply forallb_Forall. eapply Forall_impl; [exact Hs|]. intros c Hc.
    apply andb_true_iff; split; apply negb_true_iff, N.eqb_neq; by intros ->.
  - intros Hin. rewrite Forall_forall in Hs. by apply Hs in Hin.
Qed.

Lemma no_parens_app a b : no_parens (a ++ b) = no_parens a && no_parens b.
Proof. apply forallb_app. Qed.

Lemma cond_smooth c : plain_condition Number_ String_ c → has_value c = true → smooth (cond_text String_ c).
Proof.
  intros Hc Hv. destruct (Hc Hv) as (_ & Hf & _). unfold cond_text.
  assert (no_parens (value_text String_ (cvalue c)) = true ∧ 42 ∉ value_text String_ (cvalue c)) as [Hp Hs].
  { apply num_smooth. eapply Forall_impl; [exact Hf|]. intros u Hu. unfold Billing.is_num_char, is_cond_char in *.
    rewrite !orb_true_iff in *. tauto. }
  assert (∀ v, smooth (var_text v)) as Hvar by (intros []; by apply smooth_lit).
  assert (∀ o, smooth (op_text o)) as Hop by (intros []; by apply smooth_lit).
  assert (smooth (js " ")) as Hbl by (by apply smooth_lit).
  repeat (apply smooth_app; [by auto|]). by apply smooth_free.
Qed.

Lemma cond_part_smooth l :
  Forall (plain_condition Number_ String_) l → Forall (λ c, has_value c = true) l → smooth (cond_part String_ l).
Proof.
  intros Hp Hv. destruct l as [|c l]; [by apply smooth_lit|]. rewrite cond_part_cons, cond_join.
  apply Forall_cons in Hp as [Hpc Hp], Hv as [Hvc Hv].
  apply smooth_app; [apply smooth_app; [by apply cond_smooth|]|by apply smooth_lit].
  induction l as [|d l IH]; [by apply smooth_lit|]. apply Forall_cons in Hp as [Hpd Hp], Hv as [Hvd Hv]. cbn [map concat].
  apply smooth_app; [|by apply IH]. apply smooth_app; [by apply smooth_lit|by apply cond_smooth].
Qed.

Lemma body_parens t : (∀ f, Tiers.plain Number_ String_ (price t f)) → no_parens (buildTierBodyExpr String_ t) = true.
Proof.
  intros Hp. assert (∀ f, no_parens (String_ (price t f)) = true) as Hn.
  { intros f. destruct (Hp f) as (_ & Hf & _). by apply num_smooth. }
  rewrite body_text, !no_parens_app, !Hn. enough (no_parens (extras_text String_ t BILLING_CACHE_VAR_MAP) = true) as -> by done.
  unfold extras_text.
  assert (Forall (λ cv, no_parens (snd cv) = true) BILLING_CACHE_VAR_MAP) as Hk by (apply (bool_decide_unpack _); by vm_compute).
  induction Hk as [|cv vs Hcv _ IH]; [done|]. cbn [map concat]. rewrite no_parens_app, IH, andb_true_r.
  destruct (is_zero _); [done|]. by rewrite !no_parens_app, Hcv, Hn.
Qed.

Lemma call_smooth lbl t :
  no_parens lbl = true → (∀ f, Tiers.plain Number_ String_ (price t f)) → smooth (tier_body String_ lbl t).
Proof.
  intros Hl Hp. change (smooth (js "tier" ++ 40 :: ((34 :: lbl ++ [34] ++ js ", " ++ buildTierBodyExpr String_ t ++ js ")")))).
  replace (34 :: lbl ++ [34] ++ js ", " ++ buildTierBodyExpr String_ t ++ js ")") with
    ((34 :: lbl ++ [34] ++ js ", " ++ buildTierBodyExpr String_ t) ++ [41]) by (cbn [app]; by rewrite <- !app_assoc).
  apply smooth_app; [by apply smooth_lit|]. apply smooth_parens, nested_free.
  change (no_parens (34 :: ?y)) with (no_parens y). rewrite !no_parens_app, Hl, body_parens by done. done.
Qed.

Definition seg_parens (s : segment) : Prop := seg_ok Number_ String_ s ∧ no_parens (snd (fst s)) = true.

Lemma seg_smooth s : seg_parens s → smooth (seg_text String_ s).
Proof.
  destruct s as [[l lbl] t]. intros [(Hp & Hv & _ & _ & Ht) Hl]. apply smooth_app; [by apply cond_part_smooth|by apply call_smooth].
Qed.

Lemma segs_smooth s segs :
  Forall seg_parens (s :: segs) → smooth (join (js " : ") (map (seg_text String_) (s :: segs))).
Proof.
  intros Hs. apply Forall_cons in Hs as [Hs Hsegs]. cbn [map]. rewrite join_cons.
  apply smooth_app; [by apply seg_smooth|]. induction Hsegs as [|s' segs Hs' _ IH]; [by apply smooth_lit|].
  cbn [map concat]. apply smooth_app; [|exact IH].
  apply smooth_app; [by apply smooth_lit|by apply seg_smooth].
Qed.

Lemma seg_ends s : ∃ u, seg_text String_ s = u ++ [41].
Proof.
  destruct s as [[l lbl] t]. cbn [seg_text]. unfold tier_body.
  exists (cond_part String_ l ++ js "tier(" ++ [34] ++ lbl ++ [34] ++ js ", " ++ buildTierBodyExpr String_ t).
  by rewrite <- !app_assoc.
Qed.

Lemma segs_ends s segs : ∃ u, join (js " : ") (map (seg_text String_) (s :: segs)) = u ++ [41].
Proof.
  revert s. induction segs as [|s' segs IH]; intros s; [apply seg_ends|]. destruct (IH s') as [u Hu].
  exists (seg_text String_ s ++ js " : " ++ u). cbn [map].
  change (join (js " : ") (?a :: ?b :: ?l)) with (a ++ js " : " ++ join (js " : ") (b :: l)). cbn [map] in Hu.
  by rewrite Hu, <- !app_assoc.
Qed.

Lemma seg_starts s : ∃ u w, seg_text String_ s = u :: w ∧ is_ws u = false ∧ u ≠ 40.
Proof.
  destruct s as [[[|c l] lbl] t]; [by eexists _, _|]. cbn [seg_text]. rewrite cond_part_cons, cond_join, <- !app_assoc.
  unfold cond_text. destruct (var c); eexists _, _; (split; [reflexivity|done]).
Qed.

(** The pieces of a price at its top-level asterisks: the price itself, or three pieces of the tail of a lone
    conditional tier. *)
Definition pieces (segs : list segment) : list jsstr :=
  let body := join (js " : ") (map (seg_text String_) segs) in
  match tail_text segs with
  | [] => [body]
  | _ => [body ++ js " : p"; js "0 + c"; js "0"]
  end.

Lemma pieces_text segs :
  join (js " * ") (pieces segs) = join (js " : ") (map (seg_text String_) segs) ++ tail_text segs.
Proof.
  destruct segs as [|[[[|c l] lbl] t] [|s segs]]; try (by rewrite app_nil_r).
  set (body := join (js " : ") _). change (pieces _) with [body ++ js " : p"; js "0 + c"; js "0"].
  change (join (js " * ") [?a; ?b; ?c]) with (a ++ js " * " ++ b ++ js " * " ++ c). by rewrite <- app_assoc.
Qed.

Definition piece_ok (p : jsstr) : Prop :=
  smooth p ∧ starts_ok p = true ∧ ends_ok p = true ∧ head p ≠ Some 40.

Lemma pieces_ok s segs : Forall (seg_parens) (s :: segs) → Forall piece_ok (pieces (s :: segs)).
Proof.
  intros Hs. pose proof (segs_smooth s segs Hs) as Hsm. destruct (segs_ends s segs) as [e He].
  destruct (seg_starts s) as (u & w & Hu & Hws & Hp).
  assert (∃ w', join (js " : ") (map (seg_text String_) (s :: segs)) = u :: w') as [w' Hst].
  { cbn [map]. rewrite join_cons, Hu. by eexists. }
  unfold pieces. set (body := join _ _) in *.
  assert (∀ x, starts_ok (body ++ x) = true ∧ head (body ++ x) ≠ Some 40) as Hx.
  { intros x. rewrite Hst. split; [simpl; by rewrite Hws|simpl; congruence]. }
  destruct (tail_text (s :: segs)).
  - apply Forall_singleton. destruct (Hx []) as [H1 H2]. rewrite app_nil_r in *. split_and!; try done.
    rewrite He. unfold ends_ok. by rewrite last_snoc.
  - destruct (Hx (js " : p")) as [H1 H2]. repeat apply Forall_cons_2; try apply Forall_nil_2; split_and!; try done.
    + apply smooth_app; [done|by apply smooth_lit].
    + unfold ends_ok. by rewrite last_app.
    + by apply smooth_lit.
    + by apply smooth_lit.
Qed.

Lemma segments_parens cfg :
  Forall (plain_tier Number_ String_) cfg → Forall (λ t, no_parens (default [] (label t)) = true) cfg →
  Forall seg_parens (segments cfg).
Proof.
  intros Hp Hl. apply Forall_and. split; [by apply segments_ok|].
  assert (∀ d, no_parens d = true → ∀ t, t ∈ cfg → no_parens (str_or (default [] (label t)) d) = true) as Hd.
  { intros d Hd t Ht. unfold str_or. destruct (truthy _); [|done]. by apply (proj1 (Forall_forall _ _) Hl). }
  assert (∀ i, no_parens (tier_name i) = true) as Hname.
  { intros i. unfold tier_name. rewrite no_parens_app. apply forallb_Forall, Forall_forall. intros c Hc%show_Z_digit; [|lia].
    apply andb_true_iff; split; apply negb_true_iff, N.eqb_neq; by intros ->. }
  apply Forall_lookup. intros i s Hi. destruct cfg as [|t [|t' cfg]]; [done| |].
  - destruct i; [|done]. injection Hi as <-. apply Hd; [done|by left].
  - cbn [segments] in Hi. rewrite list_lookup_imap in Hi. apply fmap_Some in Hi as (x & Hx & ->). cbn [fst snd].
    apply Hd; [apply Hname|]. by eapply list_elem_of_lookup_2.
Qed.

(** ** Splitting a price *)

Section split.
Context (JSON_parse : jsstr → option value) (to_string : value → jsstr).

Lemma split_pieces s segs :
  Forall seg_parens (s :: segs) →
  let text := join (js " * ") (pieces (s :: segs)) in
  trim text = text ∧ splitTopLevelMultiply text = pieces (s :: segs) ∧ truthy text = true.
Proof.
  intros Hs. pose proof (pieces_ok s segs Hs) as Hp. apply split_product.
  - unfold pieces. by destruct (tail_text _).
  - eapply Forall_impl; [exact Hp|]. intros p (H & _). by apply smooth_uncut.
  - eapply Forall_impl; [exact Hp|]. by intros p (_ & H & _).
  - eapply Forall_impl; [exact Hp|]. by intros p (_ & _ & H & _).
Qed.

(** Without rules the saved text is the price, and splitting it gives the price. *)
Lemma split_price s segs :
  Forall seg_parens (s :: segs) →
  let text := join (js " * ") (pieces (s :: segs)) in
  splitBillingExprAndRequestRules JSON_parse to_string text = Ok (text, []).
Proof.
  intros Hs text. destruct (split_pieces s segs Hs) as (Ht & Hsp & Htr). fold text in Ht, Hsp, Htr.
  unfold splitBillingExprAndRequestRules. rewrite Ht, Htr, Hsp. cbn [negb].
  destruct (length (pieces (s :: segs)) <=? 1)%nat eqn:El; [done|].
  assert (sort_parts JSON_parse to_string (pieces (s :: segs)) = Ok ([], pieces (s :: segs))) as ->; [|done].
  pose proof (pieces_ok s segs Hs) as Hp. clear El Hsp Htr Ht. clear text. induction Hp as [|p ps (H1 & H2 & H3 & H4) _ IH]; [done|].
  cbn [sort_parts]. rewrite not_rule by done. cbn [result_bind]. rewrite IH. done.
Qed.

(** A price in parentheses is no rule: it does not end as one. *)
Lemma wrapped_not_rule s segs :
  Forall seg_parens (s :: segs) →
  let text := join (js " * ") (pieces (s :: segs)) in
  nested text ∧ hasFullOuterParens text = false ∧
  is_rule_part JSON_parse to_string (40 :: text ++ [41]) = Ok false.
Proof.
  intros Hs text.
  assert (text = join (js " : ") (map (seg_text String_) (s :: segs)) ++ tail_text (s :: segs)) as E by apply pieces_text.
  destruct (seg_starts s) as (u & w & Hu & _ & Hp). destruct (segs_ends s segs) as [e He].
  assert (nested text) as Hn.
  { rewrite E. apply nested_app; [by apply segs_smooth|]. apply nested_free. destruct s as [[[|] ?] ?], segs; done. }
  split_and!; [done| |].
  - unfold hasFullOuterParens. rewrite E. cbn [map]. rewrite join_cons, Hu. cbn [starts_with app].
    by rewrite (proj2 (N.eqb_neq 40 u)) by congruence.
  - destruct (split_product [40 :: text ++ [41]]) as (Ht & Hsp & Htr); [done|..].
    { apply Forall_singleton, smooth_uncut. by apply smooth_parens. }
    { by apply Forall_singleton. }
    { apply Forall_singleton. by apply (ends_ok_app (40 :: text)). }
    cbn [join] in *. unfold is_rule_part, tryParseRequestRuleExpr. rewrite Ht, Htr, Hsp. cbn [negb parse_all].
    unfold tryParseRuleGroupFactor. enough (match_factor (40 :: text ++ [41]) = None) as -> by done.
    unfold match_factor. change (strip [40] (40 :: text ++ [41])) with (Some (text ++ [41])). cbv iota.
    rewrite rev_app_distr, E, He. destruct s as [[[|] ?] ?], segs; cbn [tail_text];
      rewrite ?app_nil_r, rev_app_distr; reflexivity.
Qed.
End split.
End texts.

(** ** Saving *)

Section saving.
Context (JSON_parse : jsstr → option value) (to_string : value → jsstr).
Context (Number_ : jsstr → jsnum) (String_ : jsnum → jsstr).
Context (cfg : VisualConfig) (gs : list RequestRuleGroup).
Context (Hj : reads_strings JSON_parse to_string) (Hgs : forallb supported_group gs = true).
Context (Hne : cfg ≠ []) (Hp : Forall (plain_tier Number_ String_) cfg).
Context (Hl : Forall (λ t, no_parens (default [] (label t)) = true) cfg).

Lemma saved_rules_read : tryParseRequestRuleExpr JSON_parse to_string (buildRequestRuleExpr gs) = Ok (Some gs).
Proof using Hj Hgs. rewrite (built_factors JSON_parse to_string Hj) by done. apply product_read. by apply group_factors. Qed.

Lemma saved_price_trimmed : let base := generateExprFromVisualConfig String_ (Some cfg) in
  trim base = base ∧ truthy base = true.
Proof using Hne Hp Hl.
  intros base. pose proof (segments_parens Number_ String_ cfg Hp Hl) as Hs.
  destruct (segments cfg) as [|s segs] eqn:E; [by destruct cfg as [|? [|]]|].
  assert (base = join (js " * ") (pieces String_ (s :: segs))) as ->.
  { unfold base. rewrite pieces_text, <- E. by apply generate_text. }
  by destruct (split_pieces Number_ String_ s segs Hs) as (? & _ & ?).
Qed.

Lemma saved_price_splits :
  let base := generateExprFromVisualConfig String_ (Some cfg) in
  let rules := buildRequestRuleExpr gs in
  splitBillingExprAndRequestRules JSON_parse to_string (combineBillingExpr base rules) = Ok (base, rules).
Proof using All.
  intros base rules. destruct saved_price_trimmed as [Ht Htr]. fold base in Ht, Htr.
  pose proof (segments_parens Number_ String_ cfg Hp Hl) as Hs.
  destruct (segments cfg) as [|s segs] eqn:E; [by destruct cfg as [|? [|]]|].
  assert (base = join (js " * ") (pieces String_ (s :: segs))) as Hb.
  { unfold base. rewrite pieces_text, <- E. by apply generate_text. }
  destruct (wrapped_not_rule Number_ String_ JSON_parse to_string s segs Hs) as (Hn & Hf & Hr). rewrite <- Hb in Hn, Hf, Hr.
  unfold rules in *. clear rules. clear Hp. destruct gs as [|g gs'].
  - change (buildRequestRuleExpr []) with (@nil N). unfold combineBillingExpr. rewrite Ht, Htr. cbn [negb].
    change (truthy (trim [])) with false. cbn [negb]. rewrite Hb. by apply (split_price Number_).
  - apply combined_expr_splits; try done. by apply truthy_spec.
Qed.
End saving.

(** ** Properties *)

(** [C19] Saving and loading a price whose rules the editor can read back. The tiers and the request rules are
    saved as one expression; splitting it gives back the text of each. The rules parse to what was edited. The
    tiers parse to the canonical form of what was edited, which is saved as the same text: every tier has a
    name, conditions without a value and those of the last of several tiers are gone, the cache mode is the one
    the prices show. The pricing page shows these tiers and knows whether there are rules. The conditions: prices
    and numbers that are read back as they are printed, labels without quotes and parentheses, a condition on
    every tier but the last, and rules whose conditions are times, equalities, existence, and [contains] on
    headers, of texts without quotes, parentheses, bars and ampersands (the editor writes other comparisons of
    parameters too, which it cannot read back). *)
Theorem billing_editor_roundtrip (JSON_parse : jsstr → option value) (to_string : value → jsstr)
    (Number_ : jsstr → jsnum) (String_ : jsnum → jsstr) (cfg : VisualConfig) (gs : list RequestRuleGroup)
    (model : PricingModel) :
  reads_strings JSON_parse to_string → forallb supported_group gs = true →
  cfg ≠ [] → Forall (plain_tier Number_ String_) cfg → guarded cfg →
  Forall (λ t, no_parens (default [] (label t)) = true) cfg →
  let base := generateExprFromVisualConfig String_ (Some cfg) in
  let rules := buildRequestRuleExpr gs in
  isDynamicPricingModel model = true → billing_expr model = combineBillingExpr base rules →
  splitBillingExprAndRequestRules JSON_parse to_string (billing_expr model) = Ok (base, rules) ∧
  tryParseVisualConfig Number_ String_ (Some base) = Some (canonical Number_ String_ cfg) ∧
  generateExprFromVisualConfig String_ (Some (canonical Number_ String_ cfg)) = base ∧
  tryParseRequestRuleExpr JSON_parse to_string rules = Ok (Some gs) ∧
  getDynamicPricingTiers JSON_parse to_string Number_ model = Ok (map shown_tier (canonical Number_ String_ cfg)) ∧
  hasDynamicRequestRules JSON_parse to_string model = Ok (negb (bool_decide (gs = []))).
Proof.
  intros Hj Hgs Hne Hp Hg Hl base rules Hm Hexpr.
  pose proof (saved_rules_read JSON_parse to_string gs Hj Hgs) as Hread. fold rules in Hread.
  assert (splitBillingExprAndRequestRules JSON_parse to_string (billing_expr model) = Ok (base, rules)) as Hsplit
    by (rewrite Hexpr; by apply (saved_price_splits _ _ Number_)).
  destruct (editor_reads_back Number_ String_ cfg Hne Hp Hg) as [Hparse Hagain].
  split_and!; [done|done|done|done| |].
  - unfold getDynamicPricingTiers. rewrite Hm, Hsplit. cbn [negb result_bind fst]. f_equal. by apply page_reads.
  - unfold hasDynamicRequestRules. rewrite Hm, Hsplit. cbn [negb result_bind snd]. rewrite Hread. by destruct gs.
Qed.

Definition sample_rules : list RequestRuleGroup :=
  [mkGroup [ParamHeaderCondition Header (js "x-tier") MATCH_CONTAINS (js "pro plan")] (js "1.5")].

Definition sample_model : PricingModel :=
  mkModel (js "tiered_expr")
    (combineBillingExpr (generateExprFromVisualConfig sample_String (Some sample_config)) (buildRequestRuleExpr sample_rules)) [] [].

Lemma billing_editor_roundtrip_witness :
  let base := generateExprFromVisualConfig sample_String (Some sample_config) in
  let rules := buildRequestRuleExpr sample_rules in
  splitBillingExprAndRequestRules simple_JSON_parse simple_String (billing_expr sample_model) = Ok (base, rules) ∧
  tryParseVisualConfig sample_Number sample_String (Some base) = Some (canonical sample_Number sample_String sample_config) ∧
  generateExprFromVisualConfig sample_String (Some (canonical sample_Number sample_String sample_config)) = base ∧
  tryParseRequestRuleExpr simple_JSON_parse simple_String rules = Ok (Some sample_rules) ∧
  getDynamicPricingTiers simple_JSON_parse simple_String sample_Number sample_model =
    Ok (map shown_tier (canonical sample_Number sample_String sample_config)) ∧
  hasDynamicRequestRules simple_JSON_parse simple_String sample_model = Ok (negb (bool_decide (sample_rules = []))).
Proof.
  apply (billing_editor_roundtrip simple_JSON_parse simple_String sample_Number sample_String sample_config sample_rules sample_model).
  - apply simple_reads_strings.
  - vm_compute. reflexivity.
  - discriminate.
  - apply sample_config_ok.
  - intros [|[|i]] t Ht Hi; [by injection Ht as <-|simpl in Hi; lia|done].
  - repeat constructor.
  - vm_compute. reflexivity.
  - reflexivity.
Defined.

End BillingEditor.
