(* ===== verification/TierEditor.v ===== *)
(** * The editor of tiered prices as a component
      (web/src/features/system-settings/models/tiered-pricing-editor.tsx)

    The editor keeps a configuration of tiers, the groups of request rules, and the text of
    both; the page around it keeps the two texts it saves. After every render the effects of
    the component bring the page's texts in line with the editor, and, once after a price was
    opened or renamed, the editor in line with the page. A commit is one render with its
    effects: they read the state of that render, and what they set is seen by the next.

    [Throw]: rendering or a handler throws. *)
From S2P Require Import Prelude JsString JsMap JsValue Regex BillingExpr TierExpr TierView BillingEditor.
Local Open Scope js_scope.
Import Billing Tiers BillingEditor.

Module TierEditor.

Inductive EditorMode := VisualMode | RawMode.

(** [seen]: the texts of the page at the last commit, on which the first effect depends;
    [seen_name]: the model's name then. *)
Record Editor := mkEditor {
  editorMode : EditorMode; visualConfig : option VisualConfig; rawExpr : jsstr;
  requestRuleGroups : list RequestRuleGroup; initRef : bool;
  billingExpr : jsstr; requestRuleExpr : jsstr; modelName : jsstr;
  seen : option (jsstr * jsstr); seen_name : option jsstr }.

(** ** The list of tiers *)

Definition conds (t : VisualTier) : list TierConditionInput := default [] (Tiers.conditions t).

Definition set_conds (l : list TierConditionInput) (t : VisualTier) : VisualTier :=
  mkTier (label t) (Some l) (cache_mode t) (costs t).

(** [{ var, op: '<', value: 200000 }] *)
Definition default_condition (v : CondVar) : TierConditionInput := mkCond v OpLt (CNum (num_of_Z 200000)).

Definition handleTierChange (index : nat) (next : VisualTier) (config : VisualConfig) : VisualConfig :=
  <[index := normalizeVisualTier next]> config.

Definition new_tier (n : nat) : VisualTier :=
  normalizeVisualTier (mkTier (Some (tier_name n)) (Some []) None
    {[ input_unit_cost := num_of_Z 0; output_unit_cost := num_of_Z 0 ]}).

Definition handleAddTier (config : VisualConfig) : VisualConfig :=
  let tiers :=
    alter (λ t, match conds t with
                | [] => normalizeVisualTier (set_conds [default_condition VarLen] t)
                | _ => t
                end) (length config - 1) config in
  tiers ++ [new_tier (length tiers)].

Fixpoint drop_at {A} (i : nat) (l : list A) : list A :=
  match l, i with
  | [], _ => []
  | _ :: l, O => l
  | x :: l, S i => x :: drop_at i l
  end.

Definition handleRemoveTier (index : nat) (config : VisualConfig) : VisualConfig :=
  match drop_at index config with [] => config | tiers => tiers end.

Definition uses_len (l : list TierConditionInput) : bool := existsb (λ c, bool_decide (var c = VarLen)) l.

Definition handleAddCondition (index : nat) (config : VisualConfig) : VisualConfig :=
  alter (λ t, if (2 <=? length (conds t))%nat then t
              else set_conds (conds t ++ [default_condition (if uses_len (conds t) then VarC else VarLen)]) t)
    index config.

(** *** A tier's card *)

Definition handleConditionChange (i : nat) (next : TierConditionInput) (t : VisualTier) : VisualTier :=
  set_conds (<[i := next]> (conds t)) t.
Definition handleConditionRemove (i : nat) (t : VisualTier) : VisualTier := set_conds (drop_at i (conds t)) t.
Definition handlePriceChange (f : TierField) (v : jsnum) (t : VisualTier) : VisualTier :=
  mkTier (label t) (Tiers.conditions t) (cache_mode t) (<[f := v]> (costs t)).
Definition handleCacheModeChange (m : CacheMode) (t : VisualTier) : VisualTier :=
  mkTier (label t) (Tiers.conditions t) (Some m)
    (<[cache_create_1h_unit_cost := match m with
       | Timed => default (num_of_Z 0) (costs t !! cache_create_1h_unit_cost)
       | Generic => num_of_Z 0
       end]> (costs t)).

(** ** The rules *)

Definition createEmptyCondition : RequestCondition := ParamHeaderCondition Param [] MATCH_EQ [].
Definition createEmptyTimeCondition : RequestCondition :=
  TimeCondition Hour (js "Asia/Shanghai") MATCH_GTE [] [] [].
Definition createEmptyRuleGroup : RequestRuleGroup := mkGroup [createEmptyCondition] [].

Definition set_group_conditions (l : list RequestCondition) (g : RequestRuleGroup) : RequestRuleGroup :=
  mkGroup l (multiplier g).
Definition changeRuleCondition (i : nat) (next : RequestCondition) (g : RequestRuleGroup) : RequestRuleGroup :=
  set_group_conditions (<[i := next]> (Billing.conditions g)) g.
Definition addRuleCondition (timeMode : bool) (g : RequestRuleGroup) : RequestRuleGroup :=
  set_group_conditions (Billing.conditions g ++ [if timeMode then createEmptyTimeCondition else createEmptyCondition]) g.

(** ** Edits of the list *)

(** What the editor promises of its tiers: there is one, each has at most two conditions and
    none or a filled one, and every tier but the last has a filled one. *)
Definition tier_ok (t : VisualTier) : Prop := length (conds t) ≤ 2 ∧ (conds t = [] ∨ shown t ≠ []).

Definition tiers_ok (config : VisualConfig) : Prop := config ≠ [] ∧ Forall tier_ok config ∧ guarded config.

Lemma shown_conds t : shown t = List.filter has_value (conds t).
Proof. done. Qed.

Lemma shown_snoc l c t : has_value c = true → shown (set_conds (l ++ [c]) t) ≠ [].
Proof.
  intros Hc. rewrite shown_conds. change (conds (set_conds (l ++ [c]) t)) with (l ++ [c]).
  rewrite List.filter_app. cbn [List.filter]. rewrite Hc. by destruct (List.filter _ l).
Qed.

Lemma drop_at_lookup {A} i (l : list A) j : drop_at i l !! j = l !! (if (j <? i)%nat then j else S j).
Proof.
  revert i j. induction l as [|x l IH]; intros i j; [by destruct (j <? i)%nat, i, j|].
  destruct i as [|i]; [done|]. destruct j as [|j]; [done|]. cbn [drop_at lookup list_lookup]. rewrite IH.
  change (S j <? S i)%nat with (j <? i)%nat. by destruct (j <? i)%nat.
Qed.

Lemma drop_at_length {A} i (l : list A) : length (drop_at i l) ≤ length l.
Proof. revert i. induction l as [|x l IH]; intros [|i]; simpl; [lia..|]. specialize (IH i). lia. Qed.

Lemma drop_at_short {A} i (l : list A) j : S j < length (drop_at i l) → S (if (j <? i)%nat then j else S j) < length l.
Proof.
  intros Hj. pose proof (drop_at_length i l). assert (is_Some (drop_at i l !! S j)) as [x Hx] by (by apply lookup_lt_is_Some).
  rewrite drop_at_lookup in Hx. apply lookup_lt_Some in Hx.
  destruct (Nat.ltb_spec (S j) i), (Nat.ltb_spec j i); lia.
Qed.

Lemma add_condition_ok index t i config : config !! i = Some t →
  ∃ t', handleAddCondition index config !! i = Some t' ∧ (tier_ok t → tier_ok t') ∧ (shown t ≠ [] → shown t' ≠ []).
Proof.
  intros Hi. unfold handleAddCondition. rewrite list_lookup_alter. destruct (decide (index = i)) as [->|Hne];
    [|exists t; by rewrite Hi]. rewrite Hi. cbn [fmap option_fmap option_map]. eexists. split; [done|].
  destruct (Nat.leb_spec 2 (length (conds t))) as [H2|H2]; [done|].
  split; [|intros _; by apply shown_snoc]. intros _. split; [|right; by apply shown_snoc].
  change (conds (set_conds ?l t)) with l. rewrite length_app. simpl. lia.
Qed.

Lemma add_tier_length config : length (handleAddTier config) = S (length config).
Proof. unfold handleAddTier. rewrite length_app, length_alter. simpl. lia. Qed.

(** The tiers before the new one: the last of them has been given a condition. *)
Lemma add_tier_old config i t : tiers_ok config → handleAddTier config !! i = Some t → i < length config →
  tier_ok t ∧ shown t ≠ [].
Proof.
  intros (Hne & Hok & Hg) Hi Hlt. unfold handleAddTier in Hi. rewrite lookup_app_l in Hi by (by rewrite length_alter).
  rewrite list_lookup_alter in Hi. destruct (decide (length config - 1 = i)) as [<-|Hni].
  - destruct (config !! (length config - 1)) as [t0|] eqn:E; [|done]. cbn [fmap option_fmap option_map] in Hi.
    injection Hi as <-. destruct (Forall_lookup_1 _ _ _ _ Hok E) as [H2 Hs].
    destruct (conds t0) as [|c l] eqn:Ec; [|].
    + split; [|done]. split; [simpl; lia|by right].
    + destruct Hs as [Hs|Hs]; [done|]. split; [|done]. split; [by rewrite Ec|by right].
  - split; [by apply (Forall_lookup_1 _ _ _ _ Hok Hi)|]. apply (Hg i t Hi). lia.
Qed.

(** Editing the list of tiers keeps it well formed: adding a tier gives the former last one
    a condition if it had none, so that the new one is the only fallback; removing a tier
    never removes the only one; and adding a condition never makes more than two. *)
Theorem tier_edits_well_formed (config : VisualConfig) (index : nat) :
  tiers_ok config →
  tiers_ok (handleAddTier config) ∧ tiers_ok (handleRemoveTier index config) ∧ tiers_ok (handleAddCondition index config).
Proof.
  intros Hall. pose proof Hall as (Hne & Hok & Hg). split_and!.
  - split_and!; [by intros E%(f_equal length); rewrite add_tier_length in E| |].
    + apply Forall_lookup. intros i t Hi. destruct (decide (i < length config)) as [Hlt|Hge];
        [by apply (add_tier_old config i t)|].
      unfold handleAddTier in Hi. rewrite lookup_app_r in Hi by (rewrite length_alter; lia).
      apply list_lookup_singleton_Some in Hi as [_ <-]. split; [simpl; lia|by left].
    + intros i t Hi Hlt. rewrite add_tier_length in Hlt. apply (add_tier_old config i t); [done..|lia].
  - unfold handleRemoveTier. destruct (drop_at index config) as [|t0 l0] eqn:E; [done|]. rewrite <-E. split_and!; [by rewrite E| |].
    + apply Forall_lookup. intros i t Hi. rewrite drop_at_lookup in Hi. by apply (Forall_lookup_1 _ _ _ _ Hok Hi).
    + intros i t Hi Hlt. rewrite drop_at_lookup in Hi. apply (Hg _ _ Hi). by apply drop_at_short.
  - assert (length (handleAddCondition index config) = length config) as Hlen by apply length_alter.
    assert (∀ i t', handleAddCondition index config !! i = Some t' → ∃ t, config !! i = Some t ∧
      (tier_ok t → tier_ok t') ∧ (shown t ≠ [] → shown t' ≠ [])) as Hback.
    { intros i t' Hi. apply lookup_lt_Some in Hi as Hlt. rewrite Hlen in Hlt.
      apply lookup_lt_is_Some in Hlt as [t Ht]. exists t. destruct (add_condition_ok index t i config Ht) as (t1 & H1 & ? & ?).
      rewrite H1 in Hi. by injection Hi as ->. }
    split_and!; [by destruct config, (handleAddCondition index _)| |].
    + apply Forall_lookup. intros i t' Hi. destruct (Hback _ _ Hi) as (t & Ht & Ho & _). by apply Ho, (Forall_lookup_1 _ _ _ _ Hok Ht).
    + intros i t' Hi Hlt. destruct (Hback _ _ Hi) as (t & Ht & _ & Hs). apply Hs, (Hg i t Ht). lia.
Qed.

Section Component.
Context (JSON_parse : jsstr → option value) (to_string : value → jsstr).
Context (Number_ : jsstr → jsnum) (String_ : jsnum → jsstr).

Definition parse_config (text : jsstr) : option VisualConfig := tryParseVisualConfig Number_ String_ (Some text).
Definition parse_rules (text : jsstr) : throws (option (list RequestRuleGroup)) :=
  tryParseRequestRuleExpr JSON_parse to_string text.
Definition split_text (text : jsstr) : throws (jsstr * jsstr) :=
  splitBillingExprAndRequestRules JSON_parse to_string text.

(** The initial state *)
Definition mount (base rules name : jsstr) : throws Editor :=
  try! groups := parse_rules rules in
  Ok (mkEditor VisualMode (parse_config base) (combineBillingExpr base rules) (default [] groups) false
        base rules name None None).

(** ** Rendering *)

Definition canUseVisualRules (e : Editor) : throws bool :=
  if negb (truthy (requestRuleExpr e)) then Ok true
  else try! groups := parse_rules (requestRuleExpr e) in Ok (match groups with Some _ => true | None => false end).

Definition effectiveExpr (e : Editor) : throws jsstr :=
  match editorMode e with
  | VisualMode => Ok (generateExprFromVisualConfig String_ (visualConfig e))
  | RawMode => try! r := split_text (rawExpr e) in Ok (fst r)
  end.

(** The first effect, when it runs. *)
Definition init_effect (e : Editor) : throws Editor :=
  try! groups := parse_rules (requestRuleExpr e) in
  let '(mode, config) :=
    match parse_config (billingExpr e) with
    | Some config => (VisualMode, Some config)
    | None => if truthy (billingExpr e) then (RawMode, None) else (editorMode e, Some createDefaultVisualConfig)
    end in
  Ok (mkEditor mode config (combineBillingExpr (billingExpr e) (requestRuleExpr e)) (default [] groups) true
        (billingExpr e) (requestRuleExpr e) (modelName e) (seen e) (seen_name e)).

Definition texts (e : Editor) : jsstr * jsstr := (billingExpr e, requestRuleExpr e).

Definition texts_changed (e : Editor) : bool := negb (bool_decide (seen e = Some (texts e))).
Definition renamed (e : Editor) : bool := negb (bool_decide (seen_name e = Some (modelName e))).

(** One render and its effects, in their order. *)
Definition commit (e : Editor) : throws Editor :=
  try! _ := canUseVisualRules e in
  try! effective := effectiveExpr e in
  try! e1 := (if texts_changed e && negb (initRef e) then init_effect e else Ok e) in
  let rules := match editorMode e with
               | VisualMode => buildRequestRuleExpr (requestRuleGroups e)
               | RawMode => requestRuleExpr e
               end in
  Ok (mkEditor (editorMode e1) (visualConfig e1) (rawExpr e1) (requestRuleGroups e1)
        (if renamed e then false else initRef e1) effective rules (modelName e)
        (Some (texts e)) (Some (modelName e))).

Fixpoint commits (n : nat) (e : Editor) : throws Editor :=
  match n with O => Ok e | S n => try! e' := commit e in commits n e' end.

(** ** Handlers *)

Definition set_config (c : option VisualConfig) (e : Editor) : Editor :=
  mkEditor (editorMode e) c (rawExpr e) (requestRuleGroups e) (initRef e) (billingExpr e) (requestRuleExpr e)
    (modelName e) (seen e) (seen_name e).
Definition set_editorMode (m : EditorMode) (e : Editor) : Editor :=
  mkEditor m (visualConfig e) (rawExpr e) (requestRuleGroups e) (initRef e) (billingExpr e) (requestRuleExpr e)
    (modelName e) (seen e) (seen_name e).
Definition set_rawExpr (s : jsstr) (e : Editor) : Editor :=
  mkEditor (editorMode e) (visualConfig e) s (requestRuleGroups e) (initRef e) (billingExpr e) (requestRuleExpr e)
    (modelName e) (seen e) (seen_name e).
Definition set_groups (l : list RequestRuleGroup) (e : Editor) : Editor :=
  mkEditor (editorMode e) (visualConfig e) (rawExpr e) l (initRef e) (billingExpr e) (requestRuleExpr e)
    (modelName e) (seen e) (seen_name e).
Definition onRequestRuleExprChange (s : jsstr) (e : Editor) : Editor :=
  mkEditor (editorMode e) (visualConfig e) (rawExpr e) (requestRuleGroups e) (initRef e) (billingExpr e) s
    (modelName e) (seen e) (seen_name e).

Definition handleVisualChange (next : VisualConfig) (e : Editor) : Editor := set_config (Some next) e.
Definition handleRuleGroupsChange (next : list RequestRuleGroup) (e : Editor) : Editor := set_groups next e.

Definition handleRawChange (text : jsstr) (e : Editor) : throws Editor :=
  try! r := split_text text in Ok (onRequestRuleExprChange (snd r) (set_rawExpr text e)).

(** [a || b] *)
Definition handleModeChange (next : EditorMode) (e : Editor) : throws Editor :=
  match next with
  | VisualMode =>
      try! r := split_text (rawExpr e) in
      try! groups := parse_rules (snd r) in
      Ok (set_editorMode VisualMode (onRequestRuleExprChange (snd r) (set_groups (default [] groups)
            (set_config (Some (default createDefaultVisualConfig (parse_config (fst r)))) e))))
  | RawMode =>
      let expr := generateExprFromVisualConfig String_ (visualConfig e) in
      let ruleExpr := buildRequestRuleExpr (requestRuleGroups e) in
      Ok (set_editorMode RawMode (set_rawExpr (str_or (combineBillingExpr expr ruleExpr) expr) e))
  end.

Definition applyPreset (expr : jsstr) (groups : list RequestRuleGroup) (e : Editor) : Editor :=
  let ruleExpr := buildRequestRuleExpr groups in
  let e := set_rawExpr (str_or (combineBillingExpr expr ruleExpr) expr) e in
  let e := match parse_config expr with
           | Some config => set_editorMode VisualMode (set_config (Some config) e)
           | None => set_config None (set_editorMode RawMode e)
           end in
  onRequestRuleExprChange ruleExpr (set_groups groups e).

(** ** The effects settle *)

(** The texts of the page are what the editor holds. *)
Definition in_line (e : Editor) : Prop :=
  effectiveExpr e = Ok (billingExpr e) ∧
  (editorMode e = VisualMode → requestRuleExpr e = buildRequestRuleExpr (requestRuleGroups e)).

Definition settled (e : Editor) : Prop := commit e = Ok e ∧ in_line e.

Lemma commits_S n e e' : commits (S n) e = Ok e' → ∃ e1, commit e = Ok e1 ∧ commits n e1 = Ok e'.
Proof. intros H. by apply result_bind_Ok_inv in H. Qed.

(** What a commit leaves. *)
Lemma commit_Ok e e' : commit e = Ok e' →
  ∃ effective e1 usable, canUseVisualRules e = Ok usable ∧ effectiveExpr e = Ok effective ∧
    (if texts_changed e && negb (initRef e) then init_effect e = Ok e1 else e1 = e) ∧
    e' = mkEditor (editorMode e1) (visualConfig e1) (rawExpr e1) (requestRuleGroups e1)
      (if renamed e then false else initRef e1) effective
      (match editorMode e with VisualMode => buildRequestRuleExpr (requestRuleGroups e) | RawMode => requestRuleExpr e end)
      (modelName e) (Some (texts e)) (Some (modelName e)).
Proof.
  unfold commit. intros H. apply result_bind_Ok_inv in H as (usable & Hu & H).
  apply result_bind_Ok_inv in H as (effective & Heff & H). apply result_bind_Ok_inv in H as (e1 & H1 & H).
  injection H as <-. exists effective, e1, usable. split_and!; try done.
  destruct (_ && _); [done|]. by injection H1.
Qed.

(** A commit that runs no first effect keeps the editor and aligns the page. *)
Lemma quiet_commit e e' : commit e = Ok e' → texts_changed e && negb (initRef e) = false →
  in_line e' ∧ seen e' = Some (texts e) ∧ seen_name e' = Some (modelName e') ∧
  initRef e' = (if renamed e then false else initRef e) ∧
  (in_line e → texts e' = texts e) ∧
  (in_line e → seen e = Some (texts e) → renamed e = false → e' = e).
Proof.
  intros Hc Hq. apply commit_Ok in Hc as (eff & e1 & u & _ & Heff & He1 & ->). rewrite Hq in He1. subst e1.
  split_and!; try done.
  - split; [exact Heff|]. cbn [editorMode requestRuleExpr requestRuleGroups]. by intros ->.
  - intros [H1 H2]. rewrite Heff in H1. injection H1 as ->. unfold texts. simpl. f_equal.
    destruct (editorMode e); [by rewrite H2|done].
  - intros [H1 H2] Hs Hr. rewrite Heff in H1. injection H1 as ->. rewrite Hr.
    unfold renamed in Hr. apply negb_false_iff, bool_decide_eq_true in Hr. destruct e; simpl in *. f_equal; try done.
    destruct editorMode0; [by rewrite H2|done].
Qed.

(** In line, with nothing left to notice. *)
Lemma commit_fixed e e' : commit e = Ok e' → in_line e → seen e = Some (texts e) → renamed e = false →
  e' = e ∧ settled e.
Proof.
  intros Hc Hl Hs Hr. assert (texts_changed e = false) as Ht.
  { unfold texts_changed. by rewrite bool_decide_true. }
  destruct (quiet_commit e e' Hc) as (_ & _ & _ & _ & _ & Heq); [by rewrite Ht|].
  assert (e' = e) as -> by (by apply Heq). by split; [|split].
Qed.

Lemma commits_fixed n e e' : commits n e = Ok e' → in_line e → seen e = Some (texts e) → renamed e = false →
  0 < n → e' = e ∧ settled e.
Proof.
  intros Hc Hl Hs Hr Hn. destruct n as [|n]; [lia|]. apply commits_S in Hc as (e1 & H1 & Hc).
  destruct (commit_fixed e e1 H1 Hl Hs Hr) as [-> Hset]. split; [|done]. clear Hn.
  induction n as [|n IH]; [by injection Hc|]. apply commits_S in Hc as (e2 & H2 & Hc). apply IH. congruence.
Qed.

Lemma renamed_false e : seen_name e = Some (modelName e) → renamed e = false.
Proof. intros H. unfold renamed. by rewrite bool_decide_true. Qed.

(** Once initialized, two commits settle everything; the third finds nothing to do. *)
Lemma settle_initialized n e e' : commits (S (S (S n))) e = Ok e' → initRef e = true → renamed e = false → settled e'.
Proof.
  intros Hc Hi Hr. apply commits_S in Hc as (e1 & H1 & Hc). apply commits_S in Hc as (e2 & H2 & Hc).
  assert (∀ x, initRef x = true → texts_changed x && negb (initRef x) = false) as Hq
    by (intros x ->; by rewrite andb_false_r).
  destruct (quiet_commit _ _ H1 (Hq e Hi)) as (Hl1 & _ & Hn1 & Hi1 & _). rewrite Hr in Hi1. rewrite Hi in Hi1.
  destruct (quiet_commit _ _ H2 (Hq e1 Hi1)) as (Hl2 & Hs2 & Hn2 & _ & Ht2 & _).
  destruct (commits_fixed _ _ _ Hc Hl2) as [-> Hset]; [by rewrite Ht2|by apply renamed_false|lia|done].
Qed.

Lemma settle_named n e e' : commits (S (S (S (S n)))) e = Ok e' → texts_changed e = true → renamed e = false → settled e'.
Proof.
  intros Hc Ht Hr. destruct (initRef e) eqn:Hi; [by apply settle_initialized in Hc|].
  apply commits_S in Hc as (e1 & H1 & Hc). apply commit_Ok in H1 as (eff & e0 & u & _ & _ & He0 & ->).
  rewrite Ht, Hi in He0. cbn [andb negb] in He0. rewrite Hr in Hc.
  assert (initRef e0 = true) as Hi0.
  { unfold init_effect in He0. apply result_bind_Ok_inv in He0 as (gs & _ & He0).
    repeat case_match; by injection He0 as <-. }
  rewrite Hi0 in Hc. eapply settle_initialized; [exact Hc|done|by apply renamed_false].
Qed.

Lemma settle_any n e e' : commits (S (S (S (S (S n))))) e = Ok e' → renamed e = false → settled e'.
Proof.
  intros Hc Hr. destruct (texts_changed e) eqn:Ht; [by apply (settle_named (S n) e)|].
  apply commits_S in Hc as (e1 & H1 & Hc). destruct (quiet_commit _ _ H1) as (Hl1 & Hs1 & Hn1 & Hi1 & _); [by rewrite Ht|].
  destruct (texts_changed e1) eqn:Ht1; [apply (settle_named n e1); [done..|by apply renamed_false]|].
  unfold texts_changed in Ht1. apply negb_false_iff, bool_decide_eq_true in Ht1.
  destruct (commits_fixed _ _ _ Hc Hl1 Ht1) as [-> Hset]; [by apply renamed_false|lia|done].
Qed.

(** Renders throw only where a text does not parse. *)
Lemma split_total text : (∀ t, ∃ r, parse_rules t = Ok r) → ∃ r, split_text text = Ok r.
Proof.
  intros Hp. unfold split_text, splitBillingExprAndRequestRules.
  destruct (negb _); [by eexists|]. destruct (length _ <=? 1)%nat; [by eexists|].
  assert (∀ parts, ∃ r, sort_parts JSON_parse to_string parts = Ok r) as Hs.
  { induction parts as [|part parts [r Hr] ]; [by eexists|]. cbn [sort_parts]. unfold is_rule_part.
    destruct (Hp part) as [g Hg]. unfold parse_rules in Hg. rewrite Hg. cbn [result_bind]. rewrite Hr.
    cbn [result_bind]. by eexists. }
  destruct (Hs (splitTopLevelMultiply (trim text))) as [r ->]. cbn [result_bind]. by eexists.
Qed.

Lemma commit_total e : (∀ t, ∃ r, parse_rules t = Ok r) → ∃ e', commit e = Ok e'.
Proof.
  intros Hp. unfold commit.
  assert (∃ u, canUseVisualRules e = Ok u) as [u ->].
  { unfold canUseVisualRules. destruct (negb _); [by eexists|]. destruct (Hp (requestRuleExpr e)) as [r ->]. by eexists. }
  assert (∃ x, effectiveExpr e = Ok x) as [x ->].
  { unfold effectiveExpr. destruct (editorMode e); [by eexists|]. destruct (split_total (rawExpr e) Hp) as [r ->].
    by eexists. }
  cbn [result_bind]. destruct (_ && _); [|by eexists]. unfold init_effect.
  destruct (Hp (requestRuleExpr e)) as [r ->]. cbn [result_bind].
  destruct (match parse_config _ with Some _ => _ | None => _ end). by eexists.
Qed.

Lemma commits_total n e : (∀ t, ∃ r, parse_rules t = Ok r) → ∃ e', commits n e = Ok e'.
Proof.
  intros Hp. revert e. induction n as [|n IH]; intros e; [by eexists|]. destruct (commit_total e Hp) as [e1 H1].
  cbn [commits]. rewrite H1. apply IH.
Qed.

(** Renders leave an initialized expression editor alone: its text, and the text of the rules. *)
Lemma raw_kept n e e' : editorMode e = RawMode → initRef e = true → renamed e = false → commits n e = Ok e' →
  editorMode e' = RawMode ∧ rawExpr e' = rawExpr e ∧ requestRuleExpr e' = requestRuleExpr e.
Proof.
  revert e. induction n as [|n IH]; intros e Hm Hi Hr Hc; [by injection Hc as <-|].
  apply commits_S in Hc as (e1 & H1 & Hc). apply commit_Ok in H1 as (eff & e0 & u & _ & _ & He0 & ->).
  rewrite Hi, andb_false_r in He0. subst e0. apply IH in Hc as (? & ? & ?).
  - cbn [requestRuleExpr rawExpr] in *. rewrite Hm in *. done.
  - done.
  - cbn. by rewrite Hr.
  - by apply renamed_false.
Qed.

Lemma raw_settles e e' : editorMode e = RawMode → initRef e = true → renamed e = false → commits 6 e = Ok e' →
  rawExpr e' = rawExpr e ∧ requestRuleExpr e' = requestRuleExpr e ∧
  (try! r := split_text (rawExpr e) in Ok (fst r)) = Ok (billingExpr e').
Proof.
  intros Hm Hi Hr Hc. destruct (raw_kept 6 e e' Hm Hi Hr Hc) as (Hm' & Hx & Hq).
  split_and!; [done..|]. destruct (settle_initialized 3 e e' Hc Hi Hr) as [_ [He _] ].
  unfold effectiveExpr in He. by rewrite Hm', Hx in He.
Qed.

(** [C22] The effects come to rest: from whatever state an edit, a switch, a preset, a rename or
    the opening of a price leaves, six renders later nothing changes any more. The text of the
    price is then that of the tiers shown, or the price in the expression shown; the text of the
    rules is that of the rules shown in the visual editor, and in the expression editor, once an
    edit has initialized it, that of the rules in the expression that was typed last. Renders
    throw only if reading some text of rules throws. *)
Theorem effects_settle (e : Editor) :
  (∀ e', commits 6 e = Ok e' →
    commit e' = Ok e' ∧ effectiveExpr e' = Ok (billingExpr e') ∧
    (editorMode e' = VisualMode → requestRuleExpr e' = buildRequestRuleExpr (requestRuleGroups e'))) ∧
  (∀ text e1 e', editorMode e = RawMode → initRef e = true → renamed e = false →
    handleRawChange text e = Ok e1 → commits 6 e1 = Ok e' →
    rawExpr e' = text ∧ split_text text = Ok (texts e')) ∧
  ((∀ text, ∃ r, parse_rules text = Ok r) → ∃ e', commits 6 e = Ok e').
Proof.
  split_and!; [| |apply commits_total].
  - intros e' Hc. apply commits_S in Hc as (e1 & H1 & Hc).
    apply (settle_any 0) in Hc as [Hf [Hl1 Hl2] ]; [done|].
    apply commit_Ok in H1 as (? & ? & ? & _ & _ & _ & ->). by apply renamed_false.
  - intros text e1 e' Hm Hi Hr He1 Hc. unfold handleRawChange in He1.
    apply result_bind_Ok_inv in He1 as ([base rules] & Hs & He1). injection He1 as <-.
    apply raw_settles in Hc as (Hx & Hq & Hb); [|done..]. split; [done|].
    cbn [rawExpr onRequestRuleExprChange set_rawExpr] in Hb. rewrite Hs in *. injection Hb as Hb.
    unfold texts. by rewrite Hq, <- Hb.
Qed.

(** Switching to the expression doubles rules that cannot be read back: the expression shown is
    the price with the rules, which the page takes for the price as a whole, while it keeps the
    text of the rules, so that saving joins them once more. *)
Theorem unread_rules_doubled (e e1 e' : Editor) :
  settled e → editorMode e = VisualMode → initRef e = true → renamed e = false →
  let whole := combineBillingExpr (billingExpr e) (requestRuleExpr e) in
  whole ≠ [] → split_text whole = Ok (whole, []) →
  handleModeChange RawMode e = Ok e1 → commits 6 e1 = Ok e' →
  texts e' = (whole, requestRuleExpr e) ∧
  combineBillingExpr (billingExpr e') (requestRuleExpr e') = combineBillingExpr whole (requestRuleExpr e).
Proof.
  intros [_ [Heff Hrules] ] Hm Hi Hr whole Hne Hs He1 Hc. injection He1 as <-. specialize (Hrules Hm).
  unfold effectiveExpr in Heff. rewrite Hm in Heff. injection Heff as Heff.
  apply raw_settles in Hc as (_ & Hq & Hb); [|done..].
  cbn [rawExpr set_editorMode set_rawExpr requestRuleExpr] in *.
  rewrite Heff, <- Hrules in Hb. fold whole in Hb.
  assert (str_or whole (billingExpr e) = whole) as Hw by (by destruct whole). rewrite Hw, Hs in Hb.
  injection Hb as Hb. unfold texts. by rewrite Hq, <- Hb.
Qed.

(** ** Opening a price *)

Lemma commits_fixpoint n e : commit e = Ok e → commits n e = Ok e.
Proof. intros Hc. induction n as [|n IH]; [done|]. cbn [commits]. by rewrite Hc. Qed.

Section Written.
Context (cfg : VisualConfig) (gs : list RequestRuleGroup) (name : jsstr).
Context (Hj : reads_strings JSON_parse to_string) (Hgs : forallb supported_group gs = true).
Context (Hne : cfg ≠ []) (Hp : Forall (plain_tier Number_ String_) cfg) (Hg : guarded cfg).
Context (Hl : Forall (λ t, no_parens (default [] (label t)) = true) cfg).

Definition written_base : jsstr := generateExprFromVisualConfig String_ (Some cfg).
Definition written_rules : jsstr := buildRequestRuleExpr gs.

Lemma written_config : parse_config written_base = Some (canonical Number_ String_ cfg) ∧
  generateExprFromVisualConfig String_ (Some (canonical Number_ String_ cfg)) = written_base.
Proof using Hne Hp Hg. by apply editor_reads_back. Qed.

Lemma written_groups : parse_rules written_rules = Ok (Some gs).
Proof using Hj Hgs. by apply saved_rules_read. Qed.

Lemma written_splits : split_text (combineBillingExpr written_base written_rules) = Ok (written_base, written_rules).
Proof using Hj Hgs Hne Hp Hl. by apply (saved_price_splits _ _ Number_). Qed.

(** The editor at rest on what was written. *)
Definition at_rest (m : EditorMode) (i : bool) : Editor :=
  mkEditor m (Some (canonical Number_ String_ cfg)) (combineBillingExpr written_base written_rules) gs i
    written_base written_rules name (Some (written_base, written_rules)) (Some name).

Lemma usable e : requestRuleExpr e = written_rules → ∃ u, canUseVisualRules e = Ok u.
Proof using Hj Hgs.
  intros Hr. unfold canUseVisualRules. rewrite Hr, written_groups. destruct (negb _); by eexists.
Qed.

Lemma rest_visual i : commit (at_rest VisualMode i) = Ok (at_rest VisualMode i).
Proof using All.
  destruct (usable (at_rest VisualMode i) eq_refl) as [u Hu]. unfold commit. rewrite Hu. cbn [result_bind].
  unfold effectiveExpr. cbn [at_rest editorMode visualConfig result_bind]. rewrite (proj2 written_config).
  unfold texts_changed, renamed. rewrite !bool_decide_true by done. reflexivity.
Qed.

Lemma opened : ∃ e0, mount written_base written_rules name = Ok e0 ∧ commit e0 = Ok (at_rest VisualMode false).
Proof using All.
  unfold mount. rewrite written_groups. cbn [result_bind default from_option id]. rewrite (proj1 written_config).
  eexists. split; [done|]. match goal with |- commit ?e = _ => destruct (usable e eq_refl) as [u Hu]; unfold commit; rewrite Hu end.
  cbn [result_bind effectiveExpr editorMode visualConfig]. rewrite (proj2 written_config).
  unfold texts_changed, init_effect. cbn [seen texts initRef billingExpr requestRuleExpr andb negb].
  rewrite bool_decide_false by done. cbn [negb andb]. rewrite written_groups, (proj1 written_config). reflexivity.
Qed.

(** In the expression editor, on the text of both. *)
Lemma rest_raw i : commit (at_rest RawMode i) = Ok (at_rest RawMode i).
Proof using All.
  destruct (usable (at_rest RawMode i) eq_refl) as [u Hu]. unfold commit. rewrite Hu. cbn [result_bind].
  unfold effectiveExpr. cbn [at_rest editorMode rawExpr result_bind]. rewrite written_splits. cbn [result_bind fst].
  unfold texts_changed, renamed. rewrite !bool_decide_true by done. reflexivity.
Qed.

Lemma switched_raw i : handleModeChange RawMode (at_rest VisualMode i) = Ok (at_rest RawMode i).
Proof using All.
  destruct (saved_price_trimmed Number_ String_ cfg Hne Hp Hl) as [Ht Htr]. fold written_base in Ht, Htr.
  unfold handleModeChange. cbn [at_rest visualConfig requestRuleGroups]. rewrite (proj2 written_config).
  unfold set_editorMode, set_rawExpr. simpl. unfold at_rest. do 2 f_equal. unfold str_or.
  enough (truthy (combineBillingExpr written_base (buildRequestRuleExpr gs)) = true) as -> by done.
  unfold combineBillingExpr. rewrite Ht, Htr. cbn [negb]. by destruct (negb _).
Qed.

Lemma switched_visual i : handleModeChange VisualMode (at_rest RawMode i) = Ok (at_rest VisualMode i).
Proof using All.
  unfold handleModeChange. cbn [at_rest rawExpr]. rewrite written_splits. cbn [result_bind fst snd].
  rewrite written_groups. cbn [result_bind]. rewrite (proj1 written_config). reflexivity.
Qed.

End Written.

(** Opening a price and switching the editor lose nothing: a price the editor wrote opens
    with its tiers and rules, after one render nothing changes, and switching to the
    expression and back shows the same tiers and rules, and at no time changes what would
    be saved. *)
Theorem written_price_opens (cfg : VisualConfig) (gs : list RequestRuleGroup) (name : jsstr) :
  reads_strings JSON_parse to_string → forallb supported_group gs = true →
  cfg ≠ [] → Forall (plain_tier Number_ String_) cfg → guarded cfg →
  Forall (λ t, no_parens (default [] (label t)) = true) cfg →
  let base := generateExprFromVisualConfig String_ (Some cfg) in
  let rules := buildRequestRuleExpr gs in
  let shows e := visualConfig e = Some (canonical Number_ String_ cfg) ∧ requestRuleGroups e = gs ∧
    texts e = (base, rules) ∧ ∀ n, commits n e = Ok e in
  ∃ e0 visual raw,
    mount base rules name = Ok e0 ∧ commit e0 = Ok visual ∧ shows visual ∧ editorMode visual = VisualMode ∧
    handleModeChange RawMode visual = Ok raw ∧ shows raw ∧ rawExpr raw = combineBillingExpr base rules ∧
    handleModeChange VisualMode raw = Ok visual.
Proof.
  intros Hj Hgs Hne Hp Hg Hl base rules shows.
  destruct (opened cfg gs name Hj Hgs Hne Hp Hg Hl) as (e0 & He0 & Hc).
  exists e0, (at_rest cfg gs name VisualMode false), (at_rest cfg gs name RawMode false).
  refine (conj He0 (conj Hc (conj _ (conj eq_refl (conj _ (conj _ (conj eq_refl _))))))).
  - unfold shows. split_and!; try done. intros n. apply commits_fixpoint. by apply rest_visual.
  - by apply switched_raw.
  - unfold shows. split_and!; try done. intros n. apply commits_fixpoint. by apply rest_raw.
  - by apply switched_visual.
Qed.

(** Opening a price erases rules the editor cannot read: when the tiers can be read but
    the rules cannot, the effects replace the rules the page would save by none, before
    anything is edited, and the notice that asks to switch to the expression is gone. *)
Theorem unread_rules_erased (base rules name : jsstr) (config : VisualConfig) :
  parse_config base = Some config → generateExprFromVisualConfig String_ (Some config) = base →
  parse_rules rules = Ok None →
  ∃ e0 e, mount base rules name = Ok e0 ∧ commits 2 e0 = Ok e ∧ commit e = Ok e ∧
    billingExpr e = base ∧ requestRuleExpr e = [] ∧ requestRuleGroups e = [] ∧ canUseVisualRules e = Ok true.
Proof.
  intros Hb Hgen Hr. assert (rules ≠ []) as Hne by (by intros ->).
  unfold mount. rewrite Hr. cbn [result_bind default from_option id]. rewrite Hb. eexists _, _. split; [done|].
  assert (truthy rules = true) as Htr by (by apply truthy_spec).
  assert (commit (mkEditor VisualMode (Some config) (combineBillingExpr base rules) [] false base rules name None None) =
    Ok (mkEditor VisualMode (Some config) (combineBillingExpr base rules) [] false base [] name
          (Some (base, rules)) (Some name))) as H1.
  { unfold commit, canUseVisualRules. cbn [requestRuleExpr]. rewrite Htr, Hr.
    cbn [negb result_bind effectiveExpr editorMode visualConfig]. rewrite Hgen.
    unfold texts_changed, init_effect. cbn [seen texts initRef billingExpr requestRuleExpr].
    rewrite bool_decide_false by done. cbn [negb andb]. rewrite Hr, Hb. reflexivity. }
  assert (commit (mkEditor VisualMode (Some config) (combineBillingExpr base rules) [] false base [] name
          (Some (base, rules)) (Some name)) =
    Ok (mkEditor VisualMode (Some config) (combineBillingExpr base []) [] true base [] name
          (Some (base, [])) (Some name))) as H2.
  { unfold commit, canUseVisualRules. cbn [requestRuleExpr truthy negb].
    cbn [result_bind effectiveExpr editorMode visualConfig]. rewrite Hgen.
    unfold texts_changed, init_effect. cbn [seen texts initRef billingExpr requestRuleExpr].
    rewrite bool_decide_false by (intros Heq; injection Heq; done). cbn [negb andb]. change (parse_rules []) with (@Ok unit _ (Some (@nil RequestRuleGroup))).
    rewrite Hb. cbn [result_bind]. unfold renamed. cbn [seen_name modelName]. by rewrite bool_decide_true. }
  cbn [commits]. rewrite H1. cbn [result_bind]. rewrite H2. split; [done|]. split_and!; try done.
  unfold commit, canUseVisualRules. cbn [requestRuleExpr truthy negb].
  cbn [result_bind effectiveExpr editorMode visualConfig]. rewrite Hgen. unfold texts_changed, renamed.
  cbn [seen texts initRef billingExpr requestRuleExpr seen_name modelName]. by rewrite !bool_decide_true.
Qed.

End Component.

(** ** Concrete prices *)

Lemma tier_edits_well_formed_witness :
  let config := [new_tier 0] in
  tiers_ok config ∧ tiers_ok (handleAddTier config) ∧ map (λ t, length (conds t)) (handleAddTier config) = [1; 0].
Proof.
  intros config. assert (tiers_ok config) as Hc.
  { split_and!; [done| |].
    - apply Forall_singleton. split; [simpl; lia|by left].
    - intros [|i] t Ht Hi; [simpl in Hi; lia|done]. }
  split_and!; [done| |reflexivity]. by apply (tier_edits_well_formed config 0).
Defined.

Lemma sample_guarded : guarded sample_config.
Proof. intros [|[|i] ] t Ht Hi; [by injection Ht as <-|simpl in Hi; lia|done]. Qed.

Lemma written_price_opens_witness :
  let base := generateExprFromVisualConfig sample_String (Some sample_config) in
  let rules := buildRequestRuleExpr sample_rules in
  ∃ e0 e, mount simple_JSON_parse simple_String sample_Number sample_String base rules (js "m") = Ok e0 ∧
    commit simple_JSON_parse simple_String sample_Number sample_String e0 = Ok e ∧ texts e = (base, rules) ∧
    requestRuleGroups e = sample_rules.
Proof.
  destruct (written_price_opens simple_JSON_parse simple_String sample_Number sample_String sample_config sample_rules
    (js "m")) as (e0 & e & raw & H0 & Hc & (_ & Hg & Ht & _) & _).
  - apply simple_reads_strings.
  - vm_compute. reflexivity.
  - discriminate.
  - apply sample_config_ok.
  - apply sample_guarded.
  - repeat constructor.
  - exists e0, e. done.
Defined.

(** A rule on a parameter, as the editor itself writes it. *)
Definition comparison : list RequestRuleGroup :=
  [mkGroup [ParamHeaderCondition Param (js "max_tokens") MATCH_GT (js "1000")] (js "2")].

Lemma unread_rules_erased_witness :
  let base := generateExprFromVisualConfig sample_String (Some sample_config) in
  ∃ e0 e, mount simple_JSON_parse simple_String sample_Number sample_String base (buildRequestRuleExpr comparison) (js "m") = Ok e0 ∧
    commits simple_JSON_parse simple_String sample_Number sample_String 2 e0 = Ok e ∧
    buildRequestRuleExpr comparison ≠ [] ∧ requestRuleExpr e = [].
Proof.
  destruct (editor_reads_back sample_Number sample_String sample_config) as [Hp Hg];
    [discriminate|apply sample_config_ok|apply sample_guarded|].
  destruct (unread_rules_erased simple_JSON_parse simple_String sample_Number sample_String
    (generateExprFromVisualConfig sample_String (Some sample_config)) (buildRequestRuleExpr comparison) (js "m")
    (canonical sample_Number sample_String sample_config)) as (e0 & e & H0 & Hc & _ & _ & Hr & _).
  - exact Hp.
  - exact Hg.
  - vm_compute. reflexivity.
  - exists e0, e. split_and!; [exact H0|exact Hc|by vm_compute|exact Hr].
Defined.

Lemma effects_settle_witness :
  let base := generateExprFromVisualConfig sample_String (Some sample_config) in
  let e := mkEditor VisualMode None [] [] false base [] (js "m") None None in
  ∃ e', commits (λ _, Some Null) simple_String sample_Number sample_String 6 e = Ok e' ∧
    commit (λ _, Some Null) simple_String sample_Number sample_String e' = Ok e'.
Proof.
  intros base e. destruct (effects_settle (λ _, Some Null) simple_String sample_Number sample_String e) as [Hs _].
  destruct (commits (λ _, Some Null) simple_String sample_Number sample_String 6 e) as [e'|] eqn:E; [|by vm_compute in E].
  exists e'. split; [done|]. by apply (Hs e').
Defined.

(** The editor at rest with a comparison among its rules, and switched to the expression. *)
Definition sample_base : jsstr := generateExprFromVisualConfig sample_String (Some sample_config).
Definition sample_compared : Editor :=
  mkEditor VisualMode (Some sample_config) [] comparison true sample_base (buildRequestRuleExpr comparison) (js "m")
    (Some (sample_base, buildRequestRuleExpr comparison)) (Some (js "m")).
Definition sample_switched : Editor :=
  set_editorMode RawMode (set_rawExpr (combineBillingExpr sample_base (buildRequestRuleExpr comparison)) sample_compared).

Lemma unread_rules_doubled_witness :
  let rules := buildRequestRuleExpr comparison in
  ∃ e', commits simple_JSON_parse simple_String sample_Number sample_String 6 sample_switched = Ok e' ∧ texts e' = (combineBillingExpr sample_base rules, rules) ∧ rules ≠ [].
Proof.
  intros rules.
  destruct (commits simple_JSON_parse simple_String sample_Number sample_String 6 sample_switched) as [e'|] eqn:E; [|by vm_compute in E]. exists e'. split; [done|].
  split; [|by vm_compute].
  apply (unread_rules_doubled simple_JSON_parse simple_String sample_Number sample_String sample_compared sample_switched e').
  - split; [by vm_compute|]. split; [by vm_compute|]. intros _. by vm_compute.
  - by vm_compute.
  - by vm_compute.
  - by vm_compute.
  - by vm_compute.
  - by vm_compute.
  - by vm_compute.
  - exact E.
Defined.

End TierEditor.
