(* ===== verification/ModelPricing.v ===== *)
(** * Prices of models: the table, its editor and what they save
      (web/src/features/system-settings/models/model-pricing-snapshots.ts, model-pricing-core.ts,
      model-pricing-sheet.tsx, model-ratio-visual-editor.tsx, pricing-format.ts and
      web/src/features/system-settings/utils/json-parser.ts)

    The server keeps the prices as ten texts, each of which holds an object from names of
    models to numbers (or to texts: the mode and the expression of tiered prices). The table
    reads them into one row per model, an editor changes one row, and saving writes all ten.

    A text that holds something else than an object makes the code throw or lose edits, and is
    outside the model ([None]); so are the names of [Object.prototype], which objects inherit.
    Arithmetic on doubles is a parameter. A field that is [undefined] is the empty text, which
    the code never tells apart. *)
From S2P Require Import Prelude JsString JsMap JsValue Json Regex BillingExpr TierExpr TierView BillingEditor.
From Stdlib Require Qcanon.
Local Open Scope js_scope.
Import Json.

Module ModelPricing.
Import Billing.

(** ** Doubles *)

Class Doubles := {
  Number_ : jsstr → jsnum; parseFloat : jsstr → jsnum; String_ : jsnum → jsstr;
  num_mul : jsnum → jsnum → jsnum; num_div : jsnum → jsnum → jsnum; num_sub : jsnum → jsnum → jsnum;
  num_abs : jsnum → jsnum; math_round : jsnum → jsnum; num_pow10 : nat → jsnum; toFixed : nat → jsnum → jsstr;
  SNAP_EPSILON : jsnum; EPSILON : jsnum }.

(** ** Data *)

Inductive PriceField :=
| fPrice | fRatio | fCache | fCreateCache | fCompletion | fImage | fAudio | fAudioCompletion.

#[export] Instance PriceField_eq_dec : EqDecision PriceField.
Proof. solve_decision. Defined.

Definition price_fields : list PriceField :=
  [fPrice; fRatio; fCache; fCreateCache; fCompletion; fImage; fAudio; fAudioCompletion].

(** The ten texts *)
Inductive MapField := Prices (f : PriceField) | BillingModes | BillingExprs.

#[export] Instance MapField_eq_dec : EqDecision MapField.
Proof. solve_decision. Defined.

Definition map_fields : list MapField := map Prices price_fields ++ [BillingModes; BillingExprs].

Abbreviation fields := (list (jsstr * value)).

Definition Texts : Type := MapField → jsstr.
Definition Maps : Type := MapField → fields.

Inductive PricingMode := PerToken | PerRequest | TieredExpr.

#[export] Instance PricingMode_eq_dec : EqDecision PricingMode.
Proof. solve_decision. Defined.

Record ModelRatioData := mkData {
  d_name : jsstr; d_field : PriceField → jsstr; billingMode : PricingMode;
  billingExpr : jsstr; requestRuleExpr : jsstr }.

Record ModelPricingSnapshot := mkSnapshot {
  s_name : jsstr; s_field : PriceField → jsstr; s_mode : PricingMode;
  s_expr : jsstr; s_rules : jsstr; hasConflict : bool }.

Definition tiered_expr : jsstr := js "tiered_expr".

Section Pricing.
Context {JS : Json} {DB : Doubles}.

(** ** Reading the texts *)

(** [safeJsonParse(text, { fallback: {} })] *)
Definition safeJsonParse (text : jsstr) : option fields :=
  if negb (truthy text) || negb (truthy (trim text)) then Some []
  else
    match JSON_parse (trim text) with
    | None => Some []
    | Some (Obj f) => Some f
    | Some _ => None
    end.

Definition read_maps (x : Texts) : option Maps :=
  if forallb (λ f, match safeJsonParse (x f) with Some _ => true | None => false end) map_fields
  then Some (λ f, default [] (safeJsonParse (x f))) else None.

Definition write_maps (m : Maps) : Texts := λ f, JSON_pretty (Obj (m f)).

(** ** Rows *)

(** [map[name]?.toString() || ''] *)
Definition entry_text (v : option value) : jsstr :=
  match v with None | Some Undef | Some Null => [] | Some v => to_str v end.

Definition is_tiered (v : option value) : bool := match v with Some (Str s) => streq s tiered_expr | _ => false end.

Definition split_expr : jsstr → throws (jsstr * jsstr) := splitBillingExprAndRequestRules JSON_parse to_str.

(** [splitBillingExprAndRequestRules(map[name] || '')], which throws on what is no text *)
Definition split_entry (v : option value) : throws (jsstr * jsstr) :=
  match v with
  | Some (Str s) => split_expr s
  | Some v => if value_truthy v then Throw tt else split_expr []
  | None => split_expr []
  end.

Definition ratio_fields : list PriceField := [fRatio; fCompletion; fCache; fCreateCache; fImage; fAudio; fAudioCompletion].

Definition snapshot_of (m : Maps) (name : jsstr) : throws ModelPricingSnapshot :=
  let text f := entry_text (jm_get name (m (Prices f))) in
  if is_tiered (jm_get name (m BillingModes)) then
    try! r := split_entry (jm_get name (m BillingExprs)) in
    Ok (mkSnapshot name text TieredExpr (fst r) (snd r) false)
  else
    Ok (mkSnapshot name text (if truthy (text fPrice) then PerRequest else PerToken) [] []
         (truthy (text fPrice) && existsb (λ f, truthy (text f)) ratio_fields)).

Fixpoint all_rows (m : Maps) (names : list jsstr) : throws (list ModelPricingSnapshot) :=
  match names with
  | [] => Ok []
  | name :: names => try! s := snapshot_of m name in try! l := all_rows m names in Ok (s :: l)
  end.

Definition model_names (m : Maps) : list jsstr := new_Set (concat (map (λ f, jm_keys (m f)) map_fields)).

Definition buildModelSnapshots (x : Texts) : option (throws (list ModelPricingSnapshot)) :=
  (λ m, all_rows m (model_names m)) <$> read_maps x.

Definition isBasePricingUnset (s : option ModelPricingSnapshot) : bool :=
  match s with
  | None => true
  | Some s => negb (bool_decide (s_mode s = TieredExpr)) && negb (truthy (s_field s fPrice)) && negb (truthy (s_field s fRatio))
  end.

(** ** Saving *)

Definition setIfPresent (target : fields) (name v : jsstr) : fields :=
  if negb (truthy v) then target
  else let parsed := parseFloat v in if isFinite parsed then jm_set name (Num parsed) target else target.

(** The loop body of [persistPricingData] *)
Definition persist_one (data : ModelRatioData) (m : Maps) (name : jsstr) : Maps :=
  let cleared f := jm_delete name (m f) in
  let combined := combineBillingExpr (billingExpr data) (requestRuleExpr data) in
  let set f := setIfPresent (cleared (Prices f)) name (d_field data f) in
  match billingMode data with
  | TieredExpr => λ f,
      match f with
      | Prices f => set f
      | BillingModes => if truthy combined then jm_set name (Str tiered_expr) (cleared BillingModes) else cleared BillingModes
      | BillingExprs => if truthy combined then jm_set name (Str combined) (cleared BillingExprs) else cleared BillingExprs
      end
  | _ =>
      if truthy (d_field data fPrice)
      then λ f, match f with Prices fPrice => set fPrice | _ => cleared f end
      else λ f, match f with Prices fPrice => cleared f | Prices f => set f | _ => cleared f end
  end.

Definition persistPricingData (data : ModelRatioData) (targetNames : list jsstr) (x : Texts) : option Texts :=
  (λ m, write_maps (foldl (persist_one data) m targetNames)) <$> read_maps x.

Definition handleDelete (name : jsstr) (x : Texts) : option Texts :=
  (λ m, write_maps (λ f, jm_delete name (m f))) <$> read_maps x.

(** ** Numbers of prices (pricing-format.ts) *)

Definition DISPLAY_DECIMALS : nat := 12.
Definition SNAP_DECIMALS : nat := 8.

Definition roundToDecimals (v : jsnum) (decimals : nat) : jsnum :=
  num_div (math_round (num_mul v (num_pow10 decimals))) (num_pow10 decimals).

Fixpoint snap_loop (v tolerance : jsnum) (decimals : list nat) : jsnum :=
  match decimals with
  | [] => v
  | d :: decimals =>
      if num_le (num_abs (num_sub v (roundToDecimals v d))) tolerance then roundToDecimals v d
      else snap_loop v tolerance decimals
  end.

Definition snapFloatDrift (v : jsnum) : jsnum :=
  snap_loop v (math_max SNAP_EPSILON (num_mul (num_mul (num_abs v) EPSILON) (num_of_Z 8))) (seq 0 (S SNAP_DECIMALS)).

Definition formatPricingNumber (v : jsnum) : jsstr :=
  if isFinite v then String_ (parseFloat (toFixed DISPLAY_DECIMALS (snapFloatDrift v))) else [].

Definition toNumberOrNull (v : jsstr) : option jsnum :=
  if negb (truthy v) then None else let num := Number_ v in if isFinite num then Some num else None.

(** ** The editor of a model (model-pricing-core.ts, model-pricing-sheet.tsx) *)

Inductive LaneKey := lCompletion | lCache | lCreateCache | lImage | lAudioInput | lAudioOutput.

#[local] Instance LaneKey_eq_dec : EqDecision LaneKey.
Proof. solve_decision. Defined.

Definition lanes : list LaneKey := [lCompletion; lCache; lCreateCache; lImage; lAudioInput; lAudioOutput].

Definition ratioFieldByLane (lane : LaneKey) : PriceField :=
  match lane with
  | lCompletion => fCompletion | lCache => fCache | lCreateCache => fCreateCache | lImage => fImage
  | lAudioInput => fAudio | lAudioOutput => fAudioCompletion
  end.

Definition upd {K V} `{EqDecision K} (f : K → V) (k : K) (v : V) : K → V := λ x, if decide (x = k) then v else f x.

Record Panel := mkPanel {
  pricingMode : PricingMode; promptPrice : jsstr; lanePrices : LaneKey → jsstr; laneEnabled : LaneKey → bool;
  p_expr : jsstr; p_rules : jsstr; p_name : jsstr; values : PriceField → jsstr }.

Definition ratioToBasePrice (ratio : jsstr) : jsstr :=
  match toNumberOrNull ratio with Some n => formatPricingNumber (num_mul n (num_of_Z 2)) | None => [] end.

Definition deriveLanePrice (ratio denominator : jsstr) : jsstr :=
  match toNumberOrNull ratio, toNumberOrNull denominator with
  | Some r, Some d => formatPricingNumber (num_mul r d)
  | _, _ => []
  end.

(** [createInitialLaneState] *)
Definition initial_prompt (data : option ModelRatioData) : jsstr :=
  match data with None => [] | Some d => ratioToBasePrice (d_field d fRatio) end.

Definition initial_prices (data : option ModelRatioData) (lane : LaneKey) : jsstr :=
  match data with
  | None => []
  | Some d =>
      let promptPrice := ratioToBasePrice (d_field d fRatio) in
      let audioInputPrice := deriveLanePrice (d_field d fAudio) promptPrice in
      match lane with
      | lAudioInput => audioInputPrice
      | lAudioOutput => deriveLanePrice (d_field d fAudioCompletion) audioInputPrice
      | _ => deriveLanePrice (d_field d (ratioFieldByLane lane)) promptPrice
      end
  end.

Definition initial_enabled (data : option ModelRatioData) (lane : LaneKey) : bool :=
  match data with None => false | Some d => truthy (d_field d (ratioFieldByLane lane)) end.

(** The effect that runs when another model is opened. *)
Definition open_panel (data : option ModelRatioData) : Panel :=
  mkPanel
    (match data with
     | None => PerToken
     | Some d =>
         match billingMode d with
         | TieredExpr => TieredExpr
         | _ => if truthy (d_field d fPrice) then PerRequest else PerToken
         end
     end)
    (initial_prompt data) (initial_prices data) (initial_enabled data)
    (match data with Some d => billingExpr d | None => [] end)
    (match data with Some d => requestRuleExpr d | None => [] end)
    (match data with Some d => d_name d | None => [] end)
    (λ f, match data with Some d => d_field d f | None => [] end).

Definition set_values (vs : PriceField → jsstr) (p : Panel) : Panel :=
  mkPanel (pricingMode p) (promptPrice p) (lanePrices p) (laneEnabled p) (p_expr p) (p_rules p) (p_name p) vs.
Definition setFormValue (f : PriceField) (v : jsstr) (p : Panel) : Panel := set_values (upd (values p) f v) p.
Definition setPromptPrice (v : jsstr) (p : Panel) : Panel :=
  mkPanel (pricingMode p) v (lanePrices p) (laneEnabled p) (p_expr p) (p_rules p) (p_name p) (values p).
Definition set_lanes (prices : LaneKey → jsstr) (enabled : LaneKey → bool) (p : Panel) : Panel :=
  mkPanel (pricingMode p) (promptPrice p) prices enabled (p_expr p) (p_rules p) (p_name p) (values p).
Definition set_exprs (e r : jsstr) (p : Panel) : Panel :=
  mkPanel (pricingMode p) (promptPrice p) (lanePrices p) (laneEnabled p) e r (p_name p) (values p).

Definition deriveLaneRatio (lane : LaneKey) (price nextPromptPrice : jsstr) (nextLanePrices : LaneKey → jsstr) : jsstr :=
  match toNumberOrNull price with
  | None => []
  | Some priceNumber =>
      match toNumberOrNull (match lane with lAudioOutput => nextLanePrices lAudioInput | _ => nextPromptPrice end) with
      | None => []
      | Some base => if num_eqb base (num_of_Z 0) then [] else formatPricingNumber (num_div priceNumber base)
      end
  end.

Definition base_ratio (prompt : jsstr) : jsstr :=
  match toNumberOrNull prompt with Some n => formatPricingNumber (num_div n (num_of_Z 2)) | None => [] end.

Definition lane_ratio (prompt : jsstr) (prices : LaneKey → jsstr) (enabled : LaneKey → bool) (lane : LaneKey) : jsstr :=
  if enabled lane then deriveLaneRatio lane (prices lane) prompt prices else [].

Definition syncLaneRatios (prompt : jsstr) (prices : LaneKey → jsstr) (enabled : LaneKey → bool) (p : Panel) : Panel :=
  foldl (λ p lane, setFormValue (ratioFieldByLane lane) (lane_ratio prompt prices enabled lane) p)
    (setFormValue fRatio (base_ratio prompt) p) lanes.

(** [numericDraftRegex]: digits with at most one point, or nothing *)
Fixpoint numericDraft (seen_point : bool) (s : jsstr) : bool :=
  match s with
  | [] => true
  | u :: s => if (u =? 46)%N then negb seen_point && numericDraft true s else is_digit u && numericDraft seen_point s
  end.

Definition handlePromptPriceChange (v : jsstr) (p : Panel) : Panel :=
  if negb (numericDraft false v) then p else syncLaneRatios v (lanePrices p) (laneEnabled p) (setPromptPrice v p).

Definition handleLanePriceChange (lane : LaneKey) (v : jsstr) (p : Panel) : Panel :=
  if negb (numericDraft false v) then p
  else
    let nextLanePrices := upd (lanePrices p) lane v in
    let p := set_lanes nextLanePrices (laneEnabled p) p in
    let p := if laneEnabled p lane
             then setFormValue (ratioFieldByLane lane) (deriveLaneRatio lane v (promptPrice p) nextLanePrices) p else p in
    if bool_decide (lane = lAudioInput) && laneEnabled p lAudioOutput
    then setFormValue fAudioCompletion
           (deriveLaneRatio lAudioOutput (nextLanePrices lAudioOutput) (promptPrice p) nextLanePrices) p
    else p.

Definition handleLaneToggle (lane : LaneKey) (checked : bool) (p : Panel) : Panel :=
  let nextEnabled := upd (laneEnabled p) lane checked in
  if checked then
    setFormValue (ratioFieldByLane lane) (deriveLaneRatio lane (lanePrices p lane) (promptPrice p) (lanePrices p))
      (set_lanes (lanePrices p) nextEnabled p)
  else
    let nextPrices := upd (lanePrices p) lane [] in
    let p := setFormValue (ratioFieldByLane lane) [] p in
    if bool_decide (lane = lAudioInput)
    then set_lanes (upd nextPrices lAudioOutput []) (upd nextEnabled lAudioOutput false) (setFormValue fAudioCompletion [] p)
    else set_lanes nextPrices nextEnabled p.

Definition handleModeChange (next : PricingMode) (p : Panel) : Panel :=
  mkPanel next (promptPrice p) (lanePrices p) (laneEnabled p)
    (match next with
     | TieredExpr => if truthy (p_expr p) then p_expr p else js "tier(" ++ [34%N] ++ js "base" ++ [34%N] ++ js ", p * 0 + c * 0)"
     | _ => p_expr p
     end) (p_rules p) (p_name p) (values p).

(** [validatePricingValues]: whether there is no error. *)
Definition validatePricingValues (p : Panel) : bool :=
  let token := bool_decide (pricingMode p = PerToken) in
  negb (token && match toNumberOrNull (promptPrice p) with None => true | Some _ => false end &&
        existsb (λ lane, laneEnabled p lane && truthy (lanePrices p lane)) lanes) &&
  negb (token && laneEnabled p lAudioOutput && negb (truthy (lanePrices p lAudioInput))).

Definition buildSubmitData (p : Panel) : ModelRatioData :=
  let tiered := bool_decide (pricingMode p = TieredExpr) in
  mkData (trim (p_name p)) (values p) (pricingMode p) (if tiered then p_expr p else []) (if tiered then p_rules p else []).

(** [commitDraft]; the schema asks for a name. *)
Definition commitDraft (p : Panel) : option ModelRatioData :=
  if truthy (p_name p) && validatePricingValues p then Some (buildSubmitData p) else None.

(** [handleEdit] *)
Definition handleEdit (s : ModelPricingSnapshot) : ModelRatioData :=
  mkData (s_name s) (s_field s)
    (match s_mode s with TieredExpr => TieredExpr | _ => if truthy (s_field s fPrice) then PerRequest else PerToken end)
    (s_expr s) (s_rules s).

Inductive PanelEvent :=
| TypePrompt (v : jsstr) | TypeLane (lane : LaneKey) (v : jsstr) | ToggleLane (lane : LaneKey) (checked : bool)
| ChooseMode (m : PricingMode) | TypePrice (v : jsstr) | TypeName (v : jsstr) | EditExprs (e r : jsstr).

Definition panel_step (p : Panel) (e : PanelEvent) : Panel :=
  match e with
  | TypePrompt v => handlePromptPriceChange v p
  | TypeLane lane v => handleLanePriceChange lane v p
  | ToggleLane lane checked => handleLaneToggle lane checked p
  | ChooseMode m => handleModeChange m p
  | TypePrice v => if numericDraft false v then setFormValue fPrice v p else p
  | TypeName v => mkPanel (pricingMode p) (promptPrice p) (lanePrices p) (laneEnabled p) (p_expr p) (p_rules p) v (values p)
  | EditExprs e r => set_exprs e r p
  end.

Lemma commit_spec p d : commitDraft p = Some d → d = buildSubmitData p.
Proof. unfold commitDraft. destruct (truthy (p_name p) && validatePricingValues p); congruence. Qed.

(** *** The ratios follow the prices *)

Definition in_step (p : Panel) : Prop :=
  values p fRatio = base_ratio (promptPrice p) ∧
  ∀ lane, values p (ratioFieldByLane lane) = lane_ratio (promptPrice p) (lanePrices p) (laneEnabled p) lane.

Lemma ratioField_inj a b : ratioFieldByLane a = ratioFieldByLane b → a = b.
Proof. by destruct a, b. Qed.

Lemma ratioField_base a : ratioFieldByLane a ≠ fRatio ∧ ratioFieldByLane a ≠ fPrice.
Proof. by destruct a. Qed.

Lemma upd_eq {K V} `{EqDecision K} (f : K → V) k v : upd f k v k = v.
Proof. unfold upd. by rewrite decide_True. Qed.
Lemma upd_ne {K V} `{EqDecision K} (f : K → V) k v x : x ≠ k → upd f k v x = f x.
Proof. intros Hx. unfold upd. by rewrite decide_False. Qed.

Lemma sync_in_step prompt p : promptPrice p = prompt → in_step (syncLaneRatios prompt (lanePrices p) (laneEnabled p) p).
Proof. intros <-. split; [done|]. by intros []. Qed.

Lemma derive_other lane price prompt prices prices' : (lane = lAudioOutput → prices' lAudioInput = prices lAudioInput) →
  deriveLaneRatio lane price prompt prices' = deriveLaneRatio lane price prompt prices.
Proof. intros Hp. unfold deriveLaneRatio. destruct lane; try done. by rewrite Hp. Qed.

Lemma in_step_lane_price lane v p : in_step p → in_step (handleLanePriceChange lane v p).
Proof.
  intros [Hb Hl]. unfold handleLanePriceChange. destruct (negb _); [done|]. split.
  - simpl. destruct (laneEnabled p lane), (bool_decide _ && _); simpl; rewrite ?upd_ne; try done;
      destruct (ratioField_base lane) as [Hn _]; congruence.
  - intros x. specialize (Hl x). destruct p as [mode prompt prices enabled e r name vs]. unfold lane_ratio in *.
    destruct (enabled lane) eqn:El, (bool_decide (lane = lAudioInput) && enabled lAudioOutput) eqn:Ea;
      cbn [laneEnabled set_lanes setFormValue set_values values lanePrices promptPrice] in *; rewrite ?El, ?Ea in *;
      cbn [laneEnabled set_lanes setFormValue set_values values lanePrices promptPrice] in *; rewrite ?El, ?Ea in *.
    all: destruct lane, x; cbn in *; rewrite ?El in *; try done.
    all: try (destruct (enabled lAudioOutput); done).
Qed.

Lemma in_step_toggle lane checked p : in_step p → in_step (handleLaneToggle lane checked p).
Proof.
  intros [Hb Hl]. unfold handleLaneToggle. split.
  - destruct checked, lane; done.
  - intros x. specialize (Hl x). unfold lane_ratio in *. destruct checked, lane, x; done.
Qed.

(** [C21] In the editor of a new model the ratios follow the prices: whatever is typed and
    toggled, in any order, the ratio that would be saved is half the input price, and the one
    of every lane that is switched on is its price over the price it depends on; lanes that
    are switched off have none. *)
Theorem ratios_follow_prices (es : list PanelEvent) : in_step (foldl panel_step (open_panel None) es).
Proof.
  assert (in_step (open_panel None)) as H0 by (split; [done|by intros []]).
  revert H0. generalize (open_panel None). induction es as [|e es IH]; intros p Hp; [done|]. apply IH.
  destruct e as [v|lane v|lane checked|m|v|v|e r]; simpl; try exact Hp.
  - unfold handlePromptPriceChange. destruct (negb _); [done|]. by apply (sync_in_step v (setPromptPrice v p)).
  - by apply in_step_lane_price.
  - by apply in_step_toggle.
  - destruct (numericDraft false v); [|done]. destruct Hp as [Hb Hl]. split; [exact Hb|]. intros lane. rewrite <- Hl. by destruct lane.
Qed.

(** ** What saving writes *)

(** A number is written exactly if the text begins with a finite one. *)
Definition number_entry (v : jsstr) : option value :=
  if truthy v && isFinite (parseFloat v) then Some (Num (parseFloat v)) else None.

(** The entry of a saved model in each of the ten objects: a table. *)
Definition saved_entry (data : ModelRatioData) (f : MapField) : option value :=
  let tiered := bool_decide (billingMode data = TieredExpr) in
  let combined := combineBillingExpr (billingExpr data) (requestRuleExpr data) in
  match f with
  | Prices fPrice => number_entry (d_field data fPrice)
  | Prices f => if tiered || negb (truthy (d_field data fPrice)) then number_entry (d_field data f) else None
  | BillingModes => if tiered && truthy combined then Some (Str tiered_expr) else None
  | BillingExprs => if tiered && truthy combined then Some (Str combined) else None
  end.

Lemma get_setIfPresent n name v (t : fields) : jm_get name t = None →
  jm_get n (setIfPresent t name v) = if decide (n = name) then number_entry v else jm_get n t.
Proof.
  intros Ht. unfold setIfPresent, number_entry. destruct (truthy v); simpl; [|case_decide; by subst].
  destruct (isFinite (parseFloat v)); [rewrite jm_get_set; by repeat case_decide|case_decide; by subst].
Qed.

Lemma get_deleted (name : jsstr) (t : fields) : jm_get name (jm_delete name t) = None.
Proof. rewrite jm_get_delete. by case_decide. Qed.

Lemma get_persist_one data (m : Maps) name n f :
  jm_get n (persist_one data m name f) = if decide (n = name) then saved_entry data f else jm_get n (m f).
Proof.
  unfold persist_one, saved_entry. destruct (billingMode data) eqn:Em.
  1,2: destruct (truthy (d_field data fPrice)) eqn:Ep.
  all: try rewrite bool_decide_false by done; try rewrite bool_decide_true by done; cbn [orb andb negb].
  all: destruct f as [ [] | |]; rewrite ?get_setIfPresent, ?jm_get_delete by apply get_deleted.
  all: try (destruct (truthy (combineBillingExpr _ _)); rewrite ?jm_get_set, ?jm_get_delete).
  all: repeat case_decide; simplify_eq; try done.
  all: unfold number_entry; by rewrite Ep.
Qed.

Lemma get_persisted data names (m : Maps) n f :
  jm_get n (foldl (persist_one data) m names f) = if decide (n ∈ names) then saved_entry data f else jm_get n (m f).
Proof.
  revert m. induction names as [|name names IH]; intros m.
  { case_decide as Hn; [by apply elem_of_nil in Hn|done]. }
  cbn [foldl]. rewrite IH, get_persist_one. destruct (decide (n ∈ names)) as [Hn|Hn].
  - rewrite decide_True by (by right). done.
  - destruct (decide (n = name)) as [->|Hne]; [by rewrite decide_True by (by left)|].
    by rewrite decide_False by (rewrite not_elem_of_cons; done).
Qed.

(** ** Written texts are read back *)

Context {Laws : JsonLaws}.
Context (parse_double : ∀ s, isFinite (parseFloat s) = true → json_num (parseFloat s) = true).

Definition json_maps (m : Maps) : Prop := ∀ f, json (Obj (m f)) = true.

Lemma safe_pretty (l : fields) : json (Obj l) = true → safeJsonParse (JSON_pretty (Obj l)) = Some l.
Proof using Laws.
  intros Hl. unfold safeJsonParse. rewrite pretty_trimmed by done.
  assert (truthy (JSON_pretty (Obj l)) = true) as ->.
  { apply truthy_spec. intros E. apply (pretty_nonblank (Obj l)); [done|]. by rewrite pretty_trimmed. }
  simpl. by rewrite parse_pretty.
Qed.

Lemma read_written (m : Maps) : json_maps m → ∃ m', read_maps (write_maps m) = Some m' ∧ ∀ f, m' f = m f.
Proof using Laws.
  intros Hm. unfold read_maps, write_maps. rewrite (proj2 (forallb_forall _ _)).
  - eexists. split; [done|]. intros f. simpl. by rewrite safe_pretty.
  - intros f _. by rewrite safe_pretty.
Qed.

Lemma json_object_fields (l : fields) : json (Obj l) = true ↔
  jm_wf l ∧ Forall (λ kv, index_like (fst kv) = false ∧ json (snd kv) = true) l.
Proof.
  simpl. rewrite andb_true_iff, bool_decide_eq_true, forallb_Forall. unfold jm_wf, jm_keys.
  split; (intros [Hn Hf]; split; [done|]); (eapply Forall_impl; [exact Hf|]); intros kv; simpl;
    rewrite andb_true_iff, negb_true_iff; done.
Qed.

Lemma json_delete name l : json (Obj l) = true → json (Obj (jm_delete name l)) = true.
Proof.
  rewrite !json_object_fields. intros [Hn Hf]. split; [by apply jm_wf_filter|].
  apply Forall_forall. intros kv [_ Hkv]%list_elem_of_filter. by apply (proj1 (Forall_forall _ _) Hf).
Qed.

Lemma json_set name v l : index_like name = false → json v = true → json (Obj l) = true → json (Obj (jm_set name v l)) = true.
Proof.
  rewrite !json_object_fields. intros Hi Hv [Hn Hf]. split; [by apply jm_wf_set|].
  clear Hn. induction Hf as [|[k x] l [Hk Hx] Hf IH]; simpl; [by repeat constructor|].
  case_decide; constructor; try done; by subst.
Qed.

Lemma json_persist_one data m name : index_like name = false → json_maps m → json_maps (persist_one data m name).
Proof using parse_double.
  intros Hi Hm f. assert (∀ f, json (Obj (jm_delete name (m f))) = true) as Hd by (intros; by apply json_delete).
  assert (∀ t v, json (Obj t) = true → json (Obj (setIfPresent t name v)) = true) as Hs.
  { intros t v Ht. unfold setIfPresent. destruct (truthy v); simpl; [|done].
    destruct (isFinite (parseFloat v)) eqn:E; [|done]. apply json_set; [done|by apply parse_double|done]. }
  unfold persist_one. destruct (billingMode data).
  1,2: destruct (truthy (d_field data fPrice)).
  all: destruct f as [ [] | |]; auto.
  all: destruct (truthy (combineBillingExpr _ _)); [by apply json_set|done].
Qed.

Lemma json_persisted data names m : Forall (λ n, index_like n = false) names → json_maps m →
  json_maps (foldl (persist_one data) m names).
Proof using parse_double.
  intros Hn. revert m. induction Hn as [|n names Hn _ IH]; intros m Hm; [done|]. by apply IH, json_persist_one.
Qed.

(** ** Rows of written texts *)

(** The row of a model whose entries are [e]. *)
Definition row_of (e : MapField → option value) (s : ModelPricingSnapshot) : Prop :=
  (∀ f, s_field s f = entry_text (e (Prices f))) ∧
  if is_tiered (e BillingModes)
  then s_mode s = TieredExpr ∧ split_entry (e BillingExprs) = Ok (s_expr s, s_rules s) ∧ hasConflict s = false
  else s_mode s = (if truthy (entry_text (e (Prices fPrice))) then PerRequest else PerToken) ∧ s_expr s = [] ∧ s_rules s = [] ∧
       hasConflict s = truthy (entry_text (e (Prices fPrice))) && existsb (λ f, truthy (entry_text (e (Prices f)))) ratio_fields.

Lemma row_of_ext e e' s : (∀ f, e f = e' f) → row_of e s → row_of e' s.
Proof.
  intros He. assert (∀ f, entry_text (e (Prices f)) = entry_text (e' (Prices f))) as Ht by (intros f; by rewrite He).
  unfold row_of. rewrite !He. assert (existsb (λ f, truthy (entry_text (e (Prices f)))) ratio_fields =
    existsb (λ f, truthy (entry_text (e' (Prices f)))) ratio_fields) as -> by (simpl; by rewrite !Ht).
  intros [Hf Hm]. split; [|done]. intros f. by rewrite Hf, He.
Qed.

Lemma snapshot_row m name s : snapshot_of m name = Ok s → s_name s = name ∧ row_of (λ f, jm_get name (m f)) s.
Proof.
  unfold snapshot_of, row_of. destruct (is_tiered _) eqn:E.
  - destruct (split_entry _) as [ [a b]|] eqn:Es; [|done]. intros [= <-]. done.
  - intros [= <-]. done.
Qed.

(** Every expression is a text that [splitBillingExprAndRequestRules] reads without an error. *)
Definition text_exprs (m : Maps) : Prop :=
  ∀ n v, jm_get n (m BillingExprs) = Some v → ∃ s r, v = Str s ∧ split_expr s = Ok r.

Lemma snapshot_total m name : text_exprs m → ∃ s, snapshot_of m name = Ok s.
Proof.
  intros Ht. unfold snapshot_of. destruct (is_tiered _); [|by eexists].
  assert (∃ r, split_entry (jm_get name (m BillingExprs)) = Ok r) as [r ->]; [|by eexists].
  destruct (jm_get name (m BillingExprs)) as [v|] eqn:E; [|by eexists]. destruct (Ht name v E) as (s & r & -> & Hr). by exists r.
Qed.

Lemma rows_total m names : text_exprs m → ∃ rows, all_rows m names = Ok rows ∧ map s_name rows = names ∧
  ∀ s, s ∈ rows → row_of (λ f, jm_get (s_name s) (m f)) s.
Proof.
  intros Ht. induction names as [|name names (rows & Hr & Hn & Hrow)]; [exists []; split_and!; [done..|]; intros s []%elem_of_nil|].
  destruct (snapshot_total m name Ht) as [s Hs]. destruct (snapshot_row m name s Hs) as [En Hrs].
  exists (s :: rows). cbn [all_rows]. rewrite Hs. simpl. rewrite Hr. simpl. split_and!; [done|by rewrite En, Hn|].
  intros s' [-> | Hin]%elem_of_cons; [by rewrite En|by apply Hrow].
Qed.

Lemma map_fields_all f : f ∈ map_fields.
Proof. apply (bool_decide_unpack _). by destruct f as [ [] | |]. Qed.

Lemma model_names_spec m n : n ∈ model_names m ↔ ∃ f, jm_get n (m f) ≠ None.
Proof.
  unfold model_names. rewrite new_Set_elem, list_elem_of_In, in_concat. split.
  - intros (l & Hl & Hn). apply in_map_iff in Hl as (f & <- & _). exists f. intros Hg%jm_get_None. by apply Hg, list_elem_of_In.
  - intros (f & Hf). exists (jm_keys (m f)). split; [apply in_map_iff; exists f; split; [done|]; apply list_elem_of_In, map_fields_all|].
    apply list_elem_of_In. destruct (decide (n ∈ jm_keys (m f))) as [Hd|Hd]; [done|]. by apply jm_get_None in Hd.
Qed.

(** The table of texts that were written. *)
Lemma written_rows m : json_maps m → text_exprs m →
  ∃ rows, buildModelSnapshots (write_maps m) = Some (Ok rows) ∧ NoDup (map s_name rows) ∧
    (∀ n, n ∈ map s_name rows ↔ ∃ f, jm_get n (m f) ≠ None) ∧
    ∀ s, s ∈ rows → row_of (λ f, jm_get (s_name s) (m f)) s.
Proof using Laws.
  intros Hm Ht. destruct (read_written m Hm) as (m' & Hr & Em).
  assert (text_exprs m') as Ht' by (intros n v; rewrite Em; apply Ht).
  destruct (rows_total m' (model_names m') Ht') as (rows & Ha & Hn & Hrow).
  exists rows. unfold buildModelSnapshots. rewrite Hr. simpl. rewrite Ha, Hn. split_and!; [done|apply new_Set_NoDup| |].
  - intros n. rewrite model_names_spec. split; intros [f Hf]; exists f; [by rewrite <- Em|by rewrite Em].
  - intros s Hs. eapply row_of_ext, Hrow, Hs. intros f. cbn beta. by rewrite Em.
Qed.

(** [C20] Saving prices and reading the table again, when the expressions that are stored and the
    one that is saved can be split into price and rules: the texts are written and read without
    an error, each model that has an entry has one row, the row of a saved model shows the
    entries saving makes of the edited price (the numbers its texts hold, a fixed price alone
    if there is one, unless the mode is tiered, and the expression in tiered mode only), and
    every other row is what it was. *)
Theorem saved_prices_read (data : ModelRatioData) (names : list jsstr) (x : Texts) (m : Maps) :
  read_maps x = Some m → json_maps m → text_exprs m → Forall (λ n, index_like n = false) names →
  (∃ r, split_expr (combineBillingExpr (billingExpr data) (requestRuleExpr data)) = Ok r) →
  let entry n f := if decide (n ∈ names) then saved_entry data f else jm_get n (m f) in
  ∃ x' rows, persistPricingData data names x = Some x' ∧ buildModelSnapshots x' = Some (Ok rows) ∧
    NoDup (map s_name rows) ∧ (∀ n, n ∈ map s_name rows ↔ ∃ f, entry n f ≠ None) ∧
    ∀ s, s ∈ rows → row_of (entry (s_name s)) s.
Proof using All.
  intros Hx Hm Ht Hn [r Hs] entry. set (m' := foldl (persist_one data) m names).
  assert (∀ n f, jm_get n (m' f) = entry n f) as He by (intros n f; apply get_persisted).
  destruct (written_rows m') as (rows & Hr & Hd & Hin & Hrow).
  - by apply json_persisted.
  - intros n v. rewrite He. unfold entry. case_decide; [|apply Ht]. simpl.
    destruct (_ && _); [|done]. intros [= <-]. by do 2 eexists.
  - exists (write_maps m'), rows. unfold persistPricingData. rewrite Hx. split_and!; [done..| |].
    + intros n. rewrite Hin. split; intros [f Hf]; exists f; [by rewrite <- He|by rewrite He].
    + intros s Hin'. eapply row_of_ext, Hrow, Hin'. intros f. cbn beta. apply He.
Qed.

(** Deleting a model removes its row and no other. *)
Theorem deleted_prices_read (name : jsstr) (x : Texts) (m : Maps) :
  read_maps x = Some m → json_maps m → text_exprs m →
  ∃ x' rows, handleDelete name x = Some x' ∧ buildModelSnapshots x' = Some (Ok rows) ∧
    ¬ (name ∈ map s_name rows) ∧
    ∀ n, n ≠ name → (n ∈ map s_name rows ↔ ∃ f, jm_get n (m f) ≠ None) ∧
      ∀ s, s ∈ rows → s_name s = n → row_of (λ f, jm_get n (m f)) s.
Proof using Laws.
  intros Hx Hm Ht. set (m' := λ f, jm_delete name (m f)).
  assert (∀ n f, jm_get n (m' f) = if decide (n = name) then None else jm_get n (m f)) as He by (intros; apply jm_get_delete).
  destruct (written_rows m') as (rows & Hr & Hd & Hin & Hrow).
  - intros f. by apply json_delete.
  - intros n v. rewrite He. case_decide; [done|apply Ht].
  - exists (write_maps m'), rows. unfold handleDelete. rewrite Hx. split_and!; [done..| |].
    + rewrite Hin. intros [f Hf]. rewrite He in Hf. by rewrite decide_True in Hf.
    + intros n Hn. rewrite Hin. split.
      { split; intros [f Hf]; exists f; [rewrite He in Hf|rewrite He]; by rewrite decide_False in * by done. }
      intros s Hs <-. eapply row_of_ext, Hrow, Hs. intros f. cbn beta. rewrite He. by rewrite decide_False.
Qed.

(** ** Opening and saving *)

(** Entries as saving writes them: finite numbers whose text reads back, and an expression
    with its mode that splits into what it was combined from. *)
Definition tidy (e : MapField → option value) : Prop :=
  (∀ f, e (Prices f) = None ∨ ∃ n, e (Prices f) = Some (Num n) ∧ isFinite n = true ∧
     truthy (to_str (Num n)) = true ∧ parseFloat (to_str (Num n)) = n) ∧
  (e BillingModes = None ∧ e BillingExprs = None ∨
   ∃ full a b, e BillingModes = Some (Str tiered_expr) ∧ e BillingExprs = Some (Str full) ∧ truthy full = true ∧
     split_expr full = Ok (a, b) ∧ combineBillingExpr a b = full).

Lemma tidy_entry e f : tidy e → number_entry (entry_text (e (Prices f))) = e (Prices f).
Proof.
  intros [Hn _]. destruct (Hn f) as [-> | (n & -> & Hf & Ht & Hp)]; [done|]. unfold number_entry. cbn [entry_text].
  by rewrite Ht, Hp, Hf.
Qed.

(** Opening a model and saving it without a change keeps all its entries, unless the
    editor refuses to save it: for entries as saving writes them, and no model with both kinds
    of prices. *)
Theorem reopened_unchanged (e : MapField → option value) (s : ModelPricingSnapshot) (d : ModelRatioData) :
  tidy e → row_of e s → hasConflict s = false → trim (s_name s) = s_name s →
  commitDraft (open_panel (Some (handleEdit s))) = Some d →
  d_name d = s_name s ∧ ∀ f, saved_entry d f = e f.
Proof.
  intros He [Hf Hm] Hc Hname Hd. apply commit_spec in Hd as ->.
  split; [exact Hname|].
  assert (∀ f, number_entry (s_field s f) = e (Prices f)) as Hnum by (intros f; rewrite Hf; by apply tidy_entry).
  destruct He as [_ [ [Em Ex] | (full & a & b & Em & Ex & Htr & Hs & Hcomb)] ]; rewrite Em in Hm; simpl in Hm.
  - destruct Hm as (Hmode & Hexp & Hrul & Hcf). rewrite Hc in Hcf. rewrite <- !Hf in *.
    assert (∀ f, f ≠ fPrice → truthy (s_field s fPrice) = true → truthy (s_field s f) = false) as Hno.
    { intros f Hne Hp. rewrite Hp in Hcf. simpl in Hcf. rewrite <- ?Hf in Hcf. symmetry in Hcf.
      rewrite !orb_false_iff in Hcf. destruct_and!. by destruct f. }
    intros f. unfold saved_entry, handleEdit. cbn. rewrite Hmode.
    destruct (truthy (s_field s fPrice)) eqn:Ep; simpl.
    + destruct f as [ [] | |]; simpl; rewrite ?Em, ?Ex, ?Hnum; try done; rewrite <- Hnum; unfold number_entry;
        by rewrite Hno.
    + destruct f as [ [] | |]; simpl; rewrite ?Em, ?Ex, ?Hnum; done.
  - rewrite Ex in Hm. simpl in Hm. destruct Hm as (Hmode & Hexp & _). rewrite Hs in Hexp. injection Hexp as -> ->.
    intros f. unfold saved_entry, handleEdit. cbn. rewrite Hmode. simpl. rewrite Hcomb, Htr. simpl.
    destruct f as [ [] | |]; rewrite ?Em, ?Ex, ?Hnum; done.
Qed.

(** ** The mode that is ignored *)

(** A model with a price per request is opened, the mode of prices per token is chosen and
    prices are typed: the fixed price is saved all the same, and none of the others. *)
Theorem token_mode_ignored (d : ModelRatioData) (es : list PanelEvent) (d' : ModelRatioData) :
  billingMode d ≠ TieredExpr → truthy (d_field d fPrice) = true →
  Forall (λ e, match e with ChooseMode _ | TypePrice _ => False | _ => True end) es →
  commitDraft (foldl panel_step (handleModeChange PerToken (open_panel (Some d))) es) = Some d' →
  billingMode d' = PerToken ∧ saved_entry d' (Prices fPrice) = number_entry (d_field d fPrice) ∧
  ∀ f, f ≠ fPrice → saved_entry d' (Prices f) = None.
Proof.
  intros Hd Hp Hes Hc.
  set (p := foldl _ _ es) in *.
  assert (pricingMode p = PerToken ∧ values p fPrice = d_field d fPrice) as [Hm Hv].
  { unfold p. clear Hc p. set (p := handleModeChange PerToken (open_panel (Some d))).
    assert (pricingMode p = PerToken ∧ values p fPrice = d_field d fPrice) as H0 by done. clearbody p. revert p H0.
    induction Hes as [|e es He _ IH]; intros p Hp0; [done|]. apply IH. destruct Hp0 as [<- <-].
    destruct e as [v|lane v|lane checked| | |v|a b]; try done; simpl.
    - unfold handlePromptPriceChange. by destruct (negb _).
    - unfold handleLanePriceChange. destruct (negb _); [done|]. destruct (laneEnabled _ lane), (_ && _); by destruct lane.
    - unfold handleLaneToggle. by destruct checked, lane. }
  apply commit_spec in Hc as ->. unfold saved_entry. simpl. rewrite Hm, Hv.
  split_and!; [done|done|]. intros f Hf. rewrite Hp. by destruct f.
Qed.

End Pricing.

(** ** Concrete prices *)

(** A browser whose numbers are integers. *)
#[local] Instance sample_prices_json : Json := {|
  JSON_parse := sample_read; JSON_stringify := sample_text; JSON_pretty := sample_text;
  String_of v := match v with Num n => match as_integer n with Some z => show_Z z | None => [] end | _ => [] end;
  Number_of _ := NaN |}.

#[local] Instance sample_prices_laws : JsonLaws.
Proof. by destruct sample_json_laws. Qed.

Definition sample_parse (s : jsstr) : jsnum :=
  if is_digits s then num_of_Z (foldl (λ z u, 10 * z + Z.of_N u - 48)%Z 0%Z s) else NaN.

#[local] Instance sample_doubles : Doubles := {|
  Number_ := sample_parse; parseFloat := sample_parse; String_ n := to_str (Num n);
  num_mul n _ := n; num_div n _ := n; num_sub n _ := n; num_abs n := n; math_round n := n;
  num_pow10 _ := num_of_Z 1; toFixed _ n := to_str (Num n); SNAP_EPSILON := num_of_Z 0; EPSILON := num_of_Z 0 |}.

Lemma sample_parse_double s : isFinite (sample_parse s) = true → json_num (sample_parse s) = true.
Proof.
  unfold sample_parse. destruct (is_digits s); [|done]. intros _.
  generalize (foldl (λ z u, 10 * z + Z.of_N u - 48)%Z 0%Z s). intros z.
  change (power_of_two (QArith_base.Qden (Qreduction.Qred (QArith_base.inject_Z z))) = true).
  rewrite Qcanon.Qred_identity; [done|apply Z.gcd_1_r].
Qed.

(** One model with a ratio, which saving another one keeps. *)
Definition sample_maps : Maps :=
  λ f, match f with Prices fRatio => [(js "old", Num (num_of_Z 3))] | _ => [] end.
Definition sample_data : ModelRatioData :=
  mkData (js "new") (λ f, match f with fRatio => js "5" | _ => [] end) PerToken [] [].

Lemma saved_prices_read_witness :
  ∃ x' rows s, persistPricingData sample_data [js "new"] (write_maps sample_maps) = Some x' ∧
    buildModelSnapshots x' = Some (Ok rows) ∧ s ∈ rows ∧ s_name s = js "new" ∧ s_field s fRatio = js "5" ∧
    js "old" ∈ map s_name rows.
Proof.
  assert (json_maps sample_maps) as Hj by (by intros [ [] | |]).
  destruct (read_written sample_maps Hj) as (m & Hm & E).
  destruct (saved_prices_read (DB := sample_doubles) sample_parse_double sample_data [js "new"] (write_maps sample_maps) m)
    as (x' & rows & Hp & Hb & _ & Hn & Hr).
  - exact Hm.
  - intros f. rewrite E. apply Hj.
  - intros n v. by rewrite E.
  - by repeat constructor.
  - by eexists.
  - assert (js "new" ∈ map s_name rows) as (s & Hs & Hin)%list_elem_of_fmap by (by apply Hn; exists (Prices fRatio)).
    exists x', rows, s. split_and!; [done..| |].
    + destruct (Hr s Hin) as [Hf _]. rewrite Hf, <- Hs. reflexivity.
    + apply Hn. exists (Prices fRatio). by rewrite decide_False, E by (apply not_elem_of_cons; split; [done|apply not_elem_of_nil]).
Defined.

Lemma reopened_unchanged_witness :
  let e f := match f with Prices fRatio => Some (Num (num_of_Z 5)) | _ => None end in
  let s := mkSnapshot (js "new") (λ f, entry_text (e (Prices f))) PerToken [] [] false in
  ∃ d, commitDraft (open_panel (Some (handleEdit s))) = Some d ∧ ∀ f, saved_entry d f = e f.
Proof.
  intros e s. eexists. split; [reflexivity|].
  eapply (reopened_unchanged e s); [|by split|done|done|reflexivity].
  split; [|by left]. intros []; first [by left|right]. by exists (num_of_Z 5).
Defined.

End ModelPricing.
