(* ===== verification/UpstreamUpdates.v ===== *)
(** * Model updates of the providers behind channels
      (web/src/features/channels/hooks/use-channel-upstream-updates.ts,
      lib/upstream-update-utils.ts, components/dialogs/upstream-update-dialog.tsx and its use in
      components/channels-dialogs.tsx)

    The server notices models that a provider added or removed. A dialog offers them for one
    channel: the selected ones are added to the channel or removed from it, and the others are
    ignored from then on. Four requests exist (apply and detect, for one channel or for all),
    each under way at most once, and each followed by a reload of the list.

    The hook, the dialog and the requests under way are one state. The dialog is mounted with
    the page, before any channel is opened in it, and renders nothing while it is closed. *)
From S2P Require Import Prelude JsString JsMap JsValue Json.
Local Open Scope js_scope.
Import Json.

Module Upstream.

Inductive DialogTab := AddTab | RemoveTab.

(** The four requests *)
Inductive Operation := Apply | ApplyAll | Detect | DetectAll.

#[export] Instance Operation_eq_dec : EqDecision Operation.
Proof. solve_decision. Defined.

(** A request under way, and what its handler keeps: the models that are ignored. *)
Inductive Stage := AwaitAnswer | AwaitRefresh | Ended.

#[export] Instance Stage_eq_dec : EqDecision Stage.
Proof. solve_decision. Defined.

Record Task := mkTask { operation : Operation; ignoreModels : list jsstr; phase : Stage }.

Inductive Level := InfoToast | SuccessToast | WarningToast | ErrorToast.

Inductive Effect :=
| PostApply (id : Z) (add_models ignore_models remove_models : list jsstr)
| PostApplyAll
| PostDetect (id : Z)
| PostDetectAll
| Toasted (level : Level) (text : value)
| Refresh.

Record Page := mkPage {
  (* the hook *)
  showModal : bool; channel : option Z; addModels : list jsstr; removeModels : list jsstr; preferredTab : DialogTab;
  loading : Operation → bool; busy : Operation → bool;
  (* the dialog *)
  activeTab : DialogTab; searchAdd : jsstr; searchRemove : jsstr;
  selectedAdd : list jsstr; selectedRemove : list jsstr; partialConfirmOpen : bool;
  (* the world *)
  tasks : list Task; log : list Effect }.

Definition set_modal (b : bool) (c : option Z) (add remove : list jsstr) (tab : DialogTab) (w : Page) : Page :=
  mkPage b c add remove tab (loading w) (busy w) (activeTab w) (searchAdd w) (searchRemove w) (selectedAdd w) (selectedRemove w)
    (partialConfirmOpen w) (tasks w) (log w).
Definition set_latch (o : Operation) (b : bool) (w : Page) : Page :=
  mkPage (showModal w) (channel w) (addModels w) (removeModels w) (preferredTab w)
    (λ x, if decide (x = o) then b else loading w x) (λ x, if decide (x = o) then b else busy w x)
    (activeTab w) (searchAdd w) (searchRemove w) (selectedAdd w) (selectedRemove w) (partialConfirmOpen w) (tasks w) (log w).
Definition set_dialog (tab : DialogTab) (sa sr : jsstr) (add remove : list jsstr) (partial : bool) (w : Page) : Page :=
  mkPage (showModal w) (channel w) (addModels w) (removeModels w) (preferredTab w) (loading w) (busy w) tab sa sr add remove
    partial (tasks w) (log w).
Definition set_tasks (ts : list Task) (w : Page) : Page :=
  mkPage (showModal w) (channel w) (addModels w) (removeModels w) (preferredTab w) (loading w) (busy w) (activeTab w)
    (searchAdd w) (searchRemove w) (selectedAdd w) (selectedRemove w) (partialConfirmOpen w) ts (log w).
Definition record (x : Effect) (w : Page) : Page :=
  mkPage (showModal w) (channel w) (addModels w) (removeModels w) (preferredTab w) (loading w) (busy w) (activeTab w)
    (searchAdd w) (searchRemove w) (selectedAdd w) (selectedRemove w) (partialConfirmOpen w) (tasks w) (log w ++ [x]).

Section Updates.
Context {JS : Json}.
Context (t : jsstr → list (jsstr * value) → jsstr).         (* the translation of a text and its values *)
Context (toLowerCase : jsstr → jsstr).
Context (type_error : value).                               (* what calling something that is no function throws *)

(** ** Lists of models (upstream-update-utils.ts) *)

Definition normalizeModelList (models : list value) : list jsstr :=
  new_Set (List.filter truthy (map (λ model, trim (to_str (value_or model (Str [])))) models)).

Definition normalize_texts (models : list jsstr) : list jsstr := normalizeModelList (map Str models).

(** [normalizeModelList((v as unknown[]) || [])], which throws on what has no [map] *)
Definition normalize_value (v : value) : result value (list jsstr) :=
  match value_or v (Arr []) with
  | Arr l => Ok (normalizeModelList l)
  | _ => Throw type_error
  end.

Record UpdateMeta := mkMeta { enabled : bool; pendingAddModels : list jsstr; pendingRemoveModels : list jsstr }.

Definition parseUpstreamUpdateMeta (settings : value) : result value UpdateMeta :=
  let parsed := match settings with
                | Obj _ => settings
                | Str s => default Null (JSON_parse s)
                | _ => Null
                end in
  if negb (value_truthy parsed) || negb (is_object_type parsed) then Ok (mkMeta false [] [])
  else
    try! add := normalize_value (get parsed (js "upstream_model_update_last_detected_models")) in
    try! remove := normalize_value (get parsed (js "upstream_model_update_last_removed_models")) in
    Ok (mkMeta (match get parsed (js "upstream_model_update_check_enabled") with Bool b => b | _ => false end) add remove).

Definition getManualIgnoredModelCount (settings : value) : result value nat :=
  let parsed := match settings with
                | Obj _ | Arr _ => settings
                | Str s => default Null (JSON_parse s)
                | _ => Null
                end in
  if negb (value_truthy parsed) then Ok O
  else
    try! l := normalize_value (get parsed (js "upstream_model_update_ignored_models")) in
    Ok (length l).

(** ** The hook *)

Definition openModal (id : option Z) (pendingAdd pendingRemove : list jsstr) (tab : DialogTab) (w : Page) : Page :=
  let normAdd := normalize_texts pendingAdd in
  let normRemove := normalize_texts pendingRemove in
  let none := record (Toasted InfoToast (Str (t (js "No processable upstream model updates for this channel") []))) w in
  match id with
  | None => none
  | Some id =>
      if (id =? 0)%Z || (negb (0 <? length normAdd)%nat && negb (0 <? length normRemove)%nat) then none
      else set_modal true (Some id) normAdd normRemove tab w
  end.

Definition closeModal (w : Page) : Page := set_modal false None [] [] AddTab w.

(** The latch of a request is taken, and its handler waits. [busy] holds the four refs and
    [loading] the states; detecting for one channel has no such state, and its entry is never read. *)
Definition spawn (o : Operation) (ignored : list jsstr) (post : Effect) (w : Page) : Page :=
  let w := record post (set_latch o true w) in set_tasks (tasks w ++ [mkTask o ignored AwaitAnswer]) w.

Definition applyUpdates (selectedAdd selectedRemove : list jsstr) (w : Page) : Page :=
  if busy w Apply then w
  else
    match channel w with
    | None => closeModal w
    | Some id =>
        if (id =? 0)%Z then closeModal w
        else
          let normSelectedAdd := normalize_texts selectedAdd in
          let ignored := List.filter (λ m, negb (set_has (new_Set normSelectedAdd) m)) (addModels w) in
          spawn Apply ignored (PostApply id normSelectedAdd ignored (normalize_texts selectedRemove)) w
    end.

Definition applyAllUpdates (w : Page) : Page := if busy w ApplyAll then w else spawn ApplyAll [] PostApplyAll w.

Definition detectChannelUpdates (id : option Z) (w : Page) : Page :=
  if busy w Detect then w
  else match id with
       | None => w
       | Some id => if (id =? 0)%Z then w else spawn Detect [] (PostDetect id) w
       end.

Definition detectAllUpdates (w : Page) : Page := if busy w DetectAll then w else spawn DetectAll [] PostDetectAll w.

(** [toast.error(message || t(...))] of each handler *)
Definition fallback (o : Operation) : jsstr :=
  match o with
  | Apply => js "Operation failed" | ApplyAll => js "Batch processing failed"
  | Detect => js "Detection failed" | DetectAll => js "Batch detection failed"
  end.

Definition failure_text (o : Operation) (message : value) : value := value_or message (Str (t (fallback o) [])).

(** The [catch] of each handler *)
Definition error_text (o : Operation) (err : value) : value :=
  value_or (get (get (get err (js "response")) (js "data")) (js "message")) (failure_text o (get err (js "message"))).

(** The [finally] *)
Definition finish (i : nat) (x : Task) (w : Page) : Page :=
  set_latch (operation x) false (set_tasks (<[i := mkTask (operation x) (ignoreModels x) Ended]> (tasks w)) w).

(** [v?.length || 0] *)
Definition count (v : value) : value :=
  match v with
  | Arr l => Num (num_of_Z (Z.of_nat (length l)))
  | Str s => Num (num_of_Z (Z.of_nat (length s)))
  | _ => value_or (get v (js "length")) (Num (num_of_Z 0))
  end.

Definition nat_value (n : nat) : value := Num (num_of_Z (Z.of_nat n)).

Definition notify (response : value) (text : jsstr) : Effect :=
  Toasted (if value_truthy (get response (js "cache_pending")) then WarningToast else SuccessToast) (Str text).

(** What a handler says of a success; counting the ignored models may throw. *)
Definition success_effect (x : Task) (response : value) : result value Effect :=
  let data := get response (js "data") in
  match operation x with
  | Apply =>
      try! total := getManualIgnoredModelCount (get data (js "settings")) in
      Ok (notify response (t (js
        "Upstream model updates applied: {{added}} added, {{removed}} removed, {{ignored}} ignored this time, {{totalIgnored}} total ignored models")
        [(js "added", count (get data (js "added_models"))); (js "removed", count (get data (js "removed_models")));
         (js "ignored", nat_value (length (normalize_texts (ignoreModels x)))); (js "totalIgnored", nat_value total)]))
  | ApplyAll =>
      let zero := Num (num_of_Z 0) in
      Ok (notify response (t (js
        "Batch upstream model updates applied: {{channels}} channels, {{added}} added, {{removed}} removed, {{fails}} failed")
        [(js "channels", value_or (get data (js "processed_channels")) zero);
         (js "added", value_or (get data (js "added_models")) zero); (js "removed", value_or (get data (js "removed_models")) zero);
         (js "fails", match value_or (get data (js "failed_channel_ids")) (Arr []) with
                      | Arr l => nat_value (length l) | Str s => nat_value (length s) | v => get v (js "length") end)]))
  | Detect =>
      Ok (notify response (t (js "Detection complete: {{add}} to add, {{remove}} to remove")
        [(js "add", count (get data (js "add_models"))); (js "remove", count (get data (js "remove_models")))]))
  | DetectAll =>
      Ok (Toasted SuccessToast (Str (t (js
        "Upstream model detection task started. Track progress in System Info, then refresh to review staged updates.") [])))
  end.

Inductive Answer := Rejected (err : value) | Answered (data : value).

(** After the [await] of the request *)
Definition on_answer (i : nat) (a : Answer) (w : Page) : Page :=
  match tasks w !! i with
  | Some (mkTask o ignored AwaitAnswer as x) =>
      match a with
      | Rejected err => finish i x (record (Toasted ErrorToast (error_text o err)) w)
      | Answered data =>
          let response := value_or data (Obj []) in
          if negb (value_truthy (get response (js "success")))
          then finish i x (record (Toasted ErrorToast (failure_text o (get response (js "message")))) w)
          else
            match success_effect x response with
            | Throw err => finish i x (record (Toasted ErrorToast (error_text o err)) w)
            | Ok toast =>
                let w := record toast w in
                let w := match o with Apply => closeModal w | _ => w end in
                set_tasks (<[i := mkTask o ignored AwaitRefresh]> (tasks w)) (record Refresh w)
            end
      end
  | _ => w
  end.

(** After [await refresh()]; [Some]: it failed. *)
Definition after_reload (i : nat) (failed : option value) (w : Page) : Page :=
  match tasks w !! i with
  | Some (mkTask o _ AwaitRefresh as x) =>
      finish i x (match failed with Some err => record (Toasted ErrorToast (error_text o err)) w | None => w end)
  | _ => w
  end.

(** ** The dialog *)

Definition matching (search : jsstr) (models : list jsstr) : list jsstr :=
  List.filter (λ m, includes (toLowerCase search) (toLowerCase m)) models.

Definition set_delete (m : jsstr) (s : list jsstr) : list jsstr := List.filter (λ x, negb (streq x m)) s.

Definition toggleModel (model : jsstr) (s : list jsstr) : list jsstr :=
  if set_has s model then set_delete model s else js_add model s.

Definition toggleAllVisible (models s : list jsstr) : list jsstr :=
  if forallb (set_has s) models then foldl (λ s m, set_delete m s) s models else foldl (λ s m, js_add m s) s models.

Definition setSelectedAdd (s : list jsstr) (w : Page) : Page :=
  set_dialog (activeTab w) (searchAdd w) (searchRemove w) s (selectedRemove w) (partialConfirmOpen w) w.
Definition setSelectedRemove (s : list jsstr) (w : Page) : Page :=
  set_dialog (activeTab w) (searchAdd w) (searchRemove w) (selectedAdd w) s (partialConfirmOpen w) w.
Definition setPartialConfirmOpen (b : bool) (w : Page) : Page :=
  set_dialog (activeTab w) (searchAdd w) (searchRemove w) (selectedAdd w) (selectedRemove w) b w.

Definition nonempty {A} (l : list A) : bool := (0 <? length l)%nat.

Definition handleConfirm (w : Page) : Page :=
  if nonempty (addModels w) && nonempty (removeModels w) && xorb (nonempty (selectedAdd w)) (nonempty (selectedRemove w))
  then setPartialConfirmOpen true w
  else applyUpdates (selectedAdd w) (selectedRemove w) w.

(** The button that calls it is disabled while a request is under way or when there are no models. *)
Definition confirm_disabled (w : Page) : bool :=
  loading w Apply || (negb (nonempty (addModels w)) && negb (nonempty (removeModels w))).

(** The first render: [useState] and [useRef]; the sets are those of the lists at that time. *)
Definition init : Page :=
  mkPage false None [] [] AddTab (λ _, false) (λ _, false) AddTab [] [] (new_Set []) (new_Set []) false [] [].

Inductive Event :=
| Open (id : option Z) (add remove : list jsstr) (tab : DialogTab)
| Cancel
| ChooseTab (tab : DialogTab)
| SearchAdd (s : jsstr)
| SearchRemove (s : jsstr)
| ToggleAdd (m : jsstr)
| ToggleRemove (m : jsstr)
| ToggleAllAdd
| ToggleAllRemove
| Confirm
| PartialChange (open : bool)
| PartialConfirm
| ClickApplyAll
| ClickDetect (id : option Z)
| ClickDetectAll
| Answers (i : nat) (a : Answer)
| Refreshed (i : nat) (failed : option value).

Definition in_dialog (w : Page) (f : Page → Page) : Page := if showModal w then f w else w.

Definition step (w : Page) (e : Event) : Page :=
  match e with
  | Open id add remove tab => openModal id add remove tab w
  | Cancel => in_dialog w closeModal
  | ChooseTab tab => in_dialog w (λ w, set_dialog tab (searchAdd w) (searchRemove w) (selectedAdd w) (selectedRemove w) (partialConfirmOpen w) w)
  | SearchAdd s => in_dialog w (λ w, set_dialog (activeTab w) s (searchRemove w) (selectedAdd w) (selectedRemove w) (partialConfirmOpen w) w)
  | SearchRemove s => in_dialog w (λ w, set_dialog (activeTab w) (searchAdd w) s (selectedAdd w) (selectedRemove w) (partialConfirmOpen w) w)
  | ToggleAdd m => in_dialog w (λ w, if set_has (matching (searchAdd w) (addModels w)) m then setSelectedAdd (toggleModel m (selectedAdd w)) w else w)
  | ToggleRemove m => in_dialog w (λ w, if set_has (matching (searchRemove w) (removeModels w)) m then setSelectedRemove (toggleModel m (selectedRemove w)) w else w)
  | ToggleAllAdd => in_dialog w (λ w,
      let visible := matching (searchAdd w) (addModels w) in
      if nonempty visible then setSelectedAdd (toggleAllVisible visible (selectedAdd w)) w else w)
  | ToggleAllRemove => in_dialog w (λ w,
      let visible := matching (searchRemove w) (removeModels w) in
      if nonempty visible then setSelectedRemove (toggleAllVisible visible (selectedRemove w)) w else w)
  | Confirm => in_dialog w (λ w, if confirm_disabled w then w else handleConfirm w)
  | PartialChange b => if partialConfirmOpen w then setPartialConfirmOpen b w else w
  | PartialConfirm =>
      if partialConfirmOpen w
      then let w := setPartialConfirmOpen false w in applyUpdates (selectedAdd w) (selectedRemove w) w else w
  | ClickApplyAll => if loading w ApplyAll then w else applyAllUpdates w
  | ClickDetect id => detectChannelUpdates id w
  | ClickDetectAll => if loading w DetectAll then w else detectAllUpdates w
  | Answers i a => on_answer i a w
  | Refreshed i failed => after_reload i failed w
  end.

Definition run (es : list Event) : Page := foldl step init es.

(** ** One request of each kind at a time *)

Definition under_way (o : Operation) (x : Task) : Prop := operation x = o ∧ phase x ≠ Ended.

Definition requests (o : Operation) (w : Page) : list Task := filter (under_way o) (tasks w).

Definition latched (w : Page) : Prop :=
  ∀ o, loading w o = busy w o ∧ length (requests o w) = if busy w o then 1 else 0.

Lemma length_filter_insert {A} (P : A → Prop) `{∀ x, Decision (P x)} (l : list A) i x y : l !! i = Some x →
  length (filter P (<[i := y]> l)) + (if decide (P x) then 1 else 0) = length (filter P l) + (if decide (P y) then 1 else 0).
Proof.
  revert i. induction l as [|z l IH]; intros [|i]; [done..| |]; simpl.
  - intros [= ->]. rewrite !filter_cons. repeat case_decide; simpl; lia.
  - intros Hi. specialize (IH _ Hi). rewrite !filter_cons. destruct (decide (P z)); simpl; lia.
Qed.

(** Steps that touch neither the latches nor the requests. *)
Lemma latched_same w w' : loading w' = loading w → busy w' = busy w → tasks w' = tasks w → latched w → latched w'.
Proof. intros Hl Hb Ht Hw o. unfold requests. rewrite Hl, Hb, Ht. apply Hw. Qed.

Lemma latched_spawn o ignored post w : busy w o = false → latched w → latched (spawn o ignored post w).
Proof.
  intros Hb Hw o'. destruct (Hw o') as [Hl Hn]. unfold spawn, requests in *. cbn [loading busy tasks record set_latch set_tasks].
  rewrite filter_app, length_app, Hn, filter_cons, filter_nil. destruct (decide (o' = o)) as [->|Ho].
  - rewrite Hb. by rewrite (decide_True (P := under_way _ _)) by done.
  - rewrite (decide_False (P := under_way _ _)) by (intros [? _]; simpl in *; congruence). split; [done|]. simpl. lia.
Qed.

Lemma latched_finish i x w : tasks w !! i = Some x → phase x ≠ Ended → latched w → latched (finish i x w).
Proof.
  intros Hi Hx Hw o. destruct (Hw o) as [Hl Hn]. unfold finish, requests in *. cbn [loading busy tasks set_latch set_tasks].
  pose proof (length_filter_insert (under_way o) _ _ _ (mkTask (operation x) (ignoreModels x) Ended) Hi) as He.
  rewrite Hn, (decide_False (P := under_way o (mkTask _ _ Ended))) in He by (by intros [_ ?]).
  destruct (decide (o = operation x)) as [->|Ho].
  - rewrite decide_True in He by done. split; [done|]. destruct (busy w (operation x)); lia.
  - rewrite decide_False in He by (intros [? _]; congruence). split; [done|]. lia.
Qed.

Lemma latched_advance i o ignored w : tasks w !! i = Some (mkTask o ignored AwaitAnswer) → latched w →
  latched (set_tasks (<[i := mkTask o ignored AwaitRefresh]> (tasks w)) w).
Proof.
  intros Hi Hw o'. destruct (Hw o') as [Hl Hn]. split; [done|]. unfold requests in *. simpl.
  pose proof (length_filter_insert (under_way o') _ _ _ (mkTask o ignored AwaitRefresh) Hi) as He.
  destruct (decide (o = o')) as [->|Ho].
  - rewrite !decide_True in He by done. lia.
  - rewrite !decide_False in He by (intros [? _]; simpl in *; congruence). lia.
Qed.

Lemma latched_apply add remove w : latched w → latched (applyUpdates add remove w).
Proof.
  intros Hw. unfold applyUpdates. destruct (busy w Apply) eqn:Hb; [done|].
  destruct (channel w) as [id|]; [|by apply (latched_same w)].
  destruct (id =? 0)%Z; [by apply (latched_same w)|by apply latched_spawn].
Qed.

Lemma latched_answer i a w : latched w → latched (on_answer i a w).
Proof.
  intros Hw. unfold on_answer. destruct (tasks w !! i) as [ [o ignored []]|] eqn:Hi; try done.
  assert (∀ text, latched (finish i (mkTask o ignored AwaitAnswer) (record (Toasted ErrorToast text) w))) as Hf
    by (intros text; by apply latched_finish, (latched_same w)).
  destruct a as [err|data]; [apply Hf|]. destruct (negb _); [apply Hf|].
  destruct (success_effect _ _) as [toast|err]; [|apply Hf].
  apply (latched_advance i o ignored (record Refresh _)); [by destruct o|]. apply (latched_same w); by destruct o.
Qed.

Lemma latched_refreshed i failed w : latched w → latched (after_reload i failed w).
Proof.
  intros Hw. unfold after_reload. destruct (tasks w !! i) as [ [o ignored []]|] eqn:Hi; try done.
  apply latched_finish; [by destruct failed|done|]. apply (latched_same w); by destruct failed.
Qed.

Lemma latched_step e w : latched w → latched (step w e).
Proof.
  intros Hw. assert (∀ f, (latched w → latched (f w)) → latched (in_dialog w f)) as Hd.
  { intros f Hf. unfold in_dialog. destruct (showModal w); auto. }
  destruct e; simpl; try apply Hd; try (intros _; repeat case_match; by apply (latched_same w)).
  - unfold openModal. destruct id as [id|]; [destruct (_ || _)|]; by apply (latched_same w).
  - intros _. destruct (confirm_disabled w); [done|]. unfold handleConfirm. destruct (_ && _); [by apply (latched_same w)|].
    by apply latched_apply.
  - destruct (partialConfirmOpen w); [by apply (latched_same w)|done].
  - destruct (partialConfirmOpen w); [|done]. by apply latched_apply, (latched_same w).
  - unfold applyAllUpdates. destruct (loading w ApplyAll), (busy w ApplyAll) eqn:Hb; try done. by apply latched_spawn.
  - unfold detectChannelUpdates. destruct (busy w Detect) eqn:Hb; [done|]. destruct id as [id|]; [|done].
    destruct (id =? 0)%Z; [done|by apply latched_spawn].
  - unfold detectAllUpdates. destruct (loading w DetectAll), (busy w DetectAll) eqn:Hb; try done. by apply latched_spawn.
  - by apply latched_answer.
  - by apply latched_refreshed.
Qed.

(** Whatever is clicked and in whatever order the answers come, at most one request of
    each kind is under way, its latch is taken exactly while it is, and so is the state that
    disables its button. *)
Theorem one_update_at_a_time (es : list Event) : latched (run es).
Proof.
  unfold run. assert (latched init) as Hi by (by intros []). revert Hi. generalize init.
  induction es as [|e es IH]; intros w Hw; [done|]. by apply IH, latched_step.
Qed.

(** A request ends with its answer and the reload that follows, whatever they are: then
    its latch is free again. *)
Theorem updates_end (es : list Event) (i : nat) (x : Task) (a : Answer) (failed : option value) :
  tasks (run es) !! i = Some x → phase x ≠ Ended →
  let w := step (step (run es) (Answers i a)) (Refreshed i failed) in
  (∃ y, tasks w !! i = Some y ∧ phase y = Ended) ∧ busy w (operation x) = false ∧ loading w (operation x) = false.
Proof.
  generalize (run es). intros w Hi Hx w'. unfold w'. clear w'. cbn [step].
  assert (∀ (v : Page) (y : Task), tasks v !! i = Some y → operation y = operation x →
    let v' := finish i y v in (∃ y, tasks v' !! i = Some y ∧ phase y = Ended) ∧
      busy v' (operation x) = false ∧ loading v' (operation x) = false) as Hf.
  { intros v y Hy Ho. cbn [finish set_latch set_tasks tasks busy loading]. split; [|by rewrite Ho; destruct (decide _)].
    eexists. rewrite list_lookup_insert_eq by (by eapply lookup_lt_Some). done. }
  assert (∀ (v : Page) (y : Task), tasks v !! i = Some y → operation y = operation x → phase y = AwaitRefresh →
    let v' := after_reload i failed v in (∃ y, tasks v' !! i = Some y ∧ phase y = Ended) ∧
      busy v' (operation x) = false ∧ loading v' (operation x) = false) as Hr.
  { intros v [o ignored ph] Hy Ho Hp. simpl in Hp. subst ph. unfold after_reload. rewrite Hy. apply Hf; [by destruct failed|done]. }
  assert (∀ v, (∃ y, tasks v !! i = Some y ∧ phase y = Ended) → after_reload i failed v = v) as Hs.
  { intros v ([o ignored ph] & Hy & Hp). simpl in Hp. subst ph. unfold after_reload. by rewrite Hy. }
  destruct x as [o ignored []]; [|unfold on_answer; rewrite Hi; by eapply Hr|done].
  unfold on_answer. rewrite Hi.
  assert (∀ text, let v := finish i (mkTask o ignored AwaitAnswer) (record (Toasted ErrorToast text) w) in
    (∃ y, tasks (after_reload i failed v) !! i = Some y ∧ phase y = Ended) ∧
    busy (after_reload i failed v) o = false ∧ loading (after_reload i failed v) o = false) as He.
  { intros text v. destruct (Hf (record (Toasted ErrorToast text) w) (mkTask o ignored AwaitAnswer)) as [Hy Hb]; [done..|].
    unfold v. rewrite Hs by exact Hy. by split. }
  destruct a as [err|data]; [apply He|]. destruct (negb _); [apply He|].
  destruct (success_effect _ _) as [toast|err]; [|apply He].
  eapply Hr; [simpl; apply list_lookup_insert_eq|done|done].
  apply lookup_lt_Some in Hi. by destruct o.
Qed.

(** ** What is applied *)

(** What a request carries when the dialog is confirmed in [w]. *)
Definition decided (w : Page) (id : Z) (add ignore remove : list jsstr) : Prop :=
  showModal w = true ∧ channel w = Some id ∧ id ≠ 0%Z ∧
  add = normalize_texts (selectedAdd w) ∧ remove = normalize_texts (selectedRemove w) ∧
  ∀ m, m ∈ ignore ↔ m ∈ addModels w ∧ ¬ (m ∈ add).

Definition modal_open (w : Page) : Prop := showModal w = true ↔ channel w ≠ None.

Lemma modal_same w w' : showModal w' = showModal w → channel w' = channel w → modal_open w → modal_open w'.
Proof. unfold modal_open. by intros -> ->. Qed.

Lemma modal_close w : modal_open (closeModal w).
Proof. done. Qed.

Lemma modal_apply add remove w : modal_open w → modal_open (applyUpdates add remove w).
Proof.
  intros Hw. unfold applyUpdates. destruct (busy w Apply); [done|]. destruct (channel w) eqn:Hc; [|apply modal_close].
  destruct (_ =? 0)%Z; [apply modal_close|by apply (modal_same w)].
Qed.

Lemma modal_answer i a w : modal_open w → modal_open (on_answer i a w).
Proof.
  intros Hw. unfold on_answer. destruct (tasks w !! i) as [ [o ignored []]|]; try done.
  destruct a as [err|data]; [by apply (modal_same w)|]. destruct (negb _); [by apply (modal_same w)|].
  destruct (success_effect _ _); [|by apply (modal_same w)]. destruct o; [apply modal_close|by apply (modal_same w)..].
Qed.

Lemma modal_step e w : modal_open w → modal_open (step w e).
Proof.
  intros Hw. assert (∀ f, (modal_open w → modal_open (f w)) → modal_open (in_dialog w f)) as Hd.
  { intros f Hf. unfold in_dialog. destruct (showModal w); auto. }
  destruct e; simpl; try apply Hd; try (intros _; repeat case_match; by apply (modal_same w)).
  - unfold openModal. destruct id as [id|]; [destruct (_ || _); [|by split]|]; by apply (modal_same w).
  - intros _. apply modal_close.
  - intros _. destruct (confirm_disabled w); [done|]. unfold handleConfirm. destruct (_ && _); [by apply (modal_same w)|].
    by apply modal_apply.
  - destruct (partialConfirmOpen w); [by apply (modal_same w)|done].
  - destruct (partialConfirmOpen w); [|done]. by apply modal_apply, (modal_same w).
  - unfold applyAllUpdates. repeat case_match; try done; by apply (modal_same w).
  - unfold detectChannelUpdates. repeat case_match; try done; by apply (modal_same w).
  - unfold detectAllUpdates. repeat case_match; try done; by apply (modal_same w).
  - by apply modal_answer.
  - unfold after_reload. destruct (tasks w !! i) as [ [o ignored []]|]; try done. by destruct failed; apply (modal_same w).
Qed.

Definition is_apply (x : Effect) : bool := match x with PostApply _ _ _ _ => true | _ => false end.

(** The requests to apply that a step adds. *)
Definition applies (w : Page) : list Effect := List.filter is_apply (log w).

Lemma applies_record x w : is_apply x = false → applies (record x w) = applies w.
Proof. intros Hx. unfold applies. simpl. rewrite List.filter_app. simpl. rewrite Hx. apply app_nil_r. Qed.

Lemma applies_apply w x : modal_open w → x ∈ applies (applyUpdates (selectedAdd w) (selectedRemove w) w) →
  x ∈ applies w ∨ ∃ id add ignore remove, x = PostApply id add ignore remove ∧ decided w id add ignore remove.
Proof.
  intros Hw. unfold applyUpdates. destruct (busy w Apply); [by left|]. destruct (channel w) as [id|] eqn:Hc; [|by left].
  destruct (id =? 0)%Z eqn:Hz; [by left|]. unfold applies at 1. simpl. rewrite List.filter_app, elem_of_app. simpl.
  intros [Hx | ->%list_elem_of_singleton]; [by left|]. right. do 4 eexists. split; [done|].
  split_and!; [by apply Hw; rewrite Hc|done|by apply Z.eqb_neq|done|done|].
  intros m. rewrite elem_of_filter_bool, negb_true_iff, <- not_true_iff_false, set_has_spec, new_Set_elem. naive_solver.
Qed.

Lemma success_not_apply x response toast : success_effect x response = Ok toast → is_apply toast = false.
Proof.
  unfold success_effect. destruct (operation x).
  - destruct (getManualIgnoredModelCount _); [|done]. by intros [= <-].
  - by intros [= <-].
  - by intros [= <-].
  - by intros [= <-].
Qed.

Lemma applies_answer i a w : applies (on_answer i a w) = applies w.
Proof.
  unfold on_answer. destruct (tasks w !! i) as [ [o ignored []]|]; try done.
  destruct a as [err|data]; [by apply applies_record|]. destruct (negb _); [by apply applies_record|].
  destruct (success_effect _ _) as [toast|] eqn:Hs; [|by apply applies_record]. apply success_not_apply in Hs.
  etrans; [by apply (applies_record Refresh)|]. destruct o; by apply applies_record.
Qed.

Lemma applies_step e w x : modal_open w → x ∈ applies (step w e) →
  x ∈ applies w ∨ (e = Confirm ∨ e = PartialConfirm) ∧
    ∃ id add ignore remove, x = PostApply id add ignore remove ∧ decided w id add ignore remove.
Proof.
  intros Hw. assert (∀ f, applies (f w) = applies w → applies (in_dialog w f) = applies w) as Hd.
  { intros f Hf. unfold in_dialog. by destruct (showModal w). }
  destruct e; simpl; try (rewrite Hd by (repeat case_match; done); by left).
  - unfold openModal. destruct id as [id|]; [destruct (_ || _)|]; rewrite ?applies_record by done; by left.
  - unfold in_dialog. destruct (showModal w); [|by left]. destruct (confirm_disabled w); [by left|]. unfold handleConfirm.
    destruct (_ && _); [by left|]. intros [Hx|Hx]%applies_apply; [by left|right; by split; [left|]|done].
  - destruct (partialConfirmOpen w); by left.
  - destruct (partialConfirmOpen w); [|by left].
    intros [Hx|Hx]%(applies_apply (setPartialConfirmOpen false w)); [by left|right; by split; [right|]|done].
  - unfold applyAllUpdates. destruct (loading w ApplyAll), (busy w ApplyAll); try by left.
    unfold spawn, applies at 1. simpl. rewrite List.filter_app, elem_of_app. intros [Hx|[]%elem_of_nil]. by left.
  - unfold detectChannelUpdates. destruct (busy w Detect); [by left|]. destruct id as [id|]; [|by left].
    destruct (id =? 0)%Z; [by left|]. unfold spawn, applies at 1. simpl. rewrite List.filter_app, elem_of_app. intros [Hx|[]%elem_of_nil]. by left.
  - unfold detectAllUpdates. destruct (loading w DetectAll), (busy w DetectAll); try by left.
    unfold spawn, applies at 1. simpl. rewrite List.filter_app, elem_of_app. intros [Hx|[]%elem_of_nil]. by left.
  - rewrite applies_answer. by left.
  - unfold after_reload. destruct (tasks w !! i) as [ [o ignored []]|]; try by left.
    destruct failed as [err|]; [|by left]. pose proof (applies_record (Toasted ErrorToast (error_text o err)) w eq_refl) as Hr.
    change (applies (finish i _ _)) with (applies (record (Toasted ErrorToast (error_text o err)) w)). rewrite Hr. by left.
Qed.

Lemma run_snoc es e : run (es ++ [e]) = step (run es) e.
Proof. unfold run. by rewrite foldl_app. Qed.

Lemma run_modal es : modal_open (run es).
Proof.
  induction es as [|e es IH] using rev_ind; [done|]. rewrite run_snoc. by apply modal_step.
Qed.

(** [C16] A request to apply updates is made only when the dialog, open for its channel, is
    confirmed: it adds the selected models, removes those selected for removal, and ignores
    exactly the offered ones that are not added. *)
Theorem applied_updates_exact (es : list Event) (id : Z) (add ignore remove : list jsstr) :
  PostApply id add ignore remove ∈ log (run es) →
  ∃ es1 e es2, es = es1 ++ e :: es2 ∧ (e = Confirm ∨ e = PartialConfirm) ∧ decided (run es1) id add ignore remove.
Proof.
  intros Hx. assert (PostApply id add ignore remove ∈ applies (run es)) as H0 by (by apply elem_of_filter_bool). clear Hx.
  induction es as [|e es IH] using rev_ind; [by apply elem_of_nil in H0|]. rewrite run_snoc in H0.
  destruct (applies_step e _ _ (run_modal es) H0) as [Hx|(He & ? & ? & ? & ? & [= -> -> -> ->] & Hd)].
  - destruct (IH Hx) as (es1 & e' & es2 & -> & He). exists es1, e', (es2 ++ [e]). by rewrite <- app_assoc.
  - by exists es, e, [].
Qed.

(** ** Selections that are not those of the channel *)

(** Opening the dialog leaves the selection as it was: the sets were made when it was mounted. *)
Lemma opening_keeps_selection id add remove tab w :
  selectedAdd (step w (Open id add remove tab)) = selectedAdd w ∧
  selectedRemove (step w (Open id add remove tab)) = selectedRemove w.
Proof. simpl. unfold openModal. destruct id as [id|]; [|done]. by destruct (_ || _). Qed.

Lemma open_normal id add remove tab w : id ≠ 0%Z → normalize_texts add ≠ [] →
  openModal (Some id) add remove tab w = set_modal true (Some id) (normalize_texts add) (normalize_texts remove) tab w.
Proof.
  intros Hid Ha. unfold openModal. rewrite (proj2 (Z.eqb_neq _ _) Hid).
  destruct (normalize_texts add) eqn:E; [done|]. rewrite <- E. destruct (0 <? _)%nat eqn:El; [done|].
  apply Nat.ltb_ge in El. rewrite E in El. simpl in El. lia.
Qed.

(** What confirming sends, without the question that is asked when only one kind is selected. *)
Lemma confirm_sends w id : showModal w = true → channel w = Some id → id ≠ 0%Z → addModels w ≠ [] → removeModels w = [] →
  busy w Apply = false → loading w Apply = false →
  let add := normalize_texts (selectedAdd w) in
  let ignored := List.filter (λ m, negb (set_has (new_Set add) m)) (addModels w) in
  step w Confirm = spawn Apply ignored (PostApply id add ignored (normalize_texts (selectedRemove w))) w.
Proof.
  intros Hs Hc Hid Ha Hr Hb Hl add ignored. cbn [step]. unfold in_dialog, confirm_disabled, handleConfirm, applyUpdates.
  rewrite Hs, Hl, Hr, Hb, Hc, (proj2 (Z.eqb_neq _ _) Hid). by destruct (addModels w).
Qed.

Lemma none_selected (l : list jsstr) : List.filter (λ m, negb (set_has (new_Set []) m)) l = l.
Proof.
  induction l as [|m l IH]; [done|]. cbn [List.filter].
  assert (set_has (new_Set []) m = false) as -> by (apply bool_decide_eq_false, not_elem_of_nil). cbn [negb]. by f_equal.
Qed.

(** The first dialog of a page has nothing selected: confirming it ignores all that was found. *)
Theorem fresh_dialog_ignores_all (id : Z) (add : list jsstr) (tab : DialogTab) :
  id ≠ 0%Z → normalize_texts add ≠ [] →
  log (run [Open (Some id) add [] tab; Confirm]) = [PostApply id [] (normalize_texts add) []].
Proof.
  intros Hid Ha. unfold run. cbn [foldl].
  assert (step init (Open (Some id) add [] tab) = set_modal true (Some id) (normalize_texts add) [] tab init) as ->
    by (by apply open_normal).
  rewrite (confirm_sends _ id) by done. cbn [log spawn set_tasks record set_latch set_modal init app selectedAdd selectedRemove addModels].
  change (normalize_texts (new_Set [])) with (@nil jsstr). by rewrite none_selected.
Qed.

(** The selection of one channel is still there when the next one is opened, where it is not
    even shown: its models are added to that channel too. *)
Theorem selection_carried_over (a b : Z) (m n : jsstr) :
  a ≠ 0%Z → b ≠ 0%Z → m ≠ n → normalize_texts [m] = [m] → normalize_texts [n] = [n] → toLowerCase [] = [] →
  let ok := Answered (Obj [(js "success", Bool true)]) in
  filter (λ x, is_apply x = true)
    (log (run [Open (Some a) [m] [] AddTab; ToggleAdd m; Confirm; Answers 0 ok; Refreshed 0 None; Open (Some b) [n] [] AddTab; Confirm])) =
  [PostApply a [m] [] []; PostApply b [m] [n] []].
Proof.
  intros Ha Hb Hne Hm Hn Hlow ok. unfold run. cbn [foldl].
  assert (∀ (x : jsstr), x ≠ m → List.filter (λ y, negb (set_has (new_Set [m]) y)) [x] = [x]) as Hx.
  { intros x Hx. simpl. unfold set_has. by rewrite bool_decide_false by (by intros ?%list_elem_of_singleton). }
  assert (List.filter (λ y, negb (set_has (new_Set [m]) y)) [m] = []) as Hmm.
  { simpl. unfold set_has. by rewrite bool_decide_true by (by left). }
  assert (step init (Open (Some a) [m] [] AddTab) = set_modal true (Some a) [m] [] AddTab init) as ->.
  { cbn [step]. by rewrite open_normal, Hm by (rewrite ?Hm; done). }
  assert (∀ w, showModal w = true → searchAdd w = [] → addModels w = [m] → selectedAdd w = [] →
    step w (ToggleAdd m) = setSelectedAdd [m] w) as Htoggle.
  { intros w Hs Hse Had Hsel. cbn [step]. unfold in_dialog, matching. rewrite Hs, Hse, Hlow, Had, Hsel. cbn.
    assert (includes [] (toLowerCase m) = true) as -> by (by destruct (toLowerCase m)).
    unfold set_has at 1. by rewrite bool_decide_true by (by left). }
  rewrite Htoggle, (confirm_sends (setSelectedAdd [m] _) a) by done. cbn [selectedAdd selectedRemove addModels setSelectedAdd set_dialog set_modal]. rewrite Hm, Hmm.
  set (w := spawn _ _ _ _).
  assert (∃ text, step (step w (Answers 0 ok)) (Refreshed 0 None) =
    finish 0 (mkTask Apply [] AwaitRefresh) (set_tasks [mkTask Apply [] AwaitRefresh] (record Refresh (closeModal (record (Toasted SuccessToast text) w)))))
    as [text ->] by (by eexists).
  assert (∀ v, step v (Open (Some b) [n] [] AddTab) = set_modal true (Some b) [n] [] AddTab v) as ->.
  { intros v. cbn [step]. by rewrite open_normal, Hn by (rewrite ?Hn; done). }
  rewrite (confirm_sends _ b) by done.
  cbn [selectedAdd selectedRemove addModels set_latch set_tasks set_modal finish record closeModal w spawn setSelectedAdd set_dialog]. rewrite Hm, Hx by done.
  reflexivity.
Qed.

(** The answer to a request closes whatever dialog is open by then. *)
Theorem late_answer_closes (es : list Event) (i : nat) (ignored : list jsstr) (data : value) (toast : Effect) :
  let w := run es in
  tasks w !! i = Some (mkTask Apply ignored AwaitAnswer) → value_truthy (get data (js "success")) = true →
  success_effect (mkTask Apply ignored AwaitAnswer) data = Ok toast →
  showModal (step w (Answers i (Answered data))) = false ∧ channel (step w (Answers i (Answered data))) = None.
Proof.
  intros w Hi Hs Ht. assert (value_or data (Obj []) = data) as Ed by (by destruct data).
  cbn [step]. unfold on_answer. rewrite Hi, Ed, Hs, Ht. done.
Qed.

End Updates.

(** ** A concrete page *)

#[local] Existing Instance sample_json.

Definition sample_t (text : jsstr) (_ : list (jsstr * value)) : jsstr := text.

Definition sample_run : list Event → Page := run sample_t id (Obj []).

Definition sample_events : list Event :=
  [Open (Some 7%Z) [js "gpt-5"; js " o3 "] [] AddTab; ToggleAdd (js "o3"); Confirm].

Lemma applied_updates_exact_witness :
  ∃ es1 e es2, sample_events = es1 ++ e :: es2 ∧ (e = Confirm ∨ e = PartialConfirm) ∧
    decided (sample_run es1) 7 [js "o3"] [js "gpt-5"] [].
Proof. apply (applied_updates_exact sample_t id (Obj [])). vm_compute. apply list_elem_of_here. Defined.

(** A request that is answered while its dialog was cancelled and another opened. *)
Lemma updates_end_witness :
  let es := sample_events ++ [Cancel; Open (Some 8%Z) [js "o4"] [] AddTab] in
  let w := foldl (step sample_t id (Obj [])) (sample_run es) [Answers 0 (Rejected Null); Refreshed 0 None] in
  showModal w = true ∧ busy w Apply = false.
Proof.
  intros es w. split; [reflexivity|].
  destruct (updates_end sample_t id (Obj []) es 0 (mkTask Apply [js "gpt-5"] AwaitAnswer) (Rejected Null) None) as (_ & Hb & _);
    [reflexivity|done|exact Hb].
Defined.

End Upstream.
