(* ===== verification/ChannelList.v ===== *)
(** * The list of channels: rows of tags, keys and attention
      (web/src/features/channels/lib/channel-utils.ts)

    With tags on, the table shows one row per tag that sums up its channels. Quotas and counts
    are whole numbers; the running mean of the response times is arithmetic on doubles, a
    parameter. Labels, icons, colors and the formatting of amounts and times are left out. *)
From S2P Require Import Prelude JsString JsMap JsValue.
Local Open Scope js_scope.

Module ChannelList.

(** [number | null | undefined] *)
Inductive Nullish := Missing | IsNull | Value (z : Z).

#[export] Instance Nullish_eq_dec : EqDecision Nullish.
Proof. solve_decision. Defined.

Record ChannelInfo := mkInfo {
  is_multi_key : bool; multi_key_size : Z; multi_key_status_list : option (list (jsstr * Z)) }.

Record Channel := mkChannel {
  id : Z; key : jsstr; name : jsstr; type : Z; status : Z; group : jsstr; tag : option jsstr; used_quota : Z;
  response_time : jsnum; priority : Nullish; weight : Nullish; balance : jsnum; models : jsstr;
  channel_info : option ChannelInfo }.

(** A row of a tag: the fields that are computed, its children, and the channel whose other
    fields it copies. The fields that are reset to constants ([type], [models], [balance] and
    the times) are not repeated. *)
Record TagRow := mkRow {
  row_tag : jsstr; copied : Channel; row_status : option Z; row_group : jsstr; row_quota : Z;
  row_response : jsnum; row_priority : Nullish; row_weight : Nullish; children : list Channel }.

Section Rows.
(** [(average * (n - 1) + x) / n] *)
Context (mean : jsnum → nat → jsnum → jsnum).

Definition tag_of (c : Channel) : jsstr := default [] (tag c).

Definition newTagRow (c : Channel) : TagRow :=
  mkRow (tag_of c) c None [] 0 (num_of_Z 0) (Value (-1)) (Value (-1)) [].

(** "Same value or null if different"; [-1] stands for no value yet. *)
Definition common (old new : Nullish) : Nullish :=
  if bool_decide (old = Value (-1)) then new else if bool_decide (old = new) then old else IsNull.

(** [s.split(',').filter(Boolean)] *)
Definition groups_of (s : jsstr) : list jsstr := List.filter truthy (split_on 44 s).

Definition merge_group (old new : jsstr) : jsstr :=
  if negb (truthy old) then new
  else
    let existingGroups := new_Set (groups_of old) in
    foldl (λ acc g, if set_has existingGroups g then acc else acc ++ js "," ++ g) old (groups_of new).

Definition addChannel (r : TagRow) (c : Channel) : TagRow :=
  let children := children r ++ [c] in
  mkRow (row_tag r) (copied r)
    (if (status c =? 1)%Z then Some 1%Z else match row_status r with None => Some (status c) | s => s end)
    (merge_group (row_group r) (group c))
    (row_quota r + used_quota c)
    (mean (row_response r) (length children) (response_time c))
    (common (row_priority r) (priority c)) (common (row_weight r) (weight c)) children.

(** The rows of [result] are the values of [tagMap], in the order of insertion. *)
Definition aggregateChannelsByTag (channels : list Channel) : list TagRow :=
  jm_values (accumulate tag_of newTagRow addChannel channels).

Definition getChannelTableRowId (row : Channel + TagRow) : jsstr :=
  match row with
  | inr r => js "tag:" ++ row_tag r
  | inl c => js "channel:" ++ show_Z (id c)
  end.

(** ** Keys *)

Definition lines_of (s : jsstr) : list jsstr := split_on 10 s.

Definition countKeys (key : jsstr) : nat :=
  if negb (truthy key) then 0 else length (List.filter (λ k, truthy (trim k)) (lines_of key)).

Record Deduplicated := mkDedup { deduplicatedText : jsstr; beforeCount : nat; afterCount : nat; removedCount : Z }.

(** The loop, with the set and the list it keeps. *)
Definition dedup_line (st : list jsstr * list jsstr) (line : jsstr) : list jsstr * list jsstr :=
  let '(keySet, deduplicatedKeys) := st in
  let trimmedLine := trim line in
  if truthy trimmedLine && negb (set_has keySet trimmedLine)
  then (js_add trimmedLine keySet, deduplicatedKeys ++ [trimmedLine]) else st.

Definition deduplicateKeys (keysText : jsstr) : Deduplicated :=
  if negb (truthy keysText) || negb (truthy (trim keysText)) then mkDedup [] 0 0 0
  else
    let keyLines := lines_of keysText in
    let deduplicatedKeys := snd (foldl dedup_line ([], []) keyLines) in
    mkDedup (join [10%N] deduplicatedKeys) (length keyLines) (length deduplicatedKeys)
      (Z.of_nat (length keyLines) - Z.of_nat (length deduplicatedKeys)).

Definition formatChannelKey (key : jsstr) (isMultiKey : bool) : jsstr :=
  let slice_end n := drop (length key - n) key in
  if negb (truthy key) then []
  else if isMultiKey then show_N (N.of_nat (length (List.filter (λ k, truthy (trim k)) (lines_of key)))) ++ js " keys"
  else if (length key <=? 16)%nat then take 4 key ++ js "..." ++ slice_end 4
  else take 8 key ++ js "..." ++ slice_end 8.

Definition formatKeyPreview (key : jsstr) (maxLength : nat) : jsstr :=
  if negb (truthy key) then []
  else if (length key <=? maxLength)%nat then key else take maxLength key ++ js "...".

(** ** Attention *)

Definition low_balance (c : Channel) : bool := num_lt (num_of_Z 0) (balance c) && num_lt (balance c) (num_of_Z 1).

Definition all_keys_disabled (c : Channel) : bool :=
  match channel_info c with
  | Some (mkInfo true size (Some l)) => (size <=? Z.of_nat (length (jm_keys l)))%Z
  | _ => false
  end.

Definition channelNeedsAttention (c : Channel) : bool :=
  if (status c =? 3)%Z then true else if low_balance c then true else if all_keys_disabled c then true else false.

Definition getAttentionReason (c : Channel) : option jsstr :=
  if (status c =? 3)%Z then Some (js "Auto-disabled")
  else if low_balance c then Some (js "Low balance")
  else if all_keys_disabled c then Some (js "All keys disabled") else None.

(** ** Rows of tags *)

Lemma split_on_sep c a b : split_on c (a ++ c :: b) = split_on c a ++ split_on c b.
Proof.
  induction a as [|d a IH]; cbn [app split_on]; [by rewrite N.eqb_refl|].
  destruct (d =? c)%N; rewrite IH; [done|]. destruct (split_on c a) as [|p ps] eqn:E; [|done].
  exfalso. destruct a; [done|]. cbn in E. destruct (_ =? _)%N; [done|]. by destruct (split_on c a).
Qed.

Lemma groups_of_sep a b : groups_of (a ++ js "," ++ b) = groups_of a ++ groups_of b.
Proof. unfold groups_of. change (js "," ++ b) with (44%N :: b). by rewrite split_on_sep, List.filter_app. Qed.

Lemma groups_of_item s g : g ∈ groups_of s → groups_of g = [g].
Proof.
  intros [Hg Hin]%elem_of_filter_bool. unfold groups_of.
  rewrite split_on_free by (by apply (proj1 (Forall_forall _ _) (split_free 44 s))). simpl. by rewrite Hg.
Qed.

Lemma merge_group_elem old new g : g ∈ groups_of (merge_group old new) ↔ g ∈ groups_of old ∨ g ∈ groups_of new.
Proof.
  unfold merge_group. destruct (truthy old) eqn:Ho; cbn [negb].
  - set (set := new_Set (groups_of old)).
    assert (∀ acc l, (∀ x, x ∈ groups_of old → x ∈ groups_of acc) → (∀ x, x ∈ l → groups_of x = [x]) →
      g ∈ groups_of (foldl (λ acc g, if set_has set g then acc else acc ++ js "," ++ g) acc l) ↔ g ∈ groups_of acc ∨ g ∈ l) as Hl.
    { intros acc l. revert acc. induction l as [|x l IH]; intros acc Hacc Hl; [rewrite elem_of_nil; naive_solver|]. cbn [foldl].
      rewrite elem_of_cons. destruct (set_has set x) eqn:Hs.
      - rewrite IH; [|done|intros; apply Hl; by right]. apply set_has_spec in Hs. unfold set in Hs. rewrite new_Set_elem in Hs.
        apply Hacc in Hs. naive_solver.
      - rewrite IH; [|intros; rewrite groups_of_sep; set_solver|intros; apply Hl; by right].
        rewrite groups_of_sep, (Hl x) by (by left). set_solver. }
    apply Hl; [done|]. intros x Hx. by eapply groups_of_item.
  - apply truthy_false in Ho. subst old. change (groups_of []) with (@nil jsstr). rewrite elem_of_nil. naive_solver.
Qed.

(** The value all have, or null. *)
Definition shared (l : list Nullish) : Nullish :=
  match l with
  | [] => Value (-1)
  | x :: l => if decide (Forall (eq x) l) then x else IsNull
  end.

Lemma fold_null l : foldl common IsNull l = IsNull.
Proof. induction l as [|x l IH]; [done|]. cbn [foldl]. unfold common at 2. simpl. by destruct (bool_decide (IsNull = x)). Qed.

Lemma fold_common x l : x ≠ Value (-1) → foldl common x l = if decide (Forall (eq x) l) then x else IsNull.
Proof.
  intros Hx. induction l as [|y l IH]; [by rewrite decide_True by constructor|]. cbn [foldl]. unfold common at 2.
  rewrite bool_decide_false by done. destruct (decide (x = y)) as [<-|Hy].
  - rewrite bool_decide_true, IH by done. apply decide_ext. rewrite Forall_cons. naive_solver.
  - rewrite bool_decide_false, fold_null by done. by rewrite decide_False by (by intros [? _]%Forall_cons).
Qed.

(** The values without the leading ones that are [-1], which count as none. *)
Fixpoint counted (l : list Nullish) : list Nullish :=
  match l with
  | x :: rest => if bool_decide (x = Value (-1)) then counted rest else l
  | [] => []
  end.

Lemma fold_shared l : foldl common (Value (-1)) l = shared (counted l).
Proof.
  induction l as [|x l IH]; [done|]. cbn [foldl counted]. unfold common at 2. simpl.
  destruct (bool_decide_reflect (x = Value (-1))) as [->|Hx]; [done|]. by apply fold_common.
Qed.

Lemma counted_all l : Forall (λ x, x ≠ Value (-1)) l → counted l = l.
Proof. destruct 1 as [|x l Hx _]; [done|]. simpl. by rewrite bool_decide_false. Qed.

(** What a row says of the channels it sums up. *)
Record row_for (cs : list Channel) (r : TagRow) : Prop := {
  for_children : children r = cs;
  for_quota : row_quota r = sumZ used_quota cs;
  for_status : row_status r = if existsb (λ c, (status c =? 1)%Z) cs then Some 1%Z else status <$> head cs;
  for_groups : ∀ g, g ∈ groups_of (row_group r) ↔ ∃ c, c ∈ cs ∧ g ∈ groups_of (group c);
  for_priority : row_priority r = shared (counted (map priority cs));
  for_weight : row_weight r = shared (counted (map weight cs))
}.

Lemma summed_row c cs : let r := foldl addChannel (newTagRow c) cs in
  row_tag r = tag_of c ∧ row_priority r = foldl common (Value (-1)) (map priority cs) ∧
  row_weight r = foldl common (Value (-1)) (map weight cs) ∧ children r = cs ∧ row_quota r = sumZ used_quota cs ∧
  row_status r = (if existsb (λ c, (status c =? 1)%Z) cs then Some 1%Z else status <$> head cs) ∧
  ∀ g, g ∈ groups_of (row_group r) ↔ ∃ c, c ∈ cs ∧ g ∈ groups_of (group c).
Proof.
  induction cs as [|x cs IH] using rev_ind.
  { split_and!; [done..|]. intros g. cbn [foldl newTagRow row_group]. change (groups_of []) with (@nil jsstr). rewrite elem_of_nil. split; [done|]. by intros (? & []%elem_of_nil & _). }
  cbv zeta in *. rewrite foldl_app. cbn [foldl]. destruct IH as (Ht & Hp & Hw & Hc & Hq & Hs & Hg).
  set (r := foldl addChannel (newTagRow c) cs) in *. unfold addChannel.
  cbn [row_tag row_priority row_weight children row_quota row_status row_group].
  rewrite Ht, Hp, Hw, Hc, Hq, Hs, !map_app, !foldl_app, sumZ_app, existsb_app. split_and!; [done..|cbn; lia| |].
  - cbn. rewrite orb_false_r. destruct (existsb _ cs) eqn:E, (status x =? 1)%Z; cbn; try done. by destruct cs.
  - intros g. rewrite merge_group_elem, Hg. set_solver.
Qed.

Lemma first_keys l m : jm_keys (foldl (acc_step tag_of newTagRow addChannel) m l) = foldl (λ s x, js_add x s) (jm_keys m) (map tag_of l).
Proof.
  revert m. induction l as [|c l IH]; intros m; [done|]. cbn [foldl map]. rewrite IH. unfold acc_step at 1. rewrite jm_keys_set. done.
Qed.

Lemma row_tags m : (∀ k r, (k, r) ∈ m → row_tag r = k) → map row_tag (jm_values m) = jm_keys m.
Proof.
  intros Hm. unfold jm_values, jm_keys. rewrite map_map. apply map_ext_in. intros [k r] Hin%list_elem_of_In. by apply Hm.
Qed.

Lemma rows_for k r channels : (k, r) ∈ accumulate tag_of newTagRow addChannel channels →
  row_tag r = k ∧ row_for (filter (λ c, tag_of c = k) channels) r.
Proof.
  intros (c & cs & Hf & Hk & ->)%accumulate_elem. rewrite Hf.
  destruct (summed_row c (c :: cs)) as (Ht & Hp & Hw & Hc & Hq & Hs & Hg). split; [by rewrite Ht|].
  split; [done..| |]; rewrite ?Hp, ?Hw; apply fold_shared.
Qed.

Lemma tags_of_rows channels : map row_tag (aggregateChannelsByTag channels) = new_Set (map tag_of channels).
Proof.
  unfold aggregateChannelsByTag. rewrite row_tags by (intros k r Hin; by apply (rows_for k r channels)). apply first_keys.
Qed.

(** [C35] With tags on, the table has one row per tag, in the order in which the tags first
    occur, and each channel is a child of the row of its tag only. A row says the sum of the
    quotas of its channels, that it is enabled if one of them is (the status of the first
    otherwise), the groups of all of them, and the priority and the weight they have in
    common, or null; channels before the first whose value is not [-1] do not count there, so
    that a row of channels none of which has [-1] shows the value they all have. *)
Theorem tag_rows_exact (channels : list Channel) :
  map row_tag (aggregateChannelsByTag channels) = new_Set (map tag_of channels) ∧
  ∀ r, r ∈ aggregateChannelsByTag channels →
    let cs := filter (λ c, tag_of c = row_tag r) channels in
    row_for cs r ∧
    (Forall (λ c, priority c ≠ Value (-1)) cs → row_priority r = shared (map priority cs)) ∧
    (Forall (λ c, weight c ≠ Value (-1)) cs → row_weight r = shared (map weight cs)).
Proof.
  split; [apply tags_of_rows|]. intros r ([k r'] & -> & Hin)%list_elem_of_fmap.
  destruct (rows_for k r' channels Hin) as [<- Hr]. cbn [snd]. destruct Hr as [? ? ? ? Hp Hw].
  split_and!; [done|..]; intros Hall; rewrite ?Hp, ?Hw, counted_all by (by rewrite Forall_map); done.
Qed.

(** The ids of the rows are distinct. *)
Theorem row_ids_distinct (channels : list Channel) :
  NoDup (map getChannelTableRowId (map inr (aggregateChannelsByTag channels))).
Proof.
  rewrite map_map. cbn [getChannelTableRowId]. change (λ r, js "tag:" ++ row_tag r) with (λ r, (λ t, js "tag:" ++ t) (row_tag r)).
  rewrite <- (map_map row_tag), tags_of_rows. apply NoDup_fmap_2; [|apply new_Set_NoDup]. intros a b. apply app_inv_head.
Qed.

(** A priority of [-1] is taken for none: a row of a channel with [-1] and one with another
    priority shows the other, as if they had it in common. *)
Theorem minus_one_lost (a b : Channel) (p : Z) :
  tag_of a = tag_of b → priority a = Value (-1) → priority b = Value p →
  map row_priority (aggregateChannelsByTag [a; b]) = [Value p].
Proof.
  intros Ht Ha Hb. unfold aggregateChannelsByTag, accumulate, acc_step. simpl. rewrite Ht, decide_True by done. simpl.
  rewrite decide_True by done. simpl. by rewrite Ha, Hb.
Qed.

(** ** Keys *)

Definition keys_of (text : jsstr) : list jsstr := List.filter truthy (map trim (lines_of text)).

Lemma dedup_fold lines l : foldl dedup_line (l, l) lines =
  let l' := foldl (λ s x, js_add x s) l (List.filter truthy (map trim lines)) in (l', l').
Proof.
  revert l. induction lines as [|line lines IH]; intros l; [done|]. cbn [foldl map List.filter]. unfold dedup_line at 2.
  destruct (truthy (trim line)) eqn:Et; cbn [andb]; [|apply IH]. cbn [foldl]. unfold set_has.
  destruct (decide (trim line ∈ l)) as [Hin|Hin].
  - rewrite bool_decide_true by done. assert (js_add (trim line) l = l) as -> by (unfold js_add; by rewrite decide_True). apply IH.
  - rewrite bool_decide_false by done. assert (js_add (trim line) l = l ++ [trim line]) as -> by (unfold js_add; by rewrite decide_False).
    apply IH.
Qed.

Lemma split_on_sub c s p d : p ∈ split_on c s → d ∈ p → d ∈ s.
Proof.
  revert p. induction s as [|x s IH]; intros p; cbn [split_on].
  - by intros ->%list_elem_of_singleton.
  - destruct (x =? c)%N.
    + intros [-> | Hp]%elem_of_cons Hd; [by apply elem_of_nil in Hd|right; by eapply IH].
    + destruct (split_on c s) as [|q qs] eqn:E.
      * intros ->%list_elem_of_singleton. rewrite list_elem_of_singleton. intros ->. by left.
      * intros [-> | Hp]%elem_of_cons Hd; [|right; eapply IH; [by right|done]].
        apply elem_of_cons in Hd as [-> |Hd]; [by left|right; eapply IH; [by left|done]].
Qed.

Lemma trim_blank s : trim s = [] ↔ Forall (λ c, is_ws c = true) s.
Proof.
  unfold trim. split.
  - intros Hs. induction s as [|c s IH]; [done|]. simpl in Hs. destruct (is_ws c) eqn:Ec; [constructor; auto|].
    exfalso. destruct (trim_end_head c s Ec) as [r Hr]. by rewrite Hr in Hs.
  - intros Hs. induction Hs as [|c s Hc _ IH]; [done|]. simpl. by rewrite Hc.
Qed.

Lemma blank_keys text : trim text = [] → keys_of text = [].
Proof.
  intros Hb%trim_blank. unfold keys_of. assert (Forall (λ l, trim l = []) (lines_of text)) as Hl.
  { apply Forall_forall. intros l Hl. apply trim_blank, Forall_forall. intros c Hc.
    apply (proj1 (Forall_forall _ _) Hb). by eapply split_on_sub. }
  induction Hl as [|l ls Hl _ IH]; [done|]. simpl. by rewrite Hl.
Qed.

Lemma dedup_keys text : deduplicatedText (deduplicateKeys text) = join [10%N] (new_Set (keys_of text)) ∧
  afterCount (deduplicateKeys text) = length (new_Set (keys_of text)).
Proof.
  unfold deduplicateKeys. destruct (truthy (trim text)) eqn:Et.
  - assert (truthy text = true) as -> by (by destruct text). cbn [negb orb]. rewrite dedup_fold. done.
  - apply truthy_false in Et. rewrite orb_true_r, blank_keys by done. done.
Qed.

(** Removing repeated keys keeps each key once, in order and without the blanks around
    it; doing it again removes nothing more, and the number that is reported is that of the
    keys in the text. *)
Theorem keys_deduplicated (text : jsstr) :
  let d := deduplicateKeys text in
  deduplicatedText d = join [10%N] (new_Set (keys_of text)) ∧ afterCount d = length (new_Set (keys_of text)) ∧
  keys_of (deduplicatedText d) = new_Set (keys_of text) ∧
  deduplicatedText (deduplicateKeys (deduplicatedText d)) = deduplicatedText d ∧
  removedCount (deduplicateKeys (deduplicatedText d)) = 0%Z ∧ countKeys (deduplicatedText d) = afterCount d.
Proof.
  intros d. destruct (dedup_keys text) as [Ht Ha]. fold d in Ht, Ha. rewrite Ht, Ha.
  set (ks := new_Set (keys_of text)).
  assert (∀ k, k ∈ ks → truthy k = true ∧ trim k = k ∧ 10%N ∉ k) as Hk.
  { intros k. unfold ks. rewrite new_Set_elem. intros [Hk (l & -> & Hl)%list_elem_of_fmap]%elem_of_filter_bool.
    split_and!; [done|apply trim_idemp|]. intros Hin%trim_sub. by apply (proj1 (Forall_forall _ _) (split_free 10 text) l). }
  destruct (decide (ks = [])) as [-> |Hne]; [done|].
  assert (lines_of (join [10%N] ks) = ks) as Hlines.
  { apply split_on_join; [done|]. apply Forall_forall. intros k Hin. by apply Hk. }
  assert (keys_of (join [10%N] ks) = ks) as Hkeys.
  { unfold keys_of. rewrite Hlines, map_fix by (apply Forall_forall; intros k Hin; by apply Hk).
    rewrite filter_bool. apply filter_all, Forall_forall. intros k Hin. by apply Hk. }
  assert (new_Set ks = ks) as Hset by apply new_Set_id, new_Set_NoDup.
  destruct (dedup_keys (join [10%N] ks)) as [Ht' Ha']. rewrite Hkeys, Hset in Ht', Ha'.
  split_and!; [done..| |].
  - revert Ha'. unfold deduplicateKeys. destruct (_ || _); [done|]. cbn [afterCount removedCount]. rewrite Hlines. lia.
  - unfold countKeys. assert (truthy (join [10%N] ks) = true) as ->.
    { apply truthy_spec. intros E. rewrite E in Hkeys. by rewrite <- Hkeys in Hne. }
    cbn [negb]. rewrite Hlines, filter_bool, filter_all; [done|]. apply Forall_forall. intros k Hin. by destruct (Hk k Hin) as (? & -> & _).
Qed.

(** The reason is given exactly for the channels that need attention. *)
Lemma attention_reason (c : Channel) : channelNeedsAttention c = true ↔ getAttentionReason c ≠ None.
Proof.
  unfold channelNeedsAttention, getAttentionReason.
  destruct (status c =? 3)%Z, (low_balance c), (all_keys_disabled c); split; done.
Qed.

(** A key of at most eight units is not masked: what is shown says all of it. *)
Theorem short_key_shown (key : jsstr) : key ≠ [] → length key ≤ 8 →
  ∃ a b, formatChannelKey key false = a ++ js "..." ++ b ∧ key = a ++ drop (length a + length b - length key) b.
Proof.
  intros Hne Hl. exists (take 4 key), (drop (length key - 4) key). unfold formatChannelKey.
  assert (truthy key = true) as -> by (by apply truthy_spec). rewrite (proj2 (Nat.leb_le _ 16)) by lia. split; [done|].
  rewrite length_take, length_drop, drop_drop. rewrite <- (take_drop 4 key) at 1. f_equal.
  destruct (decide (length key ≤ 4)); [by rewrite !drop_ge by lia|]. f_equal. lia.
Qed.

End Rows.
End ChannelList.
