(* ===== verification/HttpClient.v ===== *)
(** * The HTTP client (web/src/lib/http-client.ts, server-error-message.ts)

    Every call of the front end goes through one axios instance. Its [get] joins an
    identical request of the same session that is still in flight; its interceptors put the
    access token on what is sent, take the rotated tokens out of what comes back, show the
    failures, and answer a 401 with a refresh of the session ([AuthSession]) and one more
    attempt. Calls are coroutines of a state machine: answers, failures, refreshes and
    everything else that touches the session happen in any order.

    Axios is a parameter: [prepare] is what it makes of a request's configuration, and
    the law says that it keeps the fields of it that the client adds. *)
From S2P Require Import Prelude JsString JsMap JsValue AuthSession.
Local Open Scope Z_scope.

Module Http.

(** ** Messages of the server's error codes *)

Definition serverErrorMessageKeys : list (jsstr * jsstr) := [
  (js "AUTH_SESSION_LIMIT",
   js "Too many active login sessions. On a device where you are already signed in, open Login sessions and use " ++ [8220%N] ++
   js "Sign out other sessions" ++ [8221%N] ++
   js " to revoke them. If you cannot access a signed-in device, reset your password to sign out all sessions.");
  (js "AUTH_SESSION_ISSUANCE_LIMIT",
   js "Too many login sessions were created recently. Please wait for the rolling window to pass, then try again.");
  (js "TELEGRAM_BIND_DISABLED", js "Telegram binding is disabled.");
  (js "TELEGRAM_BIND_INVALID_REQUEST", js "The Telegram authorization request is invalid or expired.");
  (js "TELEGRAM_BIND_FLOW_INVALID",
   js "This Telegram binding request has expired or has already been used.");
  (js "TELEGRAM_BIND_SESSION_INVALID",
   js "The login session that started this Telegram binding is no longer valid.");
  (js "TELEGRAM_BIND_ALREADY_BOUND", js "This Telegram account is already bound.");
  (js "TELEGRAM_BIND_USER_DELETED", js "This user account no longer exists.");
  (js "TELEGRAM_BIND_USER_DISABLED", js "This user account is disabled.");
  (js "TELEGRAM_BIND_INTERNAL_ERROR", js "Telegram binding failed. Please try again.") ].

(** The names every object inherits: indexing the table with one of them finds it. *)
Definition object_prototype : list jsstr := map js
  ["constructor"; "__defineGetter__"; "__defineSetter__"; "hasOwnProperty"; "__lookupGetter__";
   "__lookupSetter__"; "isPrototypeOf"; "propertyIsEnumerable"; "toString"; "valueOf";
   "__proto__"; "toLocaleString"]%string.

Inductive MessageKey := TextKey (s : jsstr) | Inherited (name : jsstr).

Definition serverErrorPayload (v : value) : option value :=
  if negb (Auth.isRecord v) then None
  else
    let response := get v (js "response") in
    if Auth.isRecord response && Auth.isRecord (get response (js "data"))
    then Some (get response (js "data")) else Some v.

Definition getServerErrorMessageKey (v : value) : option MessageKey :=
  match serverErrorPayload v with
  | Some payload =>
      match get payload (js "code") with
      | Str code =>
          match jm_get code serverErrorMessageKeys with
          | Some m => Some (TextKey m)
          | None => if bool_decide (code ∈ object_prototype) then Some (Inherited code) else None
          end
      | _ => None
      end
  | None => None
  end.

(** ** Requests *)

(** The fields the client adds to axios's configuration. *)
Record Flags := mkFlags {
  skipBusinessError : bool; skipErrorHandler : bool; disableDuplicate : bool;
  skipAuthRefresh : bool; authRetry : bool; acceptAuthRotation : bool
}.

Record Config := mkConfig {
  params : value; headers : list (jsstr * jsstr); flags : Flags
}.

Definition set_headers (h : list (jsstr * jsstr)) (c : Config) : Config :=
  mkConfig (params c) h (flags c).

Definition set_authRetry (c : Config) : Config :=
  let f := flags c in
  mkConfig (params c) (headers c)
    (mkFlags (skipBusinessError f) (skipErrorHandler f) (disableDuplicate f) (skipAuthRefresh f)
       true (acceptAuthRotation f)).

(** A failure: whether [axios.isCancel] holds of it, whether it carries the request's
    configuration, and the object itself. *)
Record AxiosError := mkError { isCancel : bool; hasConfig : bool; error_object : value }.

Inductive Failure := RequestFailed (e : AxiosError) | RotationRefused (message : jsstr).

Inductive Phase :=
| InFlight
| AwaitRefresh (generation : nat) (e : AxiosError)
| Resolved (data : value)
| Rejected (f : Failure).

Record Call := mkCall {
  config : Config; key : option jsstr; phase : Phase; sent : list (list (jsstr * jsstr))
}.

Definition settled (c : Call) : bool :=
  match phase c with Resolved _ | Rejected _ => true | _ => false end.

Inductive Effect := Toast (v : value) | Redirect (path : jsstr).

Record World := mkWorld {
  auth : Auth.State;
  calls : list Call;
  inFlightGet : list (jsstr * nat);
  effects : list Effect;
  pathname : jsstr
}.

Class Axios := {
  prepare : Config → Config;
  JSON_stringify : value → jsstr;
  t : MessageKey → jsstr                          (* i18next's *)
}.
Class AxiosLaws `{Axios} := { prepare_flags : ∀ c, flags (prepare c) = flags c }.

Section Client.
Context `{Axios}.

Definition set_auth (a : Auth.State) (w : World) : World :=
  mkWorld a (calls w) (inFlightGet w) (effects w) (pathname w).
Definition set_calls (l : list Call) (w : World) : World :=
  mkWorld (auth w) l (inFlightGet w) (effects w) (pathname w).
Definition set_inFlightGet (m : list (jsstr * nat)) (w : World) : World :=
  mkWorld (auth w) (calls w) m (effects w) (pathname w).
Definition effect (l : list Effect) (w : World) : World :=
  mkWorld (auth w) (calls w) (inFlightGet w) (effects w ++ l) (pathname w).

Definition tr (s : string) : value := Str (t (TextKey (js s))).

Definition bearer (token : jsstr) : jsstr := js "Bearer " ++ token.

(** [if (token) ... Authorization: `Bearer ${token}`] *)
Definition with_token (a : Auth.AuthStore) (h : list (jsstr * jsstr)) : list (jsstr * jsstr) :=
  match Auth.accessToken a with
  | Some token => if truthy token then jm_set (js "Authorization") (bearer token) h else h
  | None => h
  end.

Definition request_interceptor (a : Auth.AuthStore) (c : Config) : Config :=
  set_headers (with_token a (headers c)) c.

(** What is sent for a configuration now. *)
Definition outgoing (w : World) (c : Config) : Config :=
  request_interceptor (Auth.store (auth w)) (prepare c).

(** [api.request(config)] of a new call. *)
Definition request (k : option jsstr) (c : Config) (w : World) : World :=
  let c' := outgoing w c in
  set_calls (calls w ++ [mkCall c' k InFlight [headers c']]) w.

(** And of a call that is tried again: its promise follows the new request. *)
Definition request_again (i : nat) (c : Config) (w : World) : World :=
  let c' := outgoing w c in
  set_calls (alter (λ x, mkCall c' (key x) InFlight (sent x ++ [headers c'])) i (calls w)) w.

Definition set_call (i : nat) (c : Config) (p : Phase) (w : World) : World :=
  set_calls (alter (λ x, mkCall c (key x) p (sent x)) i (calls w)) w.

(** The call's promise settles; [finally] removes the entry of a shared one. *)
Definition settle (i : nat) (p : Phase) (w : World) : World :=
  match calls w !! i with
  | Some x =>
      let w1 := set_call i (config x) p w in
      match key x with
      | Some k => set_inFlightGet (jm_delete k (inFlightGet w1)) w1
      | None => w1
      end
  | None => w
  end.

Definition session_sid (w : World) : jsstr :=
  match Auth.session (Auth.store (auth w)) with
  | Some ss => str_or (Auth.sid ss) (js "anonymous")
  | None => js "anonymous"
  end.

Definition get_key (sid url : jsstr) (ps : value) : jsstr :=
  sid ++ js ":" ++ url ++ js "?" ++ (if value_truthy ps then JSON_stringify ps else js "{}").

(** [api.get]: the state after it and the call whose promise it returns. *)
Definition api_get (url : jsstr) (c : Config) (w : World) : World * nat :=
  if disableDuplicate (flags c) then (request None c w, length (calls w))
  else
    let k := get_key (session_sid w) url (params c) in
    match jm_get k (inFlightGet w) with
    | Some existing => (w, existing)
    | None =>
        (set_inFlightGet (jm_set k (length (calls w)) (inFlightGet w)) (request (Some k) c w),
         length (calls w))
    end.

Definition redirectToSignIn (w : World) : World :=
  if streq (pathname w) (js "/sign-in") then w else effect [Redirect (js "/sign-in")] w.

(** ** Interceptors of the response *)

Definition business_error (f : Flags) (data : value) (w : World) : World :=
  match skipBusinessError f, get data (js "success") with
  | false, Bool false =>
      effect [Toast match getServerErrorMessageKey data with
                    | Some m => Str (t m)
                    | None => value_or (get data (js "message")) (tr "Request failed")
                    end] w
  | _, _ => w
  end.

Definition on_success (i : nat) (data : value) (w : World) : World :=
  match calls w !! i with
  | Some x =>
      match phase x with
      | InFlight =>
          let f := flags (config x) in
          let rotated :=
            if acceptAuthRotation f && is_true (get data (js "success"))
            then Auth.applyAuthRotation (get data (js "data")) (auth w) else Ok (auth w) in
          match rotated with
          | Throw m => settle i (Rejected (RotationRefused m)) w
          | Ok a => settle i (Resolved data) (business_error f data (set_auth a w))
          end
      | _ => w
      end
  | None => w
  end.

Definition error_status (e : AxiosError) : value :=
  get (get (error_object e) (js "response")) (js "status").

Definition is_401 (e : AxiosError) : bool :=
  match error_status e with Num n => num_eqb n (num_of_Z 401) | _ => false end.

Definition toast_unless (skip : bool) (v : value) (w : World) : World :=
  if skip then w else effect [Toast v] w.

Definition failure_message (v : value) : value :=
  match getServerErrorMessageKey v with
  | Some m => Str (t m)
  | None =>
      value_or (get (get (get v (js "response")) (js "data")) (js "message"))
        (value_or (get v (js "message")) (tr "Request failed"))
  end.

Definition session_expired (skip : bool) (w : World) : World :=
  redirectToSignIn (toast_unless skip (tr "Session expired!") w).

(** The failure handler, up to its [await] or to its end. *)
Definition on_failure (i : nat) (e : AxiosError) (w : World) : World :=
  match calls w !! i with
  | Some x =>
      match phase x with
      | InFlight =>
          let f := flags (config x) in
          let skip := hasConfig e && skipErrorHandler f in
          if isCancel e then settle i (Rejected (RequestFailed e)) w
          else if is_401 e then
            if hasConfig e && negb (skipAuthRefresh f) && negb (authRetry f) then
              let a := Auth.refreshAuthentication (auth w) in
              set_call i (set_authRetry (config x))
                (AwaitRefresh (default O (Auth.refreshPromise a)) e) (set_auth a w)
            else if hasConfig e && authRetry f then
              settle i (Rejected (RequestFailed e))
                (session_expired skip
                   (set_auth (Auth.clearAuthentication false Auth.CompleteState (auth w)) w))
            else settle i (Rejected (RequestFailed e)) (toast_unless skip (tr "Session expired!") w)
          else settle i (Rejected (RequestFailed e))
                 (toast_unless skip (failure_message (error_object e)) w)
      | _ => w
      end
  | None => w
  end.

(** After the [await]: the refresh's outcome is [o]. *)
Definition after_refresh (i : nat) (x : Call) (e : AxiosError) (o : Auth.RefreshOutcome)
    (w : World) : World :=
  match o with
  | Auth.Authenticated _ =>
      let c := set_headers (with_token (Auth.store (auth w)) (headers (config x))) (config x) in
      request_again i c w
  | Auth.Anonymous | Auth.OutOfSync _ =>
      settle i (Rejected (RequestFailed e)) (session_expired (skipErrorHandler (flags (config x))) w)
  | _ => settle i (Rejected (RequestFailed e)) w
  end.

Definition on_refreshed (i : nat) (w : World) : World :=
  match calls w !! i with
  | Some x =>
      match phase x with
      | AwaitRefresh g e =>
          match Auth.gens (auth w) !! g with
          | Some gen =>
              match Auth.g_outcome gen with
              | Some o => after_refresh i x e o w
              | None => w
              end
          | None => w
          end
      | _ => w
      end
  | None => w
  end.

(** ** Events *)

Inductive Event :=
| HGet (url : jsstr) (c : Config)
| HRequest (c : Config)                           (* post, put, delete, patch *)
| HSuccess (i : nat) (data : value)
| HFailure (i : nat) (e : AxiosError)
| HRefreshed (i : nat)
| HAuth (e : Auth.Event)
| HNavigate (path : jsstr).

Definition step (w : World) (e : Event) : World :=
  match e with
  | HGet url c => (api_get url c w).1
  | HRequest c => request None c w
  | HSuccess i data => on_success i data w
  | HFailure i e => on_failure i e w
  | HRefreshed i => on_refreshed i w
  | HAuth e => set_auth (Auth.step (auth w) e) w
  | HNavigate p => mkWorld (auth w) (calls w) (inFlightGet w) (effects w) p
  end.

Definition run (w : World) (es : list Event) : World := foldl step w es.

Definition init : World := mkWorld Auth.init [] [] [] (js "/").

(** ** Invariants *)

(** The shared requests are exactly the ones in flight under their keys. *)
Definition shared_inv (w : World) : Prop :=
  ∀ k i, jm_get k (inFlightGet w) = Some i ↔
    ∃ x, calls w !! i = Some x ∧ key x = Some k ∧ settled x = false.

(** What a call has sent so far. *)
Definition call_inv (a : Auth.State) (x : Call) : Prop :=
  match phase x with
  | InFlight => length (sent x) = 1%nat ∨ length (sent x) = 2%nat ∧ authRetry (flags (config x)) = true
  | AwaitRefresh g e =>
      length (sent x) = 1%nat ∧ authRetry (flags (config x)) = true ∧ is_Some (Auth.gens a !! g)
  | _ => (1 ≤ length (sent x) ≤ 2)%nat
  end.

Definition inv (w : World) : Prop :=
  shared_inv w ∧ Auth.flight_inv (auth w) ∧
  ∀ i x, calls w !! i = Some x → call_inv (auth w) x.

Lemma alter_lookup_Some {A} (f : A → A) i j (l : list A) y :
  alter f i l !! j = Some y ↔ ∃ x, l !! j = Some x ∧ y = if decide (i = j) then f x else x.
Proof.
  rewrite list_lookup_alter. case_decide as E; [subst j|]; destruct (l !! _) as [x|]; simpl;
    (split; [intros Hy; simplify_eq; by eauto|intros (x' & Hx & Hy); by simplify_eq]).
Qed.

Lemma shared_alter w i x y :
  calls w !! i = Some x → key y = key x → settled y = settled x →
  shared_inv w → shared_inv (set_calls (alter (λ _, y) i (calls w)) w).
Proof.
  intros Hi Hk Hs Hw k j. rewrite (Hw k j). simpl. split.
  - intros (z & Hj & Hz). destruct (decide (i = j)) as [<-|Hne].
    + rewrite Hi in Hj. injection Hj as <-. exists y. rewrite list_lookup_alter_eq, Hi, Hk, Hs. done.
    + exists z. by rewrite list_lookup_alter_ne.
  - intros (z & Hj & Hz). apply alter_lookup_Some in Hj as (z' & Hj & ->).
    case_decide; [subst j|by eauto]. rewrite Hi in Hj. injection Hj as <-. exists x. by rewrite <-Hk, <-Hs.
Qed.

Lemma settle_lookup w i x p j z :
  calls w !! i = Some x →
  calls (settle i p w) !! j = Some z ↔
    (j = i ∧ z = mkCall (config x) (key x) p (sent x)) ∨ (j ≠ i ∧ calls w !! j = Some z).
Proof.
  intros Hi. unfold settle. rewrite Hi.
  assert (calls (set_call i (config x) p w) !! j = Some z ↔
    (j = i ∧ z = mkCall (config x) (key x) p (sent x)) ∨ (j ≠ i ∧ calls w !! j = Some z)) as Hl.
  { simpl. rewrite alter_lookup_Some. split.
    - intros (z' & Hj & ->). case_decide; [subst; left|right]; [|by split].
      rewrite Hi in Hj. by injection Hj as <-.
    - intros [ [-> ->]|[Hne Hj] ]; [exists x; by rewrite decide_True|]. exists z. by rewrite decide_False. }
  by destruct (key x).
Qed.

Lemma settle_map w i x p k :
  calls w !! i = Some x →
  jm_get k (inFlightGet (settle i p w)) =
    if decide (key x = Some k) then None else jm_get k (inFlightGet w).
Proof.
  intros Hi. unfold settle. rewrite Hi. destruct (key x) as [kx|]; simpl; [|done].
  rewrite jm_get_delete. repeat case_decide; congruence.
Qed.

Lemma shared_settle w i x p :
  calls w !! i = Some x → settled x = false → settled (mkCall (config x) (key x) p (sent x)) = true →
  shared_inv w → shared_inv (settle i p w).
Proof.
  intros Hi Hx Hp Hw k j. rewrite (settle_map w i x) by done. setoid_rewrite settle_lookup; [|done].
  case_decide as Hk.
  - split; [done|]. intros (z & [ [-> ->]|[Hne Hj] ] & Hz & Hs); [congruence|].
    assert (jm_get k (inFlightGet w) = Some i) as H1 by (apply Hw; eauto).
    assert (jm_get k (inFlightGet w) = Some j) as H2 by (apply Hw; eauto). congruence.
  - rewrite (Hw k j). split; intros (z & Hz).
    + destruct Hz as (Hj & Hkz & Hs). exists z. split; [|done]. right. split; [|done]. intros ->. congruence.
    + destruct Hz as ([ [-> ->]|[Hne Hj] ] & Hkz & Hs); [simpl in Hkz; congruence|]. by exists z.
Qed.

Lemma http_inv_same w w' :
  auth w' = auth w → calls w' = calls w → inFlightGet w' = inFlightGet w → inv w → inv w'.
Proof. unfold inv, shared_inv. by intros -> -> ->. Qed.

Lemma inv_auth w a :
  Auth.flight_inv a → (Auth.gsize (auth w) ≤ Auth.gsize a)%nat → inv w → inv (set_auth a w).
Proof.
  intros Ha Hl (Hs & _ & Hc). split_and!; [done..|]. intros i x Hi. specialize (Hc i x Hi).
  unfold call_inv in *. destruct (phase x); [done| |done..].
  destruct Hc as (? & ? & ?). split_and!; [done..|]. by eapply Auth.gens_kept.
Qed.

Lemma call_inv_sent a x : call_inv a x → (1 ≤ length (sent x) ≤ 2)%nat.
Proof. unfold call_inv. destruct (phase x); lia. Qed.

Lemma http_inv_settle w i x p :
  calls w !! i = Some x → settled x = false → settled (mkCall (config x) (key x) p (sent x)) = true →
  inv w → inv (settle i p w).
Proof.
  intros Hi Hx Hp (Hs & Ha & Hc).
  assert (auth (settle i p w) = auth w) as Heq by (unfold settle; rewrite Hi; by destruct (key x)).
  split_and!; [by eapply shared_settle|by rewrite Heq|]. intros j z Hj. rewrite Heq.
  apply (settle_lookup w i x) in Hj as [ [-> ->]|[_ Hj] ]; [|by apply (Hc j)|done].
  pose proof (call_inv_sent _ _ (Hc i x Hi)) as Hn. unfold call_inv. unfold settled in Hp.
  simpl in *. by destruct p.
Qed.

Lemma inv_alter w i x y :
  calls w !! i = Some x → key y = key x → settled y = settled x → call_inv (auth w) y →
  inv w → inv (set_calls (alter (λ _, y) i (calls w)) w).
Proof.
  intros Hi Hk Hs Hy (Hsh & Ha & Hc). split_and!; [by eapply shared_alter|done|].
  intros j z Hj. apply alter_lookup_Some in Hj as (z' & Hj & ->). simpl.
  case_decide; [done|by apply (Hc j)].
Qed.

Lemma alter_const {A} (f : A → A) i x (l : list A) :
  l !! i = Some x → alter f i l = alter (λ _, f x) i l.
Proof.
  intros Hi. apply list_eq. intros j. destruct (decide (i = j)) as [<-|Hne].
  - by rewrite !list_lookup_alter_eq, Hi.
  - by rewrite !list_lookup_alter_ne.
Qed.

Lemma snoc_lookup {A} (l : list A) y j z :
  (l ++ [y]) !! j = Some z ↔ l !! j = Some z ∨ (j = length l ∧ z = y).
Proof.
  rewrite lookup_app_Some. split.
  - intros [?|[Hl Hz] ]; [by left|right]. apply list_lookup_singleton_Some in Hz as [? ->]. split; [lia|done].
  - intros [?|[-> ->] ]; [by left|right]. split; [lia|]. by rewrite Nat.sub_diag.
Qed.

Lemma inv_request w c : inv w → inv (request None c w).
Proof.
  intros (Hs & Ha & Hc). split_and!; [|done|].
  - intros k j. rewrite (Hs k j). simpl. setoid_rewrite snoc_lookup.
    split; intros (z & Hj & Hz); exists z; [by auto|].
    destruct Hj as [Hj|[_ ->] ]; [done|]. by destruct Hz.
  - intros j z Hj. simpl in Hj. apply snoc_lookup in Hj as [Hj|[_ ->] ]; [by apply (Hc j)|].
    left. done.
Qed.

Lemma inv_get w url c : inv w → inv (api_get url c w).1.
Proof.
  intros Hw. unfold api_get. destruct (disableDuplicate _); [by apply inv_request|].
  set (k := get_key _ _ _). destruct (jm_get k (inFlightGet w)) as [i|] eqn:Hk; [done|].
  destruct Hw as (Hs & Ha & Hc). split_and!; [|done|].
  - intros k' j. simpl. setoid_rewrite snoc_lookup. rewrite jm_get_set. case_decide as E.
    + subst k'. split.
      * intros [= <-]. eexists. split; [by right|done].
      * intros (z & [Hj|[-> ->] ] & Hz & Hu); [|done].
        assert (jm_get k (inFlightGet w) = Some j) by (apply Hs; eauto). congruence.
    + rewrite (Hs k' j). split; intros (z & Hj & Hz); exists z; [by auto|].
      destruct Hj as [Hj|[_ ->] ]; [done|]. destruct Hz as [Hz _]. simpl in Hz. congruence.
  - intros j z Hj. simpl in Hj. apply snoc_lookup in Hj as [Hj|[_ ->] ]; [by apply (Hc j)|].
    left. done.
Qed.

(** The effects on the screen leave the rest alone. *)
Lemma inv_effect w l : inv w → inv (effect l w).
Proof. by apply http_inv_same. Qed.

Lemma effects_same w skip v :
  (auth (session_expired skip w) = auth w ∧ calls (session_expired skip w) = calls w ∧
   inFlightGet (session_expired skip w) = inFlightGet w) ∧
  (auth (toast_unless skip v w) = auth w ∧ calls (toast_unless skip v w) = calls w ∧
   inFlightGet (toast_unless skip v w) = inFlightGet w).
Proof. unfold session_expired, redirectToSignIn, toast_unless. destruct skip; by case_match. Qed.

Lemma business_same f d w :
  auth (business_error f d w) = auth w ∧ calls (business_error f d w) = calls w ∧
  inFlightGet (business_error f d w) = inFlightGet w.
Proof. unfold business_error. by repeat case_match. Qed.

Lemma inv_settle_effects w w' i x p :
  auth w' = auth w → calls w' = calls w → inFlightGet w' = inFlightGet w →
  calls w !! i = Some x → phase x = InFlight ∨ (∃ g e, phase x = AwaitRefresh g e) →
  settled (mkCall (config x) (key x) p (sent x)) = true →
  inv w → inv (settle i p w').
Proof.
  intros H1 H2 H3 Hi Hx Hp Hw. apply (http_inv_settle w' i x).
  - by rewrite H2.
  - unfold settled. destruct Hx as [->|(? & ? & ->)]; done.
  - done.
  - by apply (http_inv_same w).
Qed.

Lemma rotation_keeps v a a' :
  Auth.applyAuthRotation v a = Ok a' → Auth.flight_inv a →
  Auth.flight_inv a' ∧ (Auth.gsize a ≤ Auth.gsize a')%nat.
Proof.
  intros Hr Ha. pose proof (Auth.flight_step a (Auth.ERotate v) Ha) as H1.
  pose proof (Auth.gsize_step a (Auth.ERotate v)) as H2. simpl in *. by rewrite Hr in H1, H2.
Qed.

Lemma inv_success w i d : inv w → inv (on_success i d w).
Proof.
  intros Hw. unfold on_success. destruct (calls w !! i) as [x|] eqn:Hi; [|done].
  destruct (phase x) eqn:Hp; try done.
  destruct (if acceptAuthRotation _ && _ then _ else _) as [a|m] eqn:Hr.
  - destruct (business_same (flags (config x)) d (set_auth a w)) as (E1 & E2 & E3).
    apply (inv_settle_effects (set_auth a w) _ i x); auto.
    case_match; [|injection Hr as <-; by destruct w].
    destruct Hw as (? & Ha & ?). destruct (rotation_keeps _ _ _ Hr Ha). by apply inv_auth.
  - by apply (inv_settle_effects w w i x); auto.
Qed.

Lemma inv_refresh_wait w i x e :
  calls w !! i = Some x → phase x = InFlight → authRetry (flags (config x)) = false →
  inv w →
  let a := Auth.refreshAuthentication (auth w) in
  inv (set_call i (set_authRetry (config x))
         (AwaitRefresh (default O (Auth.refreshPromise a)) e) (set_auth a w)).
Proof.
  intros Hi Hp Hr Hw a. pose proof Hw as (_ & Ha & Hc).
  assert (inv (set_auth a w)) as Hw' by (apply inv_auth; [by apply Auth.flight_refresh|apply Auth.gsize_refresh|done]).
  unfold set_call. rewrite (alter_const _ i x) by done.
  apply (inv_alter _ i x); [done|done|unfold settled; by rewrite Hp| |done].
  specialize (Hc i x Hi). unfold call_inv in Hc. rewrite Hp in Hc. unfold call_inv. simpl.
  split_and!; [destruct Hc as [?|[_ ?] ]; congruence|done|].
  destruct Hw' as (_ & (_ & Hb & _) & _). simpl in Hb. clear -Hb.
  destruct (Auth.refreshPromise a) as [g|] eqn:E; simpl; [by apply Hb|].
  unfold a, Auth.refreshAuthentication in E. destruct (Auth.refreshPromise (auth w)) eqn:E'; simpl in E; congruence.
Qed.

Lemma inv_failure w i e : inv w → inv (on_failure i e w).
Proof.
  intros Hw. unfold on_failure. destruct (calls w !! i) as [x|] eqn:Hi; [|done].
  destruct (phase x) eqn:Hp; try done.
  destruct (isCancel e); [by apply (inv_settle_effects w w i x); auto|].
  set (skip := hasConfig e && skipErrorHandler _). set (clear := Auth.clearAuthentication _ _ _).
  destruct (is_401 e).
  - destruct (hasConfig e && negb (skipAuthRefresh _) && negb (authRetry _)) eqn:Hb.
    { apply (inv_refresh_wait w i x e); try done. apply andb_true_iff in Hb as [_ Hb]. by destruct (authRetry _). }
    destruct (hasConfig e && authRetry _).
    + destruct (effects_same (set_auth clear w) skip Undef) as [ (E1 & E2 & E3) _].
      apply (inv_settle_effects (set_auth clear w) _ i x); auto.
      destruct Hw as (? & Ha & ?). apply inv_auth; [by apply Auth.flight_clear|by unfold clear; rewrite Auth.gsize_clear|done].
    + destruct (effects_same w skip (tr "Session expired!")) as [_ (E1 & E2 & E3)].
      apply (inv_settle_effects w _ i x); auto.
  - destruct (effects_same w skip (failure_message (error_object e))) as [_ (E1 & E2 & E3)].
    apply (inv_settle_effects w _ i x); auto.
Qed.

Section Laws.
Context {laws : AxiosLaws}.

Lemma outgoing_flags w c : flags (outgoing w c) = flags c.
Proof. unfold outgoing, request_interceptor, set_headers. simpl. apply prepare_flags. Qed.

Lemma inv_refreshed w i : inv w → inv (on_refreshed i w).
Proof.
  intros Hw. unfold on_refreshed. destruct (calls w !! i) as [x|] eqn:Hi; [|done].
  destruct (phase x) as [|g e| |] eqn:Hp; try done.
  destruct (Auth.gens (auth w) !! g) as [gen|]; [|done].
  destruct (Auth.g_outcome gen) as [o|]; [|done].
  destruct (effects_same w (skipErrorHandler (flags (config x))) Undef) as [ (E1 & E2 & E3) _].
  unfold after_refresh. destruct o.
  - unfold request_again. rewrite (alter_const _ i x) by done.
    apply (inv_alter _ i x); [done|done|unfold settled; by rewrite Hp| |done].
    destruct Hw as (_ & _ & Hc). specialize (Hc i x Hi). unfold call_inv in *. rewrite Hp in Hc.
    destruct Hc as (Hn & Hr & _). right. cbn [config sent]. rewrite outgoing_flags. simpl. rewrite length_app, Hn. done.
  - apply (inv_settle_effects w _ i x); eauto.
  - apply (inv_settle_effects w w i x); eauto.
  - apply (inv_settle_effects w w i x); eauto.
  - apply (inv_settle_effects w w i x); eauto.
  - apply (inv_settle_effects w _ i x); eauto.
Qed.

Lemma http_inv_step w e : inv w → inv (step w e).
Proof.
  intros Hw. destruct e; simpl.
  - by apply inv_get.
  - by apply inv_request.
  - by apply inv_success.
  - by apply inv_failure.
  - by apply inv_refreshed.
  - destruct Hw as (? & ? & ?). apply inv_auth; [by apply Auth.flight_step|apply Auth.gsize_step|done].
  - by apply (http_inv_same w).
Qed.

Lemma http_inv_run es w : inv w → inv (run w es).
Proof. revert w. induction es as [|e es IH]; intros w Hw; simpl; [done|]. by apply IH, http_inv_step. Qed.

Lemma http_inv_init : inv init.
Proof. split_and!; [|apply Auth.flight_init|done]. intros k i. split; [done|]. by intros (x & Hx & _). Qed.

Lemma inv_reach es : inv (run init es).
Proof. apply http_inv_run, http_inv_init. Qed.

(** ** What becomes of a call *)

(** How much can still happen to a call. *)
Definition rank (x : Call) : nat :=
  match phase x with
  | InFlight => if authRetry (flags (config x)) then 1 else 3
  | AwaitRefresh _ _ => 2
  | _ => 0
  end.

Lemma rank_settled x : rank x = 0%nat ↔ settled x = true.
Proof. unfold rank, settled. destruct (phase x); [case_match|..]; done. Qed.

(** [settle] ends the call and leaves the others. *)
Lemma settle_call w w' i x p j y :
  calls w' = calls w → calls w !! i = Some x →
  settled (mkCall (config x) (key x) p (sent x)) = true →
  calls w !! j = Some y →
  ∃ z, calls (settle i p w') !! j = Some z ∧ sent z = sent y ∧ (rank z ≤ rank y)%nat ∧
    (j = i → rank z = 0%nat).
Proof.
  intros H1 Hi Hp Hj. rewrite <-H1 in Hi. setoid_rewrite (settle_lookup w' i x p j); [|done].
  destruct (decide (j = i)) as [->|Hne].
  - rewrite <-H1, Hi in Hj. injection Hj as <-. exists (mkCall (config x) (key x) p (sent x)).
    apply rank_settled in Hp as Hr. rewrite Hr. split; [by left|]. split_and!; [done|lia|done].
  - exists y. rewrite <-H1 in Hj. split; [by right|]. done.
Qed.

Lemma alter_call w i x y j z :
  calls w !! i = Some x → calls w !! j = Some z → (rank y < rank x)%nat →
  ∃ z', calls (set_calls (alter (λ _, y) i (calls w)) w) !! j = Some z' ∧ (rank z' ≤ rank z)%nat ∧
    (j = i → (rank z' < rank z)%nat) ∧ z' = if decide (i = j) then y else z.
Proof.
  intros Hi Hj Hr. exists (if decide (i = j) then y else z). simpl. split.
  { apply alter_lookup_Some. by exists z. }
  case_decide; [|done]. subst j. rewrite Hi in Hj. injection Hj as <-. split_and!; [lia|done..].
Qed.

(** One event and one call: its rank does not grow, and an answer to it, or the outcome of
    the refresh it waits for, lowers it. *)
Definition answers (w : World) (e : Event) (i : nat) (x : Call) : Prop :=
  match e, phase x with
  | HSuccess j _, InFlight | HFailure j _, InFlight => j = i
  | HRefreshed j, AwaitRefresh g _ =>
      j = i ∧ ∃ gen, Auth.gens (auth w) !! g = Some gen ∧ Auth.g_outcome gen ≠ None
  | _, _ => False
  end.

(** Sending again happens only here. *)
Definition sends_again (w : World) (e : Event) (i : nat) (x y : Call) : Prop :=
  e = HRefreshed i ∧ ∃ g er gen b, phase x = AwaitRefresh g er ∧
    Auth.gens (auth w) !! g = Some gen ∧ Auth.g_outcome gen = Some (Auth.Authenticated b) ∧
    ∃ h, sent y = sent x ++ [h] ∧
      ∀ token, Auth.accessToken (Auth.store (auth w)) = Some token → token ≠ [] →
        jm_get (js "Authorization") h = Some (bearer token).

Definition progress (w : World) (e : Event) (i : nat) (x y : Call) : Prop :=
  (rank y ≤ rank x)%nat ∧ (answers w e i x → (rank y < rank x)%nat) ∧
  (sent y = sent x ∨ sends_again w e i x y).

Lemma progress_refl w e i x : (answers w e i x → False) → progress w e i x x.
Proof. intros Hn. split_and!; [lia|intros ?; by exfalso; apply Hn|by left]. Qed.

Lemma progress_settle w w' e i x p j y :
  calls w' = calls w → calls w !! i = Some x → settled x = false →
  settled (mkCall (config x) (key x) p (sent x)) = true → calls w !! j = Some y →
  (answers w e j y → j = i) →
  ∃ z, calls (settle i p w') !! j = Some z ∧ progress w e j y z.
Proof.
  intros H1 Hi Hu Hp Hj Ha. destruct (settle_call w w' i x p j y) as (z & Hz & Hs & Hr & Hi'); try done.
  exists z. split; [done|]. split_and!; [done| |by left].
  intros Hans. specialize (Ha Hans). subst j. rewrite (Hi' eq_refl).
  rewrite Hi in Hj. injection Hj as <-. destruct (rank x) eqn:E; [|lia].
  apply rank_settled in E. congruence.
Qed.

Lemma progress_same w w' e i x :
  calls w' = calls w → calls w !! i = Some x → (answers w e i x → False) →
  ∃ y, calls w' !! i = Some y ∧ progress w e i x y.
Proof. intros -> Hi Hn. exists x. split; [done|by apply progress_refl]. Qed.

Lemma progress_request w e k c i x :
  calls w !! i = Some x → (answers w e i x → False) →
  ∃ y, calls (request k c w) !! i = Some y ∧ progress w e i x y.
Proof.
  intros Hi Hn. exists x. split; [|by apply progress_refl]. simpl. by apply lookup_app_l_Some.
Qed.

Lemma progress_success w i d j y :
  calls w !! j = Some y →
  ∃ z, calls (on_success i d w) !! j = Some z ∧ progress w (HSuccess i d) j y z.
Proof.
  intros Hj. unfold on_success. destruct (calls w !! i) as [x|] eqn:Hi; cycle 1.
  { apply progress_same; [done..|]. simpl. destruct (phase y); try done. congruence. }
  destruct (phase x) eqn:Hp.
  2-4: apply progress_same; [done..|]; simpl; destruct (phase y) eqn:Hy; try done; congruence.
  assert (answers w (HSuccess i d) j y → j = i) as Hans by (simpl; by destruct (phase y)).
  assert (settled x = false) as Hu by (unfold settled; by rewrite Hp).
  destruct (if acceptAuthRotation _ && _ then _ else _) as [a|m]; [|by eapply progress_settle].
  destruct (business_same (flags (config x)) d (set_auth a w)) as (_ & E & _).
  by eapply progress_settle.
Qed.

Lemma progress_failure w i er j y :
  calls w !! j = Some y →
  ∃ z, calls (on_failure i er w) !! j = Some z ∧ progress w (HFailure i er) j y z.
Proof.
  intros Hj. unfold on_failure. destruct (calls w !! i) as [x|] eqn:Hi; cycle 1.
  { apply progress_same; [done..|]. simpl. destruct (phase y); try done. congruence. }
  destruct (phase x) eqn:Hp.
  2-4: apply progress_same; [done..|]; simpl; destruct (phase y) eqn:Hy; try done; congruence.
  assert (answers w (HFailure i er) j y → j = i) as Hans by (simpl; by destruct (phase y)).
  assert (settled x = false) as Hu by (unfold settled; by rewrite Hp).
  set (skip := hasConfig er && skipErrorHandler _). set (clear := Auth.clearAuthentication _ _ _).
  destruct (isCancel er); [by eapply progress_settle|].
  destruct (is_401 er); [|by eapply progress_settle; [by apply effects_same|..] ].
  destruct (hasConfig er && negb (skipAuthRefresh _) && negb (authRetry _)) eqn:Hb; cycle 1.
  { destruct (hasConfig er && authRetry _).
    - destruct (effects_same (set_auth clear w) skip Undef) as [ (_ & E & _) _]. by eapply progress_settle.
    - by eapply progress_settle; [by apply effects_same|..]. }
  set (a := Auth.refreshAuthentication (auth w)). unfold set_call. rewrite (alter_const _ i x) by done.
  destruct (alter_call (set_auth a w) i x (mkCall (set_authRetry (config x)) (key x)
    (AwaitRefresh (default 0%nat (Auth.refreshPromise a)) er) (sent x)) j y) as (z & Hz & Hle & Hlt & Heq);
    [done..| |].
  { unfold rank. simpl. rewrite Hp. apply andb_true_iff in Hb as [_ Hb%negb_true_iff]. rewrite Hb. lia. }
  exists z. split; [done|]. split_and!; [done|by auto|left].
  rewrite Heq. case_decide; [|done]. subst j. by simplify_eq.
Qed.

Lemma with_token_header a h token :
  Auth.accessToken a = Some token → token ≠ [] →
  jm_get (js "Authorization") (with_token a h) = Some (bearer token).
Proof. intros Ht Hn. unfold with_token. rewrite Ht, (proj2 (truthy_spec token) Hn). apply jm_get_set_eq. Qed.

Lemma progress_refreshed w i j y :
  inv w → calls w !! j = Some y →
  ∃ z, calls (on_refreshed i w) !! j = Some z ∧ progress w (HRefreshed i) j y z.
Proof.
  intros (_ & _ & Hc) Hj. unfold on_refreshed. destruct (calls w !! i) as [x|] eqn:Hi; cycle 1.
  { apply progress_same; [done..|]. simpl. destruct (phase y); try done. intros [? _]. congruence. }
  assert (answers w (HRefreshed i) j y → j = i) as Hans
    by (simpl; destruct (phase y); try done; by intros [? _]).
  assert (Hno : (answers w (HRefreshed i) i x → False) → answers w (HRefreshed i) j y → False).
  { intros Hno Ha. specialize (Hans Ha). subst j. simplify_eq. auto. }
  destruct (phase x) as [|g er| |] eqn:Hp.
  1,3,4: apply progress_same; [done..|]; apply Hno; simpl; by rewrite Hp.
  destruct (Auth.gens (auth w) !! g) as [gen|] eqn:Hg; cycle 1.
  { apply progress_same; [done..|]. apply Hno. simpl. rewrite Hp, Hg. by intros (_ & ? & ? & _). }
  destruct (Auth.g_outcome gen) as [o|] eqn:Ho; cycle 1.
  { apply progress_same; [done..|]. apply Hno. simpl. rewrite Hp, Hg. intros (_ & ? & ? & ?). by simplify_eq. }
  assert (settled x = false) as Hu by (unfold settled; by rewrite Hp).
  unfold after_refresh. destruct o as [b| | | | |].
  2-6: destruct (effects_same w (skipErrorHandler (flags (config x))) Undef) as [ (_ & E & _) _];
    eapply progress_settle; eauto.
  unfold request_again. rewrite (alter_const _ i x) by done. set (c := outgoing _ _).
  destruct (alter_call w i x (mkCall c (key x) InFlight (sent x ++ [headers c])) j y)
    as (z & Hz & Hle & Hlt & Heq); [done..| |].
  { unfold rank. cbn [phase config]. rewrite Hp. unfold c. rewrite outgoing_flags. simpl.
    specialize (Hc i x Hi). unfold call_inv in Hc. rewrite Hp in Hc. destruct Hc as (_ & -> & _). lia. }
  exists z. split; [done|]. split_and!; [done|by auto|].
  case_decide; [subst j|by left; rewrite Heq]. assert (x = y) as -> by congruence. right.
  split; [done|]. exists g, er, gen, b. split_and!; [done..|]. exists (headers c).
  split; [by rewrite Heq|]. intros token Ht Hn. by apply with_token_header.
Qed.

Lemma step_progress w e i x :
  inv w → calls w !! i = Some x → ∃ y, calls (step w e) !! i = Some y ∧ progress w e i x y.
Proof.
  intros Hw Hi. destruct e; simpl.
  - unfold api_get. destruct (disableDuplicate _); [by apply progress_request|].
    destruct (jm_get _ _); [by apply progress_same|by apply (progress_request w _ (Some (get_key (session_sid w) url (params c))))].
  - by apply progress_request.
  - by apply progress_success.
  - by apply progress_failure.
  - by apply progress_refreshed.
  - by apply progress_same.
  - by apply progress_same.
Qed.

(** What a call that waits for a refresh waits for. *)
Lemma waiting_for w i x g er :
  inv w → calls w !! i = Some x → phase x = AwaitRefresh g er →
  Auth.refreshPromise (auth w) = Some g ∨ answers w (HRefreshed i) i x.
Proof.
  intros (_ & (Ha & _ & _) & Hc) Hi Hp. specialize (Hc i x Hi). unfold call_inv in Hc. rewrite Hp in Hc.
  destruct Hc as (_ & _ & gen & Hg). destruct (Auth.g_outcome gen) eqn:Ho.
  - right. simpl. rewrite Hp. split; [done|]. exists gen. split; [done|congruence].
  - left. by apply (Ha g gen).
Qed.

(** *** The answer a call ends with *)

(** What one event makes of a call's phase. *)
Definition phase_change (w : World) (e : Event) (i : nat) (x y : Call) : Prop :=
  phase y = phase x ∧ sent y = sent x ∨ phase y = InFlight ∨
  sent y = sent x ∧
  match phase y with
  | InFlight => False
  | AwaitRefresh _ er => phase x = InFlight ∧ e = HFailure i er
  | Resolved d => phase x = InFlight ∧ e = HSuccess i d
  | Rejected (RotationRefused m) =>
      phase x = InFlight ∧ ∃ d, e = HSuccess i d ∧ Auth.applyAuthRotation (get d (js "data")) (auth w) = Throw m
  | Rejected (RequestFailed er) => phase x = InFlight ∧ e = HFailure i er ∨ ∃ g, phase x = AwaitRefresh g er
  end.

Lemma settle_change w w' e i x p j y z :
  calls w' = calls w → calls w !! i = Some x → calls w !! j = Some y → calls (settle i p w') !! j = Some z →
  phase_change w e i x (mkCall (config x) (key x) p (sent x)) → phase_change w e j y z.
Proof.
  intros Hc Hi Hj Hz Hx. rewrite <- Hc in Hi, Hj. apply (settle_lookup w' i x) in Hz as [ [-> ->]|[Hne Hz] ]; [|left|done].
  - rewrite Hi in Hj. by injection Hj as <-.
  - rewrite Hj in Hz. by injection Hz as <-.
Qed.

Lemma change_success w i d j y z :
  calls w !! j = Some y → calls (on_success i d w) !! j = Some z → phase_change w (HSuccess i d) j y z.
Proof.
  intros Hj. unfold on_success. destruct (calls w !! i) as [x|] eqn:Hi; [|intros; left; by simplify_eq].
  destruct (phase x) eqn:Hp; [|intros; left; by simplify_eq..].
  destruct (acceptAuthRotation _ && _); cycle 1.
  { destruct (business_same (flags (config x)) d (set_auth (auth w) w)) as (_ & E & _). intros Hz.
    eapply (settle_change w _ _ i x); [exact E|done..|]. right. right. by split. }
  destruct (Auth.applyAuthRotation _ _) as [a|m] eqn:Hr; intros Hz.
  - destruct (business_same (flags (config x)) d (set_auth a w)) as (_ & E & _).
    eapply (settle_change w _ _ i x); [exact E|done..|]. right. right. by split.
  - eapply (settle_change w _ _ i x); [done..|]. right. right. split; [done|]. simpl. by eauto.
Qed.

Lemma change_failure w i er j y z :
  calls w !! j = Some y → calls (on_failure i er w) !! j = Some z → phase_change w (HFailure i er) j y z.
Proof.
  intros Hj. unfold on_failure. destruct (calls w !! i) as [x|] eqn:Hi; [|intros; left; by simplify_eq].
  destruct (phase x) eqn:Hp; [|intros; left; by simplify_eq..].
  set (skip := hasConfig er && skipErrorHandler _). set (clear := Auth.clearAuthentication _ _ _).
  assert (∀ w', calls w' = calls w → calls (settle i (Rejected (RequestFailed er)) w') !! j = Some z →
    phase_change w (HFailure i er) j y z) as Hs.
  { intros w' Hw' Hz. eapply (settle_change w w' _ i x); [done..|]. right. right. split; [done|]. by left. }
  destruct (isCancel er); [by apply Hs|]. destruct (is_401 er); [|by apply Hs, effects_same].
  destruct (hasConfig er && negb (skipAuthRefresh _) && negb (authRetry _)); cycle 1.
  { destruct (hasConfig er && authRetry _); apply Hs; [|by apply effects_same].
    by destruct (effects_same (set_auth clear w) skip Undef) as [ (_ & E & _) _]. }
  simpl. intros (z' & Hz & ->)%alter_lookup_Some. simplify_eq. case_decide; [subst j; simplify_eq|by left].
  right. right. split; [done|]. by split.
Qed.

Lemma change_refreshed w i j y z :
  calls w !! j = Some y → calls (on_refreshed i w) !! j = Some z → phase_change w (HRefreshed i) j y z.
Proof.
  intros Hj. unfold on_refreshed. destruct (calls w !! i) as [x|] eqn:Hi; [|intros; left; by simplify_eq].
  destruct (phase x) as [|g er| |] eqn:Hp; try (intros; left; by simplify_eq).
  destruct (Auth.gens (auth w) !! g) as [gen|]; [|intros; left; by simplify_eq].
  destruct (Auth.g_outcome gen) as [o|]; [|intros; left; by simplify_eq].
  assert (∀ w', calls w' = calls w → calls (settle i (Rejected (RequestFailed er)) w') !! j = Some z →
    phase_change w (HRefreshed i) j y z) as Hs.
  { intros w' Hw' Hz. eapply (settle_change w w' _ i x); [done..|]. right. right. split; [done|]. simpl. by eauto. }
  destruct (effects_same w (skipErrorHandler (flags (config x))) Undef) as [ (_ & E & _) _].
  unfold after_refresh. destruct o; try (by apply Hs).
  intros (z' & Hz & ->)%alter_lookup_Some. simplify_eq. case_decide; [right; by left|by left].
Qed.

Lemma step_change w e i x y :
  calls w !! i = Some x → calls (step w e) !! i = Some y → phase_change w e i x y.
Proof.
  intros Hi. assert (∀ k c, calls (request k c w) !! i = Some y → phase_change w e i x y) as Hr.
  { intros k c Hy. simpl in Hy. rewrite (lookup_app_l_Some _ _ _ _ Hi) in Hy. left. by simplify_eq. }
  destruct e; simpl; [| |by apply change_success|by apply change_failure|by apply change_refreshed|intros; left; by simplify_eq..].
  - unfold api_get. destruct (disableDuplicate _); [apply Hr|]. destruct (jm_get _ _); [simpl; intros; left; by simplify_eq|].
    apply (Hr (Some (get_key (session_sid w) url (params c)))).
  - apply Hr.
Qed.

(** The call got [e] as the answer to the last request it sent. *)
Definition answered_by (es : list Event) (i : nat) (x : Call) (e : Event) : Prop :=
  ∃ es1 es2 y, es = es1 ++ e :: es2 ∧ calls (run init es1) !! i = Some y ∧ phase y = InFlight ∧ sent y = sent x.

Definition ends_with_answer (es : list Event) (i : nat) (x : Call) : Prop :=
  match phase x with
  | InFlight => True
  | AwaitRefresh _ er | Rejected (RequestFailed er) => answered_by es i x (HFailure i er)
  | Resolved d => answered_by es i x (HSuccess i d)
  | Rejected (RotationRefused m) => ∃ d, answered_by es i x (HSuccess i d)
  end.

Lemma http_run_snoc es e : run init (es ++ [e]) = step (run init es) e.
Proof. unfold run. by rewrite foldl_app. Qed.

Lemma new_call_in_flight w e i y : calls w !! i = None → calls (step w e) !! i = Some y → phase y = InFlight.
Proof.
  intros Hi. assert (∀ k c, calls (request k c w) !! i = Some y → phase y = InFlight) as Hr.
  { intros k c Hy. simpl in Hy. apply snoc_lookup in Hy as [Hy|[_ ->] ]; [congruence|done]. }
  assert (∀ l : list Call, length l = length (calls w) → l !! i = Some y → phase y = InFlight) as Hl.
  { intros l Hl Hy%lookup_lt_Some. apply lookup_ge_None in Hi. lia. }
  assert (∀ w' j p, calls w' = calls w → length (calls (settle j p w')) = length (calls w)) as Hs.
  { intros w' j p Hw. unfold settle. rewrite Hw. destruct (calls w !! j) as [x|]; [|by rewrite Hw].
    destruct (key x); simpl; by rewrite length_alter, Hw. }
  destruct e; simpl.
  - unfold api_get. destruct (disableDuplicate _); [apply Hr|]. destruct (jm_get _ _); simpl; [congruence|].
    apply (Hr (Some (get_key (session_sid w) url (params c)))).
  - apply Hr.
  - apply Hl. unfold on_success. destruct (calls w !! i0) as [x|]; [|done]. destruct (phase x); try done.
    destruct (if acceptAuthRotation _ && _ then _ else _) as [a|m]; [|by apply Hs].
    apply Hs. by destruct (business_same (flags (config x)) data (set_auth a w)) as (_ & -> & _).
  - apply Hl. unfold on_failure. destruct (calls w !! i0) as [x|]; [|done]. destruct (phase x); try done.
    destruct (isCancel e); [by apply Hs|]. destruct (is_401 e); [|by apply Hs, effects_same].
    destruct (hasConfig e && negb (skipAuthRefresh _) && negb (authRetry _)); [simpl; by rewrite length_alter|].
    destruct (hasConfig e && authRetry _); apply Hs; [|by apply effects_same].
    by apply (effects_same (set_auth _ w) _ Undef).
  - apply Hl. unfold on_refreshed, after_refresh. repeat case_match; try done; try (simpl; by rewrite length_alter).
    all: apply Hs; try done; by apply (effects_same w _ Undef).
  - congruence.
  - congruence.
Qed.

Lemma call_answered es i x : calls (run init es) !! i = Some x → ends_with_answer es i x.
Proof.
  revert x. induction es as [|e es IH] using rev_ind; intros x Hx; [done|]. rewrite http_run_snoc in Hx.
  destruct (calls (run init es) !! i) as [y|] eqn:Hy; cycle 1.
  { unfold ends_with_answer. by rewrite (new_call_in_flight _ _ _ _ Hy Hx). }
  specialize (IH y eq_refl).
  assert (∀ e', answered_by es i y e' → sent x = sent y → answered_by (es ++ [e]) i x e') as Hlater.
  { intros e' (es1 & es2 & z & -> & Hz & Hp & Hs) Hxy. exists es1, (es2 ++ [e]), z. rewrite <- app_assoc. by rewrite Hxy. }
  assert (phase y = InFlight → sent x = sent y → answered_by (es ++ [e]) i x e) as Hnow.
  { intros Hp Hs. by exists es, [], y. }
  unfold ends_with_answer in *.
  destruct (step_change _ _ _ _ _ Hy Hx) as [ [Hp Hs]|[-> |[Hs Hc] ] ]; [rewrite Hp|done|].
  - destruct (phase y) as [|g er|d|[er|m] ]; try done; try (by apply Hlater). destruct IH as [d Hd]. exists d. by apply Hlater.
  - destruct (phase x) as [|g er|d|[er|m] ]; try done; try (destruct Hc as [Hp ->]; by apply Hnow).
    + destruct Hc as [ [Hp ->]|[g Hp] ]; [by apply Hnow|]. rewrite Hp in IH. by apply Hlater.
    + destruct Hc as (Hp & d & -> & _). exists d. by apply Hnow.
Qed.

Definition COLON : N := 58.

Lemma get_key_session sid sid' url url' ps ps' :
  COLON ∉ sid → COLON ∉ sid' → get_key sid url ps = get_key sid' url' ps' → sid = sid'.
Proof.
  intros H1 H2 He. unfold get_key in He.
  apply (f_equal (split_on COLON)) in He. change (js ":") with [COLON] in He.
  cbn [app] in He. rewrite !split_on_app in He by done. congruence.
Qed.

(** [C10] An identical request is not sent twice: in every reachable state a key names
    exactly the unsettled call made under it, so there is at most one, and it names nothing
    once that call is settled; [get] returns that call's promise and sends nothing, and
    otherwise makes a new call that is in flight under the key; and a request started in
    another session is never joined. *)
Theorem gets_share_one_request (es : list Event) (url : jsstr) (c : Config) :
  let w := run init es in
  let k := get_key (session_sid w) url (params c) in
  let '(w', i) := api_get url c w in
  (∀ k' j, jm_get k' (inFlightGet w) = Some j ↔
     ∃ x, calls w !! j = Some x ∧ key x = Some k' ∧ settled x = false) ∧
  (disableDuplicate (flags c) = false →
     (∀ j x, calls w !! j = Some x → key x = Some k → settled x = false → w' = w ∧ i = j) ∧
     ((∀ j x, calls w !! j = Some x → key x = Some k → settled x = true) →
        i = length (calls w) ∧ jm_get k (inFlightGet w') = Some i ∧
        calls w' = calls w ++ [mkCall (outgoing w c) (Some k) InFlight [headers (outgoing w c)]]) ∧
     (i < length (calls w) → ∃ x, calls w !! i = Some x ∧ key x = Some k ∧
        ∀ sid' url' ps', COLON ∉ sid' → COLON ∉ session_sid w →
          key x = Some (get_key sid' url' ps') → sid' = session_sid w)%nat).
Proof.
  intros w k. destruct (inv_reach es) as (Hs & _ & _). fold w in Hs.
  unfold api_get. fold k. destruct (disableDuplicate (flags c)) eqn:Hd; [by split|].
  destruct (jm_get k (inFlightGet w)) as [i|] eqn:Hk.
  - split; [done|]. intros _. apply Hs in Hk as Hx. destruct Hx as (x & Hi & Hx & Hu). split_and!.
    + intros j y Hj Hy Huy. split; [done|].
      assert (jm_get k (inFlightGet w) = Some j) by (apply Hs; eauto). congruence.
    + intros Hall. specialize (Hall i x Hi Hx). congruence.
    + intros _. exists x. split_and!; [done..|]. intros sid' url' ps' H1 H2 He.
      symmetry. eapply get_key_session; [done..|]. rewrite Hx in He. by injection He.
  - split; [done|]. intros _. split_and!; [| |lia].
    + intros j y Hj Hy Hu. assert (jm_get k (inFlightGet w) = Some j) by (apply Hs; eauto). congruence.
    + intros _. split_and!; [done| |done]. simpl. by rewrite jm_get_set_eq.
Qed.

(** [C8] What becomes of a call: it is sent once or twice, and a second time only when the
    refresh it waited for has signed the user in, with the token the session then has; its
    rank never grows and every answer lowers it, so that it settles after at most two
    answers and one refresh; the refresh it waits for is the one in flight or has its
    outcome; and it ends with the answer to the last request it sent: resolved with what that
    request brought, or rejected with its failure (or because the rotated tokens it brought
    were refused). *)
Theorem call_retried_once (es : list Event) (e : Event) (i : nat) (x : Call) :
  let w := run init es in
  calls w !! i = Some x →
  (1 ≤ length (sent x) ≤ 2)%nat ∧ (rank x ≤ 3)%nat ∧ (rank x = 0%nat ↔ settled x = true) ∧
  (∃ y, calls (step w e) !! i = Some y ∧ (rank y ≤ rank x)%nat ∧
     (answers w e i x → rank y < rank x)%nat ∧ (sent y = sent x ∨ sends_again w e i x y)) ∧
  (∀ g er, phase x = AwaitRefresh g er →
     Auth.refreshPromise (auth w) = Some g ∨ answers w (HRefreshed i) i x) ∧
  ends_with_answer es i x.
Proof.
  intros w Hi. pose proof (inv_reach es) as Hw. fold w in Hw. split_and!.
  - destruct Hw as (_ & _ & Hc). by apply (call_inv_sent (auth w)), (Hc i).
  - destruct Hw as (_ & _ & Hc). by apply (call_inv_sent (auth w)), (Hc i).
  - unfold rank. destruct (phase x); [case_match|..]; lia.
  - apply rank_settled.
  - by apply step_progress.
  - intros g er. by apply waiting_for.
  - by apply call_answered.
Qed.

(** [C9] Calls refused together share one refresh: in every reachable state the calls that
    wait for a refresh without an outcome wait for the same one, the shared refresh of the
    session; a call refused for the first time starts at most one, changing nothing
    else of the session and telling the user nothing; and when the refresh has signed the user
    in, each call that waits for it is sent once more, with the token the session then has in
    its header. *)
Theorem refused_calls_share_refresh (es : list Event) :
  let w := run init es in
  (∀ i x g er gen, calls w !! i = Some x → phase x = AwaitRefresh g er →
     Auth.gens (auth w) !! g = Some gen → Auth.g_outcome gen = None →
     Auth.refreshPromise (auth w) = Some g) ∧
  (∀ i x er, calls w !! i = Some x → phase x = InFlight → is_401 er = true → isCancel er = false →
     hasConfig er = true → skipAuthRefresh (flags (config x)) = false →
     authRetry (flags (config x)) = false →
     let w' := step w (HFailure i er) in
     Auth.store (auth w') = Auth.store (auth w) ∧ effects w' = effects w ∧
     (Auth.gsize (auth w') ≤ S (Auth.gsize (auth w)))%nat ∧
     ∃ g y, Auth.refreshPromise (auth w') = Some g ∧ calls w' !! i = Some y ∧
       phase y = AwaitRefresh g er ∧ sent y = sent x ∧
       (∀ h, Auth.refreshPromise (auth w) = Some h → auth w' = auth w)) ∧
  (∀ i x g er gen b, calls w !! i = Some x → phase x = AwaitRefresh g er →
     Auth.gens (auth w) !! g = Some gen → Auth.g_outcome gen = Some (Auth.Authenticated b) →
     ∃ y h, calls (step w (HRefreshed i)) !! i = Some y ∧ phase y = InFlight ∧ sent y = sent x ++ [h] ∧
       ∀ token, Auth.accessToken (Auth.store (auth w)) = Some token → token ≠ [] →
         jm_get (js "Authorization") h = Some (bearer token)).
Proof.
  intros w. pose proof (inv_reach es) as Hw. fold w in Hw. destruct Hw as (Hs & (Ha & Hb & He) & Hc).
  split_and!; [intros; by eapply Ha| |].
  2: { intros i x g er gen b Hi Hp Hg Ho. simpl. unfold on_refreshed. rewrite Hi, Hp, Hg, Ho. simpl.
       rewrite list_lookup_alter_eq, Hi. eexists _, _. split_and!; [done..|].
       intros token Ht Hn. by apply with_token_header. }
  intros i x er Hi Hp H1 H2 H3 H4 H5. simpl.
  unfold on_failure. rewrite Hi, Hp, H1, H2, H3, H4, H5. simpl.
  unfold Auth.refreshAuthentication. destruct (Auth.refreshPromise (auth w)) as [g|] eqn:E; simpl.
  - split_and!; [done..|lia|]. rewrite E. exists g. eexists.
    split_and!; [done|by rewrite list_lookup_alter_eq, Hi|done..].
  - split_and!; [done..| |].
    + unfold Auth.gsize. simpl. rewrite length_app. simpl. lia.
    + eexists _, _. split_and!; [done|by rewrite list_lookup_alter_eq, Hi|done..].
Qed.

Lemma settle_auth i p w : auth (settle i p w) = auth w.
Proof. unfold settle. by repeat case_match. Qed.

(** What a rotation does to the store. *)
Lemma rotation_effect v a a' :
  Auth.applyAuthRotation v a = Ok a' →
  Auth.user (Auth.store a') = Auth.user (Auth.store a) ∧
  Auth.sid <$> Auth.session (Auth.store a') = Auth.sid <$> Auth.session (Auth.store a).
Proof.
  unfold Auth.applyAuthRotation. destruct (Auth.parseAuthTokenRotation v) as [r|]; [|done].
  destruct (Auth.user (Auth.store a)) as [u|] eqn:Hu; [|done].
  destruct (Auth.session (Auth.store a)) as [ss|] eqn:Hss; [|done].
  destruct (streq _ _) eqn:E; [|done]. intros [= <-]. apply streq_spec in E. simpl. by rewrite E.
Qed.

Lemma success_session i d w :
  let s := Auth.store (auth w) in
  let s' := Auth.store (auth (on_success i d w)) in
  s' = s ∨ ∃ x, calls w !! i = Some x ∧ acceptAuthRotation (flags (config x)) = true ∧
     get d (js "success") = Bool true ∧ Auth.user s' = Auth.user s ∧
     Auth.sid <$> Auth.session s' = Auth.sid <$> Auth.session s.
Proof.
  intros s s'. unfold s', s, on_success. destruct (calls w !! i) as [x|]; [|by left].
  destruct (phase x); try by left.
  destruct (acceptAuthRotation _ && is_true _) eqn:E.
  - destruct (Auth.applyAuthRotation _ _) as [a|m] eqn:Hr; rewrite settle_auth; [right|by left].
    destruct (business_same (flags (config x)) d (set_auth a w)) as (-> & _).
    apply andb_true_iff in E as [E1 E2]. exists x. destruct (rotation_effect _ _ _ Hr) as [H1 H2].
    split_and!; [done..| |done|done]. by destruct (get d _) as [| |[]| | | |].
  - left. rewrite settle_auth. by destruct (business_same (flags (config x)) d (set_auth (auth w) w)) as (-> & _).
Qed.

Lemma failure_session i er w :
  let s := Auth.store (auth w) in
  let w' := on_failure i er w in
  Auth.store (auth w') = s ∨ ∃ x, calls w !! i = Some x ∧ authRetry (flags (config x)) = true ∧
     is_401 er = true ∧ Auth.store (auth w') = Auth.reset Auth.CompleteState s ∧
     Auth.published (auth w') = Auth.published (auth w).
Proof.
  intros s w'. unfold w', s, on_failure. destruct (calls w !! i) as [x|]; [|by left].
  destruct (phase x); try by left.
  set (skip := hasConfig er && skipErrorHandler _). set (clear := Auth.clearAuthentication _ _ _).
  destruct (isCancel er); [by left; rewrite settle_auth|].
  destruct (is_401 er); cycle 1.
  { left. rewrite settle_auth.
    by destruct (effects_same w skip (failure_message (error_object er))) as [_ (-> & _)]. }
  destruct (hasConfig er && negb (skipAuthRefresh _) && negb (authRetry _)).
  { left. simpl. unfold Auth.refreshAuthentication. by case_match. }
  destruct (hasConfig er && authRetry _) eqn:E; rewrite settle_auth; cycle 1.
  { left. by destruct (effects_same w skip (tr "Session expired!")) as [_ (-> & _)]. }
  right. exists x. apply andb_true_iff in E as [_ E].
  destruct (effects_same (set_auth clear w) skip Undef) as [ (-> & _) _].
  unfold clear, Auth.clearAuthentication. split_and!; [done..| |]; simpl; by case_match.
Qed.

Lemma refreshed_session i w : auth (on_refreshed i w) = auth w.
Proof.
  unfold on_refreshed, after_refresh. repeat case_match; try done; rewrite settle_auth; try done.
  all: by apply (effects_same w _ Undef).
Qed.

(** What the client may do to the session: apart from what the session itself does, an
    event changes the store only when a request that asked for it brings rotated tokens of
    the same login session, which keeps the user, or when a request that was already
    tried again is refused again, which signs this tab out and tells no other tab. *)
Theorem client_session_changes (w : World) (e : Event) :
  (∀ a, e ≠ HAuth a) →
  let s := Auth.store (auth w) in
  let s' := Auth.store (auth (step w e)) in
  s' = s ∨
  (∃ i d x, e = HSuccess i d ∧ calls w !! i = Some x ∧ acceptAuthRotation (flags (config x)) = true ∧
     get d (js "success") = Bool true ∧ Auth.user s' = Auth.user s ∧
     Auth.sid <$> Auth.session s' = Auth.sid <$> Auth.session s) ∨
  (∃ i er x, e = HFailure i er ∧ calls w !! i = Some x ∧ authRetry (flags (config x)) = true ∧
     is_401 er = true ∧ s' = Auth.reset Auth.CompleteState s ∧
     Auth.published (auth (step w e)) = Auth.published (auth w)).
Proof.
  intros Hne s s'. destruct e as [url c|c|i d|i er|i|a|p]; try (by left).
  - left. unfold s', s. simpl. unfold api_get. by repeat case_match.
  - destruct (success_session i d w) as [E|(x & Hx)]; [by left|]. right. left. exists i, d, x. by split.
  - destruct (failure_session i er w) as [E|(x & Hx)]; [by left|]. right. right. exists i, er, x. by split.
  - left. unfold s'. simpl. by rewrite refreshed_session.
  - by destruct (Hne a).
Qed.

End Laws.

End Client.

(** ** A session in which the statements apply *)

#[local] Instance sample_axios : Axios :=
  {| prepare c := c; JSON_stringify _ := js "{}"; t k := match k with TextKey s | Inherited s => s end |}.
#[local] Instance sample_laws : AxiosLaws.
Proof. by split. Qed.

Definition sample_config : Config :=
  mkConfig Undef [] (mkFlags false false false false false false).

Definition refused : AxiosError :=
  mkError false true (Obj [(js "response", Obj [(js "status", Num (num_of_Z 401))])]).

(** Signed in; a request is refused, and its session refreshed. *)
Definition sample_events : list Event :=
  [HAuth (Auth.ESignIn Auth.example_bundle false); HGet (js "/api/user/self") sample_config;
   HFailure 0 refused; HAuth (Auth.ELock 0)].

Lemma call_retried_once_witness :
  let w := run init sample_events in
  calls w !! 0%nat ≠ None ∧
  ∃ y, calls (step w (HRefreshed 0)) !! 0%nat = Some y ∧ (rank y ≤ 2)%nat.
Proof.
  cbv zeta. split; [by vm_compute|].
  destruct (calls (run init sample_events) !! 0%nat) as [x|] eqn:Hx; [|by vm_compute in Hx].
  destruct (call_retried_once sample_events (HRefreshed 0) 0 x Hx) as (_ & _ & _ & (y & Hy & Hr & _) & _ & _).
  exists y. split; [done|]. etrans; [apply Hr|]. vm_compute in Hx. injection Hx as <-. vm_compute. lia.
Defined.

(** A second [get] joins the request that waits for the refresh. *)
Lemma gets_share_one_request_witness :
  let w := run init sample_events in
  api_get (js "/api/user/self") sample_config w = (w, 0%nat).
Proof.
  cbv zeta. pose proof (gets_share_one_request sample_events (js "/api/user/self") sample_config) as H.
  cbv zeta in H. destruct (api_get _ _ _) as [w' i]. destruct H as [_ H]. destruct (H eq_refl) as [H' _].
  destruct (calls (run init sample_events) !! 0%nat) as [x|] eqn:Hx; [|by vm_compute in Hx].
  destruct (H' 0%nat x Hx) as [-> ->]; [..|done]; vm_compute in Hx; injection Hx as <-; reflexivity.
Defined.

(** Two requests refused together wait for one refresh. *)
Lemma refused_calls_share_refresh_witness :
  let w := run init (sample_events ++ [HRequest sample_config]) in
  auth (step w (HFailure 1 refused)) = auth w.
Proof.
  cbv zeta. destruct (refused_calls_share_refresh (sample_events ++ [HRequest sample_config])) as (_ & H & _).
  destruct (calls (run init (sample_events ++ [HRequest sample_config])) !! 1%nat) as [x|] eqn:Hx;
    [|by vm_compute in Hx].
  destruct (H 1%nat x refused Hx) as (_ & _ & _ & g & y & _ & _ & _ & _ & Hs).
  1-6: vm_compute in Hx; injection Hx as <-; reflexivity.
  apply (Hs 0%nat). vm_compute. reflexivity.
Defined.

Lemma client_session_changes_witness :
  let w := run init sample_events in
  Auth.store (auth (step w (HRefreshed 0))) = Auth.store (auth w).
Proof.
  cbv zeta. destruct (client_session_changes (run init sample_events) (HRefreshed 0)) as [E|[E|E] ].
  - intros a. discriminate.
  - exact E.
  - by destruct E as (? & ? & ? & ? & _).
  - by destruct E as (? & ? & ? & ? & _).
Defined.

(** A whole run: refused, refreshed, sent again with the new token, answered. *)
Definition fresh_bundle : value :=
  Obj [(js "success", Bool true); (js "data", Obj [
    (js "access_token", Str (js "t2")); (js "token_type", Str (js "Bearer"));
    (js "access_expires_at", Num (num_of_Z 100));
    (js "user", Obj [(js "id", Num (num_of_Z 1)); (js "username", Str (js "u")); (js "role", Num (num_of_Z 1))]);
    (js "session", Obj [(js "sid", Str (js "s1")); (js "current", Bool true);
      (js "login_method", Str []); (js "ip", Str []); (js "user_agent", Str []);
      (js "created_at", Num (num_of_Z 1)); (js "last_active_at", Num (num_of_Z 1));
      (js "expires_at", Num (num_of_Z 1))])])].

Example refused_then_answered :
  let w := run init (sample_events ++
    [HAuth (Auth.EResponse 0 (Auth.mkResponse 200 fresh_bundle Undef)); HRefreshed 0;
     HSuccess 0 (Obj [(js "success", Bool true)])]) in
  map phase (calls w) = [Resolved (Obj [(js "success", Bool true)])] ∧
  map (λ x, map (jm_get (js "Authorization")) (sent x)) (calls w) =
    [[Some (bearer (Auth.access_token Auth.example_bundle)); Some (bearer (js "t2"))]] ∧
  inFlightGet w = [] ∧ effects w = [].
Proof. vm_compute. done. Qed.

End Http.
