(* ===== verification/SecureVerification.v ===== *)
(** * Verification before sensitive actions
      (web/src/features/auth/secure-verification/hooks/use-secure-verification.ts, api.ts and
      components/secure-verification-dialog.tsx, web/src/lib/secure-verification.ts)

    Some requests need a proof that the user is present: a code or a passkey, for one scope.
    The hook keeps the request to make, asks for the proof in a dialog, and makes the request
    with it. Its asynchronous parts are tasks, which are answered in any order; the rest of a
    function after an [await] is what a task does when it is answered.

    A request ([apiCall]) is a number. Preparing the options of a passkey and reading its
    answer (web/src/lib/passkey.ts) are parameters. *)
From S2P Require Import Prelude JsString JsMap JsValue.
Local Open Scope js_scope.

Module Verification.

(** ** Data *)

Inductive VerificationMethod := TwoFA | Passkey.

Inductive SecurityProofScope :=
| TokenAccountMigration | TokenCredentialRotation | ChannelKeyRead | ChannelCodexLocalImport
| PasskeyRegister | PasskeyDelete.

#[export] Instance method_eq_dec : EqDecision VerificationMethod.
Proof. solve_decision. Defined.
#[export] Instance scope_eq_dec : EqDecision SecurityProofScope.
Proof. solve_decision. Defined.

Record VerificationMethods := mkMethods { has2FA : bool; hasPasskey : bool; passkeySupported : bool }.

Record StartVerificationOptions := mkStart {
  c_scope : SecurityProofScope; preferredMethod : option VerificationMethod;
  c_title : option jsstr; c_description : option jsstr }.

Record InternalState := mkState {
  method : option VerificationMethod; scope : option SecurityProofScope; loading : bool; code : jsstr;
  title : option jsstr; description : option jsstr; apiCall : option nat }.

Record Options := mkOptions { successMessage : option jsstr; autoReset : bool }.

(** What is thrown: whether it is an [Error], the name if it is a [DOMException], and the
    object. *)
Record Failure := mkFailure { isError : bool; domName : option jsstr; object : value }.

Definition new_Error (message : value) : Failure := mkFailure true None (Obj [(js "message", message)]).

Definition defaultMethods : VerificationMethods := mkMethods false false false.
Definition initialState : InternalState := mkState None None false [] None None None.

(** The request a verification is for, with the scope and the method it was begun with. *)
Record Execution := mkExec { e_call : nat; e_scope : SecurityProofScope; e_method : VerificationMethod }.

Inductive Continuation := ReturnMethods | StartWith (call : nat) (config : StartVerificationOptions).

Inductive Task :=
| Fetching (k : Continuation)                          (* [await checkVerificationMethods()] *)
| Trying (call : nat) (config : StartVerificationOptions)   (* [await apiCall()] *)
| CodeSent (x : Execution)                              (* [await api.post('/api/verify')] *)
| PasskeyBegun (x : Execution)                          (* [await beginPasskeyVerification(scope)] *)
| PasskeyAsked (x : Execution) (flowToken : value)      (* [await navigator.credentials.get()] *)
| PasskeyFinishing (x : Execution)                      (* [await finishPasskeyVerification()] *)
| Calling (x : Execution)                               (* [await state.apiCall(proof.proof_token)] *)
| Finished.

Inductive Entry :=
| VerifyRequest (s : SecurityProofScope) (code : jsstr)
| BeginRequest (s : SecurityProofScope)
| FinishRequest (flowToken : value) (credential : value)
| ProofReturned (s : SecurityProofScope) (token : value)
| ApiCalled (call : nat) (proof : option value)
| Started (call : nat) (s : SecurityProofScope)          (* the dialog asks for this request *)
| ToastError (message : value)
| ToastInfo (message : value)
| ToastSuccess (message : jsstr)
| OnSuccess (result : value) (m : VerificationMethod)
| OnError (e : Failure).

Record World := mkWorld {
  methods : VerificationMethods; state : InternalState; open : bool; tasks : list Task; log : list Entry }.

(** ** Errors that ask for a verification *)

Definition verificationCodes : list jsstr := map js
  ["VERIFICATION_REQUIRED"; "VERIFICATION_EXPIRED"; "VERIFICATION_INVALID"; "SECURITY_PROOF_REQUIRED";
   "SECURITY_PROOF_EXPIRED"; "SECURITY_PROOF_INVALID"; "SECURITY_PROOF_SCOPE_MISMATCH";
   "SECURITY_PROOF_METHOD_MISMATCH"]%string.

Definition isVerificationRequiredError (error : value) : bool :=
  match error with
  | Obj _ | Arr _ =>
      match get (get error (js "response")) (js "status"), get (get (get error (js "response")) (js "data")) (js "code") with
      | Num n, Str code => num_eqb n (num_of_Z 403) && set_has verificationCodes code
      | _, _ => false
      end
  | _ => false
  end.

(** The message of [extractVerificationInfo] *)
Definition verification_message (error : value) : value :=
  value_default (get (get (get error (js "response")) (js "data")) (js "message"))
    (Str (js "Secure verification is required")).

(** ** The browser *)

Class Browser := {
  credentials : bool;                       (* there is a [navigator.credentials] *)
  prepareCredentialRequestOptions : value → result Failure value;
  buildAssertionResult : value → value;
  engine_text : value;                      (* of the [TypeError] of reading a field of nothing *)
  t : jsstr → jsstr
}.

Section Hook.
Context `{Browser} (options : Options).

Definition tr (s : string) : value := Str (t (js s)).

(** ** Setters *)

Definition set_state (f : InternalState → InternalState) (w : World) : World :=
  mkWorld (methods w) (f (state w)) (open w) (tasks w) (log w).
Definition set_methods (m : VerificationMethods) (w : World) : World :=
  mkWorld m (state w) (open w) (tasks w) (log w).
Definition setOpen (b : bool) (w : World) : World :=
  mkWorld (methods w) (state w) b (tasks w) (log w).
Definition record (l : list Entry) (w : World) : World :=
  mkWorld (methods w) (state w) (open w) (tasks w) (log w ++ l).
Definition spawn (x : Task) (w : World) : World :=
  mkWorld (methods w) (state w) (open w) (tasks w ++ [x]) (log w).
Definition become (i : nat) (x : Task) (w : World) : World :=
  mkWorld (methods w) (state w) (open w) (<[i := x]> (tasks w)) (log w).

Definition setLoading (b : bool) (s : InternalState) : InternalState :=
  mkState (method s) (scope s) b (code s) (title s) (description s) (apiCall s).
Definition setCode (c : jsstr) (w : World) : World :=
  set_state (λ s, mkState (method s) (scope s) (loading s) c (title s) (description s) (apiCall s)) w.
Definition switchMethod (m : VerificationMethod) (w : World) : World :=
  set_state (λ s, mkState (Some m) (scope s) (loading s) [] (title s) (description s) (apiCall s)) w.

Definition reset (w : World) : World := setOpen false (set_state (λ _, initialState) w).
Definition cancel (w : World) : World := reset w.

(** ** Methods *)

(** [checkVerificationMethods]; [None]: one of the three requests failed. *)
Definition checkVerificationMethods (r : option (value * value * bool)) : VerificationMethods :=
  match r with
  | Some (twoFA, passkey, supported) =>
      let enabled v := value_truthy (get v (js "success")) && value_truthy (get (get v (js "data")) (js "enabled")) in
      mkMethods (enabled twoFA) (enabled passkey) supported
  | None => defaultMethods
  end.

Definition canUseMethod (available : VerificationMethods) (m : VerificationMethod) : bool :=
  match m with TwoFA => has2FA available | Passkey => hasPasskey available && passkeySupported available end.

Definition recommendedMethod (available : VerificationMethods) : option VerificationMethod :=
  if hasPasskey available && passkeySupported available then Some Passkey
  else if has2FA available then Some TwoFA else None.

(** [defaultMethod] of [startVerification] *)
Definition default_method (preferred : option VerificationMethod) (available : VerificationMethods) :
    option VerificationMethod :=
  let kept :=
    match preferred with
    | Some Passkey => if negb (hasPasskey available) || negb (passkeySupported available) then None else preferred
    | Some TwoFA => if negb (has2FA available) then None else preferred
    | None => None
    end in
  match kept with
  | Some m => Some m
  | None =>
      if hasPasskey available && passkeySupported available then Some Passkey
      else if has2FA available then Some TwoFA else None
  end.

(** [startVerification] after its [await]. *)
Definition start_with (call : nat) (config : StartVerificationOptions) (available : VerificationMethods) (w : World) : World :=
  if negb (has2FA available) && negb (hasPasskey available)
  then record [ToastError (tr "Please enable Two-factor Authentication or Passkey before proceeding");
               OnError (new_Error (Str (js "No verification methods available. Enable 2FA or Passkey to continue.")))] w
  else
    setOpen true (record [Started call (c_scope config)]
      (set_state (λ s, mkState (default_method (preferredMethod config) available) (Some (c_scope config))
        (loading s) (code s) (c_title config) (c_description config) (Some call)) w)).

Definition fetched (k : Continuation) (available : VerificationMethods) (w : World) : World :=
  let w := set_methods available w in
  match k with ReturnMethods => w | StartWith call config => start_with call config available w end.

(** ** Executing *)

(** The [catch] and the [finally] of [executeVerification] *)
Definition exec_failed (e : Failure) (w : World) : World :=
  set_state (setLoading false) (record
    [ToastError (if isError e then get (object e) (js "message") else tr "Verification failed"); OnError e] w).

(** The rest of the [try], and the [finally], once the request has been made. *)
Definition exec_succeeded (x : Execution) (result : value) (w : World) : World :=
  let w := match successMessage options with Some m => if truthy m then record [ToastSuccess m] w else w | None => w end in
  let w := record [OnSuccess result (e_method x)] w in
  set_state (setLoading false) (if autoReset options then reset w else w).

(** [verify] returned a proof: the request is made with it. *)
Definition proved (i : nat) (x : Execution) (token : value) (w : World) : World :=
  become i (Calling x) (record [ProofReturned (e_scope x) token; ApiCalled (e_call x) (Some token)] w).

Definition failed (i : nat) (e : Failure) (w : World) : World := exec_failed e (become i Finished w).

(** [verify] until its first request. *)
Definition verify (x : Execution) (c : jsstr) (w : World) : World :=
  match e_method x with
  | TwoFA =>
      let trimmed := trim c in
      if truthy trimmed then spawn (CodeSent x) (record [VerifyRequest (e_scope x) trimmed] w)
      else exec_failed (new_Error (tr "Please enter the verification code or backup code")) w
  | Passkey =>
      if credentials then spawn (PasskeyBegun x) (record [BeginRequest (e_scope x)] w)
      else exec_failed (new_Error (tr "Passkey verification is not supported in this environment")) w
  end.

(** [executeVerification] until its first request; [state] is that of the last render. *)
Definition executeVerification (m : option VerificationMethod) (c : option jsstr) (w : World) : World :=
  let s := state w in
  match apiCall s with
  | None => record [ToastError (tr "Verification is not configured properly")] w
  | Some call =>
      match (match m with Some m => Some m | None => method s end) with
      | None => record [ToastError (tr "Select a verification method first")] w
      | Some actualMethod =>
          let w := set_state (setLoading true) w in
          match scope s with
          | None => exec_failed (new_Error (tr "Verification scope is missing")) w
          | Some sc => verify (mkExec call sc actualMethod) (default (code s) c) w
          end
      end
  end.

(** The response of a request of [verify], and what is to be done with it. *)
Definition reads_null (r : value) : bool := match r with Undef | Null => true | _ => false end.
Definition null_error : Failure := new_Error engine_text.

Definition code_answered (i : nat) (x : Execution) (data : value) (w : World) : World :=
  if negb (value_truthy (get data (js "success")))
  then failed i (new_Error (value_or (get data (js "message")) (tr "Verification failed"))) w
  else
    let token := get (get data (js "data")) (js "proof_token") in
    if negb (value_truthy token) then failed i (new_Error (tr "Verification proof was not returned")) w
    else proved i x token w.

(** The [catch] of [verifyPasskey] *)
Definition passkey_error (e : Failure) : Failure :=
  match domName e with
  | Some name =>
      if streq name (js "NotAllowedError") then new_Error (tr "Passkey verification was cancelled or timed out")
      else if streq name (js "InvalidStateError")
      then new_Error (tr "Passkey verification is not available in the current state")
      else e
  | None => e
  end.

Definition begin_answered (i : nat) (x : Execution) (r : value) (w : World) : World :=
  if reads_null r then failed i null_error w
  else if negb (value_truthy (get r (js "success")))
  then failed i (new_Error (value_or (get r (js "message")) (tr "Failed to start verification"))) w
  else
    let data := get r (js "data") in
    match prepareCredentialRequestOptions (value_default (get data (js "options")) data) with
    | Throw e => failed i (passkey_error e) w
    | Ok _ =>
        let flowToken := get data (js "flow_token") in
        if negb (value_truthy flowToken) then failed i (new_Error (tr "Verification flow expired")) w
        else become i (PasskeyAsked x flowToken) w
    end.

Definition credential_answered (i : nat) (x : Execution) (flowToken credential : value) (w : World) : World :=
  if negb (value_truthy credential) then failed i (new_Error (tr "Passkey verification was cancelled")) w
  else
    let assertion := buildAssertionResult credential in
    if negb (value_truthy assertion) then failed i (new_Error (tr "Unable to build Passkey assertion")) w
    else become i (PasskeyFinishing x) (record [FinishRequest flowToken assertion] w).

Definition finish_answered (i : nat) (x : Execution) (r : value) (w : World) : World :=
  if reads_null r then failed i null_error w
  else if negb (value_truthy (get r (js "success")))
  then failed i (new_Error (value_or (get r (js "message")) (tr "Passkey verification failed"))) w
  else
    let token := get (get r (js "data")) (js "proof_token") in
    if negb (value_truthy token) then failed i (new_Error (tr "Verification proof was not returned")) w
    else proved i x token w.

(** ** Tasks *)

(** [withVerification] after [apiCall()] failed. *)
Definition try_failed (i : nat) (call : nat) (config : StartVerificationOptions) (e : Failure) (w : World) : World :=
  if isVerificationRequiredError (object e)
  then become i (Fetching (StartWith call config)) (record [ToastInfo (verification_message (object e))] w)
  else become i Finished w.

Inductive Outcome := Resolved (v : value) | Rejected (e : Failure).

Definition settle (i : nat) (task : Task) (o : Outcome) (w : World) : World :=
  match task, o with
  | Trying call config, Resolved _ => become i Finished w
  | Trying call config, Rejected e => try_failed i call config e w
  | CodeSent x, Resolved r => code_answered i x r w
  | CodeSent x, Rejected e => failed i e w
  | PasskeyBegun x, Resolved r => begin_answered i x r w
  | PasskeyAsked x flow, Resolved c => credential_answered i x flow c w
  | PasskeyFinishing x, Resolved r => finish_answered i x r w
  | PasskeyBegun x, Rejected e | PasskeyAsked x _, Rejected e | PasskeyFinishing x, Rejected e =>
      failed i (passkey_error e) w
  | Calling x, Resolved result => exec_succeeded x result (become i Finished w)
  | Calling x, Rejected e => failed i e w
  | Fetching _, _ | Finished, _ => w
  end.

Inductive Event :=
| Fetch                                                    (* also the effect on mounting *)
| Start (call : nat) (config : StartVerificationOptions)
| WithVerification (call : nat) (config : StartVerificationOptions)
| Execute (m : option VerificationMethod) (c : option jsstr)
| SetCode (c : jsstr)
| SwitchMethod (m : VerificationMethod)
| Cancel
| SetOpen (b : bool)
| Fetched (i : nat) (r : option (value * value * bool))
| Settle (i : nat) (o : Outcome).

Definition step (w : World) (e : Event) : World :=
  match e with
  | Fetch => spawn (Fetching ReturnMethods) w
  | Start call config => spawn (Fetching (StartWith call config)) w
  | WithVerification call config => spawn (Trying call config) (record [ApiCalled call None] w)
  | Execute m c => executeVerification m c w
  | SetCode c => setCode c w
  | SwitchMethod m => switchMethod m w
  | Cancel => cancel w
  | SetOpen b => setOpen b w
  | Fetched i r =>
      match tasks w !! i with
      | Some (Fetching k) => fetched k (checkVerificationMethods r) (become i Finished w)
      | _ => w
      end
  | Settle i o =>
      match tasks w !! i with
      | Some task => settle i task o w
      | None => w
      end
  end.

Definition mounted : World := mkWorld defaultMethods initialState false [] [].

Definition run (es : list Event) : World := foldl step mounted es.

(** ** The dialog *)

Definition availableTabs (available : VerificationMethods) : list VerificationMethod :=
  (if has2FA available then [TwoFA] else []) ++
  (if hasPasskey available && passkeySupported available then [Passkey] else []).

Definition activeMethod (w : World) : option VerificationMethod :=
  match method (state w) with Some m => Some m | None => head (availableTabs (methods w)) end.

Definition verifyDisabled (w : World) : bool :=
  loading (state w) ||
  (bool_decide (activeMethod w = Some TwoFA) &&
   (negb (truthy (trim (code (state w)))) || (length (code (state w)) <? 6)%nat)).

(** Pressing [Verify]: [None] when the button is disabled or there is no method. *)
Definition handleVerify (w : World) : option Event :=
  if bool_decide (availableTabs (methods w) = []) || verifyDisabled w then None
  else match activeMethod w with
       | Some m => Some (Execute (Some m) (match m with TwoFA => Some (code (state w)) | Passkey => None end))
       | None => None
       end.

(** ** Proofs are for what they are used for *)

Definition proof_call (e : Entry) : bool := match e with ApiCalled _ (Some _) => true | _ => false end.

(** Every request made with a proof was asked for with a scope, and the proof is one that
    was returned for this scope; both before. *)
Definition proofs_match (l : list Entry) : Prop :=
  ∀ i c token, l !! i = Some (ApiCalled c (Some token)) →
    ∃ s, Started c s ∈ take i l ∧ ProofReturned s token ∈ take i l.

Definition execution_of (x : Task) : option Execution :=
  match x with
  | CodeSent x | PasskeyBegun x | PasskeyAsked x _ | PasskeyFinishing x | Calling x => Some x
  | _ => None
  end.

Definition exec_started (l : list Entry) (x : Execution) : Prop := Started (e_call x) (e_scope x) ∈ l.

Definition task_ok (l : list Entry) (task : Task) : Prop := ∀ x, execution_of task = Some x → exec_started l x.

Definition state_ok (l : list Entry) (s : InternalState) : Prop :=
  ∀ c, apiCall s = Some c → ∃ sc, scope s = Some sc ∧ Started c sc ∈ l.

Definition inv (w : World) : Prop :=
  state_ok (log w) (state w) ∧ Forall (task_ok (log w)) (tasks w) ∧ proofs_match (log w).

Lemma proofs_app l l' : proofs_match l →
  (∀ i c token, l' !! i = Some (ApiCalled c (Some token)) →
    ∃ s, Started c s ∈ l ++ take i l' ∧ ProofReturned s token ∈ l ++ take i l') →
  proofs_match (l ++ l').
Proof.
  intros Hl Hl' i c token Hi. destruct (decide (i < length l)) as [Hlt|Hge].
  - rewrite lookup_app_l in Hi by done. rewrite take_app_le by lia. by apply Hl.
  - rewrite lookup_app_r in Hi by lia. rewrite take_app_ge by lia. by apply Hl'.
Qed.

Lemma proofs_app_plain l l' : forallb (λ e, negb (proof_call e)) l' = true → proofs_match l → proofs_match (l ++ l').
Proof.
  intros Hf Hl. apply proofs_app; [done|]. intros i c token Hi. exfalso.
  rewrite forallb_forall in Hf. apply list_elem_of_lookup_2, list_elem_of_In, Hf in Hi. done.
Qed.

Lemma ok_mono l l' s ts : state_ok l s → Forall (task_ok l) ts →
  state_ok (l ++ l') s ∧ Forall (task_ok (l ++ l')) ts.
Proof.
  intros Hs Ht. split.
  - intros c Hc. destruct (Hs c Hc) as (sc & ? & ?). exists sc. split; [done|]. apply elem_of_app. by left.
  - eapply Forall_impl; [exact Ht|]. intros x Hx y Hy. apply elem_of_app. left. by apply Hx.
Qed.

Lemma inv_record l w : forallb (λ e, negb (proof_call e)) l = true → inv w → inv (record l w).
Proof.
  intros Hl (Hs & Ht & Hp). destruct (ok_mono (log w) l _ _ Hs Ht). split_and!; [done..|]. by apply proofs_app_plain.
Qed.

(** A change of the state that keeps the request and its scope, or drops the request. *)
Lemma inv_set_state f w : apiCall (f (state w)) = None ∨
    apiCall (f (state w)) = apiCall (state w) ∧ scope (f (state w)) = scope (state w) →
  inv w → inv (set_state f w).
Proof.
  intros Hf (Hs & Ht & Hp). split_and!; [|done..]. intros c Hc. simpl in *. destruct Hf as [Hf|[Ha ->] ]; [congruence|].
  apply Hs. congruence.
Qed.

Lemma inv_become i task w : task_ok (log w) task → inv w → inv (become i task w).
Proof. intros Hx (Hs & Ht & Hp). split_and!; [done| |done]. by apply Forall_insert. Qed.

Lemma inv_spawn task w : task_ok (log w) task → inv w → inv (spawn task w).
Proof. intros Hx (Hs & Ht & Hp). split_and!; [done| |done]. simpl. apply Forall_app. split; [done|]. by constructor. Qed.

Lemma inv_open b w : inv w → inv (setOpen b w).
Proof. done. Qed.

Lemma inv_methods m w : inv w → inv (set_methods m w).
Proof. done. Qed.

Lemma inv_reset w : inv w → inv (reset w).
Proof. intros Hw. apply inv_open, inv_set_state; [by left|done]. Qed.

Lemma inv_exec_failed e w : inv w → inv (exec_failed e w).
Proof. intros Hw. apply inv_set_state; [by right|]. by apply inv_record. Qed.

Lemma inv_failed i e w : inv w → inv (failed i e w).
Proof. intros Hw. by apply inv_exec_failed, inv_become. Qed.

Lemma inv_exec_succeeded x r w : inv w → inv (exec_succeeded x r w).
Proof.
  intros Hw. unfold exec_succeeded.
  set (w1 := match successMessage options with Some m => _ | None => w end).
  assert (inv w1) as H1 by (unfold w1; repeat case_match; [by apply inv_record|done..]).
  apply inv_set_state; [by right|]. destruct (autoReset options); [apply inv_reset|]; by apply inv_record.
Qed.

Lemma inv_start_with call config available w : inv w → inv (start_with call config available w).
Proof.
  intros Hw. unfold start_with. destruct (negb _ && negb _); [by apply inv_record|].
  destruct Hw as (Hs & Ht & Hp). destruct (ok_mono (log w) [Started call (c_scope config)] _ _ Hs Ht).
  split_and!; simpl; [|done|by apply proofs_app_plain].
  intros c [= <-]. exists (c_scope config). split; [done|]. apply elem_of_app. right. by left.
Qed.

Lemma inv_proved i x token w : exec_started (log w) x → inv w → inv (proved i x token w).
Proof.
  intros Hx (Hs & Ht & Hp).
  destruct (ok_mono (log w) [ProofReturned (e_scope x) token; ApiCalled (e_call x) (Some token)] _ _ Hs Ht) as [? Ht'].
  apply inv_become.
  { intros y [= <-]. apply elem_of_app. by left. }
  split_and!; [done..|]. simpl. apply proofs_app; [done|]. intros [|[|j] ] c tok Hj; [done| |by destruct j].
  injection Hj as <- <-. exists (e_scope x). cbn [take]. split; apply elem_of_app; [by left|right; by left].
Qed.

Lemma inv_verify x c w : exec_started (log w) x → inv w → inv (verify x c w).
Proof.
  intros Hx Hw. assert (∀ l, exec_started (log w ++ l) x) as Hxl by (intros l; apply elem_of_app; by left).
  unfold verify. destruct (e_method x).
  - destruct (truthy (trim c)); [|by apply inv_exec_failed].
    apply inv_spawn; [intros y [= <-]; apply Hxl|]. by apply inv_record.
  - destruct credentials; [|by apply inv_exec_failed].
    apply inv_spawn; [intros y [= <-]; apply Hxl|]. by apply inv_record.
Qed.

Lemma inv_execute m c w : inv w → inv (executeVerification m c w).
Proof.
  intros Hw. unfold executeVerification. destruct (apiCall (state w)) as [call|] eqn:Ec; [|by apply inv_record].
  destruct (match m with Some m => Some m | None => method (state w) end) as [am|]; [|by apply inv_record].
  assert (inv (set_state (setLoading true) w)) as Hl by (apply inv_set_state; [by right|done]).
  destruct Hw as (Hs & _). destruct (Hs call Ec) as (sc & -> & Hstart). by apply inv_verify.
Qed.

(** Every answer to a task of an execution keeps the invariant. *)
Lemma verification_inv_settle i task o w : tasks w !! i = Some task → inv w → inv (settle i task o w).
Proof.
  intros Hi Hw.
  assert (task_ok (log w) task) as Hx by (destruct Hw as (_ & Ht & _); by apply (Forall_lookup_1 _ _ i task Ht)).
  assert (∀ x, execution_of task = Some x → exec_started (log w) x) as Hex by exact Hx.
  assert (∀ e, inv (failed i e w)) as Hf by (intros; by apply inv_failed).
  destruct task, o; simpl; try done.
  - by apply inv_become.
  - unfold try_failed. destruct (isVerificationRequiredError _); [|by apply inv_become].
    apply inv_become; [done|]. by apply inv_record.
  - unfold code_answered. repeat (destruct (negb _); [apply Hf|]). by apply inv_proved; [apply Hex|].
  - unfold begin_answered. destruct (reads_null _); [apply Hf|]. destruct (negb _); [apply Hf|].
    destruct (prepareCredentialRequestOptions _); [|apply Hf]. destruct (negb _); [apply Hf|].
    apply inv_become; [|done]. intros y [= <-]. by apply Hex.
  - unfold credential_answered. repeat (destruct (negb _); [apply Hf|]).
    apply inv_become; [|by apply inv_record]. intros y [= <-]. apply elem_of_app. left. by apply Hex.
  - unfold finish_answered. destruct (reads_null _); [apply Hf|]. repeat (destruct (negb _); [apply Hf|]).
    by apply inv_proved; [apply Hex|].
  - by apply inv_exec_succeeded, inv_become.
Qed.

Lemma verification_inv_step w e : inv w → inv (step w e).
Proof.
  intros Hw. destruct e as [|call config|call config|m c|c|m| |b|i r|i o]; simpl.
  - by apply inv_spawn.
  - by apply inv_spawn.
  - apply inv_spawn; [done|]. by apply inv_record.
  - by apply inv_execute.
  - apply inv_set_state; [by right|done].
  - apply inv_set_state; [by right|done].
  - by apply inv_reset.
  - done.
  - destruct (tasks w !! i) as [ [k| | | | | | |]|]; try done. unfold fetched.
    assert (inv (become i Finished w)) as Hb by (by apply inv_become).
    destruct k; [done|]. by apply inv_start_with.
  - destruct (tasks w !! i) as [task|] eqn:E; [|done]. by apply verification_inv_settle.
Qed.

Lemma verification_inv_run es : inv (run es).
Proof.
  unfold run. assert (inv mounted) as Hm by (split_and!; [done|constructor|by intros i c token Hi]).
  revert Hm. generalize mounted. induction es as [|e es IH]; intros w Hw; [done|]. by apply IH, verification_inv_step.
Qed.

(** [C28] A proof is only used for what it was asked for: however requests, answers and the
    user's actions interleave, when a request is made with a proof, the dialog had been
    opened for this request with some scope, and a verification for exactly this scope has
    returned that proof. *)
Theorem proof_used_for_its_scope (es : list Event) (i call : nat) (token : value) :
  let l := log (run es) in
  l !! i = Some (ApiCalled call (Some token)) →
  ∃ s, Started call s ∈ take i l ∧ ProofReturned s token ∈ take i l.
Proof. intros l. destruct (verification_inv_run es) as (_ & _ & Hp). by apply Hp. Qed.

(** ** Executions end *)

(** How many answers an execution may still wait for. *)
Definition rank (task : Task) : nat :=
  match task with
  | PasskeyBegun _ => 4 | PasskeyAsked _ _ => 3 | CodeSent _ | PasskeyFinishing _ => 2 | Calling _ => 1
  | _ => 0
  end.

Definition is_outcome (e : Entry) : bool := match e with OnSuccess _ _ | OnError _ => true | _ => false end.

Definition outcomes (l : list Entry) : list Entry := List.filter is_outcome l.

Lemma outcomes_app l l' : outcomes (l ++ l') = outcomes l ++ outcomes l'.
Proof. apply List.filter_app. Qed.

(** The execution goes on, or it ends with one outcome. *)
Definition goes_on (x : Execution) (w w' : World) (task' : Task) : Prop :=
  execution_of task' = Some x ∧ outcomes (log w') = outcomes (log w) ∧ state w' = state w ∧ open w' = open w.

Definition ends (w w' : World) (task' : Task) : Prop :=
  task' = Finished ∧ loading (state w') = false ∧
  ∃ e, is_outcome e = true ∧ outcomes (log w') = outcomes (log w) ++ [e].

Definition advances (i : nat) (task : Task) (x : Execution) (w w' : World) : Prop :=
  ∃ task', tasks w' = <[i := task']> (tasks w) ∧ rank task' < rank task ∧
    (goes_on x w w' task' ∨ ends w w' task').

Lemma failed_ends i task x e w : 0 < rank task → advances i task x w (failed i e w).
Proof.
  intros Hr. exists Finished. split_and!; [done|done|]. right. split_and!; [done|done|].
  exists (OnError e). split; [done|]. simpl. by rewrite outcomes_app.
Qed.

Lemma proved_goes_on i task x token w : 1 < rank task → advances i task x w (proved i x token w).
Proof.
  intros Hr. exists (Calling x). split_and!; [done|done|]. left. split_and!; try done. simpl.
  rewrite outcomes_app. apply app_nil_r.
Qed.

Lemma succeeded_ends i task x r w : 0 < rank task → advances i task x w (exec_succeeded x r (become i Finished w)).
Proof.
  intros Hr. exists Finished. unfold exec_succeeded.
  set (w1 := match successMessage options with Some m => _ | None => _ end).
  assert (tasks w1 = <[i := Finished]> (tasks w) ∧ outcomes (log w1) = outcomes (log w)) as [Ht Hl].
  { unfold w1. repeat case_match; try done. simpl. rewrite outcomes_app. split; [done|]. apply app_nil_r. }
  split_and!; [by destruct (autoReset options)|done|]. right. split_and!; [done|by destruct (autoReset options)|].
  exists (OnSuccess r (e_method x)). split; [done|].
  destruct (autoReset options); simpl; by rewrite outcomes_app, Hl.
Qed.

(** [C29] Every verification that was begun ends: it waits for at most four answers, and each
    answer, whatever it is, brings it closer to its end without touching the others. When it
    ends, the dialog is no longer busy and exactly one success or one error is reported;
    until then none is. *)
Theorem verifications_end (w : World) (i : nat) (task : Task) (x : Execution) (o : Outcome) :
  tasks w !! i = Some task → execution_of task = Some x →
  rank task ≤ 4 ∧
  let w' := step w (Settle i o) in
  ∃ task', tasks w' = <[i := task']> (tasks w) ∧ rank task' < rank task ∧
    (execution_of task' = Some x ∧ outcomes (log w') = outcomes (log w) ∨
     task' = Finished ∧ loading (state w') = false ∧
     ∃ e, is_outcome e = true ∧ outcomes (log w') = outcomes (log w) ++ [e]).
Proof.
  intros Hi Hx. split; [destruct task; simpl; lia|].
  assert (advances i task x w (step w (Settle i o))) as (task' & Ht & Hr & [(? & ? & _)|?]);
    [|exists task'; by auto..].
  simpl. rewrite Hi. assert (0 < rank task) as Hr by (destruct task; simpl in *; congruence || lia).
  destruct task as [k|call config|y|y|y flow|y|y|]; try done; injection Hx as ->;
    destruct o as [r|e]; simpl; try (by apply failed_ends).
  - unfold code_answered. repeat (destruct (negb _); [by apply failed_ends|]). apply proved_goes_on. simpl. lia.
  - unfold begin_answered. destruct (reads_null r); [by apply failed_ends|].
    destruct (negb _); [by apply failed_ends|].
    destruct (prepareCredentialRequestOptions _); [|by apply failed_ends].
    destruct (negb _); [by apply failed_ends|]. eexists. split_and!; [done|simpl; lia|by left].
  - unfold credential_answered. repeat (destruct (negb _); [by apply failed_ends|]).
    eexists. split_and!; [done|simpl; lia|left]. split_and!; try done. simpl. rewrite outcomes_app. apply app_nil_r.
  - unfold finish_answered. destruct (reads_null r); [by apply failed_ends|].
    repeat (destruct (negb _); [by apply failed_ends|]). apply proved_goes_on. simpl. lia.
  - by apply succeeded_ends.
Qed.

(** ** Which method is offered *)

(** The dialog opens exactly when the account has a method at all, and the method it
    begins with is the preferred one if that can be used, else the recommended one: it can
    always be used, and it is missing only if no method can be. *)
Theorem offered_method_usable (call : nat) (config : StartVerificationOptions) (available : VerificationMethods)
    (w : World) :
  let w' := fetched (StartWith call config) available w in
  let usable m := canUseMethod available m in
  methods w' = available ∧
  (Started call (c_scope config) ∈ log w' ∧ open w' = true ∧ apiCall (state w') = Some call ∧
     scope (state w') = Some (c_scope config) ∧
     (∀ m, method (state w') = Some m → usable m = true) ∧
     (method (state w') = None → ∀ m, usable m = false) ∧
     method (state w') = (match preferredMethod config with
       | Some m => if usable m then Some m else recommendedMethod available
       | None => recommendedMethod available end)
   ∨ has2FA available = false ∧ hasPasskey available = false ∧ open w' = open w ∧ state w' = state w).
Proof.
  intros w' usable. unfold w', fetched, start_with. split; [by destruct (negb _ && negb _)|].
  destruct available as [a b c]. cbn [has2FA hasPasskey passkeySupported]. destruct (negb a && negb b) eqn:E.
  { right. apply andb_true_iff in E as [->%negb_true_iff ->%negb_true_iff]. done. }
  left. cbn [log open state apiCall scope method]. split_and!; try done.
  - apply elem_of_app. right. by left.
  - intros m. unfold usable, default_method. destruct (preferredMethod config) as [ [|]|], m, a, b, c; done.
  - intros Hn m. revert Hn. unfold usable, default_method.
    destruct (preferredMethod config) as [ [|]|], m, a, b, c; done.
  - unfold usable, default_method, recommendedMethod.
    destruct (preferredMethod config) as [ [|]|], a, b, c; done.
Qed.

(** ** Dismissing the dialog *)

(** Dismissing the dialog does not stop a verification that has begun: when the proof
    arrives, the request is made with it all the same; and when that request succeeds, the
    dialog is closed and its state cleared, even if it has been opened for another request
    in the meantime. *)
Theorem dismissed_verification_goes_on (w : World) (i : nat) (x : Execution) (data token result : value) (later : list Event) :
  tasks w !! i = Some (CodeSent x) →
  value_truthy (get data (js "success")) = true →
  get (get data (js "data")) (js "proof_token") = token → value_truthy token = true →
  let w1 := step (step w Cancel) (Settle i (Resolved data)) in
  log w1 = log w ++ [ProofReturned (e_scope x) token; ApiCalled (e_call x) (Some token)] ∧
  let w2 := foldl step w1 later in
  tasks w2 !! i = Some (Calling x) → autoReset options = true →
  let w3 := step w2 (Settle i (Resolved result)) in
  state w3 = initialState ∧ open w3 = false.
Proof.
  intros Hi Hs Ht Htok w1.
  assert (w1 = proved i x token (cancel w)) as ->.
  { unfold w1. simpl. rewrite Hi. simpl. unfold code_answered. by rewrite Hs, Ht, Htok. }
  split; [done|]. intros w2 Hw2 Ha w3. unfold w3. simpl. rewrite Hw2. simpl. unfold exec_succeeded. by rewrite Ha.
Qed.

End Hook.

(** ** A concrete verification *)

#[local] Instance sample_browser : Browser := {|
  credentials := true; prepareCredentialRequestOptions v := Ok v; buildAssertionResult v := v;
  engine_text := Undef; t s := s |}.

Definition sample_options : Options := mkOptions None true.

Definition key_read : StartVerificationOptions := mkStart ChannelKeyRead (Some TwoFA) None None.

Definition enabled : value := Obj [(js "success", Bool true); (js "data", Obj [(js "enabled", Bool true)])].
Definition proof_of (token : jsstr) : value :=
  Obj [(js "success", Bool true); (js "data", Obj [(js "proof_token", Str token)])].

(** The key of a channel is read: the dialog opens, the code is typed and sent. *)
Definition sample_events : list Event :=
  [Start 4 key_read; Fetched 0 (Some (enabled, enabled, false)); SetCode (js "123456"); Execute None None].

Lemma proof_used_for_its_scope_witness :
  let l := log (run sample_options (sample_events ++ [Settle 1 (Resolved (proof_of (js "p")))])) in
  l !! 3 = Some (ApiCalled 4 (Some (Str (js "p")))) ∧ ProofReturned ChannelKeyRead (Str (js "p")) ∈ l.
Proof.
  intros l. split; [reflexivity|].
  destruct (proof_used_for_its_scope sample_options (sample_events ++ [Settle 1 (Resolved (proof_of (js "p")))]) 3 4
    (Str (js "p"))) as (s & Hs & Hp); [reflexivity|].
  assert (s = ChannelKeyRead) as ->.
  { vm_compute in Hs. repeat (apply elem_of_cons in Hs as [Hs|Hs]; [by simplify_eq|]). by apply elem_of_nil in Hs. }
  eapply elem_of_take in Hp as (j & Hj & _). by eapply list_elem_of_lookup_2.
Defined.

Lemma verifications_end_witness :
  let w := run sample_options sample_events in
  ∃ task', tasks (step sample_options w (Settle 1 (Rejected (new_Error Undef)))) = [Finished; task'] ∧ task' = Finished.
Proof.
  intros w. destruct (verifications_end sample_options w 1 (CodeSent (mkExec 4 ChannelKeyRead TwoFA))
    (mkExec 4 ChannelKeyRead TwoFA) (Rejected (new_Error Undef))) as (_ & task' & Ht & _ & Hc); [reflexivity..|].
  exists task'. split; [exact Ht|]. destruct Hc as [ [_ Ho]|[-> _] ]; [by vm_compute in Ho|done].
Defined.

Lemma dismissed_verification_goes_on_witness :
  let w := run sample_options sample_events in
  log (step sample_options (step sample_options w Cancel) (Settle 1 (Resolved (proof_of (js "p"))))) =
  log w ++ [ProofReturned ChannelKeyRead (Str (js "p")); ApiCalled 4 (Some (Str (js "p")))].
Proof.
  intros w. apply (dismissed_verification_goes_on sample_options w 1 (mkExec 4 ChannelKeyRead TwoFA)
    (proof_of (js "p")) (Str (js "p")) Undef []); reflexivity.
Defined.

End Verification.
