(* ===== verification/RequestScope.v ===== *)
(** * Requests of the account page that belong to one login
      (web/src/features/profile/hooks/use-security-request-scope.ts)

    A scope runs one request at a time for the login it was mounted with: starting another,
    cancelling, unmounting, changing the scope's key or signing in as somebody else makes the
    result of the request stale, and stale results are dropped by their callers. An
    [AbortController] is a number, and [aborted] lists those whose [abort] was called. *)
From S2P Require Import Prelude JsString JsMap JsValue AuthSession.
Local Open Scope js_scope.

Module RequestScope.

Record SecurityIdentity := mkIdentity {
  userId : option jsnum; role : option jsnum; sid : option jsstr }.

Definition getSecurityIdentity (st : Auth.AuthStore) : SecurityIdentity :=
  mkIdentity (Auth.user_id <$> Auth.user st) (Auth.role <$> Auth.user st) (Auth.sid <$> Auth.session st).

Definition opt_eqb {A} (f : A → A → bool) (a b : option A) : bool :=
  match a, b with Some x, Some y => f x y | None, None => true | _, _ => false end.

Definition isSameSecurityIdentity (expected : SecurityIdentity) (st : Auth.AuthStore) : bool :=
  let current := getSecurityIdentity st in
  opt_eqb num_eqb (userId current) (userId expected) && opt_eqb num_eqb (role current) (role expected) &&
  opt_eqb streq (sid current) (sid expected).

Record Scope := mkScope {
  active : bool; generation : nat; pending : option nat; identity : SecurityIdentity;
  aborted : list nat; controllers : nat }.

(** What [run] keeps across its [await]. *)
Record Ticket := mkTicket { controller : nat; requestGeneration : nat; expectedIdentity : SecurityIdentity }.

Definition initial (st : Auth.AuthStore) : Scope := mkScope true 0 None (getSecurityIdentity st) [] 0.

Definition cancel (s : Scope) : Scope :=
  mkScope (active s) (S (generation s)) None (identity s)
    (match pending s with Some c => c :: aborted s | None => aborted s end) (controllers s).

(** The effect, and its cleanup. *)
Definition setup (st : Auth.AuthStore) (s : Scope) : Scope :=
  mkScope true (generation s) (pending s) (getSecurityIdentity st) (aborted s) (controllers s).
Definition cleanup (s : Scope) : Scope :=
  cancel (mkScope false (generation s) (pending s) (identity s) (aborted s) (controllers s)).

(** [run] up to its [await]; [None]: the result is stale at once, and nothing is requested. *)
Definition run (st : Auth.AuthStore) (s : Scope) : Scope * option Ticket :=
  let s1 := cancel s in
  if negb (active s1) || negb (isSameSecurityIdentity (identity s1) st) then (s1, None)
  else
    (mkScope (active s1) (generation s1) (Some (controllers s1)) (identity s1) (aborted s1) (S (controllers s1)),
     Some (mkTicket (controllers s1) (generation s1) (identity s1))).

(** After the [await]: whether the result, or the error, is handed to the caller. *)
Definition is_current (st : Auth.AuthStore) (tk : Ticket) (s : Scope) : bool :=
  negb (negb (active s) || set_has (aborted s) (controller tk) ||
        negb (generation s =? requestGeneration tk)%nat || negb (isSameSecurityIdentity (expectedIdentity tk) st)).

(** The [finally] of [run]. *)
Definition settle (tk : Ticket) (s : Scope) : Scope :=
  mkScope (active s) (generation s)
    (if bool_decide (pending s = Some (controller tk)) then None else pending s)
    (identity s) (aborted s) (controllers s).

(** ** Lives of a scope *)

Inductive Op :=
| Cancel
| Cleanup
| Rescope (st : Auth.AuthStore)     (* the key changed: cleanup, then the effect *)
| Run (st : Auth.AuthStore)
| Settle (tk : Ticket).

Definition apply (s : Scope) (op : Op) : Scope :=
  match op with
  | Cancel => cancel s
  | Cleanup => cleanup s
  | Rescope st => setup st (cleanup s)
  | Run st => fst (run st s)
  | Settle tk => settle tk s
  end.

Definition interrupts (op : Op) : bool := match op with Settle _ => false | _ => true end.

(** Controllers are not aborted before they are made. *)
Definition scope_wf (s : Scope) : Prop :=
  (∀ c, c ∈ aborted s → c < controllers s) ∧ (∀ c, pending s = Some c → c < controllers s).

Lemma scope_wf_initial st : scope_wf (initial st).
Proof. split; [intros c Hc; by apply elem_of_nil in Hc|done]. Qed.

Lemma scope_wf_cancel s : scope_wf s → scope_wf (cancel s).
Proof.
  intros [Ha Hp]. split; [|done]. simpl. intros c. destruct (pending s); [|by apply Ha].
  intros [->|Hc]%elem_of_cons; [by apply Hp|by apply Ha].
Qed.

Lemma scope_wf_cleanup s : scope_wf s → scope_wf (cleanup s).
Proof. intros Hs. apply scope_wf_cancel. exact Hs. Qed.

Lemma scope_wf_run st s : scope_wf s → scope_wf (fst (run st s)).
Proof.
  intros Hs%scope_wf_cancel. unfold run. destruct (_ || _); [done|]. simpl. destruct Hs as [Ha Hp]. split.
  - simpl. intros c Hc. specialize (Ha c Hc). simpl in Ha. lia.
  - intros c [= <-]. simpl. lia.
Qed.

Lemma scope_wf_apply s op : scope_wf s → scope_wf (apply s op).
Proof.
  intros Hs. destruct op; simpl; [by apply scope_wf_cancel| | |by apply scope_wf_run|].
  - by apply scope_wf_cleanup.
  - exact (scope_wf_cleanup s Hs).
  - destruct Hs as [Ha Hp]. split; [done|]. simpl. intros c. case_bool_decide; [done|]. apply Hp.
Qed.

Lemma opt_eqb_eq {A} (f : A → A → bool) a b : (∀ x y, f x y = true → x = y) → opt_eqb f a b = true → a = b.
Proof. intros Hf. destruct a, b; simpl; try done. intros ->%Hf. done. Qed.

Lemma num_eqb_eq a b : num_eqb a b = true → a = b.
Proof. destruct a, b; try done; apply bool_decide_eq_true. Qed.

Lemma same_identity i st : isSameSecurityIdentity i st = true → getSecurityIdentity st = i.
Proof.
  unfold isSameSecurityIdentity. destruct i as [u r s], (getSecurityIdentity st) as [u' r' s']. simpl.
  intros [ [Hu Hr]%andb_true_iff Hs]%andb_true_iff. f_equal; eapply opt_eqb_eq; try done;
    [apply num_eqb_eq|apply num_eqb_eq|]. intros x y. apply bool_decide_eq_true.
Qed.

Lemma run_identity st s : identity (fst (run st s)) = identity s.
Proof. unfold run. by destruct (_ || _). Qed.

(** A request that is started is started for the login of the scope. *)
Lemma run_login st s tk : snd (run st s) = Some tk → getSecurityIdentity st = identity s.
Proof.
  unfold run. destruct (_ || _) eqn:E; [done|]. intros _. apply orb_false_iff in E as [_ E%negb_false_iff].
  by apply same_identity.
Qed.

(** The scope of a mounted component is active, and it stays with its login. *)
Definition scope_of (live : bool) (login : SecurityIdentity) (s : Scope) : Prop :=
  identity s = login ∧ scope_wf s ∧ (live = true → active s = true).

Lemma scope_of_cancel live login s : scope_of live login s → scope_of live login (cancel s).
Proof. intros (? & ? & ?). split_and!; [done|by apply scope_wf_cancel|done]. Qed.

Lemma scope_of_run live login st s : scope_of live login s → scope_of live login (fst (run st s)).
Proof.
  intros (? & ? & Ha). split_and!; [by rewrite run_identity|by apply scope_wf_run|].
  intros Hl. specialize (Ha Hl). unfold run. by destruct (_ || _).
Qed.

Lemma scope_of_settle live login tk s : scope_of live login s → scope_of live login (settle tk s).
Proof. intros (? & Hs & ?). split_and!; [done|by apply (scope_wf_apply s (Settle tk))|done]. Qed.

Lemma scope_of_cleanup live login s : scope_of live login s → scope_of false login (cleanup s).
Proof. intros (? & ? & ?). split_and!; [done|by apply scope_wf_cleanup|done]. Qed.

#[global] Hint Resolve scope_of_cancel scope_of_run scope_of_settle scope_of_cleanup : js.

(** A request of a mounted component under its own login is started, and its result is
    current until something else happens. *)
Lemma run_starts login st s : scope_of true login s → isSameSecurityIdentity login st = true →
  ∃ s' tk, run st s = (s', Some tk) ∧ is_current st tk s' = true.
Proof.
  intros (Hi & [Hs _]%scope_wf_cancel & Ha) Hst. unfold run. simpl. rewrite Ha, Hi, Hst by done. simpl. eexists _, _. split; [done|].
  unfold is_current. simpl. rewrite Hst, Nat.eqb_refl. simpl. rewrite orb_false_r. apply negb_true_iff.
  apply orb_false_iff. split; [|done]. apply bool_decide_eq_false. intros Hc. specialize (Hs _ Hc). simpl in Hs. lia.
Qed.

(** Everything but the end of a request advances the generation. *)
Lemma apply_generation s op : generation (apply s op) = (if interrupts op then S (generation s) else generation s).
Proof. destruct op; try done. simpl. unfold run. by destruct (_ || _). Qed.

Lemma generation_interrupted ops s :
  generation (foldl apply s ops) = generation s + length (List.filter interrupts ops).
Proof.
  revert s. induction ops as [|op ops IH]; intros s; simpl; [lia|]. rewrite IH, apply_generation.
  destruct (interrupts op); simpl; lia.
Qed.

Lemma uninterrupted ops s : forallb (λ op, negb (interrupts op)) ops = true →
  let s' := foldl apply s ops in active s' = active s ∧ aborted s' = aborted s ∧ generation s' = generation s.
Proof.
  revert s. induction ops as [|op ops IH]; intros s; simpl; [done|]. intros [Hop Hops]%andb_true_iff.
  destruct (IH (apply s op) Hops) as (-> & -> & ->). by destruct op.
Qed.

Lemma interrupted ops : forallb (λ op, negb (interrupts op)) ops = false → length (List.filter interrupts ops) > 0.
Proof. induction ops as [|op ops IH]; simpl; [done|]. destruct (interrupts op); simpl; [lia|done]. Qed.

(** [C13] The result of a request is handed to its caller exactly if, since it was started,
    nothing was cancelled, started, remounted or unmounted in its scope and the login at its
    end is the one the scope was set up with. *)
Theorem request_current_exact (s : Scope) (st st' : Auth.AuthStore) (tk : Ticket) (ops : list Op) :
  scope_wf s → snd (run st s) = Some tk →
  is_current st' tk (foldl apply (fst (run st s)) ops) = true ↔
  forallb (λ op, negb (interrupts op)) ops = true ∧ isSameSecurityIdentity (identity s) st' = true.
Proof.
  intros Hs%scope_wf_cancel Hr. unfold is_current. rewrite negb_true_iff, !orb_false_iff, !negb_false_iff, Nat.eqb_eq.
  revert Hr. unfold run. destruct (_ || _) eqn:E; [done|]. intros [= <-].
  apply orb_false_iff in E as [Ha%negb_false_iff _]. cbn [fst controller requestGeneration expectedIdentity].
  set (s1 := mkScope _ _ (Some _) _ _ _). split.
  - intros [ [ [_ _] Hg] Hi]. split; [|exact Hi].
    destruct (forallb _ ops) eqn:F; [done|]. apply interrupted in F. rewrite generation_interrupted in Hg. simpl in Hg. lia.
  - intros [Hf Hi]. destruct (uninterrupted ops s1 Hf) as (-> & -> & ->). split_and!; [done| |done|done].
    apply bool_decide_eq_false. intros Hc. destruct Hs as [Hs _]. specialize (Hs _ Hc). simpl in Hs. lia.
Qed.

(** ** A concrete scope *)

Definition sample_login (id : Z) : Auth.AuthStore :=
  Auth.mkStore (Some (Auth.mkUser (num_of_Z id) (js "u") (num_of_Z 1) Undef)) (Some (js "token")) None
    (Some (Auth.mkSession (js "s1") true (js "password") [] [] (num_of_Z 0) (num_of_Z 0) (num_of_Z 0))) None
    Auth.CompleteState.

Lemma request_current_exact_witness :
  let st := sample_login 1 in
  let s := initial st in
  let tk := mkTicket 0 1 (getSecurityIdentity st) in
  scope_wf s ∧ snd (run st s) = Some tk ∧
  is_current st tk (foldl apply (fst (run st s)) [Settle tk]) = true ∧
  is_current (sample_login 2) tk (foldl apply (fst (run st s)) [Settle tk]) ≠ true ∧
  is_current st tk (foldl apply (fst (run st s)) [Cancel]) ≠ true.
Proof.
  intros st s tk. assert (scope_wf s) as Hs by apply scope_wf_initial.
  assert (snd (run st s) = Some tk) as Hr by (by vm_compute). split; [done|]. split; [done|]. split_and!.
  - apply (request_current_exact s st st tk [Settle tk] Hs Hr). by vm_compute.
  - intros Hc. apply (request_current_exact s st (sample_login 2) tk [Settle tk] Hs Hr) in Hc as [_ Hc]. by vm_compute in Hc.
  - intros Hc. apply (request_current_exact s st st tk [Cancel] Hs Hr) in Hc as [Hc _]. done.
Defined.

End RequestScope.
