(* ===== verification/OAuthCallback.v ===== *)
(** * The page an identity provider returns to
      (web/src/routes/oauth/$provider.tsx, web/src/features/auth/lib/oauth-callback-mode.ts,
      oauth-bind-window.ts and auth-redirect.ts)

    The page is opened in two ways: in the user's own tab, to sign in, and in a pop-up of the
    account page, to bind a provider to the account. A stamp in the session storage of the
    pop-up tells them apart. To sign in, the page asks the server and goes on to the page that
    was asked for; to bind, it hands the answer of the provider to the window that opened it,
    waits for the result and closes.

    A storage that throws is a storage with a flag. The parser of URLs is a parameter. *)
From S2P Require Import Prelude JsString JsMap JsValue AuthSession HttpClient.
Local Open Scope js_scope.

Module OAuthCallback.

(** ** The stamp *)

Definition OAUTH_BIND_FLOW_KEY_PREFIX : jsstr := js "oauth_bind_flow:".

Record OAuthModeStorage := mkStorage {
  items : list (jsstr * jsstr); getThrows : bool; setThrows : bool }.

(** [owner.sessionStorage] *)
Inductive StorageAccess := AccessThrows | NoStorage | HasStorage (s : OAuthModeStorage).

Definition getOAuthSessionStorage (a : StorageAccess) : option OAuthModeStorage :=
  match a with HasStorage s => Some s | AccessThrows | NoStorage => None end.

(** Whether the stamp was made, and the storage then. *)
Definition markOAuthBindPopup (storage : option OAuthModeStorage) (provider state : jsstr) :
    bool * option OAuthModeStorage :=
  match storage with
  | None => (false, None)
  | Some s =>
      if negb (truthy provider) || negb (truthy state) then (false, Some s)
      else
        let key := OAUTH_BIND_FLOW_KEY_PREFIX ++ provider in
        if setThrows s then (false, Some s)
        else
          let s' := mkStorage (jm_set key state (items s)) (getThrows s) (setThrows s) in
          (if getThrows s' then false else bool_decide (jm_get key (items s') = Some state), Some s')
  end.

Inductive OAuthCallbackMode := LoginMode | BindMode.

#[export] Instance OAuthCallbackMode_eq_dec : EqDecision OAuthCallbackMode.
Proof. solve_decision. Defined.

(** [opener]: whether [window.opener], if there is one, is closed. *)
Definition resolveOAuthCallbackMode (provider state : jsstr) (opener : option bool)
    (storage : option OAuthModeStorage) : OAuthCallbackMode :=
  match opener, storage with
  | Some false, Some s =>
      if negb (truthy state) then LoginMode
      else if getThrows s then LoginMode
      else if bool_decide (jm_get (OAUTH_BIND_FLOW_KEY_PREFIX ++ provider) (items s) = Some state)
      then BindMode else LoginMode
  | _, _ => LoginMode
  end.

(** ** The stamp identifies the flow *)

Lemma resolve_bind provider state opener storage :
  resolveOAuthCallbackMode provider state opener storage = BindMode ↔
  opener = Some false ∧ state ≠ [] ∧ ∃ s, storage = Some s ∧ getThrows s = false ∧
    jm_get (OAUTH_BIND_FLOW_KEY_PREFIX ++ provider) (items s) = Some state.
Proof.
  unfold resolveOAuthCallbackMode. destruct opener as [ [|]|]; [naive_solver| |naive_solver].
  destruct storage as [s|]; [|naive_solver]. destruct state as [|u state]; [naive_solver|].
  cbn [truthy negb].
  destruct (getThrows s) eqn:E; [split; [done|]; intros (_ & _ & s' & [= <-] & ? & _); congruence|].
  case_bool_decide as Hg; split; try done.
  - intros _. split_and!; [done..|]. by exists s.
  - intros (_ & _ & s' & [= <-] & _ & ?). congruence.
Qed.

(** A pop-up that could be stamped for a provider and a state is taken for a binding by the
    page of this provider with this state and with no other, as long as its opener is open;
    for other providers nothing changes. *)
Theorem stamp_identifies_flow (storage : option OAuthModeStorage) (provider state : jsstr) :
  fst (markOAuthBindPopup storage provider state) = true →
  let storage' := snd (markOAuthBindPopup storage provider state) in
  (∀ state' opener, resolveOAuthCallbackMode provider state' opener storage' = BindMode ↔
     opener = Some false ∧ state' = state) ∧
  (∀ provider' state' opener, provider' ≠ provider →
     resolveOAuthCallbackMode provider' state' opener storage' = resolveOAuthCallbackMode provider' state' opener storage).
Proof.
  unfold markOAuthBindPopup. destruct storage as [s|]; [|done].
  destruct (negb _ || negb _) eqn:E; [done|]. apply orb_false_iff in E as [_ Hst%negb_false_iff].
  destruct (setThrows s); [done|]. cbn [fst snd getThrows items]. destruct (getThrows s) eqn:Eg; [done|]. intros _. split.
  - intros state' opener. rewrite resolve_bind. cbn [getThrows items]. split.
    + intros (-> & _ & s' & [= <-] & _ & Hg). cbn [items] in Hg. rewrite jm_get_set_eq in Hg. naive_solver.
    + intros [-> ->]. split_and!; [done|by destruct state|]. eexists. split_and!; [done|done|]. apply jm_get_set_eq.
  - intros provider' state' opener Hne. unfold resolveOAuthCallbackMode. cbn [getThrows items].
    rewrite Eg, jm_get_set_ne; [done|]. by intros ?%app_inv_head.
Qed.

(** ** Telegram *)

Definition TELEGRAM_BIND_RESULT_MESSAGE : jsstr := js "telegram:binding:result".
Definition OAUTH_BIND_CALLBACK_MESSAGE : jsstr := js "oauth:binding:callback".
Definition OAUTH_BIND_RESULT_MESSAGE : jsstr := js "oauth:binding:result".

Inductive TelegramBindCallback :=
| TelegramResult (flowToken : jsstr) (success : bool) (code : option jsstr)
| TelegramInvalid.

Definition opt_is (s : option jsstr) (x : string) : bool := bool_decide (s = Some (js x)).

Definition parseTelegramBindCallback (telegram_bind flow_token error_code : option jsstr) : option TelegramBindCallback :=
  if negb (opt_is telegram_bind "success") && negb (opt_is telegram_bind "error") then None
  else
    match flow_token with
    | Some (u :: rest) =>
        if opt_is telegram_bind "success" then Some (TelegramResult (u :: rest) true None)
        else Some (TelegramResult (u :: rest) false error_code)
    | _ => Some TelegramInvalid
    end.

Definition opt_value (s : option jsstr) : value := match s with Some s => Str s | None => Undef end.

(** The message posted to the opener; [None]: [false] is returned. *)
Definition postTelegramBindResult (callback : TelegramBindCallback) (opener : option bool) : option value :=
  match callback, opener with
  | TelegramResult flowToken success code, Some false =>
      Some (Obj [(js "type", Str TELEGRAM_BIND_RESULT_MESSAGE); (js "flow_token", Str flowToken);
                 (js "success", Bool success); (js "code", opt_value code)])
  | _, _ => None
  end.

(** ** Redirects *)

Record URLRecord := mkURL {
  protocol : jsstr; url_origin : jsstr; pathname : jsstr; url_search : jsstr; hash : jsstr }.

(** [new URL(text)] and [new URL(text, base)]; [None]: it throws. *)
Class Urls := { new_URL : jsstr → option jsstr → option URLRecord }.

Section Page.
Context `{Urls} (own_origin : jsstr) (t : jsstr → jsstr).

Definition allowedRedirectProtocols : list jsstr := map js ["http:"; "https:"]%string.

Definition sanitizeAuthRedirect (v : value) (origin : jsstr) : option jsstr :=
  match v with
  | Str text =>
      let target := trim text in
      if negb (truthy target) || includes_unit 92 target || starts_with (js "//") target then None
      else
        match new_URL origin None with
        | None => None
        | Some trusted =>
            if negb (set_has allowedRedirectProtocols (protocol trusted)) then None
            else
              match (if starts_with (js "/") target then new_URL target (Some (url_origin trusted))
                     else new_URL target None) with
              | None => None
              | Some u =>
                  if negb (set_has allowedRedirectProtocols (protocol u)) ||
                     negb (streq (url_origin u) (url_origin trusted)) then None
                  else Some (pathname u ++ url_search u ++ hash u)
              end
        end
  | _ => None
  end.

(** ** The page *)

Record Search := mkSearch {
  code : option jsstr; state : option jsstr; error : option jsstr; error_description : option jsstr;
  redirect : option jsstr; telegram_bind : option jsstr; flow_token : option jsstr; error_code : option jsstr }.

Inductive Notice := Text (v : value) | Key (k : Http.MessageKey).

Inductive Entry :=
| PostToOpener (message : value)                    (* with the page's own origin as target *)
| ToastError (n : Notice)
| ToastSuccess (message : jsstr)
| LoginRequest (provider : jsstr) (params : list (jsstr * value))
| ApplyBundle (b : Auth.AuthBundle)
| Navigate (href : jsstr).

(** [waiting]: the listener for the result is installed; [deadline]: its timer is active;
    [timers]: the timeouts that close the window; [delayedClose]: the last of them. *)
Record Page := mkPage {
  waiting : bool; deadline : bool; timers : list nat; delayedClose : option nat; nextTimer : nat;
  signingIn : bool; closed : bool; log : list Entry }.

Definition blank : Page := mkPage false false [] None 0 false false [].

Definition record (l : list Entry) (p : Page) : Page :=
  mkPage (waiting p) (deadline p) (timers p) (delayedClose p) (nextTimer p) (signingIn p) (closed p) (log p ++ l).
Definition close_window (p : Page) : Page :=
  mkPage (waiting p) (deadline p) (timers p) (delayedClose p) (nextTimer p) (signingIn p) true (log p).
Definition close_later (p : Page) : Page :=
  mkPage (waiting p) (deadline p) (timers p ++ [nextTimer p]) (Some (nextTimer p)) (S (nextTimer p))
    (signingIn p) (closed p) (log p).
(** [cancelResultTimeout], also what the deadline itself does first *)
Definition stop_deadline (p : Page) : Page :=
  mkPage (waiting p) false (timers p) (delayedClose p) (nextTimer p) (signingIn p) (closed p) (log p).
Definition await_result (p : Page) : Page :=
  mkPage true true (timers p) (delayedClose p) (nextTimer p) (signingIn p) (closed p) (log p).
Definition set_signingIn (b : bool) (p : Page) : Page :=
  mkPage (waiting p) (deadline p) (timers p) (delayedClose p) (nextTimer p) b (closed p) (log p).

Definition text (s : string) : Notice := Text (Str (t (js s))).

Definition page_mode (provider : jsstr) (search : Search) (opener : option bool) (storage : StorageAccess) : OAuthCallbackMode :=
  if streq provider (js "telegram") &&
     (opt_is (telegram_bind search) "success" || opt_is (telegram_bind search) "error") then BindMode
  else resolveOAuthCallbackMode provider (default [] (state search)) opener (getOAuthSessionStorage storage).

Definition safeNavigate (target : value) (fallback : jsstr) (p : Page) : Page :=
  record [Navigate (default fallback (sanitizeAuthRedirect target own_origin))] p.

Definition to_sign_in (p : Page) : Page := safeNavigate (Str (js "/sign-in")) (js "/sign-in") p.

Definition callback_message (provider : jsstr) (search : Search) : value :=
  Obj [(js "type", Str OAUTH_BIND_CALLBACK_MESSAGE); (js "provider", Str provider);
       (js "code", Str (default [] (code search))); (js "state", Str (default [] (state search)));
       (js "error", opt_value (error search)); (js "errorDescription", opt_value (error_description search))].

Definition opt_truthy (s : option jsstr) : bool := truthy (default [] s).

(** The effect. *)
Definition mount (provider : jsstr) (search : Search) (opener : option bool) (storage : StorageAccess) : Page :=
  let telegram :=
    if streq provider (js "telegram")
    then parseTelegramBindCallback (telegram_bind search) (flow_token search) (error_code search) else None in
  match telegram with
  | Some callback =>
      match postTelegramBindResult callback opener with
      | None => close_later (record [ToastError (text "Telegram binding failed. Please try again.")] blank)
      | Some m => close_window (record [PostToOpener m] blank)
      end
  | None =>
      match page_mode provider search opener storage with
      | BindMode =>
          match opener with
          | Some false => record [PostToOpener (callback_message provider search)] (await_result blank)
          | _ => record [ToastError (text "OAuth binding window is no longer available")] blank
          end
      | LoginMode =>
          if negb (opt_truthy (code search)) && negb (opt_truthy (error search))
          then to_sign_in (record [ToastError (text "Missing code")] blank)
          else
            set_signingIn true (record [LoginRequest provider
              [(js "code", if opt_truthy (code search) then opt_value (code search) else Undef);
               (js "state", Str (default [] (state search))); (js "error", opt_value (error search));
               (js "error_description", opt_value (error_description search))]] blank)
      end
  end.

Definition is_str (v : value) (s : jsstr) : bool := match v with Str x => streq x s | _ => false end.

(** [handleBindingResult] *)
Definition handleBindingResult (provider : jsstr) (search : Search) (origin : jsstr) (fromOpener : bool)
    (data : value) (p : Page) : Page :=
  if negb (waiting p) then p
  else if negb (streq origin own_origin) || negb fromOpener then p
  else if negb (value_truthy data) || negb (is_str (get data (js "type")) OAUTH_BIND_RESULT_MESSAGE) ||
          negb (is_str (get data (js "provider")) provider) ||
          negb (is_str (get data (js "state")) (default [] (state search))) then p
  else
    let p := stop_deadline p in
    if value_truthy (get data (js "success"))
    then close_window (record [ToastSuccess (t (js "Binding successful!"))] p)
    else close_later (record [ToastError (Text (value_or (get data (js "message")) (Str (t (js "OAuth failed")))))] p).

(** The callback of [startOAuthBindResponseDeadline], 30 seconds later. *)
Definition deadline_fires (p : Page) : Page :=
  if negb (deadline p) then p
  else close_later (record [ToastError (text "OAuth binding timed out. Please try again.")] (stop_deadline p)).

Definition timer_fires (h : nat) (p : Page) : Page :=
  if bool_decide (h ∈ timers p)
  then close_window (mkPage (waiting p) (deadline p) (List.filter (λ x, negb (x =? h)%nat) (timers p)) (delayedClose p)
         (nextTimer p) (signingIn p) (closed p) (log p))
  else p.

(** What is thrown by a request: whether it is an [Error], and the object. *)
Inductive Outcome := Resolved (v : value) | Rejected (isError : bool) (e : value).

Definition login_answered (search : Search) (o : Outcome) (p : Page) : Page :=
  if negb (signingIn p) then p
  else
    let p := set_signingIn false p in
    match o with
    | Resolved data =>
        match (if value_truthy (get data (js "success")) then Auth.parseBundle (get data (js "data")) else None) with
        | Some b =>
            record [ToastSuccess (t (js "Signed in successfully!"))]
              (safeNavigate (opt_value (redirect search)) (js "/dashboard") (record [ApplyBundle b] p))
        | None =>
            to_sign_in (record [ToastError match Http.getServerErrorMessageKey data with
              | Some k => Key k
              | None => Text (value_or (get data (js "message")) (Str (t (js "OAuth failed"))))
              end] p)
        end
    | Rejected isError e =>
        let message := get (get (get e (js "response")) (js "data")) (js "message") in
        to_sign_in
          match Http.getServerErrorMessageKey e with
          | Some _ => p
          | None =>
              record [ToastError (Text (value_or message
                (if isError then get e (js "message") else Str (t (js "OAuth failed")))))] p
          end
    end.

(** The cleanup of the effect. *)
Definition unmount (p : Page) : Page :=
  mkPage false false
    (match delayedClose p with Some h => List.filter (λ x, negb (x =? h)%nat) (timers p) | None => timers p end)
    (delayedClose p) (nextTimer p) (signingIn p) (closed p) (log p).

Inductive Event :=
| Message (origin : jsstr) (fromOpener : bool) (data : value)
| Deadline
| Timer (h : nat)
| LoginAnswered (o : Outcome)
| Unmount.

Definition step (provider : jsstr) (search : Search) (p : Page) (e : Event) : Page :=
  match e with
  | Message origin fromOpener data => handleBindingResult provider search origin fromOpener data p
  | Deadline => deadline_fires p
  | Timer h => timer_fires h p
  | LoginAnswered o => login_answered search o p
  | Unmount => unmount p
  end.

(** ** What the page posts *)

(** The page hands a callback over exactly if it was opened by a window that is still open
    and it carries the stamp for its provider and state, which is not empty. *)
Theorem callback_posted (provider : jsstr) (search : Search) (opener : option bool) (storage : StorageAccess) (m : value) :
  provider ≠ js "telegram" →
  PostToOpener m ∈ log (mount provider search opener storage) ↔
  m = callback_message provider search ∧
  resolveOAuthCallbackMode provider (default [] (state search)) opener (getOAuthSessionStorage storage) = BindMode.
Proof.
  intros Hp. unfold mount, page_mode. replace (streq provider (js "telegram")) with false
    by (symmetry; by apply bool_decide_eq_false). cbn [andb].
  destruct (resolveOAuthCallbackMode _ _ _ _) eqn:E.
  - split; [|naive_solver]. destruct (_ && _); simpl; rewrite ?elem_of_cons, ?elem_of_nil; naive_solver.
  - apply resolve_bind in E as [-> _]. simpl. rewrite elem_of_cons, elem_of_nil. naive_solver.
Qed.

(** ** The page of a binding closes *)

Definition closing (p : Page) : Prop := closed p = true ∨ timers p ≠ [].

(** While the result is awaited its deadline runs, or the page is closing. *)
Definition awaited (p : Page) : Prop := waiting p = true ∧ (deadline p = true ∨ closing p).

Lemma closing_later p : closing (close_later p).
Proof. right. simpl. by destruct (timers p). Qed.

Lemma awaited_step provider search p e : e ≠ Unmount → awaited p → awaited (step provider search p e).
Proof.
  intros He [Hw Hd]. destruct e as [origin from data| |h|o|]; simpl; [| | | |done].
  - unfold handleBindingResult. rewrite Hw. simpl. do 2 (destruct (_ || _); [done|]).
    destruct (value_truthy _); (split; [exact Hw|right]); [by left|apply closing_later].
  - unfold deadline_fires. destruct (deadline p) eqn:E; simpl; [|split; [done|by destruct Hd; [congruence|right] ] ].
    split; [exact Hw|]. right. apply closing_later.
  - unfold timer_fires. case_bool_decide; [|done]. split; [exact Hw|]. right. by left.
  - unfold login_answered. destruct (signingIn p); [|done]. simpl.
    destruct o as [data|isError err]; [destruct (if value_truthy _ then _ else _)|destruct (Http.getServerErrorMessageKey err)]; done.
Qed.

(** The page of a binding closes: whatever messages arrive and whenever timers fire, once its
    deadline has passed it is closed, or a timer runs that closes it. *)
Theorem binding_page_closes (provider : jsstr) (search : Search) (opener : option bool) (storage : StorageAccess)
    (es : list Event) :
  waiting (mount provider search opener storage) = true → Forall (λ e, e ≠ Unmount) es →
  let p := deadline_fires (foldl (step provider search) (mount provider search opener storage) es) in
  closed p = true ∨ ∃ h, h ∈ timers p ∧ closed (timer_fires h p) = true.
Proof.
  intros Hw Hes p.
  assert (awaited (mount provider search opener storage)) as Ha.
  { split; [done|]. left. revert Hw. unfold mount.
    destruct (if streq _ _ then _ else _) as [cb|]; [by destruct (postTelegramBindResult cb opener)|].
    destruct (page_mode _ _ _ _); [by destruct (_ && _)|]. by destruct opener as [ [|]|]. }
  assert (awaited (foldl (step provider search) (mount provider search opener storage) es)) as Hb.
  { revert Ha. generalize (mount provider search opener storage). induction Hes as [|e es He _ IH]; intros q Hq; [done|].
    by apply IH, awaited_step. }
  assert (closing p) as [Hc|Ht].
  { unfold p, deadline_fires. destruct Hb as [_ Hd]. destruct (deadline _) eqn:E; simpl; [apply closing_later|].
    by destruct Hd. }
  - by left.
  - right. destruct (timers p) as [|h l] eqn:E; [done|]. exists h. split; [by left|].
    unfold timer_fires. rewrite E. by rewrite bool_decide_true by (by left).
Qed.

(** ** Where the page goes *)

Definition local_href (href : jsstr) : Prop :=
  href = js "/dashboard" ∨ href = js "/sign-in" ∨
  ∃ trusted u, new_URL own_origin None = Some trusted ∧ protocol u ∈ allowedRedirectProtocols ∧
    url_origin u = url_origin trusted ∧ href = pathname u ++ url_search u ++ hash u.

Definition goes_local (p : Page) : Prop := ∀ href, Navigate href ∈ log p → local_href href.

Lemma sanitized_local v href : sanitizeAuthRedirect v own_origin = Some href → local_href href.
Proof.
  unfold sanitizeAuthRedirect. destruct v as [| | | |text0| |]; try done. destruct (_ || _); [done|].
  destruct (new_URL own_origin None) as [trusted|] eqn:Et; [|done]. destruct (negb _); [done|].
  destruct (if starts_with _ _ then _ else _) as [u|]; [|done]. destruct (_ || _) eqn:E; [done|]. intros [= <-].
  apply orb_false_iff in E as [Hp%negb_false_iff Ho%negb_false_iff].
  right. right. exists trusted, u. split_and!; [done|by apply bool_decide_eq_true in Hp|by apply bool_decide_eq_true in Ho|done].
Qed.

Lemma goes_local_record l p : goes_local p → (∀ href, Navigate href ∈ l → local_href href) → goes_local (record l p).
Proof. intros Hp Hl href [Hh|Hh]%elem_of_app; [by apply Hp|by apply Hl]. Qed.

Lemma goes_local_toast e p : goes_local p → (∀ href, e ≠ Navigate href) → goes_local (record [e] p).
Proof. intros Hp He. apply goes_local_record; [done|]. intros href [Hh|[]%elem_of_nil]%elem_of_cons. by destruct (He href). Qed.

Lemma goes_local_navigate v fallback p : fallback = js "/dashboard" ∨ fallback = js "/sign-in" →
  goes_local p → goes_local (safeNavigate v fallback p).
Proof.
  intros Hf Hp. apply goes_local_record; [done|]. intros href [Hh|[]%elem_of_nil]%elem_of_cons. injection Hh as ->.
  destruct (sanitizeAuthRedirect v own_origin) as [r|] eqn:E; simpl; [by eapply sanitized_local|].
  destruct Hf as [-> | ->]; [by left|by right; left].
Qed.

Lemma goes_local_sign_in p : goes_local p → goes_local (to_sign_in p).
Proof. apply goes_local_navigate. by right. Qed.

Lemma goes_local_blank : goes_local blank.
Proof. intros href Hh. by apply elem_of_nil in Hh. Qed.

Lemma goes_local_mount provider search opener storage : goes_local (mount provider search opener storage).
Proof.
  unfold mount. destruct (if streq _ _ then _ else _) as [cb|].
  - destruct (postTelegramBindResult cb opener) as [m|].
    + assert (goes_local (record [PostToOpener m] blank)) by (by apply goes_local_toast; [apply goes_local_blank|]). done.
    + assert (goes_local (record [ToastError (text "Telegram binding failed. Please try again.")] blank))
        by (by apply goes_local_toast; [apply goes_local_blank|]). done.
  - destruct (page_mode _ _ _ _).
    + destruct (_ && _); [by apply goes_local_sign_in, goes_local_toast; [apply goes_local_blank|]|].
      intros href Hh. simpl in Hh. apply elem_of_cons in Hh as [Hh|Hh]; [done|by apply elem_of_nil in Hh].
    + destruct opener as [ [|]|]; by apply goes_local_toast; [apply goes_local_blank|].
Qed.

Lemma goes_local_step provider search p e : goes_local p → goes_local (step provider search p e).
Proof.
  intros Hp. destruct e as [origin from data| |h|o|]; simpl.
  - unfold handleBindingResult. destruct (negb _); [done|]. do 2 (destruct (_ || _); [done|]).
    destruct (value_truthy _); refine (goes_local_toast _ (stop_deadline p) Hp _); done.
  - unfold deadline_fires. destruct (negb _); [done|]. refine (goes_local_toast _ (stop_deadline p) Hp _). done.
  - unfold timer_fires. by case_bool_decide.
  - unfold login_answered. destruct (negb _); [done|].
    assert (goes_local (set_signingIn false p)) as Hq by exact Hp. destruct o as [data|isError err].
    + destruct (if value_truthy _ then _ else _) as [b|].
      * apply goes_local_toast; [|done]. apply goes_local_navigate; [by left|]. by apply goes_local_toast.
      * apply goes_local_sign_in. by apply goes_local_toast.
    + destruct (Http.getServerErrorMessageKey err); apply goes_local_sign_in; [done|by apply goes_local_toast].
  - done.
Qed.

(** Wherever the page goes: it is one of the two pages of the application, or the path, query
    and fragment of an address with the origin of the page. *)
Theorem navigations_local (provider : jsstr) (search : Search) (opener : option bool) (storage : StorageAccess)
    (es : list Event) (href : jsstr) :
  Navigate href ∈ log (foldl (step provider search) (mount provider search opener storage) es) → local_href href.
Proof.
  revert href. change (goes_local (foldl (step provider search) (mount provider search opener storage) es)).
  generalize (goes_local_mount provider search opener storage). generalize (mount provider search opener storage).
  induction es as [|e es IH]; intros p Hp; [done|]. by apply IH, goes_local_step.
Qed.

End Page.

(** ** Paths that name a host

    The parts of the URL standard these addresses use: [https] addresses without query and
    fragment, whose paths lose their dot segments. *)

Fixpoint dot_segments (segments out : list jsstr) : list jsstr :=
  match segments with
  | [] => out
  | [s] =>
      if streq s (js "..") then take (length out - 1) out ++ [ [] ]
      else if streq s (js ".") then out ++ [ [] ] else out ++ [s]
  | s :: rest =>
      if streq s (js "..") then dot_segments rest (take (length out - 1) out)
      else if streq s (js ".") then dot_segments rest out else dot_segments rest (out ++ [s])
  end.

Definition sample_path (p : jsstr) : jsstr := 47%N :: join [47%N] (dot_segments (split_on 47%N (drop 1 p)) []).

#[local] Instance sample_urls : Urls := {|
  new_URL text base :=
    match base with
    | Some origin => Some (mkURL (js "https:") origin (sample_path text) [] [])
    | None =>
        if starts_with (js "https://") text then
          match split_on 47%N (drop 8 text) with
          | host :: path => Some (mkURL (js "https:") (js "https://" ++ host) (sample_path (47%N :: join [47%N] path)) [] [])
          | [] => None
          end
        else None
    end |}.

(** The check for [//] is made before dot segments are removed: this redirect passes it, and
    what is handed to the router is the address of another host. *)
Lemma redirect_names_host :
  sanitizeAuthRedirect (Str (js "/console/usage")) (js "https://app.example") = Some (js "/console/usage") ∧
  sanitizeAuthRedirect (Str (js "//evil.example")) (js "https://app.example") = None ∧
  sanitizeAuthRedirect (Str (js "/..//evil.example")) (js "https://app.example") = Some (js "//evil.example") ∧
  sanitizeAuthRedirect (Str (js "https://app.example//evil.example")) (js "https://app.example") =
    Some (js "//evil.example").
Proof. by vm_compute. Qed.

End OAuthCallback.
