(* ===== verification/AccountBinding.v ===== *)
(** * Binding identity providers to an account
      (web/src/features/profile/components/tabs/account-bindings-tab.tsx and its requests in
      web/src/features/profile/api.ts)

    To bind a provider the tab opens a pop-up, asks the server for a state, stamps the pop-up
    with it and sends it to the provider. The page the provider returns to (OAuthCallback)
    posts the answer to the tab, which completes the binding at the server and posts the
    result back. The tab keeps one pending binding; its requests belong to the login it was
    mounted with (RequestScope).

    [PendingOAuthBinding] objects and windows are numbers, indices of the lists that hold
    their contents. A request under way is a task; what follows its [await] is what happens
    when it is settled. The tab is unmounted when its scope's key changes, because the page
    that shows it has the key for its own. *)
From S2P Require Import Prelude JsString JsMap JsValue AuthSession RequestScope HttpClient OAuthCallback.
Local Open Scope js_scope.

Module Binding.
Import OAuthCallback.

(** ** Data *)

(** [watching]: the watcher of [watchOAuthPopupClosed] is active. *)
Record PendingOAuthBinding := mkPending {
  provider : jsstr; bind_state : jsstr; popup : nat; completing : bool; watching : bool }.

Record Popup := mkPopup { p_closed : bool; sessionStorage : StorageAccess; location : option jsstr }.

Inductive Task :=
| Starting (b : nat) (buildUrl : jsstr → option jsstr) (tk : RequestScope.Ticket)
| Completing (b : nat) (message : value) (custom : bool) (tk : RequestScope.Ticket)
| Refreshing (b : nat) (message resultMessage : value) (tk : RequestScope.Ticket)
| Reading (tk : RequestScope.Ticket)
| Unbinding (target : value) (custom : bool) (tk : RequestScope.Ticket)
| UnbindReading (tk : RequestScope.Ticket)
| Finished.

Inductive Entry :=
| StateRequest (b : nat) (who : RequestScope.SecurityIdentity) (provider : jsstr)
| Stamped (b popup : nat) (provider state : jsstr)
| Navigated (b popup : nat) (url : jsstr)
| Received (b : nat) (origin : jsstr) (source : option nat) (data : value)   (* a callback was accepted *)
| CompleteRequest (b : nat) (who : RequestScope.SecurityIdentity) (provider : jsstr) (params : list (jsstr * value))
| PostResult (b popup : nat) (message : value)
| ReadRequest
| UnbindRequest (id : value)
| ToastSuccess (message : value)
| ToastError (message : value)
| OnUpdate.

Record Tab := mkTab {
  mounted : bool; store : Auth.AuthStore; customProviders : bool;
  flowScope : RequestScope.Scope; callbackScope : RequestScope.Scope;
  unbindScope : RequestScope.Scope; bindingsReadScope : RequestScope.Scope;
  bindings : list PendingOAuthBinding; pendingOAuthBinding : option nat; popups : list Popup;
  customBindings : value; unbindTarget : option value; unbinding : bool;
  tasks : list Task; log : list Entry }.

(** What a request ends with; [isError]: what is thrown is an [Error]. *)
Inductive Outcome := Resolved (v : value) | Rejected (isError : bool) (e : value).

(** ** Requests *)

(** [startOAuthBindFlow] after its [await]; [None]: it throws. *)
Definition bind_flow_state (data : value) : option jsstr :=
  if negb (value_truthy (get data (js "success"))) then None
  else
    match get data (js "data") with
    | Str s => Some s
    | v => match get v (js "flow_token") with Str s => Some s | _ => None end
    end.

(** The parameters of [completeOAuthBindFlow] *)
Definition bind_params (state : jsstr) (message : value) : list (jsstr * value) :=
  let given k v := if value_truthy v then [(js k, v)] else [] in
  (js "state", Str state) :: given "code"%string (get message (js "code")) ++
  given "error"%string (get message (js "error")) ++
  given "error_description"%string (get message (js "errorDescription")).

(** ** Setters *)

Definition record (l : list Entry) (w : Tab) : Tab :=
  mkTab (mounted w) (store w) (customProviders w) (flowScope w) (callbackScope w) (unbindScope w)
    (bindingsReadScope w) (bindings w) (pendingOAuthBinding w) (popups w) (customBindings w) (unbindTarget w)
    (unbinding w) (tasks w) (log w ++ l).
Definition set_store (st : Auth.AuthStore) (w : Tab) : Tab :=
  mkTab (mounted w) st (customProviders w) (flowScope w) (callbackScope w) (unbindScope w)
    (bindingsReadScope w) (bindings w) (pendingOAuthBinding w) (popups w) (customBindings w) (unbindTarget w)
    (unbinding w) (tasks w) (log w).
Definition set_custom (b : bool) (w : Tab) : Tab :=
  mkTab (mounted w) (store w) b (flowScope w) (callbackScope w) (unbindScope w)
    (bindingsReadScope w) (bindings w) (pendingOAuthBinding w) (popups w) (customBindings w) (unbindTarget w)
    (unbinding w) (tasks w) (log w).
Definition set_flowScope (s : RequestScope.Scope) (w : Tab) : Tab :=
  mkTab (mounted w) (store w) (customProviders w) s (callbackScope w) (unbindScope w)
    (bindingsReadScope w) (bindings w) (pendingOAuthBinding w) (popups w) (customBindings w) (unbindTarget w)
    (unbinding w) (tasks w) (log w).
Definition set_callbackScope (s : RequestScope.Scope) (w : Tab) : Tab :=
  mkTab (mounted w) (store w) (customProviders w) (flowScope w) s (unbindScope w)
    (bindingsReadScope w) (bindings w) (pendingOAuthBinding w) (popups w) (customBindings w) (unbindTarget w)
    (unbinding w) (tasks w) (log w).
Definition set_unbindScope (s : RequestScope.Scope) (w : Tab) : Tab :=
  mkTab (mounted w) (store w) (customProviders w) (flowScope w) (callbackScope w) s
    (bindingsReadScope w) (bindings w) (pendingOAuthBinding w) (popups w) (customBindings w) (unbindTarget w)
    (unbinding w) (tasks w) (log w).
Definition set_readScope (s : RequestScope.Scope) (w : Tab) : Tab :=
  mkTab (mounted w) (store w) (customProviders w) (flowScope w) (callbackScope w) (unbindScope w)
    s (bindings w) (pendingOAuthBinding w) (popups w) (customBindings w) (unbindTarget w)
    (unbinding w) (tasks w) (log w).
Definition set_bindings (l : list PendingOAuthBinding) (w : Tab) : Tab :=
  mkTab (mounted w) (store w) (customProviders w) (flowScope w) (callbackScope w) (unbindScope w)
    (bindingsReadScope w) l (pendingOAuthBinding w) (popups w) (customBindings w) (unbindTarget w)
    (unbinding w) (tasks w) (log w).
Definition set_pending (b : option nat) (w : Tab) : Tab :=
  mkTab (mounted w) (store w) (customProviders w) (flowScope w) (callbackScope w) (unbindScope w)
    (bindingsReadScope w) (bindings w) b (popups w) (customBindings w) (unbindTarget w)
    (unbinding w) (tasks w) (log w).
Definition set_popups (l : list Popup) (w : Tab) : Tab :=
  mkTab (mounted w) (store w) (customProviders w) (flowScope w) (callbackScope w) (unbindScope w)
    (bindingsReadScope w) (bindings w) (pendingOAuthBinding w) l (customBindings w) (unbindTarget w)
    (unbinding w) (tasks w) (log w).
Definition setCustomBindings (v : value) (w : Tab) : Tab :=
  mkTab (mounted w) (store w) (customProviders w) (flowScope w) (callbackScope w) (unbindScope w)
    (bindingsReadScope w) (bindings w) (pendingOAuthBinding w) (popups w) v (unbindTarget w)
    (unbinding w) (tasks w) (log w).
Definition set_unbind (target : option value) (busy : bool) (w : Tab) : Tab :=
  mkTab (mounted w) (store w) (customProviders w) (flowScope w) (callbackScope w) (unbindScope w)
    (bindingsReadScope w) (bindings w) (pendingOAuthBinding w) (popups w) (customBindings w) target
    busy (tasks w) (log w).
Definition set_tasks (l : list Task) (w : Tab) : Tab :=
  mkTab (mounted w) (store w) (customProviders w) (flowScope w) (callbackScope w) (unbindScope w)
    (bindingsReadScope w) (bindings w) (pendingOAuthBinding w) (popups w) (customBindings w) (unbindTarget w)
    (unbinding w) l (log w).
Definition set_mounted (b : bool) (w : Tab) : Tab :=
  mkTab b (store w) (customProviders w) (flowScope w) (callbackScope w) (unbindScope w)
    (bindingsReadScope w) (bindings w) (pendingOAuthBinding w) (popups w) (customBindings w) (unbindTarget w)
    (unbinding w) (tasks w) (log w).

Definition spawn (x : Task) (w : Tab) : Tab := set_tasks (tasks w ++ [x]) w.
Definition become (j : nat) (x : Task) (w : Tab) : Tab := set_tasks (<[j := x]> (tasks w)) w.
Definition close_popup (n : nat) (w : Tab) : Tab :=
  set_popups (alter (λ p, mkPopup true (sessionStorage p) (location p)) n (popups w)) w.

Definition who (w : Tab) : RequestScope.SecurityIdentity := RequestScope.getSecurityIdentity (store w).

Definition is_pending (b : nat) (w : Tab) : bool := bool_decide (pendingOAuthBinding w = Some b).

Section Tab.
Context (own_origin : jsstr) (t : jsstr → jsstr) (engine_text : value).

Definition tr (s : string) : value := Str (t (js s)).

(** ** The pending binding *)

Definition stopCloseWatcher (b : nat) (w : Tab) : Tab :=
  set_bindings (alter (λ p, mkPending (provider p) (bind_state p) (popup p) (completing p) false) b (bindings w)) w.

Definition clearPendingOAuthBinding (expected : option nat) (w : Tab) : Tab :=
  match pendingOAuthBinding w with
  | None => w
  | Some b =>
      if match expected with Some e => negb (e =? b)%nat | None => false end then w
      else set_pending None (stopCloseWatcher b w)
  end.

(** The popup of a binding is closed, if it is not already. *)
Definition close_popup_of (b : nat) (w : Tab) : Tab :=
  match bindings w !! b with Some p => close_popup (popup p) w | None => w end.

(** [fetchCustomBindings] up to its [await]: with the ticket of the request that is awaited. *)
Definition fetchCustomBindings (custom : bool) (w : Tab) : Tab * option RequestScope.Ticket :=
  if negb custom then (w, None)
  else
    let '(s, tk) := RequestScope.run (store w) (bindingsReadScope w) in
    match tk with
    | Some tk => (record [ReadRequest] (set_readScope s w), Some tk)
    | None => (set_readScope s w, None)
    end.

(** Its rest. *)
Definition bindings_read (tk : RequestScope.Ticket) (o : Outcome) (w : Tab) : Tab :=
  let current := RequestScope.is_current (store w) tk (bindingsReadScope w) in
  let w := set_readScope (RequestScope.settle tk (bindingsReadScope w)) w in
  match o with
  | Resolved res =>
      if current && value_truthy (get res (js "success")) && value_truthy (get res (js "data"))
      then setCustomBindings (get res (js "data")) w else w
  | Rejected _ _ => w
  end.

(** ** Starting *)

(** [startOAuthBinding] up to its [await]; [opened]: the storage of the window that was opened,
    if the browser did not block it. *)
Definition startOAuthBinding (name : jsstr) (buildUrl : jsstr → option jsstr) (opened : option StorageAccess)
    (w : Tab) : Tab :=
  let w :=
    match pendingOAuthBinding w with
    | Some previous =>
        close_popup_of previous (clearPendingOAuthBinding (Some previous)
          (set_callbackScope (RequestScope.cancel (callbackScope w)) w))
    | None => w
    end in
  match opened with
  | None => record [ToastError (tr "OAuth pop-up was blocked")] w
  | Some access =>
      let n := length (popups w) in
      let b := length (bindings w) in
      let w := set_pending (Some b) (set_bindings (bindings w ++ [mkPending name [] n false true])
        (set_popups (popups w ++ [mkPopup false access None]) w)) in
      let '(s, tk) := RequestScope.run (store w) (flowScope w) in
      match tk with
      | Some tk => spawn (Starting b buildUrl tk) (record [StateRequest b (who w) name] (set_flowScope s w))
      | None => set_flowScope s w
      end
  end.

(** The [catch] of [startOAuthBinding] *)
Definition start_failed (b : nat) (w : Tab) : Tab :=
  let isCurrent := is_pending b w in
  let w := close_popup_of b (clearPendingOAuthBinding (Some b) w) in
  if isCurrent then record [ToastError (tr "Failed to initialize OAuth")] w else w.

Definition set_bind_state (b : nat) (s : jsstr) (w : Tab) : Tab :=
  set_bindings (alter (λ p, mkPending (provider p) s (popup p) (completing p) (watching p)) b (bindings w)) w.

(** The pop-up is stamped and sent to the provider. *)
Definition stamp_and_go (b : nat) (p : PendingOAuthBinding) (x : Popup) (buildUrl : jsstr → option jsstr)
    (state : jsstr) (w : Tab) : Tab :=
  let '(ok, storage) := markOAuthBindPopup (getOAuthSessionStorage (sessionStorage x)) (provider p) state in
  let w :=
    match storage with
    | Some s => set_popups (<[popup p := mkPopup (p_closed x) (HasStorage s) (location x)]> (popups w)) w
    | None => w
    end in
  if negb ok then start_failed b w
  else
    let w := record [Stamped b (popup p) (provider p) state] (set_bind_state b state w) in
    match buildUrl state with
    | None => start_failed b w
    | Some url =>
        record [Navigated b (popup p) url]
          (set_popups (alter (λ x, mkPopup (p_closed x) (sessionStorage x) (Some url)) (popup p) (popups w)) w)
    end.

Definition flow_answered (j b : nat) (buildUrl : jsstr → option jsstr) (tk : RequestScope.Ticket) (o : Outcome)
    (w : Tab) : Tab :=
  let current := RequestScope.is_current (store w) tk (flowScope w) in
  let w := become j Finished (set_flowScope (RequestScope.settle tk (flowScope w)) w) in
  if negb current then w
  else
    match (match o with Resolved data => bind_flow_state data | Rejected _ _ => None end) with
    | None => start_failed b w
    | Some state =>
        match bindings w !! b with
        | None => w
        | Some p =>
            match popups w !! popup p with
            | None => w
            | Some x => if negb (is_pending b w) || p_closed x then w else stamp_and_go b p x buildUrl state w
            end
        end
    end.

(** ** Completing *)

Definition result_message (message : value) (success : bool) (resultMessage : value) : value :=
  Obj [(js "type", Str OAUTH_BIND_RESULT_MESSAGE); (js "provider", get message (js "provider"));
       (js "state", get message (js "state")); (js "success", Bool success); (js "message", resultMessage)].

(** What [handleMessage] does after its [try]. *)
Definition post_result (b : nat) (message : value) (success : bool) (resultMessage : value) (w : Tab) : Tab :=
  if negb (is_pending b w) then w
  else
    match bindings w !! b with
    | None => w
    | Some p =>
        record [PostResult b (popup p) (result_message message success resultMessage)]
          (clearPendingOAuthBinding (Some b) w)
    end.

(** Its [catch]. *)
Definition completion_failed (b : nat) (message : value) (isError : bool) (e : value) (w : Tab) : Tab :=
  if negb (is_pending b w) then w
  else
    let resultMessage :=
      value_or (get (get (get e (js "response")) (js "data")) (js "message"))
        (if isError then get e (js "message") else tr "OAuth failed") in
    post_result b message false resultMessage (record [ToastError resultMessage] w).

Definition set_completing (b : nat) (w : Tab) : Tab :=
  set_bindings (alter (λ p, mkPending (provider p) (bind_state p) (popup p) true (watching p)) b (bindings w)) w.

(** [handleMessage] up to its [await]; [source]: the window the message came from, if it is
    one of the pop-ups. *)
Definition handleMessage (origin : jsstr) (source : option nat) (data : value) (w : Tab) : Tab :=
  if negb (mounted w) then w
  else if negb (streq origin own_origin) then w
  else
    match pendingOAuthBinding w with
    | None => w
    | Some b =>
        match bindings w !! b with
        | None => w
        | Some p =>
            if negb (value_truthy data) || negb (is_str (get data (js "type")) OAUTH_BIND_CALLBACK_MESSAGE) ||
               negb (is_str (get data (js "provider")) (provider p)) ||
               negb (is_str (get data (js "state")) (bind_state p)) ||
               negb (bool_decide (source = Some (popup p))) || completing p then w
            else
              let w := record [Received b origin source data] (set_completing b w) in
              if negb (value_truthy (get data (js "code"))) && negb (value_truthy (get data (js "error")))
              then completion_failed b data true (Obj [(js "message", tr "Missing code")]) w
              else
                let '(s, tk) := RequestScope.run (store w) (callbackScope w) in
                match tk with
                | Some tk =>
                    spawn (Completing b data (customProviders w) tk)
                      (record [CompleteRequest b (who w) (provider p) (bind_params (bind_state p) data)]
                        (set_callbackScope s w))
                | None => set_callbackScope s w
                end
        end
    end.

Definition is_nothing (v : value) : bool := match v with Undef | Null => true | _ => false end.

Definition completion_answered (j b : nat) (message : value) (custom : bool) (tk : RequestScope.Ticket) (o : Outcome)
    (w : Tab) : Tab :=
  let current := RequestScope.is_current (store w) tk (callbackScope w) in
  let w := become j Finished (set_callbackScope (RequestScope.settle tk (callbackScope w)) w) in
  if negb current then w
  else
    match o with
    | Rejected isError e => completion_failed b message isError e w
    | Resolved r =>
        if negb (is_pending b w) then w
        else if is_nothing r then completion_failed b message true (Obj [(js "message", engine_text)]) w
        else
          let resultMessage := value_or (get r (js "message")) (tr "OAuth failed") in
          if value_truthy (get r (js "success")) then
            let w := record [ToastSuccess (tr "Binding successful!"); OnUpdate] w in
            let '(w, reading) := fetchCustomBindings custom w in
            match reading with
            | Some tk' => become j (Refreshing b message resultMessage tk') w
            | None => post_result b message true resultMessage w
            end
          else post_result b message false resultMessage (record [ToastError resultMessage] w)
    end.

(** ** Removing a binding *)

Definition unbind_done (w : Tab) : Tab := set_unbind None false w.

Definition handleUnbindCustom (w : Tab) : Tab :=
  match unbindTarget w with
  | None => w
  | Some target =>
      let w := set_unbind (Some target) true w in
      let '(s, tk) := RequestScope.run (store w) (unbindScope w) in
      match tk with
      | Some tk =>
          spawn (Unbinding target (customProviders w) tk)
            (record [UnbindRequest (get target (js "provider_id"))] (set_unbindScope s w))
      | None => set_unbindScope s w
      end
  end.

Definition unbind_answered (j : nat) (target : value) (custom : bool) (tk : RequestScope.Ticket) (o : Outcome) (w : Tab) : Tab :=
  let current := RequestScope.is_current (store w) tk (unbindScope w) in
  let w := become j Finished (set_unbindScope (RequestScope.settle tk (unbindScope w)) w) in
  if negb current then w
  else
    match o with
    | Rejected _ _ => unbind_done (record [ToastError (tr "Unbind failed")] w)
    | Resolved r =>
        if is_nothing r then unbind_done (record [ToastError (tr "Unbind failed")] w)
        else if value_truthy (get r (js "success")) then
          let w := record [ToastSuccess (tr "Unbound {{provider}}")] w in
          let '(w, reading) := fetchCustomBindings custom w in
          match reading with
          | Some tk' => become j (UnbindReading tk') w
          | None => unbind_done (record [OnUpdate] w)
          end
        else unbind_done (record [ToastError (value_or (get r (js "message")) (tr "Unbind failed"))] w)
    end.

(** ** Events *)

Definition settle (j : nat) (task : Task) (o : Outcome) (w : Tab) : Tab :=
  match task with
  | Starting b buildUrl tk => flow_answered j b buildUrl tk o w
  | Completing b message custom tk => completion_answered j b message custom tk o w
  | Refreshing b message resultMessage tk =>
      post_result b message true resultMessage (bindings_read tk o (become j Finished w))
  | Reading tk => bindings_read tk o (become j Finished w)
  | Unbinding target custom tk => unbind_answered j target custom tk o w
  | UnbindReading tk => unbind_done (record [OnUpdate] (bindings_read tk o (become j Finished w)))
  | Finished => w
  end.

(** A tick of the interval of [watchOAuthPopupClosed] *)
Definition watcher_ticks (b : nat) (w : Tab) : Tab :=
  match bindings w !! b with
  | None => w
  | Some p =>
      match popups w !! popup p with
      | None => w
      | Some x =>
          if negb (watching p) || negb (p_closed x) then w
          else
            let w := stopCloseWatcher b w in
            let w := set_flowScope (RequestScope.cancel (flowScope w)) w in
            let w := set_callbackScope (RequestScope.cancel (callbackScope w)) w in
            clearPendingOAuthBinding (Some b) w
      end
  end.

(** The cleanups of the tab's effect and of the four scopes. *)
Definition unmount (w : Tab) : Tab :=
  let pending := pendingOAuthBinding w in
  let w := clearPendingOAuthBinding pending w in
  let stop s := RequestScope.cancel (RequestScope.cleanup s) in
  let w := set_flowScope (stop (flowScope w)) (set_callbackScope (stop (callbackScope w))
    (set_unbindScope (stop (unbindScope w)) (set_readScope (stop (bindingsReadScope w)) w))) in
  set_mounted false (match pending with Some b => close_popup_of b w | None => w end).

Inductive Event :=
| Start (name : jsstr) (buildUrl : jsstr → option jsstr) (opened : option StorageAccess)
| Message (origin : jsstr) (source : option nat) (data : value)
| Settle (j : nat) (o : Outcome)
| WatcherTick (b : nat)
| PopupCloses (n : nat)                      (* by the user, or by its own page *)
| Providers (custom : bool)                  (* other providers: the bindings are read again *)
| ChooseUnbind (target : value)
| DismissUnbind
| ConfirmUnbind
| StoreChanges (st : Auth.AuthStore)
| Unmount.

Definition step (w : Tab) (e : Event) : Tab :=
  match e with
  | Start name buildUrl opened => if mounted w then startOAuthBinding name buildUrl opened w else w
  | Message origin source data => handleMessage origin source data w
  | Settle j o => match tasks w !! j with Some task => settle j task o w | None => w end
  | WatcherTick b => watcher_ticks b w
  | PopupCloses n => close_popup n w
  | Providers custom =>
      if mounted w then
        let '(w, reading) := fetchCustomBindings custom (set_custom custom w) in
        match reading with Some tk => spawn (Reading tk) w | None => w end
      else w
  | ChooseUnbind target => if mounted w then set_unbind (Some target) (unbinding w) w else w
  | DismissUnbind =>
      if mounted w then set_unbind None false (set_unbindScope (RequestScope.cancel (unbindScope w)) w) else w
  | ConfirmUnbind => if mounted w then handleUnbindCustom w else w
  | StoreChanges st => set_store st w
  | Unmount => if mounted w then unmount w else w
  end.

Definition opened_tab (st : Auth.AuthStore) (custom : bool) : Tab :=
  let s := RequestScope.initial st in
  mkTab true st custom s s s s [] None [] (Arr []) None false [] [].

Definition run (st : Auth.AuthStore) (custom : bool) (es : list Event) : Tab := foldl step (opened_tab st custom) es.

(** ** What the log may say *)

(** The binding an entry is about *)
Definition about (e : Entry) : option nat :=
  match e with
  | StateRequest b _ _ | Stamped b _ _ _ | Navigated b _ _ | Received b _ _ _ | CompleteRequest b _ _ _
  | PostResult b _ _ => Some b
  | _ => None
  end.

(** What must have happened before an entry, where [login] is the login of the tab. *)
Definition entry_ok (login : RequestScope.SecurityIdentity) (l : list Entry) (e : Entry) : Prop :=
  match e with
  | Navigated b n _ => ∃ name s, Stamped b n name s ∈ l
  | CompleteRequest b i name params =>
      i = login ∧ (∀ i' name' params', CompleteRequest b i' name' params' ∉ l) ∧
      ∃ n s data, params = bind_params s data ∧ Received b own_origin (Some n) data ∈ l ∧
        get data (js "state") = Str s ∧ get data (js "provider") = Str name ∧
        (s ≠ [] → Stamped b n name s ∈ l ∧ StateRequest b login name ∈ l)
  | PostResult b n m =>
      (∀ n' m', PostResult b n' m' ∉ l) ∧
      ∃ data success text, m = result_message data success text ∧ Received b own_origin (Some n) data ∈ l
  | _ => True
  end.

Definition log_ok (login : RequestScope.SecurityIdentity) (l : list Entry) : Prop :=
  ∀ k e, l !! k = Some e → entry_ok login (take k l) e.

Definition stamped_by (login : RequestScope.SecurityIdentity) (l : list Entry) (b : nat) (p : PendingOAuthBinding) (s : jsstr) : Prop :=
  s ≠ [] → Stamped b (popup p) (provider p) s ∈ l ∧ StateRequest b login (provider p) ∈ l.

Definition task_ok (login : RequestScope.SecurityIdentity) (l : list Entry) (ps : list PendingOAuthBinding) (x : Task) : Prop :=
  match x with
  | Starting b _ _ => ∃ p, ps !! b = Some p ∧ StateRequest b login (provider p) ∈ l
  | Completing b message _ _ | Refreshing b message _ _ => ∃ p, ps !! b = Some p ∧ Received b own_origin (Some (popup p)) message ∈ l
  | _ => True
  end.

Record inv (login : RequestScope.SecurityIdentity) (w : Tab) : Prop := mkInv {
  inv_pending : ∀ b, pendingOAuthBinding w = Some b → b < length (bindings w);
  inv_login : RequestScope.scope_of (mounted w) login (flowScope w) ∧
              RequestScope.scope_of (mounted w) login (callbackScope w);
  inv_stamps : ∀ b p, bindings w !! b = Some p → stamped_by login (log w) b p (bind_state p);
  inv_once : ∀ b p i name params, bindings w !! b = Some p → CompleteRequest b i name params ∈ log w → completing p = true;
  inv_about : ∀ e b, e ∈ log w → about e = Some b → b < length (bindings w);
  inv_posted : ∀ b n m, PostResult b n m ∈ log w → pendingOAuthBinding w ≠ Some b;
  inv_tasks : ∀ j x, tasks w !! j = Some x → task_ok login (log w) (bindings w) x;
  inv_watch : ∀ b p, bindings w !! b = Some p → watching p = true → pendingOAuthBinding w = Some b;
  inv_ok : log_ok login (log w) }.

(** ** The invariant is kept: parts *)

Lemma log_ok_snoc login l e : log_ok login l → entry_ok login l e → log_ok login (l ++ [e]).
Proof.
  intros Hl He k x Hk. destruct (decide (k < length l)) as [Hlt|Hge].
  - rewrite lookup_app_l in Hk by done. rewrite take_app_le by lia. by apply Hl.
  - rewrite lookup_app_r in Hk by lia. destruct (k - length l) as [|m] eqn:E; [|by destruct m].
    injection Hk as <-. assert (k = length l) as -> by lia. by rewrite take_app_length.
Qed.

Lemma task_ok_mono login l l' ps x : task_ok login l ps x → task_ok login (l ++ l') ps x.
Proof. destruct x; simpl; try done; intros (p & ? & ?); exists p; (split; [done|]); apply elem_of_app; by left. Qed.

Lemma stamped_by_mono login l l' b p s : stamped_by login l b p s → stamped_by login (l ++ l') b p s.
Proof. intros Hs Hne. destruct (Hs Hne). split; apply elem_of_app; by left. Qed.

Lemma binding_inv_record login e w :
  inv login w → entry_ok login (log w) e → (∀ b, about e = Some b → b < length (bindings w)) →
  (∀ b i name params p, e = CompleteRequest b i name params → bindings w !! b = Some p → completing p = true) →
  (∀ b n m, e = PostResult b n m → pendingOAuthBinding w ≠ Some b) →
  inv login (record [e] w).
Proof.
  intros [H1 H2 H3 H4 H5 H6 H7 H8 H9] He Ha Hc Hp. split; try done; simpl.
  - intros b p Hb. by apply stamped_by_mono, H3.
  - intros b p i name params Hb [Hin|Hin]%elem_of_app; [by eapply H4|].
    apply list_elem_of_singleton in Hin. by eapply Hc.
  - intros x b [Hin|Hin]%elem_of_app; [by eapply H5|]. apply list_elem_of_singleton in Hin as ->. apply Ha.
  - intros b n m [Hin|Hin]%elem_of_app; [by eapply H6|]. apply list_elem_of_singleton in Hin. by eapply Hp.
  - intros j x Hj. by eapply task_ok_mono, H7.
  - by apply log_ok_snoc.
Qed.

Definition plain (e : Entry) : Prop := about e = None.

Lemma inv_plain login e w : plain e → inv login w → inv login (record [e] w).
Proof. intros He Hw. apply binding_inv_record; [done|by destruct e|congruence|intros; by subst|intros; by subst]. Qed.

(** Changes of one binding that keep its provider and window. *)
Lemma binding_inv_alter login b f w :
  (∀ p, bindings w !! b = Some p → provider (f p) = provider p ∧ popup (f p) = popup p ∧
     (completing p = true → completing (f p) = true) ∧ (watching (f p) = true → watching p = true) ∧
     stamped_by login (log w) b p (bind_state (f p))) →
  inv login w → inv login (set_bindings (alter f b (bindings w)) w).
Proof.
  intros Hf [H1 H2 H3 H4 H5 H6 H7 H8 H9].
  assert (∀ c q, alter f b (bindings w) !! c = Some q → ∃ p, bindings w !! c = Some p ∧
    provider q = provider p ∧ popup q = popup p ∧ (completing p = true → completing q = true) ∧
    (watching q = true → watching p = true) ∧ stamped_by login (log w) c p (bind_state q)) as Hq.
  { intros c q. rewrite list_lookup_alter. case_decide as E.
    - subst c. destruct (bindings w !! b) as [p|] eqn:Ep; [|done]. intros [= <-]. exists p. split; [done|]. by apply Hf.
    - intros Hq. exists q. split_and!; try done. by apply H3. }
  split; try done; simpl.
  - intros c Hc. rewrite length_alter. by apply H1.
  - intros c q Hc. destruct (Hq c q Hc) as (p & Hp & E1 & E2 & _ & _ & Hs). unfold stamped_by. by rewrite E1, E2.
  - intros c q i name params Hc Hin. destruct (Hq c q Hc) as (p & Hp & _ & _ & Hcp & _). by eapply Hcp, H4.
  - intros e c He Hab. rewrite length_alter. by eapply H5.
  - intros j x Hj. specialize (H7 j x Hj).
    assert (∀ c p (P : PendingOAuthBinding → Prop), bindings w !! c = Some p → P p →
      (∀ q, provider q = provider p → popup q = popup p → P q) →
      ∃ q, alter f b (bindings w) !! c = Some q ∧ P q) as Hex.
    { intros c p P Hp HP Ht. destruct (alter f b (bindings w) !! c) as [q|] eqn:E.
      - exists q. split; [done|]. destruct (Hq c q E) as (p' & Hp' & ? & ? & _). simplify_eq. by apply Ht.
      - apply lookup_ge_None in E. rewrite length_alter in E. apply lookup_lt_Some in Hp. lia. }
    destruct x; simpl in *; try done; destruct H7 as (p & Hp & Hin).
    + refine (Hex _ p (λ p, StateRequest b0 login (provider p) ∈ log w) Hp Hin _). by intros q -> _.
    + refine (Hex _ p (λ p, Received b0 own_origin (Some (popup p)) message ∈ log w) Hp Hin _). by intros q _ ->.
    + refine (Hex _ p (λ p, Received b0 own_origin (Some (popup p)) message ∈ log w) Hp Hin _). by intros q _ ->.
  - intros c q Hc Hw. destruct (Hq c q Hc) as (p & Hp & _ & _ & _ & Hwp & _). by eapply H8, Hwp.
Qed.

Lemma inv_stop login b w : inv login w → inv login (stopCloseWatcher b w).
Proof. intros Hw. apply binding_inv_alter; [|done]. intros p Hp. split_and!; try done. exact (inv_stamps login w Hw b p Hp). Qed.

Lemma inv_clear login expected w : inv login w → inv login (clearPendingOAuthBinding expected w).
Proof.
  intros Hw. unfold clearPendingOAuthBinding. destruct (pendingOAuthBinding w) as [b|] eqn:Eb; [|done].
  destruct (match expected with Some e => _ | None => _ end); [done|].
  pose proof (inv_watch login w Hw) as Hwatch. apply (inv_stop login b) in Hw. destruct Hw as [H1 H2 H3 H4 H5 H6 H7 H8 H9].
  split; try done. intros c q Hc Hq. simpl in Hc. rewrite list_lookup_alter in Hc. exfalso.
  case_decide as E; [|specialize (Hwatch c q Hc Hq); congruence].
  apply fmap_Some in Hc as (p & _ & ->). done.
Qed.

Lemma clear_pending b w : pendingOAuthBinding (clearPendingOAuthBinding (Some b) w) ≠ Some b.
Proof.
  unfold clearPendingOAuthBinding. destruct (pendingOAuthBinding w) as [c|] eqn:E; [|congruence].
  destruct (Nat.eqb_spec b c); simpl; congruence.
Qed.

Lemma inv_close_popup_of login b w : inv login w → inv login (close_popup_of b w).
Proof. intros Hw. unfold close_popup_of. destruct (bindings w !! b); [|done]. destruct Hw; by split. Qed.

Lemma inv_flowScope login s w :
  (RequestScope.scope_of (mounted w) login (flowScope w) → RequestScope.scope_of (mounted w) login s) →
  inv login w → inv login (set_flowScope s w).
Proof. intros Hs [? [? ?] ]. split; try done. split; [by apply Hs|done]. Qed.

Lemma inv_callbackScope login s w :
  (RequestScope.scope_of (mounted w) login (callbackScope w) → RequestScope.scope_of (mounted w) login s) →
  inv login w → inv login (set_callbackScope s w).
Proof. intros Hs [? [? ?] ]. split; try done. split; [done|by apply Hs]. Qed.

Lemma binding_inv_become login j x w : task_ok login (log w) (bindings w) x → inv login w → inv login (become j x w).
Proof.
  intros Hx [H1 H2 H3 H4 H5 H6 H7 H8 H9]. split; try done. simpl. intros i y Hi.
  destruct (decide (i = j)) as [->|]; [|rewrite list_lookup_insert_ne in Hi by done; by eapply H7].
  apply list_lookup_insert_Some in Hi as [(_ & <- & _)|(? & _)]; [done|done].
Qed.

Lemma binding_inv_spawn login x w : task_ok login (log w) (bindings w) x → inv login w → inv login (spawn x w).
Proof.
  intros Hx [H1 H2 H3 H4 H5 H6 H7 H8 H9]. split; try done. simpl. intros i y Hi.
  apply lookup_app_Some in Hi as [Hi|[_ Hi] ]; [by eapply H7|]. destruct (i - length (tasks w)) as [|k]; [|by destruct k].
  by injection Hi as <-.
Qed.

Lemma inv_same login w w' :
  mounted w' = mounted w → flowScope w' = flowScope w → callbackScope w' = callbackScope w → bindings w' = bindings w →
  pendingOAuthBinding w' = pendingOAuthBinding w → tasks w' = tasks w → log w' = log w →
  inv login w → inv login w'.
Proof. intros E0 E1 E2 E3 E4 E5 E6 [H1 H2 H3 H4 H5 H6 H7 H8 H9]. split; rewrite ?E0, ?E1, ?E2, ?E3, ?E4, ?E5, ?E6; done. Qed.

(** ** The invariant is kept: operations *)

Lemma inv_fetch login custom w : inv login w → inv login (fst (fetchCustomBindings custom w)).
Proof.
  intros Hw. unfold fetchCustomBindings. destruct custom; [|done]. simpl.
  destruct (RequestScope.run _ _) as [s [tk|] ]; [apply inv_plain; [done|]|]; by eapply inv_same, Hw.
Qed.

Lemma fetch_same custom w : let w' := fst (fetchCustomBindings custom w) in
  bindings w' = bindings w ∧ pendingOAuthBinding w' = pendingOAuthBinding w ∧
  (log w' = log w ∨ log w' = log w ++ [ReadRequest]).
Proof.
  unfold fetchCustomBindings. destruct custom; simpl; [|by auto]. destruct (RequestScope.run _ _) as [s [tk|] ]; simpl; auto.
Qed.

Lemma inv_bindings_read login tk o w : inv login w → inv login (bindings_read tk o w).
Proof. intros Hw. unfold bindings_read. destruct o; [destruct (_ && _)|]; by eapply inv_same, Hw. Qed.

Lemma inv_start_failed login b w : inv login w → inv login (start_failed b w).
Proof.
  intros Hw. unfold start_failed. pose proof (inv_close_popup_of login b _ (inv_clear login (Some b) w Hw)) as Hc.
  destruct (is_pending b w); [|done]. by apply inv_plain.
Qed.

(** A new binding, when none is pending. *)
Lemma inv_new login p w : bind_state p = [] → pendingOAuthBinding w = None → inv login w →
  inv login (set_pending (Some (length (bindings w))) (set_bindings (bindings w ++ [p]) w)).
Proof.
  intros Hs Hn [H1 H2 H3 H4 H5 H6 H7 H8 H9].
  assert (∀ b q, (bindings w ++ [p]) !! b = Some q → bindings w !! b = Some q ∨ b = length (bindings w) ∧ q = p) as Hq.
  { intros b q [Hb|[Hge Hb] ]%lookup_app_Some; [by left|]. right.
    destruct (b - length (bindings w)) as [|k] eqn:E; [|by destruct k]. injection Hb as <-. split; [lia|done]. }
  split; try done; simpl.
  - intros b [= <-]. rewrite length_app. simpl. lia.
  - intros b q [Hb|[-> ->] ]%Hq; [by apply H3|]. unfold stamped_by. by rewrite Hs.
  - intros b q i name params [Hb|[-> ->] ]%Hq Hin; [by eapply H4|]. specialize (H5 _ _ Hin eq_refl). lia.
  - intros e b He Hb. rewrite length_app. specialize (H5 e b He Hb). lia.
  - intros b n m Hin [= Hb]. specialize (H5 _ _ Hin eq_refl). lia.
  - intros j x Hj. specialize (H7 j x Hj). destruct x; simpl in *; try done; destruct H7 as (q & ? & ?); exists q;
      (split; [by apply lookup_app_l_Some|done]).
  - intros b q [Hb|[-> _] ]%Hq Hwt; [|done]. specialize (H8 b q Hb Hwt). congruence.
Qed.

Lemma inv_start login name buildUrl opened w : inv login w → inv login (startOAuthBinding name buildUrl opened w).
Proof.
  intros Hw. unfold startOAuthBinding.
  set (w1 := match pendingOAuthBinding w with Some _ => _ | None => _ end).
  assert (inv login w1 ∧ pendingOAuthBinding w1 = None) as [H1 Hn].
  { unfold w1. destruct (pendingOAuthBinding w) as [b|] eqn:E; [|done]. split.
    - apply inv_close_popup_of, inv_clear, inv_callbackScope; auto with js.
    - unfold close_popup_of, clearPendingOAuthBinding. simpl. rewrite E, Nat.eqb_refl. simpl. by case_match. }
  clearbody w1. destruct opened as [access|]; [|by apply inv_plain].
  set (w2 := set_pending _ _).
  assert (inv login w2) as H2.
  { unfold w2. eapply inv_same; [..|exact (inv_new login (mkPending name [] (length (popups w1)) false true) w1 eq_refl Hn H1)]; done. }
  destruct (RequestScope.run (store w2) (flowScope w2)) as [s tk] eqn:Er.
  assert (inv login (set_flowScope s w2)) as H3.
  { apply inv_flowScope; [|done]. intros Hi%(RequestScope.scope_of_run _ _ (store w2)). by rewrite Er in Hi. }
  destruct tk as [tk|]; [|done].
  assert (who w2 = login) as Hlogin.
  { destruct (inv_login login w2 H2) as [ [<- _] _]. eapply RequestScope.run_login. by rewrite Er. }
  rewrite Hlogin. apply binding_inv_spawn.
  - exists (mkPending name [] (length (popups w1)) false true). simpl. split; [|apply elem_of_app; right; by left].
    by rewrite lookup_app_r, Nat.sub_diag by lia.
  - apply binding_inv_record; [done|done| |done|done]. intros b [= <-]. simpl. rewrite length_app. simpl. lia.
Qed.

Lemma inv_stamp login b p x buildUrl state w : bindings w !! b = Some p → StateRequest b login (provider p) ∈ log w →
  inv login w → inv login (stamp_and_go b p x buildUrl state w).
Proof.
  intros Hp Hreq Hw. unfold stamp_and_go. destruct (markOAuthBindPopup _ _ _) as [ok storage].
  set (w1 := match storage with Some _ => _ | None => _ end).
  assert (inv login w1 ∧ bindings w1 = bindings w ∧ log w1 = log w) as (H1 & Eb & El).
  { unfold w1. destruct storage; [|done]. split; [|done]. by eapply inv_same, Hw. }
  clearbody w1. destruct ok; simpl; [|by apply inv_start_failed].
  assert (b < length (bindings w1)) as Hlt by (rewrite Eb; by eapply lookup_lt_Some).
  set (w2 := record [Stamped b (popup p) (provider p) state] w1).
  assert (inv login w2) as H2 by (apply binding_inv_record; [done|done| |done|done]; intros c [= <-]; done).
  set (w3 := record _ _). assert (inv login w3) as H3.
  { change w3 with (set_bind_state b state w2). apply binding_inv_alter; [|done]. intros q Hq.
    assert (q = p) as -> by (change (bindings w1 !! b = Some q) in Hq; congruence). split_and!; try done.
    intros _. simpl. rewrite El. split; apply elem_of_app; [right; by left|by left]. }
  destruct (buildUrl state) as [url|]; [|by apply inv_start_failed].
  apply binding_inv_record; [by eapply inv_same, H3| | |done|done].
  - exists (provider p), state. simpl. apply elem_of_app. right. by left.
  - intros c [= <-]. simpl. by rewrite length_alter.
Qed.

Lemma inv_flow login j b buildUrl tk o w : tasks w !! j = Some (Starting b buildUrl tk) → inv login w →
  inv login (flow_answered j b buildUrl tk o w).
Proof.
  intros Hj Hw. unfold flow_answered. set (w1 := become j Finished _).
  assert (inv login w1) as H1 by (apply binding_inv_become; [done|]; apply inv_flowScope; auto with js).
  destruct (inv_tasks login w Hw j _ Hj) as (p & Hp & Hreq).
  destruct (RequestScope.is_current _ _ _); [|done]. simpl.
  destruct (match o with Resolved _ => _ | Rejected _ _ => _ end) as [state|]; [|by apply inv_start_failed].
  rewrite Hp. destruct (popups w !! popup p) as [x|]; [|done]. destruct (_ || _); [done|]. by apply inv_stamp.
Qed.

Lemma inv_post_result login b message success text w :
  (∀ p, bindings w !! b = Some p → Received b own_origin (Some (popup p)) message ∈ log w) →
  inv login w → inv login (post_result b message success text w).
Proof.
  intros Hr Hw. unfold post_result. destruct (is_pending b w) eqn:E; [|done]. simpl.
  apply bool_decide_eq_true in E. destruct (bindings w !! b) as [p|] eqn:Ep; [|done].
  assert (log (clearPendingOAuthBinding (Some b) w) = log w) as El.
  { unfold clearPendingOAuthBinding. rewrite E, Nat.eqb_refl. done. }
  apply binding_inv_record; [by apply inv_clear| | |done|].
  - rewrite El. split; [|exists message, success, text; split; [done|by apply Hr] ].
    intros n m Hin. by apply (inv_posted login w Hw b n m Hin).
  - intros c [= <-]. pose proof (inv_pending login w Hw b E) as Hlt. unfold clearPendingOAuthBinding.
    rewrite E, Nat.eqb_refl. simpl. by rewrite length_alter.
  - intros c n m [= <- _ _]. apply clear_pending.
Qed.

Lemma inv_completion_failed login b message isError e w :
  (∀ p, bindings w !! b = Some p → Received b own_origin (Some (popup p)) message ∈ log w) →
  inv login w → inv login (completion_failed b message isError e w).
Proof.
  intros Hr Hw. unfold completion_failed. destruct (negb _); [done|]. apply inv_post_result; [|by apply inv_plain].
  intros p Hp. apply elem_of_app. left. by apply Hr.
Qed.

Lemma is_str_true v s : is_str v s = true → v = Str s.
Proof. destruct v; try done. intros H. by apply bool_decide_eq_true in H as ->. Qed.

Lemma binding_inv_handle login origin source data w : inv login w → inv login (handleMessage origin source data w).
Proof.
  intros Hw. unfold handleMessage. destruct (negb (mounted w)); [done|]. destruct (streq origin own_origin) eqn:Eo; [|done].
  apply bool_decide_eq_true in Eo as ->. cbn [negb].
  destruct (pendingOAuthBinding w) as [b|] eqn:Eb; [|done]. destruct (bindings w !! b) as [p|] eqn:Ep; [|done].
  destruct (_ || _) eqn:E; [done|]. apply orb_false_iff in E as [ [ [ [_ Epr]%orb_false_iff Est]%orb_false_iff Esrc]%orb_false_iff Hc].
  apply negb_false_iff, bool_decide_eq_true in Esrc as ->. apply negb_false_iff, is_str_true in Epr, Est.
  assert (b < length (bindings w)) as Hlt by (by eapply lookup_lt_Some).
  set (w1 := record [Received b own_origin (Some (popup p)) data] w).
  assert (inv login w1) as H1 by (apply binding_inv_record; [done|done| |done|done]; intros c [= <-]; done).
  set (w2 := record _ _). assert (inv login w2) as H2.
  { change w2 with (set_completing b w1). apply binding_inv_alter; [|done]. intros q Hq. split_and!; try done.
    exact (inv_stamps login w1 H1 b q Hq). }
  assert (Received b own_origin (Some (popup p)) data ∈ log w2) as Hrec by (apply elem_of_app; right; by left).
  assert (∀ q, bindings w2 !! b = Some q → q = mkPending (provider p) (bind_state p) (popup p) true (watching p)) as Hq.
  { intros q. simpl. rewrite list_lookup_alter_eq, Ep. by intros [= <-]. }
  destruct (_ && _); [apply inv_completion_failed; [|done]; by intros q ->%Hq|].
  destruct (RequestScope.run (store w2) (callbackScope w2)) as [s tk] eqn:Er.
  assert (inv login (set_callbackScope s w2)) as H3.
  { apply inv_callbackScope; [|done]. intros Hi%(RequestScope.scope_of_run _ _ (store w2)). by rewrite Er in Hi. }
  destruct tk as [tk|]; [|done].
  assert (who w2 = login) as Hlogin.
  { destruct (inv_login login w2 H2) as [_ [<- _] ]. eapply RequestScope.run_login. by rewrite Er. }
  rewrite Hlogin. apply binding_inv_spawn.
  { exists (mkPending (provider p) (bind_state p) (popup p) true (watching p)). simpl.
    rewrite list_lookup_alter_eq, Ep. split; [done|]. apply elem_of_app. left. exact Hrec. }
  apply binding_inv_record; [done| | | |done].
  - split; [done|]. split.
    + intros i name params [Hin|Hin]%elem_of_app; [|by apply list_elem_of_singleton in Hin].
      pose proof (inv_once login w Hw b p i name params Ep Hin). congruence.
    + exists (popup p), (bind_state p), data. split; [done|]. split; [exact Hrec|]. split; [exact Est|]. split; [exact Epr|].
      apply (stamped_by_mono login (log w) [Received b own_origin (Some (popup p)) data] b p). by apply (inv_stamps login w Hw).
  - intros c [= <-]. simpl. by rewrite length_alter.
  - intros c i name params q [= <- _ _ _] Hb. by rewrite (Hq q Hb).
Qed.

Lemma inv_completion login j b message custom tk o w : tasks w !! j = Some (Completing b message custom tk) →
  inv login w → inv login (completion_answered j b message custom tk o w).
Proof.
  intros Hj Hw. unfold completion_answered. set (w1 := become j Finished _).
  assert (inv login w1) as H1 by (apply binding_inv_become; [done|]; apply inv_callbackScope; auto with js).
  destruct (inv_tasks login w Hw j _ Hj) as (p & Hp & Hrec).
  assert (∀ l q, bindings w !! b = Some q → Received b own_origin (Some (popup q)) message ∈ log w ++ l) as Hr.
  { intros l q Hq. apply elem_of_app. left. congruence. }
  assert (∀ q, bindings w !! b = Some q → Received b own_origin (Some (popup q)) message ∈ log w) as Hr0 by (intros; congruence).
  destruct (RequestScope.is_current _ _ _); [|done]. simpl. destruct o as [r|isError e]; [|by apply inv_completion_failed].
  destruct (negb _); [done|]. destruct (is_nothing r); [by apply inv_completion_failed|].
  destruct (value_truthy _); [|apply inv_post_result; [apply Hr|by apply inv_plain] ].
  set (w2 := record _ w1). assert (inv login w2) as H2.
  { eapply inv_same; [..|exact (inv_plain login OnUpdate _ eq_refl (inv_plain login (ToastSuccess (tr "Binding successful!")) w1 eq_refl H1))];
      try done. simpl. by rewrite <- app_assoc. }
  pose proof (inv_fetch login custom w2 H2) as H3. pose proof (fetch_same custom w2) as (Eb & _ & El).
  destruct (fetchCustomBindings custom w2) as [w3 reading]. cbn [fst] in *.
  assert (∀ q, bindings w3 !! b = Some q → Received b own_origin (Some (popup q)) message ∈ log w3) as Hr3.
  { intros q Hq. rewrite Eb in Hq. destruct El as [-> | ->]; simpl; rewrite <- ?app_assoc; by apply Hr. }
  destruct reading as [tk'|]; [|by apply inv_post_result]. apply binding_inv_become; [|done].
  exists p. rewrite Eb. split; [done|]. apply Hr3. by rewrite Eb.
Qed.

Lemma inv_unbind login j target custom tk o w : inv login w → inv login (unbind_answered j target custom tk o w).
Proof.
  intros Hw. unfold unbind_answered. set (w1 := become j Finished _).
  assert (inv login w1) as H1 by (apply binding_inv_become; [done|]; by eapply inv_same, Hw).
  assert (∀ e, plain e → inv login (unbind_done (record [e] w1))) as Hd.
  { intros e He. by eapply inv_same, (inv_plain login e w1). }
  destruct (RequestScope.is_current _ _ _); [|done]. simpl. destruct o as [r|]; [|by apply Hd].
  destruct (is_nothing r); [by apply Hd|]. destruct (value_truthy _); [|by apply Hd].
  set (w2 := record _ w1). assert (inv login w2) as H2 by (by apply inv_plain).
  pose proof (inv_fetch login custom w2 H2) as H3. destruct (fetchCustomBindings custom w2) as [w3 reading]. cbn [fst] in H3.
  destruct reading; [by apply binding_inv_become|]. by eapply inv_same, (inv_plain login OnUpdate w3).
Qed.

Lemma inv_settle login j task o w : tasks w !! j = Some task → inv login w → inv login (settle j task o w).
Proof.
  intros Hj Hw. assert (inv login (become j Finished w)) as Hb by (by apply binding_inv_become).
  destruct task as [b u tk|b m c tk|b m r tk|tk|v c tk|tk|]; simpl.
  - by apply inv_flow.
  - by apply inv_completion.
  - destruct (inv_tasks login w Hw j _ Hj) as (p & Hp & Hrec). apply inv_post_result; [|by apply inv_bindings_read].
    assert (bindings (bindings_read tk o (become j Finished w)) = bindings w ∧
            log (bindings_read tk o (become j Finished w)) = log w) as [-> ->]
      by (unfold bindings_read; destruct o; [destruct (_ && _)|]; done). intros q Hq. congruence.
  - by apply inv_bindings_read.
  - by apply inv_unbind.
  - eapply inv_same; [..|exact (inv_plain login OnUpdate _ eq_refl (inv_bindings_read login tk o _ Hb))]; done.
  - done.
Qed.

Lemma inv_tick login b w : inv login w → inv login (watcher_ticks b w).
Proof.
  intros Hw. unfold watcher_ticks. destruct (bindings w !! b) as [p|]; [|done].
  destruct (popups w !! popup p) as [x|]; [|done]. destruct (_ || _); [done|].
  apply inv_clear, inv_callbackScope; [auto with js|]. apply inv_flowScope; [auto with js|]. by apply inv_stop.
Qed.

Lemma inv_unmount login w : inv login w → inv login (unmount w).
Proof.
  intros Hw. unfold unmount. pose proof (inv_clear login (pendingOAuthBinding w) w Hw) as H1.
  set (w1 := clearPendingOAuthBinding _ w) in *. set (w2 := set_flowScope _ _).
  assert (inv login (set_mounted false w2)) as H2.
  { destruct H1 as [P1 [P2 P2'] P3 P4 P5 P6 P7 P8 P9]. split; try done.
    split; apply RequestScope.scope_of_cancel; eapply RequestScope.scope_of_cleanup; [exact P2|exact P2']. }
  destruct (pendingOAuthBinding w) as [b|]; [|done].
  eapply inv_same, (inv_close_popup_of login b _ H2); unfold close_popup_of; simpl; destruct (bindings w1 !! b); done.
Qed.

Lemma binding_inv_step login w e : inv login w → inv login (step w e).
Proof.
  intros Hw. destruct e as [name u opened|origin source data|j o|b|n|custom|target| | |st|]; simpl.
  - destruct (mounted w); [by apply inv_start|done].
  - by apply binding_inv_handle.
  - destruct (tasks w !! j) as [task|] eqn:E; [|done]. by apply inv_settle.
  - by apply inv_tick.
  - by eapply inv_same, Hw.
  - destruct (mounted w); [|done]. pose proof (inv_fetch login custom (set_custom custom w)) as Hf.
    destruct (fetchCustomBindings _ _) as [w1 reading]. cbn [fst] in Hf.
    assert (inv login w1) by (apply Hf; by eapply inv_same, Hw). destruct reading; [by apply binding_inv_spawn|done].
  - destruct (mounted w); [by eapply inv_same, Hw|done].
  - destruct (mounted w); [by eapply inv_same, Hw|done].
  - destruct (mounted w); [|done]. unfold handleUnbindCustom. destruct (unbindTarget w); [|done].
    destruct (RequestScope.run _ _) as [s [tk|] ]; [apply binding_inv_spawn; [done|]; apply inv_plain; [done|]|]; by eapply inv_same, Hw.
  - by eapply inv_same, Hw.
  - destruct (mounted w); [by apply inv_unmount|done].
Qed.

Lemma binding_inv_run st custom es : inv (RequestScope.getSecurityIdentity st) (run st custom es).
Proof.
  unfold run. assert (inv (RequestScope.getSecurityIdentity st) (opened_tab st custom)) as H0.
  { split; try done; try (intros; match goal with H : _ ∈ _ |- _ => by apply elem_of_nil in H end).
    assert (RequestScope.scope_of true (RequestScope.getSecurityIdentity st) (RequestScope.initial st)); [|done].
    split_and!; [done|apply RequestScope.scope_wf_initial|done]. }
  revert H0. generalize (opened_tab st custom). induction es as [|e es IH]; intros w Hw; [done|]. by apply IH, binding_inv_step.
Qed.

(** *** Where the state of a stamp comes from *)

Definition is_stamp (e : Entry) : bool := match e with Stamped _ _ _ _ => true | _ => false end.

Definition stamps (w : Tab) : list Entry := List.filter is_stamp (log w).

Lemma stamps_record l w : List.filter is_stamp l = [] → stamps (record l w) = stamps w.
Proof. intros Hl. unfold stamps. simpl. by rewrite List.filter_app, Hl, app_nil_r. Qed.

Lemma stamps_clear expected w : stamps (clearPendingOAuthBinding expected w) = stamps w.
Proof. unfold clearPendingOAuthBinding. by repeat case_match. Qed.

Lemma stamps_close b w : stamps (close_popup_of b w) = stamps w.
Proof. unfold close_popup_of. by case_match. Qed.

Lemma stamps_fetch custom w : stamps (fst (fetchCustomBindings custom w)) = stamps w.
Proof. unfold fetchCustomBindings. destruct custom; [|done]. simpl. destruct (RequestScope.run _ _) as [s [tk|] ]; [|done].
  change (stamps (record [ReadRequest] (set_readScope s w)) = stamps (set_readScope s w)). by apply stamps_record.
Qed.

Lemma stamps_read tk o w : stamps (bindings_read tk o w) = stamps w.
Proof. unfold bindings_read. destruct o; [destruct (_ && _)|]; done. Qed.

Lemma stamps_start_failed b w : stamps (start_failed b w) = stamps w.
Proof. unfold start_failed. case_match; rewrite ?stamps_record, ?stamps_close, ?stamps_clear; done. Qed.

Lemma stamps_post b message success text w : stamps (post_result b message success text w) = stamps w.
Proof. unfold post_result. repeat case_match; try done. rewrite stamps_record by done. apply stamps_clear. Qed.

Lemma stamps_completion_failed b message isError e w : stamps (completion_failed b message isError e w) = stamps w.
Proof. unfold completion_failed. case_match; [done|]. rewrite stamps_post. by apply stamps_record. Qed.

Lemma stamps_start name buildUrl opened w : stamps (startOAuthBinding name buildUrl opened w) = stamps w.
Proof.
  unfold startOAuthBinding. set (w1 := match pendingOAuthBinding w with Some _ => _ | None => _ end).
  assert (stamps w1 = stamps w) as H1 by (unfold w1; case_match; [by rewrite stamps_close, stamps_clear|done]). clearbody w1.
  destruct opened as [access|]; [|by rewrite stamps_record]. destruct (RequestScope.run _ _) as [s [tk|] ]; [|exact H1].
  etrans; [apply stamps_record|exact H1]. done.
Qed.

Lemma stamps_handle origin source data w : stamps (handleMessage origin source data w) = stamps w.
Proof.
  unfold handleMessage. destruct (negb _); [done|]. destruct (negb _); [done|].
  destruct (pendingOAuthBinding w) as [b|]; [|done]. destruct (bindings w !! b) as [p|]; [|done]. destruct (_ || _); [done|].
  assert (stamps (record [Received b origin source data] (set_completing b w)) = stamps w) as H1 by (by rewrite stamps_record).
  destruct (_ && _); [by rewrite stamps_completion_failed|].
  destruct (RequestScope.run _ _) as [s [tk|] ]; [|exact H1]. etrans; [apply stamps_record; done|exact H1].
Qed.

Lemma stamps_completion j b message custom tk o w : stamps (completion_answered j b message custom tk o w) = stamps w.
Proof.
  unfold completion_answered. set (w1 := become j Finished _). assert (stamps w1 = stamps w) as H1 by done. clearbody w1.
  destruct (negb _); [done|]. destruct o as [r|isError e]; [|by rewrite stamps_completion_failed].
  destruct (negb _); [done|]. destruct (is_nothing r); [by rewrite stamps_completion_failed|].
  destruct (value_truthy _); [|by rewrite stamps_post, stamps_record]. set (w2 := record _ w1).
  pose proof (stamps_fetch custom w2) as Hf. assert (stamps w2 = stamps w) as H2 by (unfold w2; by rewrite stamps_record).
  destruct (fetchCustomBindings custom w2) as [w3 [tk'|] ]; cbn [fst] in Hf; [|rewrite stamps_post]; by rewrite <- H2, <- Hf.
Qed.

Lemma stamps_unbind j target custom tk o w : stamps (unbind_answered j target custom tk o w) = stamps w.
Proof.
  unfold unbind_answered. set (w1 := become j Finished _). assert (stamps w1 = stamps w) as H1 by done. clearbody w1.
  assert (∀ e w2, is_stamp e = false → stamps (unbind_done (record [e] w2)) = stamps w2) as Hd.
  { intros e w2 He. change (stamps (record [e] w2) = stamps w2). apply stamps_record. simpl. by rewrite He. }
  destruct (negb _); [done|]. destruct o as [r|]; [|by rewrite Hd]. destruct (is_nothing r); [by rewrite Hd|].
  destruct (value_truthy _); [|by rewrite Hd]. set (w2 := record _ w1).
  pose proof (stamps_fetch custom w2) as Hf. assert (stamps w2 = stamps w) as H2 by (unfold w2; by rewrite stamps_record).
  destruct (fetchCustomBindings custom w2) as [w3 [tk'|] ]; cbn [fst] in Hf; [|rewrite Hd by done]; by rewrite <- H2, <- Hf.
Qed.

(** A stamp carries the state of the answer to the request of its binding. *)
Lemma stamps_flow j b buildUrl tk o w x : x ∈ stamps (flow_answered j b buildUrl tk o w) →
  x ∈ stamps w ∨ ∃ n name s data, x = Stamped b n name s ∧ o = Resolved data ∧ bind_flow_state data = Some s.
Proof.
  unfold flow_answered. set (w1 := become j Finished _). assert (stamps w1 = stamps w) as H1 by done. clearbody w1. rewrite <- H1. clear H1.
  destruct (negb _); [by left|]. destruct (match o with Resolved _ => _ | Rejected _ _ => _ end) as [state|] eqn:Eo;
    [|rewrite stamps_start_failed; by left].
  assert (∃ data, o = Resolved data ∧ bind_flow_state data = Some state) as (data & -> & Hs) by (destruct o; [by eexists|done]).
  destruct (bindings w1 !! b) as [p|]; [|by left]. destruct (popups w1 !! popup p) as [y|]; [|by left]. destruct (_ || _); [by left|].
  unfold stamp_and_go. destruct (markOAuthBindPopup _ _ _) as [ok storage].
  set (w2 := match storage with Some _ => _ | None => _ end). assert (stamps w2 = stamps w1) as H2 by (unfold w2; by case_match).
  clearbody w2. destruct (negb ok); [rewrite stamps_start_failed, H2; by left|].
  set (w3 := record [Stamped b (popup p) (provider p) state] (set_bind_state b state w2)).
  assert (x ∈ stamps w3 → x ∈ stamps w1 ∨ ∃ n name s data', x = Stamped b n name s ∧ Resolved data = Resolved data' ∧ bind_flow_state data' = Some s) as H3.
  { unfold w3, stamps. simpl. rewrite List.filter_app, elem_of_app. fold (stamps w2). rewrite H2.
    intros [Hx|Hx]; [by left|right]. simpl in Hx. apply list_elem_of_singleton in Hx as ->. by do 4 eexists. }
  clearbody w3. destruct (buildUrl state) as [url|]; [|by rewrite stamps_start_failed]. by rewrite stamps_record.
Qed.

Lemma stamps_step w e x : x ∈ stamps (step w e) → x ∈ stamps w ∨
  ∃ j b buildUrl tk n name s data, e = Settle j (Resolved data) ∧ tasks w !! j = Some (Starting b buildUrl tk) ∧
    bind_flow_state data = Some s ∧ x = Stamped b n name s.
Proof.
  destruct e as [name u opened|origin source data|j o|b|n|custom|target| | |st|]; simpl.
  - case_match; rewrite ?stamps_start; by left.
  - rewrite stamps_handle. by left.
  - destruct (tasks w !! j) as [task|] eqn:E; [|by left]. destruct task as [b u tk|b m c tk|b m r tk|tk|v c tk|tk|]; simpl.
    + intros [Hx|(n & name & s & data & -> & -> & Hs)]%stamps_flow; [by left|right]. by do 8 eexists.
    + rewrite stamps_completion. by left.
    + rewrite stamps_post, stamps_read. by left.
    + rewrite stamps_read. by left.
    + rewrite stamps_unbind. by left.
    + change (stamps (unbind_done (record [OnUpdate] ?w1))) with (stamps (record [OnUpdate] w1)).
      rewrite stamps_record, stamps_read by done. by left.
    + by left.
  - unfold watcher_ticks. repeat case_match; try by left. rewrite stamps_clear. by left.
  - by left.
  - destruct (mounted w); [|by left]. pose proof (stamps_fetch custom (set_custom custom w)) as Hf.
    destruct (fetchCustomBindings custom _) as [w1 [tk|] ]; cbn [fst] in Hf; [change (stamps (spawn (Reading tk) w1)) with (stamps w1)|];
      rewrite Hf; by left.
  - case_match; by left.
  - case_match; by left.
  - destruct (mounted w); [|by left]. unfold handleUnbindCustom. destruct (unbindTarget w); [|by left].
    destruct (RequestScope.run _ _) as [s [tk|] ]; [|by left].
    change (stamps (spawn _ ?w1)) with (stamps w1). rewrite stamps_record by done. by left.
  - by left.
  - destruct (mounted w); [|by left]. unfold unmount. destruct (pendingOAuthBinding w) as [b|] eqn:Eb.
    + change (stamps (set_mounted false ?w1)) with (stamps w1). rewrite stamps_close.
      match goal with |- x ∈ ?l → _ => change l with (stamps (clearPendingOAuthBinding (Some b) w)) end. rewrite stamps_clear. by left.
    + match goal with |- x ∈ ?l → _ => change l with (stamps (clearPendingOAuthBinding None w)) end. rewrite stamps_clear. by left.
Qed.

(** The state [s] is what the server answered to the request of binding [b] for a state. *)
Definition state_given (st : Auth.AuthStore) (custom : bool) (es : list Event) (b : nat) (s : jsstr) : Prop :=
  ∃ es1 es2 j buildUrl tk data, es = es1 ++ Settle j (Resolved data) :: es2 ∧
    tasks (run st custom es1) !! j = Some (Starting b buildUrl tk) ∧ bind_flow_state data = Some s.

Lemma stamp_given st custom es b n name s : Stamped b n name s ∈ log (run st custom es) → state_given st custom es b s.
Proof.
  intros Hx. assert (Stamped b n name s ∈ stamps (run st custom es)) as H0 by (by apply elem_of_filter_bool). clear Hx.
  induction es as [|e es IH] using rev_ind; [by apply elem_of_nil in H0|]. unfold run in H0. rewrite foldl_app in H0. cbn [foldl] in H0.
  apply stamps_step in H0 as [H0|(j & b' & u & tk & n' & name' & s' & data & -> & Ht & Hs & [= -> -> -> ->])].
  - destruct (IH H0) as (es1 & es2 & j & u & tk & data & -> & Ht). exists es1, (es2 ++ [e]), j, u, tk, data. by rewrite <- app_assoc.
  - by exists es, [], j, u, tk, data.
Qed.

(** [C11] A binding is completed for the account that began it: however messages, answers,
    clicks, closing windows and changes of the login interleave, every request that completes
    a binding is made for the login of the tab, at most once for each pop-up, and with what
    a page of this origin in that pop-up handed over, which names the provider and the state of
    the request. Unless this state is empty (a callback with an empty state is accepted as long
    as no state was given), the tab had asked for a state for this login and provider, the
    state is the one the server answered to that, and the pop-up was stamped with it before.
    A result is posted to this pop-up, and at most once. *)
Theorem completions_authorized (st : Auth.AuthStore) (custom : bool) (es : list Event) (k : nat) :
  let login := RequestScope.getSecurityIdentity st in
  let l := log (run st custom es) in
  (∀ b i name params, l !! k = Some (CompleteRequest b i name params) →
     i = login ∧ (∀ i' name' params', CompleteRequest b i' name' params' ∉ take k l) ∧
     ∃ n s data, params = bind_params s data ∧ Received b own_origin (Some n) data ∈ take k l ∧
       get data (js "state") = Str s ∧ get data (js "provider") = Str name ∧
       (s ≠ [] → Stamped b n name s ∈ take k l ∧ StateRequest b login name ∈ take k l ∧ state_given st custom es b s)) ∧
  (∀ b n m, l !! k = Some (PostResult b n m) →
     (∀ n' m', PostResult b n' m' ∉ take k l) ∧
     ∃ data success text, m = result_message data success text ∧ Received b own_origin (Some n) data ∈ take k l).
Proof.
  intros login l. pose proof (inv_ok login _ (binding_inv_run st custom es)) as Hok. fold l in Hok.
  split; [|intros b n m Hk; exact (Hok k _ Hk)]. intros b i name params Hk.
  destruct (Hok k _ Hk) as (Hi & Hone & n & s & data & Hp & Hr & Hst & Hpr & Hs). split_and!; [done..|].
  exists n, s, data. split_and!; [done..|]. intros Hne. destruct (Hs Hne) as [Hstamp Hreq]. split_and!; [done..|].
  apply (stamp_given st custom es b n name). fold l. rewrite <- (take_drop k l). apply elem_of_app. by left.
Qed.

(** ** Superseded bindings *)

(** A step that says nothing about binding [b], which is not the pending one. *)
Definition quiet (b : nat) (w w' : Tab) : Prop :=
  b < length (bindings w) → pendingOAuthBinding w ≠ Some b →
  b < length (bindings w') ∧ pendingOAuthBinding w' ≠ Some b ∧
  ∃ l, log w' = log w ++ l ∧ Forall (λ e, about e ≠ Some b) l.

Lemma quiet_trans b w1 w2 w3 : quiet b w1 w2 → quiet b w2 w3 → quiet b w1 w3.
Proof.
  intros H12 H23 Hb Hp. destruct (H12 Hb Hp) as (Hb2 & Hp2 & l & El & Hl). destruct (H23 Hb2 Hp2) as (Hb3 & Hp3 & l' & El' & Hl').
  split_and!; [done..|]. exists (l ++ l'). rewrite El', El, app_assoc. split; [done|]. by apply Forall_app.
Qed.

Lemma quiet_same b w w' : length (bindings w') = length (bindings w) → pendingOAuthBinding w' = pendingOAuthBinding w →
  log w' = log w → quiet b w w'.
Proof. intros E1 E2 E3 Hb Hp. split_and!; [lia|congruence|]. exists []. by rewrite E3, app_nil_r. Qed.

Lemma quiet_record b e w : about e ≠ Some b → quiet b w (record [e] w).
Proof. intros He Hb Hp. split_and!; [done..|]. exists [e]. split; [done|]. by repeat constructor. Qed.

Lemma quiet_clear b expected w : quiet b w (clearPendingOAuthBinding expected w).
Proof.
  unfold clearPendingOAuthBinding. destruct (pendingOAuthBinding w) as [c|] eqn:E; [|by apply quiet_same].
  destruct (match expected with Some e => _ | None => _ end); [by apply quiet_same|].
  intros Hb Hp. simpl. rewrite length_alter. split_and!; [done..|]. exists []. by rewrite app_nil_r.
Qed.

Lemma quiet_close b c w : quiet b w (close_popup_of c w).
Proof. unfold close_popup_of. destruct (bindings w !! c); by apply quiet_same. Qed.

Lemma quiet_fetch b custom w : quiet b w (fst (fetchCustomBindings custom w)).
Proof.
  unfold fetchCustomBindings. destruct custom; [|by apply quiet_same]. simpl.
  destruct (RequestScope.run _ _) as [s [tk|] ]; [|by apply quiet_same].
  eapply quiet_trans; [|by apply quiet_record]. by apply quiet_same.
Qed.

Lemma quiet_read b tk o w : quiet b w (bindings_read tk o w).
Proof. unfold bindings_read. destruct o; [destruct (_ && _)|]; by apply quiet_same. Qed.

Lemma quiet_start_failed b c w : quiet b w (start_failed c w).
Proof.
  unfold start_failed. pose proof (quiet_trans _ _ _ _ (quiet_clear b (Some c) w) (quiet_close b c _)) as Hq.
  destruct (is_pending c w); [|done]. eapply quiet_trans; [exact Hq|by apply quiet_record].
Qed.

Lemma quiet_start b name buildUrl opened w : quiet b w (startOAuthBinding name buildUrl opened w).
Proof.
  unfold startOAuthBinding. set (w1 := match pendingOAuthBinding w with Some _ => _ | None => _ end).
  assert (quiet b w w1) as H1.
  { unfold w1. destruct (pendingOAuthBinding w) as [c|]; [|by apply quiet_same].
    eapply quiet_trans; [|apply quiet_close]. eapply quiet_trans; [|apply quiet_clear]. by apply quiet_same. }
  clearbody w1. eapply quiet_trans; [exact H1|]. destruct opened as [access|]; [|by apply quiet_record].
  intros Hb Hp. destruct (RequestScope.run _ _) as [s [tk|] ]; simpl; rewrite length_app; simpl.
  - split_and!; [lia|intros [= Hc]; lia|]. eexists [_]. split; [done|]. constructor; [intros [= Hc]; lia|constructor].
  - split_and!; [lia|intros [= Hc]; lia|]. exists []. by rewrite app_nil_r.
Qed.

Lemma quiet_stamp b c p x buildUrl state w : c ≠ b → quiet b w (stamp_and_go c p x buildUrl state w).
Proof.
  intros Hc. unfold stamp_and_go. destruct (markOAuthBindPopup _ _ _) as [ok storage].
  set (w1 := match storage with Some _ => _ | None => _ end).
  assert (quiet b w w1) as H1 by (unfold w1; destruct storage; by apply quiet_same).
  eapply quiet_trans; [exact H1|]. destruct ok; simpl; [|apply quiet_start_failed].
  set (w2 := record _ _). assert (quiet b w1 w2) as H2.
  { unfold w2. eapply quiet_trans; [|apply quiet_record; simpl; congruence]. apply quiet_same; simpl; [apply length_alter|done..]. }
  eapply quiet_trans; [exact H2|]. destruct (buildUrl state); [|apply quiet_start_failed].
  eapply quiet_trans; [|apply quiet_record; simpl; congruence]. by apply quiet_same.
Qed.

Lemma quiet_flow b j c buildUrl tk o w : quiet b w (flow_answered j c buildUrl tk o w).
Proof.
  unfold flow_answered. set (w1 := become j Finished _). assert (quiet b w w1) as H1 by (by apply quiet_same).
  destruct (RequestScope.is_current _ _ _); [|done]. simpl.
  destruct (match o with Resolved _ => _ | Rejected _ _ => _ end) as [state|];
    [|eapply quiet_trans; [exact H1|apply quiet_start_failed] ].
  destruct (bindings w !! c) as [p|]; [|done]. destruct (popups w !! popup p) as [x|]; [|done].
  destruct (negb (is_pending c w1) || p_closed x) eqn:E; [done|].
  apply orb_false_iff in E as [E%negb_false_iff _]. apply bool_decide_eq_true in E.
  intros Hb Hp. assert (c ≠ b) by (intros ->; done). by eapply quiet_trans; [exact H1|by apply quiet_stamp|..].
Qed.

Lemma quiet_post_result b c message success text w : quiet b w (post_result c message success text w).
Proof.
  unfold post_result. destruct (is_pending c w) eqn:E; [|by apply quiet_same]. simpl. apply bool_decide_eq_true in E.
  destruct (bindings w !! c); [|by apply quiet_same].
  intros Hb Hp. assert (c ≠ b) by congruence.
  by eapply quiet_trans; [apply quiet_clear|by apply quiet_record; simpl; congruence|..].
Qed.

Lemma quiet_completion_failed b c message isError e w : quiet b w (completion_failed c message isError e w).
Proof.
  unfold completion_failed. destruct (negb _); [by apply quiet_same|].
  eapply quiet_trans; [|apply quiet_post_result]. by apply quiet_record.
Qed.

Lemma quiet_handle b origin source data w : quiet b w (handleMessage origin source data w).
Proof.
  unfold handleMessage. destruct (negb (mounted w)); [by apply quiet_same|]. destruct (negb _); [by apply quiet_same|].
  destruct (pendingOAuthBinding w) as [c|] eqn:Ec; [|by apply quiet_same].
  destruct (bindings w !! c) as [p|]; [|by apply quiet_same]. destruct (_ || _); [by apply quiet_same|].
  intros Hb Hp. assert (c ≠ b) by congruence. set (w1 := record _ _).
  assert (quiet b w w1) as H1.
  { unfold w1. eapply quiet_trans; [|apply quiet_record; simpl; congruence]. apply quiet_same; simpl; [apply length_alter|done..]. }
  destruct (_ && _); [by eapply quiet_trans; [exact H1|apply quiet_completion_failed|..]|].
  destruct (RequestScope.run _ _) as [s [tk|] ]; (eapply quiet_trans; [exact H1| |done|congruence]); [|by apply quiet_same].
  eapply quiet_trans; [|by apply quiet_same]. eapply quiet_trans; [|apply quiet_record; simpl; congruence]. by apply quiet_same.
Qed.

Lemma quiet_completion b j c message custom tk o w : quiet b w (completion_answered j c message custom tk o w).
Proof.
  unfold completion_answered. set (w1 := become j Finished _). assert (quiet b w w1) as H1 by (by apply quiet_same).
  destruct (RequestScope.is_current _ _ _); [|done]. simpl. eapply quiet_trans; [exact H1|].
  destruct o as [r|]; [|apply quiet_completion_failed]. destruct (negb _); [by apply quiet_same|].
  destruct (is_nothing r); [apply quiet_completion_failed|]. destruct (value_truthy _);
    [|eapply quiet_trans; [|apply quiet_post_result]; by apply quiet_record].
  set (w2 := record _ w1). assert (quiet b w1 w2) as H2.
  { intros Hb Hp. split_and!; [done..|]. eexists. split; [done|]. by repeat constructor. }
  pose proof (quiet_trans _ _ _ _ H2 (quiet_fetch b custom w2)) as H3. destruct (fetchCustomBindings custom w2) as [w3 [tk'|] ];
    (eapply quiet_trans; [exact H3|]); [by apply quiet_same|apply quiet_post_result].
Qed.

Lemma quiet_unbind b j target custom tk o w : quiet b w (unbind_answered j target custom tk o w).
Proof.
  unfold unbind_answered. set (w1 := become j Finished _). assert (quiet b w w1) as H1 by (by apply quiet_same).
  destruct (RequestScope.is_current _ _ _); [|done]. simpl. eapply quiet_trans; [exact H1|].
  assert (∀ v e, about e = None → quiet b v (unbind_done (record [e] v))) as Hd.
  { intros v e He. apply (quiet_trans b v (record [e] v)); [apply quiet_record; congruence|]. by apply quiet_same. }
  destruct o as [r|]; [|by apply Hd]. destruct (is_nothing r); [by apply Hd|]. destruct (value_truthy _); [|by apply Hd].
  set (w2 := record _ w1). assert (quiet b w1 w2) as H2 by (by apply quiet_record).
  pose proof (quiet_trans _ _ _ _ H2 (quiet_fetch b custom w2)) as H3. destruct (fetchCustomBindings custom w2) as [w3 [tk'|] ];
    (eapply quiet_trans; [exact H3|]); [by apply quiet_same|by apply Hd].
Qed.

Lemma quiet_settle b j task o w : quiet b w (settle j task o w).
Proof.
  destruct task as [c u tk|c m cu tk|c m r tk|tk|v cu tk|tk|]; simpl; [apply quiet_flow|apply quiet_completion| | |apply quiet_unbind| |by apply quiet_same];
    (apply (quiet_trans b w (become j Finished w)); [by apply quiet_same|]).
  - eapply quiet_trans; [apply quiet_read|apply quiet_post_result].
  - apply quiet_read.
  - eapply quiet_trans; [apply quiet_read|]. eapply quiet_trans; [by apply (quiet_record b OnUpdate)|]. by apply quiet_same.
Qed.

Lemma quiet_unmount b w : quiet b w (unmount w).
Proof.
  unfold unmount. eapply quiet_trans; [apply (quiet_clear b (pendingOAuthBinding w))|].
  destruct (pendingOAuthBinding w) as [c|]; [|by apply quiet_same]. set (w2 := set_flowScope _ _).
  eapply (quiet_trans _ _ w2); [by apply quiet_same|]. eapply quiet_trans; [apply (quiet_close b c)|]. by apply quiet_same.
Qed.

Lemma quiet_step b w e : quiet b w (step w e).
Proof.
  destruct e as [name u opened|origin source data|j o|c|n|custom|target| | |st|]; simpl.
  - destruct (mounted w); [apply quiet_start|by apply quiet_same].
  - apply quiet_handle.
  - destruct (tasks w !! j); [apply quiet_settle|by apply quiet_same].
  - unfold watcher_ticks. destruct (bindings w !! c) as [p|]; [|by apply quiet_same].
    destruct (popups w !! popup p) as [x|]; [|by apply quiet_same]. destruct (_ || _); [by apply quiet_same|].
    eapply quiet_trans; [|apply quiet_clear]. apply quiet_same; simpl; [apply length_alter|done..].
  - by apply quiet_same.
  - destruct (mounted w); [|by apply quiet_same]. set (w1 := set_custom custom w).
    pose proof (quiet_fetch b custom w1) as H1. destruct (fetchCustomBindings custom w1) as [w2 [tk|] ]; cbn [fst] in H1;
      (eapply (quiet_trans _ _ w1); [by apply quiet_same|]); [|done]. eapply quiet_trans; [exact H1|]. by apply quiet_same.
  - destruct (mounted w); by apply quiet_same.
  - destruct (mounted w); by apply quiet_same.
  - destruct (mounted w); [|by apply quiet_same]. unfold handleUnbindCustom. destruct (unbindTarget w); [|by apply quiet_same].
    destruct (RequestScope.run _ _) as [s [tk|] ]; [|by apply quiet_same].
    eapply quiet_trans; [|by apply quiet_same]. eapply quiet_trans; [|by apply quiet_record]. by apply quiet_same.
  - by apply quiet_same.
  - destruct (mounted w); [apply quiet_unmount|by apply quiet_same].
Qed.

(** A binding that is no longer the pending one, because another was started, its pop-up was
    closed, it failed or it was completed, is inert: whatever happens later, its pop-up is
    neither stamped nor sent anywhere, nothing is accepted from it or completed for it, no
    result is posted, and its watcher does nothing. *)
Theorem superseded_inert (st : Auth.AuthStore) (custom : bool) (es later : list Event) (b : nat) :
  let w := run st custom es in
  let w' := foldl step w later in
  b < length (bindings w) → pendingOAuthBinding w ≠ Some b →
  pendingOAuthBinding w' ≠ Some b ∧ step w' (WatcherTick b) = w' ∧
  ∃ l, log w' = log w ++ l ∧ Forall (λ e, about e ≠ Some b) l.
Proof.
  intros w w' Hb Hp.
  assert (quiet b w w') as Hq.
  { unfold w'. generalize w. induction later as [|e later IH]; intros v; [by apply quiet_same|].
    eapply quiet_trans; [apply quiet_step|apply IH]. }
  destruct (Hq Hb Hp) as (Hb' & Hp' & Hl). split_and!; [done| |done].
  assert (w' = run st custom (es ++ later)) as Ew by (unfold w', w, run; by rewrite foldl_app).
  pose proof (inv_watch _ _ (binding_inv_run st custom (es ++ later))) as Hw. rewrite <- Ew in Hw.
  simpl. unfold watcher_ticks. destruct (bindings w' !! b) as [p|] eqn:Ep; [|done].
  destruct (popups w' !! popup p); [|done]. destruct (watching p) eqn:Ewt; [|done]. by specialize (Hw b p Ep Ewt).
Qed.

(** ** From the click to the result *)

(** What is known of the pending binding [b] and its window [n]. *)
Definition at_binding (w : Tab) (b n : nat) (p : PendingOAuthBinding) (x : Popup) : Prop :=
  pendingOAuthBinding w = Some b ∧ bindings w !! b = Some p ∧ popup p = n ∧ popups w !! n = Some x.

Lemma started login name buildUrl access w :
  inv login w → mounted w = true → RequestScope.isSameSecurityIdentity login (store w) = true →
  let b := length (bindings w) in let n := length (popups w) in
  let w1 := startOAuthBinding name buildUrl (Some access) w in
  at_binding w1 b n (mkPending name [] n false true) (mkPopup false access None) ∧ store w1 = store w ∧ mounted w1 = true ∧
  ∃ tk, tasks w1 = tasks w ++ [Starting b buildUrl tk] ∧
    RequestScope.is_current (store w1) tk (flowScope w1) = true.
Proof.
  intros Hw Hm Hst b n w1. unfold w1, startOAuthBinding.
  set (w0 := match pendingOAuthBinding w with Some _ => _ | None => _ end).
  assert (length (bindings w0) = b ∧ length (popups w0) = n ∧ store w0 = store w ∧ mounted w0 = mounted w ∧
          tasks w0 = tasks w ∧ flowScope w0 = flowScope w) as (Eb & En & Es & Em & Et & Ef).
  { unfold w0. destruct (pendingOAuthBinding w) as [c|] eqn:E; [|done].
    unfold clearPendingOAuthBinding, close_popup_of. simpl. rewrite E, Nat.eqb_refl. simpl.
    destruct (alter _ c (bindings w) !! c); simpl; by rewrite ?length_alter. }
  clearbody w0. rewrite Eb, En. destruct (inv_login login w Hw) as [Hf _]. rewrite Hm in Hf.
  destruct (RequestScope.run_starts login (store w) (flowScope w) Hf Hst) as (s & tk & Hr & Hc).
  simpl. rewrite Es, Ef, Hr. simpl. rewrite Es, Em, Et. split.
  { split_and!; [done| |done|].
    - simpl. by rewrite lookup_app_r, Eb, Nat.sub_diag by lia.
    - simpl. by rewrite lookup_app_r, En, Nat.sub_diag by lia. }
  split_and!; [done|done|]. by exists tk.
Qed.

(** The server's answer to the request for a state. *)
Definition state_answer (state : jsstr) : Outcome := Resolved (Obj [(js "success", Bool true); (js "data", Str state)]).

Lemma stamped j b n name buildUrl l state url tk w :
  at_binding w b n (mkPending name [] n false true) (mkPopup false (HasStorage (mkStorage l false false)) None) →
  RequestScope.is_current (store w) tk (flowScope w) = true → name ≠ [] → state ≠ [] → buildUrl state = Some url →
  let w' := flow_answered j b buildUrl tk (state_answer state) w in
  at_binding w' b n (mkPending name state n false true)
    (mkPopup false (HasStorage (mkStorage (jm_set (OAUTH_BIND_FLOW_KEY_PREFIX ++ name) state l) false false)) (Some url)) ∧
  store w' = store w ∧ mounted w' = mounted w ∧ callbackScope w' = callbackScope w ∧ length (tasks w') = length (tasks w).
Proof.
  intros (Hp & Hb & _ & Hn) Hc Hname Hs Hu w'. unfold w', flow_answered. rewrite Hc. simpl. rewrite Hb. simpl. rewrite Hn.
  unfold is_pending. simpl. rewrite bool_decide_true by done. simpl. unfold stamp_and_go. simpl.
  assert (truthy name = true) as -> by (by destruct name). assert (truthy state = true) as -> by (by destruct state).
  cbn [negb orb]. rewrite jm_get_set_eq, bool_decide_true by done. cbn [negb]. rewrite Hu. simpl.
  assert (n < length (popups w)) by (by eapply lookup_lt_Some).
  split_and!; [|done|done|done|by rewrite length_insert]. split_and!; [done| |done|].
  - simpl. by rewrite list_lookup_alter_eq, Hb.
  - simpl. by rewrite list_lookup_alter_eq, list_lookup_insert_eq by done.
Qed.

Lemma accepted login j b n name state x search w :
  at_binding w b n (mkPending name state n false true) x → inv login w → mounted w = true →
  RequestScope.isSameSecurityIdentity login (store w) = true → OAuthCallback.state search = Some state →
  opt_truthy (code search) || opt_truthy (error search) = true → length (tasks w) = j →
  let w' := handleMessage own_origin (Some n) (callback_message name search) w in
  pendingOAuthBinding w' = Some b ∧ bindings w' !! b = Some (mkPending name state n true true) ∧
  ∃ tk custom, tasks w' !! j = Some (Completing b (callback_message name search) custom tk) ∧
    RequestScope.is_current (store w') tk (callbackScope w') = true.
Proof.
  intros (Hp & Hb & _ & Hn) Hw Hm Hst Es Hcode Hj w'. unfold w', handleMessage. rewrite Hm. cbn [negb].
  assert (streq own_origin own_origin = true) as -> by (by apply bool_decide_eq_true). cbn [negb]. rewrite Hp, Hb. cbn [provider bind_state popup completing].
  assert (is_str (get (callback_message name search) (js "type")) OAUTH_BIND_CALLBACK_MESSAGE = true) as -> by (by apply bool_decide_eq_true).
  assert (is_str (get (callback_message name search) (js "provider")) name = true) as -> by (by apply bool_decide_eq_true).
  assert (is_str (get (callback_message name search) (js "state")) state = true) as ->.
  { change (streq (default [] (OAuthCallback.state search)) state = true). rewrite Es. by apply bool_decide_eq_true. }
  rewrite bool_decide_true by done. change (value_truthy (callback_message name search)) with true. cbn [negb orb].
  assert (negb (value_truthy (get (callback_message name search) (js "code"))) &&
          negb (value_truthy (get (callback_message name search) (js "error"))) = false) as ->.
  { change (negb (opt_truthy (code search)) && negb (value_truthy (opt_value (error search))) = false).
    rewrite <- negb_orb, negb_false_iff. rewrite <- Hcode. f_equal. by destruct (error search). }
  destruct (inv_login login w Hw) as [_ Hc]. rewrite Hm in Hc.
  destruct (RequestScope.run_starts login (store w) (callbackScope w) Hc Hst) as (s & tk & Hr & Hcur).
  simpl. rewrite Hr. simpl. split_and!; [done|by rewrite list_lookup_alter_eq, Hb|]. exists tk, (customProviders w).
  rewrite lookup_app_r, Hj, Nat.sub_diag by lia. done.
Qed.

Lemma posts b n message success text state name w :
  pendingOAuthBinding w = Some b → bindings w !! b = Some (mkPending name state n true true) →
  let w' := post_result b message success text w in
  pendingOAuthBinding w' = None ∧ last (log w') = Some (PostResult b n (result_message message success text)) ∧
  tasks w' = tasks w.
Proof.
  intros Hp Hb w'. unfold w', post_result, is_pending. rewrite bool_decide_true by done. simpl. rewrite Hb.
  unfold clearPendingOAuthBinding. rewrite Hp, Nat.eqb_refl. simpl. by rewrite last_snoc.
Qed.

(** The answer that completes a binding, and the reading of the bindings after it. *)
Lemma completed j b n message custom tk name state r o w :
  tasks w !! j = Some (Completing b message custom tk) → RequestScope.is_current (store w) tk (callbackScope w) = true →
  pendingOAuthBinding w = Some b → bindings w !! b = Some (mkPending name state n true true) → is_nothing r = false →
  let w' := step (step w (Settle j (Resolved r))) (Settle j o) in
  pendingOAuthBinding w' = None ∧
  last (log w') = Some (PostResult b n (result_message message (value_truthy (get r (js "success")))
    (value_or (get r (js "message")) (tr "OAuth failed")))).
Proof.
  intros Hj Hc Hp Hb Hr w'. unfold w'. clear w'. set (text := value_or (get r (js "message")) (tr "OAuth failed")).
  assert (j < length (tasks w)) as Hlt by (by eapply lookup_lt_Some).
  assert (∀ v, tasks v !! j = Some Finished → step v (Settle j o) = v) as Hidle by (intros v Hv; simpl; by rewrite Hv).
  cbn [step]. rewrite Hj. cbn [settle]. unfold completion_answered. rewrite Hc. cbn [negb].
  set (w1 := become j Finished _). unfold is_pending. change (pendingOAuthBinding w1) with (pendingOAuthBinding w).
  rewrite bool_decide_true by done. cbn [negb]. rewrite Hr. fold text.
  assert (tasks w1 !! j = Some Finished) as Hf by (by apply list_lookup_insert_eq).
  assert (∀ success v, pendingOAuthBinding v = Some b → bindings v = bindings w → tasks v = tasks w1 →
    let v' := step (post_result b message success text v) (Settle j o) in
    pendingOAuthBinding v' = None ∧ last (log v') = Some (PostResult b n (result_message message success text))) as Hpost.
  { intros success v Hpv Hbv Htv. rewrite <- Hbv in Hb. destruct (posts b n message success text state name v Hpv Hb) as (? & ? & Ht).
    rewrite (Hidle (post_result b message success text v)) by (by rewrite Ht, Htv). done. }
  destruct (value_truthy (get r (js "success"))) eqn:Es; [|by apply Hpost].
  set (w2 := record _ w1). pose proof (fetch_same custom w2) as (Eb & Ep & _).
  assert (tasks (fst (fetchCustomBindings custom w2)) = tasks w1) as Et.
  { unfold fetchCustomBindings. destruct custom; [|done]. simpl. by destruct (RequestScope.run _ _) as [? [?|] ]. }
  destruct (fetchCustomBindings custom w2) as [w3 [tk'|] ]; cbn [fst] in *; [|apply Hpost; [by rewrite Ep|by rewrite Eb|done] ].
  cbn [step become set_tasks tasks]. rewrite list_lookup_insert_eq by (rewrite Et; simpl; by rewrite length_insert). cbn [settle].
  set (w4 := bindings_read _ _ _).
  assert (pendingOAuthBinding w4 = Some b ∧ bindings w4 = bindings w) as [Hp4 Hb4].
  { split; [rewrite <- Hp; change (pendingOAuthBinding w) with (pendingOAuthBinding w2); rewrite <- Ep
           |change (bindings w) with (bindings w2); rewrite <- Eb];
      unfold w4, bindings_read; destruct o; [destruct (_ && _)| |destruct (_ && _)|]; done. }
  rewrite <- Hb4 in Hb. by destruct (posts b n message true text state name w4 Hp4 Hb) as (? & ? & _).
Qed.

(** [C12] Binding works from the click to the result, with both windows: from whatever the tab
    has been through, while it is mounted and the login is its own, a click, the server's
    state and the return of the provider to the page in the pop-up make this page post the
    callback, the tab complete the binding and post the result back, and the page close with
    the success, or show the error and close later. *)
Theorem binding_round_trip `{Urls} (st : Auth.AuthStore) (custom : bool) (es : list Event) (name state url : jsstr)
    (buildUrl : jsstr → option jsstr) (l : list (jsstr * jsstr)) (search : Search) (r : value) (o : Outcome) :
  let w := run st custom es in
  mounted w = true → RequestScope.isSameSecurityIdentity (RequestScope.getSecurityIdentity st) (store w) = true →
  name ≠ [] → name ≠ js "telegram" → state ≠ [] → buildUrl state = Some url →
  OAuthCallback.state search = Some state → opt_truthy (code search) || opt_truthy (error search) = true →
  is_nothing r = false →
  let b := length (bindings w) in let n := length (popups w) in let j := length (tasks w) in
  let w1 := step w (Start name buildUrl (Some (HasStorage (mkStorage l false false)))) in
  let w2 := step w1 (Settle j (state_answer state)) in
  let w3 := step w2 (Message own_origin (Some n) (callback_message name search)) in
  let w4 := step (step w3 (Settle (S j) (Resolved r))) (Settle (S j) o) in
  ∃ x m, popups w2 !! n = Some x ∧ p_closed x = false ∧ location x = Some url ∧
    pendingOAuthBinding w4 = None ∧ last (log w4) = Some (PostResult b n m) ∧
    let page := mount own_origin t name search (Some false) (sessionStorage x) in
    let page' := handleBindingResult own_origin t name search own_origin true m page in
    OAuthCallback.log page = [PostToOpener (callback_message name search)] ∧
    if value_truthy (get r (js "success"))
    then OAuthCallback.closed page' = true
    else timers page' = [0] ∧
      last (OAuthCallback.log page') = Some (OAuthCallback.ToastError (Text
        (value_or (value_or (get r (js "message")) (tr "OAuth failed")) (tr "OAuth failed")))).
Proof.
  intros w Hm Hst Hname Htg Hs Hu Es Hcode Hr b n j w1 w2 w3 w4. set (login := RequestScope.getSecurityIdentity st) in *.
  pose proof (binding_inv_run st custom es) as Hw. fold w login in Hw.
  destruct (started login name buildUrl (HasStorage (mkStorage l false false)) w Hw Hm Hst) as (H1 & Es1 & Hm1 & tk & Ht1 & Hc1).
  assert (w1 = startOAuthBinding name buildUrl (Some (HasStorage (mkStorage l false false))) w) as E1
    by (unfold w1; simpl; by rewrite Hm).
  rewrite <- E1 in H1, Es1, Hm1, Ht1, Hc1.
  destruct (stamped j b n name buildUrl l state url tk w1 H1 Hc1 Hname Hs Hu) as (H2 & Es2 & Hm2 & _ & Hl2).
  assert (w2 = flow_answered j b buildUrl tk (state_answer state) w1) as E2.
  { unfold w2. simpl. by rewrite Ht1, lookup_app_r, Nat.sub_diag by (unfold j; lia). }
  rewrite <- E2 in H2, Es2, Hm2, Hl2.
  assert (inv login w2) as Hw2 by (by apply binding_inv_step, binding_inv_step).
  destruct (accepted login (S j) b n name state _ search w2 H2 Hw2) as (Hp3 & Hb3 & tk' & custom' & Ht3 & Hc3);
    [congruence|congruence|done|done|rewrite Hl2, Ht1, length_app; simpl; unfold j; lia|].
  destruct (completed (S j) b n _ custom' tk' name state r o w3 Ht3 Hc3 Hp3 Hb3 Hr) as (Hp4 & Hlast).
  destruct H2 as (_ & _ & _ & Hx). eexists _, _. split; [exact Hx|]. split_and!; [done|done|exact Hp4|exact Hlast|].
  unfold mount, page_mode. replace (streq name (js "telegram")) with false by (symmetry; by apply bool_decide_eq_false).
  cbn [andb sessionStorage getOAuthSessionStorage].
  assert (resolveOAuthCallbackMode name (default [] (OAuthCallback.state search)) (Some false)
    (Some (mkStorage (jm_set (OAUTH_BIND_FLOW_KEY_PREFIX ++ name) state l) false false)) = BindMode) as ->.
  { rewrite Es. apply resolve_bind. split; [done|]. split; [done|]. eexists. split; [done|]. split; [done|]. apply jm_get_set_eq. }
  split; [done|]. unfold handleBindingResult. cbn [waiting await_result OAuthCallback.record negb].
  assert (streq own_origin own_origin = true) as -> by (by apply bool_decide_eq_true). cbn [negb orb].
  set (m := result_message _ _ _). change (value_truthy m) with true.
  assert (is_str (get m (js "type")) OAUTH_BIND_RESULT_MESSAGE = true) as -> by (by apply bool_decide_eq_true).
  assert (is_str (get m (js "provider")) name = true) as -> by (by apply bool_decide_eq_true).
  assert (is_str (get m (js "state")) (default [] (OAuthCallback.state search)) = true) as -> by (by apply bool_decide_eq_true).
  cbn [negb orb]. change (get m (js "success")) with (Bool (value_truthy (get r (js "success")))). cbn [value_truthy].
  by destruct (value_truthy (get r (js "success"))).
Qed.

(** ** Unmounting *)

Definition inactive (w : Tab) : Prop :=
  RequestScope.active (flowScope w) = false ∧ RequestScope.active (callbackScope w) = false ∧
  RequestScope.active (unbindScope w) = false ∧ RequestScope.active (bindingsReadScope w) = false.

(** The tab is gone: nothing is pending, and every result is stale. *)
Definition gone (w : Tab) : Prop := mounted w = false ∧ pendingOAuthBinding w = None ∧ inactive w.

Lemma inactive_stale st tk s : RequestScope.active s = false → RequestScope.is_current st tk s = false.
Proof. intros Hs. unfold RequestScope.is_current. by rewrite Hs. Qed.

Lemma gone_unmount w : gone (unmount w).
Proof.
  assert (pendingOAuthBinding (clearPendingOAuthBinding (pendingOAuthBinding w) w) = None) as Hc.
  { unfold clearPendingOAuthBinding. destruct (pendingOAuthBinding w) as [b|] eqn:E; [|done]. by rewrite Nat.eqb_refl. }
  unfold unmount. destruct (pendingOAuthBinding w) as [b|] eqn:E; [|done].
  unfold close_popup_of. simpl. by destruct (bindings (clearPendingOAuthBinding (Some b) w) !! b).
Qed.

(** The popup is closed too. *)
Lemma unmount_closes b p x w : pendingOAuthBinding w = Some b → bindings w !! b = Some p → popups w !! popup p = Some x →
  p_closed <$> popups (unmount w) !! popup p = Some true.
Proof.
  intros Hb Hp Hx. unfold unmount, close_popup_of, clearPendingOAuthBinding. rewrite Hb, Nat.eqb_refl. simpl.
  rewrite list_lookup_alter_eq, Hp. simpl. by rewrite list_lookup_alter_eq, Hx.
Qed.

Lemma gone_step w e : gone w → gone (step w e) ∧ (log (step w e) = log w ∨ log (step w e) = log w ++ [OnUpdate]).
Proof.
  intros (Hm & Hp & H1 & H2 & H3 & H4).
  assert (gone w) as Hw by done.
  assert (∀ tk o v, gone v → gone (bindings_read tk o v) ∧ log (bindings_read tk o v) = log v) as Hread.
  { intros tk o v Hv. unfold bindings_read. destruct o; [destruct (_ && _)|]; done. }
  destruct e as [name u opened|origin source data|j o|b|n|custom|target| | |st|]; simpl;
    rewrite ?Hm; try (split; [done|by left]).
  - unfold handleMessage. rewrite Hm. split; [done|by left].
  - destruct (tasks w !! j) as [task|]; [|split; [done|by left] ].
    assert (gone (become j Finished w)) as Hb by done.
    destruct task as [b u tk|b m c tk|b m r tk|tk|v c tk|tk|]; simpl.
    + unfold flow_answered. rewrite (inactive_stale (store w) tk (flowScope w) H1). split; [done|by left].
    + unfold completion_answered. rewrite (inactive_stale (store w) tk (callbackScope w) H2). split; [done|by left].
    + destruct (Hread tk o _ Hb) as [Hr El]. unfold post_result, is_pending.
      destruct Hr as (? & Hn & ?). rewrite Hn, bool_decide_false by done. split; [done|]. left. exact El.
    + destruct (Hread tk o _ Hb) as [Hr El]. split; [done|by left].
    + unfold unbind_answered. rewrite (inactive_stale (store w) tk (unbindScope w) H3). split; [done|by left].
    + destruct (Hread tk o _ Hb) as [Hr El]. split; [done|]. right. simpl. by rewrite El.
    + split; [done|by left].
  - unfold watcher_ticks. destruct (bindings w !! b) as [p|]; [|split; [done|by left] ].
    destruct (popups w !! popup p) as [x|]; [|split; [done|by left] ]. destruct (_ || _); [split; [done|by left]|].
    unfold clearPendingOAuthBinding. simpl. rewrite Hp. split; [done|by left].
Qed.

(** When the tab is unmounted everything under way ends: whatever answers, messages and timers
    come later, nothing is requested, shown, stamped or posted any more, apart from the page's
    reload of the profile after a binding was removed. *)
Theorem unmounted_silent (w : Tab) (later : list Event) :
  mounted w = true →
  let w' := step w Unmount in ∃ k, log (foldl step w' later) = log w' ++ repeat OnUpdate k.
Proof.
  intros Hm w'. assert (gone w') as Hg by (unfold w'; simpl; rewrite Hm; apply gone_unmount).
  clearbody w'. revert w' Hg. induction later as [|e later IH]; intros v Hv; [exists 0; by rewrite app_nil_r|].
  destruct (gone_step v e Hv) as [Hg Hl]. destruct (IH _ Hg) as [k Hk]. simpl. rewrite Hk.
  destruct Hl as [-> | ->]; [by exists k|]. exists (S k). by rewrite <- app_assoc.
Qed.

End Tab.

(** ** A concrete binding *)

Definition sample_origin : jsstr := js "https://app.example".
Definition sample_store : Auth.AuthStore := RequestScope.sample_login 1.
Definition sample_url (state : jsstr) : option jsstr := Some (js "https://idp.example/?state=" ++ state).
Definition sample_search : Search :=
  mkSearch (Some (js "c1")) (Some (js "s1")) None None None None None None.
Definition sample_done : value := Obj [(js "success", Bool true)].
Definition sample_popup : option StorageAccess := Some (HasStorage (mkStorage [] false false)).

(** GitHub is bound; before, another binding had been started and was superseded. *)
Definition sample_events : list Event :=
  [Start (js "oidc") sample_url sample_popup; Start (js "github") sample_url sample_popup;
   Settle 1 (state_answer (js "s1"));
   Message sample_origin (Some 1) (callback_message (js "github") sample_search); Settle 2 (Resolved sample_done)].

#[local] Instance no_urls : Urls := {| new_URL _ _ := None |}.

Definition sample_run : list Event → Tab := run sample_origin (λ s, s) Undef sample_store false.

Lemma completions_authorized_witness :
  let l := log (sample_run sample_events) in
  l !! 5 = Some (CompleteRequest 1 (RequestScope.getSecurityIdentity sample_store) (js "github")
    (bind_params (js "s1") (callback_message (js "github") sample_search))) ∧
  (∀ i name params, CompleteRequest 1 i name params ∉ take 5 l) ∧
  (∀ n m, PostResult 1 n m ∉ take 8 l).
Proof.
  intros l. split; [by vm_compute|].
  destruct (completions_authorized sample_origin (λ s, s) Undef sample_store false sample_events 5) as [Hc _].
  destruct (completions_authorized sample_origin (λ s, s) Undef sample_store false sample_events 8) as [_ Hp].
  split.
  - eapply Hc. vm_compute. done.
  - eapply Hp. vm_compute. done.
Defined.

Lemma superseded_inert_witness :
  let w := sample_run (take 2 sample_events) in
  pendingOAuthBinding w = Some 1 ∧
  pendingOAuthBinding (foldl (step sample_origin (λ s, s) Undef) w [Settle 0 (state_answer (js "s0"))]) ≠ Some 0.
Proof.
  intros w. split; [by vm_compute|].
  destruct (superseded_inert sample_origin (λ s, s) Undef sample_store false (take 2 sample_events)
    [Settle 0 (state_answer (js "s0"))] 0) as [Hp _]; [vm_compute; lia|by vm_compute|]. exact Hp.
Defined.

Lemma binding_round_trip_witness :
  let w := sample_run (take 1 sample_events) in
  let n := length (popups w) in
  ∃ x m, popups (step sample_origin (λ s, s) Undef (step sample_origin (λ s, s) Undef w
      (Start (js "github") sample_url sample_popup)) (Settle 1 (state_answer (js "s1")))) !! n = Some x ∧
    OAuthCallback.closed (handleBindingResult sample_origin (λ s, s) (js "github") sample_search sample_origin true m
      (mount sample_origin (λ s, s) (js "github") sample_search (Some false) (sessionStorage x))) = true.
Proof.
  intros w n.
  destruct (binding_round_trip sample_origin (λ s, s) Undef sample_store false (take 1 sample_events) (js "github")
    (js "s1") (js "https://idp.example/?state=s1") sample_url [] sample_search sample_done (Resolved Undef))
    as (x & m & Hx & _ & _ & _ & _ & _ & Hc); [by vm_compute..|].
  exists x, m. split; [exact Hx|exact Hc].
Defined.

End Binding.
