(* ===== verification/StreamController.v ===== *)
(** * The stream request controller
      (web/src/features/playground/hooks/use-stream-request.ts,
       lib/streaming/stream-utils.ts, lib/streaming/request-error-utils.ts)

    [createStreamRequestController] keeps the current event source and a generation
    counter; [send] suspends while the headers are fetched, and each source calls back
    with messages, errors and state changes at any later time. The model is a state
    machine whose events are these entry points in any order: the continuation of a
    [send] is one event, each callback of a source is one. What the controller does to
    its surroundings is recorded as a trace of effects, in order. The callbacks are
    assumed not to call back into the controller while it runs, as those of
    use-chat-handler.ts do not. *)
From S2P Require Import Prelude JsString JsValue Message.
Import Msg.
Local Open Scope Z_scope.

Module Controller.

Inductive StreamUpdateType := UReasoning | UContent.

Record StreamMessageUpdate := mkUpdate { u_type : StreamUpdateType; u_chunk : value }.

Record StreamErrorDetails := mkDetails { errorCode : option value; errorMessage : value }.

(** [v.k], which throws on [undefined] and [null]. *)
Definition access (v : value) (k : jsstr) : option value :=
  match v with Undef | Null => None | _ => Some (get v k) end.

(** [v?.[0]] *)
Definition first (v : value) : value :=
  match v with
  | Arr (x :: _) => x
  | Obj fields => field fields (js "0")
  | Str (u :: _) => Str [u]
  | _ => Undef
  end.

Definition or_else (v : value) (d : value) : value := if value_truthy v then v else d.
Definition or_undefined (v : value) : option value := if value_truthy v then Some v else None.

Definition STREAM_DONE_MESSAGE : jsstr := js "[DONE]".

Section parsing.
(** [JSON.parse]: the value a text denotes, [None] when it throws. *)
Context (JSON_parse : jsstr → option value).

Definition parseStreamErrorDetails (data : option jsstr) : StreamErrorDetails :=
  let d := default [] data in
  let fallbackMessage := Str (str_or d API_REQUEST_ERROR) in
  if negb (truthy d) then mkDetails None fallbackMessage
  else
    match JSON_parse d with
    | None => mkDetails None fallbackMessage
    | Some parsed =>
        let error := get parsed (js "error") in
        if negb (value_truthy error) then mkDetails None fallbackMessage
        else mkDetails (or_undefined (get error (js "code")))
               (or_else (get error (js "message")) fallbackMessage)
    end.

(** [None]: it throws. *)
Definition parseStreamMessageUpdates (data : jsstr) : option (list StreamMessageUpdate) :=
  match JSON_parse data with
  | None => None
  | Some chunk =>
      match access chunk (js "choices") with
      | None => None
      | Some choices =>
          let delta := get (first choices) (js "delta") in
          Some (if negb (value_truthy delta) then []
                else
                  let r := get delta (js "reasoning_content") in
                  let c := get delta (js "content") in
                  (if value_truthy r then [mkUpdate UReasoning r] else []) ++
                  (if value_truthy c then [mkUpdate UContent c] else []))
      end
  end.

Definition isStreamDoneMessage (data : jsstr) : bool := streq data STREAM_DONE_MESSAGE.

(** [readyState] and [status] are [undefined] when [None]. *)
Definition getStreamReadyStateError (eventReadyState : option Z) (status : option Z) :
    option jsstr :=
  match eventReadyState with
  | Some r =>
      if 2 <=? r then
        match status with
        | Some s =>
            if negb (s =? 0) && negb (s =? 200)
            then Some (js "HTTP " ++ show_Z s ++ js ": " ++ CONNECTION_CLOSED)
            else Some CONNECTION_CLOSED
        | None => Some CONNECTION_CLOSED
        end
      else None
  | None => None
  end.

(** request-error-utils.ts *)
Definition parseRequestErrorDetails (error : value) : StreamErrorDetails :=
  let data := get (get error (js "response")) (js "data") in
  mkDetails (or_undefined (get (get data (js "error")) (js "code")))
    (or_else (get (get data (js "error")) (js "message"))
      (or_else (get data (js "message"))
        (or_else (get error (js "message")) (Str API_REQUEST_ERROR)))).

(** ** State and effects *)

(** Sources and requests are numbered in the order they are made; a request's number is
    its generation. *)
Record SourceInfo := mkSource { s_generation : nat; s_completed : bool; s_closed : bool }.

Inductive Effect :=
| SetStreaming (b : bool)
| CloseSource (id : nat)
| StartSource (id : nat)
| OnUpdate (generation : nat) (u : StreamMessageUpdate)
| OnComplete (generation : nat)
| OnError (generation : nat) (message : value) (code : option value).

Record Ctl := mkCtl {
  source : option nat;
  generation : nat;
  awaiting : list nat;          (* generations whose headers are being fetched *)
  sources : list SourceInfo;
  streaming : bool;             (* the last value given to [setStreaming] *)
  trace : list Effect
}.

Definition init : Ctl := mkCtl None 0 [] [] false [].

Definition emit (es : list Effect) (c : Ctl) : Ctl :=
  mkCtl (source c) (generation c) (awaiting c) (sources c)  (streaming c) (trace c ++ es).

Definition setStreaming (b : bool) (c : Ctl) : Ctl :=
  mkCtl (source c) (generation c) (awaiting c) (sources c) b (trace c ++ [SetStreaming b]).

Definition set_source (s : option nat) (c : Ctl) : Ctl :=
  mkCtl s (generation c) (awaiting c) (sources c) (streaming c) (trace c).

Definition set_generation (g : nat) (c : Ctl) : Ctl :=
  mkCtl (source c) g (awaiting c) (sources c) (streaming c) (trace c).

Definition set_awaiting (l : list nat) (c : Ctl) : Ctl :=
  mkCtl (source c) (generation c) l (sources c) (streaming c) (trace c).

Definition mark_closed (s : SourceInfo) : SourceInfo := mkSource (s_generation s) (s_completed s) true.
Definition mark_completed (s : SourceInfo) : SourceInfo := mkSource (s_generation s) true (s_closed s).

Definition update_source (f : SourceInfo → SourceInfo) (id : nat) (c : Ctl) : Ctl :=
  mkCtl (source c) (generation c) (awaiting c) (alter f id (sources c)) (streaming c) (trace c).

(** [target.close()] *)
Definition close (id : nat) (c : Ctl) : Ctl := emit [CloseSource id] (update_source mark_closed id c).

Definition close_opt (id : option nat) (c : Ctl) : Ctl :=
  match id with Some i => close i c | None => c end.

Definition closeActiveSource (target : nat) (c : Ctl) : Ctl :=
  let c1 := close target c in
  if bool_decide (source c1 = Some target) then setStreaming false (set_source None c1) else c1.

(** [send] up to [await runtime.getHeaders()]. *)
Definition send (c : Ctl) : Ctl :=
  let requestGeneration := S (generation c) in
  let previousSource := source c in
  let c1 := set_source None (set_generation requestGeneration c) in
  let c2 := setStreaming false (close_opt previousSource c1) in
  set_awaiting (awaiting c2 ++ [requestGeneration]) c2.

(** [isCurrent() && !completed] of the source [id]. *)
Definition live (id : nat) (s : SourceInfo) (c : Ctl) : bool :=
  (generation c =? s_generation s)%nat && bool_decide (source c = Some id) && negb (s_completed s).

Definition handleError (id : nat) (message : value) (code : option value) (c : Ctl) : Ctl :=
  match sources c !! id with
  | Some s =>
      if negb (live id s c) then c
      else
        closeActiveSource id
          (emit [OnError (s_generation s) message code] (update_source mark_completed id c))
  | None => c
  end.

(** How the fetch of the headers ended, and what [createSource] and [stream] then do. *)
Inductive HeadersOutcome :=
| HeadersFailed (message : option jsstr)    (* an [Error]'s message, or another value *)
| CreateFails
| Created (stream_throws : bool).

(** The rest of [send] for the request [g]. *)
Definition resume_send (g : nat) (o : HeadersOutcome) (c0 : Ctl) : Ctl :=
  let c := set_awaiting (List.filter (λ g', negb (g' =? g)%nat) (awaiting c0)) c0 in
  match o with
  | HeadersFailed message =>
      if negb (generation c =? g)%nat then c
      else emit [OnError g (Str (default STREAM_START_ERROR message)) None] c
  | CreateFails =>
      if negb (generation c =? g)%nat then c
      else emit [OnError g (Str STREAM_START_ERROR) None] c
  | Created stream_throws =>
      if negb (generation c =? g)%nat then c
      else
        let id := length (sources c) in
        let c1 := mkCtl (Some id) (generation c) (awaiting c)
                    (sources c ++ [mkSource g false false]) (streaming c) (trace c) in
        let c2 := setStreaming true c1 in
        if stream_throws then handleError id (Str STREAM_START_ERROR) None c2
        else emit [StartSource id] c2
  end.

(** The listener of [message]. *)
Definition on_message (id : nat) (data : option jsstr) (c : Ctl) : Ctl :=
  match sources c !! id with
  | None => c
  | Some s =>
      if negb (live id s c) then c
      else
        let d := default [] data in
        if isStreamDoneMessage d then
          emit [OnComplete (s_generation s)]
            (closeActiveSource id (update_source mark_completed id c))
        else
          match JSON_parse d with
          | None => handleError id (Str PARSE_ERROR) None c
          | Some parsed =>
              if value_truthy (get parsed (js "error")) then
                let det := parseStreamErrorDetails (Some d) in
                handleError id (errorMessage det) (errorCode det) c
              else
                match parseStreamMessageUpdates d with
                | Some updates => emit (map (OnUpdate (s_generation s)) updates) c
                | None => handleError id (Str PARSE_ERROR) None c
                end
          end
  end.

(** The listener of [error]. *)
Definition on_error (id : nat) (data : option jsstr) (c : Ctl) : Ctl :=
  match sources c !! id with
  | None => c
  | Some s =>
      if negb (live id s c) then c
      else
        let det := parseStreamErrorDetails data in
        handleError id (errorMessage det) (errorCode det) c
  end.

(** The listener of [readystatechange]. *)
Definition on_readystatechange (id : nat) (readyState status : option Z) (c : Ctl) : Ctl :=
  match sources c !! id with
  | None => c
  | Some s =>
      if negb (live id s c) then c
      else
        match getStreamReadyStateError readyState status with
        | Some message => if truthy message then handleError id (Str message) None c else c
        | None => c
        end
  end.

Definition cancel (notify : bool) (c : Ctl) : Ctl :=
  let activeSource := source c in
  let c1 := close_opt activeSource (set_source None (set_generation (S (generation c)) c)) in
  if notify then setStreaming false c1 else c1.

Definition stop : Ctl → Ctl := cancel true.
Definition dispose : Ctl → Ctl := cancel false.

Inductive Event :=
| ESend
| EHeaders (g : nat) (o : HeadersOutcome)
| EMessage (id : nat) (data : option jsstr)
| EError (id : nat) (data : option jsstr)
| EReadyState (id : nat) (readyState status : option Z)
| EStop
| EDispose.

(** One event; the continuation of a send runs once, while its headers are awaited. *)
Inductive step : Ctl → Event → Ctl → Prop :=
| step_send c : step c ESend (send c)
| step_headers c g o : g ∈ awaiting c → step c (EHeaders g o) (resume_send g o c)
| step_message c id data : step c (EMessage id data) (on_message id data c)
| step_error c id data : step c (EError id data) (on_error id data c)
| step_ready c id r st : step c (EReadyState id r st) (on_readystatechange id r st c)
| step_stop c : step c EStop (stop c)
| step_dispose c : step c EDispose (dispose c).

Inductive steps : Ctl → list Event → Ctl → Prop :=
| steps_refl c : steps c [] c
| steps_cons c e c' es c'' : step c e c' → steps c' es c'' → steps c (e :: es) c''.

End parsing.

(** ** The invariant *)

(** The request a callback belongs to, and whether it is that request's last one. *)
Definition cb_generation (e : Effect) : option nat :=
  match e with
  | OnUpdate g _ | OnComplete g | OnError g _ _ => Some g
  | _ => None
  end.

Definition terminal (e : Effect) : bool :=
  match e with OnComplete _ | OnError _ _ _ => true | _ => false end.

(** A callback may come after another one of an older request, or of the same request
    when that one was not its last. *)
Definition cb_before (e1 e2 : Effect) : Prop :=
  match cb_generation e1, cb_generation e2 with
  | Some g1, Some g2 => (g1 < g2)%nat ∨ (g1 = g2 ∧ terminal e1 = false)
  | _, _ => True
  end.

Record Inv (c : Ctl) : Prop := {
  inv_source : ∀ id s, sources c !! id = Some s →
    (s_generation s ≤ generation c)%nat ∧
    if decide (source c = Some id)
    then s_generation s = generation c ∧ s_completed s = false ∧ s_closed s = false
    else s_closed s = true;
  inv_current : ∀ id, source c = Some id →
    is_Some (sources c !! id) ∧ streaming c = true ∧ generation c ∉ awaiting c;
  inv_awaiting : ∀ g, g ∈ awaiting c → (g ≤ generation c)%nat;
  inv_trace : StronglySorted cb_before (trace c);
  inv_callbacks : ∀ e g, e ∈ trace c → cb_generation e = Some g →
    (g ≤ generation c)%nat ∧
    (terminal e = true → g = generation c → source c = None ∧ g ∉ awaiting c)
}.

Lemma StronglySorted_snoc {A} (R : A → A → Prop) l x :
  StronglySorted R l → Forall (λ y, R y x) l → StronglySorted R (l ++ [x]).
Proof.
  induction 1 as [|y l Hl IH Hy]; intros Hx; simpl; [by repeat constructor|].
  apply Forall_cons in Hx as [Hyx Hx]. constructor; [auto|].
  apply Forall_app. split; [done|by repeat constructor].
Qed.

Lemma inv_init : Inv init.
Proof. constructor; simpl; try done; try set_solver. constructor. Qed.

(** A silent effect. *)
Lemma inv_emit_silent c e : cb_generation e = None → Inv c → Inv (emit [e] c).
Proof.
  intros He [H1 H2 H3 H4 H5]. constructor; simpl; try done.
  - apply StronglySorted_snoc; [done|]. apply Forall_forall. intros x _. unfold cb_before.
    rewrite He. by destruct (cb_generation x).
  - intros x g [Hx| ->%list_elem_of_singleton]%elem_of_app Hg; [by apply (H5 x)|congruence].
Qed.

(** A callback of the current request while it is under way. *)
Lemma callback_ordered c e :
  cb_generation e = Some (generation c) → source c ≠ None ∨ generation c ∈ awaiting c →
  Inv c → StronglySorted cb_before (trace c ++ [e]).
Proof.
  intros He Hlive [_ _ _ H4 H5]. apply StronglySorted_snoc; [done|]. apply Forall_forall.
  intros x Hx. unfold cb_before. rewrite He. destruct (cb_generation x) as [g|] eqn:Eg; [|done].
  destruct (H5 x g Hx Eg) as [Hle Ht]. destruct (decide (g = generation c)) as [->|]; [|left; lia].
  right. split; [done|]. destruct (terminal x); [|done]. destruct (Ht eq_refl eq_refl) as [? ?].
  by destruct Hlive.
Qed.

Lemma inv_update c g u :
  g = generation c → source c ≠ None → Inv c → Inv (emit [OnUpdate g u] c).
Proof.
  intros -> Hs Hc. pose proof (callback_ordered c (OnUpdate (generation c) u) eq_refl
    (or_introl Hs) Hc). destruct Hc as [H1 H2 H3 H4 H5]. constructor; simpl; try done.
  intros x g [Hx| ->%list_elem_of_singleton]%elem_of_app Hg; [by apply (H5 x)|].
  simpl in Hg. injection Hg as <-. split; [lia|done].
Qed.

Lemma inv_updates c g us :
  g = generation c → source c ≠ None → Inv c → Inv (emit (map (OnUpdate g) us) c).
Proof.
  intros -> Hs Hc. induction us as [|u us IH] using rev_ind.
  - simpl. unfold emit. rewrite app_nil_r. by destruct c.
  - rewrite map_app. simpl. eapply inv_update in IH; [|done..].
    unfold emit in *. simpl in IH. by rewrite <-app_assoc in IH.
Qed.

(** Advancing the generation and closing the current source. *)
Lemma inv_invalidate c :
  Inv c →
  Inv (close_opt (source c) (set_source None (set_generation (S (generation c)) c))).
Proof.
  intros Hc. destruct (source c) as [id|] eqn:Es; simpl.
  - apply inv_emit_silent; [done|]. destruct Hc as [H1 H2 H3 H4 H5].
    constructor; simpl; try done.
    + intros i s. rewrite Es in H1. destruct (decide (i = id)) as [->|Hne].
      * rewrite list_lookup_alter_eq. destruct (sources c !! id) as [s'|] eqn:E; [|done].
        intros [= <-]. simpl. specialize (H1 _ _ E). split; [lia|done].
      * rewrite list_lookup_alter_ne by done. intros Hi. specialize (H1 _ _ Hi).
        rewrite decide_False in H1 by congruence. split; [lia|naive_solver].
    + intros g Hg. specialize (H3 g Hg). lia.
    + intros e g He Hg. destruct (H5 e g He Hg) as [? _]. split; [lia|]. intros _ ->. lia.
  - destruct Hc as [H1 H2 H3 H4 H5]. constructor; simpl; try done.
    + intros i s Hi. specialize (H1 _ _ Hi). rewrite Es in H1. simpl in H1.
      split; [lia|naive_solver].
    + intros g Hg. specialize (H3 g Hg). lia.
    + intros e g He Hg. destruct (H5 e g He Hg) as [? _]. split; [lia|]. intros _ ->. lia.
Qed.

Lemma inv_setStreaming_false c : source c = None → Inv c → Inv (setStreaming false c).
Proof.
  intros Hs Hc. apply (inv_emit_silent _ (SetStreaming false)) in Hc; [|done].
  destruct Hc as [H1 H2 H3 H4 H5]. constructor; simpl in *; try done. congruence.
Qed.

Lemma close_opt_source id c : source (close_opt id c) = source c.
Proof. by destruct id. Qed.

Lemma inv_send c : Inv c → Inv (send c).
Proof.
  intros Hc. unfold send. cbv zeta.
  assert (Inv (setStreaming false (close_opt (source c)
    (set_source None (set_generation (S (generation c)) c))))) as Hi.
  { apply inv_setStreaming_false; [by rewrite close_opt_source|by apply inv_invalidate]. }
  assert (source (close_opt (source c) (set_source None (set_generation (S (generation c)) c))) =
    None) as Hs by by rewrite close_opt_source.
  assert (generation (close_opt (source c) (set_source None (set_generation (S (generation c)) c))) =
    S (generation c)) as Hg by by destruct (source c).
  assert (trace (close_opt (source c) (set_source None (set_generation (S (generation c)) c))) =
    trace c ++ match source c with Some i => [CloseSource i] | None => [] end) as Ht.
  { destruct (source c); simpl; [done|]. by rewrite app_nil_r. }
  destruct Hi as [H1 H2 H3 H4 H5]. constructor; simpl in *; rewrite ?Hs, ?Hg in *; try done.
  - intros g [?|?%list_elem_of_singleton]%elem_of_app; [auto|lia].
  - intros e g He Hcb. destruct (H5 e g He Hcb) as [? Hx]. split; [done|].
    intros Hte ->. exfalso. rewrite Ht in He.
    assert (e ∈ trace c) as Hec by (destruct (source c); set_solver).
    pose proof (inv_callbacks _ Hc e _ Hec Hcb). lia.
Qed.

Lemma inv_cancel b c : Inv c → Inv (cancel b c).
Proof.
  intros Hc. unfold cancel. cbv zeta. apply inv_invalidate in Hc. destruct b; [|done].
  apply inv_setStreaming_false; [by rewrite close_opt_source|done].
Qed.

(** Completing the current source: its last callback, before or after it is closed. *)
Definition finish (id : nat) (c : Ctl) : Ctl := closeActiveSource id (update_source mark_completed id c).

Lemma live_spec id s c :
  live id s c = true ↔
  generation c = s_generation s ∧ source c = Some id ∧ s_completed s = false.
Proof.
  unfold live. rewrite !andb_true_iff, Nat.eqb_eq, bool_decide_eq_true, negb_true_iff. tauto.
Qed.

Lemma closeActive_current id c :
  source c = Some id →
  closeActiveSource id c =
  mkCtl None (generation c) (awaiting c) (alter mark_closed id (sources c)) false
    (trace c ++ [CloseSource id; SetStreaming false]).
Proof.
  intros Hs. unfold closeActiveSource. simpl. rewrite bool_decide_eq_true_2 by done.
  unfold setStreaming, set_source. simpl. by rewrite <-app_assoc.
Qed.

(** The source is gone, and the request's last callback, [e], was made on the way:
    [pre] and [post] are the silent effects around it. *)
Lemma inv_finish c id e pre post st :
  source c = Some id → cb_generation e = Some (generation c) → terminal e = true →
  Forall (λ x, cb_generation x = None) pre → Forall (λ x, cb_generation x = None) post →
  Inv c →
  Inv (mkCtl None (generation c) (awaiting c) (alter mark_closed id (alter mark_completed id (sources c)))
    st (trace c ++ pre ++ [e] ++ post)).
Proof.
  intros Hs Hg Ht Hpre Hpost Hc.
  destruct (inv_current _ Hc id Hs) as (_ & _ & Hna).
  assert (∀ l c', Forall (λ x, cb_generation x = None) l → Inv c' → Inv (emit l c')) as Hsil.
  { intros l. induction l as [|x l IH] using rev_ind; intros c' Hl Hc'.
    - unfold emit. rewrite app_nil_r. by destruct c'.
    - apply Forall_app in Hl as [Hl Hx]. apply Forall_cons in Hx as [Hx _].
      specialize (IH c' Hl Hc'). eapply inv_emit_silent in IH; [|done].
      unfold emit in *. simpl in IH. by rewrite <-app_assoc in IH. }
  pose proof (Hsil pre c Hpre Hc) as Hc1.
  assert (source (emit pre c) ≠ None) as Hlive by (simpl; congruence).
  pose proof (callback_ordered (emit pre c) e Hg (or_introl Hlive) Hc1) as Hord.
  set (c2 := mkCtl None (generation c) (awaiting c)
    (alter mark_closed id (alter mark_completed id (sources c))) st ((trace c ++ pre) ++ [e])).
  assert (Inv c2) as Hc2.
  { destruct Hc1 as [H1 H2 H3 H4 H5]. constructor; simpl in *; try done.
    - intros i s. destruct (decide (i = id)) as [->|Hne].
      + rewrite !list_lookup_alter_eq. destruct (sources c !! id) as [s'|] eqn:E; [|done].
        intros [= <-]. simpl. specialize (H1 _ _ E). split; [lia|done].
      + rewrite !list_lookup_alter_ne by done. intros Hi. specialize (H1 _ _ Hi).
        rewrite decide_False in H1 by congruence. naive_solver.
    - intros x g [Hx| ->%list_elem_of_singleton]%elem_of_app Hxg.
      + destruct (H5 x g Hx Hxg) as [? Hz]. split; [done|]. intros Hte ->.
        destruct (Hz Hte eq_refl). congruence.
      + rewrite Hg in Hxg. injection Hxg as <-. split; [lia|done]. }
  apply (Hsil post) in Hc2; [|done]. unfold emit in Hc2. simpl in Hc2.
  by rewrite <-!app_assoc in Hc2.
Qed.

Lemma inv_handleError id m code c : Inv c → Inv (handleError id m code c).
Proof.
  intros Hc. unfold handleError. destruct (sources c !! id) as [s|] eqn:E; [|done].
  destruct (live id s c) eqn:El; simpl; [|done].
  apply live_spec in El as (Hg & Hs & Hcomp). rewrite closeActive_current by done. simpl.
  rewrite <-app_assoc. apply (inv_finish c id (OnError (s_generation s) m code) []
    [CloseSource id; SetStreaming false]); simpl; try done; [congruence|by repeat constructor].
Qed.

Lemma inv_resume g o c : g ∈ awaiting c → Inv c → Inv (resume_send g o c).
Proof.
  intros Hg Hc. unfold resume_send. set (c0 := set_awaiting _ c).
  assert (∀ g', g' ∈ awaiting c0 ↔ g' ∈ awaiting c ∧ g' ≠ g) as Haw.
  { intros g'. unfold c0. simpl. rewrite list_elem_of_In, filter_In, <-list_elem_of_In.
    rewrite negb_true_iff, Nat.eqb_neq. tauto. }
  assert (Inv c0) as Hc0.
  { destruct Hc as [H1 H2 H3 H4 H5]. constructor; try done.
    - intros id Hid. destruct (H2 id Hid) as (? & ? & Hn). split_and!; [done..|].
      rewrite Haw. tauto.
    - intros g' [? _]%Haw. by apply H3.
    - intros e g' He Hcb. destruct (H5 e g' He Hcb) as [? Ht]. split; [done|].
      intros Hte Heq. destruct (Ht Hte Heq). split; [done|]. rewrite Haw. tauto. }
  assert (∀ m code, generation c = g → Inv (emit [OnError g m code] c0)) as Herr.
  { intros m code <-. assert (source c = None) as Hsn.
    { destruct (source c) as [id|] eqn:E; [|done]. by destruct (inv_current _ Hc id E) as (_ & _ & ?). }
    pose proof (callback_ordered c (OnError (generation c) m code) eq_refl (or_intror Hg) Hc) as Ho.
    destruct Hc0 as [H1 H2 H3 H4 H5]. constructor; try done.
    intros x g' [Hx| ->%list_elem_of_singleton]%elem_of_app Hxg; [by apply (H5 x)|].
    injection Hxg as <-. split; [done|]. intros _ _. split; [done|]. rewrite Haw. tauto. }
  destruct o as [m| |throws].
  1-2: destruct (Nat.eqb_spec (generation c0) g) as [Heq|]; [by apply Herr|done].
  destruct (Nat.eqb_spec (generation c0) g) as [Heq|]; simpl negb; cbv iota; [|done].
  change (generation c0) with (generation c) in Heq. subst g.
  assert (source c = None) as Hsn.
  { destruct (source c) as [id|] eqn:E; [|done]. by destruct (inv_current _ Hc id E) as (_ & _ & ?). }
  set (c2 := setStreaming true _).
  assert (Inv c2) as Hc2.
  { apply (inv_emit_silent _ (SetStreaming true)) in Hc0; [|done].
    destruct Hc0 as [H1 H2 H3 H4 H5]. constructor; try done.
    - intros i s. simpl. rewrite lookup_app. simpl in H1. specialize (H1 i).
      destruct (sources c !! i) as [s'|] eqn:E.
      + intros [= ->]. destruct (H1 s eq_refl) as [? Hx]. split; [done|].
        rewrite Hsn in Hx. simpl in Hx.
        rewrite decide_False; [done|]. apply lookup_lt_Some in E. intros [= <-]. lia.
      + intros Hs. apply list_lookup_singleton_Some in Hs as [Hi <-]. simpl.
        apply lookup_ge_None in E. split; [done|]. rewrite decide_True; [done|]. f_equal. lia.
    - intros id [= <-]. split_and!; [simpl|done|].
      2: { change (generation c ∉ awaiting c0). rewrite Haw. tauto. }
      rewrite lookup_app_r by lia. rewrite Nat.sub_diag. by eexists.
    - intros e g' He Hcb. simpl in *. destruct (H5 e g' He Hcb) as [Hle Ht]. split; [done|].
      intros Hte ->. exfalso.
      apply elem_of_app in He as [He|He]; [|by apply list_elem_of_singleton in He as ->].
      destruct (inv_callbacks _ Hc e _ He Hcb) as [_ Hz]. by destruct (Hz Hte eq_refl). }
  destruct throws; [by apply inv_handleError|]. by apply inv_emit_silent.
Qed.

Section run.
Context (JSON_parse : jsstr → option value).

Lemma inv_message id data c : Inv c → Inv (on_message JSON_parse id data c).
Proof.
  intros Hc. unfold on_message. destruct (sources c !! id) as [s|] eqn:E; [|done].
  destruct (live id s c) eqn:El; cbn [negb]; [|done].
  apply live_spec in El as (Hg & Hs & Hcomp). cbv zeta.
  destruct (isStreamDoneMessage _).
  - rewrite closeActive_current by done. unfold emit. simpl. rewrite <-app_assoc.
    apply (inv_finish c id (OnComplete (s_generation s)) [CloseSource id; SetStreaming false] []);
      simpl; try done; [congruence|by repeat constructor].
  - destruct (JSON_parse _) as [v|]; [|by apply inv_handleError].
    destruct (value_truthy _); [by apply inv_handleError|].
    destruct (parseStreamMessageUpdates _ _); [|by apply inv_handleError].
    apply inv_updates; [done|congruence|done].
Qed.

Lemma inv_step c e c' : step JSON_parse c e c' → Inv c → Inv c'.
Proof.
  destruct 1; intros Hc.
  - by apply inv_send.
  - by apply inv_resume.
  - by apply inv_message.
  - unfold on_error. repeat (case_match; try done). by apply inv_handleError.
  - unfold on_readystatechange. repeat (case_match; try done). by apply inv_handleError.
  - by apply inv_cancel.
  - by apply inv_cancel.
Qed.

Lemma inv_steps c es c' : steps JSON_parse c es c' → Inv c → Inv c'.
Proof. induction 1; eauto using inv_step. Qed.

(** ** Growth of the trace *)

(** What one event adds to the trace, and that it concerns the current request. *)
Definition extends (c c' : Ctl) : Prop :=
  (generation c ≤ generation c')%nat ∧
  ∃ l, trace c' = trace c ++ l ∧
    Forall (λ e, ∀ g, cb_generation e = Some g → (generation c ≤ g)%nat) l.

Lemma extends_refl c : extends c c.
Proof. split; [lia|]. exists []. by rewrite app_nil_r. Qed.

Lemma extends_trans c1 c2 c3 : extends c1 c2 → extends c2 c3 → extends c1 c3.
Proof.
  intros [H1 (l & Hl & Hf)] [H2 (l' & Hl' & Hf')]. split; [lia|].
  exists (l ++ l'). split; [by rewrite Hl', Hl, app_assoc|]. apply Forall_app. split; [done|].
  eapply Forall_impl; [exact Hf'|]. intros e He g Hg. specialize (He g Hg). lia.
Qed.

Lemma extends_app c c' l :
  (generation c ≤ generation c')%nat → trace c' = trace c ++ l →
  Forall (λ e, ∀ g, cb_generation e = Some g → (generation c ≤ g)%nat) l → extends c c'.
Proof. intros. split; [done|]. by exists l. Qed.

Lemma extends_handleError id m code c : extends c (handleError id m code c).
Proof.
  unfold handleError. destruct (sources c !! id) as [s|] eqn:E; [|apply extends_refl].
  destruct (live id s c) eqn:El; simpl; [|apply extends_refl].
  apply live_spec in El as (Hg & Hs & Hcomp). rewrite closeActive_current by done.
  eapply extends_app; simpl; [done|by rewrite <-app_assoc|].
  repeat constructor; simpl; try done. intros g [= <-]. lia.
Qed.

Lemma extends_invalidate c :
  extends c (close_opt (source c) (set_source None (set_generation (S (generation c)) c))).
Proof.
  destruct (source c) as [id|]; simpl.
  - apply (extends_app _ _ [CloseSource id]); simpl; [lia|done|by repeat constructor].
  - apply (extends_app _ _ []); simpl; [lia|by rewrite app_nil_r|done].
Qed.

Lemma extends_emit c c' es :
  generation c' = generation c → trace c' = trace c ++ es →
  Forall (λ e, ∀ g, cb_generation e = Some g → g = generation c) es → extends c c'.
Proof.
  intros Hg Ht He. apply (extends_app _ _ es); [lia|done|].
  eapply Forall_impl; [done|]. intros e H g Heq. specialize (H g Heq). lia.
Qed.

Lemma extends_resume g o c : extends c (resume_send g o c).
Proof.
  assert (∀ m, generation c = g → extends c (emit [OnError g m None] (set_awaiting
    (List.filter (λ g', negb (g' =? g)%nat) (awaiting c)) c))) as Herr.
  { intros m Hg. apply (extends_emit _ _ [OnError g m None]); [done..|].
    repeat constructor. intros g' [= <-]. done. }
  assert (extends c (set_awaiting (List.filter (λ g', negb (g' =? g)%nat) (awaiting c)) c)) as Haw.
  { apply (extends_emit _ _ []); [done|by rewrite app_nil_r|done]. }
  unfold resume_send. cbn [generation set_awaiting].
  destruct o as [m| |throws]; destruct (Nat.eqb_spec (generation c) g); simpl negb; cbv iota; auto.
  destruct throws.
  - eapply extends_trans; [|apply extends_handleError].
    apply (extends_emit _ _ [SetStreaming true]); [done|done|by repeat constructor].
  - apply (extends_emit _ _ [SetStreaming true; StartSource (length (sources c))]); [done| |].
    + simpl. by rewrite <-app_assoc.
    + by repeat constructor.
Qed.

Lemma extends_message id data c : extends c (on_message JSON_parse id data c).
Proof.
  unfold on_message. destruct (sources c !! id) as [s|]; [|apply extends_refl].
  destruct (live id s c) eqn:El; simpl negb; cbv iota; [|apply extends_refl].
  apply live_spec in El as (Hg & Hs & Hcomp). cbv zeta. destruct (isStreamDoneMessage _).
  - rewrite closeActive_current by done. eapply extends_emit; simpl; [done|by rewrite <-app_assoc|].
    repeat constructor; simpl; try done. intros g [= <-]. done.
  - destruct (JSON_parse _); [|apply extends_handleError].
    destruct (value_truthy _); [apply extends_handleError|].
    destruct (parseStreamMessageUpdates _ _) as [us|]; [|apply extends_handleError].
    apply (extends_emit _ _ (map (OnUpdate (s_generation s)) us)); [done..|].
    apply Forall_map. apply Forall_true. intros u g [= <-]. done.
Qed.

Lemma extends_step c e c' : step JSON_parse c e c' → extends c c'.
Proof.
  destruct 1.
  - eapply extends_trans; [apply extends_invalidate|].
    apply (extends_emit _ _ [SetStreaming false]); [done|done|by repeat constructor].
  - apply extends_resume.
  - apply extends_message.
  - unfold on_error. repeat (case_match; try apply extends_refl). apply extends_handleError.
  - unfold on_readystatechange. repeat (case_match; try apply extends_refl).
    apply extends_handleError.
  - eapply extends_trans; [apply extends_invalidate|].
    apply (extends_emit _ _ [SetStreaming false]); [done|done|by repeat constructor].
  - apply extends_invalidate.
Qed.

Lemma extends_steps c es c' : steps JSON_parse c es c' → extends c c'.
Proof. induction 1; eauto using extends_refl, extends_trans, extends_step. Qed.

Lemma cancel_generation b c : generation (cancel b c) = S (generation c).
Proof. unfold cancel. by destruct (source c), b. Qed.

Lemma send_generation c : generation (send c) = S (generation c).
Proof. unfold send. by destruct (source c). Qed.
End run.

(** ** A whole stream *)

(** [c] has the live source [id] of its current request. *)
Definition streaming_from (c : Ctl) (id : nat) : Prop :=
  source c = Some id ∧ sources c !! id = Some (mkSource (generation c) false false).

Lemma message_updates JSON_parse c id data v us :
  streaming_from c id →
  isStreamDoneMessage data = false → JSON_parse data = Some v →
  value_truthy (get v (js "error")) = false →
  parseStreamMessageUpdates JSON_parse data = Some us →
  on_message JSON_parse id (Some data) c = emit (map (OnUpdate (generation c)) us) c.
Proof.
  intros [Hs Hi] Hd Hp He Hu. unfold on_message. rewrite Hi.
  assert (live id (mkSource (generation c) false false) c = true) as -> by by apply live_spec.
  cbn [negb s_generation]. change (default [] (Some data)) with data. cbv zeta. by rewrite Hd, Hp, He, Hu.
Qed.

(** A message the server streams: its text and the updates it carries. *)
Definition carries (JSON_parse : jsstr → option value) (d : jsstr * list StreamMessageUpdate) : Prop :=
  isStreamDoneMessage d.1 = false ∧
  (∃ v, JSON_parse d.1 = Some v ∧ value_truthy (get v (js "error")) = false) ∧
  parseStreamMessageUpdates JSON_parse d.1 = Some d.2.

Lemma messages_delivered JSON_parse id ds c :
  Forall (carries JSON_parse) ds → streaming_from c id →
  foldl (λ c d, on_message JSON_parse id (Some d.1) c) c ds =
  emit (map (OnUpdate (generation c)) (concat (map snd ds))) c.
Proof.
  intros Hds. revert c. induction Hds as [|d ds (Hd & (v & Hv & He) & Hu) _ IH]; intros c Hc.
  - simpl. unfold emit. rewrite app_nil_r. by destruct c.
  - simpl. rewrite (message_updates _ c id d.1 v d.2) by done. rewrite IH by done.
    unfold emit. simpl. by rewrite map_app, app_assoc.
Qed.

Lemma created_streaming c :
  let c' := resume_send (S (generation c)) (Created false) (send c) in
  streaming_from c' (length (sources c)) ∧ generation c' = S (generation c) ∧
  ∃ silent, trace c' = trace c ++ silent ∧ Forall (λ e, cb_generation e = None) silent.
Proof.
  cbv zeta. pose proof (send_generation c) as Hsg. unfold resume_send.
  cbn [generation set_awaiting sources streaming trace awaiting]. rewrite Hsg, Nat.eqb_refl.
  cbn [negb].
  assert (length (sources (send c)) = length (sources c)) as Hl.
  { unfold send. destruct (source c); simpl; [by rewrite length_alter|done]. }
  unfold streaming_from. cbn [emit setStreaming source sources generation trace].
  rewrite ?Hsg, Hl. split_and!; [done| |done|].
  - rewrite lookup_app_r by lia. by rewrite Hl, Nat.sub_diag.
  - unfold send. destruct (source c); simpl; rewrite <-!app_assoc; simpl;
      (eexists; split; [done|by repeat constructor]).
Qed.

(** ** Properties *)

(** [C6] Callbacks of a stream, in every interleaving of sends, header fetches, source
    events, stops and disposals: they come in the order of the requests, each request
    gets at most one completion or error, and nothing after it. *)
Theorem callbacks_ordered (JSON_parse : jsstr → option value) (es : list Event) (c : Ctl) :
  steps JSON_parse init es c → StronglySorted cb_before (trace c).
Proof. intros Hs. apply (inv_steps _ _ _ _ Hs inv_init). Qed.

Definition no_json : jsstr → option value := λ _, None.

Lemma done_steps : steps no_json init
  [ESend; EHeaders 1 (Created false); EMessage 0 (Some STREAM_DONE_MESSAGE); EError 0 None]
  (on_error no_json 0 None (on_message no_json 0 (Some STREAM_DONE_MESSAGE)
    (resume_send 1 (Created false) (send init)))).
Proof.
  econstructor; [constructor|]. econstructor; [constructor; by apply (bool_decide_unpack _)|].
  econstructor; [constructor|]. econstructor; [constructor|]. constructor.
Qed.

Lemma callbacks_ordered_witness :
  StronglySorted cb_before (trace (on_error no_json 0 None
    (on_message no_json 0 (Some STREAM_DONE_MESSAGE)
      (resume_send 1 (Created false) (send init))))).
Proof. apply (callbacks_ordered no_json _ _ done_steps). Defined.

(** A request that was stopped, disposed of or replaced by a newer one stays silent:
    every callback made afterwards belongs to a later request. *)
Theorem cancelled_request_silent (JSON_parse : jsstr → option value) (c c1 c' : Ctl)
    (e : Event) (es : list Event) :
  e = ESend ∨ e = EStop ∨ e = EDispose →
  step JSON_parse c e c1 →
  steps JSON_parse c1 es c' →
  ∃ later, trace c' = trace c1 ++ later ∧
    Forall (λ x, ∀ g, cb_generation x = Some g → (generation c < g)%nat) later.
Proof.
  intros He Hst Hs. assert (generation c1 = S (generation c)) as Hg.
  { destruct He as [->|[->| ->]]; inversion Hst; subst;
      [apply send_generation|apply cancel_generation..]. }
  destruct (extends_steps _ _ _ _ Hs) as [_ (l & Hl & Hf)]. exists l. split; [done|].
  eapply Forall_impl; [done|]. intros x Hx g Hxg. specialize (Hx g Hxg). lia.
Qed.

Lemma cancelled_request_silent_witness :
  ∃ later, trace (on_message no_json 0 (Some STREAM_DONE_MESSAGE)
      (stop (resume_send 1 (Created false) (send init)))) =
    trace (stop (resume_send 1 (Created false) (send init))) ++ later ∧
    Forall (λ x, ∀ g, cb_generation x = Some g → (1 < g)%nat) later.
Proof.
  set (c := resume_send 1 (Created false) (send init)).
  apply (cancelled_request_silent no_json c (stop c) (on_message no_json 0
    (Some STREAM_DONE_MESSAGE) (stop c)) EStop [EMessage 0 (Some STREAM_DONE_MESSAGE)]).
  - by right; left.
  - constructor.
  - econstructor; [constructor|constructor].
Defined.

(** No source is leaked: at every point all event sources but the current one are
    closed; the current one, if any, is open, belongs to the latest request, has not
    completed, and the streaming flag is set. *)
Theorem one_open_source (JSON_parse : jsstr → option value) (es : list Event) (c : Ctl) :
  steps JSON_parse init es c →
  ∀ id s, sources c !! id = Some s →
    (s_closed s = false ↔ source c = Some id) ∧
    (source c = Some id →
       s_generation s = generation c ∧ s_completed s = false ∧ streaming c = true).
Proof.
  intros Hs id s Hid. pose proof (inv_steps _ _ _ _ Hs inv_init) as Hc.
  destruct (inv_source _ Hc id s Hid) as [_ Hx]. case_decide as Hd.
  - destruct Hx as (? & ? & ?). split; [done|]. intros _.
    by destruct (inv_current _ Hc id Hd) as (_ & ? & _).
  - split; [|done]. split; [congruence|done].
Qed.

Lemma one_open_source_witness :
  let c := on_error no_json 0 None (on_message no_json 0 (Some STREAM_DONE_MESSAGE)
    (resume_send 1 (Created false) (send init))) in
  (true = false ↔ source c = Some 0%nat).
Proof.
  cbv zeta. apply (proj1 (one_open_source no_json _ _ done_steps 0%nat
    (mkSource 1 true true) eq_refl)).
Defined.

(** [C7] A stream that runs undisturbed delivers everything: a request sent in any state,
    whose headers arrive and whose source sends messages and then the end marker, gets
    exactly the updates of these messages in order, then one completion, and leaves the
    controller without a source. *)
Theorem stream_delivers (JSON_parse : jsstr → option value) (c : Ctl)
    (ds : list (jsstr * list StreamMessageUpdate)) :
  Forall (carries JSON_parse) ds →
  let g := S (generation c) in
  let id := length (sources c) in
  let c1 := resume_send g (Created false) (send c) in
  let c2 := foldl (λ c d, on_message JSON_parse id (Some d.1) c) c1 ds in
  let c3 := on_message JSON_parse id (Some STREAM_DONE_MESSAGE) c2 in
  List.filter (λ e, bool_decide (is_Some (cb_generation e))) (trace c3) =
    List.filter (λ e, bool_decide (is_Some (cb_generation e))) (trace c) ++
    map (OnUpdate g) (concat (map snd ds)) ++ [OnComplete g] ∧
  source c3 = None ∧ streaming c3 = false.
Proof.
  intros Hds. cbv zeta. destruct (created_streaming c) as (Hst & Hg & silent & Ht & Hsil).
  rewrite messages_delivered by done. rewrite Hg. set (c1 := resume_send _ _ _) in *.
  destruct Hst as [Hs Hi]. unfold on_message. cbn [sources emit]. rewrite Hi.
  assert (live (length (sources c)) (mkSource (generation c1) false false)
    (emit (map (OnUpdate (S (generation c))) (concat (map snd ds))) c1) = true) as ->
    by by apply live_spec.
  cbn [negb]. cbv zeta. change (isStreamDoneMessage _) with true. cbv iota.
  rewrite closeActive_current by done. split; [|done]. cbn [trace emit update_source].
  rewrite Ht, !List.filter_app. cbn [List.filter]. rewrite Hg.
  assert (List.filter (λ e, bool_decide (is_Some (cb_generation e))) silent = []) as ->.
  { clear -Hsil. induction Hsil as [|x l Hx _ IH]; [done|]. cbn [List.filter]. rewrite Hx. done. }
  assert (∀ us, List.filter (λ e, bool_decide (is_Some (cb_generation e)))
    (map (OnUpdate (S (generation c))) us) = map (OnUpdate (S (generation c))) us) as ->.
  { induction us as [|u us IH]; [done|]. simpl. by rewrite IH. }
  simpl. by rewrite app_nil_r, <-!app_assoc.
Qed.

Lemma stream_delivers_witness :
  let data := js "hello" in
  let parse := λ s, if streq s data then Some (Obj [(js "choices",
    Arr [Obj [(js "delta", Obj [(js "content", Str (js "hi"))])]])]) else None in
  Forall (carries parse) [(data, [mkUpdate UContent (Str (js "hi"))])] ∧
  source (on_message parse 0 (Some STREAM_DONE_MESSAGE)
    (on_message parse 0 (Some data) (resume_send 1 (Created false) (send init)))) = None.
Proof.
  intros data parse.
  assert (Forall (carries parse) [(data, [mkUpdate UContent (Str (js "hi"))])]) as Hf.
  { constructor; [|constructor]. split_and!; [done| |done]. eexists. split; [done|done]. }
  split; [exact Hf|].
  exact (proj1 (proj2 (stream_delivers parse init [(data, [mkUpdate UContent (Str (js "hi"))])] Hf))).
Defined.

End Controller.
