(* ===== verification/ChatHandler.v ===== *)
(** * The chat handler
      (web/src/features/playground/hooks/use-chat-handler.ts)

    [useChatHandler] sends a conversation and folds what comes back into its last message.
    Its refs (request generation, pending chunks, flush timer, the latch that holds the
    resolver of the current request, the abort controller) are the fields of the state.
    [onMessageUpdate] hands React an updater that runs later: updaters are data here,
    queued in order, and one is evaluated by an event of its own, with the generation of
    that moment. The callbacks of a stream, the responses of plain requests, the timer
    and the user's actions are events in any order. *)
From S2P Require Import Prelude JsString JsValue Message Reasoning Streaming Payload Attachments.
Import Msg Reasoning Stream Payload Attachments.
Local Open Scope Z_scope.

Module Chat.

Record PendingStreamChunks := mkPendingChunks {
  pc_generation : nat; pc_content : jsstr; pc_reasoning : jsstr
}.

(** The updaters given to [onMessageUpdate], with what their closures hold. *)
Inductive Updater :=
| UFlush (reasoning content : jsstr)
| UComplete (generation : nat)
| UError (generation : nat) (displayError : jsstr) (errorCode : option jsstr) (title : jsstr)
| UResponse (generation : nat) (choices : list ChatCompletionChoice)
| UStop (idleGeneration : nat)
| USet (ms : list Message).           (* another [updateMessages] of the conversation *)

Inductive ChatEffect :=
| Toast (text : jsstr)
| KeyRejected
| StopStream
| SendStream (generation : nat) (payload : ChatCompletionRequest) (keyId : jsnum)
| PostChat (generation : nat) (payload : ChatCompletionRequest) (keyId : jsnum).

Record State := mkState {
  requestGeneration : nat;
  activeResult : option nat;        (* the promise whose resolver the latch holds *)
  nextResult : nat;
  pending : PendingStreamChunks;
  flushTimer : option nat;          (* the generation its callback flushes *)
  isRequesting : bool;
  abortController : option nat;     (* the request the controller belongs to *)
  aborted : list nat;
  messages : list Message;
  queue : list Updater;
  settled : list (nat * bool);
  effects : list ChatEffect
}.

Definition set_generation (g : nat) (s : State) : State :=
  mkState g (activeResult s) (nextResult s) (pending s) (flushTimer s) (isRequesting s)
    (abortController s) (aborted s) (messages s) (queue s) (settled s) (effects s).
Definition set_result (r : option nat) (n : nat) (l : list (nat * bool)) (s : State) : State :=
  mkState (requestGeneration s) r n (pending s) (flushTimer s) (isRequesting s)
    (abortController s) (aborted s) (messages s) (queue s) l (effects s).
Definition set_pending (p : PendingStreamChunks) (s : State) : State :=
  mkState (requestGeneration s) (activeResult s) (nextResult s) p (flushTimer s)
    (isRequesting s) (abortController s) (aborted s) (messages s) (queue s) (settled s) (effects s).
Definition set_timer (t : option nat) (s : State) : State :=
  mkState (requestGeneration s) (activeResult s) (nextResult s) (pending s) t
    (isRequesting s) (abortController s) (aborted s) (messages s) (queue s) (settled s) (effects s).
Definition setIsRequesting (b : bool) (s : State) : State :=
  mkState (requestGeneration s) (activeResult s) (nextResult s) (pending s) (flushTimer s) b
    (abortController s) (aborted s) (messages s) (queue s) (settled s) (effects s).
Definition set_abort (a : option nat) (l : list nat) (s : State) : State :=
  mkState (requestGeneration s) (activeResult s) (nextResult s) (pending s) (flushTimer s)
    (isRequesting s) a l (messages s) (queue s) (settled s) (effects s).
Definition set_messages (ms : list Message) (q : list Updater) (s : State) : State :=
  mkState (requestGeneration s) (activeResult s) (nextResult s) (pending s) (flushTimer s)
    (isRequesting s) (abortController s) (aborted s) ms q (settled s) (effects s).
Definition effect (e : ChatEffect) (s : State) : State :=
  mkState (requestGeneration s) (activeResult s) (nextResult s) (pending s) (flushTimer s)
    (isRequesting s) (abortController s) (aborted s) (messages s) (queue s) (settled s)
    (effects s ++ [e]).

Definition onMessageUpdate (u : Updater) (s : State) : State :=
  set_messages (messages s) (queue s ++ [u]) s.

Definition mergePendingStreamChunk (currentChunk nextChunk : jsstr) : jsstr :=
  if negb (truthy currentChunk) || negb (starts_with currentChunk nextChunk)
  then currentChunk ++ nextChunk else nextChunk.

Definition settleRequest (success : bool) (s : State) : State :=
  match activeResult s with
  | Some r => set_result None (nextResult s) (settled s ++ [(r, success)]) s
  | None => s
  end.

(** [abortControllerRef.current?.abort(); abortControllerRef.current = null] *)
Definition abort_current (s : State) : State :=
  set_abort None
    (match abortController s with Some g => aborted s ++ [g] | None => aborted s end) s.

Definition discardPendingStreamUpdates (generation : nat) (s : State) : State :=
  set_pending (mkPendingChunks generation [] []) (set_timer None s).

Definition flushStreamUpdates (generation : nat) (s : State) : State :=
  if negb (generation =? requestGeneration s)%nat then s
  else
    let s1 := set_timer None s in
    let p := pending s1 in
    if negb (pc_generation p =? generation)%nat then s1
    else if negb (truthy (pc_reasoning p)) && negb (truthy (pc_content p)) then s1
    else
      onMessageUpdate (UFlush (pc_reasoning p) (pc_content p))
        (set_pending (mkPendingChunks generation [] []) s1).

Definition scheduleStreamFlush (generation : nat) (s : State) : State :=
  if negb (generation =? requestGeneration s)%nat then s
  else match flushTimer s with
       | Some _ => s
       | None => set_timer (Some generation) s
       end.

Definition handleStreamUpdate (generation : nat) (type : StreamChunkType) (chunk : jsstr)
    (s : State) : State :=
  if negb (generation =? requestGeneration s)%nat then s
  else if negb (pc_generation (pending s) =? generation)%nat then s
  else
    let p := pending s in
    let p' := match type with
              | ReasoningChunk => mkPendingChunks (pc_generation p) (pc_content p)
                  (mergePendingStreamChunk (pc_reasoning p) chunk)
              | ContentChunk => mkPendingChunks (pc_generation p)
                  (mergePendingStreamChunk (pc_content p) chunk) (pc_reasoning p)
              end in
    scheduleStreamFlush generation (set_pending p' s).

Definition handleStreamComplete (generation : nat) (s : State) : State :=
  if negb (generation =? requestGeneration s)%nat then s
  else
    onMessageUpdate (UComplete generation)
      (setIsRequesting false (settleRequest true (flushStreamUpdates generation s))).

Definition ERROR_MESSAGES : list jsstr :=
  [API_REQUEST_ERROR; NETWORK_ERROR; PARSE_ERROR; STREAM_START_ERROR; CONNECTION_CLOSED;
   INTERRUPTED].

Section translated.
(** i18next's [t]. *)
Context (t : jsstr → jsstr).

Definition code_is (errorCode : option jsstr) (c : jsstr) : bool :=
  match errorCode with Some e => streq e c | None => false end.

Definition getDisplayError (error : jsstr) (errorCode : option jsstr) : jsstr :=
  if code_is errorCode (js "playground_invalid_media") then
    t (js "An attachment was rejected. Check its type, size and contents.")
  else if code_is errorCode (js "playground_payload_too_large") then
    t (js "The conversation is too large. Remove earlier attachments or start a new conversation.")
  else if code_is errorCode (js "token_budget_unsupported_request") then
    t (js "This request does not meet the selected key's strict budget requirements. Use a compatible API client or choose another key.")
  else if code_is errorCode (js "playground_image_provider_unsupported") then
    t (js "This provider route does not support images in this version. Choose an OpenAI-compatible or Codex route.")
  else if code_is errorCode (js "playground_file_provider_unsupported") then
    t (js "This provider does not support inline PDF files. Choose a compatible model and provider.")
  else if existsb (streq error) ERROR_MESSAGES then t error
  else if ends_with (js ": " ++ CONNECTION_CLOSED) error then
    take (length error - length CONNECTION_CLOSED) error ++ t CONNECTION_CLOSED
  else error.

Definition handleStreamError (generation : nat) (error : jsstr) (errorCode : option jsstr)
    (s : State) : State :=
  if negb (generation =? requestGeneration s)%nat then s
  else
    let s1 := setIsRequesting false (settleRequest false (flushStreamUpdates generation s)) in
    let s2 := if code_is errorCode (js "playground_key_invalid") ||
                 code_is errorCode (js "playground_key_required")
              then effect KeyRejected s1 else s1 in
    let displayError := getDisplayError error errorCode in
    onMessageUpdate (UError generation displayError errorCode (t API_REQUEST_ERROR))
      (effect (Toast displayError) s2).

Definition sendStreamingChat (config : PlaygroundConfig) (e : ParameterEnabled)
    (selectedKey : option PlaygroundKey) (ms : list Message) (keyId : jsnum) (s : State) : State :=
  let generation := S (requestGeneration s) in
  let s1 := discardPendingStreamUpdates generation
              (abort_current (set_generation generation s)) in
  effect (SendStream generation (buildChatCompletionPayload ms config e selectedKey) keyId)
    (setIsRequesting true s1).

(** [sendNonStreamingChat] up to its [await]. *)
Definition sendNonStreamingChat (config : PlaygroundConfig) (e : ParameterEnabled)
    (selectedKey : option PlaygroundKey) (ms : list Message) (keyId : jsnum) (s : State) : State :=
  let payload := buildChatCompletionPayload ms config e selectedKey in
  let generation := S (requestGeneration s) in
  let s1 := discardPendingStreamUpdates generation
              (effect StopStream (set_generation generation s)) in
  let s2 := abort_current s1 in
  effect (PostChat generation payload keyId)
    (setIsRequesting true (set_abort (Some generation) (aborted s2) s2)).

(** The [finally] of [sendNonStreamingChat]. *)
Definition finish_request (generation : nat) (s : State) : State :=
  if (requestGeneration s =? generation)%nat
  then setIsRequesting false (set_abort None (aborted s) s) else s.

Definition stale_request (generation : nat) (s : State) : bool :=
  bool_decide (generation ∈ aborted s) || negb (requestGeneration s =? generation)%nat.

(** Its continuation with the response. *)
Definition on_response (generation : nat) (choices : list ChatCompletionChoice) (s : State) : State :=
  finish_request generation
    (if stale_request generation s then s
     else if negb (hasChatCompletionChoice choices) then
       handleStreamError generation API_REQUEST_ERROR None s
     else settleRequest true (onMessageUpdate (UResponse generation choices) s)).

(** Its continuation with an error, as [parseRequestErrorDetails] reads it. *)
Definition on_request_failed (generation : nat) (errorMessage : jsstr) (errorCode : option jsstr)
    (s : State) : State :=
  finish_request generation
    (if stale_request generation s then s
     else handleStreamError generation errorMessage errorCode s).

Definition sendChat (canSend : bool) (selectedKey : option PlaygroundKey)
    (config : PlaygroundConfig) (e : ParameterEnabled) (now_seconds : jsnum) (ms : list Message)
    (s : State) : State * option nat :=
  match activeResult s with
  | Some _ => (s, None)
  | None =>
      match selectedKey with
      | Some k =>
          if negb canSend || negb (same_key (k_id k) (keyId config)) ||
             negb (isPlaygroundKeyAvailable k now_seconds)
          then (effect (Toast (t (js "Select an available API key before sending"))) s, None)
          else
            match validateConversationAttachments ms with
            | Throw message => (effect (Toast (t message)) s, None)
            | Ok _ =>
                let result := nextResult s in
                let s1 := set_result (Some result) (S result) (settled s) s in
                ((if stream config then sendStreamingChat config e selectedKey ms (k_id k) s1
                  else sendNonStreamingChat config e selectedKey ms (k_id k) s1), Some result)
            end
      | None => (effect (Toast (t (js "Select an available API key before sending"))) s, None)
      end
  end.

Definition stopGeneration (s : State) : State :=
  let stoppedGeneration := requestGeneration s in
  let s1 := flushStreamUpdates stoppedGeneration s in
  let idleGeneration := S stoppedGeneration in
  let s2 := discardPendingStreamUpdates idleGeneration (set_generation idleGeneration s1) in
  let s3 := abort_current (settleRequest false (effect StopStream s2)) in
  onMessageUpdate (UStop idleGeneration) (setIsRequesting false s3).

(** The cleanup of the effect when the component unmounts (the cleared timer's ref is not
    read again after it). *)
Definition unmount (s : State) : State :=
  settleRequest false (abort_current (set_timer None (set_generation (S (requestGeneration s)) s))).

(** ** Evaluating an updater *)

(** The clock readings of one evaluation. *)
Record Clock := mkClock { k1 : Z; k2 : Z; k3 : Z }.

Definition flush_message (r c : jsstr) (k : Clock) (m : Message) : Message :=
  let m1 := if truthy r then applyStreamingChunk m ReasoningChunk r (k1 k) (k2 k) else m in
  if truthy c then applyStreamingChunk m1 ContentChunk c (k2 k) (k3 k) else m1.

Definition evaluate (u : Updater) (generation : nat) (k : Clock) (prev : list Message) : list Message :=
  match u with
  | UFlush r c => updateLastAssistantMessage prev (flush_message r c k)
  | UComplete g =>
      if negb (g =? generation)%nat then prev
      else updateLastAssistantMessage prev (λ m,
        if isAssistantMessageFinal m then m else completeAssistantMessage m (k1 k) (k2 k) (k3 k))
  | UError g displayError code title =>
      if negb (g =? generation)%nat then prev
      else updateAssistantMessageWithError prev displayError code title (k1 k)
  | UResponse g choices =>
      if negb (generation =? g)%nat then prev
      else updateLastAssistantMessage prev (λ m,
        default m (applyChatCompletionResponse m choices (k1 k) (k2 k) (k3 k)))
  | UStop idle =>
      if negb (generation =? idle)%nat then prev
      else updateLastAssistantMessage prev (λ m,
        if isAssistantMessagePending m then completeAssistantMessage m (k1 k) (k2 k) (k3 k) else m)
  | USet ms => ms
  end.

Definition evaluate_next (k : Clock) (s : State) : State :=
  match queue s with
  | [] => s
  | u :: rest => set_messages (evaluate u (requestGeneration s) k (messages s)) rest s
  end.

(** ** Events *)

Inductive Event :=
| ESend (canSend : bool) (selectedKey : option PlaygroundKey) (config : PlaygroundConfig)
    (e : ParameterEnabled) (now_seconds : jsnum) (ms : list Message)
| EUpdate (generation : nat) (type : StreamChunkType) (chunk : jsstr)
| EComplete (generation : nat)
| EError (generation : nat) (error : jsstr) (errorCode : option jsstr)
| EResponse (generation : nat) (choices : list ChatCompletionChoice)
| ERequestFailed (generation : nat) (errorMessage : jsstr) (errorCode : option jsstr)
| ETimer
| EStop
| EUnmount
| EEvaluate (k : Clock)
| ESetMessages (ms : list Message).

Definition step (s : State) (e : Event) : State :=
  match e with
  | ESend can key cfg en now ms => (sendChat can key cfg en now ms s).1
  | EUpdate g ty chunk => handleStreamUpdate g ty chunk s
  | EComplete g => handleStreamComplete g s
  | EError g error code => handleStreamError g error code s
  | EResponse g choices => on_response g choices s
  | ERequestFailed g error code => on_request_failed g error code s
  | ETimer => match flushTimer s with Some g => flushStreamUpdates g s | None => s end
  | EStop => stopGeneration s
  | EUnmount => unmount s
  | EEvaluate k => evaluate_next k s
  | ESetMessages ms => onMessageUpdate (USet ms) s
  end.

Definition run (s : State) (es : list Event) : State := foldl step s es.

Definition init (ms : list Message) : State :=
  mkState 0 None 0 (mkPendingChunks 0 [] []) None false None [] ms [] [] [].

(** ** The latch *)

(** Results are numbered; each one made is either in the latch or settled, once. *)
Definition latch_inv (s : State) : Prop :=
  NoDup (settled s).*1 ∧
  (∀ r, r ∈ (settled s).*1 → (r < nextResult s)%nat) ∧
  (∀ r, activeResult s = Some r → (r < nextResult s)%nat ∧ r ∉ (settled s).*1) ∧
  (∀ r, (r < nextResult s)%nat → r ∈ (settled s).*1 ∨ activeResult s = Some r).

(** The fields the latch invariant reads. *)
Definition same_latch (s s' : State) : Prop :=
  activeResult s' = activeResult s ∧ nextResult s' = nextResult s ∧ settled s' = settled s.

Lemma latch_same s s' : same_latch s s' → latch_inv s → latch_inv s'.
Proof. intros (H1 & H2 & H3). unfold latch_inv. by rewrite H1, H2, H3. Qed.

Lemma same_latch_trans s1 s2 s3 : same_latch s1 s2 → same_latch s2 s3 → same_latch s1 s3.
Proof. unfold same_latch. intuition congruence. Qed.

Lemma flush_latch g s : same_latch s (flushStreamUpdates g s).
Proof. unfold flushStreamUpdates. by repeat case_match. Qed.

Lemma settle_latch b s : latch_inv s → latch_inv (settleRequest b s).
Proof.
  unfold settleRequest. destruct (activeResult s) as [r|] eqn:E; [|done].
  intros (H1 & H2 & H3 & H4). destruct (H3 r E) as [Hr Hn].
  unfold latch_inv. simpl. rewrite fmap_app. simpl. split_and!.
  - apply NoDup_app. split_and!; [done| |apply NoDup_singleton].
    intros x Hx ->%list_elem_of_singleton. done.
  - intros x [?| ->%list_elem_of_singleton]%elem_of_app; auto.
  - done.
  - intros x Hx. left. apply elem_of_app. destruct (H4 x Hx) as [?|Hx']; [by left|].
    right. rewrite E in Hx'. injection Hx' as <-. by apply list_elem_of_singleton.
Qed.

Lemma error_latch g e c s : latch_inv s → latch_inv (handleStreamError g e c s).
Proof.
  intros Hs. unfold handleStreamError. destruct (negb _); [done|].
  assert (latch_inv (settleRequest false (flushStreamUpdates g s))) as H.
  { eapply settle_latch, latch_same; [apply flush_latch|done]. }
  eapply latch_same; [|exact H]. by case_match.
Qed.

Lemma finish_latch g s : same_latch s (finish_request g s).
Proof. unfold finish_request. by case_match. Qed.

Lemma send_latch can key cfg en now ms s :
  latch_inv s → latch_inv (sendChat can key cfg en now ms s).1.
Proof.
  intros Hs. unfold sendChat. destruct (activeResult s) eqn:E; [done|].
  destruct key as [k|]; [|done]. destruct (_ || _); [done|].
  destruct (validateConversationAttachments ms); [|done]. cbv zeta. simpl fst.
  assert (latch_inv (set_result (Some (nextResult s)) (S (nextResult s)) (settled s) s)) as Hs1.
  { destruct Hs as (H1 & H2 & H3 & H4). unfold latch_inv. simpl. split_and!; [done| | |].
    - intros r Hr. specialize (H2 r Hr). lia.
    - intros r [= <-]. split; [lia|]. intros Hin. specialize (H2 _ Hin). lia.
    - intros r Hr. destruct (decide (r = nextResult s)) as [->|]; [by right|].
      destruct (H4 r) as [?|?]; [lia|by left|congruence]. }
  eapply latch_same; [|exact Hs1]. by case_match.
Qed.

Lemma step_latch s e : latch_inv s → latch_inv (step s e).
Proof.
  intros Hs. destruct e; simpl.
  - by apply send_latch.
  - eapply latch_same; [|exact Hs]. unfold handleStreamUpdate, scheduleStreamFlush.
    by repeat case_match.
  - unfold handleStreamComplete. destruct (negb _); [done|].
    eapply (latch_same (settleRequest true (flushStreamUpdates generation s))); [done|].
    eapply settle_latch, latch_same; [apply flush_latch|done].
  - by apply error_latch.
  - unfold on_response. eapply latch_same; [apply finish_latch|].
    destruct (stale_request _ _); [done|]. destruct (negb _); [by apply error_latch|].
    by apply settle_latch.
  - unfold on_request_failed. eapply latch_same; [apply finish_latch|].
    destruct (stale_request _ _); [done|]. by apply error_latch.
  - destruct (flushTimer s); [|done]. eapply latch_same; [apply flush_latch|done].
  - unfold stopGeneration. cbv zeta.
    eapply (latch_same (settleRequest false (effect StopStream (discardPendingStreamUpdates
      (S (requestGeneration s)) (set_generation (S (requestGeneration s))
        (flushStreamUpdates (requestGeneration s) s)))))); [done|].
    apply settle_latch. eapply latch_same; [|exact Hs].
    eapply same_latch_trans; [apply (flush_latch (requestGeneration s) s)|done].
  - unfold unmount. by apply settle_latch.
  - eapply latch_same; [|exact Hs]. unfold evaluate_next. by case_match.
  - by eapply latch_same.
Qed.

Lemma run_latch es s : latch_inv s → latch_inv (run s es).
Proof. revert s. induction es as [|e es IH]; intros s Hs; simpl; [done|]. by apply IH, step_latch. Qed.

(** ** The generation *)

Lemma flush_generation g s : requestGeneration (flushStreamUpdates g s) = requestGeneration s.
Proof. unfold flushStreamUpdates. by repeat case_match. Qed.

Lemma settle_generation b s : requestGeneration (settleRequest b s) = requestGeneration s.
Proof. unfold settleRequest. by case_match. Qed.

Lemma error_generation g e c s : requestGeneration (handleStreamError g e c s) = requestGeneration s.
Proof.
  unfold handleStreamError. destruct (negb _); [done|]. cbv zeta.
  case_match; simpl; rewrite settle_generation; apply flush_generation.
Qed.

Lemma finish_generation g s : requestGeneration (finish_request g s) = requestGeneration s.
Proof. unfold finish_request. by case_match. Qed.

Lemma step_generation s e : (requestGeneration s ≤ requestGeneration (step s e))%nat.
Proof.
  destruct e; simpl.
  - unfold sendChat. repeat case_match; simpl; lia.
  - unfold handleStreamUpdate, scheduleStreamFlush. repeat case_match; simpl; lia.
  - unfold handleStreamComplete. case_match; [done|]. simpl.
    by rewrite settle_generation, flush_generation.
  - by rewrite error_generation.
  - unfold on_response. rewrite finish_generation. repeat case_match; [done| |].
    + by rewrite error_generation.
    + by rewrite settle_generation.
  - unfold on_request_failed. rewrite finish_generation. case_match; [done|].
    by rewrite error_generation.
  - case_match; [by rewrite flush_generation|done].
  - rewrite settle_generation. simpl. lia.
  - unfold unmount. rewrite settle_generation. simpl. lia.
  - unfold evaluate_next. by case_match.
  - done.
Qed.

Lemma run_generation es s : (requestGeneration s ≤ requestGeneration (run s es))%nat.
Proof.
  revert s. induction es as [|e es IH]; intros s; simpl; [done|].
  etrans; [apply (step_generation s e)|]. apply IH.
Qed.

(** The events of a request other than the current one. *)
Definition event_generation (e : Event) : option nat :=
  match e with
  | EUpdate g _ _ | EComplete g | EError g _ _ | EResponse g _ | ERequestFailed g _ _ => Some g
  | _ => None
  end.

Lemma stale_event s e g :
  event_generation e = Some g → g ≠ requestGeneration s → step s e = s.
Proof.
  intros He Hg. destruct e; simpl in He; simplify_eq; simpl.
  - unfold handleStreamUpdate. by destruct (Nat.eqb_spec g (requestGeneration s)).
  - unfold handleStreamComplete. by destruct (Nat.eqb_spec g (requestGeneration s)).
  - unfold handleStreamError. by destruct (Nat.eqb_spec g (requestGeneration s)).
  - unfold on_response, stale_request, finish_request.
    destruct (Nat.eqb_spec (requestGeneration s) g); [congruence|]. simpl. rewrite orb_true_r.
    by destruct (Nat.eqb_spec (requestGeneration s) g).
  - unfold on_request_failed, stale_request, finish_request.
    destruct (Nat.eqb_spec (requestGeneration s) g); [congruence|]. simpl. rewrite orb_true_r.
    by destruct (Nat.eqb_spec (requestGeneration s) g).
Qed.

(** ** Streaming into the last message *)

Definition is_flush (u : Updater) : Prop := match u with UFlush _ _ => True | _ => False end.

(** The content the queued batches make of [c]. *)
Definition queue_content (q : list Updater) (c : jsstr) : jsstr :=
  foldl (λ c u, match u with UFlush _ ct => c ++ getAppendableChunk c ct | _ => c end) c q.

(** The reasoning of a message, and what the queued batches make of it. *)
Definition message_reasoning (m : Message) : jsstr := match m_reasoning m with Some r => r_content r | None => [] end.

Definition queue_reasoning (q : list Updater) (r : jsstr) : jsstr :=
  foldl (λ r u, match u with UFlush rt _ => r ++ getAppendableChunk r rt | _ => r end) r q.

Lemma includes_prefix p a b : includes p (a ++ b) = false → includes p a = false.
Proof.
  intros Hb. destruct (includes p a) eqn:E; [|done]. exfalso. apply includes_spec in E as (x & y & ->).
  apply not_true_iff_false in Hb. apply Hb, includes_spec. exists x, (y ++ b). by rewrite <- !app_assoc.
Qed.

Lemma queue_content_prefix q c : ∃ d, queue_content q c = c ++ d.
Proof.
  revert c. induction q as [|u q IH]; intros c; [exists []; by rewrite app_nil_r|]. simpl.
  destruct u; try apply IH. edestruct IH as [d Hd]. rewrite Hd, <- app_assoc. by eexists.
Qed.

Lemma appendable_nil c : c ++ getAppendableChunk c [] = c.
Proof. unfold getAppendableChunk. destruct c; simpl; [done|]. by rewrite app_nil_r. Qed.

Lemma pending_not_error m : isAssistantMessagePending m = true → m_status m ≠ Some Error.
Proof. unfold isAssistantMessagePending. by destruct (m_status m) as [[]|]. Qed.

Lemma streaming_pending m : m_status m = Some Streaming → isAssistantMessagePending m = true.
Proof. unfold isAssistantMessagePending. by intros ->. Qed.

Lemma reasoning_content m r t1 t2 :
  getMessageContent (applyStreamingChunk m ReasoningChunk r t1 t2) = getMessageContent m.
Proof. unfold applyStreamingChunk. by case_match. Qed.

Lemma flush_message_spec r c k m :
  isAssistantMessagePending m = true →
  let m' := flush_message r c k m in
  isAssistantMessagePending m' = true ∧ m_from m' = m_from m ∧
  getMessageContent m' = getMessageContent m ++ getAppendableChunk (getMessageContent m) c ∧
  (includes OPEN (getMessageContent m') = false →
   message_reasoning m' = message_reasoning m ++ getAppendableChunk (message_reasoning m) r).
Proof.
  intros Hp. cbv zeta. unfold flush_message.
  set (m1 := if truthy r then _ else m).
  assert (isAssistantMessagePending m1 = true ∧ m_from m1 = m_from m ∧
    getMessageContent m1 = getMessageContent m ∧
    message_reasoning m1 = message_reasoning m ++ getAppendableChunk (message_reasoning m) r) as (Hp1 & Hf1 & Hc1 & Hr1).
  { unfold m1. destruct (truthy r) eqn:Er; [|apply truthy_false in Er as ->; by rewrite appendable_nil].
    destruct (applyChunk_frame m ReasoningChunk r (k1 k) (k2 k)) as (Hf & _ & _ & Hst).
    split_and!; [apply streaming_pending, Hst; by apply pending_not_error|done|apply reasoning_content|].
    unfold applyStreamingChunk. rewrite bool_decide_eq_false_2 by (by apply pending_not_error).
    unfold message_reasoning, startReasoningTiming. simpl. by destruct (m_reasoning m). }
  destruct (truthy c) eqn:Et.
  - destruct (applyChunk_frame m1 ContentChunk c (k2 k) (k3 k)) as (Hf & _ & _ & Hst).
    pose proof (pending_not_error _ Hp1). split_and!.
    + apply streaming_pending. auto.
    + congruence.
    + rewrite applyChunk_content by done. by rewrite Hc1.
    + intros Ho. pose proof (applyChunk_reasoning m1 c (k2 k) (k3 k) ltac:(done)) as Hre. cbv zeta in Hre.
      rewrite (parseThinkTags_plain _ Ho) in Hre. simpl in Hre. rewrite <- Hr1. unfold message_reasoning.
      destruct (m_reasoning (applyStreamingChunk _ _ _ _ _)), (m_reasoning m1); simpl in Hre; congruence.
  - apply truthy_false in Et as ->. by rewrite appendable_nil.
Qed.

Lemma run_cons s e es : run s (e :: es) = run (step s e) es.
Proof. done. Qed.

Lemma chat_run_app s es1 es2 : run s (es1 ++ es2) = run (run s es1) es2.
Proof. apply foldl_app. Qed.

Lemma evaluate_flush r c k pre m g :
  m_from m = Assistant →
  evaluate (UFlush r c) g k (pre ++ [m]) = pre ++ [flush_message r c k m].
Proof. intros Hm. simpl. rewrite updateLast_snoc. by rewrite bool_decide_eq_true_2. Qed.

Lemma evaluate_flushes q rest pre m ks s :
  Forall is_flush q → queue s = q ++ rest → messages s = pre ++ [m] →
  m_from m = Assistant → isAssistantMessagePending m = true → length ks = length q →
  ∃ m', run s (map EEvaluate ks) = set_messages (pre ++ [m']) rest s ∧
    m_from m' = Assistant ∧ isAssistantMessagePending m' = true ∧
    getMessageContent m' = queue_content q (getMessageContent m) ∧
    (includes OPEN (queue_content q (getMessageContent m)) = false →
     message_reasoning m' = queue_reasoning q (message_reasoning m)).
Proof.
  intros Hq. revert ks m s. induction Hq as [|u q Hu _ IH]; intros ks m s Hqs Hms Ha Hp Hl.
  - destruct ks; [|done]. exists m. split_and!; try done. simpl. unfold set_messages.
    rewrite <-Hms. simpl in Hqs. rewrite <-Hqs. by destruct s.
  - destruct ks as [|k ks]; [done|]. destruct u as [r c| | | | |]; try done.
    cbn [map]. rewrite run_cons. simpl step. unfold evaluate_next. rewrite Hqs. cbn [app].
    rewrite Hms, evaluate_flush by done.
    destruct (flush_message_spec r c k m Hp) as (Hp' & Ha' & Hc' & Hr').
    edestruct (IH ks (flush_message r c k m)) as (m' & Hrun & Hm' & Hpm' & Hcm' & Hrm');
      [| |rewrite Ha'; exact Ha|exact Hp'| |]; [| |simpl in Hl; lia|].
    3: { exists m'. split_and!; [exact Hrun|done|done|rewrite Hcm'; simpl; by rewrite Hc'|].
         simpl. rewrite <- Hc'. intros Ho. rewrite Hrm' by done. rewrite Hr'; [done|].
         destruct (queue_content_prefix q (getMessageContent (flush_message r c k m))) as [d Hd]. rewrite Hd in Ho.
         by eapply includes_prefix. }
    all: done.
Qed.

(** The events of a stream of request [g] that is under way. *)
Definition stream_event (g : nat) (e : Event) : Prop :=
  match e with
  | EUpdate g' _ _ => g' = g
  | ETimer | EEvaluate _ => True
  | _ => False
  end.

(** The content chunks among them, in order. *)
Definition content_chunks (es : list Event) : list jsstr :=
  omap (λ e, match e with EUpdate _ ContentChunk c => Some c | _ => None end) es.

(** And the chunks of reasoning. *)
Definition reasoning_chunks (es : list Event) : list jsstr :=
  omap (λ e, match e with EUpdate _ ReasoningChunk c => Some c | _ => None end) es.

(** No stretch of chunks is repeated by what follows it. *)
Definition no_repeat (chunks : list jsstr) : Prop :=
  ∀ pre a b post, chunks = pre ++ a ++ b ++ post →
    concat a ≠ [] → starts_with (concat a) (concat b) = false.

Lemma no_repeat_prefix l1 l2 : no_repeat (l1 ++ l2) → no_repeat l1.
Proof.
  intros H pre a b post -> Ha. apply (H pre a b (post ++ l2)); [|done]. by rewrite <-!app_assoc.
Qed.

Record Streamed (g : nat) (pre : list Message) (chunks : list jsstr) (s : State) : Prop := {
  st_generation : requestGeneration s = g;
  st_pending : pc_generation (pending s) = g;
  st_queue : Forall is_flush (queue s);
  st_message : ∃ m, messages s = pre ++ [m] ∧ m_from m = Assistant ∧
    isAssistantMessagePending m = true ∧
    ∃ done rest, chunks = done ++ rest ∧
      queue_content (queue s) (getMessageContent m) = concat done ∧
      pc_content (pending s) = concat rest
}.

Lemma merge_no_repeat rest c :
  no_repeat (rest ++ [c]) → mergePendingStreamChunk (concat rest) c = concat (rest ++ [c]).
Proof.
  intros H. unfold mergePendingStreamChunk. rewrite concat_app. simpl. rewrite app_nil_r.
  destruct (truthy (concat rest)) eqn:E; simpl; [|done]. apply truthy_spec in E.
  pose proof (H [] rest [c] [] eq_refl E) as Hs. simpl in Hs. rewrite app_nil_r in Hs.
  by rewrite Hs.
Qed.

Lemma appendable_no_repeat l1 l2 :
  no_repeat (l1 ++ l2) → concat l1 ++ getAppendableChunk (concat l1) (concat l2) = concat (l1 ++ l2).
Proof.
  intros H. rewrite concat_app. f_equal. apply getAppendable_other.
  destruct (decide (concat l1 = [])) as [->|Hne]; [by left|right].
  apply (H [] l1 l2 []); [|done]. by rewrite app_nil_r.
Qed.

Lemma no_repeat_suffix l1 l2 : no_repeat (l1 ++ l2) → no_repeat l2.
Proof. intros H pre a b post -> Ha. by apply (H (l1 ++ pre) a b post); [rewrite <-!app_assoc|]. Qed.

(** What a flush leaves: nothing pending, everything received is in the queue. *)
Lemma streamed_flush g pre chunks s :
  no_repeat chunks → Streamed g pre chunks s →
  Streamed g pre chunks (flushStreamUpdates g s) ∧
  ∃ m, messages (flushStreamUpdates g s) = pre ++ [m] ∧ m_from m = Assistant ∧
    isAssistantMessagePending m = true ∧
    queue_content (queue (flushStreamUpdates g s)) (getMessageContent m) = concat chunks.
Proof.
  intros Hn [Hg Hp Hq (m & Hm & Ha & Hpm & dn & rest & Hch & Hqc & Hpc)].
  unfold flushStreamUpdates. rewrite Hg, Nat.eqb_refl. cbn [negb]. cbv zeta.
  cbn [pending set_timer]. rewrite Hp, Nat.eqb_refl. cbn [negb].
  destruct (negb (truthy (pc_reasoning (pending s))) && negb (truthy (pc_content (pending s)))) eqn:E.
  - apply andb_true_iff in E as [_ E]. apply negb_true_iff, truthy_false in E.
    rewrite Hpc in E. split.
    + constructor; simpl; try done. exists m. split_and!; try done. by exists dn, rest.
    + exists m. split_and!; try done. simpl. by rewrite Hqc, Hch, concat_app, E, app_nil_r.
  - assert (queue_content (queue s ++ [UFlush (pc_reasoning (pending s)) (pc_content (pending s))])
      (getMessageContent m) = concat chunks) as Hall.
    { unfold queue_content in *. rewrite foldl_app. simpl. rewrite Hqc, Hpc, Hch.
      apply appendable_no_repeat. by rewrite <-Hch. }
    split.
    + constructor; simpl; try done; [apply Forall_app; split; [done|by repeat constructor]|].
      exists m. split_and!; try done. exists chunks, []. by rewrite app_nil_r.
    + exists m. by split_and!.
Qed.

Lemma streamed_step g pre chunks s e :
  stream_event g e → no_repeat (chunks ++ content_chunks [e]) →
  Streamed g pre chunks s → Streamed g pre (chunks ++ content_chunks [e]) (step s e).
Proof.
  intros He Hn Hs. destruct e as [|g' ty c| | | | | | | |k|]; try done.
  - simpl in He. subst g'. destruct Hs as [Hg Hp Hq (m & Hm & Ha & Hpm & dn & rest & Hch & Hqc & Hpc)].
    simpl. unfold handleStreamUpdate. rewrite Hg, Nat.eqb_refl. cbn [negb].
    rewrite Hp, Nat.eqb_refl. cbn [negb]. cbv zeta. unfold scheduleStreamFlush.
    cbn [requestGeneration set_pending flushTimer]. rewrite Hg, Nat.eqb_refl. cbn [negb].
    assert (∀ p' rest', pc_generation p' = g → pc_content p' = concat rest' →
      chunks ++ content_chunks [EUpdate g ty c] = dn ++ rest' →
      Streamed g pre (chunks ++ content_chunks [EUpdate g ty c])
        (match flushTimer s with Some _ => set_pending p' s
         | None => set_timer (Some g) (set_pending p' s) end)) as Hgo.
    { intros p' rest' H1 H2 H3. destruct (flushTimer s); constructor; simpl; try done;
        exists m; split_and!; try done; by exists dn, rest'. }
    destruct ty; simpl content_chunks in *.
    + apply (Hgo _ rest); simpl; [done|done|]. by rewrite app_nil_r.
    + apply (Hgo _ (rest ++ [c])); simpl; [done| |by rewrite Hch, app_assoc].
      rewrite Hpc. apply merge_no_repeat. apply (no_repeat_suffix dn).
      by rewrite app_assoc, <-Hch.
  - simpl in *. rewrite app_nil_r in *. destruct (flushTimer s) as [g'|]; [|done].
    destruct (decide (g' = g)) as [->|Hne]; [by apply streamed_flush|].
    unfold flushStreamUpdates. rewrite (st_generation _ _ _ _ Hs).
    by destruct (Nat.eqb_spec g' g).
  - simpl in *. rewrite app_nil_r in *.
    destruct Hs as [Hg Hp Hq (m & Hm & Ha & Hpm & dn & rest & Hch & Hqc & Hpc)].
    unfold evaluate_next. destruct (queue s) as [|u q] eqn:Eq.
    { constructor; rewrite ?Eq; try done. exists m. split_and!; try done.
      by exists dn, rest. }
    apply Forall_cons in Hq as [Hu Hq]. destruct u as [r c| | | | |]; try done.
    rewrite Hm, evaluate_flush by done.
    destruct (flush_message_spec r c k m Hpm) as (Hp' & Ha' & Hc' & _).
    constructor; simpl; try done. exists (flush_message r c k m).
    split_and!; try done; [congruence|]. exists dn, rest. split_and!; try done.
    rewrite Hc'. exact Hqc.
Qed.

Lemma streamed_run g pre es chunks s :
  Forall (stream_event g) es → no_repeat (chunks ++ content_chunks es) →
  Streamed g pre chunks s → Streamed g pre (chunks ++ content_chunks es) (run s es).
Proof.
  intros Hes. revert chunks s. induction Hes as [|e es He _ IH]; intros chunks s Hn Hs.
  - simpl. by rewrite app_nil_r.
  - assert (content_chunks (e :: es) = content_chunks [e] ++ content_chunks es) as Heq.
    { change (e :: es) with ([e] ++ es). apply omap_app. }
    rewrite Heq, app_assoc in Hn |- *. rewrite run_cons. apply IH; [done|].
    apply streamed_step; [done| |done]. by eapply no_repeat_prefix.
Qed.

(** The same of the reasoning, as long as the content has no think tags. *)
Definition Thought (pre : list Message) (thoughts : list jsstr) (s : State) : Prop :=
  ∃ m done rest, messages s = pre ++ [m] ∧ thoughts = done ++ rest ∧
    queue_reasoning (queue s) (message_reasoning m) = concat done ∧ pc_reasoning (pending s) = concat rest.

Lemma thought_flush g pre thoughts s :
  no_repeat thoughts → requestGeneration s = g → pc_generation (pending s) = g → Thought pre thoughts s →
  Thought pre thoughts (flushStreamUpdates g s) ∧
  ∃ m, messages (flushStreamUpdates g s) = pre ++ [m] ∧
    queue_reasoning (queue (flushStreamUpdates g s)) (message_reasoning m) = concat thoughts.
Proof.
  intros Hn Hg Hp (m & dn & rest & Hm & Hch & Hqc & Hpc).
  unfold flushStreamUpdates. rewrite Hg, Nat.eqb_refl. cbn [negb]. cbv zeta.
  cbn [pending set_timer]. rewrite Hp, Nat.eqb_refl. cbn [negb].
  destruct (negb (truthy (pc_reasoning (pending s))) && negb (truthy (pc_content (pending s)))) eqn:E.
  - apply andb_true_iff in E as [E _]. apply negb_true_iff, truthy_false in E. rewrite Hpc in E. split.
    + by exists m, dn, rest.
    + exists m. split; [done|]. simpl. by rewrite Hqc, Hch, concat_app, E, app_nil_r.
  - assert (queue_reasoning (queue s ++ [UFlush (pc_reasoning (pending s)) (pc_content (pending s))])
      (message_reasoning m) = concat thoughts) as Hall.
    { unfold queue_reasoning in *. rewrite foldl_app. simpl. rewrite Hqc, Hpc, Hch.
      apply appendable_no_repeat. by rewrite <-Hch. }
    split; [exists m, thoughts, []|exists m]; by rewrite ?app_nil_r.
Qed.

Lemma thought_step g pre chunks thoughts s e :
  stream_event g e → no_repeat (thoughts ++ reasoning_chunks [e]) → includes OPEN (concat chunks) = false →
  Streamed g pre chunks s → Thought pre thoughts s → Thought pre (thoughts ++ reasoning_chunks [e]) (step s e).
Proof.
  intros He Hn Ho Hs Ht. destruct e as [|g' ty c| | | | | | | |k|]; try done.
  - simpl in He. subst g'. destruct Hs as [Hg Hp _ _]. destruct Ht as (m & dn & rest & Hm & Hch & Hqc & Hpc).
    simpl. unfold handleStreamUpdate. rewrite Hg, Nat.eqb_refl. cbn [negb].
    rewrite Hp, Nat.eqb_refl. cbn [negb]. cbv zeta. unfold scheduleStreamFlush.
    cbn [requestGeneration set_pending flushTimer]. rewrite Hg, Nat.eqb_refl. cbn [negb].
    assert (∀ p' rest', pc_reasoning p' = concat rest' → thoughts ++ reasoning_chunks [EUpdate g ty c] = dn ++ rest' →
      Thought pre (thoughts ++ reasoning_chunks [EUpdate g ty c])
        (match flushTimer s with Some _ => set_pending p' s
         | None => set_timer (Some g) (set_pending p' s) end)) as Hgo.
    { intros p' rest' H2 H3. exists m, dn, rest'. by destruct (flushTimer s). }
    destruct ty; simpl reasoning_chunks in *.
    + apply (Hgo _ (rest ++ [c])); simpl; [|by rewrite Hch, app_assoc].
      rewrite Hpc. apply merge_no_repeat. apply (no_repeat_suffix dn). by rewrite app_assoc, <-Hch.
    + apply (Hgo _ rest); simpl; [done|]. by rewrite app_nil_r.
  - simpl in *. rewrite app_nil_r in *. destruct (flushTimer s) as [g'|]; [|done]. destruct Hs as [Hg Hp _ _].
    destruct (decide (g' = g)) as [->|Hne]; [by apply thought_flush|].
    unfold flushStreamUpdates. rewrite Hg. by destruct (Nat.eqb_spec g' g).
  - simpl in *. rewrite app_nil_r in *. destruct Ht as (m & dn & rest & Hm & Hch & Hqc & Hpc).
    destruct Hs as [Hg Hp Hq (m' & Hm' & Ha & Hpm & dn' & rest' & Hch' & Hqc' & _)].
    rewrite Hm in Hm'. apply app_inj_tail in Hm' as [_ <-].
    unfold evaluate_next. destruct (queue s) as [|u q] eqn:Eq; [exists m, dn, rest; by rewrite Eq|].
    apply Forall_cons in Hq as [Hu Hq]. destruct u as [r c| | | | |]; try done.
    rewrite Hm, evaluate_flush by done.
    destruct (flush_message_spec r c k m Hpm) as (_ & _ & Hc' & Hr').
    exists (flush_message r c k m), dn, rest. split_and!; [done|done| |done]. simpl. rewrite Hr'; [done|].
    destruct (queue_content_prefix q (getMessageContent (flush_message r c k m))) as [d Hd].
    apply (includes_prefix _ _ (d ++ concat rest')). rewrite app_assoc, <- Hd, Hc'. simpl in Hqc'. rewrite Hqc'.
    by rewrite <- concat_app, <- Hch'.
Qed.

Lemma thought_run g pre es chunks thoughts s :
  Forall (stream_event g) es → no_repeat (chunks ++ content_chunks es) → no_repeat (thoughts ++ reasoning_chunks es) →
  includes OPEN (concat (chunks ++ content_chunks es)) = false →
  Streamed g pre chunks s → Thought pre thoughts s → Thought pre (thoughts ++ reasoning_chunks es) (run s es).
Proof.
  intros Hes. revert chunks thoughts s. induction Hes as [|e es He _ IH]; intros chunks thoughts s Hn Hnt Ho Hs Ht.
  - simpl. by rewrite app_nil_r.
  - assert (content_chunks (e :: es) = content_chunks [e] ++ content_chunks es) as Heq
      by (change (e :: es) with ([e] ++ es); apply omap_app).
    assert (reasoning_chunks (e :: es) = reasoning_chunks [e] ++ reasoning_chunks es) as Heq'
      by (change (e :: es) with ([e] ++ es); apply omap_app).
    rewrite Heq, app_assoc in Hn, Ho. rewrite Heq', app_assoc in Hnt |- *. rewrite run_cons. eapply IH; [exact Hn|done|exact Ho|..].
    + apply streamed_step; [done| |done]. by eapply no_repeat_prefix.
    + eapply thought_step; [done|by eapply no_repeat_prefix| |done|done].
      rewrite <- app_assoc, concat_app in Ho. by eapply includes_prefix.
Qed.

(** The queue ends with an updater that completes the pending message. *)
Lemma evaluate_to_completion q u pre m ks s :
  Forall is_flush q → queue s = q ++ [u] → messages s = pre ++ [m] →
  m_from m = Assistant → isAssistantMessagePending m = true → length ks = length (queue s) →
  (∀ m' k, m_from m' = Assistant → isAssistantMessagePending m' = true →
    evaluate u (requestGeneration s) k (pre ++ [m']) =
    pre ++ [completeAssistantMessage m' (k1 k) (k2 k) (k3 k)]) →
  ∃ m', run s (map EEvaluate ks) = set_messages (pre ++ [m']) [] s ∧
    m_status m' = Some Complete ∧
    getMessageContent m' = visibleContent (parseThinkTags (queue_content q (getMessageContent m))) ∧
    (includes OPEN (queue_content q (getMessageContent m)) = false →
     message_reasoning m' = queue_reasoning q (message_reasoning m)).
Proof.
  intros Hq Hqs Hms Ha Hp Hl Hu. rewrite Hqs, length_app in Hl. simpl in Hl.
  destruct ks as [|k ks _] using rev_ind; [simpl in Hl; lia|]. rewrite length_app in Hl. simpl in Hl.
  rewrite map_app, chat_run_app.
  destruct (evaluate_flushes q [u] pre m ks s) as (m' & -> & Ha' & Hp' & Hc' & Hr'); [done..|lia|].
  exists (completeAssistantMessage m' (k1 k) (k2 k) (k3 k)). split_and!.
  - simpl. unfold evaluate_next. simpl. by rewrite Hu.
  - apply complete_status.
  - by rewrite complete_content, Hc'.
  - intros Ho. rewrite <- Hr' by done. pose proof (complete_reasoning m' (k1 k) (k2 k) (k3 k)) as Hf. cbv zeta in Hf.
    rewrite Hc', (parseThinkTags_plain _ Ho) in Hf. unfold final_reasoning in Hf. simpl in Hf. fold (message_reasoning m') in Hf.
    unfold message_reasoning at 1. destruct (truthy (message_reasoning m')) eqn:Et.
    + rewrite Et in Hf. destruct (m_reasoning (completeAssistantMessage _ _ _ _)); simpl in Hf; congruence.
    + simpl in Hf. apply truthy_false in Et as ->. by destruct (m_reasoning (completeAssistantMessage _ _ _ _)).
Qed.

Lemma complete_updater g k pre m :
  m_from m = Assistant → isAssistantMessagePending m = true →
  evaluate (UComplete g) g k (pre ++ [m]) =
  pre ++ [completeAssistantMessage m (k1 k) (k2 k) (k3 k)].
Proof.
  intros Ha Hp. simpl. rewrite Nat.eqb_refl. cbn [negb]. rewrite updateLast_snoc.
  rewrite bool_decide_eq_true_2 by done.
  assert (isAssistantMessageFinal m = false) as ->; [|done].
  unfold isAssistantMessagePending, isAssistantMessageFinal in *. by destruct (m_status m) as [[]|].
Qed.

Lemma stop_updater g k pre m :
  m_from m = Assistant → isAssistantMessagePending m = true →
  evaluate (UStop g) g k (pre ++ [m]) =
  pre ++ [completeAssistantMessage m (k1 k) (k2 k) (k3 k)].
Proof.
  intros Ha Hp. simpl. rewrite Nat.eqb_refl. cbn [negb]. rewrite updateLast_snoc.
  rewrite bool_decide_eq_true_2 by done. by rewrite Hp.
Qed.

(** What stopping leaves behind. *)
Lemma stop_state s :
  let s1 := flushStreamUpdates (requestGeneration s) s in
  messages (stopGeneration s) = messages s1 ∧
  queue (stopGeneration s) = queue s1 ++ [UStop (S (requestGeneration s))] ∧
  requestGeneration (stopGeneration s) = S (requestGeneration s) ∧
  isRequesting (stopGeneration s) = false ∧
  settled (stopGeneration s) = settled s ++ match activeResult s with
    | Some r => [(r, false)] | None => [] end ∧
  activeResult (stopGeneration s) = None.
Proof.
  cbv zeta. unfold stopGeneration. cbv zeta.
  destruct (flush_latch (requestGeneration s) s) as (Ha & _ & Hs).
  unfold settleRequest. simpl. rewrite Ha. destruct (activeResult s); simpl;
    rewrite ?Hs, ?app_nil_r; done.
Qed.

Lemma complete_state s :
  let g := requestGeneration s in
  let s1 := flushStreamUpdates g s in
  messages (handleStreamComplete g s) = messages s1 ∧
  queue (handleStreamComplete g s) = queue s1 ++ [UComplete g] ∧
  requestGeneration (handleStreamComplete g s) = g ∧
  isRequesting (handleStreamComplete g s) = false ∧
  settled (handleStreamComplete g s) = settled s ++ match activeResult s with
    | Some r => [(r, true)] | None => [] end ∧
  activeResult (handleStreamComplete g s) = None.
Proof.
  cbv zeta. unfold handleStreamComplete. rewrite Nat.eqb_refl. cbn [negb].
  destruct (flush_latch (requestGeneration s) s) as (Ha & _ & Hs).
  pose proof (flush_generation (requestGeneration s) s) as Hg.
  unfold settleRequest. rewrite Ha. destruct (activeResult s); simpl;
    rewrite ?Hs, ?Hg, ?app_nil_r; split_and!; done.
Qed.

Lemma stream_event_latch g s e :
  stream_event g e → same_latch s (step s e).
Proof.
  destruct e; try done; intros _; simpl.
  - unfold handleStreamUpdate, scheduleStreamFlush. by repeat case_match.
  - destruct (flushTimer s); [apply flush_latch|done].
  - unfold evaluate_next. by case_match.
Qed.

Lemma stream_run_latch g es s : Forall (stream_event g) es → same_latch s (run s es).
Proof.
  intros Hes. revert s. induction Hes as [|e es He _ IH]; intros s; [done|].
  rewrite run_cons. eapply same_latch_trans; [by eapply stream_event_latch|]. apply IH.
Qed.

Lemma run_one s e : run s [e] = step s e.
Proof. done. Qed.

#[local] Opaque stopGeneration handleStreamComplete flushStreamUpdates.

(** The end of a stream: [e] queues [u] last, which completes the message. *)
Lemma streamed_end_generic g pre chunks thoughts s s' u ks :
  no_repeat chunks → Streamed g pre chunks s →
  (includes OPEN (concat chunks) = false → no_repeat thoughts → Thought pre thoughts s) →
  messages s' = messages (flushStreamUpdates g s) →
  queue s' = queue (flushStreamUpdates g s) ++ [u] →
  (∀ m' k, m_from m' = Assistant → isAssistantMessagePending m' = true →
    evaluate u (requestGeneration s') k (pre ++ [m']) =
    pre ++ [completeAssistantMessage m' (k1 k) (k2 k) (k3 k)]) →
  length ks = length (queue s') →
  ∃ m', run s' (map EEvaluate ks) = set_messages (pre ++ [m']) [] s' ∧
    m_status m' = Some Complete ∧
    getMessageContent m' = visibleContent (parseThinkTags (concat chunks)) ∧
    (includes OPEN (concat chunks) = false → no_repeat thoughts → message_reasoning m' = concat thoughts).
Proof.
  intros Hn Hs Ht Hm Hq Hu Hl.
  destruct (streamed_flush g pre _ _ Hn Hs) as [Hs' (m1 & Hm1 & Ha1 & Hp1 & Hq1)].
  destruct (evaluate_to_completion (queue (flushStreamUpdates g s)) u pre m1 ks s') as (m' & Hrun & Hst & Hc & Hr);
    [apply Hs'|exact Hq|by rewrite Hm|done..|]. rewrite Hq1 in Hc, Hr.
  exists m'. split_and!; [done..|]. intros Ho Hnt. rewrite Hr by done.
  destruct (thought_flush g pre thoughts s) as [_ (m2 & Hm2 & Hq2)]; [done|apply Hs|apply Hs|by apply Ht|].
  rewrite Hm1 in Hm2. by apply app_inj_tail in Hm2 as [_ <-].
Qed.

Lemma streamed_end g pre chunks thoughts s r (stopped : bool) ks :
  no_repeat chunks → Streamed g pre chunks s →
  (includes OPEN (concat chunks) = false → no_repeat thoughts → Thought pre thoughts s) → activeResult s = Some r →
  let s1 := step s (if stopped then EStop else EComplete g) in
  length ks = length (queue s1) →
  let s2 := run s1 (map EEvaluate ks) in
  ∃ m', messages s2 = pre ++ [m'] ∧ m_status m' = Some Complete ∧
    getMessageContent m' = visibleContent (parseThinkTags (concat chunks)) ∧
    (includes OPEN (concat chunks) = false → no_repeat thoughts → message_reasoning m' = concat thoughts) ∧
    queue s2 = [] ∧ isRequesting s2 = false ∧ activeResult s2 = None ∧
    settled s2 = settled s ++ [(r, negb stopped)].
Proof.
  intros Hn Hs Ht Hr s1 Hl s2. pose proof (st_generation _ _ _ _ Hs) as Hg. subst g.
  set (u := if stopped then UStop (S (requestGeneration s)) else UComplete (requestGeneration s)).
  assert (messages s1 = messages (flushStreamUpdates (requestGeneration s) s) ∧
    queue s1 = queue (flushStreamUpdates (requestGeneration s) s) ++ [u] ∧
    isRequesting s1 = false ∧ settled s1 = settled s ++ [(r, negb stopped)] ∧
    activeResult s1 = None ∧
    ∀ m' k, m_from m' = Assistant → isAssistantMessagePending m' = true →
      evaluate u (requestGeneration s1) k (pre ++ [m']) =
      pre ++ [completeAssistantMessage m' (k1 k) (k2 k) (k3 k)]) as (E1 & E2 & E3 & E4 & E5 & E6).
  { destruct stopped.
    - pose proof (stop_state s) as H. cbv zeta in H. rewrite Hr in H.
      destruct H as (? & ? & Hg & ? & ? & ?). unfold s1, u. split_and!; try assumption.
      intros m' k Ha Hp. cbn [step]. rewrite Hg. by apply stop_updater.
    - pose proof (complete_state s) as H. cbv zeta in H. rewrite Hr in H.
      destruct H as (? & ? & Hg & ? & ? & ?). unfold s1, u. split_and!; try assumption.
      intros m' k Ha Hp. cbn [step]. rewrite Hg. by apply complete_updater. }
  clearbody s1 u. unfold s2. clear s2.
  destruct (streamed_end_generic _ pre chunks thoughts s s1 u ks Hn Hs Ht E1 E2 E6 Hl) as (m' & -> & Hst & Hc & Hre).
  exists m'. cbn [set_messages messages queue isRequesting activeResult settled].
  by rewrite E3, E4, E5.
Qed.

End translated.

(** ** Properties *)

(** [C4] A streamed answer reaches its message whole, however it is batched, if its chunks do
    not repeat what precedes them (a chunk, or a stretch of chunks, that begins with a stretch
    right before it would be taken for a cumulative one): from the state in which request [g]
    was sent, through any interleaving of content and reasoning chunks, timer flushes and
    evaluations of queued updates, once the stream completes or the user stops it and the
    queued updates are evaluated, the last message is complete and shows the visible part of
    the concatenation of all content chunks; if these have no think tags, and the chunks of
    reasoning do not repeat what precedes them either, its reasoning is their concatenation.
    The request is settled, as a success exactly when the stream completed, and nothing stays
    queued. *)
Theorem streamed_answer_complete (t : jsstr → jsstr) (s : State) (g r : nat)
    (pre : list Message) (m : Message) (es : list Event) (stopped : bool) (ks : list Clock) :
  requestGeneration s = g → pending s = mkPendingChunks g [] [] → queue s = [] →
  activeResult s = Some r →
  messages s = pre ++ [m] → m_from m = Assistant → m_status m = Some Loading →
  getMessageContent m = [] → message_reasoning m = [] →
  Forall (stream_event g) es → no_repeat (content_chunks es) →
  let s1 := run t s (es ++ [if stopped then EStop else EComplete g]) in
  length ks = length (queue s1) →
  let s2 := run t s1 (map EEvaluate ks) in
  ∃ m', messages s2 = pre ++ [m'] ∧ m_status m' = Some Complete ∧
    getMessageContent m' = visibleContent (parseThinkTags (concat (content_chunks es))) ∧
    (includes OPEN (concat (content_chunks es)) = false → no_repeat (reasoning_chunks es) →
     message_reasoning m' = concat (reasoning_chunks es)) ∧
    queue s2 = [] ∧ isRequesting s2 = false ∧ activeResult s2 = None ∧
    settled s2 = settled s ++ [(r, negb stopped)].
Proof.
  intros Hg Hp Hq Hr Hm Ha Hst Hc Hmr Hes Hn s1 Hl s2.
  assert (Streamed g pre [] s) as H0.
  { constructor; [done|by rewrite Hp|by rewrite Hq|]. exists m. split_and!; [done|done| |].
    - unfold isAssistantMessagePending. by rewrite Hst.
    - exists [], []. rewrite Hq, Hp. simpl. by rewrite Hc. }
  pose proof (streamed_run t g pre es [] s Hes Hn H0) as Hs. simpl in Hs.
  destruct (stream_run_latch t g es s Hes) as (Hl1 & _ & Hl3). rewrite Hr in Hl1.
  unfold s2, s1 in *. clear s1 s2. revert Hl. rewrite chat_run_app, run_one. intros Hl.
  assert (Thought pre [] s) as Ht0 by (exists m, [], []; by rewrite Hm, Hq, Hp, <- Hmr).
  assert (includes OPEN (concat (content_chunks es)) = false → no_repeat (reasoning_chunks es) →
    Thought pre (reasoning_chunks es) (run t s es)) as Ht
    by (intros Ho Hnt; exact (thought_run t g pre es [] [] s Hes Hn Hnt Ho H0 Ht0)).
  destruct (streamed_end t g pre _ (reasoning_chunks es) _ r stopped ks Hn Hs Ht Hl1 Hl)
    as (m' & E1 & E2 & E3 & E4 & E5 & E6 & E7 & E8).
  exists m'. rewrite <-Hl3. split_and!; assumption.
Qed.

Definition example_config : PlaygroundConfig :=
  mkConfig (Some (num_of_Z 3)) (js "gpt-4o") (js "default") (num_of_Z 1) (num_of_Z 1)
    (num_of_Z 4096) (num_of_Z 0) (num_of_Z 0) None true.

Definition example_key : PlaygroundKey :=
  mkKey None (num_of_Z 3) (js "k") (num_of_Z 1) (js "default") (num_of_Z 5) false (num_of_Z (-1)).

Definition example_enabled : ParameterEnabled := mkEnabled true true false true true false.

(** A message sent from an empty conversation, its list evaluated. *)
Definition example_sent : State :=
  run (λ s, s) (init []) [ESend true (Some example_key) example_config example_enabled (num_of_Z 9) [];
    ESetMessages [createLoadingAssistantMessage (js "k") (js "v") 5]; EEvaluate (mkClock 1 2 3)].

Lemma streamed_answer_complete_witness :
  let es := [EUpdate 1 ContentChunk (js "He"); ETimer; EUpdate 1 ReasoningChunk (js "why");
             EUpdate 1 ContentChunk (js "llo")] in
  let s2 := run (λ s, s) (run (λ s, s) example_sent (es ++ [EStop]))
    (map EEvaluate [mkClock 1 2 3; mkClock 4 5 6; mkClock 7 8 9]) in
  settled s2 = [(0%nat, false)] ∧ queue s2 = [].
Proof.
  set (es := [EUpdate 1 ContentChunk (js "He"); ETimer; EUpdate 1 ReasoningChunk (js "why");
             EUpdate 1 ContentChunk (js "llo")]).
  assert (no_repeat (content_chunks es)) as Hn.
  { intros pre a b post Heq Ha. change (content_chunks es) with [js "He"; js "llo"] in Heq.
    destruct pre as [|x pre].
    - destruct a as [|y a]; [done|]. injection Heq as <- Heq. destruct a as [|z a].
      + destruct b as [|w b]; [done|]. injection Heq as <- Heq. by destruct b.
      + injection Heq as <- Heq. destruct a; [|done]. by destruct b.
    - injection Heq as <- Heq. destruct pre as [|x' pre].
      + destruct a as [|y a]; [done|]. injection Heq as <- Heq. destruct a; [|done].
        by destruct b.
      + injection Heq as <- Heq. by destruct pre, a. }
  set (ks := [mkClock 1 2 3; mkClock 4 5 6; mkClock 7 8 9]).
  assert (requestGeneration example_sent = 1%nat) as H1 by (vm_compute; reflexivity).
  assert (pending example_sent = mkPendingChunks 1 [] []) as H2 by (vm_compute; reflexivity).
  assert (queue example_sent = []) as H3 by (vm_compute; reflexivity).
  assert (activeResult example_sent = Some 0%nat) as H4 by (vm_compute; reflexivity).
  assert (messages example_sent = [] ++ [createLoadingAssistantMessage (js "k") (js "v") 5]) as H5
    by (vm_compute; reflexivity).
  assert (Forall (stream_event 1) es) as H6 by repeat constructor.
  assert (length ks = length (queue (run (λ s, s) example_sent (es ++ [EStop])))) as H7
    by (vm_compute; reflexivity).
  assert (settled example_sent = []) as H8 by (vm_compute; reflexivity).
  destruct (streamed_answer_complete (λ s, s) example_sent 1 0 []
    (createLoadingAssistantMessage (js "k") (js "v") 5) es true ks H1 H2 H3 H4 H5 eq_refl eq_refl
    eq_refl eq_refl H6 Hn H7) as (m' & _ & _ & _ & _ & Hq & _ & _ & Hs).
  split; [rewrite H8 in Hs; exact Hs|exact Hq].
Defined.

(** [C5] Each accepted request is settled exactly once: over any sequence of events, every
    promise [sendChat] handed out is either the one in the latch or has been settled, and
    none twice; while one is in the latch, a send is refused and changes nothing. *)
Theorem requests_settle_once (t : jsstr → jsstr) (ms : list Message) (es : list Event)
    (canSend : bool) (key : option PlaygroundKey) (config : PlaygroundConfig)
    (e : ParameterEnabled) (now : jsnum) (ms' : list Message) :
  let s := run t (init ms) es in
  NoDup (settled s).*1 ∧
  (∀ r, (r < nextResult s)%nat ↔ r ∈ (settled s).*1 ∨ activeResult s = Some r) ∧
  (∀ r, activeResult s = Some r → r ∉ (settled s).*1) ∧
  (activeResult s ≠ None → sendChat t canSend key config e now ms' s = (s, None)) ∧
  (∀ s' r, sendChat t canSend key config e now ms' s = (s', Some r) →
     r = nextResult s ∧ activeResult s' = Some r ∧
     requestGeneration s' = S (requestGeneration s)).
Proof.
  cbv zeta. set (s := run t (init ms) es).
  assert (latch_inv s) as (H1 & H2 & H3 & H4).
  { apply run_latch. unfold latch_inv. simpl. split_and!; [constructor|set_solver|done|lia]. }
  split_and!; [done| | | |].
  - intros r. split; [apply H4|]. intros [?|?]; [by apply H2|by apply H3].
  - intros r Hr. by apply H3.
  - intros Ha. unfold sendChat. by destruct (activeResult s).
  - intros s' r. unfold sendChat. destruct (activeResult s); [done|].
    destruct key; [|done]. destruct (_ || _); [done|].
    destruct (validateConversationAttachments ms'); [|done].
    destruct (stream config); intros [= <- <-]; done.
Qed.

(** A superseded or stopped request is inert: once the handler has moved past
    generation [g], whatever happens next, a chunk, a completion, an error, a response or
    a failure that belongs to [g] changes nothing. *)
Theorem superseded_request_inert (t : jsstr → jsstr) (s : State) (g : nat) (es : list Event)
    (e : Event) :
  (g < requestGeneration s)%nat →
  event_generation e = Some g →
  step t (run t s es) e = run t s es.
Proof.
  intros Hg He. pose proof (run_generation t es s). apply (stale_event t _ e g He). lia.
Qed.

Lemma superseded_request_inert_witness :
  step (λ s, s) (run (λ s, s) (stopGeneration example_sent) [ETimer])
    (EUpdate 1 ContentChunk (js "late")) =
  run (λ s, s) (stopGeneration example_sent) [ETimer].
Proof.
  apply (superseded_request_inert (λ s, s) (stopGeneration example_sent) 1 [ETimer]).
  - apply Nat.ltb_lt. by vm_compute.
  - done.
Defined.

End Chat.
